(* ===== verification/_CoqProject ===== *)
-Q . S2P
Prelude.v
Crc32c.v
SizeFlags.v
OnDisk.v
Timeouts.v
Io.v
DeltaLease.v
DeltaSafety.v
PaxosBlocks.v
PaxosBallot.v
PaxosLease.v
BallotLog.v
PaxosSafety.v
AcquireSafety.v
AcquireProgress.v
BallotQuorum.v
BallotSystem.v
BallotAgreement.v
Lockspace.v
HostStatus.v
LockspaceThread.v
LockspaceLists.v
Clients.v
Commands.v
Claims.v
Recovery.v
RecoveryMain.v
DaemonSystem.v
ResourceDisk.v
Rindex.v
RindexSafety.v
RindexOrder.v
Resource.v
ResourceLists.v
ResourceOps.v
ResourceAcquire.v
ResourceBackground.v
ResourceSystem.v
ResourceSafety.v
Aio.v
AioSafety.v
Client.v
ClientRequests.v
ClientProtocol.v
ClientStrings.v
ClientCodec.v
ClientSafety.v
Wdmd.v
