(* ===== verification/Prelude.v ===== *)
(** * sanlock: shared storage leases, in Rocq

    sanlock gives hosts that share block devices leases on resources. Two kinds
    of leases are kept on the disks, both in [src/src/]:

    - a _delta lease_ ([delta_lease.c]) per host id of a lockspace: one sector,
      which its owner renews; the id of a host that does not renew it can be
      taken after a delay in which that host's watchdog has fired;
    - a _paxos lease_ ([paxos_lease.c]) per resource: an area on each of the
      resource's disks, with a leader record (owner and version of the lease), a
      request record and one dblock per host id; an owner is chosen by a Disk
      Paxos ballot over the dblocks, and an owner is dead when its delta lease
      says so.

    The daemon around them ([main.c], [cmd.c], [resource.c], [lockspace.c],
    [rindex.c]) serves local clients, renews the delta leases, and kills the
    holders of leases when a renewal fails.

    ** Files

    - [Prelude]: machine integers as [Z] with the wrap-around written out
      ([u16], [u32], [u64], [i32]), byte lists, C strings ([strncpy],
      [snprintf]), tactics ([rw], [zbool], [cases]) and the hint database
      [sanlock].
    - [Crc32c] ([crc32c.c]): the table and the loop.
    - [SizeFlags] ([sizeflags.c]): sector and align sizes in flags.
    - [OnDisk] ([ondisk.c], [leader.h], [paxos_dblock.h], [mode_block.h],
      [rindex_disk.h]): the records with their byte layout, one instance of the
      class [OnDisk] each, and the sealing of leaders and dblocks with their
      checksum.
    - [Timeouts] ([timeouts.c]): the intervals derived from the io timeout.
    - [Io] ([diskio.c]): programs with effects. [prog] is the free monad over the
      commands [cmd] (allocate, read, write, clock, sleep, the functions of other
      components that the lease code calls); [Ub] is an access out of bounds or
      an overflow of a signed product. [always_in R p I Q h] says of all runs of
      [p] in the environments [R] that no [Ub] is reached, that every history of
      i/o satisfies [I] and every result [Q]; [always] is that for all responses
      that keep to the documented behaviour of the callees ([resp_ok]). [run]
      executes a program against a handler, such as a world of disks with
      scripted failures.
    - [DeltaLease] ([delta_lease.c]), [PaxosBlocks], [PaxosBallot], [PaxosLease]
      ([paxos_lease.c], with [set_id_bit] of [lockspace.c] and
      [check_mode_block] of [resource.c]): the lease code, function by function
      under the source's names. A function that sets out parameters returns
      them; [struct token] and the locals that live across the labels of
      [paxos_lease_acquire] are records that are passed on.
    - [DeltaSafety], [BallotLog], [PaxosSafety], [AcquireSafety]: what each
      operation does to the disks, for every sequence of i/o results.
    - [AcquireProgress]: a free lease is acquired when i/o works.
    - [BallotQuorum], [BallotSystem], [BallotAgreement]: any number of hosts that
      run ballots concurrently.
    - [Lockspace], [HostStatus] ([lockspace.c]): the lists [spaces], [spaces_add]
      and [spaces_rem] as a record [lockspaces] with every operation on them, and
      what a host keeps of the others: status, bitmap, events.
    - [LockspaceThread] ([lockspace_thread], [watchdog.c]): the thread that
      acquires and renews the host id of a lockspace and keeps its watchdog
      connection alive.
    - [LockspaceLists]: the invariant of the lists, kept by every operation.
    - [Clients] ([main.c]): the client array, connections and their death, the
      killing of processes, and the check of the lockspaces in [main_loop].
    - [Commands] ([cmd.c], [process_connection]): the commands of the daemon as
      [thread]s, free monads of critical sections on the shared state ([Atomic])
      and of calls outside of it ([Ask]); [Spawn] queues a command for a worker.
    - [Claims]: the invariant of clients and lockspaces, and a rely/guarantee logic
      for threads ([keeps]): what a thread may claim of an entry, and a rule per
      kind of critical section. [Recovery] applies it to all commands and
      handlers, [RecoveryMain] shows what a turn of the main loop does.
    - [DaemonSystem]: the main thread, workers and lockspace threads as a step
      relation, and a function [run] that executes it.

    - [ResourceDisk] ([resource.c], first part): the disk operations of a lease that
      are not paxos: host blocks with dblock and mode block, the clearing of shared
      leases of dead hosts, the value block, requests, the report of owners.
    - [Resource] ([resource.c], second part): resources and tokens on a heap of
      addresses, the five lists as a record [rlists], and every operation as an
      [rthread]: critical sections on the manager ([RSec], [None] for a dangling
      pointer or an unlink of what is on no list) and the i/o between them ([RIo]).
    - [ResourceLists]: the invariant [inv] of the lists and a rely/guarantee logic
      [safe] with claims on tokens and resources. [ResourceOps] (release),
      [ResourceAcquire] (acquire, convert) and [ResourceBackground] (the resource
      thread and the operations on whole lists) apply it to every operation.
    - [ResourceSystem]: any number of such threads as a step relation, with concrete
      runs. [ResourceSafety]: what the disk operations do.

    - [Rindex] ([rindex.c]): the resource index, an area that records the names and
      offsets of the leases that follow it: format, create, delete, lookup, update and
      rebuild. [RindexSafety]: its entries as a list, and what the operations do to the
      list on a device without failures. [RindexOrder]: the order of the writes of
      creation and deletion for every sequence of i/o results.

    - [Aio] ([diskio.c], [task.c], [delta_lease_renew]): the slots and buffers of
      asynchronous i/o, whose requests stay with the kernel after a timeout, as functions
      on a state that fail where memory is freed twice or while the kernel has it.
      [AioSafety]: an ownership discipline for the buffers.

    - [Client] ([client.c]): the requests of the client library as programs over socket
      calls. [ClientRequests], [ClientProtocol]: all of them as one type, the
      descriptors they hold and the bytes they send.
    - [ClientStrings] ([client.c]): resources and lockspaces as strings.
      [ClientCodec], [ClientSafety]: round trips, and the bounds of the buffers.

    - [Wdmd] ([wdmd/main.c]): the watchdog daemon, a turn of [test_loop] as a
      function of its state and of what it reads.

    ** What is proved

    - Ballots: [BallotLog.run_ballot_contract] refines [run_ballot] to the steps
      of a Disk Paxos ballot on the history of its i/o; [BallotSystem] runs that
      contract in a step relation of hosts that start ballots, have reads and
      writes land at any later time, fail and stop; its invariant is proved by
      induction on the steps and the quorum argument of [BallotQuorum] gives
      [BallotAgreement.ballot_agreement]: ballots that succeed for one lease version
      return the same owner, when each is the last of its host for that version.
      [PaxosLease.ballot_numbers_disjoint] shows that the ballot numbers of
      hosts never collide, which the agreement theorem assumes of them.
    - Taking over: [AcquireSafety.acquire_entitled], [acquire_ok_owned] for paxos
      leases, [DeltaSafety.delta_acquire_takeover] for host ids: nothing is
      written before reads show that the previous owner is gone (its sector of the
      lockspace, by descriptor and offset, for a host id; the leader record, the owner's
      delta lease in the token's lockspace and its dblock for a paxos lease), and success
      means that the lease is on the disks with this host's name.
    - Keeping and giving back: [DeltaSafety.delta_renew_keeps_owner],
      [PaxosSafety.release_only_ours], [leader_read_majority].
    - Formatting: [DeltaSafety.delta_init_commits],
      [PaxosSafety.paxos_init_formats].
    - Data: encoding round trips and checksums ([OnDisk], [Crc32c],
      [PaxosBlocks]), sizes and flags ([SizeFlags]), timeouts ([Timeouts]).
    - Progress: [AcquireProgress.acquire_free_lease].
    - Lockspaces: [LockspaceThread.watchdog_follows_lease] (the watchdog is kept
      alive only by renewals), [HostStatus.host_flag_sound] and
      [notification_exact] (what is reported of other hosts).
    - Recovery: [DaemonSystem.lockspace_outlives_holders], the invariant that ties a
      process to its lockspaces under every interleaving of commands, deaths and
      the main loop; [RecoveryMain.lost_lockspace_kills] and [stopped_when_unused],
      what the main loop does when a lockspace is lost; [lockspaces_well_formed]
      and [main_turn_total].
    - Resources: [ResourceSystem.resources_consistent], the invariant of the lists
      under every interleaving, with the absence of dangling pointers;
      [holders_share], processes of a host hold one lease together only in shared
      mode; [ResourceSafety.clear_dead_shared_sound], the shared lease of a host is
      cleared only when it is dead; [acquire_lookup_exact], how an acquire ends that
      finds the name in use; [host_block_roundtrip].
    - The resource index: [RindexSafety.search_is_first_match], [index_format_empty],
      [index_lookup_refines], [index_add_lookup] and [index_create_refines], the
      operations as operations on a list of entries;
      [RindexOrder.create_lease_before_entry] and [delete_entry_before_lease]: an
      interruption never leaves an entry of a lease that is not there.
    - Buffers: [AioSafety.lockspace_io_safe], no buffer of a lockspace thread is freed
      twice or under the kernel's hands, whatever times out; [aio_request_ownership] and
      [sector_io_balanced] for single requests.
    - The client library: [ClientProtocol.request_descriptors], [request_framing],
      [test_owners_exact]; [ClientSafety.state_string_roundtrip], [str_to_res_safe],
      [state_to_args_safe].
    - Watchdog: [Wdmd.watchdog_left_to_fire], which is what makes the expire times
      of [watchdog_follows_lease] reset a host that lost its host id, and
      [device_follows_clients].
    - Defects of the daemon: [Commands.release_all_tokens],
      [DaemonSystem.killpath_strands_connection] and [convert_wedges_process];
      [HostStatus.bad_lease_stays_live] and
      [LockspaceThread.open_failure_closes_stdin] for lockspaces;
      [ResourceSystem.convert_ignores_sharers] and
      [ResourceSafety.orphan_only_acquires] for resources;
      [RindexOrder.create_ignores_enomem] and [full_index_overflows] for the index;
      [ClientProtocol.unsent_request_leaks] for the client library;
      [AioSafety.write_timeout_loses_buffer], [lvb_timeout_unsafe] and
      [getevents_error_unsafe] for asynchronous i/o.
    - [PaxosSafety.acquire_alloc_failure] is a defect: an allocation failure in a
      ballot is taken for success.

    ** Assumptions and bounds

    - A read or write of a sector is atomic; a write that failed either has
      landed or never will (in [BallotSystem] it may land while it is pending). So a
      write that is reported as timed out and reaches the disk after that, as a request
      that stays with the kernel may, is outside [ballot_agreement]. A device is identified with its descriptor, so that the disks of a lease
      have different ones.
    - The loop of [paxos_lease_acquire] has no bound, in the code either: its
      model takes fuel, one unit per label, and the theorems hold for any
      amount; the demonstration runs need three. The other loops are structural.
    - [acquire_entitled] and [acquire_ok_owned] assume that the allocator does
      not fail (see the defect above; so does [acquire_free_lease]), that [host_info]
      finds the host, and that valid leader records of the lease have its geometry and at most
      [max_hosts] hosts: a lease that is formatted anew with other sizes during
      an acquire makes the code read out of bounds.
    - Threads of the daemon interleave at critical sections, as the mutexes make
      them; the check of all lockspaces is one section, since it holds
      [spaces_mutex], which the section that gives a client new tokens takes too,
      and the clock does not advance in it. [answer_ok] lists what is assumed of
      calls: the pid of a peer is not negative, and the token array of a process
      that registers can be allocated (the code goes on with a NULL array
      otherwise); a turn of the main loop in the system has its check buffer. The
      handler of a connection starts only when [poll] watches it ([watched]).
      Wait loops of commands take fuel, which a step that starts a worker chooses
      freely, so that all finite executions are covered.
    - In [ResourceSystem] one thread at a time works on a token, as [cmd_active] and
      the client's thread make it (the main thread may mark its lockspace dead at any
      time), an update of [r->flags] outside of the mutex is atomic, and the clock is
      read once in a turn of the resource thread. [res_set_lvb] and [res_get_lvb] are
      modelled but not among its threads: the latter reads past the value block when
      the caller asks for more. A lease loop that used up its fuel stops its thread.
    - The theorems on the resource index take a header whose sizes and number of
      entries are ones that [rindex_format] writes ([index_geometry], which
      [index_format_empty] establishes); the code does not check this of a header that
      it reads. [create_lease_before_entry] assumes that allocations succeed (see
      [create_ignores_enomem]) and that no entry number times the align size reaches
      2^31. The name of the lockspace in a request is compared with [strcmp]: where it
      has no NUL the comparison can run past the field, which is [Ub] in the model, and
      the theorems assume it where it matters; [lookup_answer] has no answer for offsets
      outside of the index, where the code reads outside of its buffer.
    - In [clear_dead_shared_sound] the status of a host and the clock may change with
      every i/o, in any way.
    - The kernel of [Aio] may answer late, out of order or never; [lockspace_io_safe]
      assumes that [io_getevents] fails only when it is interrupted, since
      [do_linux_aio] frees a buffer that is in flight otherwise.
    - A socket call may fail or do less at any point; the structures that callers of
      the client library pass have their sizes.
    - The clock that [wdmd] reads in [test_clients] does not go back, and a turn of
      it is given enough rounds of waiting for scripts ([enough_rounds]).
    - Indeterminate locals of the C code are arguments of the model, and the
      theorems hold for all their values.

    ** What is not modelled

    Log output, debug strings and the owner names that status reports show are
    left out. System calls (disk and socket i/o, processes, sysfs) are commands with
    arbitrary results. In [Commands] the functions of [resource.c] are calls whose
    result is arbitrary; [ResourceSystem] runs them, with the sessions that the
    commands make of them. Not modelled are the status output and the commands of
    [cmd.c] that only call the lease code (reading and writing leases, the index), the
    command line and configuration of [main.c], the offline commands of [direct.c] and
    [direct_lib.c], the output of [client_cmd.c], [helper.c], [log.c], [lockfile.c], the
    client library and the probing options of wdmd, the Python binding, and the fencing
    and reset agents. *)

From Corelib Require Export ssreflect.
From stdpp Require Export base gmap list fin_maps strings.
From stdpp Require Export numbers.
From Stdlib Require Export ZArith Lia.

#[global] Open Scope Z_scope.

(** ** Machine-width integers *)

(** The C types of the sources are integers kept at their width: an unsigned
    [w]-bit value is the residue modulo [2^w], a signed [int] the residue
    shifted into [-2^31, 2^31). *)

Definition wrapu (w x : Z) : Z := x mod 2 ^ w.
Definition u8 (x : Z) : Z := wrapu 8 x.
Definition u16 (x : Z) : Z := wrapu 16 x.
Definition u32 (x : Z) : Z := wrapu 32 x.
Definition u64 (x : Z) : Z := wrapu 64 x.
Definition i32 (x : Z) : Z := (x + 2 ^ 31) mod 2 ^ 32 - 2 ^ 31.

Definition is_u (w x : Z) : Prop := 0 <= x < 2 ^ w.

(** [flags & mask] used as a condition, [flags & ~mask], and [~x] on 32 bits. *)
Definition has_flag (flags mask : Z) : bool := negb (Z.land flags mask =? 0).
Definition clear_flag (flags mask : Z) : Z := Z.ldiff flags mask.
Definition not32 (x : Z) : Z := Z.lxor x (2 ^ 32 - 1).

(** A C truth value. *)
Definition zb (b : bool) : Z := if b then 1 else 0.
Definition nz (x : Z) : bool := negb (x =? 0).

Lemma wrapu_small w x : is_u w x -> wrapu w x = x.
Proof. intros H. by apply Z.mod_small. Qed.

Lemma wrapu_is_u w x : 0 <= w -> is_u w (wrapu w x).
Proof. intros. apply Z.mod_pos_bound. lia. Qed.

Lemma i32_small x : - 2 ^ 31 <= x < 2 ^ 31 -> i32 x = x.
Proof. intros H. unfold i32. rw Z.mod_small; lia. Qed.

Lemma i32_range x : - 2 ^ 31 <= i32 x < 2 ^ 31.
Proof. unfold i32. pose proof (Z.mod_pos_bound (x + 2 ^ 31) (2 ^ 32)). lia. Qed.

(** ** Bit-level facts *)

Lemma is_u_testbit w x :
  0 <= w -> 0 <= x -> is_u w x <-> (forall i, w <= i -> Z.testbit x i = false).
Proof.
  intros Hw Hx. split.
  - intros [_ Hlt] i Hi.
    destruct (Z.eq_dec x 0) as [->|Hne]; [apply Z.testbit_0_l|].
    apply Z.bits_above_log2; [lia|].
    apply Z.log2_lt_pow2; [lia|].
    apply Z.lt_le_trans with (2 ^ w); [lia|]. apply Z.pow_le_mono_r; lia.
  - intros Hb. split; [lia|].
    destruct (Z.eq_dec x 0) as [->|Hne]; [lia|].
    apply Z.log2_lt_pow2; [lia|].
    destruct (Z.lt_ge_cases (Z.log2 x) w) as [|Hge]; [done|].
    pose proof (Z.bit_log2 x ltac:(lia)) as Ht. rw Hb in Ht; done.
Qed.

Lemma is_u_lxor w x y : 0 <= w -> is_u w x -> is_u w y -> is_u w (Z.lxor x y).
Proof.
  intros Hw Hx Hy. apply is_u_testbit; [done| |].
  - apply Z.lxor_nonneg. unfold is_u in *. lia.
  - intros i Hi. rw Z.lxor_spec.
    rw (proj1 (is_u_testbit w x Hw (proj1 Hx)) Hx i Hi).
    by rw (proj1 (is_u_testbit w y Hw (proj1 Hy)) Hy i Hi).
Qed.

Lemma is_u_lor w x y : 0 <= w -> is_u w x -> is_u w y -> is_u w (Z.lor x y).
Proof.
  intros Hw Hx Hy. apply is_u_testbit; [done| |].
  - apply Z.lor_nonneg. unfold is_u in *. lia.
  - intros i Hi. rw Z.lor_spec.
    rw (proj1 (is_u_testbit w x Hw (proj1 Hx)) Hx i Hi).
    by rw (proj1 (is_u_testbit w y Hw (proj1 Hy)) Hy i Hi).
Qed.

Lemma is_u_ldiff w x y : 0 <= w -> is_u w x -> is_u w (Z.ldiff x y).
Proof.
  intros Hw Hx. apply is_u_testbit; [done| |].
  - apply Z.ldiff_nonneg. left. apply Hx.
  - intros i Hi. rw Z.ldiff_spec. by rw (proj1 (is_u_testbit w x Hw (proj1 Hx)) Hx i Hi).
Qed.

Lemma is_u_shiftr w x n : 0 <= n -> is_u w x -> is_u w (Z.shiftr x n).
Proof.
  intros Hn [H0 H1]. rw /is_u Z.shiftr_div_pow2 //.
  assert (0 < 2 ^ n) by lia. split; [apply Z.div_pos; lia|].
  apply Z.le_lt_trans with x; [|done]. apply Z.div_le_upper_bound; nia.
Qed.

Lemma is_u_mono w v x : w <= v -> is_u w x -> is_u v x.
Proof.
  intros Hle [H0 H1]. split; [done|].
  apply Z.lt_le_trans with (2 ^ w); [done|]. apply Z.pow_le_mono_r; lia.
Qed.

(** A test of a single flag bit, and what setting and clearing bits does to it. *)
Lemma has_flag_bit f k : 0 <= k -> has_flag f (2 ^ k) = Z.testbit f k.
Proof.
  intros Hk. unfold has_flag. destruct (Z.testbit f k) eqn:E.
  - apply negb_true_iff, Z.eqb_neq. intros H0.
    assert (Z.testbit (Z.land f (2 ^ k)) k = true) as Ht.
    { by rw Z.land_spec E Z.pow2_bits_true. }
    by rw H0 Z.testbit_0_l in Ht.
  - apply negb_false_iff, Z.eqb_eq, Z.bits_inj'; intros i Hi.
    rw Z.land_spec Z.testbit_0_l. destruct (Z.eq_dec i k) as [->|Hne]; [by rw E|].
    by rw Z.pow2_bits_false ?andb_false_r; [lia|].
Qed.

Lemma has_flag_lor a b k : has_flag (Z.lor a b) k = has_flag a k || has_flag b k.
Proof.
  unfold has_flag. rw Z.land_lor_distr_l -negb_andb. f_equal. apply Bool.eq_iff_eq_true.
  rw andb_true_iff !Z.eqb_eq. apply Z.lor_eq_0_iff.
Qed.

Lemma has_flag_clear_other a b k : Z.land b k = 0 -> has_flag (clear_flag a b) k = has_flag a k.
Proof.
  intros H. unfold has_flag, clear_flag. do 2 f_equal. apply Z.bits_inj'; intros i Hi.
  rw !Z.land_spec Z.ldiff_spec. assert (Z.testbit (Z.land b k) i = false) as Hb by (by rw H Z.testbit_0_l).
  rw Z.land_spec in Hb. destruct (Z.testbit a i), (Z.testbit b i), (Z.testbit k i); done.
Qed.

Lemma has_flag_clear_same a k : has_flag (clear_flag a k) k = false.
Proof.
  unfold has_flag, clear_flag. apply negb_false_iff, Z.eqb_eq, Z.bits_inj'; intros i Hi.
  rw Z.land_spec Z.ldiff_spec Z.testbit_0_l. by destruct (Z.testbit a i), (Z.testbit k i).
Qed.

(** ** Bytes, little-endian fields *)

(** A byte is a [Z] in [0, 256); a C buffer is the list of its bytes. *)
Definition byte_ok (b : Z) : Prop := is_u 8 b.
Definition bytes_ok (bs : list Z) : Prop := Forall byte_ok bs.

Fixpoint le_split (n : nat) (v : Z) : list Z :=
  match n with
  | O => []
  | S n => v mod 256 :: le_split n (v / 256)
  end.

Fixpoint le_combine (bs : list Z) : Z :=
  match bs with
  | [] => 0
  | b :: bs => b + 256 * le_combine bs
  end.

Lemma length_le_split n v : length (le_split n v) = n.
Proof. revert v; induction n; intros; simpl; congruence. Qed.

Lemma le_split_ok n v : bytes_ok (le_split n v).
Proof.
  revert v; induction n; intros v; simpl; constructor; [|apply IHn].
  apply Z.mod_pos_bound; lia.
Qed.

Lemma le_combine_split n v :
  0 <= v -> le_combine (le_split n v) = v mod 2 ^ (8 * Z.of_nat n).
Proof.
  revert v; induction n as [|n IH]; intros v Hv; simpl.
  - by rw Z.mod_1_r.
  - rw IH; [apply Z.div_pos; lia|].
    replace (8 * Z.of_nat (S n)) with (8 + 8 * Z.of_nat n) by lia.
    rw Z.pow_add_r; [lia..|].
    change (2 ^ 8) with 256.
    rw Z.rem_mul_r; lia.
Qed.

Lemma le_combine_split_small n v :
  is_u (8 * Z.of_nat n) v -> le_combine (le_split n v) = v.
Proof. intros H. rw le_combine_split; [apply H|]. by apply Z.mod_small. Qed.

Lemma le_split_combine bs :
  bytes_ok bs -> le_split (length bs) (le_combine bs) = bs.
Proof.
  induction 1 as [|b bs Hb Hbs IH]; simpl; [done|].
  destruct Hb as [Hb0 Hb1]. change (2 ^ 8) with 256 in Hb1.
  replace (b + 256 * le_combine bs) with (b + le_combine bs * 256) by lia.
  rw Z.mod_add // Z.mod_small // Z.div_add // Z.div_small // Z.add_0_l.
  by rw IH.
Qed.

Lemma le_combine_is_u bs : bytes_ok bs -> is_u (8 * Z.of_nat (length bs)) (le_combine bs).
Proof.
  induction 1 as [|b bs Hb Hbs IH]; unfold is_u in *; simpl; [lia|].
  unfold byte_ok, is_u in Hb. change (2 ^ 8) with 256 in Hb.
  replace (8 * Z.of_nat (S (length bs))) with (8 + 8 * Z.of_nat (length bs)) by lia.
  rw Z.pow_add_r; [lia..|]. change (2 ^ 8) with 256. nia.
Qed.

(** ** Generic list facts *)

Lemma take_drop_app_mid {A} (l1 l2 l3 : list A) n m :
  n = length l1 -> m = length l2 -> take m (drop n (l1 ++ l2 ++ l3)) = l2.
Proof. intros -> ->. by rw drop_app_length take_app_length. Qed.

(** The equations of [fold_left], to rewrite with where unfolding is costly. *)
Lemma fold_left_nil {A B} (f : A -> B -> A) a : fold_left f [] a = a.
Proof. done. Qed.
Lemma fold_left_cons {A B} (f : A -> B -> A) x l a : fold_left f (x :: l) a = fold_left f l (f a x).
Proof. done. Qed.

(** ** C strings *)

(** The characters before the terminating NUL (or the end of the array). *)
Fixpoint cstr (l : list Z) : list Z :=
  match l with
  | [] => []
  | c :: l => if c =? 0 then [] else c :: cstr l
  end.

(** [!strncmp(a, b, n)] *)
Definition strncmp_eq (n : nat) (a b : list Z) : bool :=
  bool_decide (take n (cstr a) = take n (cstr b)).

(** The array [strncpy(dst, src, n)] leaves in an [n] byte [dst]. *)
Definition strncpy (n : nat) (src : list Z) : list Z :=
  let s := take n (cstr src) in s ++ replicate (n - length s) 0.

(** The array [snprintf(dst, n, "%s", src)] leaves in [dst]: at most [n - 1]
    characters, a NUL, and the old bytes after it. *)
Definition snprintf_s (n : nat) (src dst : list Z) : list Z :=
  let s := take (n - 1) (cstr src) in s ++ 0 :: drop (S (length s)) dst.

Lemma cstr_ok l : bytes_ok l -> bytes_ok (cstr l).
Proof. induction 1 as [|c l Hc Hl IH]; simpl; [constructor|]. destruct (c =? 0); by constructor. Qed.

Lemma length_strncpy n src : length (strncpy n src) = n.
Proof. unfold strncpy. rw length_app length_replicate length_take. lia. Qed.

Lemma strncpy_ok n src : bytes_ok src -> bytes_ok (strncpy n src).
Proof.
  intros H. apply Forall_app; split; [by apply Forall_take, cstr_ok|].
  apply Forall_replicate. by vm_compute.
Qed.

Lemma cstr_app_zero l r : Forall (fun c => c <> 0) l -> cstr (l ++ 0 :: r) = l.
Proof.
  induction 1 as [|c l Hc Hl IH]; [done|]. simpl. apply Z.eqb_neq in Hc as ->. by rw IH.
Qed.

Lemma cstr_nonzero l : Forall (fun c => c <> 0) (cstr l).
Proof.
  induction l as [|c l IH]; simpl; [done|]. destruct (c =? 0) eqn:E; [done|].
  constructor; [by apply Z.eqb_neq|done].
Qed.

Lemma cstr_all l : Forall (fun c => c <> 0) l -> cstr l = l.
Proof.
  induction 1 as [|c l Hc Hl IH]; [done|]. simpl. apply Z.eqb_neq in Hc as ->. by rw IH.
Qed.

Lemma cstr_strncpy n src : cstr (strncpy n src) = take n (cstr src).
Proof.
  unfold strncpy. pose proof (Forall_take _ n _ (cstr_nonzero src)) as Hnz.
  destruct (n - length (take n (cstr src)))%nat as [|k]; simpl.
  - rw app_nil_r. by apply cstr_all.
  - by apply cstr_app_zero.
Qed.

(** A name stored with [strncpy] compares equal to the name. *)
Lemma strncmp_strncpy n src : strncmp_eq n (strncpy n src) src = true.
Proof. apply bool_decide_eq_true. by rw cstr_strncpy take_take Nat.min_id. Qed.

Lemma length_snprintf_s n src dst :
  (0 < n <= length dst)%nat -> length (snprintf_s n src dst) = length dst.
Proof.
  intros H. unfold snprintf_s. rw length_app /= length_drop length_take. lia.
Qed.

Lemma snprintf_s_ok n src dst : bytes_ok src -> bytes_ok dst -> bytes_ok (snprintf_s n src dst).
Proof.
  intros Hs Hd. apply Forall_app; split; [by apply Forall_take, cstr_ok|].
  constructor; [by vm_compute|]. by apply Forall_drop.
Qed.

Lemma cstr_snprintf_s n src dst : cstr (snprintf_s n src dst) = take (n - 1) (cstr src).
Proof. apply cstr_app_zero, Forall_take, cstr_nonzero. Qed.

(** ** Updating a record *)

(** [r <| f := v |>] is the record [r] with [v] for the field [f]. A record type
    has an instance of [Settable], the record rebuilt from its projections; the
    setter of a projection is that term with the projection replaced. *)
Class Settable (R : Type) := rebuild : R -> R.
Class Setter {R T} (f : R -> T) := set_field : (T -> T) -> R -> R.
Arguments set_field {R T} f {_} _ _.

Ltac derive_setter f :=
  match goal with |- @Setter ?R _ _ =>
    let inst := constr:(_ : Settable R) in
    let body := eval hnf in inst in
    match eval pattern f in body with ?g _ => exact (fun u r => g (fun r => u (f r)) r) end
  end.
#[export] Hint Extern 0 (Setter ?f) => derive_setter f : typeclass_instances.

Declare Scope record_scope.
Delimit Scope record_scope with record.
Notation "r <| f := v |>" := (set_field f (fun _ => v) r)
  (at level 1, f at level 9, v at level 200, left associativity, format "r  <| f  :=  v |>") : record_scope.
#[global] Open Scope record_scope.

(** ** Automation *)

Create HintDb sanlock.
Create Rewrite HintDb sanlock.
#[export] Hint Resolve wrapu_is_u is_u_lxor is_u_lor is_u_shiftr le_split_ok : sanlock.
#[export] Hint Rewrite @length_le_split : sanlock.

(** Turn the boolean comparisons of the code into propositions. *)
Ltac zbool :=
  repeat match goal with
  | H : (_ =? _) = true |- _ => apply Z.eqb_eq in H
  | H : (_ =? _) = false |- _ => apply Z.eqb_neq in H
  | H : (_ <? _) = true |- _ => apply Z.ltb_lt in H
  | H : (_ <? _) = false |- _ => apply Z.ltb_ge in H
  | H : (_ <=? _) = true |- _ => apply Z.leb_le in H
  | H : (_ <=? _) = false |- _ => apply Z.leb_gt in H
  | H : (_ && _) = true |- _ => apply andb_true_iff in H as [? ?]
  | H : (_ || _) = false |- _ => apply orb_false_iff in H as [? ?]
  | H : negb _ = true |- _ => apply negb_true_iff in H
  | H : negb _ = false |- _ => apply negb_false_iff in H
  end.

(** Split on the tests of a definition translated from C control flow. *)
Ltac cases :=
  repeat match goal with
  | |- context [if ?b then _ else _] => destruct b eqn:?
  | H : context [if ?b then _ else _] |- _ => destruct b eqn:?
  end.
