(* ===== verification/Crc32c.v ===== *)
(** * CRC-32C ([src/src/crc32c.c])

    The table-driven checksum every on-disk record carries, the bit-serial
    CRC of the polynomial its comment names, their equivalence, and what the
    checksum detects: any corruption confined to four consecutive bytes. *)

From S2P Require Import Prelude.

(** [crc32c_table], as in the source. *)
Definition crc32c_table : list Z :=
  [0x00000000; 0xF26B8303; 0xE13B70F7; 0x1350F3F4;
   0xC79A971F; 0x35F1141C; 0x26A1E7E8; 0xD4CA64EB;
   0x8AD958CF; 0x78B2DBCC; 0x6BE22838; 0x9989AB3B;
   0x4D43CFD0; 0xBF284CD3; 0xAC78BF27; 0x5E133C24;
   0x105EC76F; 0xE235446C; 0xF165B798; 0x030E349B;
   0xD7C45070; 0x25AFD373; 0x36FF2087; 0xC494A384;
   0x9A879FA0; 0x68EC1CA3; 0x7BBCEF57; 0x89D76C54;
   0x5D1D08BF; 0xAF768BBC; 0xBC267848; 0x4E4DFB4B;
   0x20BD8EDE; 0xD2D60DDD; 0xC186FE29; 0x33ED7D2A;
   0xE72719C1; 0x154C9AC2; 0x061C6936; 0xF477EA35;
   0xAA64D611; 0x580F5512; 0x4B5FA6E6; 0xB93425E5;
   0x6DFE410E; 0x9F95C20D; 0x8CC531F9; 0x7EAEB2FA;
   0x30E349B1; 0xC288CAB2; 0xD1D83946; 0x23B3BA45;
   0xF779DEAE; 0x05125DAD; 0x1642AE59; 0xE4292D5A;
   0xBA3A117E; 0x4851927D; 0x5B016189; 0xA96AE28A;
   0x7DA08661; 0x8FCB0562; 0x9C9BF696; 0x6EF07595;
   0x417B1DBC; 0xB3109EBF; 0xA0406D4B; 0x522BEE48;
   0x86E18AA3; 0x748A09A0; 0x67DAFA54; 0x95B17957;
   0xCBA24573; 0x39C9C670; 0x2A993584; 0xD8F2B687;
   0x0C38D26C; 0xFE53516F; 0xED03A29B; 0x1F682198;
   0x5125DAD3; 0xA34E59D0; 0xB01EAA24; 0x42752927;
   0x96BF4DCC; 0x64D4CECF; 0x77843D3B; 0x85EFBE38;
   0xDBFC821C; 0x2997011F; 0x3AC7F2EB; 0xC8AC71E8;
   0x1C661503; 0xEE0D9600; 0xFD5D65F4; 0x0F36E6F7;
   0x61C69362; 0x93AD1061; 0x80FDE395; 0x72966096;
   0xA65C047D; 0x5437877E; 0x4767748A; 0xB50CF789;
   0xEB1FCBAD; 0x197448AE; 0x0A24BB5A; 0xF84F3859;
   0x2C855CB2; 0xDEEEDFB1; 0xCDBE2C45; 0x3FD5AF46;
   0x7198540D; 0x83F3D70E; 0x90A324FA; 0x62C8A7F9;
   0xB602C312; 0x44694011; 0x5739B3E5; 0xA55230E6;
   0xFB410CC2; 0x092A8FC1; 0x1A7A7C35; 0xE811FF36;
   0x3CDB9BDD; 0xCEB018DE; 0xDDE0EB2A; 0x2F8B6829;
   0x82F63B78; 0x709DB87B; 0x63CD4B8F; 0x91A6C88C;
   0x456CAC67; 0xB7072F64; 0xA457DC90; 0x563C5F93;
   0x082F63B7; 0xFA44E0B4; 0xE9141340; 0x1B7F9043;
   0xCFB5F4A8; 0x3DDE77AB; 0x2E8E845F; 0xDCE5075C;
   0x92A8FC17; 0x60C37F14; 0x73938CE0; 0x81F80FE3;
   0x55326B08; 0xA759E80B; 0xB4091BFF; 0x466298FC;
   0x1871A4D8; 0xEA1A27DB; 0xF94AD42F; 0x0B21572C;
   0xDFEB33C7; 0x2D80B0C4; 0x3ED04330; 0xCCBBC033;
   0xA24BB5A6; 0x502036A5; 0x4370C551; 0xB11B4652;
   0x65D122B9; 0x97BAA1BA; 0x84EA524E; 0x7681D14D;
   0x2892ED69; 0xDAF96E6A; 0xC9A99D9E; 0x3BC21E9D;
   0xEF087A76; 0x1D63F975; 0x0E330A81; 0xFC588982;
   0xB21572C9; 0x407EF1CA; 0x532E023E; 0xA145813D;
   0x758FE5D6; 0x87E466D5; 0x94B49521; 0x66DF1622;
   0x38CC2A06; 0xCAA7A905; 0xD9F75AF1; 0x2B9CD9F2;
   0xFF56BD19; 0x0D3D3E1A; 0x1E6DCDEE; 0xEC064EED;
   0xC38D26C4; 0x31E6A5C7; 0x22B65633; 0xD0DDD530;
   0x0417B1DB; 0xF67C32D8; 0xE52CC12C; 0x1747422F;
   0x49547E0B; 0xBB3FFD08; 0xA86F0EFC; 0x5A048DFF;
   0x8ECEE914; 0x7CA56A17; 0x6FF599E3; 0x9D9E1AE0;
   0xD3D3E1AB; 0x21B862A8; 0x32E8915C; 0xC083125F;
   0x144976B4; 0xE622F5B7; 0xF5720643; 0x07198540;
   0x590AB964; 0xAB613A67; 0xB831C993; 0x4A5A4A90;
   0x9E902E7B; 0x6CFBAD78; 0x7FAB5E8C; 0x8DC0DD8F;
   0xE330A81A; 0x115B2B19; 0x020BD8ED; 0xF0605BEE;
   0x24AA3F05; 0xD6C1BC06; 0xC5914FF2; 0x37FACCF1;
   0x69E9F0D5; 0x9B8273D6; 0x88D28022; 0x7AB90321;
   0xAE7367CA; 0x5C18E4C9; 0x4F48173D; 0xBD23943E;
   0xF36E6F75; 0x0105EC76; 0x12551F82; 0xE03E9C81;
   0x34F4F86A; 0xC69F7B69; 0xD5CF889D; 0x27A40B9E;
   0x79B737BA; 0x8BDCB4B9; 0x988C474D; 0x6AE7C44E;
   0xBE2DA0A5; 0x4C4623A6; 0x5F16D052; 0xAD7D5351].

Definition table_at (i : Z) : Z := nth (Z.to_nat i) crc32c_table 0.

(** One turn of the loop: [crc = table[(crc ^ *data++) & 0xFF] ^ (crc >> 8)]. *)
Definition crc32c_step (crc b : Z) : Z :=
  Z.lxor (table_at (Z.land (Z.lxor crc b) 0xFF)) (Z.shiftr crc 8).

(** [crc32c(crc, data, length)] over the [length] bytes of [data]. *)
Fixpoint crc32c (crc : Z) (data : list Z) : Z :=
  match data with
  | [] => crc
  | b :: data => crc32c (crc32c_step crc b) data
  end.

(** ** The bit-serial reference *)

(** [reflect w x]: the [w] low bits of [x] in reverse order. *)
Fixpoint reflect (w : nat) (x : Z) : Z :=
  match w with
  | O => 0
  | S w => Z.b2z (Z.testbit x (Z.of_nat w)) + 2 * reflect w x
  end.

(** The polynomial of the source's comment, reflected. *)
Definition crc_poly : Z := Eval vm_compute in reflect 32 0x1EDC6F41.

Definition crc_bit (x : Z) : Z :=
  if Z.odd x then Z.lxor (Z.shiftr x 1) crc_poly else Z.shiftr x 1.

Fixpoint crc_bits (n : nat) (x : Z) : Z :=
  match n with
  | O => x
  | S n => crc_bits n (crc_bit x)
  end.

Fixpoint crc_ref (crc : Z) (data : list Z) : Z :=
  match data with
  | [] => crc
  | b :: data => crc_ref (crc_bits 8 (Z.lxor crc b)) data
  end.

(** ** Linearity of the bit step *)

Lemma crc_bit_alt x : crc_bit x = Z.lxor (Z.shiftr x 1) (if Z.odd x then crc_poly else 0).
Proof. unfold crc_bit. destruct (Z.odd x); by rw ?Z.lxor_0_r. Qed.

Lemma crc_bit_lxor x y : crc_bit (Z.lxor x y) = Z.lxor (crc_bit x) (crc_bit y).
Proof.
  rw !crc_bit_alt Z.shiftr_lxor -!Z.bit0_odd Z.lxor_spec.
  apply Z.bits_inj'; intros i Hi; rw !Z.lxor_spec.
  destruct (Z.testbit x 0), (Z.testbit y 0); simpl;
    rw ?Z.testbit_0_l; destruct (Z.testbit (x ≫ 1) i), (Z.testbit (y ≫ 1) i),
      (Z.testbit crc_poly i); done.
Qed.

Lemma crc_bits_S n x : crc_bits (S n) x = crc_bits n (crc_bit x).
Proof. done. Qed.

Lemma crc_bits_lxor n x y : crc_bits n (Z.lxor x y) = Z.lxor (crc_bits n x) (crc_bits n y).
Proof.
  revert x y; induction n as [|n IH]; intros x y; [done|].
  by rw !crc_bits_S crc_bit_lxor IH.
Qed.

Lemma crc_bits_add n m x : crc_bits (n + m) x = crc_bits m (crc_bits n x).
Proof.
  revert x; induction n as [|n IH]; intros x; [done|].
  by rw Nat.add_succ_l !crc_bits_S IH.
Qed.

(** Shifting zeros out leaves the rest unchanged. *)
Lemma crc_bits_shiftl n y : crc_bits n (Z.shiftl y (Z.of_nat n)) = y.
Proof.
  induction n as [|n IH]; [apply Z.shiftl_0_r|].
  rw crc_bits_S. rw -{2}IH. f_equal. rw crc_bit_alt.
  replace (Z.odd _) with false.
  - rw Z.lxor_0_r Z.shiftr_shiftl_l; [lia|]. f_equal. lia.
  - rw -Z.bit0_odd Z.shiftl_spec_low //; lia.
Qed.

(** ** The table agrees with the reference *)

Lemma table_spec :
  forallb (fun i => table_at (Z.of_nat i) =? crc_bits 8 (Z.of_nat i)) (seq 0 256) = true.
Proof. vm_compute. reflexivity. Qed.

Lemma table_at_bits i : 0 <= i < 256 -> table_at i = crc_bits 8 i.
Proof.
  intros Hi. pose proof table_spec as H.
  rw forallb_forall in H. specialize (H (Z.to_nat i)).
  rw Z2Nat.id in H; [lia|]. apply Z.eqb_eq, H, in_seq. lia.
Qed.

Lemma split_low8 x : x = Z.lxor (Z.land x 0xFF) (Z.shiftl (Z.shiftr x 8) 8).
Proof.
  apply Z.bits_inj'; intros i Hi.
  rw Z.lxor_spec (Z.land_ones x 8) // Z.shiftl_spec //.
  destruct (Z.lt_ge_cases i 8).
  - rw Z.mod_pow2_bits_low; [lia|]. rw (Z.testbit_neg_r _ (i - 8)); [lia|]. by rw xorb_false_r.
  - rw Z.mod_pow2_bits_high; [lia|]. rw Z.shiftr_spec; [lia|].
    by replace (i - 8 + 8) with i by lia.
Qed.

Lemma land_ff_range x : 0 <= Z.land x 0xFF < 256.
Proof. rw (Z.land_ones x 8) //. apply Z.mod_pos_bound. lia. Qed.

Lemma shiftr8_byte b : byte_ok b -> Z.shiftr b 8 = 0.
Proof. intros [H0 H1]. rw Z.shiftr_div_pow2 //. by apply Z.div_small. Qed.

Lemma crc32c_step_ref crc b : byte_ok b -> crc32c_step crc b = crc_bits 8 (Z.lxor crc b).
Proof.
  intros Hb. unfold crc32c_step. rw (table_at_bits _ (land_ff_range _)).
  rw {2}(split_low8 (Z.lxor crc b)) crc_bits_lxor. f_equal.
  rw (crc_bits_shiftl 8). by rw Z.shiftr_lxor (shiftr8_byte b) // Z.lxor_0_r.
Qed.

(** ** Ranges and injectivity *)

Lemma crc_bit_u32 x : is_u 32 x -> is_u 32 (crc_bit x).
Proof.
  intros H. rw crc_bit_alt. apply is_u_lxor; [done|by apply is_u_shiftr|].
  destruct (Z.odd x); unfold is_u; by vm_compute.
Qed.

Lemma crc_bits_u32 n x : is_u 32 x -> is_u 32 (crc_bits n x).
Proof.
  revert x; induction n as [|n IH]; intros x H; [done|].
  rw crc_bits_S. by apply IH, crc_bit_u32.
Qed.

(** The inverse of the bit step on 32 bits: the top bit tells whether the
    polynomial was added. *)
Definition crc_unbit (y : Z) : Z :=
  if Z.testbit y 31 then 2 * Z.lxor y crc_poly + 1 else 2 * y.

Lemma crc_unbit_bit x : is_u 32 x -> crc_unbit (crc_bit x) = x.
Proof.
  intros Hx. rw crc_bit_alt /crc_unbit Z.lxor_spec Z.shiftr_spec //.
  rw (proj1 (is_u_testbit 32 x ltac:(lia) (proj1 Hx)) Hx (31 + 1)); [lia|].
  rw -Z.div2_spec. pose proof (Z.div2_odd x) as E.
  destruct (Z.odd x); simpl.
  - rw Z.lxor_assoc Z.lxor_nilpotent Z.lxor_0_r. simpl in E. lia.
  - rw Z.lxor_0_r. simpl in E. lia.
Qed.

Lemma crc_bits_inj n x y :
  is_u 32 x -> is_u 32 y -> crc_bits n x = crc_bits n y -> x = y.
Proof.
  revert x y; induction n as [|n IH]; intros x y Hx Hy H; [done|].
  rw !crc_bits_S in H. apply IH in H; [|by apply crc_bit_u32..].
  by rw -(crc_unbit_bit x) // H crc_unbit_bit.
Qed.

(** A run over [n] bytes is [8 * n] bit steps on the state xored with the
    little-endian word of the bytes. *)
Lemma lxor_byte_shift b v : byte_ok b -> 0 <= v -> b + 256 * v = Z.lxor b (Z.shiftl v 8).
Proof.
  intros [Hb0 Hb1] Hv. change (2 ^ 8) with 256 in Hb1.
  rw (split_low8 (b + 256 * v)).
  replace (b + 256 * v) with (b + v * 256) by lia.
  rw (Z.land_ones _ 8) // Z.shiftr_div_pow2 //.
  rw Z.mod_add // Z.div_add // (Z.mod_small b) // (Z.div_small b) //.
Qed.

Lemma crc_ref_word bs crc :
  bytes_ok bs -> crc_ref crc bs = crc_bits (8 * length bs) (Z.lxor crc (le_combine bs)).
Proof.
  intros Hbs; revert crc; induction Hbs as [|b bs Hb Hbs IH]; intros crc.
  - simpl. by rw Z.lxor_0_r.
  - cbn [crc_ref length le_combine]. rw IH.
    replace (8 * S (length bs))%nat with (8 + 8 * length bs)%nat by lia.
    rw crc_bits_add lxor_byte_shift //; [apply (le_combine_is_u bs Hbs)|].
    by rw -Z.lxor_assoc (crc_bits_lxor 8 (Z.lxor crc b)) (crc_bits_shiftl 8).
Qed.

Lemma crc32c_ref crc data : bytes_ok data -> crc32c crc data = crc_ref crc data.
Proof.
  intros H; revert crc; induction H as [|b bs Hb Hbs IH]; intros crc; [done|].
  cbn [crc32c crc_ref]. by rw IH crc32c_step_ref.
Qed.

Lemma crc32c_app crc d1 d2 : crc32c crc (d1 ++ d2) = crc32c (crc32c crc d1) d2.
Proof. revert crc; induction d1 as [|b d1 IH]; intros crc; [done|]. apply IH. Qed.

Lemma crc_ref_u32 crc data : is_u 32 crc -> bytes_ok data -> is_u 32 (crc_ref crc data).
Proof.
  intros Hc H; revert crc Hc; induction H as [|b bs Hb Hbs IH]; intros crc Hc; [done|].
  cbn [crc_ref]. apply IH, crc_bits_u32, is_u_lxor; [done..|].
  by apply (is_u_mono 8).
Qed.

Lemma crc32c_u32 crc data : is_u 32 crc -> bytes_ok data -> is_u 32 (crc32c crc data).
Proof. intros. rw crc32c_ref //. by apply crc_ref_u32. Qed.
#[export] Hint Resolve crc32c_u32 : sanlock.

(** Equal suffixes preserve a difference of the states. *)
Lemma crc_ref_inj c1 c2 bs :
  is_u 32 c1 -> is_u 32 c2 -> bytes_ok bs -> crc_ref c1 bs = crc_ref c2 bs -> c1 = c2.
Proof.
  intros H1 H2 Hbs; revert c1 c2 H1 H2; induction Hbs as [|b bs Hb Hbs IH];
    intros c1 c2 H1 H2 H; [done|].
  cbn [crc_ref] in H.
  assert (Hb' : is_u 32 b) by (by apply (is_u_mono 8)).
  apply IH in H; [|by apply crc_bits_u32, is_u_lxor..].
  apply crc_bits_inj in H; [|by apply is_u_lxor..].
  apply (f_equal (fun x => Z.lxor x b)) in H.
  by rw !Z.lxor_assoc Z.lxor_nilpotent !Z.lxor_0_r in H.
Qed.

Lemma crc_window_inj c w1 w2 :
  is_u 32 c -> bytes_ok w1 -> bytes_ok w2 -> length w1 = length w2 ->
  (length w1 <= 4)%nat -> crc_ref c w1 = crc_ref c w2 -> w1 = w2.
Proof.
  intros Hc H1 H2 Hlen Hle H. rw !crc_ref_word // Hlen in H.
  assert (Hu : forall w, bytes_ok w -> (length w <= 4)%nat -> is_u 32 (le_combine w)).
  { intros w Hw Hl. apply (is_u_mono (8 * Z.of_nat (length w))); [lia|].
    by apply le_combine_is_u. }
  apply crc_bits_inj in H; [|apply is_u_lxor; auto with lia..].
  apply (f_equal (Z.lxor c)) in H. rw -!Z.lxor_assoc Z.lxor_nilpotent !Z.lxor_0_l in H.
  by rw -(le_split_combine w1) // -(le_split_combine w2) // Hlen H.
Qed.

(** ** Properties *)

(** C39: the table-driven [crc32c] of the source computes, on every byte string
    and from every initial state, the bit-serial reflected CRC of the
    polynomial 0x1EDC6F41 that its comment names. *)
Theorem crc32c_equiv_reference crc data :
  bytes_ok data -> crc32c crc data = crc_ref crc data.
Proof. apply crc32c_ref. Qed.

Lemma crc32c_equiv_reference_witness :
  crc32c 0xFFFFFFFF [0x31; 0x32; 0x33] = crc_ref 0xFFFFFFFF [0x31; 0x32; 0x33].
Proof.
  apply (crc32c_equiv_reference 0xFFFFFFFF [0x31; 0x32; 0x33]).
  repeat constructor; by vm_compute.
Defined.

(** the checksum detects every corruption confined to four consecutive
    bytes: two messages of the same length that differ only in such a window
    have different checksums. *)
Theorem crc32c_detects_burst crc pre w1 w2 post :
  is_u 32 crc -> bytes_ok pre -> bytes_ok w1 -> bytes_ok w2 -> bytes_ok post ->
  length w1 = length w2 -> (length w1 <= 4)%nat -> w1 <> w2 ->
  crc32c crc (pre ++ w1 ++ post) <> crc32c crc (pre ++ w2 ++ post).
Proof.
  intros Hc Hpre H1 H2 Hpost Hlen Hle Hne H. rw !crc32c_app in H.
  pose proof (crc32c_u32 crc pre Hc Hpre) as Hp.
  rw !(crc32c_ref _ post) // in H.
  apply crc_ref_inj in H; [|by apply crc32c_u32..|done].
  rw !crc32c_ref // in H. rw crc32c_ref // in Hp.
  by apply crc_window_inj in H.
Qed.

Lemma crc32c_detects_burst_witness :
  crc32c 0xFFFFFFFE ([1; 2] ++ [3; 4] ++ [5]) <> crc32c 0xFFFFFFFE ([1; 2] ++ [3; 5] ++ [5]).
Proof.
  apply (crc32c_detects_burst 0xFFFFFFFE [1; 2] [3; 4] [3; 5] [5]);
    repeat constructor; by vm_compute.
Defined.
