(* ===== verification/SizeFlags.v ===== *)
(** * Sector and alignment sizes ([src/src/sizeflags.c], [src/src/sizeflags.h])

    The geometry of a lease area: how sector and align sizes are carried in
    flag bits, which combinations are supported, how many hosts they hold, and
    that the leader sector, the request sector and one sector per host fit in
    the area. *)

From S2P Require Import Prelude.

(** ** Constants *)

Definition ALIGN_SIZE_1M : Z := 1048576.
Definition ALIGN_SIZE_2M : Z := 2 * ALIGN_SIZE_1M.
Definition ALIGN_SIZE_4M : Z := 4 * ALIGN_SIZE_1M.
Definition ALIGN_SIZE_8M : Z := 8 * ALIGN_SIZE_1M.

Definition LFL_ALIGN_1M : Z := 0x10.
Definition LFL_ALIGN_2M : Z := 0x20.
Definition LFL_ALIGN_4M : Z := 0x40.
Definition LFL_ALIGN_8M : Z := 0x80.

Definition RHF_ALIGN_1M : Z := 0x1.
Definition RHF_ALIGN_2M : Z := 0x2.
Definition RHF_ALIGN_4M : Z := 0x4.
Definition RHF_ALIGN_8M : Z := 0x8.

Definition SANLK_RES_ALIGN1M : Z := 0x10.
Definition SANLK_RES_ALIGN2M : Z := 0x20.
Definition SANLK_RES_ALIGN4M : Z := 0x40.
Definition SANLK_RES_ALIGN8M : Z := 0x80.
Definition SANLK_RES_SECTOR512 : Z := 0x100.
Definition SANLK_RES_SECTOR4K : Z := 0x200.

Definition SANLK_LSF_ALIGN1M : Z := 0x10.
Definition SANLK_LSF_ALIGN2M : Z := 0x20.
Definition SANLK_LSF_ALIGN4M : Z := 0x40.
Definition SANLK_LSF_ALIGN8M : Z := 0x80.
Definition SANLK_LSF_SECTOR512 : Z := 0x100.
Definition SANLK_LSF_SECTOR4K : Z := 0x200.

Definition SANLK_RIF_ALIGN1M : Z := 0x10.
Definition SANLK_RIF_ALIGN2M : Z := 0x20.
Definition SANLK_RIF_ALIGN4M : Z := 0x40.
Definition SANLK_RIF_ALIGN8M : Z := 0x80.
Definition SANLK_RIF_SECTOR512 : Z := 0x100.
Definition SANLK_RIF_SECTOR4K : Z := 0x200.

(** ** Geometry *)

Definition size_to_max_hosts (sector_size align_size : Z) : Z :=
  if (align_size =? ALIGN_SIZE_1M) && (sector_size =? 512) then 2000
  else if (align_size =? ALIGN_SIZE_1M) && (sector_size =? 4096) then 250
  else if (align_size =? ALIGN_SIZE_2M) && (sector_size =? 4096) then 500
  else if (align_size =? ALIGN_SIZE_4M) && (sector_size =? 4096) then 1000
  else if (align_size =? ALIGN_SIZE_8M) && (sector_size =? 4096) then 2000
  else 0.

Definition sector_size_to_align_size_old (sector_size : Z) : Z :=
  if sector_size =? 512 then ALIGN_SIZE_1M
  else if sector_size =? 4096 then ALIGN_SIZE_8M
  else -1.

Definition align_size_debug_str (align_size : Z) : option string :=
  if align_size =? ALIGN_SIZE_1M then Some "1M"%string
  else if align_size =? ALIGN_SIZE_2M then Some "2M"%string
  else if align_size =? ALIGN_SIZE_4M then Some "4M"%string
  else if align_size =? ALIGN_SIZE_8M then Some "8M"%string
  else None.

(** ** [struct leader_record] and [struct rindex_header] align flags *)

Definition leader_align_flag_from_size (align_size : Z) : Z :=
  if align_size =? ALIGN_SIZE_1M then LFL_ALIGN_1M
  else if align_size =? ALIGN_SIZE_2M then LFL_ALIGN_2M
  else if align_size =? ALIGN_SIZE_4M then LFL_ALIGN_4M
  else if align_size =? ALIGN_SIZE_8M then LFL_ALIGN_8M
  else 0.

Definition leader_align_size_from_flag (flags : Z) : Z :=
  if has_flag flags LFL_ALIGN_1M then ALIGN_SIZE_1M
  else if has_flag flags LFL_ALIGN_2M then ALIGN_SIZE_2M
  else if has_flag flags LFL_ALIGN_4M then ALIGN_SIZE_4M
  else if has_flag flags LFL_ALIGN_8M then ALIGN_SIZE_8M
  else 0.

Definition rindex_header_align_flag_from_size (align_size : Z) : Z :=
  if align_size =? ALIGN_SIZE_1M then RHF_ALIGN_1M
  else if align_size =? ALIGN_SIZE_2M then RHF_ALIGN_2M
  else if align_size =? ALIGN_SIZE_4M then RHF_ALIGN_4M
  else if align_size =? ALIGN_SIZE_8M then RHF_ALIGN_8M
  else 0.

Definition rindex_header_align_size_from_flag (flags : Z) : Z :=
  if has_flag flags RHF_ALIGN_1M then ALIGN_SIZE_1M
  else if has_flag flags RHF_ALIGN_2M then ALIGN_SIZE_2M
  else if has_flag flags RHF_ALIGN_4M then ALIGN_SIZE_4M
  else if has_flag flags RHF_ALIGN_8M then ALIGN_SIZE_8M
  else 0.

(** ** [SANLK_LSF] flags *)

Definition sanlk_lsf_sector_flag_to_size (flags : Z) : Z :=
  if has_flag flags SANLK_LSF_SECTOR512 then 512
  else if has_flag flags SANLK_LSF_SECTOR4K then 4096
  else 0.

Definition sanlk_lsf_sector_size_to_flag (sector_size : Z) : Z :=
  if sector_size =? 512 then SANLK_LSF_SECTOR512
  else if sector_size =? 4096 then SANLK_LSF_SECTOR4K
  else 0.

Definition sanlk_lsf_sector_flags_clear (flags : Z) : Z :=
  clear_flag (clear_flag flags SANLK_LSF_SECTOR512) SANLK_LSF_SECTOR4K.

Definition sanlk_lsf_align_flags_clear (flags : Z) : Z :=
  clear_flag (clear_flag (clear_flag (clear_flag flags SANLK_LSF_ALIGN1M)
    SANLK_LSF_ALIGN2M) SANLK_LSF_ALIGN4M) SANLK_LSF_ALIGN8M.

Definition sanlk_lsf_align_flag_to_size (flags : Z) : Z :=
  if has_flag flags SANLK_LSF_ALIGN1M then ALIGN_SIZE_1M
  else if has_flag flags SANLK_LSF_ALIGN2M then ALIGN_SIZE_2M
  else if has_flag flags SANLK_LSF_ALIGN4M then ALIGN_SIZE_4M
  else if has_flag flags SANLK_LSF_ALIGN8M then ALIGN_SIZE_8M
  else 0.

Definition sanlk_lsf_align_size_to_flag (align_size : Z) : Z :=
  if align_size =? ALIGN_SIZE_1M then SANLK_LSF_ALIGN1M
  else if align_size =? ALIGN_SIZE_2M then SANLK_LSF_ALIGN2M
  else if align_size =? ALIGN_SIZE_4M then SANLK_LSF_ALIGN4M
  else if align_size =? ALIGN_SIZE_8M then SANLK_LSF_ALIGN8M
  else 0.

(** ** [SANLK_RES] flags *)

Definition sanlk_res_sector_flag_to_size (flags : Z) : Z :=
  if has_flag flags SANLK_RES_SECTOR512 then 512
  else if has_flag flags SANLK_RES_SECTOR4K then 4096
  else 0.

Definition sanlk_res_sector_size_to_flag (sector_size : Z) : Z :=
  if sector_size =? 512 then SANLK_RES_SECTOR512
  else if sector_size =? 4096 then SANLK_RES_SECTOR4K
  else 0.

Definition sanlk_res_sector_flags_clear (flags : Z) : Z :=
  clear_flag (clear_flag flags SANLK_RES_SECTOR512) SANLK_RES_SECTOR4K.

Definition sanlk_res_align_flags_clear (flags : Z) : Z :=
  clear_flag (clear_flag (clear_flag (clear_flag flags SANLK_RES_ALIGN1M)
    SANLK_RES_ALIGN2M) SANLK_RES_ALIGN4M) SANLK_RES_ALIGN8M.

Definition sanlk_res_align_flag_to_size (flags : Z) : Z :=
  if has_flag flags SANLK_RES_ALIGN1M then ALIGN_SIZE_1M
  else if has_flag flags SANLK_RES_ALIGN2M then ALIGN_SIZE_2M
  else if has_flag flags SANLK_RES_ALIGN4M then ALIGN_SIZE_4M
  else if has_flag flags SANLK_RES_ALIGN8M then ALIGN_SIZE_8M
  else 0.

Definition sanlk_res_align_size_to_flag (align_size : Z) : Z :=
  if align_size =? ALIGN_SIZE_1M then SANLK_RES_ALIGN1M
  else if align_size =? ALIGN_SIZE_2M then SANLK_RES_ALIGN2M
  else if align_size =? ALIGN_SIZE_4M then SANLK_RES_ALIGN4M
  else if align_size =? ALIGN_SIZE_8M then SANLK_RES_ALIGN8M
  else 0.

(** ** [SANLK_RIF] flags *)

Definition sanlk_rif_sector_flag_to_size (flags : Z) : Z :=
  if has_flag flags SANLK_RIF_SECTOR512 then 512
  else if has_flag flags SANLK_RIF_SECTOR4K then 4096
  else 0.

Definition sanlk_rif_sector_size_to_flag (sector_size : Z) : Z :=
  if sector_size =? 512 then SANLK_RIF_SECTOR512
  else if sector_size =? 4096 then SANLK_RIF_SECTOR4K
  else 0.

Definition sanlk_rif_align_flag_to_size (flags : Z) : Z :=
  if has_flag flags SANLK_RIF_ALIGN1M then ALIGN_SIZE_1M
  else if has_flag flags SANLK_RIF_ALIGN2M then ALIGN_SIZE_2M
  else if has_flag flags SANLK_RIF_ALIGN4M then ALIGN_SIZE_4M
  else if has_flag flags SANLK_RIF_ALIGN8M then ALIGN_SIZE_8M
  else 0.

Definition sanlk_rif_align_size_to_flag (align_size : Z) : Z :=
  if align_size =? ALIGN_SIZE_1M then SANLK_RIF_ALIGN1M
  else if align_size =? ALIGN_SIZE_2M then SANLK_RIF_ALIGN2M
  else if align_size =? ALIGN_SIZE_4M then SANLK_RIF_ALIGN4M
  else if align_size =? ALIGN_SIZE_8M then SANLK_RIF_ALIGN8M
  else 0.

(** ** [sizes_from_flags]

    The out parameters are returned with the result: [(rv, (sector_size,
    align_size, max_hosts))]. *)

Record sizes := Sizes { sz_sector : Z; sz_align : Z; sz_max_hosts : Z }.

#[export] Instance sizes_eq_dec : EqDecision sizes.
Proof. solve_decision. Defined.

Definition kind_sizes (kind : string) (flags : Z) : option (Z * Z) :=
  if String.eqb kind "RES" then
    Some (sanlk_res_sector_flag_to_size flags, sanlk_res_align_flag_to_size flags)
  else if String.eqb kind "LSF" then
    Some (sanlk_lsf_sector_flag_to_size flags, sanlk_lsf_align_flag_to_size flags)
  else if String.eqb kind "RIF" then
    Some (sanlk_rif_sector_flag_to_size flags, sanlk_rif_align_flag_to_size flags)
  else None.

Definition sizes_from_flags (flags : Z) (kind : string) : Z * sizes :=
  match kind_sizes kind flags with
  | None => (-1, Sizes 0 0 0)
  | Some (sector_size, align_size) =>
      let no_align_flag := align_size =? 0 in
      let no_sector_flag := sector_size =? 0 in
      if negb (eqb no_sector_flag no_align_flag) then (-1, Sizes sector_size align_size 0)
      else if sector_size =? 0 then (0, Sizes sector_size align_size 0)
      else
        let max_hosts := size_to_max_hosts sector_size align_size in
        if max_hosts =? 0 then (-1, Sizes sector_size align_size max_hosts)
        else (0, Sizes sector_size align_size max_hosts)
  end.

(** ** Lemmas *)

Ltac flag_bit :=
  match goal with |- has_flag ?f _ = Z.testbit _ ?k => exact (has_flag_bit f k ltac:(lia)) end.

(** Bits 4..9 are the size bits of the three user flag words. *)
Lemma size_masks f :
  has_flag f SANLK_RES_ALIGN1M = Z.testbit f 4 /\ has_flag f SANLK_RES_ALIGN2M = Z.testbit f 5 /\
  has_flag f SANLK_RES_ALIGN4M = Z.testbit f 6 /\ has_flag f SANLK_RES_ALIGN8M = Z.testbit f 7 /\
  has_flag f SANLK_RES_SECTOR512 = Z.testbit f 8 /\ has_flag f SANLK_RES_SECTOR4K = Z.testbit f 9.
Proof. repeat split; flag_bit. Qed.

Lemma lfl_masks f :
  has_flag f LFL_ALIGN_1M = Z.testbit f 4 /\ has_flag f LFL_ALIGN_2M = Z.testbit f 5 /\
  has_flag f LFL_ALIGN_4M = Z.testbit f 6 /\ has_flag f LFL_ALIGN_8M = Z.testbit f 7.
Proof. repeat split; flag_bit. Qed.

(** The geometries [size_to_max_hosts] supports. *)
Definition supported (sector_size align_size : Z) : Prop :=
  (sector_size, align_size) ∈
    [(512, ALIGN_SIZE_1M); (4096, ALIGN_SIZE_1M); (4096, ALIGN_SIZE_2M);
     (4096, ALIGN_SIZE_4M); (4096, ALIGN_SIZE_8M)].

#[export] Instance supported_dec s a : Decision (supported s a).
Proof. unfold supported. apply _. Defined.

Lemma size_to_max_hosts_supported s a : size_to_max_hosts s a <> 0 <-> supported s a.
Proof.
  unfold supported. rw !elem_of_cons elem_of_nil.
  unfold size_to_max_hosts. split.
  - intros H. cases; zbool; subst; tauto.
  - intros H; destruct_or?; simplify_eq; try done; by vm_compute.
Qed.

Lemma supported_fits s a :
  supported s a ->
  (s = 512 \/ s = 4096) /\ 0 < size_to_max_hosts s a <= 2000 /\
  (2 + size_to_max_hosts s a) * s <= a.
Proof.
  unfold supported. rw !elem_of_cons elem_of_nil.
  intros H; destruct_or?; simplify_eq; try done; vm_compute; intuition congruence.
Qed.

Lemma supported_align s a : supported s a -> a <= ALIGN_SIZE_8M.
Proof. unfold supported. rw !elem_of_cons elem_of_nil. intros H; destruct_or?; by simplify_eq. Qed.

(** The three user families use the same bits. *)
Lemma kind_sizes_res kind flags sz :
  kind_sizes kind flags = Some sz ->
  sz = (sanlk_res_sector_flag_to_size flags, sanlk_res_align_flag_to_size flags).
Proof. unfold kind_sizes. intros H. cases; by simplify_eq. Qed.

(** ** Properties *)

Lemma sizes_from_flags_ok flags kind sz :
  sizes_from_flags flags kind = (0, sz) ->
  sz = Sizes 0 0 0 \/
  (supported (sz_sector sz) (sz_align sz) /\
   (sz_sector sz = 512 \/ sz_sector sz = 4096) /\
   0 < sz_max_hosts sz <= 2000 /\
   (2 + sz_max_hosts sz) * sz_sector sz <= sz_align sz).
Proof.
  unfold sizes_from_flags. destruct (kind_sizes kind flags) as [[s a]|]; [|done].
  destruct (eqb (s =? 0) (a =? 0)) eqn:E; simpl; [|done].
  apply eqb_prop in E. destruct (s =? 0) eqn:Es.
  - intros [= <-]. left. symmetry in E. zbool. by subst.
  - destruct (size_to_max_hosts s a =? 0) eqn:Eh; [done|]. intros [= <-]. right.
    zbool. apply size_to_max_hosts_supported in Eh.
    split; [done|]. by apply supported_fits.
Qed.

(** The geometry an area is formatted with: the flags' sizes, or those of the
    device's sector size. *)
Lemma format_sizes_ok flags kind sz dss :
  sizes_from_flags flags kind = (0, sz) -> (sz_sector sz = 0 -> dss = 512 \/ dss = 4096) ->
  let '(s, a, m) := if sz_sector sz =? 0 then (dss, sector_size_to_align_size_old dss, 2000)
                    else (sz_sector sz, sz_align sz, sz_max_hosts sz) in
  (s = 512 \/ s = 4096) /\ 0 < m <= 2000 /\ (2 + m) * s <= a <= 8388608.
Proof.
  intros Hs Hd. destruct (sizes_from_flags_ok _ _ _ Hs) as [-> |(Hsup & Hss & Hm & Ha)].
  - destruct (Hd eq_refl) as [-> | ->]; cbn; (split; [auto|]); vm_compute; intuition congruence.
  - destruct (Z.eqb_spec (sz_sector sz) 0); [lia|]. do 2 (split; [done|]). split; [done|].
    unfold supported in Hsup. rw !elem_of_cons elem_of_nil in Hsup.
    destruct_or?; simplify_eq; try done; match goal with H : _ = sz_align sz |- _ => rw -H | H : sz_align sz = _ |- _ => rw H end; by vm_compute.
Qed.

(** when [sizes_from_flags] succeeds, either no size flag was set and every
    size is zero, or the sizes are a supported geometry: 512 or 4096 byte
    sectors, between 1 and 2000 hosts, and a lease area that holds the leader
    sector, the request sector and one sector per host. *)
Theorem sizes_from_flags_geometry flags kind sz :
  sizes_from_flags flags kind = (0, sz) ->
  sz = Sizes 0 0 0 \/
  (supported (sz_sector sz) (sz_align sz) /\
   (sz_sector sz = 512 \/ sz_sector sz = 4096) /\
   0 < sz_max_hosts sz <= 2000 /\
   (2 + sz_max_hosts sz) * sz_sector sz <= sz_align sz).
Proof. apply sizes_from_flags_ok. Qed.

Lemma sizes_from_flags_geometry_witness :
  sizes_from_flags 0x210 "RES" = (0, Sizes 4096 ALIGN_SIZE_1M 250) /\
  (2 + 250) * 4096 <= ALIGN_SIZE_1M.
Proof.
  split; [reflexivity|].
  destruct (sizes_from_flags_geometry 0x210 "RES" (Sizes 4096 ALIGN_SIZE_1M 250) eq_refl)
    as [H|(_ & _ & _ & H)]; [discriminate H|exact H].
Defined.

(** rewriting the size bits of a user flag word the way [paxos_read_resource]
    does (clear both groups, then set the flags of the sizes found on disk)
    makes [sizes_from_flags] return exactly those sizes, whatever the word held
    before, for each of the three kinds of flag words. *)
Theorem size_flags_roundtrip flags kind s a :
  supported s a -> kind ∈ ["RES"; "LSF"; "RIF"]%string ->
  sizes_from_flags
    (Z.lor (Z.lor (sanlk_res_align_flags_clear (sanlk_res_sector_flags_clear flags))
                  (sanlk_res_sector_size_to_flag s)) (sanlk_res_align_size_to_flag a)) kind
  = (0, Sizes s a (size_to_max_hosts s a)).
Proof.
  intros Hs Hk. set (f := Z.lor _ _).
  assert (Hf : sanlk_res_sector_flag_to_size f = s /\ sanlk_res_align_flag_to_size f = a).
  { subst f. unfold supported in Hs. rw !elem_of_cons elem_of_nil in Hs.
    unfold sanlk_res_sector_flag_to_size, sanlk_res_align_flag_to_size.
    destruct (size_masks (Z.lor (Z.lor (sanlk_res_align_flags_clear (sanlk_res_sector_flags_clear flags))
                  (sanlk_res_sector_size_to_flag s)) (sanlk_res_align_size_to_flag a)))
      as (-> & -> & -> & -> & -> & ->).
    unfold sanlk_res_align_flags_clear, sanlk_res_sector_flags_clear, clear_flag.
    rw !Z.lor_spec !Z.ldiff_spec.
    destruct_or?; simplify_eq; try done; cbn; by rw ?andb_false_r. }
  unfold sizes_from_flags. destruct (kind_sizes kind f) as [sz|] eqn:E.
  - apply kind_sizes_res in E as ->. destruct Hf as [-> ->].
    pose proof (supported_fits s a Hs) as (Hss & Hh & Hfit).
    assert ((s =? 0) = false) as -> by (apply Z.eqb_neq; lia).
    assert ((a =? 0) = false) as -> by (apply Z.eqb_neq; lia).
    cbn [eqb negb].
    by assert ((size_to_max_hosts s a =? 0) = false) as -> by (apply Z.eqb_neq; lia).
  - rw !elem_of_cons elem_of_nil in Hk. destruct_or?; by subst.
Qed.

Lemma size_flags_roundtrip_witness :
  sizes_from_flags (Z.lor (Z.lor (sanlk_res_align_flags_clear (sanlk_res_sector_flags_clear 0x3f1))
     (sanlk_res_sector_size_to_flag 4096)) (sanlk_res_align_size_to_flag ALIGN_SIZE_8M)) "RES"
  = (0, Sizes 4096 ALIGN_SIZE_8M 2000).
Proof.
  apply (size_flags_roundtrip 0x3f1 "RES" 4096 ALIGN_SIZE_8M).
  - apply (bool_decide_unpack _). by vm_compute.
  - apply (bool_decide_unpack _). by vm_compute.
Defined.

(** the align size written into a leader record or a resource index header
    at format time is the one read back from its flags, in the presence of any
    other flag of the record. *)
Theorem align_flag_roundtrip a other :
  a ∈ [ALIGN_SIZE_1M; ALIGN_SIZE_2M; ALIGN_SIZE_4M; ALIGN_SIZE_8M] ->
  Z.land other 0xf0 = 0 ->
  leader_align_size_from_flag (Z.lor other (leader_align_flag_from_size a)) = a /\
  rindex_header_align_size_from_flag (rindex_header_align_flag_from_size a) = a.
Proof.
  intros Ha Ho.
  assert (Hb : forall i, 4 <= i < 8 -> Z.testbit other i = false).
  { intros i Hi. apply (f_equal (fun x => Z.testbit x i)) in Ho.
    rw Z.land_spec Z.testbit_0_l in Ho.
    assert (i = 4 \/ i = 5 \/ i = 6 \/ i = 7) by lia.
    destruct_or?; subst; by rw andb_true_r in Ho. }
  unfold leader_align_size_from_flag.
  destruct (lfl_masks (Z.lor other (leader_align_flag_from_size a))) as (-> & -> & -> & ->).
  rw !Z.lor_spec !Hb; [lia..|].
  rw !elem_of_cons elem_of_nil in Ha. destruct_or?; subst; done.
Qed.

Lemma align_flag_roundtrip_witness :
  leader_align_size_from_flag (Z.lor 1 (leader_align_flag_from_size ALIGN_SIZE_4M)) = ALIGN_SIZE_4M.
Proof.
  apply (align_flag_roundtrip ALIGN_SIZE_4M 1); [|reflexivity].
  apply (bool_decide_unpack _). by vm_compute.
Defined.
