(* ===== verification/OnDisk.v ===== *)
(** * On-disk records ([src/src/ondisk.c], [src/src/leader.h],
    [src/src/paxos_dblock.h], [src/src/mode_block.h], [src/src/rindex_disk.h])

    The six structures sanlock stores, their little-endian layout as bytes,
    and the [*_in]/[*_out] conversions. A conversion out writes into an
    existing byte image and leaves the bytes it does not assign (the checksum,
    structure padding) as they were; the [OnDisk] class states what every
    conversion pair promises to the components that do the i/o. *)

From S2P Require Import Prelude Crc32c.

(** ** Fields of a byte image *)

Definition raw (off n : nat) (bs : list Z) : list Z := take n (drop off bs).
Definition fld (off n : nat) (bs : list Z) : Z := le_combine (raw off n bs).

(** [memcpy] of [src] into [dst] at [off]. *)
Definition poke (off : nat) (src dst : list Z) : list Z :=
  take off dst ++ src ++ drop (off + length src) dst.

Definition NAME_ID_SIZE : nat := 48.
Definition name_ok (s : list Z) : Prop := length s = NAME_ID_SIZE /\ bytes_ok s.

(** ** The structures *)

Record leader_record := LeaderRecord {
  lr_magic : Z;
  lr_version : Z;
  lr_flags : Z;
  lr_sector_size : Z;
  lr_num_hosts : Z;
  lr_max_hosts : Z;
  lr_owner_id : Z;
  lr_owner_generation : Z;
  lr_lver : Z;
  lr_space_name : list Z;
  lr_resource_name : list Z;
  lr_timestamp : Z;
  lr_unused1 : Z;
  lr_checksum : Z;
  lr_unused2 : Z;
  lr_io_timeout : Z;
  lr_write_id : Z;
  lr_write_generation : Z;
  lr_write_timestamp : Z
}.

#[export] Instance leader_record_eq_dec : EqDecision leader_record.
Proof. solve_decision. Defined.

Record request_record := RequestRecord {
  rr_magic : Z;
  rr_version : Z;
  rr_lver : Z;
  rr_force_mode : Z
}.

#[export] Instance request_record_eq_dec : EqDecision request_record.
Proof. solve_decision. Defined.

Record paxos_dblock := PaxosDblock {
  pd_mbal : Z;
  pd_bal : Z;
  pd_inp : Z;
  pd_inp2 : Z;
  pd_inp3 : Z;
  pd_lver : Z;
  pd_checksum : Z;
  pd_flags : Z
}.

#[export] Instance paxos_dblock_eq_dec : EqDecision paxos_dblock.
Proof. solve_decision. Defined.

Record mode_block := ModeBlock {
  mb_flags : Z;
  mb_generation : Z
}.

#[export] Instance mode_block_eq_dec : EqDecision mode_block.
Proof. solve_decision. Defined.

Record rindex_header := RindexHeader {
  rh_magic : Z;
  rh_version : Z;
  rh_flags : Z;
  rh_sector_size : Z;
  rh_max_resources : Z;
  rh_unused : Z;
  rh_rx_offset : Z;
  rh_lockspace_name : list Z
}.

#[export] Instance rindex_header_eq_dec : EqDecision rindex_header.
Proof. solve_decision. Defined.

Record rindex_entry := RindexEntry {
  re_res_offset : Z;
  re_flags : Z;
  re_unused : Z;
  re_name : list Z
}.

#[export] Instance rindex_entry_eq_dec : EqDecision rindex_entry.
Proof. solve_decision. Defined.

Definition leader_record_ok (x : leader_record) : Prop :=
  is_u 32 (x.(lr_magic)) /\
  is_u 32 (x.(lr_version)) /\
  is_u 32 (x.(lr_flags)) /\
  is_u 32 (x.(lr_sector_size)) /\
  is_u 64 (x.(lr_num_hosts)) /\
  is_u 64 (x.(lr_max_hosts)) /\
  is_u 64 (x.(lr_owner_id)) /\
  is_u 64 (x.(lr_owner_generation)) /\
  is_u 64 (x.(lr_lver)) /\
  name_ok (x.(lr_space_name)) /\
  name_ok (x.(lr_resource_name)) /\
  is_u 64 (x.(lr_timestamp)) /\
  is_u 64 (x.(lr_unused1)) /\
  is_u 32 (x.(lr_checksum)) /\
  is_u 16 (x.(lr_unused2)) /\
  is_u 16 (x.(lr_io_timeout)) /\
  is_u 64 (x.(lr_write_id)) /\
  is_u 64 (x.(lr_write_generation)) /\
  is_u 64 (x.(lr_write_timestamp)).

Definition request_record_ok (x : request_record) : Prop :=
  is_u 32 (x.(rr_magic)) /\
  is_u 32 (x.(rr_version)) /\
  is_u 64 (x.(rr_lver)) /\
  is_u 32 (x.(rr_force_mode)).

Definition paxos_dblock_ok (x : paxos_dblock) : Prop :=
  is_u 64 (x.(pd_mbal)) /\
  is_u 64 (x.(pd_bal)) /\
  is_u 64 (x.(pd_inp)) /\
  is_u 64 (x.(pd_inp2)) /\
  is_u 64 (x.(pd_inp3)) /\
  is_u 64 (x.(pd_lver)) /\
  is_u 32 (x.(pd_checksum)) /\
  is_u 32 (x.(pd_flags)).

Definition mode_block_ok (x : mode_block) : Prop :=
  is_u 32 (x.(mb_flags)) /\
  is_u 64 (x.(mb_generation)).

Definition rindex_header_ok (x : rindex_header) : Prop :=
  is_u 32 (x.(rh_magic)) /\
  is_u 32 (x.(rh_version)) /\
  is_u 32 (x.(rh_flags)) /\
  is_u 32 (x.(rh_sector_size)) /\
  is_u 32 (x.(rh_max_resources)) /\
  is_u 32 (x.(rh_unused)) /\
  is_u 64 (x.(rh_rx_offset)) /\
  name_ok (x.(rh_lockspace_name)).

Definition rindex_entry_ok (x : rindex_entry) : Prop :=
  is_u 64 (x.(re_res_offset)) /\
  is_u 32 (x.(re_flags)) /\
  is_u 32 (x.(re_unused)) /\
  name_ok (x.(re_name)).

(** ** Conversions *)

(** The magic number is the first field of every structure. *)
Definition magic_in (bs : list Z) : Z := fld 0 4 bs.

Definition leader_record_in (bs : list Z) : leader_record :=
  LeaderRecord
    (fld 0 4 bs)
    (fld 4 4 bs)
    (fld 8 4 bs)
    (fld 12 4 bs)
    (fld 16 8 bs)
    (fld 24 8 bs)
    (fld 32 8 bs)
    (fld 40 8 bs)
    (fld 48 8 bs)
    (raw 56 48 bs)
    (raw 104 48 bs)
    (fld 152 8 bs)
    (fld 160 8 bs)
    (fld 168 4 bs)
    (fld 172 2 bs)
    (fld 174 2 bs)
    (fld 176 8 bs)
    (fld 184 8 bs)
    (fld 192 8 bs).

(** The part the checksum covers, and the part that follows the checksum. *)
Definition leader_record_head (x : leader_record) : list Z :=
  le_split 4 x.(lr_magic) ++
  le_split 4 x.(lr_version) ++
  le_split 4 x.(lr_flags) ++
  le_split 4 x.(lr_sector_size) ++
  le_split 8 x.(lr_num_hosts) ++
  le_split 8 x.(lr_max_hosts) ++
  le_split 8 x.(lr_owner_id) ++
  le_split 8 x.(lr_owner_generation) ++
  le_split 8 x.(lr_lver) ++
  x.(lr_space_name) ++
  x.(lr_resource_name) ++
  le_split 8 x.(lr_timestamp) ++
  le_split 8 x.(lr_unused1).

Definition leader_record_tail (x : leader_record) : list Z :=
  le_split 2 x.(lr_unused2) ++
  le_split 2 x.(lr_io_timeout) ++
  le_split 8 x.(lr_write_id) ++
  le_split 8 x.(lr_write_generation) ++
  le_split 8 x.(lr_write_timestamp).

Definition leader_record_out (x : leader_record) (bs : list Z) : list Z :=
  leader_record_head x ++ raw 168 4 bs ++ leader_record_tail x.

Definition sizeof_leader_record : nat := 200.

Definition request_record_in (bs : list Z) : request_record :=
  RequestRecord
    (fld 0 4 bs)
    (fld 4 4 bs)
    (fld 8 8 bs)
    (fld 16 4 bs).

Definition request_record_out (x : request_record) (bs : list Z) : list Z :=
  le_split 4 x.(rr_magic) ++
  le_split 4 x.(rr_version) ++
  le_split 8 x.(rr_lver) ++
  le_split 4 x.(rr_force_mode) ++
  raw 20 4 bs.

Definition sizeof_request_record : nat := 24.

Definition paxos_dblock_in (bs : list Z) : paxos_dblock :=
  PaxosDblock
    (fld 0 8 bs)
    (fld 8 8 bs)
    (fld 16 8 bs)
    (fld 24 8 bs)
    (fld 32 8 bs)
    (fld 40 8 bs)
    (fld 48 4 bs)
    (fld 52 4 bs).

Definition paxos_dblock_head (x : paxos_dblock) : list Z :=
  le_split 8 x.(pd_mbal) ++
  le_split 8 x.(pd_bal) ++
  le_split 8 x.(pd_inp) ++
  le_split 8 x.(pd_inp2) ++
  le_split 8 x.(pd_inp3) ++
  le_split 8 x.(pd_lver).

Definition paxos_dblock_out (x : paxos_dblock) (bs : list Z) : list Z :=
  paxos_dblock_head x ++ raw 48 4 bs ++ le_split 4 x.(pd_flags).

Definition sizeof_paxos_dblock : nat := 56.

Definition mode_block_in (bs : list Z) : mode_block :=
  ModeBlock
    (fld 0 4 bs)
    (fld 8 8 bs).

Definition mode_block_out (x : mode_block) (bs : list Z) : list Z :=
  le_split 4 x.(mb_flags) ++
  raw 4 4 bs ++
  le_split 8 x.(mb_generation).

Definition sizeof_mode_block : nat := 16.

Definition rindex_header_in (bs : list Z) : rindex_header :=
  RindexHeader
    (fld 0 4 bs)
    (fld 4 4 bs)
    (fld 8 4 bs)
    (fld 12 4 bs)
    (fld 16 4 bs)
    (fld 20 4 bs)
    (fld 24 8 bs)
    (raw 32 48 bs).

Definition rindex_header_out (x : rindex_header) (bs : list Z) : list Z :=
  le_split 4 x.(rh_magic) ++
  le_split 4 x.(rh_version) ++
  le_split 4 x.(rh_flags) ++
  le_split 4 x.(rh_sector_size) ++
  le_split 4 x.(rh_max_resources) ++
  le_split 4 x.(rh_unused) ++
  le_split 8 x.(rh_rx_offset) ++
  x.(rh_lockspace_name).

Definition sizeof_rindex_header : nat := 80.

Definition rindex_entry_in (bs : list Z) : rindex_entry :=
  RindexEntry
    (fld 0 8 bs)
    (fld 8 4 bs)
    (fld 12 4 bs)
    (raw 16 48 bs).

Definition rindex_entry_out (x : rindex_entry) (bs : list Z) : list Z :=
  le_split 8 x.(re_res_offset) ++
  le_split 4 x.(re_flags) ++
  le_split 4 x.(re_unused) ++
  x.(re_name).

Definition sizeof_rindex_entry : nat := 64.

Definition lr_with_checksum (cs : Z) (x : leader_record) : leader_record :=
  LeaderRecord x.(lr_magic) x.(lr_version) x.(lr_flags) x.(lr_sector_size) x.(lr_num_hosts) x.(lr_max_hosts) x.(lr_owner_id) x.(lr_owner_generation) x.(lr_lver) x.(lr_space_name) x.(lr_resource_name) x.(lr_timestamp) x.(lr_unused1) cs x.(lr_unused2) x.(lr_io_timeout) x.(lr_write_id) x.(lr_write_generation) x.(lr_write_timestamp).

Definition pd_with_checksum (cs : Z) (x : paxos_dblock) : paxos_dblock :=
  PaxosDblock x.(pd_mbal) x.(pd_bal) x.(pd_inp) x.(pd_inp2) x.(pd_inp3) x.(pd_lver) cs x.(pd_flags).

(** ** What a conversion pair promises *)

Class OnDisk (A : Type) := {
  od_size : nat;
  od_in : list Z -> A;
  od_out : A -> list Z -> list Z;
  od_ok : A -> Prop;
  (** the record with the fields [od_out] does not assign taken from the image *)
  od_patch : A -> list Z -> A;
  od_out_length a bs : od_ok a -> length bs = od_size -> length (od_out a bs) = od_size;
  od_out_bytes a bs : od_ok a -> bytes_ok bs -> bytes_ok (od_out a bs);
  od_in_out a bs tl :
    od_ok a -> length bs = od_size -> bytes_ok bs -> od_in (od_out a bs ++ tl) = od_patch a bs;
  od_in_ok bs : (od_size <= length bs)%nat -> bytes_ok bs -> od_ok (od_in bs)
}.

Lemma raw_skip a b off n : (length a <= off)%nat -> raw off n (a ++ b) = raw (off - length a) n b.
Proof. intros H. unfold raw. by rw drop_app_ge. Qed.

Lemma raw_here a b n : length a = n -> raw 0 n (a ++ b) = a.
Proof. intros <-. unfold raw. by rw drop_0 take_app_length. Qed.

Lemma raw_here_nil a n : length a = n -> raw 0 n a = a.
Proof. intros <-. unfold raw. by rw drop_0 firstn_all. Qed.

Lemma length_raw off n bs : (off + n <= length bs)%nat -> length (raw off n bs) = n.
Proof. intros H. unfold raw. rw length_take length_drop. lia. Qed.

Lemma raw_ok off n bs : bytes_ok bs -> bytes_ok (raw off n bs).
Proof. intros H. unfold raw. by apply Forall_take, Forall_drop. Qed.

Lemma fld_is_u off n bs :
  bytes_ok bs -> (off + n <= length bs)%nat -> is_u (8 * Z.of_nat n) (fld off n bs).
Proof.
  intros H Hl. rw -{1}(length_raw off n bs) //. by apply le_combine_is_u, raw_ok.
Qed.

Lemma fld2_is_u off bs : bytes_ok bs -> (off + 2 <= length bs)%nat -> is_u 16 (fld off 2 bs).
Proof. exact (fld_is_u off 2 bs). Qed.
Lemma fld4_is_u off bs : bytes_ok bs -> (off + 4 <= length bs)%nat -> is_u 32 (fld off 4 bs).
Proof. exact (fld_is_u off 4 bs). Qed.
Lemma fld8_is_u off bs : bytes_ok bs -> (off + 8 <= length bs)%nat -> is_u 64 (fld off 8 bs).
Proof. exact (fld_is_u off 8 bs). Qed.

Lemma name_raw_ok off bs : bytes_ok bs -> (off + 48 <= length bs)%nat -> name_ok (raw off 48 bs).
Proof. intros H Hl. split; [by apply length_raw|by apply raw_ok]. Qed.

(** Computes a field of a concatenation of fields of known lengths. *)
Ltac len_norm :=
  rw ?length_le_split; rw ?length_raw; [lia..|];
  repeat match goal with H : length ?x = _ |- context [length ?x] => rw H end.

Ltac field_of_image :=
  unfold fld;
  repeat (rw raw_skip; [len_norm; simpl; lia|]; len_norm; simpl Nat.sub);
  first [rw raw_here; [len_norm; simpl; lia|] | rw raw_here_nil; [len_norm; simpl; lia|]];
  try (apply le_combine_split_small; assumption); try done.

Ltac od_length := intros a bs Hok Hlen; red in Hok; unfold name_ok in Hok; destruct_and?;
  rw ?length_app ?length_le_split ?length_raw; rw ?Hlen; try lia;
  repeat match goal with H : length _ = NAME_ID_SIZE |- _ => rw H end; try done; simpl; lia.

Ltac od_bytes := intros a bs Hok Hb; red in Hok; unfold name_ok in Hok; destruct_and?;
  repeat (apply Forall_app; split); first [apply le_split_ok | by apply raw_ok | done].

Ltac od_fields_ok :=
  repeat match goal with |- _ /\ _ => split end;
  first [apply fld2_is_u | apply fld4_is_u | apply fld8_is_u | apply name_raw_ok]; done || lia.

Ltac od_roundtrip := intros a bs tl Hok Hlen Hb; destruct a; red in Hok; cbn in Hok;
  unfold name_ok, NAME_ID_SIZE in Hok; destruct_and?; cbn -[raw fld le_split app];
  rw -?app_assoc; f_equal; field_of_image.

Lemma leader_record_out_length a bs :
  leader_record_ok a -> length bs = sizeof_leader_record -> length (leader_record_out a bs) = sizeof_leader_record.
Proof. unfold leader_record_out, leader_record_head, leader_record_tail, sizeof_leader_record. revert a bs. od_length. Qed.

Lemma leader_record_out_bytes a bs : leader_record_ok a -> bytes_ok bs -> bytes_ok (leader_record_out a bs).
Proof. unfold leader_record_out, leader_record_head, leader_record_tail. revert a bs. od_bytes. Qed.

Lemma leader_record_in_ok bs :
  (sizeof_leader_record <= length bs)%nat -> bytes_ok bs -> leader_record_ok (leader_record_in bs).
Proof.
  unfold sizeof_leader_record. intros Hl Hb. unfold leader_record_ok, leader_record_in; cbn.
  od_fields_ok.
Qed.

Lemma leader_record_in_out a bs tl :
  leader_record_ok a -> length bs = sizeof_leader_record -> bytes_ok bs ->
  leader_record_in (leader_record_out a bs ++ tl) = lr_with_checksum (fld 168 4 bs) a.
Proof. unfold leader_record_in, leader_record_out, leader_record_head, leader_record_tail, sizeof_leader_record, lr_with_checksum. revert a bs tl. od_roundtrip. Qed.

#[export] Instance leader_record_OnDisk : OnDisk leader_record := {
  od_size := sizeof_leader_record;
  od_in := leader_record_in;
  od_out := leader_record_out;
  od_ok := leader_record_ok;
  od_patch a bs := lr_with_checksum (fld 168 4 bs) a;
  od_out_length := leader_record_out_length;
  od_out_bytes := leader_record_out_bytes;
  od_in_out := leader_record_in_out;
  od_in_ok := leader_record_in_ok
}.

Lemma request_record_out_length a bs :
  request_record_ok a -> length bs = sizeof_request_record -> length (request_record_out a bs) = sizeof_request_record.
Proof. unfold request_record_out, sizeof_request_record. revert a bs. od_length. Qed.

Lemma request_record_out_bytes a bs : request_record_ok a -> bytes_ok bs -> bytes_ok (request_record_out a bs).
Proof. unfold request_record_out. revert a bs. od_bytes. Qed.

Lemma request_record_in_ok bs :
  (sizeof_request_record <= length bs)%nat -> bytes_ok bs -> request_record_ok (request_record_in bs).
Proof.
  unfold sizeof_request_record. intros Hl Hb. unfold request_record_ok, request_record_in; cbn.
  od_fields_ok.
Qed.

Lemma request_record_in_out a bs tl :
  request_record_ok a -> length bs = sizeof_request_record -> bytes_ok bs ->
  request_record_in (request_record_out a bs ++ tl) = a.
Proof. unfold request_record_in, request_record_out, sizeof_request_record. revert a bs tl. od_roundtrip. Qed.

#[export] Instance request_record_OnDisk : OnDisk request_record := {
  od_size := sizeof_request_record;
  od_in := request_record_in;
  od_out := request_record_out;
  od_ok := request_record_ok;
  od_patch a bs := a;
  od_out_length := request_record_out_length;
  od_out_bytes := request_record_out_bytes;
  od_in_out := request_record_in_out;
  od_in_ok := request_record_in_ok
}.

Lemma paxos_dblock_out_length a bs :
  paxos_dblock_ok a -> length bs = sizeof_paxos_dblock -> length (paxos_dblock_out a bs) = sizeof_paxos_dblock.
Proof. unfold paxos_dblock_out, paxos_dblock_head, sizeof_paxos_dblock. revert a bs. od_length. Qed.

Lemma paxos_dblock_out_bytes a bs : paxos_dblock_ok a -> bytes_ok bs -> bytes_ok (paxos_dblock_out a bs).
Proof. unfold paxos_dblock_out, paxos_dblock_head. revert a bs. od_bytes. Qed.

Lemma paxos_dblock_in_ok bs :
  (sizeof_paxos_dblock <= length bs)%nat -> bytes_ok bs -> paxos_dblock_ok (paxos_dblock_in bs).
Proof.
  unfold sizeof_paxos_dblock. intros Hl Hb. unfold paxos_dblock_ok, paxos_dblock_in; cbn.
  od_fields_ok.
Qed.

Lemma paxos_dblock_in_out a bs tl :
  paxos_dblock_ok a -> length bs = sizeof_paxos_dblock -> bytes_ok bs ->
  paxos_dblock_in (paxos_dblock_out a bs ++ tl) = pd_with_checksum (fld 48 4 bs) a.
Proof. unfold paxos_dblock_in, paxos_dblock_out, paxos_dblock_head, sizeof_paxos_dblock, pd_with_checksum. revert a bs tl. od_roundtrip. Qed.

#[export] Instance paxos_dblock_OnDisk : OnDisk paxos_dblock := {
  od_size := sizeof_paxos_dblock;
  od_in := paxos_dblock_in;
  od_out := paxos_dblock_out;
  od_ok := paxos_dblock_ok;
  od_patch a bs := pd_with_checksum (fld 48 4 bs) a;
  od_out_length := paxos_dblock_out_length;
  od_out_bytes := paxos_dblock_out_bytes;
  od_in_out := paxos_dblock_in_out;
  od_in_ok := paxos_dblock_in_ok
}.

Lemma mode_block_out_length a bs :
  mode_block_ok a -> length bs = sizeof_mode_block -> length (mode_block_out a bs) = sizeof_mode_block.
Proof. unfold mode_block_out, sizeof_mode_block. revert a bs. od_length. Qed.

Lemma mode_block_out_bytes a bs : mode_block_ok a -> bytes_ok bs -> bytes_ok (mode_block_out a bs).
Proof. unfold mode_block_out. revert a bs. od_bytes. Qed.

Lemma mode_block_in_ok bs :
  (sizeof_mode_block <= length bs)%nat -> bytes_ok bs -> mode_block_ok (mode_block_in bs).
Proof.
  unfold sizeof_mode_block. intros Hl Hb. unfold mode_block_ok, mode_block_in; cbn.
  od_fields_ok.
Qed.

Lemma mode_block_in_out a bs tl :
  mode_block_ok a -> length bs = sizeof_mode_block -> bytes_ok bs ->
  mode_block_in (mode_block_out a bs ++ tl) = a.
Proof. unfold mode_block_in, mode_block_out, sizeof_mode_block. revert a bs tl. od_roundtrip. Qed.

#[export] Instance mode_block_OnDisk : OnDisk mode_block := {
  od_size := sizeof_mode_block;
  od_in := mode_block_in;
  od_out := mode_block_out;
  od_ok := mode_block_ok;
  od_patch a bs := a;
  od_out_length := mode_block_out_length;
  od_out_bytes := mode_block_out_bytes;
  od_in_out := mode_block_in_out;
  od_in_ok := mode_block_in_ok
}.

Lemma rindex_header_out_length a bs :
  rindex_header_ok a -> length bs = sizeof_rindex_header -> length (rindex_header_out a bs) = sizeof_rindex_header.
Proof. unfold rindex_header_out, sizeof_rindex_header. revert a bs. od_length. Qed.

Lemma rindex_header_out_bytes a bs : rindex_header_ok a -> bytes_ok bs -> bytes_ok (rindex_header_out a bs).
Proof. unfold rindex_header_out. revert a bs. od_bytes. Qed.

Lemma rindex_header_in_ok bs :
  (sizeof_rindex_header <= length bs)%nat -> bytes_ok bs -> rindex_header_ok (rindex_header_in bs).
Proof.
  unfold sizeof_rindex_header. intros Hl Hb. unfold rindex_header_ok, rindex_header_in; cbn.
  od_fields_ok.
Qed.

Lemma rindex_header_in_out a bs tl :
  rindex_header_ok a -> length bs = sizeof_rindex_header -> bytes_ok bs ->
  rindex_header_in (rindex_header_out a bs ++ tl) = a.
Proof. unfold rindex_header_in, rindex_header_out, sizeof_rindex_header. revert a bs tl. od_roundtrip. Qed.

#[export] Instance rindex_header_OnDisk : OnDisk rindex_header := {
  od_size := sizeof_rindex_header;
  od_in := rindex_header_in;
  od_out := rindex_header_out;
  od_ok := rindex_header_ok;
  od_patch a bs := a;
  od_out_length := rindex_header_out_length;
  od_out_bytes := rindex_header_out_bytes;
  od_in_out := rindex_header_in_out;
  od_in_ok := rindex_header_in_ok
}.

Lemma rindex_entry_out_length a bs :
  rindex_entry_ok a -> length bs = sizeof_rindex_entry -> length (rindex_entry_out a bs) = sizeof_rindex_entry.
Proof. unfold rindex_entry_out, sizeof_rindex_entry. revert a bs. od_length. Qed.

Lemma rindex_entry_out_bytes a bs : rindex_entry_ok a -> bytes_ok bs -> bytes_ok (rindex_entry_out a bs).
Proof. unfold rindex_entry_out. revert a bs. od_bytes. Qed.

Lemma rindex_entry_in_ok bs :
  (sizeof_rindex_entry <= length bs)%nat -> bytes_ok bs -> rindex_entry_ok (rindex_entry_in bs).
Proof.
  unfold sizeof_rindex_entry. intros Hl Hb. unfold rindex_entry_ok, rindex_entry_in; cbn.
  od_fields_ok.
Qed.

Lemma rindex_entry_in_out a bs tl :
  rindex_entry_ok a -> length bs = sizeof_rindex_entry -> bytes_ok bs ->
  rindex_entry_in (rindex_entry_out a bs ++ tl) = a.
Proof. unfold rindex_entry_in, rindex_entry_out, sizeof_rindex_entry. revert a bs tl. od_roundtrip. Qed.

#[export] Instance rindex_entry_OnDisk : OnDisk rindex_entry := {
  od_size := sizeof_rindex_entry;
  od_in := rindex_entry_in;
  od_out := rindex_entry_out;
  od_ok := rindex_entry_ok;
  od_patch a bs := a;
  od_out_length := rindex_entry_out_length;
  od_out_bytes := rindex_entry_out_bytes;
  od_in_out := rindex_entry_in_out;
  od_in_ok := rindex_entry_in_ok
}.

(** ** Checksums

    [leader_checksum] and [dblock_checksum] run over the bytes that precede the
    checksum field. A writer converts the record out, computes the checksum
    over the image and stores it in the image ("must compute checksum after the
    data has been byte swapped"); [leader_image] and [dblock_image] are that
    sequence, [bs] being the previous contents of the destination. *)

Definition LEADER_COMPARE_LEN : nat := 152.
Definition LEADER_CHECKSUM_LEN : nat := 168.
Definition DBLOCK_CHECKSUM_LEN : nat := 48.

Definition leader_checksum (bs : list Z) : Z := crc32c 0xFFFFFFFE (take LEADER_CHECKSUM_LEN bs).
Definition dblock_checksum (bs : list Z) : Z := crc32c 0xFFFFFFFE (take DBLOCK_CHECKSUM_LEN bs).

(** The checksum [write_leader] and [write_dblock] store back in the record. *)
Definition leader_sum (lr : leader_record) (bs : list Z) : Z := leader_checksum (leader_record_out lr bs).
Definition dblock_sum (pd : paxos_dblock) (bs : list Z) : Z := dblock_checksum (paxos_dblock_out pd bs).

Definition leader_image (lr : leader_record) (bs : list Z) : list Z :=
  poke 168 (le_split 4 (leader_sum lr bs)) (leader_record_out lr bs).

Definition dblock_image (pd : paxos_dblock) (bs : list Z) : list Z :=
  poke 48 (le_split 4 (dblock_sum pd bs)) (paxos_dblock_out pd bs).

#[local] Opaque crc32c.

Lemma length_poke off src dst :
  (off + length src <= length dst)%nat -> length (poke off src dst) = length dst.
Proof. intros H. unfold poke. rw !length_app length_take length_drop. lia. Qed.

Lemma poke_ok off src dst : bytes_ok src -> bytes_ok dst -> bytes_ok (poke off src dst).
Proof.
  intros Hs Hd. unfold poke. apply Forall_app; split; [by apply Forall_take|].
  apply Forall_app; split; [done|by apply Forall_drop].
Qed.

Lemma take_poke off src dst n :
  (n <= off)%nat -> (off <= length dst)%nat -> take n (poke off src dst) = take n dst.
Proof.
  intros H Hl. unfold poke. rw take_app_le; [rw length_take; lia|].
  rw take_take. f_equal. lia.
Qed.

Lemma checksum_init_u32 : is_u 32 0xFFFFFFFE.
Proof. by vm_compute. Qed.

Lemma leader_checksum_u32 bs : bytes_ok bs -> is_u 32 (leader_checksum bs).
Proof. intros H. apply crc32c_u32; [apply checksum_init_u32|by apply Forall_take]. Qed.

Lemma dblock_checksum_u32 bs : bytes_ok bs -> is_u 32 (dblock_checksum bs).
Proof. intros H. apply crc32c_u32; [apply checksum_init_u32|by apply Forall_take]. Qed.

(** Storing a checksum in an image is converting out over an image that holds it. *)
Lemma raw_poke off src dst :
  (off <= length dst)%nat -> raw off (length src) (poke off src dst) = src.
Proof.
  intros H. unfold poke. rw raw_skip length_take; [lia|].
  replace (off - off `min` length dst)%nat with 0%nat by lia. by rw raw_here.
Qed.

Lemma poke_app off h m t src :
  length h = off -> length m = length src -> poke off src (h ++ m ++ t) = h ++ src ++ t.
Proof.
  intros Hh Hm. unfold poke. rw (take_app_length' h) // drop_app_ge; [lia|].
  by rw (drop_app_length' m); [lia|].
Qed.

Lemma length_leader_record_head lr : leader_record_ok lr -> length (leader_record_head lr) = 168%nat.
Proof.
  intros Hok. red in Hok. unfold name_ok, NAME_ID_SIZE in Hok. destruct_and?.
  unfold leader_record_head. rw !length_app. by len_norm.
Qed.

Lemma length_paxos_dblock_head pd : length (paxos_dblock_head pd) = 48%nat.
Proof. reflexivity. Qed.

Lemma leader_image_eq lr bs :
  leader_record_ok lr -> length bs = sizeof_leader_record ->
  leader_image lr bs =
  leader_record_out lr (poke 168 (le_split 4 (leader_sum lr bs)) bs).
Proof.
  intros Hok Hlen. unfold leader_image.
  pose proof (raw_poke 168 (le_split 4 (leader_sum lr bs)) bs ltac:(rw Hlen; unfold sizeof_leader_record; lia)) as Hr.
  rw length_le_split in Hr. unfold leader_record_out. rw Hr.
  apply poke_app; [by apply length_leader_record_head|].
  rw length_le_split. apply length_raw. rw Hlen. unfold sizeof_leader_record. lia.
Qed.

Lemma dblock_image_eq pd bs :
  length bs = sizeof_paxos_dblock ->
  dblock_image pd bs = paxos_dblock_out pd (poke 48 (le_split 4 (dblock_sum pd bs)) bs).
Proof.
  intros Hlen. unfold dblock_image.
  pose proof (raw_poke 48 (le_split 4 (dblock_sum pd bs)) bs ltac:(rw Hlen; unfold sizeof_paxos_dblock; lia)) as Hr.
  rw length_le_split in Hr. unfold paxos_dblock_out. rw Hr.
  apply poke_app; [apply length_paxos_dblock_head|].
  rw length_le_split. apply length_raw. rw Hlen. unfold sizeof_paxos_dblock. lia.
Qed.

Lemma leader_checksum_out lr bs tl :
  leader_record_ok lr -> leader_checksum (leader_record_out lr bs ++ tl) = crc32c 0xFFFFFFFE (leader_record_head lr).
Proof.
  intros H. unfold leader_checksum, leader_record_out, LEADER_CHECKSUM_LEN.
  rw -app_assoc (take_app_length' (leader_record_head lr)) //. by rw length_leader_record_head.
Qed.

Lemma dblock_checksum_out pd bs tl :
  dblock_checksum (paxos_dblock_out pd bs ++ tl) = crc32c 0xFFFFFFFE (paxos_dblock_head pd).
Proof. reflexivity. Qed.

(** What reading back a sealed image gives: the record with its checksum, and
    the checksum recomputed from the image is the stored one. *)
Lemma leader_image_in lr bs tl :
  leader_record_ok lr -> length bs = sizeof_leader_record -> bytes_ok bs ->
  leader_record_in (leader_image lr bs ++ tl) = lr_with_checksum (leader_sum lr bs) lr /\
  leader_checksum (leader_image lr bs ++ tl) = leader_sum lr bs.
Proof.
  intros Hok Hlen Hb. unfold sizeof_leader_record in Hlen. rw leader_image_eq //.
  assert (Hsum : is_u 32 (leader_sum lr bs)).
  { apply leader_checksum_u32. by apply leader_record_out_bytes. }
  split.
  - rw leader_record_in_out //; [rw length_poke; rw ?length_le_split ?Hlen ?H; done || lia| |].
    { apply poke_ok; [apply le_split_ok|done]. }
    f_equal. unfold fld. pose proof (raw_poke 168 (le_split 4 (leader_sum lr bs)) bs) as Hr.
    rw length_le_split in Hr. rw Hr; [lia|]. by apply le_combine_split_small.
  - rw leader_checksum_out // /leader_sum.
    rw -(app_nil_r (leader_record_out lr bs)). by rw leader_checksum_out.
Qed.

Lemma dblock_image_in pd bs tl :
  paxos_dblock_ok pd -> length bs = sizeof_paxos_dblock -> bytes_ok bs ->
  paxos_dblock_in (dblock_image pd bs ++ tl) = pd_with_checksum (dblock_sum pd bs) pd /\
  dblock_checksum (dblock_image pd bs ++ tl) = dblock_sum pd bs.
Proof.
  intros Hok Hlen Hb. unfold sizeof_paxos_dblock in Hlen. rw dblock_image_eq //.
  assert (Hsum : is_u 32 (dblock_sum pd bs)).
  { apply dblock_checksum_u32. by apply paxos_dblock_out_bytes. }
  split.
  - rw paxos_dblock_in_out //; [rw length_poke; rw ?length_le_split ?Hlen ?H; done || lia| |].
    { apply poke_ok; [apply le_split_ok|done]. }
    f_equal. unfold fld. pose proof (raw_poke 48 (le_split 4 (dblock_sum pd bs)) bs) as Hr.
    rw length_le_split in Hr. rw Hr; [lia|]. by apply le_combine_split_small.
  - rw dblock_checksum_out /dblock_sum.
    rw -(app_nil_r (paxos_dblock_out pd bs)). by rw dblock_checksum_out.
Qed.

Lemma length_dblock_image pd bs :
  paxos_dblock_ok pd -> length bs = sizeof_paxos_dblock ->
  length (dblock_image pd bs) = sizeof_paxos_dblock.
Proof.
  intros Hok H. rw dblock_image_eq //. apply paxos_dblock_out_length; [done|].
  unfold sizeof_paxos_dblock in *. rw length_poke; rw ?length_le_split; lia.
Qed.

Lemma length_leader_image lr bs :
  leader_record_ok lr -> length bs = sizeof_leader_record ->
  length (leader_image lr bs) = sizeof_leader_record.
Proof.
  intros Hok H. rw leader_image_eq //. apply leader_record_out_length; [done|].
  unfold sizeof_leader_record in *. rw length_poke; rw ?length_le_split; lia.
Qed.

Lemma dblock_image_bytes pd bs :
  paxos_dblock_ok pd -> bytes_ok bs -> bytes_ok (dblock_image pd bs).
Proof. intros. apply poke_ok; [apply le_split_ok|by apply paxos_dblock_out_bytes]. Qed.

Lemma leader_image_bytes lr bs :
  leader_record_ok lr -> bytes_ok bs -> bytes_ok (leader_image lr bs).
Proof. intros. apply poke_ok; [apply le_split_ok|by apply leader_record_out_bytes]. Qed.

(** The zero image of a structure, what [memset(&x, 0, sizeof(x))] leaves. *)
Definition zeros (n : nat) : list Z := replicate n 0.

Lemma zeros_ok n : bytes_ok (zeros n).
Proof. apply Forall_replicate. by vm_compute. Qed.

#[export] Hint Resolve zeros_ok poke_ok raw_ok leader_image_bytes dblock_image_bytes : sanlock.

(** ** Properties *)

(** C40: Every on-disk structure survives the conversion out and back. For
    leader records, request records, dblocks, mode blocks, index headers and
    index entries whose fields fit their widths: reading the image that the out
    conversion leaves in a destination of the size of the structure gives the
    structure again, whatever the destination held and whatever follows it in
    the sector; of leader records and dblocks, whose out conversion does not
    assign the checksum, with the checksum that the destination held. The images
    have 200, 24, 56, 16, 80 and 64 bytes. *)
Theorem on_disk_roundtrip (bs tl : list Z) :
  bytes_ok bs ->
  (forall lr, leader_record_ok lr -> length bs = sizeof_leader_record ->
     leader_record_in (leader_record_out lr bs ++ tl) = lr_with_checksum (fld 168 4 bs) lr /\
     length (leader_record_out lr bs) = 200%nat) /\
  (forall rr, request_record_ok rr -> length bs = sizeof_request_record ->
     request_record_in (request_record_out rr bs ++ tl) = rr /\ length (request_record_out rr bs) = 24%nat) /\
  (forall pd, paxos_dblock_ok pd -> length bs = sizeof_paxos_dblock ->
     paxos_dblock_in (paxos_dblock_out pd bs ++ tl) = pd_with_checksum (fld 48 4 bs) pd /\
     length (paxos_dblock_out pd bs) = 56%nat) /\
  (forall mb, mode_block_ok mb -> length bs = sizeof_mode_block ->
     mode_block_in (mode_block_out mb bs ++ tl) = mb /\ length (mode_block_out mb bs) = 16%nat) /\
  (forall rh, rindex_header_ok rh -> length bs = sizeof_rindex_header ->
     rindex_header_in (rindex_header_out rh bs ++ tl) = rh /\ length (rindex_header_out rh bs) = 80%nat) /\
  (forall re, rindex_entry_ok re -> length bs = sizeof_rindex_entry ->
     rindex_entry_in (rindex_entry_out re bs ++ tl) = re /\ length (rindex_entry_out re bs) = 64%nat).
Proof.
  intros Hb. split_and!; intros x Hok Hlen; (split; [exact (od_in_out x bs tl Hok Hlen Hb)|exact (od_out_length x bs Hok Hlen)]).
Qed.

Lemma on_disk_roundtrip_witness :
  mode_block_in (mode_block_out (ModeBlock 1 7) (zeros 16) ++ [9; 9]) = ModeBlock 1 7.
Proof.
  destruct (on_disk_roundtrip (zeros 16) [9; 9] (zeros_ok 16)) as (_ & _ & _ & H & _).
  apply (H (ModeBlock 1 7)); [split; by vm_compute|reflexivity].
Defined.

(** a leader record or dblock sealed the way every writer seals it (converted
    out, checksummed over the byte-swapped image, the checksum stored in the
    image) reads back with all its fields and passes the checksum comparison
    of its reader. *)
Theorem sealed_image_verifies lr pd bs1 bs2 tl1 tl2 :
  leader_record_ok lr -> paxos_dblock_ok pd ->
  length bs1 = sizeof_leader_record -> bytes_ok bs1 ->
  length bs2 = sizeof_paxos_dblock -> bytes_ok bs2 ->
  let lr' := leader_record_in (leader_image lr bs1 ++ tl1) in
  let pd' := paxos_dblock_in (dblock_image pd bs2 ++ tl2) in
  lr_with_checksum 0 lr' = lr_with_checksum 0 lr /\
  lr_checksum lr' = leader_checksum (leader_image lr bs1 ++ tl1) /\
  pd_with_checksum 0 pd' = pd_with_checksum 0 pd /\
  pd_checksum pd' = dblock_checksum (dblock_image pd bs2 ++ tl2).
Proof.
  intros Hl Hp L1 B1 L2 B2.
  destruct (leader_image_in lr bs1 tl1 Hl L1 B1) as [E1 E2].
  destruct (dblock_image_in pd bs2 tl2 Hp L2 B2) as [E3 E4].
  cbv zeta. by rw E1 E2 E3 E4.
Qed.

Lemma sealed_image_verifies_witness :
  let lr := LeaderRecord 1 2 3 512 5 6 7 8 9 (zeros 48) (zeros 48) 10 0 0 0 11 12 13 14 in
  let pd := PaxosDblock 1 2 3 4 5 6 0 1 in
  leader_record_in (leader_image lr (zeros sizeof_leader_record) ++ []) =
    lr_with_checksum (leader_checksum (leader_image lr (zeros sizeof_leader_record))) lr /\
  pd_checksum (paxos_dblock_in (dblock_image pd (zeros sizeof_paxos_dblock) ++ [])) =
    dblock_checksum (dblock_image pd (zeros sizeof_paxos_dblock) ++ []).
Proof.
  intros lr pd.
  destruct (sealed_image_verifies lr pd (zeros sizeof_leader_record) (zeros sizeof_paxos_dblock) [] [])
    as (_ & _ & _ & E); [| |done|apply zeros_ok|done|apply zeros_ok|].
  - assert (name_ok (zeros 48)) by (split; [done|apply zeros_ok]).
    unfold leader_record_ok. cbn. by repeat (split; [done || by vm_compute|]).
  - unfold paxos_dblock_ok. cbn. by repeat (split; [by vm_compute|]).
  - split; [by vm_compute|done].
Defined.
