(* ===== verification/Timeouts.v ===== *)
(** * Timeouts ([src/src/timeouts.c])

    The intervals derived from the io timeout and the watchdog timeout, the
    graceful-kill setup, and the orderings between them that the lease
    algorithms depend on. *)

From S2P Require Import Prelude.

(** The fields of the global [com] the modelled code reads. *)
Record command_line := Com {
  com_watchdog_fire_timeout : Z;
  com_kill_grace_seconds : Z;
  com_kill_grace_set : Z;
  com_set_bitmap_seconds : Z;
  com_write_init_io_timeout : Z;
  com_io_timeout : Z
}.

Definition DEFAULT_WATCHDOG_FIRE_TIMEOUT : Z := 60.
Definition DEFAULT_GRACE_SEC : Z := 40.

Definition with_kill_grace (g : Z) (com : command_line) : command_line :=
  Com com.(com_watchdog_fire_timeout) g com.(com_kill_grace_set) com.(com_set_bitmap_seconds)
    com.(com_write_init_io_timeout) com.(com_io_timeout).

Definition setup_timeouts (com : command_line) : command_line :=
  let w := com.(com_watchdog_fire_timeout) in
  if (com.(com_kill_grace_set) =? 0) && (w <? DEFAULT_WATCHDOG_FIRE_TIMEOUT) then
    if (w <? 60) && (30 <=? w) then with_kill_grace 15 com
    else if w <? 30 then with_kill_grace 0 com
    else com
  else com.

Section timeouts.
Context (com : command_line).

Definition calc_host_dead_seconds (io_timeout : Z) : Z :=
  i32 (8 * io_timeout + com.(com_watchdog_fire_timeout)).
Definition calc_id_renewal_seconds (io_timeout : Z) : Z := i32 (2 * io_timeout).
Definition calc_id_renewal_fail_seconds (io_timeout : Z) : Z := i32 (8 * io_timeout).
Definition calc_id_renewal_warn_seconds (io_timeout : Z) : Z := i32 (6 * io_timeout).
Definition calc_set_bitmap_seconds (io_timeout : Z) : Z :=
  if nz com.(com_set_bitmap_seconds) then com.(com_set_bitmap_seconds) else i32 (6 * io_timeout).

(** The values [log_timeouts] derives. *)
Record timeouts := Timeouts {
  to_host_dead : Z;
  to_delta_large_delay : Z;
  to_delta_short_delay : Z;
  to_delta_acquire_held_max : Z;
  to_delta_acquire_held_min : Z;
  to_delta_acquire_free_max : Z;
  to_delta_acquire_free_min : Z;
  to_delta_renew_max : Z;
  to_paxos_acquire_held_max : Z;
  to_paxos_acquire_held_min : Z;
  to_paxos_acquire_free_max : Z;
  to_request_finish : Z
}.

Definition log_timeouts (io_timeout : Z) : timeouts :=
  let id_renewal := 2 * io_timeout in
  let id_renewal_fail := 8 * io_timeout in
  let host_dead := id_renewal_fail + com.(com_watchdog_fire_timeout) in
  let delta_large_delay := id_renewal + 6 * io_timeout in
  let delta_short_delay := 2 * io_timeout in
  let max := if host_dead <? delta_large_delay then delta_large_delay else host_dead in
  Timeouts host_dead delta_large_delay delta_short_delay
    (max + delta_short_delay + 4 * io_timeout) max
    (delta_short_delay + 3 * io_timeout) delta_short_delay
    (2 * io_timeout)
    (host_dead + 7 * io_timeout) host_dead (6 * io_timeout) (3 * id_renewal).

(** for an io timeout and a watchdog timeout that fit a day, nothing
    overflows and the intervals are ordered the way recovery needs: a host
    renews before it warns, warns before it counts its renewal as failed, and
    the others count it dead only a full watchdog period after that, which is
    also how long acquiring its held host id takes at least. *)
Theorem timeout_ordering io_timeout :
  0 < io_timeout <= 86400 -> 0 < com.(com_watchdog_fire_timeout) <= 86400 ->
  0 < calc_id_renewal_seconds io_timeout < calc_id_renewal_warn_seconds io_timeout /\
  calc_id_renewal_warn_seconds io_timeout < calc_id_renewal_fail_seconds io_timeout /\
  calc_host_dead_seconds io_timeout =
    calc_id_renewal_fail_seconds io_timeout + com.(com_watchdog_fire_timeout) /\
  to_delta_acquire_held_min (log_timeouts io_timeout) = calc_host_dead_seconds io_timeout /\
  calc_id_renewal_fail_seconds io_timeout < to_delta_acquire_held_min (log_timeouts io_timeout).
Proof.
  intros H1 H2.
  unfold calc_host_dead_seconds, calc_id_renewal_seconds, calc_id_renewal_warn_seconds,
    calc_id_renewal_fail_seconds, log_timeouts; cbn [to_delta_acquire_held_min].
  rw !i32_small; [lia..|]. cases; zbool; lia.
Qed.

End timeouts.

Lemma timeout_ordering_witness :
  let com := Com 60 40 0 0 60 10 in
  calc_host_dead_seconds com 10 = calc_id_renewal_fail_seconds 10 + 60 /\
  calc_host_dead_seconds com 10 = 140.
Proof.
  split; [|reflexivity].
  apply (timeout_ordering (Com 60 40 0 0 60 10) 10); simpl; lia.
Defined.

(** [setup_timeouts] never lengthens the graceful period when a shorter
    watchdog is configured: unless the operator set it, the grace left is at
    most half of a watchdog timeout below 60 seconds, so the sigkill phase
    keeps the other half; every other setting is untouched. *)
Theorem setup_timeouts_grace com :
  let com' := setup_timeouts com in
  com_watchdog_fire_timeout com' = com_watchdog_fire_timeout com /\
  (com_kill_grace_set com = 0 -> 0 <= com_watchdog_fire_timeout com < 60 ->
   0 <= 2 * com_kill_grace_seconds com' <= com_watchdog_fire_timeout com) /\
  (com_kill_grace_set com <> 0 \/ 60 <= com_watchdog_fire_timeout com -> com' = com).
Proof.
  unfold setup_timeouts, DEFAULT_WATCHDOG_FIRE_TIMEOUT. cbv zeta.
  split; [cases; done|]. split.
  - intros Hs Hw. rw Hs. cases; zbool; simpl; lia.
  - intros H. cases; zbool; try done; lia.
Qed.

Lemma setup_timeouts_grace_witness :
  0 <= 2 * com_kill_grace_seconds (setup_timeouts (Com 45 40 0 0 60 10)) <= 45.
Proof.
  apply (setup_timeouts_grace (Com 45 40 0 0 60 10)); simpl; [reflexivity|lia].
Defined.
