(* ===== verification/Io.v ===== *)
(** * Effects and sector i/o ([src/src/diskio.c])

    Code that does i/o is a [prog]: a tree of the calls that leave the modelled
    code (the system's aligned allocation, reads and writes of io buffers, the
    clock, sleeping, random delays, the lockspace queries of another thread)
    with the continuation of each response. Responses are universally
    quantified, so failures, timeouts and uninitialised memory are all
    behaviours of the model. An access outside a buffer is [Ub].

    On this the file gives [read_sectors], [write_sector], [write_sectors] and
    [majority_disks], and a calculus ([always]) for what holds of every
    response sequence. *)

From S2P Require Import Prelude OnDisk.

(** ** Return codes ([src/src/sanlock_rv.h], errno) *)

Definition SANLK_OK : Z := 1.
Definition SANLK_AIO_TIMEOUT : Z := -202.
Definition EINVAL : Z := 22.
Definition ENOMEM : Z := 12.
Definition ENOTEMPTY : Z := 39.

(** ** Data *)

(** The contents of an allocation or of a device, by byte address. *)
Abbreviation mem := (Z -> Z).

Definition mem_of (bs : list Z) : mem := fun i => if i <? 0 then 0 else nth (Z.to_nat i) bs 0.
Definition mem_read (m : mem) (off : Z) (n : nat) : list Z :=
  (fun i => m (off + Z.of_nat i)) <$> seq 0 n.
Definition mem_write (m : mem) (off len : Z) (b : mem) : mem :=
  fun i => if (off <=? i) && (i <? off + len) then b (i - off) else m i.

Record sync_disk := SyncDisk {
  sd_path : list Z;
  sd_offset : Z;
  sd_sector_size : Z;
  sd_fd : Z
}.

#[export] Instance sync_disk_eq_dec : EqDecision sync_disk.
Proof. solve_decision. Defined.

Record host_status := HostStatus {
  hs_first_check : Z;
  hs_last_check : Z;
  hs_last_live : Z;
  hs_last_req : Z;
  hs_owner_id : Z;
  hs_owner_generation : Z;
  hs_timestamp : Z;
  hs_set_bit_time : Z;
  hs_io_timeout : Z;
  hs_lease_bad : Z;
  hs_owner_name : list Z
}.

(** ** Effects *)

(** The calls of the wdmd client library that [watchdog.c] makes on a connection,
    and the closing of a descriptor. *)
Inductive wd_call :=
  | WdmdConnect
  | WdmdOpenWatchdog (con fire_timeout : Z)
  | WdmdRegister (con : Z) (space_name : list Z) (host_id : Z)
  | WdmdRefcountSet (con : Z)
  | WdmdRefcountClear (con : Z)
  | WdmdTestLive (con renewal_time expire_time : Z)
  | WdClose (fd : Z).

(** What the lockspace thread stores in the [struct space] it shares with the
    main thread, each in one critical section: the sizes, the read buffer, the
    result of the acquire, the generation, the result of a renewal with the area
    it read. *)
Inductive sp_update :=
  | SpSizes (sector_size align_size max_hosts : Z)
  | SpMaxSectorsKb (kb : Z)
  | SpReadBuf
  | SpAcquired (acquire_result delta_result delta_begin last_success : Z)
  | SpGeneration (generation : Z)
  | SpWdFd (con : Z)
  | SpRenewed (delta_result delta_begin last_success : Z) (read_buf : option mem) (rd_ms wr_ms : Z).

(** System calls on the lockspace's device: [fstat] (second result: whether it is
    a regular file), the [max_hw_sectors_kb] of the device, setting its
    [max_sectors_kb] directly or through the helper process. *)
Inductive sys_call :=
  | SysFstat (fd : Z)
  | SysReadHwKb (path : list Z)
  | SysSetMaxKb (path : list Z) (kb : Z)
  | SysHelperSetMaxKb (path : list Z) (kb : Z).

(** [struct helper_msg], what the daemon writes to its helper process: run the
    killpath (with the pid, or 0), or send a signal. *)
Inductive helper_msg := MsgRunpath (path args : list Z) (pid : Z) | MsgKillpid (pid sig : Z).

(** System calls on a socket: [socket], the address of the daemon's socket, [connect],
    [send] and [recv] (repeated while they are interrupted), [close]. *)
Inductive sock_call :=
  | SSocket
  | SAddress
  | SConnect (fd : Z)
  | SSend (fd : Z) (data : list Z)
  | SRecv (fd len : Z) (dontwait : bool)
  | SClose (fd : Z).

(** [struct sanlk_host_event]: host id, generation, event, data. *)
Abbreviation host_event_data := (Z * Z * Z * Z)%type.

Inductive cmd : Type -> Type :=
  (** [posix_memalign]: its errno, and the (indeterminate) contents *)
  | CMemalign (len : Z) : cmd (Z * mem)
  (** [malloc]: whether it succeeded *)
  | CMalloc (len : Z) : cmd bool
  (** the indeterminate contents of an automatic structure of [n] bytes *)
  | CStack (n : nat) : cmd (list Z)
  (** [read_iobuf(fd, offset, iobuf, len, task, ioto)]: rv and the buffer after it *)
  | CReadIobuf (fd offset len ioto : Z) : cmd (Z * mem)
  (** [read_iobuf] into a NULL buffer, which the kernel refuses with EFAULT *)
  | CReadNull (fd offset len ioto : Z) : cmd Z
  | CWriteIobuf (fd offset len ioto : Z) (iobuf : mem) : cmd Z
  | CMonotime : cmd Z
  | CSleep (seconds : Z) : cmd unit
  | CUsleep (us : Z) : cmd unit
  | CGetRand (a b : Z) : cmd Z
  (** [lockspace_disk(space_name)]: rv, disk, sector size *)
  | CLockspaceDisk (space_name : list Z) : cmd (Z * sync_disk * Z)
  (** [open_disks_fd] of one disk: rv and the descriptor *)
  | COpenDisk (disk : sync_disk) : cmd (Z * Z)
  | CCloseDisk (disk : sync_disk) : cmd unit
  (** [host_info(space_name, host_id)] *)
  | CHostInfo (space_name : list Z) (host_id : Z) : cmd (Z * host_status)
  (** [read_iobuf_reap]: rv and the buffer of the read that had timed out *)
  | CReapIobuf (fd offset len msec : Z) : cmd (Z * mem)
  (** the [sp->external_remove] flag, set by another thread *)
  | CExternalRemove : cmd bool
  (** the [external_shutdown] flag, set by another thread *)
  | CExternalShutdown : cmd bool
  (** the [sp->thread_stop] flag, set by the main thread *)
  | CThreadStop : cmd bool
  (** [create_bitmap_and_extra]: the bitmap and the fields of [extra] *)
  | CCreateBitmap : cmd (list Z * (Z * Z * Z))
  | CWatchdog (c : wd_call) : cmd Z
  (** [wdmd_status]: rv and [*fire_timeout] *)
  | CWdmdStatus (con : Z) : cmd (Z * Z)
  | CSpace (u : sp_update) : cmd unit
  | CSys (c : sys_call) : cmd (Z * Z)
  (** [open] for direct i/o: the descriptor, or the negated errno *)
  | COpen (path : list Z) : cmd Z
  (** [set_disk_properties] of a block device: rv and the sector size *)
  | CDiskProperties (path : list Z) : cmd (Z * Z)
  (** [lockspace_info(space_name)]: rv and [spi.killing_pids] *)
  | CLockspaceInfo (space_name : list Z) : cmd (Z * Z)
  (** [write(helper_kill_fd, &hm)], repeated while it is interrupted *)
  | CHelperWrite (hm : helper_msg) : cmd Z
  | CSendEvents (space_id from_host_id from_generation : Z) (he : host_event_data) : cmd unit
  (** [lockspace_begin_rindex_op]: rv, and of [spi] the io timeout, sector size, host
      id and generation *)
  | CBeginRindexOp (space_name : list Z) (op : Z) : cmd (Z * (Z * Z * Z * Z))
  | CClearRindexOp (space_name : list Z) : cmd unit
  (** the result, or the negated errno, and the bytes received *)
  | CSock (c : sock_call) : cmd (Z * list Z).

Inductive prog (A : Type) : Type :=
  | Ret (a : A)
  | Ub
  | Io {X : Type} (c : cmd X) (k : X -> prog A).
Arguments Ret {A} _.
Arguments Ub {A}.
Arguments Io {A X} _ _.

Fixpoint pbind {A B} (p : prog A) (f : A -> prog B) : prog B :=
  match p with
  | Ret a => f a
  | Ub => Ub
  | Io c k => Io c (fun x => pbind (k x) f)
  end.

#[export] Instance prog_ret : MRet prog := @Ret.
#[export] Instance prog_bind : MBind prog := fun A B f p => pbind p f.

Definition call {X} (c : cmd X) : prog X := Io c Ret.

(** A copy of [n] bytes at [off] out of a buffer of [len] bytes. *)
Definition buf_get (len : Z) (b : mem) (off n : Z) : prog (list Z) :=
  if (0 <=? off) && (0 <=? n) && (off + n <=? len)
  then Ret (mem_read b off (Z.to_nat n)) else Ub.

(** [memcpy(iobuf + off, src, n)]. *)
Definition buf_put (b : mem) (off : Z) (src : list Z) : mem :=
  mem_write b off (Z.of_nat (length src)) (mem_of src).

(** The zeroed buffer a [memset(iobuf, 0, iobuf_len)] leaves. *)
Definition mem_zero : mem := fun _ => 0.

(** A signed product: overflow is undefined. *)
Definition smul (a b : Z) : prog Z :=
  if (- 2 ^ 31 <=? a * b) && (a * b <? 2 ^ 31) then Ret (a * b) else Ub.

(** ** [diskio.c] *)

Definition majority_disks (num_disks num : Z) : bool :=
  if (num_disks =? 1) && (num =? 0) then false
  else if nz (Z.rem num_disks 2) then Z.quot num_disks 2 + 1 <=? num
  else if Z.quot num_disks 2 <? num then true
  else false.

Definition write_iobuf (fd offset : Z) (iobuf : mem) (iobuf_len ioto : Z) : prog Z :=
  call (CWriteIobuf fd offset iobuf_len ioto iobuf).

Definition read_iobuf (fd offset iobuf_len ioto : Z) : prog (Z * mem) :=
  call (CReadIobuf fd offset iobuf_len ioto).

(** [memset(iobuf, 0, iobuf_len); memcpy(iobuf, data, data_len)]: the copy
    overruns the buffer when [data_len > iobuf_len]. *)
Definition _write_sectors (disk : sync_disk) (sector_size sector_nr : Z) (data : list Z)
    (iobuf_len ioto : Z) : prog Z :=
  let offset := u64 (disk.(sd_offset) + sector_nr * sector_size) in
  r ← call (CMemalign iobuf_len);
  if nz (fst r) then Ret (- ENOMEM)
  else if iobuf_len <? Z.of_nat (length data) then Ub
  else write_iobuf disk.(sd_fd) offset (mem_of data) iobuf_len ioto.

Definition bad_sector_size (sector_size : Z) : bool :=
  negb (sector_size =? 4096) && negb (sector_size =? 512).

Definition write_sector (disk : sync_disk) (sector_size sector_nr : Z) (data : list Z)
    (ioto : Z) : prog Z :=
  let iobuf_len := sector_size in
  if bad_sector_size sector_size then Ret (- EINVAL)
  else if iobuf_len <? Z.of_nat (length data) then Ret (-1)
  else _write_sectors disk sector_size sector_nr data iobuf_len ioto.

Definition write_sectors (disk : sync_disk) (sector_size sector_nr sector_count : Z)
    (data : list Z) (ioto : Z) : prog Z :=
  let iobuf_len := Z.of_nat (length data) in
  if bad_sector_size sector_size then Ret (- EINVAL)
  else if negb (u32 (Z.of_nat (length data)) =? u32 (sector_count * sector_size)) then Ret (-1)
  else _write_sectors disk sector_size sector_nr data iobuf_len ioto.

(** [data] is what the destination holds before the call: it is overwritten
    only when the read succeeds. *)
Definition read_sectors (disk : sync_disk) (sector_size sector_nr sector_count : Z)
    (data : list Z) (ioto : Z) : prog (Z * list Z) :=
  if bad_sector_size sector_size then Ret (- EINVAL, data)
  else
    let iobuf_len := i32 (u32 (sector_count * sector_size)) in
    let offset := u64 (disk.(sd_offset) + sector_nr * sector_size) in
    r ← call (CMemalign iobuf_len);
    if nz (fst r) then Ret (- ENOMEM, data)
    else
      r ← read_iobuf disk.(sd_fd) offset iobuf_len ioto;
      if fst r =? 0 then
        (new ← buf_get iobuf_len (snd r) 0 (Z.of_nat (length data)); Ret (fst r, new))
      else Ret (fst r, data).

(** ** Opening and closing disks *)

Definition set_fd (fd : Z) (d : sync_disk) : sync_disk :=
  SyncDisk d.(sd_path) d.(sd_offset) d.(sd_sector_size) fd.

Fixpoint close_disks (disks : list sync_disk) : prog (list sync_disk) :=
  match disks with
  | [] => Ret []
  | d :: disks =>
      d ← (if d.(sd_fd) =? -1 then Ret d else _ ← call (CCloseDisk d); Ret (set_fd (-1) d));
      disks ← close_disks disks;
      Ret (d :: disks)
  end.

(** The loop of [open_disks_fd]: whether a disk was open already, the code of the
    last failure, the number of disks opened, and the disks. *)
Fixpoint open_fd_loop (disks : list sync_disk) (rv num_opens : Z)
    : prog (bool * Z * Z * list sync_disk) :=
  match disks with
  | [] => Ret (false, rv, num_opens, [])
  | d :: ds =>
      if negb (d.(sd_fd) =? -1) then Ret (true, -1, num_opens, d :: ds)
      else
        fd ← call (COpen d.(sd_path));
        if fd <? 0 then
          r ← open_fd_loop ds fd num_opens;
          Ret (fst r, d :: snd r)
        else
          r ← open_fd_loop ds rv (num_opens + 1);
          Ret (fst r, set_fd fd d :: snd r)
  end.

Definition open_disks_fd (disks : list sync_disk) : prog (Z * list sync_disk) :=
  r ← open_fd_loop disks (-1) 0;
  let '(exists_, rv, num_opens, ds) := r in
  if exists_ || negb (majority_disks (Z.of_nat (length disks)) num_opens)
  then ds ← close_disks ds; Ret (rv, ds)
  else Ret (0, ds).

(** A failing [open_disk] leaves the disk as it is. *)
Definition open_disk (d : sync_disk) : prog (Z * sync_disk) :=
  let fail rv := if 0 <=? rv then -1 else rv in
  fd ← call (COpen d.(sd_path));
  if fd <? 0 then Ret (fail fd, d)
  else
    st ← call (CSys (SysFstat fd));
    if fst st <? 0 then _ ← call (CCloseDisk (set_fd fd d)); Ret (fail (fst st), d)
    else if nz (snd st) then Ret (0, SyncDisk d.(sd_path) d.(sd_offset) 512 fd)
    else
      p ← call (CDiskProperties d.(sd_path));
      if fst p <? 0 then _ ← call (CCloseDisk (set_fd fd d)); Ret (fail (fst p), d)
      else Ret (0, SyncDisk d.(sd_path) d.(sd_offset) (snd p) fd).

(** As [open_fd_loop]; sector sizes that differ are only reported. *)
Fixpoint open_loop (disks : list sync_disk) (rv num_opens : Z)
    : prog (bool * Z * Z * list sync_disk) :=
  match disks with
  | [] => Ret (false, rv, num_opens, [])
  | d :: ds =>
      if negb (d.(sd_fd) =? -1) then Ret (true, - ENOTEMPTY, num_opens, d :: ds)
      else
        o ← open_disk d;
        r ← open_loop ds (if fst o <? 0 then fst o else rv)
              (if fst o <? 0 then num_opens else num_opens + 1);
        Ret (fst r, snd o :: snd r)
  end.

Definition open_disks (disks : list sync_disk) : prog (Z * list sync_disk) :=
  r ← open_loop disks (-1) 0;
  let '(exists_, rv, num_opens, ds) := r in
  if exists_ || negb (majority_disks (Z.of_nat (length disks)) num_opens)
  then ds ← close_disks ds; Ret (rv, ds)
  else Ret (0, ds).

(** ** Response sequences *)

(** The disk i/o and the sleeping a program has done, oldest first. *)
Inductive event :=
  | EvRead (fd offset len rv : Z) (iobuf : mem)
  | EvWrite (fd offset len : Z) (iobuf : mem) (rv : Z)
  | EvSleep (seconds : Z)
  | EvWatchdog (c : wd_call) (rv : Z)
  | EvSpace (u : sp_update)
  | EvHelper (hm : helper_msg) (rv : Z)
  | EvSock (c : sock_call) (rv : Z) (bytes : list Z).

Definition not_write (e : event) : Prop := match e with EvWrite _ _ _ _ _ => False | _ => True end.

Definition ev {X} (c : cmd X) : X -> list event :=
  match c in cmd X return X -> list event with
  | CReadIobuf fd offset len _ => fun r => [EvRead fd offset len (fst r) (snd r)]
  | CReapIobuf fd offset len _ => fun r => [EvRead fd offset len (fst r) (snd r)]
  | CWriteIobuf fd offset len _ iobuf => fun rv => [EvWrite fd offset len iobuf rv]
  | CSleep s => fun _ => [EvSleep s]
  | CWatchdog w => fun rv => [EvWatchdog w rv]
  | CSpace u => fun _ => [EvSpace u]
  | CHelperWrite hm => fun rv => [EvHelper hm rv]
  | CSock c => fun r => [EvSock c (fst r) (snd r)]
  | _ => fun _ => []
  end.

(** What the callees document: error codes are negative for i/o, [EINVAL] or
    [ENOMEM] for the allocator, memory holds bytes, the clock is a [uint64_t]. *)
Definition resp_ok {X} (c : cmd X) : X -> Prop :=
  match c in cmd X return X -> Prop with
  | CMemalign _ => fun r => (fst r = 0 \/ fst r = EINVAL \/ fst r = ENOMEM) /\ forall i, byte_ok (snd r i)
  | CReadIobuf _ _ _ _ => fun r => fst r <= 0 /\ forall i, byte_ok (snd r i)
  | CReapIobuf _ _ _ _ => fun r => fst r <= 0 /\ forall i, byte_ok (snd r i)
  | CReadNull _ _ _ _ => fun rv => rv < 0
  | CWriteIobuf _ _ _ _ _ => fun rv => rv <= 0
  | CStack n => fun bs => length bs = n /\ bytes_ok bs
  | CMonotime => fun t => is_u 64 t
  | CCreateBitmap => fun r => length (fst r) = 256%nat /\ bytes_ok (fst r) /\
      is_u 64 (fst (fst (snd r))) /\ is_u 64 (snd (fst (snd r))) /\ is_u 64 (snd (snd r))
  | CSock (SSend _ data) => fun r => fst r <= Z.of_nat (length data) /\ (fst r = 0 -> data = [])
  | CSock (SRecv _ _ _) => fun r => (0 <= fst r -> Z.of_nat (length (snd r)) = fst r) /\ bytes_ok (snd r)
  | _ => fun _ => True
  end.

(** What an environment may answer to a call made at history [h]. *)
Definition env := list event -> forall X, cmd X -> X -> Prop.

(** Any environment that keeps to what the callees document. *)
Definition any_env : env := fun _ X c x => resp_ok c x.

(** [always_in R p I Q h]: from history [h], whatever the responses among those
    of [R], every history [p] reaches satisfies [I], no access is out of bounds,
    and a result [a] reached with history [h'] satisfies [Q h' a]. *)
Fixpoint always_in (R : env) {A} (p : prog A) (I : list event -> Prop) (Q : list event -> A -> Prop)
    (h : list event) : Prop :=
  I h /\
  match p with
  | Ret a => Q h a
  | Ub => False
  | Io c k => forall x, R h _ c x -> always_in R (k x) I Q (h ++ ev c x)
  end.

Abbreviation always := (always_in any_env).

Section always.
Context {R : env}.

Lemma always_now {A} (p : prog A) I Q h : always_in R p I Q h -> I h.
Proof. destruct p; by intros [H _]. Qed.

Lemma always_mono {A} (p : prog A) (I I' : list event -> Prop) (Q Q' : list event -> A -> Prop) h :
  always_in R p I Q h ->
  (forall h, I h -> I' h) -> (forall h a, I h -> Q h a -> Q' h a) -> always_in R p I' Q' h.
Proof.
  intros H HI HQ; revert h H. induction p as [a| |X c k IH]; intros h [Hh H]; simpl; eauto.
Qed.

Lemma always_bind {A B} (p : prog A) (f : A -> prog B) I Q h :
  always_in R p I (fun h a => always_in R (f a) I Q h) h -> always_in R (p ≫= f) I Q h.
Proof.
  revert h. induction p as [a| |X c k IH]; intros h [Hh H]; simpl; [done|done|].
  split; [done|]. intros x Hx. by apply IH, H.
Qed.

Lemma always_call {X} (c : cmd X) I Q h :
  I h -> (forall x, R h X c x -> I (h ++ ev c x) /\ Q (h ++ ev c x) x) ->
  always_in R (call c) I Q h.
Proof. intros Hh H. split; [done|]. intros x Hx. by apply H. Qed.

(** A call that leaves no event. *)
Lemma always_quiet {X} (c : cmd X) (I : list event -> Prop) (Q : list event -> X -> Prop) h :
  (forall x, ev c x = []) -> I h -> (forall x, R h X c x -> Q h x) -> always_in R (call c) I Q h.
Proof.
  intros Hev Hh HQ. apply always_call; [done|]. intros x Hx. rw Hev app_nil_r. auto.
Qed.

Lemma always_ret {A} (a : A) (I : list event -> Prop) (Q : list event -> A -> Prop) h :
  I h -> Q h a -> always_in R (Ret a) I Q h.
Proof. done. Qed.
End always.

(** [uses P p]: every call [p] can make satisfies [P]. *)
Fixpoint uses (P : forall X, cmd X -> Prop) {A} (p : prog A) : Prop :=
  match p with
  | Ret _ => True
  | Ub => True
  | Io c k => P _ c /\ forall x, uses P (k x)
  end.

Lemma uses_bind P {A B} (p : prog A) (f : A -> prog B) :
  uses P p -> (forall a, uses P (f a)) -> uses P (p ≫= f).
Proof.
  induction p as [a| |X c k IH]; cbn; [by intros _ H; apply H|done|].
  intros [Hc Hk] Hf. split; [done|]. intros x. by apply IH.
Qed.

(** A program that only makes calls of [P] adds only events that those leave. *)
Lemma always_uses (R : env) (P : forall X, cmd X -> Prop) (E : event -> Prop) {A} (p : prog A)
    (I : list event -> Prop) (Q : list event -> A -> Prop) h :
  (forall X (c : cmd X) x, P X c -> Forall E (ev c x)) -> uses P p -> always_in R p I Q h ->
  always_in R p (fun h' => I h' /\ exists es, h' = h ++ es /\ Forall E es)
    (fun h' a => Q h' a /\ exists es, h' = h ++ es /\ Forall E es) h.
Proof.
  intros HE.
  assert (Hgen : forall es, Forall E es -> uses P p -> always_in R p I Q (h ++ es) ->
    always_in R p (fun h' => I h' /\ exists es, h' = h ++ es /\ Forall E es)
      (fun h' a => Q h' a /\ exists es, h' = h ++ es /\ Forall E es) (h ++ es)).
  { induction p as [a| |X c k IH]; intros es Hes Hu [Hh H]; (split; [by eauto|]); [by eauto|done|].
    destruct Hu as [Hc Hk]. intros x Hx. rw -app_assoc. apply IH; [|done|].
    - apply Forall_app. split; [done|by apply HE].
    - rw app_assoc. by apply H. }
  specialize (Hgen [] (Forall_nil_2 _)). by rw app_nil_r in Hgen.
Qed.

#[global] Arguments always_in : simpl never.

(** What holds in any environment holds in one that also makes every event
    satisfy [E], and after any earlier i/o [pre]. *)
Lemma always_embed {A} (E : event -> Prop) (p : prog A) (I : list event -> Prop)
    (Q : list event -> A -> Prop) (R : env) pre h :
  (forall h X (c : cmd X) x, R h X c x -> resp_ok c x /\ Forall E (ev c x)) ->
  always p I Q h ->
  always_in R p (fun h' => exists es, h' = (pre ++ h) ++ es /\ I (h ++ es) /\ Forall E es)
    (fun h' a => exists es, h' = (pre ++ h) ++ es /\ Q (h ++ es) a /\ Forall E es) (pre ++ h).
Proof.
  intros HR.
  assert (Hgen : forall es, Forall E es -> always p I Q (h ++ es) ->
    always_in R p (fun h' => exists es, h' = (pre ++ h) ++ es /\ I (h ++ es) /\ Forall E es)
      (fun h' a => exists es, h' = (pre ++ h) ++ es /\ Q (h ++ es) a /\ Forall E es) ((pre ++ h) ++ es)).
  { induction p as [a| |X c k IH]; intros es Hes [Hh H]; (split; [by exists es|]); [by exists es|done|].
    intros x [Hx Hev]%HR. rw -(app_assoc _ es). apply IH; [by apply Forall_app|]. rw app_assoc. by apply H. }
  specialize (Hgen [] (Forall_nil_2 _)). rw !app_nil_r in Hgen. exact Hgen.
Qed.

(** ** Running a program against a world *)

Definition handler (W : Type) := forall X, cmd X -> W -> X * W.

Fixpoint run {A W} (hd : handler W) (p : prog A) (w : W) : option A * W :=
  match p with
  | Ret a => (Some a, w)
  | Ub => (None, w)
  | Io c k => let '(x, w') := hd _ c w in run hd (k x) w'
  end.

(** Whatever [always] promises holds of every run whose responses are those the
    callees document. *)
Lemma always_run {A W} (hd : handler W) (p : prog A) I Q h w :
  (forall X (c : cmd X) w, resp_ok c (fst (hd X c w))) ->
  always p I Q h ->
  exists a w' h', run hd p w = (Some a, w') /\ Q h' a.
Proof.
  intros Hhd; revert h w. induction p as [a| |X c k IH]; intros h w [Hh H]; simpl.
  - eauto.
  - done.
  - destruct (hd X c w) as [x w'] eqn:E. apply (IH x _ w' (H x ltac:(specialize (Hhd X c w); by rw E in Hhd))).
Qed.

(** A world of devices whose i/o results are scripted: each read or write takes
    the next return code of the script (success when it is used up), a failed
    write leaves the device alone, the allocator fails when the script of
    allocations says so. *)
Record world := World {
  w_dev : Z -> mem;
  w_clock : Z;
  w_io : list Z;
  w_alloc : list Z;
  w_rand : Z;
  w_hosts : Z -> host_status
}.

Definition script (l : list Z) : Z * list Z :=
  match l with [] => (0, []) | rv :: l => (rv, l) end.

(** A daemon that takes everything and answers with zeros. *)
Definition sock_answer (c : sock_call) : Z * list Z :=
  match c with
  | SSocket => (3, [])
  | SSend _ data => (Z.of_nat (length data), [])
  | SRecv _ len _ => (Z.max 0 len, zeros (Z.to_nat len))
  | _ => (0, [])
  end.

Definition world_handler : handler world := fun X c =>
  match c in cmd X return world -> X * world with
  | CMemalign _ => fun w => let '(rv, l) := script w.(w_alloc) in
      ((rv, fun _ => 0xA5), World w.(w_dev) w.(w_clock) w.(w_io) l w.(w_rand) w.(w_hosts))
  | CMalloc _ => fun w => (true, w)
  | CStack n => fun w => (replicate n 0xA5, w)
  | CReadIobuf fd offset len _ => fun w => let '(rv, l) := script w.(w_io) in
      ((rv, fun i => w.(w_dev) fd (offset + i)),
       World w.(w_dev) w.(w_clock) l w.(w_alloc) w.(w_rand) w.(w_hosts))
  | CWriteIobuf fd offset len _ iobuf => fun w => let '(rv, l) := script w.(w_io) in
      (rv, World (if rv =? 0
                  then fun fd' => if fd' =? fd then mem_write (w.(w_dev) fd) offset len iobuf
                                  else w.(w_dev) fd'
                  else w.(w_dev)) w.(w_clock) l w.(w_alloc) w.(w_rand) w.(w_hosts))
  | CReadNull _ _ _ _ => fun w => (-14, w)
  | CMonotime => fun w => (w.(w_clock), w)
  | CSleep s => fun w =>
      (tt, World w.(w_dev) (w.(w_clock) + s) w.(w_io) w.(w_alloc) w.(w_rand) w.(w_hosts))
  | CUsleep _ => fun w => (tt, w)
  | CGetRand _ _ => fun w => (w.(w_rand), w)
  | CLockspaceDisk _ => fun w => ((0, SyncDisk [] 0 512 0, 512), w)
  | COpenDisk _ => fun w => ((0, 0), w)
  | CCloseDisk _ => fun w => (tt, w)
  | CHostInfo _ host_id => fun w => ((0, w.(w_hosts) host_id), w)
  | CReapIobuf fd offset len _ => fun w => ((SANLK_AIO_TIMEOUT, w.(w_dev) fd), w)
  | CExternalRemove => fun w => (false, w)
  | CExternalShutdown => fun w => (false, w)
  | CThreadStop => fun w => (false, w)
  | CCreateBitmap => fun w => ((zeros 256, (0, 0, 0)), w)
  | CWatchdog _ => fun w => (0, w)
  | CWdmdStatus _ => fun w => ((0, 60), w)
  | CSpace _ => fun w => (tt, w)
  | CSys _ => fun w => ((0, 0), w)
  | COpen path => fun w => (nth 0 path 0, w)
  | CDiskProperties _ => fun w => ((0, 512), w)
  | CLockspaceInfo _ => fun w => ((0, 0), w)
  | CHelperWrite _ => fun w => (512, w)
  | CSendEvents _ _ _ _ => fun w => (tt, w)
  | CBeginRindexOp _ _ => fun w => ((0, (10, 512, 2, 9)), w)
  | CClearRindexOp _ => fun w => (tt, w)
  | CSock c => fun w => (sock_answer c, w)
  end.

(** An environment without state in which every call succeeds, on devices of
    zeros. *)
Definition calm : handler unit := fun X c w =>
  (match c in cmd X return X with
   | CMemalign _ => (0, mem_zero)
   | CMalloc _ => true
   | CStack n => zeros n
   | CReadIobuf _ _ _ _ => (0, mem_zero)
   | CReadNull _ _ _ _ => -14
   | CWriteIobuf _ _ _ _ _ => 0
   | CMonotime => 100
   | CSleep _ => tt
   | CUsleep _ => tt
   | CGetRand _ _ => 0
   | CLockspaceDisk _ => (0, SyncDisk [] 0 512 0, 512)
   | COpenDisk _ => (0, 0)
   | CCloseDisk _ => tt
   | CHostInfo _ _ => (0, HostStatus 0 0 0 0 0 0 0 0 0 0 [])
   | CReapIobuf _ _ _ _ => (0, mem_zero)
   | CExternalRemove => false
   | CExternalShutdown => false
   | CThreadStop => true
   | CCreateBitmap => (zeros 256, (0, 0, 0))
   | CWatchdog _ => 0
   | CWdmdStatus _ => (0, 60)
   | CSpace _ => tt
   | CSys _ => (0, 0)
   | COpen _ => 0
   | CDiskProperties _ => (0, 512)
   | CLockspaceInfo _ => (0, 0)
   | CHelperWrite _ => 512
   | CSendEvents _ _ _ _ => tt
   | CBeginRindexOp _ _ => (0, (10, 512, 2, 9))
   | CClearRindexOp _ => tt
   | CSock c => sock_answer c
   end, w).

Lemma calm_ok X (c : cmd X) w : resp_ok c (fst (calm X c w)).
Proof.
  destruct c; cbn; try done; try (split; [auto; lia|intros; by vm_compute]).
  - split; [by rw length_replicate|apply zeros_ok].
  - split; [done|]. split; [apply (zeros_ok 256)|by vm_compute].
  - destruct c as [| | |fd data|fd len dw|]; cbn; [done..| | |done].
    + split; [lia|]. intros E. by destruct data.
    + split; [|apply zeros_ok]. intros _. unfold zeros. rw length_replicate. lia.
Qed.

(** ** Lemmas on sector i/o *)

Lemma majority_disks_spec num_disks num :
  0 <= num_disks -> majority_disks num_disks num = (num_disks <? 2 * num).
Proof.
  intros H. unfold majority_disks, nz.
  rw Z.quot_div_nonneg ?Z.rem_mod_nonneg; [lia..|].
  pose proof (Z.div_mod num_disks 2 ltac:(lia)). pose proof (Z.mod_pos_bound num_disks 2 ltac:(lia)).
  apply Bool.eq_iff_eq_true. rw Z.ltb_lt. cases; zbool; rw ?Z.leb_le; lia.
Qed.

Lemma length_mem_read m off n : length (mem_read m off n) = n.
Proof. unfold mem_read. by rw length_fmap length_seq. Qed.

Lemma mem_read_ok m off n : (forall i, byte_ok (m i)) -> bytes_ok (mem_read m off n).
Proof. intros H. apply Forall_fmap, Forall_true. intros i. apply H. Qed.

Lemma mem_read_ext m1 m2 o1 o2 n :
  (forall i, 0 <= i < Z.of_nat n -> m1 (o1 + i) = m2 (o2 + i)) ->
  mem_read m1 o1 n = mem_read m2 o2 n.
Proof.
  intros H. unfold mem_read. apply list_fmap_ext. intros j i Hi%lookup_seq.
  apply H. lia.
Qed.

Lemma mem_read_of bs : mem_read (mem_of bs) 0 (length bs) = bs.
Proof.
  apply list_eq; intros i. unfold mem_read. rw list_lookup_fmap.
  destruct (decide (i < length bs)%nat) as [Hi|Hi].
  - rw lookup_seq_lt //=. unfold mem_of.
    destruct (lookup_lt_is_Some_2 bs i Hi) as [b Hb]. rw Hb.
    assert ((0 + Z.of_nat i <? 0) = false) as -> by (apply Z.ltb_ge; lia).
    replace (Z.to_nat (0 + Z.of_nat i)) with i by lia.
    f_equal. by apply nth_lookup_Some.
  - rw lookup_seq_ge; [lia|]. by rw lookup_ge_None_2; [lia|].
Qed.

(** Reading back what a write put there, and what it left alone. *)
Lemma mem_read_write m off len b n o :
  off <= o -> o + Z.of_nat n <= off + len ->
  mem_read (mem_write m off len b) o n = mem_read b (o - off) n.
Proof.
  intros H1 H2. apply mem_read_ext. intros i Hi. unfold mem_write.
  assert ((off <=? o + i) = true) as -> by (apply Z.leb_le; lia).
  assert ((o + i <? off + len) = true) as -> by (apply Z.ltb_lt; lia).
  simpl. f_equal. lia.
Qed.

Lemma mem_read_write_disjoint m off len b n o :
  o + Z.of_nat n <= off \/ off + len <= o ->
  mem_read (mem_write m off len b) o n = mem_read m o n.
Proof.
  intros H. apply mem_read_ext. intros i Hi. unfold mem_write.
  destruct (off <=? o + i) eqn:E1; [|done]. destruct (o + i <? off + len) eqn:E2; [|done].
  zbool. lia.
Qed.

Lemma mem_read_take m off n k : (k <= n)%nat -> take k (mem_read m off n) = mem_read m off k.
Proof.
  intros H. unfold mem_read. rw -fmap_take. f_equal.
  replace n with (k + (n - k))%nat by lia. rw seq_app. apply take_app_length'.
  by rw length_seq.
Qed.

Lemma mem_of_ok bs : bytes_ok bs -> forall i, byte_ok (mem_of bs i).
Proof.
  intros H i. unfold mem_of. destruct (i <? 0); [by vm_compute|].
  rw nth_lookup. destruct (bs !! Z.to_nat i) eqn:E; [|by vm_compute].
  exact (Forall_lookup_1 _ _ _ _ H E).
Qed.

Lemma always_buf_get {R : env} len b off n (I : list event -> Prop) Q h :
  0 <= off -> 0 <= n -> off + n <= len -> I h ->
  Q h (mem_read b off (Z.to_nat n)) -> always_in R (buf_get len b off n) I Q h.
Proof.
  intros H1 H2 H3 Hh HQ. unfold buf_get.
  assert ((0 <=? off) && (0 <=? n) && (off + n <=? len) = true) as ->; [|done].
  rw !andb_true_iff !Z.leb_le. lia.
Qed.

Lemma always_smul {R : env} a b (I : list event -> Prop) Q h :
  - 2 ^ 31 <= a * b < 2 ^ 31 -> I h -> Q h (a * b) -> always_in R (smul a b) I Q h.
Proof.
  intros [H1 H2] Hh HQ. unfold smul.
  apply Z.leb_le in H1 as ->. by apply Z.ltb_lt in H2 as ->.
Qed.

Lemma buf_put_ok b off src :
  (forall i, byte_ok (b i)) -> bytes_ok src -> forall i, byte_ok (buf_put b off src i).
Proof.
  intros Hb Hs i. unfold buf_put, mem_write. destruct (_ && _); [by apply mem_of_ok|done].
Qed.

Lemma mem_read_put b off src :
  mem_read (buf_put b off src) off (length src) = src.
Proof. unfold buf_put. rw mem_read_write; [lia..|]. rw Z.sub_diag. apply mem_read_of. Qed.

Lemma mem_read_put_other b off src o n :
  o + Z.of_nat n <= off \/ off + Z.of_nat (length src) <= o ->
  mem_read (buf_put b off src) o n = mem_read b o n.
Proof. intros H. by apply mem_read_write_disjoint. Qed.

Lemma good_sector_size ss : ss = 512 \/ ss = 4096 -> bad_sector_size ss = false.
Proof. by intros [-> | ->]. Qed.

(** ** Sector i/o, whatever the results *)

Lemma always_write_sector ss disk nr data ioto I Q h :
  ss = 512 \/ ss = 4096 ->
  Z.of_nat (length data) <= ss -> bytes_ok data ->
  0 <= disk.(sd_offset) -> 0 <= nr -> disk.(sd_offset) + nr * ss < 2 ^ 64 ->
  I h -> (forall rv, rv < 0 -> Q h rv) ->
  (forall rv, rv <= 0 ->
     I (h ++ [EvWrite disk.(sd_fd) (disk.(sd_offset) + nr * ss) ss (mem_of data) rv]) /\
     Q (h ++ [EvWrite disk.(sd_fd) (disk.(sd_offset) + nr * ss) ss (mem_of data) rv]) rv) ->
  always (write_sector disk ss nr data ioto) I Q h.
Proof.
  intros Hss Hlen Hb Ho Hnr Hoff Hh Hfail Hdone. unfold write_sector.
  rw good_sector_size //.
  assert ((ss <? Z.of_nat (length data)) = false) as E by (apply Z.ltb_ge; lia). rw E.
  unfold _write_sectors. rw E.
  apply always_bind, always_quiet; [done..|]. intros [e b] [He _]. simpl in *.
  destruct (nz e); [apply always_ret; [done|]; apply Hfail; by vm_compute|].
  assert (u64 (disk.(sd_offset) + nr * ss) = disk.(sd_offset) + nr * ss) as ->.
  { apply wrapu_small. split; [nia|done]. }
  apply always_call; [done|]. intros rv Hrv. by apply Hdone.
Qed.

(** A sector read leaves the read in the history, unless it fails before it;
    any sector number, whose offset wraps around, and any sector size. *)
Lemma always_read_sector ss disk nr data ioto (I : list event -> Prop) Q h :
  Z.of_nat (length data) <= 512 -> I h -> (forall rv, rv < 0 -> Q h (rv, data)) ->
  (forall rv m, ss = 512 \/ ss = 4096 -> rv <= 0 -> (forall i, byte_ok (m i)) ->
     let h' := h ++ [EvRead disk.(sd_fd) (u64 (disk.(sd_offset) + nr * ss)) ss rv m] in
     I h' /\ (rv < 0 -> Q h' (rv, data)) /\ (rv = 0 -> Q h' (0, mem_read m 0 (length data)))) ->
  always (read_sectors disk ss nr 1 data ioto) I Q h.
Proof.
  intros Hlen Hh Hfail Hdone. unfold read_sectors. destruct (bad_sector_size ss) eqn:Ess.
  { apply always_ret; [done|]. apply Hfail. by vm_compute. }
  assert (Hss : ss = 512 \/ ss = 4096) by (unfold bad_sector_size in Ess; zbool; lia).
  apply always_bind, always_quiet; [done..|]. intros [e b] [He _]. cbn [fst snd] in *.
  destruct (nz e); [apply always_ret; [done|]; apply Hfail; by vm_compute|].
  assert (i32 (u32 (1 * ss)) = ss) as -> by (by destruct Hss as [-> | ->]).
  apply always_bind, always_call; [done|]. intros [rv m] [Hrv Hm]. cbn [fst snd ev] in *.
  destruct (Hdone rv m Hss Hrv Hm) as (H1 & H2 & H3). split; [done|].
  destruct (Z.eqb_spec rv 0) as [-> |Hne]; [|apply always_ret; [done|]; apply H2; lia].
  apply always_bind, always_buf_get; [lia|lia|lia|done|]. rw Nat2Z.id.
  apply always_ret; [done|]. by apply H3.
Qed.

Lemma always_read_sectors ss disk nr data ioto (I : list event -> Prop) Q h :
  ss = 512 \/ ss = 4096 ->
  Z.of_nat (length data) <= 512 -> 0 <= disk.(sd_offset) -> 0 <= nr ->
  disk.(sd_offset) + nr * ss < 2 ^ 64 ->
  I h -> (forall rv, rv < 0 -> Q h (rv, data)) ->
  (forall rv m, rv <= 0 -> (forall i, byte_ok (m i)) ->
     let h' := h ++ [EvRead disk.(sd_fd) (disk.(sd_offset) + nr * ss) ss rv m] in
     I h' /\ (rv < 0 -> Q h' (rv, data)) /\ (rv = 0 -> Q h' (0, mem_read m 0 (length data)))) ->
  always (read_sectors disk ss nr 1 data ioto) I Q h.
Proof.
  intros Hss Hlen Ho Hnr Hoff Hh Hfail Hdone. apply always_read_sector; [done..|].
  intros rv m _. unfold u64. rw wrapu_small; [split; [nia|done]|]. apply Hdone.
Qed.

(** ** Runs without errors *)

Lemma run_bind {A B W} (hd : handler W) (p : prog A) (f : A -> prog B) w :
  run hd (p ≫= f) w =
    match run hd p w with
    | (Some a, w') => run hd (f a) w'
    | (None, w') => (None, w')
    end.
Proof.
  revert w. induction p as [a| |X c k IH]; intros w; [done|done|].
  cbn. destruct (hd X c w) as [x w']. apply IH.
Qed.

(** No read, write or allocation is scripted to fail. *)
Definition reliable (w : world) : Prop := w.(w_io) = [] /\ w.(w_alloc) = [].

(** The world after a write. *)
Definition world_put (w : world) (fd off len : Z) (m : mem) : world :=
  World (fun fd' => if fd' =? fd then mem_write (w.(w_dev) fd) off len m else w.(w_dev) fd')
    w.(w_clock) w.(w_io) w.(w_alloc) w.(w_rand) w.(w_hosts).

Lemma reliable_put w fd off len m : reliable w -> reliable (world_put w fd off len m).
Proof. done. Qed.

Lemma run_memalign w len :
  reliable w -> run world_handler (call (CMemalign len)) w = (Some (0, fun _ => 0xA5), w).
Proof. intros [_ E]. cbn. rw E. cbn. rw -E. by destruct w. Qed.

Lemma run_write_iobuf w fd off m len ioto :
  reliable w -> run world_handler (write_iobuf fd off m len ioto) w = (Some 0, world_put w fd off len m).
Proof. intros [E _]. cbn. rw E. cbn. unfold world_put. by rw E. Qed.

Lemma run_read_iobuf w fd off len ioto :
  reliable w ->
  run world_handler (read_iobuf fd off len ioto) w = (Some (0, fun i => w.(w_dev) fd (off + i)), w).
Proof. intros [E _]. cbn. rw E. cbn. rw -E. by destruct w. Qed.

Lemma run_write_sector w disk ss nr data ioto :
  reliable w -> ss = 512 \/ ss = 4096 -> Z.of_nat (length data) <= ss ->
  is_u 64 (disk.(sd_offset) + nr * ss) ->
  run world_handler (write_sector disk ss nr data ioto) w =
    (Some 0, world_put w disk.(sd_fd) (disk.(sd_offset) + nr * ss) ss (mem_of data)).
Proof.
  intros Hw Hss Hlen Hoff. unfold write_sector, _write_sectors. rw good_sector_size //.
  assert ((ss <? Z.of_nat (length data)) = false) as -> by (apply Z.ltb_ge; lia).
  rw run_bind run_memalign //. cbn [nz fst Z.eqb negb]. rw [u64 _]wrapu_small //. by apply run_write_iobuf.
Qed.

Lemma run_read_sectors w disk ss nr data ioto :
  reliable w -> ss = 512 \/ ss = 4096 -> Z.of_nat (length data) <= ss ->
  is_u 64 (disk.(sd_offset) + nr * ss) ->
  run world_handler (read_sectors disk ss nr 1 data ioto) w =
    (Some (0, mem_read (w.(w_dev) disk.(sd_fd)) (disk.(sd_offset) + nr * ss) (length data)), w).
Proof.
  intros Hw Hss Hlen Hoff. unfold read_sectors. rw good_sector_size //.
  rw run_bind run_memalign //. cbn [nz fst Z.eqb negb]. rw [u64 _]wrapu_small //.
  rw run_bind run_read_iobuf //. cbn [fst snd]. rw Z.eqb_refl run_bind. unfold buf_get.
  assert (i32 (u32 (1 * ss)) = ss) as -> by (by destruct Hss as [-> | ->]).
  assert ((0 <=? 0) && (0 <=? Z.of_nat (length data)) && (0 + Z.of_nat (length data) <=? ss) = true) as ->.
  { rw !andb_true_iff !Z.leb_le. lia. }
  cbn [run]. by rw Nat2Z.id.
Qed.
