(* ===== verification/DeltaLease.v ===== *)
(** * Delta leases ([src/src/delta_lease.c])

    The host-id lease of each host: one leader record per sector of the
    lockspace area, acquired with the delays of the delta algorithm, renewed by
    rewriting the timestamp, released by freeing it. *)

From S2P Require Import Prelude OnDisk SizeFlags Timeouts Io.

(** ** Constants *)

Definition SANLK_ERROR : Z := -201.
Definition SANLK_LEADER_READ : Z := -220.
Definition SANLK_LEADER_WRITE : Z := -221.
Definition SANLK_LEADER_DIFF : Z := -222.
Definition SANLK_LEADER_MAGIC : Z := -223.
Definition SANLK_LEADER_VERSION : Z := -224.
Definition SANLK_LEADER_LOCKSPACE : Z := -226.
Definition SANLK_LEADER_RESOURCE : Z := -227.
Definition SANLK_LEADER_NUMHOSTS : Z := -228.
Definition SANLK_LEADER_CHECKSUM : Z := -229.
Definition SANLK_RENEW_OWNER : Z := -260.
Definition SANLK_RENEW_DIFF : Z := -261.
Definition SANLK_HOSTID_BUSY : Z := -262.

Definition DELTA_DISK_MAGIC : Z := 0x12212010.
Definition DELTA_DISK_VERSION_MAJOR : Z := 0x00030000.
Definition DELTA_DISK_VERSION_MINOR : Z := 0x00000004.
Definition LEASE_FREE : Z := 0.
Definition LEADER_RECORD_MAX : Z := 256.
Definition DEFAULT_MAX_HOSTS : Z := 2000.

Definition leader_zero : leader_record :=
  LeaderRecord 0 0 0 0 0 0 0 0 0 (zeros 48) (zeros 48) 0 0 0 0 0 0 0 0.

(** ** State *)

(** The fields of [struct space] the delta code reads. *)
Record space := Space {
  sp_sector_size : Z;
  sp_align_size : Z;
  sp_io_timeout : Z;
  sp_renewal_read_extend_sec : Z
}.

(** The fields of [struct task] a renewal keeps between calls: the io buffer
    ([None]: NULL) and whether a timed out read is pending. *)
Record dtask := Task {
  task_iobuf : option mem;
  task_timeout_aicb : bool
}.

(** [struct sanlk_lockspace] *)
Record sanlk_lockspace := Lockspace {
  ls_name : list Z;
  ls_host_id : Z;
  ls_flags : Z;
  ls_host_id_disk : sync_disk
}.

Record delta_extra := DeltaExtra { dx_field1 : Z; dx_field2 : Z; dx_field3 : Z }.

(** ** Reading *)

Definition verify_leader (space_name : list Z) (lr : leader_record) (checksum : Z) : Z :=
  if negb (lr.(lr_magic) =? DELTA_DISK_MAGIC) then SANLK_LEADER_MAGIC
  else if negb (Z.land lr.(lr_version) 0xFFFF0000 =? DELTA_DISK_VERSION_MAJOR) then SANLK_LEADER_VERSION
  else if negb (strncmp_eq NAME_ID_SIZE lr.(lr_space_name) space_name) then SANLK_LEADER_LOCKSPACE
  else if negb (lr.(lr_checksum) =? checksum) then SANLK_LEADER_CHECKSUM
  else SANLK_OK.

(** The align size of a leader record, from its flags or, when they have none,
    from its sector size. *)
Definition leader_align_size (lr : leader_record) : Z :=
  let a := leader_align_size_from_flag lr.(lr_flags) in
  if a =? 0 then sector_size_to_align_size_old lr.(lr_sector_size) else a.

(** Returns the code, the lockspace and [*io_timeout_ret] ([None]: not assigned). *)
Definition delta_read_lockspace (disk : sync_disk) (sector_size_hint host_id : Z)
    (ls : sanlk_lockspace) (io_timeout : Z) : prog (Z * sanlk_lockspace * option Z) :=
  r ← read_sectors disk sector_size_hint (u64 (host_id - 1)) 1 (zeros sizeof_leader_record) io_timeout;
  if fst r <? 0 then Ret (fst r, ls, None)
  else
    let checksum := leader_checksum (snd r) in
    let leader := leader_record_in (snd r) in
    let space_name := if nth 0 ls.(ls_name) 0 =? 0 then leader.(lr_space_name) else ls.(ls_name) in
    let error := verify_leader space_name leader checksum in
    if error =? SANLK_OK then
      let flags := sanlk_lsf_align_flags_clear (sanlk_lsf_sector_flags_clear ls.(ls_flags)) in
      let flags := Z.lor flags (sanlk_lsf_sector_size_to_flag leader.(lr_sector_size)) in
      let flags := Z.lor flags (sanlk_lsf_align_size_to_flag (leader_align_size leader)) in
      Ret (error, Lockspace (poke 0 leader.(lr_space_name) ls.(ls_name)) host_id flags
                        ls.(ls_host_id_disk),
           Some leader.(lr_io_timeout))
    else Ret (error, ls, None).

(** Returns the code and, on success, [*sector_size] and [*align_size]. *)
Definition delta_read_lockspace_sizes (disk : sync_disk) (io_timeout : Z)
    : prog (Z * option (Z * Z)) :=
  r ← read_sectors disk 4096 0 1 (zeros sizeof_leader_record) io_timeout;
  if fst r <? 0 then Ret (fst r, None)
  else
    let leader := leader_record_in (snd r) in
    if negb (leader.(lr_magic) =? DELTA_DISK_MAGIC) then Ret (SANLK_LEADER_MAGIC, None)
    else if negb (Z.land leader.(lr_version) 0xFFFF0000 =? DELTA_DISK_VERSION_MAJOR)
    then Ret (SANLK_LEADER_VERSION, None)
    else Ret (SANLK_OK, Some (i32 leader.(lr_sector_size), leader_align_size leader)).

(** [leader_ret] is what the destination held before the call. *)
Definition delta_lease_leader_read (sector_size io_timeout : Z) (disk : sync_disk)
    (space_name : list Z) (host_id : Z) (leader_ret : leader_record) : prog (Z * leader_record) :=
  if sector_size =? 0 then Ret (- EINVAL, leader_ret)
  else
    r ← read_sectors disk sector_size (u64 (host_id - 1)) 1 (zeros sizeof_leader_record) io_timeout;
    if fst r <? 0 then Ret (fst r, leader_zero)
    else
      let checksum := leader_checksum (snd r) in
      let leader := leader_record_in (snd r) in
      Ret (verify_leader space_name leader checksum, leader).

(** ** Writing *)

(** [leader_end] is not initialised and its checksum is never assigned. *)
Definition delta_lease_leader_clobber (io_timeout : Z) (disk : sync_disk) (host_id : Z)
    (leader : leader_record) : prog Z :=
  leader_end ← call (CStack sizeof_leader_record);
  rv ← write_sector disk leader.(lr_sector_size) (u64 (host_id - 1))
         (leader_record_out leader leader_end) io_timeout;
  if rv <? 0 then Ret rv else Ret SANLK_OK.

Definition lr_end0 : list Z := zeros sizeof_leader_record.

(** Write one delta leader, as acquire and release do: the return code of the
    write and the record with its checksum. *)
Definition write_delta_leader (sp : space) (disk : sync_disk) (host_id : Z) (leader : leader_record)
    : prog (Z * leader_record) :=
  rv ← write_sector disk sp.(sp_sector_size) (u64 (host_id - 1)) (leader_image leader lr_end0)
         sp.(sp_io_timeout);
  Ret (rv, lr_with_checksum (leader_sum leader lr_end0) leader).

(** The sleep loops: [false] when a removal or shutdown was requested. *)
Fixpoint delay_loop (n : nat) : prog bool :=
  match n with
  | O => Ret true
  | S n =>
      rem ← call CExternalRemove;
      shut ← (if rem : bool then Ret true else call CExternalShutdown);
      if shut : bool then Ret false
      else _ ← call (CSleep 1); delay_loop n
  end.

(** The record acquire writes over the one it read. *)
Definition acquired_leader (sp : space) (our_host_name : list Z) (host_id new_ts : Z)
    (leader : leader_record) : leader_record :=
  LeaderRecord leader.(lr_magic) leader.(lr_version) leader.(lr_flags) leader.(lr_sector_size)
    leader.(lr_num_hosts) leader.(lr_max_hosts) host_id
    (u64 (leader.(lr_owner_generation) + 1)) leader.(lr_lver) leader.(lr_space_name)
    (snprintf_s NAME_ID_SIZE our_host_name leader.(lr_resource_name)) new_ts leader.(lr_unused1) 0
    leader.(lr_unused2) (Z.land sp.(sp_io_timeout) 0x00FF) leader.(lr_write_id)
    leader.(lr_write_generation) leader.(lr_write_timestamp).

(** The wait before a host id of another host may be taken over. *)
Definition delta_acquire_delay (com : command_line) (other_io_timeout : Z) : Z :=
  let other_host_dead_seconds := calc_host_dead_seconds com other_io_timeout in
  let other_id_renewal_seconds := calc_id_renewal_seconds other_io_timeout in
  let delta_large_delay := i32 (other_id_renewal_seconds + 6 * other_io_timeout) in
  if other_host_dead_seconds <? delta_large_delay then delta_large_delay
  else other_host_dead_seconds.

(** From [write_new:] on. *)
Definition delta_write_new (sp : space) (disk : sync_disk) (space_name our_host_name : list Z)
    (host_id other_io_timeout : Z) (leader leader_ret : leader_record) : prog (Z * leader_record) :=
  new_ts ← call CMonotime;
  w ← write_delta_leader sp disk host_id (acquired_leader sp our_host_name host_id new_ts leader);
  if fst w <? 0 then Ret (fst w, leader_ret)
  else
    let leader1 := snd w in
    go ← delay_loop (Z.to_nat (2 * other_io_timeout));
    if negb go then Ret (SANLK_ERROR, leader_ret)
    else
      r ← delta_lease_leader_read sp.(sp_sector_size) sp.(sp_io_timeout) disk space_name host_id leader1;
      if fst r <? 0 then Ret (fst r, leader_ret)
      else if bool_decide (leader1 = snd r) then Ret (SANLK_OK, snd r)
      else Ret (SANLK_HOSTID_BUSY, leader_ret).

(** [leader0] stands for the indeterminate local [leader]. *)
Definition delta_lease_acquire (com : command_line) (sp : space) (disk : sync_disk)
    (space_name our_host_name : list Z) (host_id : Z) (leader0 leader_ret : leader_record)
    : prog (Z * leader_record) :=
  r ← delta_lease_leader_read sp.(sp_sector_size) sp.(sp_io_timeout) disk space_name host_id leader0;
  if fst r <? 0 then Ret (fst r, leader_ret)
  else
    let leader := snd r in
    let other_io_timeout :=
      if leader.(lr_io_timeout) =? 0 then sp.(sp_io_timeout) else leader.(lr_io_timeout) in
    let write_new l :=
      delta_write_new sp disk space_name our_host_name host_id other_io_timeout l leader_ret in
    if leader.(lr_timestamp) =? LEASE_FREE then write_new leader
    else if strncmp_eq NAME_ID_SIZE leader.(lr_resource_name) our_host_name then write_new leader
    else
      let leader1 := leader in
      go ← delay_loop (Z.to_nat (delta_acquire_delay com other_io_timeout));
      if negb go then Ret (SANLK_ERROR, leader_ret)
      else
        r ← delta_lease_leader_read sp.(sp_sector_size) sp.(sp_io_timeout) disk space_name host_id leader;
        if fst r <? 0 then Ret (fst r, leader_ret)
        else if bool_decide (leader1 = snd r) then write_new (snd r)
        else if (snd r).(lr_timestamp) =? LEASE_FREE then write_new (snd r)
        else Ret (SANLK_HOSTID_BUSY, leader_ret).

(** ** Renewal *)

(** The record a renewal writes: ours with a new timestamp, and the extra
    fields when there are some. *)
Definition renewed_leader (sp : space) (extra : option delta_extra) (new_ts : Z)
    (leader : leader_record) : leader_record :=
  let io := if leader.(lr_io_timeout) =? sp.(sp_io_timeout) then leader.(lr_io_timeout)
            else Z.land sp.(sp_io_timeout) 0x00FF in
  let '(wi, wg, wt) :=
    match extra with
    | Some x => (x.(dx_field1), x.(dx_field2), x.(dx_field3))
    | None => (leader.(lr_write_id), leader.(lr_write_generation), leader.(lr_write_timestamp))
    end in
  LeaderRecord leader.(lr_magic) leader.(lr_version) leader.(lr_flags) leader.(lr_sector_size)
    leader.(lr_num_hosts) leader.(lr_max_hosts) leader.(lr_owner_id) leader.(lr_owner_generation)
    leader.(lr_lver) leader.(lr_space_name) leader.(lr_resource_name) new_ts leader.(lr_unused1) 0
    leader.(lr_unused2) io wi wg wt.

(** The ownership checks on the record read back. *)
Definition renew_check (prev_result : Z) (leader leader_last : leader_record) : Z :=
  if negb (leader.(lr_owner_id) =? leader_last.(lr_owner_id)) ||
     negb (leader.(lr_owner_generation) =? leader_last.(lr_owner_generation)) ||
     negb (bool_decide (leader.(lr_resource_name) = leader_last.(lr_resource_name)))
  then SANLK_RENEW_OWNER
  else if (prev_result =? SANLK_OK) && negb (bool_decide (leader = leader_last))
  then SANLK_RENEW_DIFF
  else SANLK_OK.

(** What a renewal returns and leaves: its code, [*read_result], the new leader
    on success, and the task. *)
Record renewal := Renewal {
  rn_rv : Z;
  rn_read_result : Z;
  rn_leader : option leader_record;
  rn_task : dtask
}.

(** The part before the read: reaping or abandoning a previous timed out read.
    [Some buf] when the reaped read can be used. *)
Definition renew_reap (sp : space) (disk : sync_disk) (prev_result : Z) (task : dtask)
    : prog (option mem * dtask) :=
  p ← (if prev_result =? SANLK_AIO_TIMEOUT then
         let skip := Task None false in
         if negb task.(task_timeout_aicb) then Ret (None, skip)
         else match task.(task_iobuf) with
         | None => Ret (None, skip)
         | Some _ =>
             let msec := if sp.(sp_renewal_read_extend_sec) =? 0 then 500
                         else u32 (sp.(sp_renewal_read_extend_sec) * 1000) in
             r ← call (CReapIobuf disk.(sd_fd) disk.(sd_offset) sp.(sp_align_size) msec);
             if fst r =? 0 then Ret (Some (snd r), Task (Some (snd r)) false)
             else Ret (None, skip)
         end
       else Ret (None, task));
  match p with
  | (Some b, task) => Ret (Some b, task)
  | (None, task) =>
      if task.(task_timeout_aicb) then Ret (None, Task None false) else Ret (None, task)
  end.

(** The read of the whole lockspace area. An allocation failure is logged and
    the read is issued all the same, into the NULL buffer. *)
Definition renew_read (sp : space) (disk : sync_disk) (task : dtask) : prog (Z * dtask) :=
  task ← match task.(task_iobuf) with
         | Some _ => Ret task
         | None =>
             r ← call (CMemalign sp.(sp_align_size));
             if nz (fst r) then Ret task else Ret (Task (Some (snd r)) task.(task_timeout_aicb))
         end;
  match task.(task_iobuf) with
  | Some _ =>
      r ← read_iobuf disk.(sd_fd) disk.(sd_offset) sp.(sp_align_size) sp.(sp_io_timeout);
      Ret (fst r, Task (Some (snd r)) (fst r =? SANLK_AIO_TIMEOUT))
  | None =>
      rv ← call (CReadNull disk.(sd_fd) disk.(sd_offset) sp.(sp_align_size) sp.(sp_io_timeout));
      Ret (rv, Task None (rv =? SANLK_AIO_TIMEOUT))
  end.

(** From [read_done:] on. *)
Definition renew_write (com : command_line) (sp : space) (disk : sync_disk) (space_name bitmap : list Z)
    (extra : option delta_extra) (prev_result id_offset : Z) (leader_last : leader_record)
    (task : dtask) : prog renewal :=
  match task.(task_iobuf) with
  | None => Ub
  | Some iobuf =>
      leader_end ← buf_get sp.(sp_align_size) iobuf id_offset (Z.of_nat sizeof_leader_record);
      let checksum := leader_checksum leader_end in
      let leader := leader_record_in leader_end in
      let rv := verify_leader space_name leader checksum in
      if rv <? 0 then Ret (Renewal rv SANLK_OK None task)
      else
        let rv := renew_check prev_result leader leader_last in
        if rv <? 0 then Ret (Renewal rv SANLK_OK None task)
        else
          new_ts ← call CMonotime;
          let leader := renewed_leader sp extra new_ts leader in
          r ← call (CMemalign sp.(sp_sector_size));
          if nz (fst r) then Ret (Renewal (- ENOMEM) SANLK_OK None task)
          else if sp.(sp_sector_size) <? LEADER_RECORD_MAX + Z.of_nat (length bitmap) then Ub
          else
            let wbuf := mem_write (mem_of (leader_image leader lr_end0)) LEADER_RECORD_MAX
                          (Z.of_nat (length bitmap)) (mem_of bitmap) in
            rv ← write_iobuf disk.(sd_fd) (u64 (disk.(sd_offset) + id_offset)) wbuf
                   sp.(sp_sector_size) (calc_host_dead_seconds com sp.(sp_io_timeout));
            _ ← call CMonotime;
            if rv <? 0 then Ret (Renewal rv SANLK_OK None task)
            else Ret (Renewal SANLK_OK SANLK_OK
                        (Some (lr_with_checksum (leader_sum leader lr_end0) leader)) task)
  end.

Definition delta_lease_renew (com : command_line) (sp : space) (disk : sync_disk)
    (space_name bitmap : list Z) (extra : option delta_extra) (prev_result : Z)
    (leader_last : option leader_record) (read_result : Z) (task : dtask)
    : prog renewal :=
  match leader_last with
  | None => Ret (Renewal (- EINVAL) read_result None task)
  | Some leader_last =>
      let host_id := leader_last.(lr_owner_id) in
      let id_offset := u64 ((host_id - 1) * sp.(sp_sector_size)) in
      if u64 sp.(sp_align_size) <? id_offset then Ret (Renewal (- EINVAL) SANLK_ERROR None task)
      else
        p ← renew_reap sp disk prev_result task;
        match p with
        | (Some _, task) =>
            renew_write com sp disk space_name bitmap extra prev_result id_offset leader_last task
        | (None, task) =>
            r ← renew_read sp disk task;
            if nz (fst r) then Ret (Renewal (fst r) SANLK_ERROR None (snd r))
            else renew_write com sp disk space_name bitmap extra prev_result id_offset leader_last (snd r)
        end
  end.

(** ** Release *)

Definition freed_leader (leader : leader_record) : leader_record :=
  LeaderRecord leader.(lr_magic) leader.(lr_version) leader.(lr_flags) leader.(lr_sector_size)
    leader.(lr_num_hosts) leader.(lr_max_hosts) leader.(lr_owner_id) leader.(lr_owner_generation)
    leader.(lr_lver) leader.(lr_space_name) leader.(lr_resource_name) LEASE_FREE leader.(lr_unused1) 0
    leader.(lr_unused2) leader.(lr_io_timeout) leader.(lr_write_id)
    leader.(lr_write_generation) leader.(lr_write_timestamp).

Definition delta_lease_release (sp : space) (disk : sync_disk) (leader_last : option leader_record)
    (leader_ret : leader_record) : prog (Z * leader_record) :=
  match leader_last with
  | None => Ret (- EINVAL, leader_ret)
  | Some last =>
      w ← write_delta_leader sp disk last.(lr_owner_id) (freed_leader last);
      if fst w <? 0 then Ret (fst w, leader_ret) else Ret (SANLK_OK, snd w)
  end.

(** ** Initialisation *)

(** The record of every host, [magic] being 0 for the first one. *)
Definition init_leader (magic io_timeout sector_size align_size : Z) (name : list Z) : leader_record :=
  LeaderRecord magic (Z.lor DELTA_DISK_VERSION_MAJOR DELTA_DISK_VERSION_MINOR)
    (leader_align_flag_from_size align_size) (u32 sector_size) 0 1 0 0 0
    (strncpy NAME_ID_SIZE name) (zeros 48) LEASE_FREE 0 0 0 (u16 io_timeout) 0 0 0.

(** The loop over the hosts: [n] records from index [i] on. *)
Fixpoint init_records (io_timeout sector_size align_size : Z) (name : list Z) (n : nat) (i : Z)
    (iobuf : mem) : prog mem :=
  match n with
  | O => Ret iobuf
  | S n =>
      let leader := init_leader (if i =? 0 then 0 else DELTA_DISK_MAGIC)
                      io_timeout sector_size align_size name in
      if align_size <? i * sector_size + Z.of_nat sizeof_leader_record then Ub
      else init_records io_timeout sector_size align_size name n (i + 1)
             (buf_put iobuf (i * sector_size) (leader_image leader lr_end0))
  end.

(** The sizes of a new area: those of the flags or, when they give none, those
    of the device's sector size. *)
Definition format_sizes (disk : sync_disk) (sz : sizes) : Z * Z * Z :=
  if sz.(sz_sector) =? 0
  then (i32 disk.(sd_sector_size), sector_size_to_align_size_old (i32 disk.(sd_sector_size)),
        DEFAULT_MAX_HOSTS)
  else (sz.(sz_sector), sz.(sz_align), sz.(sz_max_hosts)).

(** The two writes: the area with an invalid first record, then the first
    sector with the valid one. *)
Definition delta_lease_init (com : command_line) (ls : sanlk_lockspace) (io_timeout : Z)
    (disk : sync_disk) : prog Z :=
  let io_timeout := if io_timeout =? 0 then com.(com_io_timeout) else io_timeout in
  let '(rv, sz) := sizes_from_flags ls.(ls_flags) "LSF" in
  if nz rv then Ret rv
  else
    let '(sector_size, align_size, max_hosts) := format_sizes disk sz in
    r ← call (CMemalign align_size);
    if nz (fst r) then Ret (fst r)
    else
      iobuf ← init_records io_timeout sector_size align_size ls.(ls_name) (Z.to_nat max_hosts) 0 mem_zero;
      let write_io_timeout :=
        if nz com.(com_write_init_io_timeout) then com.(com_write_init_io_timeout) else io_timeout in
      rv ← write_iobuf disk.(sd_fd) disk.(sd_offset) iobuf align_size write_io_timeout;
      if rv <? 0 then Ret rv
      else
        let first := init_leader DELTA_DISK_MAGIC io_timeout sector_size align_size ls.(ls_name) in
        write_iobuf disk.(sd_fd) disk.(sd_offset) (buf_put iobuf 0 (leader_image first lr_end0))
          sector_size write_io_timeout.

Lemma verify_leader_code n l c : verify_leader n l c = SANLK_OK \/ verify_leader n l c < 0.
Proof. unfold verify_leader. cases; (by left) || (by right). Qed.
