(* ===== verification/DeltaSafety.v ===== *)
(** * What the delta lease operations do to the disk

    For every sequence of i/o results: when [delta_lease_acquire]
    ([src/src/delta_lease.c]) takes a host id over and when it reports
    success, what [delta_lease_renew] requires of the record it overwrites, and
    what [delta_lease_init] leaves if it is interrupted. *)

From S2P Require Import Prelude OnDisk SizeFlags Timeouts Io DeltaLease.

#[local] Opaque Crc32c.crc32c.

(** ** Events *)

(** [e] is a successful read of the sector at [off] of the descriptor [fd] that
    shows the record [l], which verifies. *)
Definition saw (fd off len : Z) (space_name : list Z) (l : leader_record) (e : event) : Prop :=
  exists m, e = EvRead fd off len 0 m /\ (forall i, byte_ok (m i)) /\
    l = leader_record_in (mem_read m 0 sizeof_leader_record) /\
    verify_leader space_name l (leader_checksum (mem_read m 0 sizeof_leader_record)) = SANLK_OK.

Lemma saw_not_write fd off len n l e : saw fd off len n l e -> not_write e.
Proof. by intros (? & -> & _). Qed.

Lemma saw_ok fd off len n l e : saw fd off len n l e -> leader_record_ok l.
Proof.
  intros (m & -> & Hm & -> & _).
  apply leader_record_in_ok; [by rw length_mem_read|by apply mem_read_ok].
Qed.

(** The result is an error, so nothing is claimed of a success. *)
Ltac not_ok := cbn [fst snd]; unfold SANLK_OK; let H := fresh in intros H; exfalso; lia.

(** ** Reading and sleeping *)

Section delta.
Context (com : command_line) (sp : space) (disk : sync_disk) (name our : list Z) (host_id : Z).

Record delta_geometry : Prop := {
  dg_ss : sp.(sp_sector_size) = 512 \/ sp.(sp_sector_size) = 4096;
  dg_host : 1 <= host_id < 2 ^ 32;
  dg_off : 0 <= disk.(sd_offset) < 2 ^ 63;
  dg_our : bytes_ok our;
  dg_io : 0 <= sp.(sp_io_timeout)
}.

Context (Hgeo : delta_geometry).

Abbreviation ss := sp.(sp_sector_size).
Abbreviation slot := (disk.(sd_offset) + (host_id - 1) * sp.(sp_sector_size)).

(** A read of the sector of [host_id]. *)
Abbreviation saw_slot := (saw disk.(sd_fd) slot ss name).

Lemma slot_range : 0 <= host_id - 1 /\ slot < 2 ^ 64 /\ u64 (host_id - 1) = host_id - 1.
Proof.
  destruct Hgeo as [Hss Hh Ho _ _]. split; [lia|]. split; [nia|].
  apply wrapu_small. unfold is_u. lia.
Qed.

Lemma leader_read_always lr (I : list event -> Prop) h :
  (forall h', (exists es, h' = h ++ es /\ Forall not_write es) -> I h') ->
  always (delta_lease_leader_read ss sp.(sp_io_timeout) disk name host_id lr) I
    (fun h' r => (fst r < 0 /\ I h') \/ (fst r = SANLK_OK /\ exists e, h' = h ++ [e] /\ saw_slot (snd r) e)) h.
Proof.
  intros HI. destruct slot_range as (H1 & H2 & E). destruct Hgeo as [Hss _ [Ho _] _ _].
  assert (Hh : I h) by (apply HI; exists []; by rw app_nil_r).
  unfold delta_lease_leader_read. destruct (Z.eqb_spec ss 0); [lia|]. rw E.
  apply always_bind, always_read_sectors; [done| |done..| |].
  { change (Z.of_nat (length (zeros sizeof_leader_record))) with 200. lia. }
  { intros rv Hrv. cbn [fst snd]. apply Z.ltb_lt in Hrv as E'. rw E'.
    apply always_ret; [done|]. left. by split. }
  intros rv m Hrv Hm h'. assert (HI' : I h').
  { apply HI. eexists. split; [done|]. by apply Forall_singleton. }
  split; [done|]. split; cbn [fst snd].
  - intros Hlt. apply Z.ltb_lt in Hlt as E'. rw E'. apply always_ret; [done|]. left. by split.
  - intros ->. cbn [Z.ltb]. apply always_ret; [done|]. cbn [fst snd].
    change (length (zeros sizeof_leader_record)) with sizeof_leader_record.
    destruct (verify_leader_code name (leader_record_in (mem_read m 0 sizeof_leader_record))
                (leader_checksum (mem_read m 0 sizeof_leader_record))) as [Ev|Hlt]; [right|by left].
    split; [done|]. eexists. split; [done|]. exists m. split; [done|]. by split.
Qed.

Lemma delay_loop_always n (I : list event -> Prop) h :
  (forall h', (exists es, h' = h ++ es /\ Forall not_write es) -> I h') ->
  always (delay_loop n) I
    (fun h' go => I h' /\ (go = true -> h' = h ++ replicate n (EvSleep 1))) h.
Proof.
  revert h. induction n as [|n IH]; intros h HI; cbn [delay_loop];
    assert (Hh : I h) by (apply HI; exists []; by rw app_nil_r).
  { apply always_ret; [done|]. by rw app_nil_r. }
  assert (Hgo : forall b : bool,
    always (if b then Ret false else _ ← call (CSleep 1); delay_loop n) I
      (fun h' go => I h' /\ (go = true -> h' = h ++ replicate (S n) (EvSleep 1))) h).
  { intros [|]; [apply always_ret; [done|]; by split|]. apply always_bind, always_call; [done|]. intros [] _. cbn [ev].
    assert (HI' : forall h', (exists es, h' = (h ++ [EvSleep 1]) ++ es /\ Forall not_write es) -> I h').
    { intros h' (es & -> & Hes). apply HI. exists (EvSleep 1 :: es).
      rw -app_assoc. split; [done|]. by constructor. }
    split; [apply HI'; exists []; by rw app_nil_r|].
    eapply always_mono; [by apply IH|done|]. intros h' go Hh' [_ Hgo]. split; [done|].
    intros E. rw (Hgo E) -app_assoc. done. }
  apply always_bind, always_quiet; [done..|]. intros [|] _.
  - apply always_bind, always_ret; [done|]. apply (Hgo true).
  - apply always_bind, always_quiet; [done..|]. intros b _. apply Hgo.
Qed.

(** ** Acquiring *)

Definition other_io_timeout (l : leader_record) : Z :=
  if l.(lr_io_timeout) =? 0 then sp.(sp_io_timeout) else l.(lr_io_timeout).

(** The history that entitles us to write over [l], the record [l1] having
    been read first: it is free or ours; or, after a delay long enough for
    the host that owns it to be dead, it was still the same, or free. *)
Definition entitled (l1 l : leader_record) (h : list event) : Prop :=
  (exists e1, saw_slot l1 e1 /\ h = [e1] /\ l = l1 /\
     (l1.(lr_timestamp) = LEASE_FREE \/ strncmp_eq NAME_ID_SIZE l1.(lr_resource_name) our = true)) \/
  (exists e1 e2, saw_slot l1 e1 /\ saw_slot l e2 /\
     h = e1 :: replicate (Z.to_nat (delta_acquire_delay com (other_io_timeout l1))) (EvSleep 1) ++ [e2] /\
     (l = l1 \/ l.(lr_timestamp) = LEASE_FREE)).

Definition our_record (ts : Z) (l : leader_record) : leader_record :=
  acquired_leader sp our host_id ts l.
Definition our_write (ts : Z) (l : leader_record) (rv : Z) : event :=
  EvWrite disk.(sd_fd) slot ss (mem_of (leader_image (our_record ts l) lr_end0)) rv.

(** Every history of an acquire: no write, or one write that we were entitled to. *)
Definition acquiring (h : list event) : Prop :=
  Forall not_write h \/
  exists l1 l h1 ts rv h2, entitled l1 l h1 /\ Forall not_write h2 /\ h = h1 ++ our_write ts l rv :: h2.

(** After success: the write, the wait of twice the other's io timeout, and
    a read that shows our record. *)
Definition acquired (h : list event) (r : leader_record) : Prop :=
  exists l1 l h1 ts e, entitled l1 l h1 /\ saw_slot r e /\
    r = lr_with_checksum (leader_sum (our_record ts l) lr_end0) (our_record ts l) /\
    h = h1 ++ our_write ts l 0 :: replicate (Z.to_nat (2 * other_io_timeout l1)) (EvSleep 1) ++ [e].

Lemma our_record_ok ts l : is_u 64 ts -> leader_record_ok l -> leader_record_ok (our_record ts l).
Proof.
  destruct Hgeo as [_ Hh _ Hour Hio]. intros Hts (?&?&?&?&?&?&?&?&?&[? ?]&[Hl Hb]&?&?&?&?&?&?&?&?).
  unfold leader_record_ok, our_record, acquired_leader. cbn.
  assert (is_u 64 host_id) by (unfold is_u; lia).
  assert (is_u 64 (u64 (lr_owner_generation l + 1))) by (by apply wrapu_is_u).
  assert (is_u 16 (Z.land (sp_io_timeout sp) 255)).
  { change 255 with (Z.ones 8). rw Z.land_ones; [lia|]. pose proof (Z.mod_pos_bound (sp_io_timeout sp) (2 ^ 8)).
    unfold is_u. lia. }
  assert (is_u 32 0) by (by vm_compute).
  assert (name_ok (snprintf_s NAME_ID_SIZE our (lr_resource_name l))).
  { split; [|by apply snprintf_s_ok]. rw length_snprintf_s; [rw Hl; unfold NAME_ID_SIZE; lia|done]. }
  by repeat (split; [done|]).
Qed.

Lemma acquiring_reads h : Forall not_write h -> acquiring h.
Proof. by left. Qed.

Lemma entitled_reads l1 l h : entitled l1 l h -> Forall not_write h /\ leader_record_ok l.
Proof.
  intros [(e1 & Hs & -> & -> & _)|(e1 & e2 & Hs1 & Hs2 & -> & _)].
  - split; [by apply Forall_singleton, (saw_not_write disk.(sd_fd) slot ss name l1)|by eapply saw_ok].
  - split; [|by eapply saw_ok]. constructor; [by eapply saw_not_write|]. apply Forall_app. split.
    + by apply Forall_replicate.
    + by apply Forall_singleton, (saw_not_write disk.(sd_fd) slot ss name l).
Qed.

Lemma write_new_always l1 l h leader_ret :
  entitled l1 l h ->
  always (delta_write_new sp disk name our host_id (other_io_timeout l1) l leader_ret) acquiring
    (fun h' r => (fst r = SANLK_OK /\ acquired h' (snd r)) \/ fst r < 0) h.
Proof.
  intros He. destruct (entitled_reads _ _ _ He) as [Hnw Hok].
  destruct slot_range as (H1 & H2 & E). pose proof Hgeo as [Hss _ [Ho _] _ _].
  unfold delta_write_new. apply always_bind, always_quiet; [done|by left|]. intros ts Hts. simpl in Hts.
  pose proof (our_record_ok ts l Hts Hok) as Hrok. apply always_bind.
  unfold write_delta_leader. rw E. fold (our_record ts l). apply always_bind.
  apply always_write_sector; [done| | |done..|by left| |].
  - rw length_leader_image //. change (Z.of_nat sizeof_leader_record) with 200. lia.
  - apply leader_image_bytes; [done|apply zeros_ok].
  - intros rv Hrv. apply always_ret; [by left|]. cbn [fst snd]. apply Z.ltb_lt in Hrv as E'. rw E'.
    apply always_ret; [by left|]. by right.
  - intros rv Hrv. fold (our_write ts l rv).
    assert (HI : forall h', (exists es, h' = (h ++ [our_write ts l rv]) ++ es /\ Forall not_write es) -> acquiring h').
    { intros h' (es & -> & Hes). right. exists l1, l, h, ts, rv, es. rw -app_assoc. by split. }
    assert (Hw : acquiring (h ++ [our_write ts l rv])) by (apply HI; exists []; by rw app_nil_r).
    split; [done|]. apply always_ret; [done|]. cbn [fst snd].
    destruct (rv <? 0) eqn:Erv; zbool; [apply always_ret; [done|]; by right|].
    assert (rv = 0) as -> by lia. apply always_bind.
    eapply always_mono; [by apply (delay_loop_always _ acquiring)|done|].
    intros h2 [|] Hacq2 [_ Hgo]; cbn [negb]; [|apply always_ret; [done|]; by right].
    rw (Hgo eq_refl). apply always_bind.
    eapply always_mono; [apply (leader_read_always _ acquiring)|done|].
    { intros h' (es & -> & Hes). apply HI. eexists. rw -app_assoc. split; [done|].
      apply Forall_app. split; [by apply Forall_replicate|done]. }
    intros h3 r _ [[Hneg Hacq]|[-> (e & -> & Hsaw)]].
    { apply Z.ltb_lt in Hneg as E'. rw E'. apply always_ret; [done|]. by right. }
    cbn [Z.ltb]. assert (Hacq : acquiring (((h ++ [our_write ts l 0]) ++
      replicate (Z.to_nat (2 * other_io_timeout l1)) (EvSleep 1)) ++ [e])).
    { apply HI. eexists. rw -app_assoc. split; [done|]. apply Forall_app. split; [by apply Forall_replicate|].
      by apply Forall_singleton, (saw_not_write disk.(sd_fd) slot ss name (snd r)). }
    case_bool_decide as Heq; (apply always_ret; [done|]); [left; split; [done|]; cbn [snd]|by right].
    exists l1, l, h, ts, e. do 2 (split; [done|]). split; [done|]. by rw -!app_assoc.
Qed.

Lemma acquire_always leader0 leader_ret :
  always (delta_lease_acquire com sp disk name our host_id leader0 leader_ret) acquiring
    (fun h r => (fst r = SANLK_OK /\ acquired h (snd r)) \/ fst r < 0) [].
Proof.
  unfold delta_lease_acquire. apply always_bind.
  eapply always_mono; [apply (leader_read_always _ acquiring)|done|].
  { intros h' (es & -> & Hes). by left. }
  intros h1 [rv l1] _ [[Hneg Hacq]|[Erv (e1 & -> & Hs1)]]; cbn [fst snd] in *.
  { apply Z.ltb_lt in Hneg as E'. rw E'. apply always_ret; [done|]. by right. }
  rw Erv app_nil_l. cbn [Z.ltb]. fold (other_io_timeout l1).
  assert (Hn1 : not_write e1) by (by eapply saw_not_write).
  destruct (Z.eqb_spec l1.(lr_timestamp) LEASE_FREE).
  { apply write_new_always. left. exists e1. repeat split; auto. }
  destruct (strncmp_eq _ _ _) eqn:En.
  { apply write_new_always. left. exists e1. repeat split; auto. }
  assert (HI : forall h', (exists es, h' = [e1] ++ es /\ Forall not_write es) -> acquiring h').
  { intros h' (es & -> & Hes). left. by constructor. }
  apply always_bind. eapply always_mono; [by apply (delay_loop_always _ acquiring)|done|].
  intros h2 [|] _ [Hacq Hgo]; cbn [negb]; [|apply always_ret; [done|]; by right].
  rw (Hgo eq_refl) in Hacq |- *. apply always_bind.
  eapply always_mono; [apply (leader_read_always _ acquiring)|done|].
  { intros h' (es & -> & Hes). apply HI. eexists. rw -app_assoc. split; [done|].
    apply Forall_app. split; [by apply Forall_replicate|done]. }
  intros h3 [rv2 l] _ [[Hneg Hacq2]|[-> (e2 & -> & Hs2)]]; cbn [fst snd] in *.
  { apply Z.ltb_lt in Hneg as E'. rw E'. apply always_ret; [done|]. by right. }
  cbn [Z.ltb]. case_bool_decide as Heq.
  { apply write_new_always. right. exists e1, e2. repeat split; auto. }
  destruct (Z.eqb_spec l.(lr_timestamp) LEASE_FREE).
  { apply write_new_always. right. exists e1, e2. repeat split; auto. }
  apply always_ret; [|by right]. left. constructor; [done|].
  apply Forall_app. split; [by apply Forall_replicate|by apply Forall_singleton, (saw_not_write disk.(sd_fd) slot ss name l)].
Qed.
End delta.

(** ** Renewing *)

Section renew.
Context (com : command_line) (sp : space) (disk : sync_disk) (name bitmap : list Z).
Context (extra : option delta_extra) (prev_result : Z) (last : leader_record).

Abbreviation id_offset := ((last.(lr_owner_id) - 1) * sp.(sp_sector_size)).

Record renew_geometry : Prop := {
  rg_ss : LEADER_RECORD_MAX + Z.of_nat (length bitmap) <= sp.(sp_sector_size);
  rg_host : 1 <= last.(lr_owner_id);
  rg_area : last.(lr_owner_id) * sp.(sp_sector_size) <= sp.(sp_align_size) < 2 ^ 32;
  rg_off : 0 <= disk.(sd_offset) < 2 ^ 63
}.

Context (Hgeo : renew_geometry).

(** A read of the lockspace area that shows our record, still ours: same
    owner, generation and name as the last one we wrote and, if the previous
    renewal succeeded, that very record. *)
Definition still_ours (l : leader_record) (e : event) : Prop :=
  exists m, e = EvRead disk.(sd_fd) disk.(sd_offset) sp.(sp_align_size) 0 m /\ (forall i, byte_ok (m i)) /\
    l = leader_record_in (mem_read m id_offset sizeof_leader_record) /\
    verify_leader name l (leader_checksum (mem_read m id_offset sizeof_leader_record)) = SANLK_OK /\
    l.(lr_owner_id) = last.(lr_owner_id) /\ l.(lr_owner_generation) = last.(lr_owner_generation) /\
    l.(lr_resource_name) = last.(lr_resource_name) /\ (prev_result = SANLK_OK -> l = last).

Definition renew_record (ts : Z) (l : leader_record) : leader_record := renewed_leader sp extra ts l.
Definition renew_event (ts : Z) (l : leader_record) (rv : Z) : event :=
  EvWrite disk.(sd_fd) (disk.(sd_offset) + id_offset) sp.(sp_sector_size)
    (mem_write (mem_of (leader_image (renew_record ts l) lr_end0)) LEADER_RECORD_MAX
       (Z.of_nat (length bitmap)) (mem_of bitmap)) rv.

Definition renewing (h : list event) : Prop :=
  Forall not_write h \/
  exists h1 e l ts rv, Forall not_write h1 /\ still_ours l e /\ h = h1 ++ [e; renew_event ts l rv].

Definition renewed (h : list event) (r : renewal) : Prop :=
  match r.(rn_leader) with
  | None => r.(rn_rv) <> SANLK_OK
  | Some x => r.(rn_rv) = SANLK_OK /\
      exists h1 e l ts, Forall not_write h1 /\ still_ours l e /\ is_u 64 ts /\ h = h1 ++ [e; renew_event ts l 0] /\
        x = lr_with_checksum (leader_sum (renew_record ts l) lr_end0) (renew_record ts l)
  end.

Lemma renew_check_ok l :
  renew_check prev_result l last = SANLK_OK ->
  l.(lr_owner_id) = last.(lr_owner_id) /\ l.(lr_owner_generation) = last.(lr_owner_generation) /\
  l.(lr_resource_name) = last.(lr_resource_name) /\ (prev_result = SANLK_OK -> l = last).
Proof.
  unfold renew_check. cases; try done. intros _. zbool.
  do 2 (split; [done|]). split; [by eapply bool_decide_eq_true|].
  intros ->. by destruct (bool_decide_reflect (l = last)).
Qed.

Lemma renew_check_code l : renew_check prev_result l last = SANLK_OK \/ renew_check prev_result l last < 0.
Proof. unfold renew_check. cases; (by left) || (by right). Qed.

Lemma id_offset_bounds :
  0 <= id_offset /\ id_offset + sp.(sp_sector_size) <= sp.(sp_align_size) /\
  u64 id_offset = id_offset /\ u64 (disk.(sd_offset) + id_offset) = disk.(sd_offset) + id_offset /\
  256 <= sp.(sp_sector_size).
Proof.
  destruct Hgeo as [Hss Hh Ha Ho]. unfold LEADER_RECORD_MAX in Hss.
  assert (256 <= sp.(sp_sector_size)) by lia.
  assert (0 <= id_offset /\ id_offset + sp.(sp_sector_size) <= sp.(sp_align_size)) as [H1 H2] by nia.
  split; [done|]. split; [done|]. split; [|split; [|done]]; apply wrapu_small; unfold is_u; lia.
Qed.

Lemma renew_write_always h1 m aicb :
  Forall not_write h1 -> (forall i, byte_ok (m i)) ->
  always (renew_write com sp disk name bitmap extra prev_result (u64 id_offset) last (Task (Some m) aicb))
    renewing renewed (h1 ++ [EvRead disk.(sd_fd) disk.(sd_offset) sp.(sp_align_size) 0 m]).
Proof.
  intros Hh1 Hm. destruct id_offset_bounds as (Hi0 & Hi1 & -> & Eoff & Hss).
  set (e := EvRead _ _ _ _ _).
  assert (Hnw : renewing (h1 ++ [e])) by (left; apply Forall_app; split; [done|by apply Forall_singleton]).
  unfold renew_write. cbn [task_iobuf].
  apply always_bind, always_buf_get; [done|lia|change (Z.of_nat sizeof_leader_record) with 200; lia|done|].
  rw Nat2Z.id. set (l := leader_record_in _).
  assert (Herr : forall rv tk, rv < 0 -> always (Ret (Renewal rv SANLK_OK None tk)) renewing renewed (h1 ++ [e])).
  { intros rv tk Hrv. apply always_ret; [done|]. unfold renewed, SANLK_OK. cbn. lia. }
  destruct (verify_leader_code name l (leader_checksum (mem_read m id_offset sizeof_leader_record))) as [Ev|Hlt].
  2:{ apply Z.ltb_lt in Hlt as E. rw E. by apply Herr. }
  rw Ev. cbn [Z.ltb]. destruct (renew_check_code l) as [Ec|Hlt].
  2:{ apply Z.ltb_lt in Hlt as E. rw E. by apply Herr. }
  rw Ec. cbn [Z.ltb].
  assert (Hours : still_ours l e) by (exists m; do 4 (split; [done|]); by apply renew_check_ok).
  apply always_bind, always_quiet; [done..|]. intros ts Hts. simpl in Hts.
  apply always_bind, always_quiet; [done..|]. intros [er b] _. cbn [fst].
  destruct (nz er); [by apply Herr|].
  destruct (Z.ltb_spec sp.(sp_sector_size) (LEADER_RECORD_MAX + Z.of_nat (length bitmap))) as [Hlt|_].
  { destruct Hgeo as [? _ _ _]. lia. }
  rw Eoff. fold (renew_record ts l).
  apply always_bind, always_call; [done|]. intros rv Hrv. cbn in Hrv. cbn [ev]. fold (renew_event ts l rv).
  assert (Hw : renewing ((h1 ++ [e]) ++ [renew_event ts l rv])).
  { right. exists h1, e, l, ts, rv. do 2 (split; [done|]). by rw -app_assoc. }
  split; [done|]. apply always_bind, always_quiet; [done..|]. intros _ _.
  destruct (rv <? 0) eqn:Erv; zbool.
  { apply always_ret; [done|]. unfold renewed, SANLK_OK. cbn. lia. }
  assert (rv = 0) as -> by lia. apply always_ret; [done|]. split; [done|].
  exists h1, e, l, ts. do 3 (split; [done|]). by rw -app_assoc.
Qed.

(** Reaping the read of the previous renewal. *)
Lemma renew_reap_always task :
  always (renew_reap sp disk prev_result task) renewing
    (fun h p => match fst p with
                | Some m => snd p = Task (Some m) false /\ (forall i, byte_ok (m i)) /\
                    h = [EvRead disk.(sd_fd) disk.(sd_offset) sp.(sp_align_size) 0 m]
                | None => Forall not_write h
                end) [].
Proof.
  assert (H0 : renewing []) by by left.
  assert (Hskip : forall h tk, renewing h -> Forall not_write h ->
    always (if task_timeout_aicb tk then Ret (None, Task None false) else Ret (None, tk)) renewing
      (fun h p => match fst p with
                  | Some m => snd p = Task (Some m) false /\ (forall i, byte_ok (m i)) /\
                      h = [EvRead disk.(sd_fd) disk.(sd_offset) sp.(sp_align_size) 0 m]
                  | None => Forall not_write h
                  end) h).
  { intros h tk Hr Hh. destruct (task_timeout_aicb tk); by apply always_ret. }
  unfold renew_reap. apply always_bind. destruct (_ =? _); [|by apply always_ret, Hskip].
  destruct (negb _); [by apply always_ret, Hskip|]. destruct (task_iobuf task); [|by apply always_ret, Hskip].
  apply always_bind, always_call; [done|]. intros [rv b] [Hrv Hb]. cbn [ev fst snd app] in *.
  assert (Hr : renewing [EvRead disk.(sd_fd) disk.(sd_offset) sp.(sp_align_size) rv b])
    by (left; by apply Forall_singleton).
  split; [done|]. destruct (Z.eqb_spec rv 0) as [-> |].
  - by apply always_ret, always_ret.
  - apply always_ret; [done|]. apply Hskip; [done|]. by apply Forall_singleton.
Qed.

Lemma renew_always read_result task :
  always (delta_lease_renew com sp disk name bitmap extra prev_result (Some last) read_result task)
    renewing renewed [].
Proof.
  destruct id_offset_bounds as (Hi0 & Hi1 & Ei & _ & Hss). destruct Hgeo as [_ _ Ha _].
  assert (H0 : renewing []) by by left.
  unfold delta_lease_renew. rw Ei.
  assert ((u64 sp.(sp_align_size) <? id_offset) = false) as ->.
  { apply Z.ltb_ge. unfold u64. rw wrapu_small; [unfold is_u; lia|lia]. }
  apply always_bind. eapply always_mono; [apply renew_reap_always|done|].
  intros h [[m|] tk] Hr Hp; cbn [fst snd] in Hp.
  { destruct Hp as (-> & Hm & ->). rw -Ei. by apply (renew_write_always []). }
  apply always_bind. unfold renew_read. apply always_bind.
  assert (Hread : forall tk', always (match task_iobuf tk' with
    | Some _ => r ← read_iobuf disk.(sd_fd) disk.(sd_offset) sp.(sp_align_size) sp.(sp_io_timeout);
                Ret (fst r, Task (Some (snd r)) (fst r =? SANLK_AIO_TIMEOUT))
    | None => rv ← call (CReadNull disk.(sd_fd) disk.(sd_offset) sp.(sp_align_size) sp.(sp_io_timeout));
              Ret (rv, Task None (rv =? SANLK_AIO_TIMEOUT)) end) renewing
    (fun h r => always (if nz (fst r) then Ret (Renewal (fst r) SANLK_ERROR None (snd r))
       else renew_write com sp disk name bitmap extra prev_result id_offset last (snd r)) renewing renewed h) h).
  { intros tk'. destruct (task_iobuf tk').
    - apply always_bind, always_call; [done|]. intros [rv m] [Hrv Hm]. cbn [fst snd ev] in *.
      assert (Hr2 : renewing (h ++ [EvRead disk.(sd_fd) disk.(sd_offset) sp.(sp_align_size) rv m])).
      { left. apply Forall_app; split; [done|by apply Forall_singleton]. }
      split; [done|]. apply always_ret; [done|]. cbn [fst snd]. unfold nz.
      destruct (Z.eqb_spec rv 0) as [-> |Hne]; cbn [negb].
      + rw -Ei. by apply renew_write_always.
      + apply always_ret; [done|]. unfold renewed, SANLK_OK. cbn. lia.
    - apply always_bind, always_quiet; [done..|]. intros rv Hrv. simpl in Hrv. apply always_ret; [done|].
      cbn [fst]. assert (nz rv = true) as -> by (unfold nz; by destruct (Z.eqb_spec rv 0); [lia|]).
      apply always_ret; [done|]. unfold renewed, SANLK_OK. cbn. lia. }
  destruct (task_iobuf tk) eqn:Etk; [apply always_ret; [done|]; by apply Hread|].
  apply always_bind, always_quiet; [done..|]. intros [er b] _. cbn [fst].
  destruct (nz er); apply always_ret; try done; apply Hread.
Qed.
End renew.

(** ** Formatting a lockspace *)

Section init.
Context (com : command_line) (ls : sanlk_lockspace) (disk : sync_disk) (sz : sizes) (io : Z).
Context (ss align max_hosts : Z).

Record init_geometry : Prop := {
  ig_flags : sizes_from_flags ls.(ls_flags) "LSF" = (0, sz);
  ig_disk : disk.(sd_sector_size) = 512 \/ disk.(sd_sector_size) = 4096;
  ig_name : bytes_ok ls.(ls_name);
  ig_sizes : format_sizes disk sz = (ss, align, max_hosts)
}.

Context (Hgeo : init_geometry).

Lemma init_bounds : (ss = 512 \/ ss = 4096) /\ 0 < max_hosts <= 2000 /\ max_hosts * ss <= align <= 8388608.
Proof.
  destruct Hgeo as [Hf Hd _ Es].
  pose proof (format_sizes_ok _ _ sz (i32 disk.(sd_sector_size)) Hf) as H.
  unfold format_sizes, DEFAULT_MAX_HOSTS in Es. rw Es in H.
  destruct H as (H1 & H2 & H3); [intros _; destruct Hd as [-> | ->]; [by left|by right]|]. lia.
Qed.

(** A sector of the area, as reading a host's lease sees it: it verifies and
    is free. *)
Definition free_record (m : mem) (j : Z) : Prop :=
  let bs := mem_read m (j * ss) sizeof_leader_record in
  verify_leader ls.(ls_name) (leader_record_in bs) (leader_checksum bs) = SANLK_OK /\
  (leader_record_in bs).(lr_timestamp) = LEASE_FREE.

Definition no_magic (m : mem) : Prop :=
  let bs := mem_read m 0 sizeof_leader_record in
  verify_leader ls.(ls_name) (leader_record_in bs) (leader_checksum bs) = SANLK_LEADER_MAGIC.

(** The first write: every record but the first. *)
Definition area_formatted (m : mem) : Prop :=
  no_magic m /\ forall j, 1 <= j < max_hosts -> free_record m j.

Definition init_area_write (m : mem) (rv : Z) : event := EvWrite disk.(sd_fd) disk.(sd_offset) align m rv.
Definition init_commit_write (m : mem) (rv : Z) : event := EvWrite disk.(sd_fd) disk.(sd_offset) ss m rv.

(** An interrupted format leaves a lockspace without a valid first record;
    the write of that one record commits it. *)
Definition formatting (h : list event) : Prop :=
  h = [] \/
  (exists m rv, area_formatted m /\ h = [init_area_write m rv]) \/
  (exists m m' rv, area_formatted m /\ free_record m' 0 /\ h = [init_area_write m 0; init_commit_write m' rv]).

Abbreviation rec magic := (init_leader magic io ss align ls.(ls_name)).

Lemma init_leader_ok magic : magic = 0 \/ magic = DELTA_DISK_MAGIC -> leader_record_ok (rec magic).
Proof.
  intros Hm. destruct init_bounds as (Hss & _ & _). destruct Hgeo as [_ _ Hn _].
  assert (is_u 32 magic) by (destruct Hm as [-> | ->]; by vm_compute).
  assert (is_u 32 (leader_align_flag_from_size align)).
  { unfold leader_align_flag_from_size. cases; by vm_compute. }
  assert (name_ok (strncpy NAME_ID_SIZE (ls_name ls))) by (split; [apply length_strncpy|by apply strncpy_ok]).
  assert (name_ok (zeros 48)) by (split; [done|apply zeros_ok]).
  assert (is_u 32 (u32 ss) /\ is_u 16 (u16 io)) as [? ?] by (split; by apply wrapu_is_u).
  unfold leader_record_ok, init_leader. cbn.
  repeat (split; [first [done|by vm_compute]|]); by vm_compute.
Qed.

Lemma init_leader_read magic m off :
  magic = 0 \/ magic = DELTA_DISK_MAGIC ->
  mem_read m off sizeof_leader_record = leader_image (rec magic) lr_end0 ->
  let bs := mem_read m off sizeof_leader_record in
  verify_leader ls.(ls_name) (leader_record_in bs) (leader_checksum bs) =
    (if magic =? DELTA_DISK_MAGIC then SANLK_OK else SANLK_LEADER_MAGIC) /\
  (leader_record_in bs).(lr_timestamp) = LEASE_FREE.
Proof.
  intros Hm E. cbv zeta. rw E -(app_nil_r (leader_image _ _)).
  destruct (leader_image_in (rec magic) lr_end0 [] (init_leader_ok magic Hm) eq_refl (zeros_ok _)) as [-> ->].
  split; [|done]. unfold verify_leader. cbn [lr_magic lr_with_checksum init_leader lr_version lr_space_name lr_checksum].
  destruct (magic =? DELTA_DISK_MAGIC); [|done]. cbn [negb].
  change (Z.land _ _ =? DELTA_DISK_VERSION_MAJOR) with true. cbn [negb].
  by rw strncmp_strncpy Z.eqb_refl.
Qed.

(** The records the loop has put in the buffer. *)
Definition records (m : mem) (lo hi : Z) : Prop :=
  forall j, lo <= j < hi -> mem_read m (j * ss) sizeof_leader_record =
    leader_image (rec (if j =? 0 then 0 else DELTA_DISK_MAGIC)) lr_end0.

Lemma length_rec_image magic :
  magic = 0 \/ magic = DELTA_DISK_MAGIC ->
  length (leader_image (rec magic) lr_end0) = sizeof_leader_record.
Proof. intros. apply length_leader_image; [by apply init_leader_ok|done]. Qed.

Lemma rec_magic (j : Z) : (if j =? 0 then 0 else DELTA_DISK_MAGIC) = 0 \/
  (if j =? 0 then 0 else DELTA_DISK_MAGIC) = DELTA_DISK_MAGIC.
Proof. destruct (j =? 0); auto. Qed.

Lemma init_records_always n i m (I : list event -> Prop) h :
  0 <= i -> i + Z.of_nat n <= max_hosts -> records m 0 i -> I h ->
  always (init_records io ss align ls.(ls_name) n i m) I
    (fun h' m' => h' = h /\ records m' 0 (i + Z.of_nat n)) h.
Proof.
  destruct init_bounds as (Hss & Hmax & Ha). revert i m.
  induction n as [|n IH]; intros i m Hi Hn Hm Hh; cbn [init_records].
  { apply always_ret; [done|]. split; [done|]. by rw Z.add_0_r. }
  destruct (Z.ltb_spec align (i * ss + Z.of_nat sizeof_leader_record)) as [Hlt|_].
  { change (Z.of_nat sizeof_leader_record) with 200 in Hlt. nia. }
  replace (i + Z.of_nat (S n)) with (i + 1 + Z.of_nat n) by lia.
  apply IH; [lia|lia| |done]. intros j Hj. pose proof (length_rec_image _ (rec_magic i)) as Hl.
  destruct (decide (j = i)) as [-> |Hne].
  - rw -{1}Hl. apply mem_read_put.
  - rw mem_read_put_other; [|by apply Hm; lia]. rw Hl.
    change (Z.of_nat sizeof_leader_record) with 200. nia.
Qed.

Lemma area_formatted_records m : records m 0 max_hosts -> area_formatted m.
Proof.
  destruct init_bounds as (_ & Hmax & _). intros Hm. split.
  - pose proof (Hm 0 ltac:(lia)) as E. rw Z.mul_0_l in E.
    by apply (init_leader_read 0 m 0); [left|].
  - intros j Hj. pose proof (Hm j ltac:(lia)) as E. destruct (Z.eqb_spec j 0); [lia|].
    by apply (init_leader_read DELTA_DISK_MAGIC m (j * ss)); [right|].
Qed.

Lemma init_always io_timeout :
  (if io_timeout =? 0 then com.(com_io_timeout) else io_timeout) = io ->
  always (delta_lease_init com ls io_timeout disk) formatting
    (fun h rv => rv = 0 -> exists m m', area_formatted m /\ free_record m' 0 /\
       h = [init_area_write m 0; init_commit_write m' 0]) [].
Proof.
  intros Eio. destruct init_bounds as (Hss & Hmax & Ha). destruct Hgeo as [Hf _ _ Es].
  assert (H0 : formatting []) by by left.
  unfold delta_lease_init. rw Eio Hf. cbn [nz Z.eqb negb]. rw Es.
  apply always_bind, always_quiet; [done..|]. intros [e b] [He _]. cbn [fst] in *.
  destruct (nz e) eqn:Ee; [apply always_ret; [done|]; intros ->; done|].
  apply always_bind. eapply always_mono;
    [apply (init_records_always _ 0 mem_zero formatting); [lia|lia|intros j Hj; lia|done]|done|].
  intros h m _ [-> Hm]. rw Z.add_0_l Z2Nat.id in Hm; [lia|].
  pose proof (area_formatted_records m Hm) as Hform.
  apply always_bind, always_call; [done|]. intros rv Hrv. cbn in Hrv. cbn [ev app]. fold (init_area_write m rv).
  assert (H1 : formatting [init_area_write m rv]) by (right; left; by exists m, rv).
  split; [done|]. destruct (rv <? 0) eqn:Erv; zbool; [apply always_ret; [done|]; intros ->; lia|].
  assert (rv = 0) as -> by lia. set (m' := buf_put _ _ _).
  assert (Hfree : free_record m' 0).
  { apply (init_leader_read DELTA_DISK_MAGIC); [by right|]. rw Z.mul_0_l.
    rw -{1}(length_rec_image DELTA_DISK_MAGIC); [by right|]. apply mem_read_put. }
  apply always_call; [done|]. intros rv' Hrv'. cbn [ev app]. fold (init_commit_write m' rv').
  split; [right; right; by exists m, m', rv'|]. intros ->. by exists m, m'.
Qed.
End init.

(** ** Properties *)

(** C5: A host id is taken over safely. Whatever the i/o and allocation results,
    [delta_lease_acquire] writes at most one record, its own, to its own sector,
    and only after reads of that same sector (same descriptor and offset) showed
    a verified record that was free, or had our name, or that after sleeping
    [delta_acquire_delay] of the io timeout in the record (of our own if it has
    none) was read again as unchanged or as free; that delay is at least
    [calc_host_dead_seconds]. It returns [SANLK_OK] only when, after a
    successful write and a sleep of two of these io timeouts, a read of the
    sector shows the record it wrote. The sector size is assumed to be 512 or
    4096, the host id to be from 1 to 2^32 - 1 and offsets to fit 63 bits. *)
Theorem delta_acquire_takeover com sp disk name our host_id leader0 leader_ret :
  delta_geometry sp disk our host_id ->
  always (delta_lease_acquire com sp disk name our host_id leader0 leader_ret)
    (acquiring com sp disk name our host_id)
    (fun h r => fst r = SANLK_OK -> acquired com sp disk name our host_id h (snd r)) [] /\
  (forall io, calc_host_dead_seconds com io <= delta_acquire_delay com io).
Proof.
  intros Hgeo. split.
  { eapply always_mono; [by apply acquire_always|done|]. intros h r _ [[_ H]|H]; [done|]. not_ok. }
  intros io. unfold delta_acquire_delay.
  destruct (Z.ltb_spec (calc_host_dead_seconds com io) (i32 (calc_id_renewal_seconds io + 6 * io))); lia.
Qed.

(** C6: A renewal never overwrites another owner's record. Whatever the i/o
    results, also when a read of an earlier renewal is reaped, the only write of
    [delta_lease_renew] is of our sector, after a read that shows it verified,
    with our owner id, generation and name and, if the previous renewal
    succeeded, the very record that wrote; it returns a leader exactly when it
    returns [SANLK_OK], and then that is the record on the disk. *)
Theorem delta_renew_keeps_owner com sp disk name bitmap extra prev_result last read_result task :
  renew_geometry sp disk bitmap last ->
  always (delta_lease_renew com sp disk name bitmap extra prev_result (Some last) read_result task)
    (renewing sp disk name bitmap extra prev_result last)
    (renewed sp disk name bitmap extra prev_result last) [].
Proof. intros Hgeo. by apply renew_always. Qed.

(** C38: Formatting a lockspace is committed by its last write. Whatever the i/o
    results, [delta_lease_init] first writes the area with free and valid
    records for every host but host 1, whose record lacks the magic number, and
    then the first sector with the valid record; it returns 0 only when both
    writes succeeded. *)
Theorem delta_init_commits com ls io_timeout disk sz ss align max_hosts :
  init_geometry ls disk sz ss align max_hosts ->
  always (delta_lease_init com ls io_timeout disk)
    (formatting ls disk ss align max_hosts)
    (fun h rv => rv = 0 -> exists m m', area_formatted ls ss max_hosts m /\ free_record ls ss m' 0 /\
       h = [init_area_write disk align m 0; init_commit_write disk ss m' 0]) [].
Proof.
  intros Hgeo.
  by apply (init_always com ls disk sz (if io_timeout =? 0 then com.(com_io_timeout) else io_timeout)).
Qed.

(** *** A lockspace with 4 KiB sectors *)

Definition demo_com : command_line := Com 60 40 0 0 0 10.
Definition demo_disk : sync_disk := SyncDisk [] 0 4096 3.
Definition demo_ls : sanlk_lockspace := Lockspace [76; 83] 1 0x210 (SyncDisk [100] 0 4096 0).
Definition demo_sp : space := Space 4096 1048576 10 0.
Definition demo_world : world :=
  World (fun _ => mem_zero) 1000 [] [] 0 (fun _ => HostStatus 0 0 0 0 0 0 0 0 0 0 []).

(** Format it, acquire host id 2, renew it once. *)
Definition demo_run : prog (Z * (Z * leader_record) * (Z * option leader_record)) :=
  rv ← delta_lease_init demo_com demo_ls 0 demo_disk;
  r ← delta_lease_acquire demo_com demo_sp demo_disk [76; 83] [104] 2 leader_zero leader_zero;
  w ← delta_lease_renew demo_com demo_sp demo_disk [76; 83] (zeros 256) None SANLK_OK (Some (snd r)) 0
        (Task None false);
  Ret (rv, r, (w.(rn_rv), w.(rn_leader))).

Definition demo_result : option (Z * Z * Z * Z * Z) :=
  match fst (run world_handler demo_run demo_world) with
  | Some (rv, (rv1, l1), (rv2, Some l2)) =>
      Some (rv, rv1, rv2, l1.(lr_owner_id), l2.(lr_owner_generation))
  | _ => None
  end.

Definition demo_last : leader_record :=
  match fst (run world_handler demo_run demo_world) with
  | Some (_, (_, l1), _) => l1
  | None => leader_zero
  end.

Lemma delta_acquire_takeover_witness :
  delta_geometry demo_sp demo_disk [104] 2 /\
  demo_result = Some (0, SANLK_OK, SANLK_OK, 2, 1) /\
  always (delta_lease_acquire demo_com demo_sp demo_disk [76; 83] [104] 2 leader_zero leader_zero)
    (acquiring demo_com demo_sp demo_disk [76; 83] [104] 2)
    (fun h r => fst r = SANLK_OK -> acquired demo_com demo_sp demo_disk [76; 83] [104] 2 h (snd r)) [].
Proof.
  assert (Hgeo : delta_geometry demo_sp demo_disk [104] 2).
  { split; [by right|by vm_compute|by vm_compute| |by vm_compute]. apply Forall_singleton. by vm_compute. }
  split; [done|]. split; [by vm_compute|].
  apply (delta_acquire_takeover demo_com demo_sp demo_disk [76; 83] [104] 2 leader_zero leader_zero Hgeo).
Defined.

Lemma demo_renew_geometry : renew_geometry demo_sp demo_disk (zeros 256) demo_last.
Proof. constructor; by vm_compute. Qed.

Lemma delta_renew_keeps_owner_witness :
  demo_last.(lr_owner_id) = 2 /\
  always (delta_lease_renew demo_com demo_sp demo_disk [76; 83] (zeros 256) None SANLK_OK
            (Some demo_last) 0 (Task None false))
    (renewing demo_sp demo_disk [76; 83] (zeros 256) None SANLK_OK demo_last)
    (renewed demo_sp demo_disk [76; 83] (zeros 256) None SANLK_OK demo_last) [].
Proof.
  split; [by vm_compute|].
  apply (delta_renew_keeps_owner demo_com demo_sp demo_disk [76; 83] (zeros 256) None SANLK_OK demo_last).
  apply demo_renew_geometry.
Defined.

Lemma delta_init_commits_witness :
  init_geometry demo_ls demo_disk (Sizes 4096 1048576 250) 4096 1048576 250 /\
  always (delta_lease_init demo_com demo_ls 0 demo_disk)
    (formatting demo_ls demo_disk 4096 1048576 250)
    (fun h rv => rv = 0 -> exists m m', area_formatted demo_ls 4096 250 m /\ free_record demo_ls 4096 m' 0 /\
       h = [init_area_write demo_disk 1048576 m 0; init_commit_write demo_disk 4096 m' 0]) [].
Proof.
  assert (Hgeo : init_geometry demo_ls demo_disk (Sizes 4096 1048576 250) 4096 1048576 250).
  { split; [by vm_compute|by right| |by vm_compute]. apply (bool_decide_unpack _). by vm_compute. }
  split; [done|]. by apply (delta_init_commits demo_com demo_ls 0 demo_disk (Sizes 4096 1048576 250)).
Defined.
