(* ===== verification/PaxosBlocks.v ===== *)
(** * Blocks of a paxos lease ([src/src/paxos_lease.c], first part;
    [check_mode_block] of [src/src/resource.c], [set_id_bit] and [test_id_bit]
    of [src/src/lockspace.c])

    The token, the power-of-two rounding of the io buffer, and the reads and
    writes of single blocks of a lease area: the request record, a host's
    dblock (with or without its shared mode block), the leader record. *)

From S2P Require Import Prelude OnDisk SizeFlags Io.

(** ** Constants *)

Definition SANLK_DBLOCK_READ : Z := -210.
Definition SANLK_DBLOCK_WRITE : Z := -211.
Definition SANLK_DBLOCK_LVER : Z := -212.
Definition SANLK_DBLOCK_MBAL : Z := -213.
Definition SANLK_DBLOCK_CHECKSUM : Z := -214.

Definition T_RETRACT_PAXOS : Z := 0x4.
Definition T_WRITE_DBLOCK_MBLOCK_SH : Z := 0x8.
Definition T_CHECK_EXISTS : Z := 0x10.

Definition MBLOCK_OFFSET : Z := 128.
Definition MBLOCK_SHARED : Z := 0x1.
Definition DBLOCK_FL_RELEASED : Z := 0x1.
Definition HOSTID_BITMAP_SIZE : nat := 256.
Definition SANLK_MAX_DISKS : nat := 4.

(** ** The token *)

(** The fields of [struct token] and of its [sanlk_resource r] that the lease
    code uses; [r.num_disks] is the number of [disks]. *)
Record token := Token {
  t_host_id : Z;
  t_host_generation : Z;
  t_io_timeout : Z;
  t_flags : Z;
  t_sector_size : Z;
  t_align_size : Z;
  t_shared_count : Z;
  t_shared_bitmap : list Z;
  t_disks : list sync_disk;
  t_lockspace_name : list Z;
  t_name : list Z;
  t_r_flags : Z
}.

Definition num_disks (t : token) : Z := Z.of_nat (length t.(t_disks)).

Definition with_flags (f : Z) (t : token) : token :=
  Token t.(t_host_id) t.(t_host_generation) t.(t_io_timeout) f t.(t_sector_size) t.(t_align_size)
    t.(t_shared_count) t.(t_shared_bitmap) t.(t_disks) t.(t_lockspace_name) t.(t_name) t.(t_r_flags).
Definition with_sizes (s a : Z) (t : token) : token :=
  Token t.(t_host_id) t.(t_host_generation) t.(t_io_timeout) t.(t_flags) s a
    t.(t_shared_count) t.(t_shared_bitmap) t.(t_disks) t.(t_lockspace_name) t.(t_name) t.(t_r_flags).
Definition with_shared (n : Z) (bm : list Z) (t : token) : token :=
  Token t.(t_host_id) t.(t_host_generation) t.(t_io_timeout) t.(t_flags) t.(t_sector_size)
    t.(t_align_size) n bm t.(t_disks) t.(t_lockspace_name) t.(t_name) t.(t_r_flags).
Definition with_names (sp nm : list Z) (t : token) : token :=
  Token t.(t_host_id) t.(t_host_generation) t.(t_io_timeout) t.(t_flags) t.(t_sector_size)
    t.(t_align_size) t.(t_shared_count) t.(t_shared_bitmap) t.(t_disks) sp nm t.(t_r_flags).

(** ** [roundup_power_of_two] *)

Definition roundup_power_of_two (val : Z) : Z :=
  let val := u32 (val - 1) in
  let val := Z.lor val (Z.shiftr val 1) in
  let val := Z.lor val (Z.shiftr val 2) in
  let val := Z.lor val (Z.shiftr val 4) in
  let val := Z.lor val (Z.shiftr val 8) in
  let val := Z.lor val (Z.shiftr val 16) in
  u32 (val + 1).

(** ** Request record *)

(** [token->disks[0]]. *)
Definition disk0 (t : token) : prog sync_disk :=
  match t.(t_disks) with d :: _ => Ret d | [] => Ub end.

(** [rr] is what the caller's record held. *)
Definition paxos_lease_request_read (t : token) (rr : request_record) : prog (Z * request_record) :=
  rr_end ← call (CStack sizeof_request_record);
  disk ← disk0 t;
  r ← read_sectors disk t.(t_sector_size) 1 1 rr_end t.(t_io_timeout);
  if fst r <? 0 then Ret (fst r, rr)
  else Ret (SANLK_OK, request_record_in (snd r)).

Definition paxos_lease_request_write (t : token) (rr : request_record) : prog Z :=
  stk ← call (CStack sizeof_request_record);
  disk ← disk0 t;
  rv ← write_sector disk t.(t_sector_size) 1 (request_record_out rr stk) t.(t_io_timeout);
  if rv <? 0 then Ret rv else Ret SANLK_OK.

(** ** Dblocks *)

(** A structure whose every byte the code assigns before use: its previous
    contents do not matter. *)
Definition pd_end0 : list Z := zeros sizeof_paxos_dblock.
Definition lr_end0 : list Z := zeros sizeof_leader_record.

Definition write_dblock_mblock_sh (t : token) (disk : sync_disk) (host_id : Z)
    (pd : paxos_dblock) : prog (Z * paxos_dblock) :=
  let mb := ModeBlock MBLOCK_SHARED t.(t_host_generation) in
  let iobuf_len := t.(t_sector_size) in
  if iobuf_len =? 0 then Ret (- EINVAL, pd)
  else
    r ← call (CMemalign iobuf_len);
    if nz (fst r) then Ret (- ENOMEM, pd)
    else
      let offset := u64 (disk.(sd_offset) + (2 + host_id - 1) * t.(t_sector_size)) in
      let pd_end := dblock_image pd pd_end0 in
      let pd := pd_with_checksum (dblock_sum pd pd_end0) pd in
      stk ← call (CStack sizeof_mode_block);
      let mb_end := mode_block_out mb stk in
      if iobuf_len <? MBLOCK_OFFSET + Z.of_nat sizeof_mode_block then Ub
      else
        let iobuf := buf_put (buf_put (snd r) 0 pd_end) MBLOCK_OFFSET mb_end in
        rv ← write_iobuf disk.(sd_fd) offset iobuf iobuf_len t.(t_io_timeout);
        Ret (rv, pd).

Definition write_dblock (t : token) (disk : sync_disk) (host_id : Z) (pd : paxos_dblock)
    : prog (Z * paxos_dblock) :=
  if has_flag t.(t_flags) T_WRITE_DBLOCK_MBLOCK_SH then write_dblock_mblock_sh t disk host_id pd
  else
    let pd_end := dblock_image pd pd_end0 in
    let pd := pd_with_checksum (dblock_sum pd pd_end0) pd in
    rv ← write_sector disk t.(t_sector_size) (u64 (2 + host_id - 1)) pd_end t.(t_io_timeout);
    Ret (rv, pd).

Definition dblock_zero : paxos_dblock := PaxosDblock 0 0 0 0 0 0 0 0.

(** [paxos_erase_dblock]'s loop: the remaining disks, the count of writes, the
    last error, and [dblock_end], whose checksum each write sets. *)
Fixpoint erase_loop (t : token) (host_id : Z) (disks : list sync_disk) (pd : paxos_dblock)
    (num_writes error : Z) : prog (Z * Z) :=
  match disks with
  | [] => Ret (num_writes, error)
  | d :: disks =>
      r ← write_dblock t d host_id pd;
      if fst r <? 0 then erase_loop t host_id disks (snd r) num_writes (fst r)
      else erase_loop t host_id disks (snd r) (num_writes + 1) error
  end.

Definition paxos_erase_dblock (t : token) (host_id : Z) : prog Z :=
  r ← erase_loop t host_id t.(t_disks) dblock_zero 0 (-1);
  if negb (majority_disks (num_disks t) (fst r)) then Ret (snd r) else Ret SANLK_OK.

(** The conversion runs on whatever [pd_end] holds, read or not. *)
Definition read_dblock (t : token) (disk : sync_disk) (host_id : Z) : prog (Z * paxos_dblock) :=
  pd_end ← call (CStack sizeof_paxos_dblock);
  r ← read_sectors disk t.(t_sector_size) (u64 (2 + host_id - 1)) 1 pd_end t.(t_io_timeout);
  Ret (fst r, paxos_dblock_in (snd r)).

Definition verify_dblock (pd : paxos_dblock) (checksum : Z) : Z :=
  if (pd.(pd_checksum) =? 0) && (pd.(pd_mbal) =? 0) && (pd.(pd_bal) =? 0) &&
     (pd.(pd_inp) =? 0) && (pd.(pd_lver) =? 0) then SANLK_OK
  else if negb (pd.(pd_checksum) =? checksum) then SANLK_DBLOCK_CHECKSUM
  else SANLK_OK.

(** ** Leader blocks *)

Definition write_leader (t : token) (disk : sync_disk) (lr : leader_record)
    : prog (Z * leader_record) :=
  let lr_end := leader_image lr lr_end0 in
  let lr := lr_with_checksum (leader_sum lr lr_end0) lr in
  rv ← write_sector disk t.(t_sector_size) 0 lr_end t.(t_io_timeout);
  Ret (rv, lr).

Definition paxos_lease_leader_clobber (t : token) (leader : leader_record)
    : prog (Z * leader_record) :=
  let lr_end := leader_image leader lr_end0 in
  let leader := lr_with_checksum (leader_sum leader lr_end0) leader in
  disk ← disk0 t;
  rv ← write_sector disk t.(t_sector_size) 0 lr_end t.(t_io_timeout);
  Ret (rv, leader).

(** The record and the checksum are assigned, from whatever [lr_end] holds,
    unless the sector size is zero; [lr] and [checksum] are their values
    before the call. *)
Definition read_leader (t : token) (disk : sync_disk) (lr : leader_record) (checksum : Z)
    : prog (Z * leader_record * Z) :=
  if t.(t_sector_size) =? 0 then Ret (- EINVAL, lr, checksum)
  else
    lr_end ← call (CStack sizeof_leader_record);
    r ← read_sectors disk t.(t_sector_size) 0 1 lr_end t.(t_io_timeout);
    Ret (fst r, leader_record_in (snd r), leader_checksum (snd r)).

(** ** Mode blocks *)

Definition set_id_bit (host_id : Z) (bitmap : list Z) : list Z :=
  let i := Z.to_nat (Z.quot (host_id - 1) 8) in
  let bit := Z.rem (host_id - 1) 8 in
  match bitmap !! i with
  | Some b => <[i := Z.lor b (Z.shiftl 1 bit)]> bitmap
  | None => bitmap
  end.

Definition test_id_bit (host_id : Z) (bitmap : list Z) : Z :=
  let i := Z.to_nat (Z.quot (host_id - 1) 8) in
  let bit := Z.rem (host_id - 1) 8 in
  Z.land (nth i bitmap 0) (Z.shiftl 1 bit).

(** [dblock_buf + MBLOCK_OFFSET] as an offset into the io buffer. *)
Definition check_mode_block (t : token) (q : Z) (iobuf_len : Z) (iobuf : mem) (dblock_off : Z)
    : prog token :=
  mb_end ← buf_get iobuf_len iobuf (dblock_off + MBLOCK_OFFSET) (Z.of_nat sizeof_mode_block);
  let mb := mode_block_in mb_end in
  if has_flag mb.(mb_flags) MBLOCK_SHARED then
    if Z.of_nat HOSTID_BITMAP_SIZE * 8 <=? q then Ub
    else Ret (with_shared (i32 (t.(t_shared_count) + 1))
                (set_id_bit (q + 1) t.(t_shared_bitmap)) t)
  else Ret t.

(** ** Rounding up *)

(** One smearing step: after it, bit [i] tells of the [2 n] bits from [i] up. *)
Definition smeared (x : Z) (n : Z) (y : Z) : Prop :=
  0 <= y /\ forall i, 0 <= i ->
    Z.testbit y i = true <-> exists j, 0 <= j < n /\ Z.testbit x (i + j) = true.

Lemma smeared_step x n y :
  0 <= n -> smeared x n y -> smeared x (2 * n) (Z.lor y (Z.shiftr y n)).
Proof.
  intros Hn [Hy H]. split.
  { apply Z.lor_nonneg. split; [done|]. by apply Z.shiftr_nonneg. }
  intros i Hi. rw Z.lor_spec Z.shiftr_spec; [done|]. rw orb_true_iff !H; [lia..|]. split.
  - intros [[j [? E]]|[j [? E]]].
    + exists j. split; [lia|done].
    + exists (n + j). split; [lia|]. by replace (i + (n + j)) with (i + n + j) by lia.
  - intros [j [? E]]. destruct (Z.lt_ge_cases j n).
    + left. exists j. split; [lia|done].
    + right. exists (j - n). split; [lia|]. by replace (i + n + (j - n)) with (i + j) by lia.
Qed.

Lemma smeared_all x n y : 0 < x < 2 ^ n -> 0 <= n -> smeared x n y -> y = 2 ^ (Z.log2 x + 1) - 1.
Proof.
  intros Hx Hn [Hy H]. apply Z.bits_inj'. intros i Hi.
  replace (2 ^ (Z.log2 x + 1) - 1) with (Z.ones (Z.log2 x + 1)) by (rw Z.ones_equiv; lia).
  pose proof (Z.log2_nonneg x). pose proof (Z.bit_log2 x ltac:(lia)) as Htop.
  assert (Z.log2 x < n) by (apply Z.log2_lt_pow2; lia).
  apply Bool.eq_iff_eq_true. rw H //. destruct (Z.lt_ge_cases i (Z.log2 x + 1)).
  - rw Z.ones_spec_low; [lia|]. split; [done|]. intros _.
    exists (Z.log2 x - i). split; [lia|]. by replace (i + (Z.log2 x - i)) with (Z.log2 x) by lia.
  - rw Z.ones_spec_high; [lia|]. split; [|done]. intros [j [? E]].
    rw Z.bits_above_log2 in E; [lia..|done].
Qed.

Lemma roundup_pow2 v :
  1 <= v <= 2 ^ 31 -> roundup_power_of_two v = 2 ^ Z.log2_up v.
Proof.
  intros Hv. assert (v = 1 \/ 1 < v) as [->|Hv1] by lia; [done|].
  unfold roundup_power_of_two. rw [u32 (v - 1)]wrapu_small; [unfold is_u; lia|].
  set (x := v - 1). assert (Hx : 0 < x < 2 ^ 31) by lia.
  assert (H1 : smeared x 1 x).
  { split; [lia|]. intros i Hi. split.
    - intros E. exists 0. split; [lia|]. by rw Z.add_0_r.
    - intros [j [? E]]. replace j with 0 in E by lia. by rw Z.add_0_r in E. }
  apply (smeared_step _ 1) in H1; [|lia]. apply (smeared_step _ 2) in H1; [|lia].
  apply (smeared_step _ 4) in H1; [|lia]. apply (smeared_step _ 8) in H1; [|lia].
  apply (smeared_step _ 16) in H1; [|lia]. apply smeared_all in H1; [|lia..].
  rw H1. clear H1. rw Z.log2_up_eqn; [done|]. replace (Z.pred v) with x by lia.
  replace (Z.succ (Z.log2 x)) with (Z.log2 x + 1) by lia.
  replace (2 ^ (Z.log2 x + 1) - 1 + 1) with (2 ^ (Z.log2 x + 1)) by lia.
  apply wrapu_small. split; [apply Z.pow_nonneg; lia|].
  apply Z.pow_lt_mono_r; [lia..|]. assert (Z.log2 x < 31) by (apply Z.log2_lt_pow2; lia). lia.
Qed.

Lemma roundup_bounds v : 1 <= v <= 2 ^ 31 -> v <= roundup_power_of_two v < 2 * v.
Proof.
  intros H. rw roundup_pow2 //.
  assert (v = 1 \/ 1 < v) as [->|Hv1] by lia; [done|].
  pose proof (Z.log2_up_spec v Hv1).  pose proof (Z.log2_up_pos v Hv1).
  replace (Z.log2_up v) with (Z.pred (Z.log2_up v) + 1) by lia. rw Z.pow_add_r; [lia..|].
  replace (2 ^ Z.log2_up v) with (2 ^ (Z.pred (Z.log2_up v) + 1)) in H0 by (f_equal; lia).
  rw Z.pow_add_r in H0; lia.
Qed.

(** [roundup_power_of_two] is the least power of two that is not below its
    argument, for every argument up to 2^31 (where the result still fits). *)
Theorem roundup_power_of_two_least v :
  1 <= v <= 2 ^ 31 ->
  v <= roundup_power_of_two v < 2 * v /\
  (exists k, 0 <= k /\ roundup_power_of_two v = 2 ^ k) /\
  (forall m, 0 <= m -> v <= 2 ^ m -> roundup_power_of_two v <= 2 ^ m).
Proof.
  intros H. split; [by apply roundup_bounds|]. rw roundup_pow2 //. split.
  - exists (Z.log2_up v). split; [apply Z.log2_up_nonneg|done].
  - intros m Hm Hv. apply Z.pow_le_mono_r; [lia|]. apply Z.log2_up_le_pow2; lia.
Qed.

Lemma roundup_power_of_two_least_witness :
  roundup_power_of_two 2002 = 2048 /\ 2002 <= roundup_power_of_two 2002 < 2 * 2002.
Proof. split; [by vm_compute|]. apply (roundup_power_of_two_least 2002). lia. Defined.

(** ** Writing and reading dblocks *)

#[local] Opaque Crc32c.crc32c.

(** The block with the checksum that a write sets. *)
Definition sealed (pd : paxos_dblock) : paxos_dblock :=
  pd_with_checksum (dblock_sum pd pd_end0) pd.

Lemma mem_of_image pd :
  paxos_dblock_ok pd ->
  mem_read (mem_of (dblock_image pd pd_end0)) 0 sizeof_paxos_dblock = dblock_image pd pd_end0.
Proof. intros Hok. rw -{1}(length_dblock_image pd pd_end0); [done..|]. apply mem_read_of. Qed.

(** The mode block that a write of a dblock leaves in its sector. *)
Definition written_mode (t : token) : mode_block :=
  if has_flag t.(t_flags) T_WRITE_DBLOCK_MBLOCK_SH
  then ModeBlock MBLOCK_SHARED t.(t_host_generation) else ModeBlock 0 0.

Lemma run_write_dblock w t d h pd :
  reliable w -> t.(t_sector_size) = 512 \/ t.(t_sector_size) = 4096 ->
  1 <= h < 2 ^ 32 -> is_u 64 t.(t_host_generation) ->
  is_u 64 (d.(sd_offset) + (2 + h - 1) * t.(t_sector_size)) -> paxos_dblock_ok pd ->
  exists m,
    run world_handler (write_dblock t d h pd) w =
      (Some (0, sealed pd),
       world_put w d.(sd_fd) (d.(sd_offset) + (2 + h - 1) * t.(t_sector_size)) t.(t_sector_size) m) /\
    mem_read m 0 sizeof_paxos_dblock = dblock_image pd pd_end0 /\
    mode_block_in (mem_read m MBLOCK_OFFSET sizeof_mode_block) = written_mode t.
Proof.
  intros Hw Hss Hh Hg Hoff Hok. unfold write_dblock, written_mode. destruct (has_flag _ _).
  - unfold write_dblock_mblock_sh. destruct (Z.eqb_spec t.(t_sector_size) 0); [lia|].
    rw run_bind run_memalign //. cbn [nz fst snd Z.eqb negb]. rw run_bind. cbn [run call world_handler].
    destruct (Z.ltb_spec t.(t_sector_size) (MBLOCK_OFFSET + Z.of_nat sizeof_mode_block)) as [H|_].
    { change (MBLOCK_OFFSET + Z.of_nat sizeof_mode_block) with 144 in H. lia. }
    rw run_bind [u64 _]wrapu_small // run_write_iobuf //. eexists. split; [done|]. split.
    + rw mem_read_put_other; [left; by vm_compute|].
      rw -{1}(length_dblock_image pd pd_end0); [done..|]. apply mem_read_put.
    + set (mb := mode_block_out _ _).
      assert (Hl : length mb = sizeof_mode_block).
      { apply mode_block_out_length; [|by rw length_replicate]. by split. }
      rw -Hl mem_read_put -(app_nil_r mb). unfold mb. rw mode_block_in_out //.
      apply Forall_replicate. by vm_compute.
  - rw run_bind. assert (u64 (2 + h - 1) = 2 + h - 1) as -> by (apply wrapu_small; unfold is_u; lia).
    rw run_write_sector //.
    { rw length_dblock_image; [done..|]. change (Z.of_nat sizeof_paxos_dblock) with 56. lia. }
    eexists. split; [done|]. split; [by apply mem_of_image|].
    rw (mem_read_ext _ mem_zero MBLOCK_OFFSET 0); [|by vm_compute].
    intros i Hi. unfold mem_of. destruct (Z.ltb_spec (MBLOCK_OFFSET + i) 0); [done|].
    rw nth_overflow //. rw length_dblock_image //. unfold MBLOCK_OFFSET, sizeof_paxos_dblock. lia.
Qed.

Lemma run_read_dblock w t d h :
  reliable w -> t.(t_sector_size) = 512 \/ t.(t_sector_size) = 4096 -> 1 <= h < 2 ^ 32 ->
  is_u 64 (d.(sd_offset) + (2 + h - 1) * t.(t_sector_size)) ->
  run world_handler (read_dblock t d h) w =
    (Some (0, paxos_dblock_in (mem_read (w.(w_dev) d.(sd_fd))
       (d.(sd_offset) + (2 + h - 1) * t.(t_sector_size)) sizeof_paxos_dblock)), w).
Proof.
  intros Hw Hss Hh Hoff. unfold read_dblock. rw run_bind. cbn [run call world_handler].
  assert (u64 (2 + h - 1) = 2 + h - 1) as -> by (apply wrapu_small; unfold is_u; lia).
  rw run_bind run_read_sectors //.
  rw length_replicate. change (Z.of_nat sizeof_paxos_dblock) with 56. lia.
Qed.

(** A dblock that is written is read back, checksum included, and verifies;
    the blocks of the other hosts are as before; and the sector's mode block
    says shared, with our generation, exactly when the token asks for it. *)
Theorem dblock_write_read w t d h h' pd :
  reliable w -> t.(t_sector_size) = 512 \/ t.(t_sector_size) = 4096 ->
  1 <= h < 2 ^ 32 -> 1 <= h' < 2 ^ 32 -> h <> h' -> is_u 64 t.(t_host_generation) ->
  0 <= d.(sd_offset) < 2 ^ 63 -> paxos_dblock_ok pd ->
  exists w',
    run world_handler (write_dblock t d h pd) w = (Some (0, sealed pd), w') /\
    run world_handler (read_dblock t d h) w' = (Some (0, sealed pd), w') /\
    verify_dblock (sealed pd) (dblock_sum pd pd_end0) = SANLK_OK /\
    fst (run world_handler (read_dblock t d h') w') = fst (run world_handler (read_dblock t d h') w) /\
    mode_block_in (mem_read (w'.(w_dev) d.(sd_fd))
      (d.(sd_offset) + (2 + h - 1) * t.(t_sector_size) + MBLOCK_OFFSET) sizeof_mode_block)
      = written_mode t.
Proof.
  intros Hw Hss Hh Hh' Hne Hg Hd Hok.
  assert (Hoff : forall n, 1 <= n < 2 ^ 32 -> is_u 64 (d.(sd_offset) + (2 + n - 1) * t.(t_sector_size))).
  { intros n Hn. unfold is_u. nia. }
  destruct (run_write_dblock w t d h pd) as (m & Hr & Hm & Hmb); try done; [by apply Hoff|].
  set (off := d.(sd_offset) + (2 + h - 1) * t.(t_sector_size)) in *. set (ss := t.(t_sector_size)) in *.
  eexists. split; [exact Hr|].
  assert (Ed : w_dev (world_put w d.(sd_fd) off ss m) d.(sd_fd) = mem_write (w_dev w d.(sd_fd)) off ss m)
    by (unfold world_put; cbn [w_dev]; by rw Z.eqb_refl).
  assert (Hin : forall o n, 0 <= o -> o + Z.of_nat n <= ss ->
    mem_read (w_dev (world_put w d.(sd_fd) off ss m) d.(sd_fd)) (off + o) n = mem_read m o n).
  { intros o n Ho Hn. rw Ed mem_read_write; [lia..|]. by replace (off + o - off) with o by lia. }
  split; [|split; [|split]].
  - rw run_read_dblock //; [by apply Hoff|]. fold off.
    pose proof (Hin 0 sizeof_paxos_dblock ltac:(lia)
      ltac:(change (Z.of_nat sizeof_paxos_dblock) with 56; lia)) as H0.
    rw Z.add_0_r in H0. rw H0 Hm -(app_nil_r (dblock_image pd pd_end0)).
    by rw (proj1 (dblock_image_in pd pd_end0 [] Hok eq_refl (zeros_ok _))).
  - unfold verify_dblock, sealed. cbn. rw Z.eqb_refl. by destruct (_ && _).
  - rw !run_read_dblock //; [by apply Hoff..|]. cbn [fst]. rw Ed mem_read_write_disjoint //.
    change (Z.of_nat sizeof_paxos_dblock) with 56. fold ss. unfold off. fold ss. nia.
  - by rw Hin; [done|change (Z.of_nat sizeof_mode_block) with 16; unfold MBLOCK_OFFSET; lia|].
Qed.

Lemma dblock_write_read_witness :
  let w := World (fun _ => mem_zero) 0 [] [] 0 (fun _ => HostStatus 0 0 0 0 0 0 0 0 0 0 []) in
  let t := Token 3 5 10 T_WRITE_DBLOCK_MBLOCK_SH 512 1048576 0 [] [] [] [] 0 in
  let d := SyncDisk [] 1048576 512 4 in
  let pd := PaxosDblock 3 3 3 5 100 1 0 0 in
  exists w', run world_handler (write_dblock t d 3 pd) w = (Some (0, sealed pd), w').
Proof.
  intros w t d pd.
  destruct (dblock_write_read w t d 3 4 pd) as (w' & H & _); [by split|by left|lia|lia|lia| | | |by exists w'].
  - by vm_compute.
  - by vm_compute.
  - by repeat split.
Defined.

(** ** Host id bitmaps *)

Lemma id_bit_index h : 1 <= h -> exists i b, Z.quot (h - 1) 8 = i /\ Z.rem (h - 1) 8 = b /\
  h - 1 = 8 * i + b /\ 0 <= b < 8 /\ 0 <= i.
Proof.
  intros H. exists ((h - 1) / 8), ((h - 1) mod 8).
  rw Z.quot_div_nonneg; [lia..|]. rw Z.rem_mod_nonneg; [lia..|].
  pose proof (Z.div_mod (h - 1) 8 ltac:(lia)). pose proof (Z.mod_pos_bound (h - 1) 8 ltac:(lia)).
  repeat split; try lia.
Qed.

(** A bit test, as the code tells it from zero. *)
Lemma land_shiftl_testbit x b : 0 <= b -> (Z.land x (Z.shiftl 1 b) =? 0) = negb (Z.testbit x b).
Proof.
  intros Hb. rw Z.shiftl_1_l. pose proof (has_flag_bit x b Hb) as H. unfold has_flag in H.
  rw -H. by rw negb_involutive.
Qed.

(** The host id bitmap is a set: after [set_id_bit], the host's bit and no other
    has been added; it stays a bitmap of 256 bytes. *)
Lemma set_id_bit_spec h h' bitmap :
  1 <= h <= Z.of_nat HOSTID_BITMAP_SIZE * 8 -> 1 <= h' ->
  length bitmap = HOSTID_BITMAP_SIZE -> bytes_ok bitmap ->
  length (set_id_bit h bitmap) = HOSTID_BITMAP_SIZE /\ bytes_ok (set_id_bit h bitmap) /\
  nz (test_id_bit h' (set_id_bit h bitmap)) = (h' =? h) || nz (test_id_bit h' bitmap).
Proof.
  intros Hh Hh' Hl Hb. unfold HOSTID_BITMAP_SIZE in *.
  unfold set_id_bit, test_id_bit, nz.
  destruct (id_bit_index h ltac:(lia)) as (i & b & -> & -> & E & Hbit & Hi).
  destruct (id_bit_index h' ltac:(lia)) as (i' & b' & -> & -> & E' & Hbit' & Hi').
  assert (Hlt : (Z.to_nat i < length bitmap)%nat) by (rw Hl; lia).
  destruct (lookup_lt_is_Some_2 bitmap (Z.to_nat i) Hlt) as [x Hx]. rw Hx.
  pose proof (Forall_lookup_1 _ _ _ _ Hb Hx) as Hxb.
  split; [by rw length_insert|]. split.
  { apply Forall_insert; [done|]. apply is_u_lor; [lia|done|]. rw Z.shiftl_1_l.
    split; [apply Z.pow_nonneg; lia|]. apply Z.pow_lt_mono_r; lia. }
  rw !land_shiftl_testbit; [lia..|]. rw !negb_involutive !nth_lookup.
  destruct (decide (i = i')) as [<-|Hne].
  - rw list_lookup_insert_eq // Hx /= Z.lor_spec Z.shiftl_1_l Z.pow2_bits_eqb; [lia|].
    rw orb_comm. f_equal. apply Bool.eq_iff_eq_true. rw !Z.eqb_eq. lia.
  - rw list_lookup_insert_ne; [lia|]. assert ((h' =? h) = false) as -> by (apply Z.eqb_neq; lia). done.
Qed.
