(* ===== verification/PaxosBallot.v ===== *)
(** * The ballot: [run_ballot] ([src/src/paxos_lease.c])

    Disk Paxos for one lease version. Phase 1 writes our dblock with our mbal
    on every disk, then reads all hosts' dblocks; phase 2 writes the value
    chosen from what phase 1 saw, then reads again. The state a phase threads
    through its loops is the token (whose shared bits [check_mode_block]
    sets), the buffers that have not been lost to a timeout and, in phase 1,
    the block with the largest bal. *)

From S2P Require Import Prelude OnDisk SizeFlags Io PaxosBlocks.

(** ** One dblock of a phase *)

(** How a loop body leaves: [goto out] with an error, or on to the next turn. *)
Inductive flow (S : Type) :=
  | Abort (error : Z) (s : S)
  | Next (s : S).
Arguments Abort {S} _ _.
Arguments Next {S} _.

(** [bk_end], its checksum and [bk]: the dblock of host index [q] in a buffer. *)
Definition get_dblock (iobuf_len : Z) (iobuf : mem) (sector_size q : Z)
    : prog (paxos_dblock * Z) :=
  bk_end ← buf_get iobuf_len iobuf ((2 + q) * sector_size) (Z.of_nat sizeof_paxos_dblock);
  Ret (paxos_dblock_in bk_end, dblock_checksum bk_end).

Definition phase1_bk (dblock bk bk_max : paxos_dblock) : flow paxos_dblock :=
  if bk.(pd_lver) <? dblock.(pd_lver) then Next bk_max
  else if dblock.(pd_lver) <? bk.(pd_lver) then Abort SANLK_DBLOCK_LVER bk_max
  else if dblock.(pd_mbal) <? bk.(pd_mbal) then Abort SANLK_DBLOCK_MBAL bk_max
  else if bk.(pd_inp) =? 0 then Next bk_max
  else if bk.(pd_bal) =? 0 then Next bk_max
  else if bk_max.(pd_bal) <? bk.(pd_bal) then Next bk
  else Next bk_max.

Definition phase1_host (iobuf_len : Z) (iobuf : mem) (dblock : paxos_dblock) (q : Z)
    (bk_max : paxos_dblock) (t : token) : prog (flow paxos_dblock * token) :=
  b ← get_dblock iobuf_len iobuf t.(t_sector_size) q;
  if verify_dblock (fst b) (snd b) <? 0 then Ret (Next bk_max, t)
  else
    t ← check_mode_block t q iobuf_len iobuf ((2 + q) * t.(t_sector_size));
    Ret (phase1_bk dblock (fst b) bk_max, t).

Fixpoint phase1_hosts (iobuf_len : Z) (iobuf : mem) (dblock : paxos_dblock) (n : nat) (q : Z)
    (bk_max : paxos_dblock) (t : token) : prog (flow paxos_dblock * token) :=
  match n with
  | O => Ret (Next bk_max, t)
  | S n =>
      r ← phase1_host iobuf_len iobuf dblock q bk_max t;
      match fst r with
      | Abort e m => Ret (Abort e m, snd r)
      | Next m => phase1_hosts iobuf_len iobuf dblock n (q + 1) m (snd r)
      end
  end.

Definition phase2_bk (dblock bk : paxos_dblock) : flow unit :=
  if bk.(pd_lver) <? dblock.(pd_lver) then Next tt
  else if dblock.(pd_lver) <? bk.(pd_lver) then Abort SANLK_DBLOCK_LVER tt
  else if dblock.(pd_mbal) <? bk.(pd_mbal) then Abort SANLK_DBLOCK_MBAL tt
  else Next tt.

Fixpoint phase2_hosts (iobuf_len : Z) (iobuf : mem) (sector_size : Z) (dblock : paxos_dblock)
    (n : nat) (q : Z) : prog (flow unit) :=
  match n with
  | O => Ret (Next tt)
  | S n =>
      b ← get_dblock iobuf_len iobuf sector_size q;
      match (if verify_dblock (fst b) (snd b) <? 0 then Next tt
             else phase2_bk dblock (fst b)) with
      | Abort e _ => Ret (Abort e tt)
      | Next _ => phase2_hosts iobuf_len iobuf sector_size dblock n (q + 1)
      end
  end.

(** ** Loops over the disks *)

(** [write_dblock] of our block on every disk: the number of writes that
    succeeded and the block with the checksum the writes set. *)
Fixpoint write_dblocks (t : token) (disks : list sync_disk) (dblock : paxos_dblock)
    (num_writes : Z) : prog (Z * paxos_dblock) :=
  match disks with
  | [] => Ret (num_writes, dblock)
  | d :: disks =>
      r ← write_dblock t d t.(t_host_id) dblock;
      write_dblocks t disks (snd r) (if fst r <? 0 then num_writes else num_writes + 1)
  end.

(** [iobuf[d]] is a live buffer ([true]) or was set to NULL by a timeout. *)
Fixpoint phase1_disks (iobuf_len : Z) (dblock : paxos_dblock) (num_hosts : nat)
    (disks : list (sync_disk * bool)) (num_reads : Z) (bk_max : paxos_dblock) (t : token)
    : prog (flow (Z * paxos_dblock) * list bool * token) :=
  match disks with
  | [] => Ret (Next (num_reads, bk_max), [], t)
  | (disk, live) :: disks =>
      if negb live then
        r ← phase1_disks iobuf_len dblock num_hosts disks num_reads bk_max t;
        Ret (fst (fst r), false :: snd (fst r), snd r)
      else
        rd ← read_iobuf disk.(sd_fd) disk.(sd_offset) iobuf_len t.(t_io_timeout);
        let live := negb (fst rd =? SANLK_AIO_TIMEOUT) in
        if fst rd <? 0 then
          r ← phase1_disks iobuf_len dblock num_hosts disks num_reads bk_max t;
          Ret (fst (fst r), live :: snd (fst r), snd r)
        else
          h ← phase1_hosts iobuf_len (snd rd) dblock num_hosts 0 bk_max t;
          match fst h with
          | Abort e m => Ret (Abort e (num_reads + 1, m), live :: (snd <$> disks), snd h)
          | Next m =>
              r ← phase1_disks iobuf_len dblock num_hosts disks (num_reads + 1) m (snd h);
              Ret (fst (fst r), live :: snd (fst r), snd r)
          end
  end.

Fixpoint phase2_disks (t : token) (iobuf_len : Z) (dblock : paxos_dblock) (num_hosts : nat)
    (disks : list (sync_disk * bool)) (num_reads : Z) : prog (flow Z) :=
  match disks with
  | [] => Ret (Next num_reads)
  | (disk, live) :: disks =>
      if negb live then phase2_disks t iobuf_len dblock num_hosts disks num_reads
      else
        rd ← read_iobuf disk.(sd_fd) disk.(sd_offset) iobuf_len t.(t_io_timeout);
        if fst rd <? 0 then phase2_disks t iobuf_len dblock num_hosts disks num_reads
        else
          h ← phase2_hosts iobuf_len (snd rd) t.(t_sector_size) dblock num_hosts 0;
          match h with
          | Abort e _ => Ret (Abort e (num_reads + 1))
          | Next _ => phase2_disks t iobuf_len dblock num_hosts disks (num_reads + 1)
          end
  end.

(** The allocation loop: the first errno, or 0. *)
Fixpoint alloc_iobufs (iobuf_len : Z) (n : nat) : prog Z :=
  match n with
  | O => Ret 0
  | S n =>
      r ← call (CMemalign iobuf_len);
      if nz (fst r) then Ret (fst r) else alloc_iobufs iobuf_len n
  end.

(** ** [run_ballot] *)

(** The code after [out:]; [phase2] tells whether phase 2 was begun. *)
Definition ballot_out (phase2 : bool) (error : Z) (dblock : paxos_dblock) (t : token)
    : Z * paxos_dblock * token :=
  if phase2 && (error <? 0) && ((error =? SANLK_DBLOCK_READ) || (error =? SANLK_DBLOCK_WRITE))
  then (error, dblock, with_flags (Z.lor t.(t_flags) T_RETRACT_PAXOS) t)
  else (error, dblock, t).

(** The dblock of phase 2: the input of the block with the largest bal that
    phase 1 saw, else our own host id, generation and the current time. *)
Definition choose_inp (t : token) (dblock bk_max : paxos_dblock) : prog paxos_dblock :=
  if nz bk_max.(pd_inp) then
    Ret (PaxosDblock dblock.(pd_mbal) dblock.(pd_mbal) bk_max.(pd_inp) bk_max.(pd_inp2)
           bk_max.(pd_inp3) dblock.(pd_lver) 0 dblock.(pd_flags))
  else
    now ← call CMonotime;
    Ret (PaxosDblock dblock.(pd_mbal) dblock.(pd_mbal) t.(t_host_id) t.(t_host_generation)
           now dblock.(pd_lver) 0 dblock.(pd_flags)).

(** From "phase 2" on, with the buffers phase 1 left live. *)
Definition run_phase2 (t : token) (iobuf_len : Z) (num_hosts : nat) (dblock : paxos_dblock)
    (live : list bool) : prog (Z * paxos_dblock * token) :=
  w ← write_dblocks t t.(t_disks) dblock 0;
  let dblock := snd w in
  if negb (majority_disks (num_disks t) (fst w)) then
    Ret (ballot_out true SANLK_DBLOCK_WRITE dblock t)
  else
    r ← phase2_disks t iobuf_len dblock num_hosts (zip t.(t_disks) live) 0;
    match r with
    | Abort e _ => Ret (ballot_out true e dblock t)
    | Next num_reads =>
        if negb (majority_disks (num_disks t) num_reads)
        then Ret (ballot_out true SANLK_DBLOCK_READ dblock t)
        else Ret (ballot_out true SANLK_OK dblock t)
    end.

Definition run_phase1 (t : token) (iobuf_len : Z) (num_hosts : nat) (next_lver our_mbal : Z)
    : prog (Z * paxos_dblock * token) :=
  let dblock := PaxosDblock our_mbal 0 0 0 0 next_lver 0 0 in
  w ← write_dblocks t t.(t_disks) dblock 0;
  let dblock := snd w in
  if negb (majority_disks (num_disks t) (fst w)) then
    Ret (ballot_out false SANLK_DBLOCK_WRITE dblock t)
  else
    r ← phase1_disks iobuf_len dblock num_hosts (zip t.(t_disks) (replicate (length t.(t_disks)) true))
          0 dblock_zero t;
    let '(res, live, t) := r in
    match res with
    | Abort e _ => Ret (ballot_out false e dblock t)
    | Next (num_reads, bk_max) =>
        if negb (majority_disks (num_disks t) num_reads)
        then Ret (ballot_out false SANLK_DBLOCK_READ dblock t)
        else
          dblock ← choose_inp t dblock bk_max;
          run_phase2 t iobuf_len num_hosts dblock live
    end.

(** [dblock_out] is what the destination held before the call: the early
    returns do not assign it. *)
Definition run_ballot (t : token) (num_hosts next_lver our_mbal : Z) (dblock_out : paxos_dblock)
    : prog (Z * paxos_dblock * token) :=
  let sector_count := i32 (roundup_power_of_two (u32 (num_hosts + 2))) in
  iobuf_len ← smul sector_count t.(t_sector_size);
  if iobuf_len =? 0 then Ret (- EINVAL, dblock_out, t)
  else
    rv ← alloc_iobufs iobuf_len (length t.(t_disks));
    if nz rv then Ret (rv, dblock_out, t)
    else run_phase1 t iobuf_len (Z.to_nat num_hosts) next_lver our_mbal.
