(* ===== verification/PaxosLease.v ===== *)
(** * Paxos leases ([src/src/paxos_lease.c], second part)

    Reading and verifying the leader record on one or several disks, reading a
    whole lease area, acquiring, releasing and formatting a lease. The labels
    of [paxos_lease_acquire] (restart, the wait loop, run, retry_ballot) are
    the states of a small machine driven with fuel; [None] is running out of
    it, which the code, that loops until it is done, never does. *)

From S2P Require Import Prelude OnDisk SizeFlags Timeouts Io DeltaLease PaxosBlocks PaxosBallot.

(** ** Constants *)

Definition PAXOS_DISK_MAGIC : Z := 0x06152010.
Definition PAXOS_DISK_CLEAR : Z := 0x11282016.
Definition PAXOS_DISK_VERSION_MAJOR : Z := 0x00060000.
Definition PAXOS_DISK_VERSION_MINOR : Z := 0x00000004.
Definition REQ_DISK_MAGIC : Z := 0x08292011.
Definition REQ_DISK_VERSION_MAJOR : Z := 0x00010000.
Definition REQ_DISK_VERSION_MINOR : Z := 0x00000001.
Definition LFL_SHORT_HOLD : Z := 0x1.

Definition PAXOS_ACQUIRE_FORCE : Z := 0x1.
Definition PAXOS_ACQUIRE_SHARED : Z := 0x4.
Definition PAXOS_ACQUIRE_OWNER_NOWAIT : Z := 0x8.

Definition SANLK_ACQUIRE_LVER : Z := -240.
Definition SANLK_ACQUIRE_LOCKSPACE : Z := -241.
Definition SANLK_ACQUIRE_IDDISK : Z := -242.
Definition SANLK_ACQUIRE_IDLIVE : Z := -243.
Definition SANLK_ACQUIRE_OWNED : Z := -244.
Definition SANLK_ACQUIRE_OTHER : Z := -245.
Definition SANLK_ACQUIRE_OWNED_RETRY : Z := -247.
Definition SANLK_RELEASE_LVER : Z := -250.
Definition SANLK_RELEASE_OWNER : Z := -251.

(** ** Verifying a leader *)

(** The checks, in order. *)
Definition check_leader (t : token) (lr : leader_record) (checksum : Z) : Z :=
  if negb (lr.(lr_magic) =? PAXOS_DISK_MAGIC) then SANLK_LEADER_MAGIC
  else if negb (Z.land lr.(lr_version) 0xFFFF0000 =? PAXOS_DISK_VERSION_MAJOR) then SANLK_LEADER_VERSION
  else if negb (strncmp_eq NAME_ID_SIZE lr.(lr_space_name) t.(t_lockspace_name)) then SANLK_LEADER_LOCKSPACE
  else if negb (strncmp_eq NAME_ID_SIZE lr.(lr_resource_name) t.(t_name)) then SANLK_LEADER_RESOURCE
  else if lr.(lr_num_hosts) <? t.(t_host_id) then SANLK_LEADER_NUMHOSTS
  else if negb (lr.(lr_checksum) =? checksum) then SANLK_LEADER_CHECKSUM
  else SANLK_OK.

(** A failure is logged, with the leader sector read again for the log. *)
Definition _verify_leader (t : token) (disk : sync_disk) (lr : leader_record) (checksum : Z)
    (print_error : bool) : prog Z :=
  if lr.(lr_magic) =? PAXOS_DISK_CLEAR then Ret SANLK_LEADER_MAGIC
  else
    let result := check_leader t lr checksum in
    if result =? SANLK_OK then Ret SANLK_OK
    else if negb print_error then Ret result
    else
      _ ← read_sectors disk t.(t_sector_size) 0 1 (zeros sizeof_leader_record) 1;
      Ret result.

Definition verify_leader (t : token) (disk : sync_disk) (lr : leader_record) (checksum : Z) : prog Z :=
  _verify_leader t disk lr checksum true.

Definition verify_leader_no_error (t : token) (disk : sync_disk) (lr : leader_record) (checksum : Z)
    : prog Z := _verify_leader t disk lr checksum false.

Definition paxos_verify_leader (t : token) (disk : sync_disk) (lr : leader_record) (checksum : Z)
    : prog Z := verify_leader t disk lr checksum.

(** [memcmp] of the first LEADER_COMPARE_LEN bytes: every field before the
    timestamp. *)
Definition leaders_match (a b : leader_record) : bool :=
  (a.(lr_magic) =? b.(lr_magic)) && (a.(lr_version) =? b.(lr_version)) &&
  (a.(lr_flags) =? b.(lr_flags)) && (a.(lr_sector_size) =? b.(lr_sector_size)) &&
  (a.(lr_num_hosts) =? b.(lr_num_hosts)) && (a.(lr_max_hosts) =? b.(lr_max_hosts)) &&
  (a.(lr_owner_id) =? b.(lr_owner_id)) && (a.(lr_owner_generation) =? b.(lr_owner_generation)) &&
  (a.(lr_lver) =? b.(lr_lver)) &&
  bool_decide (a.(lr_space_name) = b.(lr_space_name)) &&
  bool_decide (a.(lr_resource_name) = b.(lr_resource_name)).

(** ** [paxos_read_resource] and [paxos_read_buf] *)

Record sanlk_resource := Resource {
  sr_lockspace_name : list Z;
  sr_name : list Z;
  sr_lver : Z;
  sr_flags : Z
}.

(** The resource after a verified read. *)
Definition found_resource (leader : leader_record) (res : sanlk_resource) : sanlk_resource :=
  Resource (poke 0 leader.(lr_space_name) res.(sr_lockspace_name))
    (poke 0 leader.(lr_resource_name) res.(sr_name)) leader.(lr_lver) res.(sr_flags).

Definition paxos_read_resource (t : token) (res : sanlk_resource)
    : prog (Z * token * sanlk_resource) :=
  let tmp_sector_size := t.(t_sector_size) =? 0 in
  let t := if tmp_sector_size then with_sizes 4096 (sector_size_to_align_size_old 4096) t else t in
  disk ← disk0 t;
  r ← read_leader t disk leader_zero 0;
  let '(rv, leader, checksum) := r in
  if rv <? 0 then Ret (rv, t, res)
  else
    let sp := if nth 0 res.(sr_lockspace_name) 0 =? 0
              then poke 0 leader.(lr_space_name) t.(t_lockspace_name) else t.(t_lockspace_name) in
    let nm := if nth 0 res.(sr_name) 0 =? 0
              then poke 0 leader.(lr_resource_name) t.(t_name) else t.(t_name) in
    let t := with_names sp nm t in
    rv ← (if has_flag t.(t_flags) T_CHECK_EXISTS then
            Ret (if negb (leader.(lr_magic) =? PAXOS_DISK_MAGIC) then SANLK_LEADER_MAGIC else SANLK_OK)
          else verify_leader_no_error t disk leader checksum);
    if negb (rv =? SANLK_OK) then Ret (rv, t, res)
    else
      let res := found_resource leader res in
      if (leader.(lr_sector_size) =? 512) || (leader.(lr_sector_size) =? 4096) then
        let align_size := leader_align_size leader in
        let flags := sanlk_res_align_flags_clear (sanlk_res_sector_flags_clear res.(sr_flags)) in
        let flags := Z.lor flags (sanlk_res_sector_size_to_flag leader.(lr_sector_size)) in
        let flags := Z.lor flags (sanlk_res_align_size_to_flag align_size) in
        Ret (rv, with_sizes leader.(lr_sector_size) align_size t,
             Resource res.(sr_lockspace_name) res.(sr_name) res.(sr_lver) flags)
      else if tmp_sector_size then Ret (rv, with_sizes 0 0 t, res)
      else Ret (rv, t, res).

(** Returns the code and [*buf_out] ([None]: not assigned). *)
Definition paxos_read_buf (t : token) : prog (Z * option mem) :=
  disk ← disk0 t;
  if (t.(t_sector_size) =? 0) || (t.(t_align_size) =? 0) then Ret (- EINVAL, None)
  else
    let iobuf_len := t.(t_align_size) in
    if iobuf_len <? 0 then Ret (iobuf_len, None)
    else
      r ← call (CMemalign iobuf_len);
      if nz (fst r) then Ret (fst r, None)
      else
        r ← read_iobuf disk.(sd_fd) disk.(sd_offset) iobuf_len t.(t_io_timeout);
        Ret (fst r, Some (snd r)).

(** ** Reading the leader *)

Definition _leader_read_one (t : token) (leader_ret : leader_record) : prog (Z * leader_record) :=
  disk ← disk0 t;
  r ← read_leader t disk leader_zero 0;
  let '(rv, leader, checksum) := r in
  if rv <? 0 then Ret (rv, leader_ret)
  else rv ← verify_leader t disk leader checksum; Ret (rv, leader).

(** The index of the first of [leaders[0..d-1]] that matches [l]. *)
Fixpoint first_match (l : leader_record) (leaders : list leader_record) (d : nat) : option nat :=
  match d, leaders with
  | S d, l' :: leaders =>
      if leaders_match l l' then Some O else option_map S (first_match l leaders d)
  | _, _ => None
  end.

(** Counting one more good leader read from disk [d]: [leader_reps[d] = 1], and
    one more for the first earlier disk that has the same leader. *)
Definition count_leader (leaders : list leader_record) (d : nat) (reps : list Z) : list Z :=
  let reps := <[d := 1]> reps in
  match leaders !! d with
  | Some l =>
      match first_match l leaders d with
      | Some i => alter (Z.add 1) i reps
      | None => reps
      end
  | None => reps
  end.

(** The loop over the disks of [_leader_read_num], from disk [d] on. *)
Fixpoint leader_read_loop (t : token) (disks : list sync_disk) (d : nat)
    (leaders : list leader_record) (reps : list Z) (num_reads : Z)
    : prog (list leader_record * list Z * Z) :=
  match disks with
  | [] => Ret (leaders, reps, num_reads)
  | disk :: disks =>
      r ← read_leader t disk (nth d leaders leader_zero) 0;
      let '(rv, leader, checksum) := r in
      let leaders := <[d := leader]> leaders in
      if rv <? 0 then leader_read_loop t disks (S d) leaders reps num_reads
      else
        rv ← verify_leader t disk leader checksum;
        if rv <? 0 then leader_read_loop t disks (S d) leaders reps num_reads
        else leader_read_loop t disks (S d) leaders (count_leader leaders d reps) (num_reads + 1)
  end.

(** The first disk whose leader is repeated on a majority of the disks. *)
Fixpoint majority_leader (num_disks : Z) (leaders : list leader_record) (reps : list Z)
    : option leader_record :=
  match leaders, reps with
  | l :: leaders, r :: reps =>
      if majority_disks num_disks r then Some l else majority_leader num_disks leaders reps
  | _, _ => None
  end.

(** The two arrays: [false] when an allocation fails. *)
Definition alloc_arrays (n : nat) : prog bool :=
  ok ← call (CMalloc (Z.of_nat n * Z.of_nat sizeof_leader_record));
  if negb ok then Ret false else call (CMalloc (Z.of_nat n * 4)).

Definition _leader_read_num (t : token) (leader_ret : leader_record) : prog (Z * leader_record) :=
  let n := length t.(t_disks) in
  ok ← alloc_arrays n;
  if negb ok then Ret (- ENOMEM, leader_ret) else
  r ← leader_read_loop t t.(t_disks) 0 (replicate n leader_zero) (replicate n 0) 0;
  let '(leaders, reps, num_reads) := r in
  if negb (majority_disks (num_disks t) num_reads) then Ret (SANLK_LEADER_READ, leader_zero)
  else match majority_leader (num_disks t) leaders reps with
       | None => Ret (SANLK_LEADER_DIFF, leader_zero)
       | Some l => Ret (SANLK_OK, l)
       end.

Definition paxos_lease_leader_read (t : token) (leader_ret : leader_record)
    : prog (Z * leader_record) :=
  if 1 <? num_disks t then _leader_read_num t leader_ret else _leader_read_one t leader_ret.

(** ** Reading a lease area *)

(** The out parameters of a lease read. *)
Record lease_area := LeaseArea {
  la_leader : leader_record;
  la_our_dblock : paxos_dblock;
  la_max_mbal : Z;
  la_max_q : Z
}.

(** The loop over the hosts: the largest mbal and its host index. *)
Fixpoint max_mbal_loop (iobuf_len : Z) (iobuf : mem) (sector_size : Z) (n : nat) (q tmp_mbal tmp_q : Z)
    : prog (Z * (Z * Z)) :=
  match n with
  | O => Ret (SANLK_OK, (tmp_mbal, tmp_q))
  | S n =>
      bk_end ← buf_get iobuf_len iobuf (u32 ((2 + q) * sector_size)) (Z.of_nat sizeof_paxos_dblock);
      let bk := paxos_dblock_in bk_end in
      let rv := verify_dblock bk (dblock_checksum bk_end) in
      if rv <? 0 then Ret (rv, (tmp_mbal, tmp_q))
      else if (tmp_mbal =? 0) || (tmp_mbal <? bk.(pd_mbal))
      then max_mbal_loop iobuf_len iobuf sector_size n (q + 1) bk.(pd_mbal) q
      else max_mbal_loop iobuf_len iobuf sector_size n (q + 1) tmp_mbal tmp_q
  end.

Definition _lease_read_one (t : token) (disk : sync_disk) (o : lease_area) : prog (Z * lease_area) :=
  let host_id := u32 t.(t_host_id) in
  let sector_size := u32 t.(t_sector_size) in
  let iobuf_len := t.(t_align_size) in
  if iobuf_len <? 0 then Ret (iobuf_len, o)
  else
    r ← call (CMemalign iobuf_len);
    if nz (fst r) then Ret (fst r, o)
    else
      r ← read_iobuf disk.(sd_fd) disk.(sd_offset) iobuf_len t.(t_io_timeout);
      if fst r <? 0 then Ret (fst r, o)
      else
        let iobuf := snd r in
        leader_end ← buf_get iobuf_len iobuf 0 (Z.of_nat sizeof_leader_record);
        let checksum := leader_checksum leader_end in
        let leader := leader_record_in leader_end in
        our_end ← buf_get iobuf_len iobuf (u32 ((host_id + 1) * sector_size))
                    (Z.of_nat sizeof_paxos_dblock);
        let our_dblock := paxos_dblock_in our_end in
        rv ← verify_leader t disk leader checksum;
        if rv <? 0 then Ret (rv, LeaseArea leader our_dblock o.(la_max_mbal) o.(la_max_q))
        else
          m ← max_mbal_loop iobuf_len iobuf sector_size (Z.to_nat leader.(lr_num_hosts)) 0 0 (-1);
          if fst m <? 0 then Ret (fst m, LeaseArea leader our_dblock o.(la_max_mbal) o.(la_max_q))
          else
            Ret (fst m, LeaseArea leader our_dblock (fst (snd m)) (snd (snd m))).

(** The loop of [_lease_read_num]; [one] holds the per-disk locals, which keep
    their values from disk to disk, [acc] the running maximum with our dblock. *)
Fixpoint lease_read_loop (t : token) (disks : list sync_disk) (d : nat) (one : lease_area)
    (leaders : list leader_record) (reps : list Z) (num_reads rv tmp_mbal tmp_q : Z)
    (our : paxos_dblock)
    : prog (list leader_record * list Z * Z * Z * (Z * Z) * paxos_dblock) :=
  match disks with
  | [] => Ret (leaders, reps, num_reads, rv, (tmp_mbal, tmp_q), our)
  | disk :: disks =>
      r ← _lease_read_one t disk one;
      let '(rv, one) := r in
      if rv <? 0 then lease_read_loop t disks (S d) one leaders reps num_reads rv tmp_mbal tmp_q our
      else
        let better := (tmp_mbal =? 0) || (tmp_mbal <? one.(la_max_mbal)) in
        let leaders := <[d := one.(la_leader)]> leaders in
        lease_read_loop t disks (S d) one leaders (count_leader leaders d reps) (num_reads + 1) rv
          (if better then one.(la_max_mbal) else tmp_mbal)
          (if better then one.(la_max_q) else tmp_q)
          (if better then one.(la_our_dblock) else our)
  end.

Definition _lease_read_num (t : token) (one o : lease_area) : prog (Z * lease_area) :=
  let n := length t.(t_disks) in
  ok ← alloc_arrays n;
  if negb ok then Ret (- ENOMEM, o) else
  r ← lease_read_loop t t.(t_disks) 0 one (replicate n leader_zero) (replicate n 0) 0 0 0 (-1)
        o.(la_our_dblock);
  let '(leaders, reps, num_reads, rv, (mbal, q), our) := r in
  if num_reads =? 0 then Ret (SANLK_DBLOCK_READ, LeaseArea o.(la_leader) our mbal q)
  else match majority_leader (num_disks t) leaders reps with
       | Some l => Ret (rv, LeaseArea l our mbal q)
       | None => Ret (SANLK_LEADER_DIFF, LeaseArea o.(la_leader) our mbal q)
       end.

(** [one] stands for the indeterminate locals of the multi-disk case. *)
Definition paxos_lease_read (t : token) (one o : lease_area) : prog (Z * lease_area) :=
  if 1 <? num_disks t then _lease_read_num t one o
  else disk ← disk0 t; _lease_read_one t disk o.

(** ** Writing a leader on every disk *)

(** Returns the number of writes, whether one timed out, the last code and the
    record with the checksum the writes set. *)
Fixpoint write_leaders (t : token) (disks : list sync_disk) (nl : leader_record)
    (num_writes : Z) (timeout : bool) (rv : Z) : prog (Z * bool * Z * leader_record) :=
  match disks with
  | [] => Ret (num_writes, timeout, rv, nl)
  | d :: disks =>
      w ← write_leader t d nl;
      write_leaders t disks (snd w) (if fst w <? 0 then num_writes else num_writes + 1)
        (timeout || (fst w =? SANLK_AIO_TIMEOUT)) (fst w)
  end.

Definition write_new_leader (t : token) (nl : leader_record) : prog (Z * leader_record) :=
  w ← write_leaders t t.(t_disks) nl 0 false 0;
  let '(num_writes, timeout, rv, nl) := w in
  if negb (majority_disks (num_disks t) num_writes) then
    if timeout : bool then Ret (SANLK_AIO_TIMEOUT, nl)
    else if rv <? 0 then Ret (rv, nl)
    else Ret (SANLK_LEADER_WRITE, nl)
  else Ret (SANLK_OK, nl).

(** ** Acquire *)

(** The variables of [paxos_lease_acquire] that live across its labels, and
    the caller's [*leader_ret] and [*dblock_ret]. [aq_host_disk] is the opened
    host id disk with its sector size ([disk_open]). *)
Record acq := Acq {
  aq_token : token;
  aq_cur : leader_record;
  aq_tmp : leader_record;
  aq_dblock : paxos_dblock;
  aq_max_mbal : Z;
  aq_next_lver : Z;
  aq_our_mbal : Z;
  aq_copy : bool;
  aq_host_disk : option (sync_disk * Z);
  aq_hs : host_status;
  aq_wait_start : Z;
  aq_last_timestamp : Z;
  aq_host_leader : leader_record;
  aq_leader_ret : leader_record;
  aq_dblock_ret : paxos_dblock
}.

Definition aq_set_token t a := Acq t a.(aq_cur) a.(aq_tmp) a.(aq_dblock) a.(aq_max_mbal)
  a.(aq_next_lver) a.(aq_our_mbal) a.(aq_copy) a.(aq_host_disk) a.(aq_hs) a.(aq_wait_start)
  a.(aq_last_timestamp) a.(aq_host_leader) a.(aq_leader_ret) a.(aq_dblock_ret).
Definition aq_set_cur l m a := Acq a.(aq_token) l a.(aq_tmp) a.(aq_dblock) m
  a.(aq_next_lver) a.(aq_our_mbal) a.(aq_copy) a.(aq_host_disk) a.(aq_hs) a.(aq_wait_start)
  a.(aq_last_timestamp) a.(aq_host_leader) a.(aq_leader_ret) a.(aq_dblock_ret).
Definition aq_set_tmp l c a := Acq a.(aq_token) a.(aq_cur) l a.(aq_dblock) a.(aq_max_mbal)
  a.(aq_next_lver) a.(aq_our_mbal) c a.(aq_host_disk) a.(aq_hs) a.(aq_wait_start)
  a.(aq_last_timestamp) a.(aq_host_leader) a.(aq_leader_ret) a.(aq_dblock_ret).
Definition aq_set_ballot lv mb a := Acq a.(aq_token) a.(aq_cur) a.(aq_tmp) a.(aq_dblock)
  a.(aq_max_mbal) lv mb a.(aq_copy) a.(aq_host_disk) a.(aq_hs) a.(aq_wait_start)
  a.(aq_last_timestamp) a.(aq_host_leader) a.(aq_leader_ret) a.(aq_dblock_ret).
Definition aq_set_dblock t d a := Acq t a.(aq_cur) a.(aq_tmp) d a.(aq_max_mbal)
  a.(aq_next_lver) a.(aq_our_mbal) a.(aq_copy) a.(aq_host_disk) a.(aq_hs) a.(aq_wait_start)
  a.(aq_last_timestamp) a.(aq_host_leader) a.(aq_leader_ret) a.(aq_dblock_ret).
Definition aq_set_disk hd a := Acq a.(aq_token) a.(aq_cur) a.(aq_tmp) a.(aq_dblock) a.(aq_max_mbal)
  a.(aq_next_lver) a.(aq_our_mbal) a.(aq_copy) hd a.(aq_hs) a.(aq_wait_start)
  a.(aq_last_timestamp) a.(aq_host_leader) a.(aq_leader_ret) a.(aq_dblock_ret).
Definition aq_set_wait hs ws ts a := Acq a.(aq_token) a.(aq_cur) a.(aq_tmp) a.(aq_dblock)
  a.(aq_max_mbal) a.(aq_next_lver) a.(aq_our_mbal) a.(aq_copy) a.(aq_host_disk) hs ws ts
  a.(aq_host_leader) a.(aq_leader_ret) a.(aq_dblock_ret).
Definition aq_set_host_leader l a := Acq a.(aq_token) a.(aq_cur) a.(aq_tmp) a.(aq_dblock)
  a.(aq_max_mbal) a.(aq_next_lver) a.(aq_our_mbal) a.(aq_copy) a.(aq_host_disk) a.(aq_hs)
  a.(aq_wait_start) a.(aq_last_timestamp) l a.(aq_leader_ret) a.(aq_dblock_ret).
Definition aq_set_ret l d a := Acq a.(aq_token) a.(aq_cur) a.(aq_tmp) a.(aq_dblock) a.(aq_max_mbal)
  a.(aq_next_lver) a.(aq_our_mbal) a.(aq_copy) a.(aq_host_disk) a.(aq_hs) a.(aq_wait_start)
  a.(aq_last_timestamp) a.(aq_host_leader) l d.

Inductive label := LRestart | LWait | LRun | LRetryBallot.

(** A label's code ends at another label or at [out:] with an error code. *)
Inductive acq_next := Goto (l : label) (a : acq) | Out (error : Z) (a : acq).

Section acquire.
Context (com : command_line) (flags acquire_lver new_num_hosts : Z).

(** Whether the lease read is free or ours, so that no liveness check is needed. *)
Definition no_owner_wait (t : token) (cur : leader_record) : bool :=
  (cur.(lr_timestamp) =? LEASE_FREE) ||
  ((cur.(lr_owner_id) =? t.(t_host_id)) &&
   (cur.(lr_owner_generation) =? t.(t_host_generation))) ||
  ((cur.(lr_owner_id) =? t.(t_host_id)) &&
   (cur.(lr_owner_generation) <? t.(t_host_generation))).

(** From the opening of the host id disk to the wait loop. *)
Definition acquire_check_owner (a : acq) : prog acq_next :=
  let cur := a.(aq_cur) in
  o ← match a.(aq_host_disk) with
      | Some d => Ret (0, Some d)
      | None =>
          r ← call (CLockspaceDisk cur.(lr_space_name));
          let '(rv, disk, ss) := r in
          if rv <? 0 then Ret (SANLK_ACQUIRE_LOCKSPACE, None)
          else
            r ← call (COpenDisk disk);
            if fst r <? 0 then Ret (SANLK_ACQUIRE_IDDISK, None)
            else Ret (0, Some (SyncDisk disk.(sd_path) disk.(sd_offset) disk.(sd_sector_size) (snd r), ss))
      end;
  if fst o <? 0 then Ret (Out (fst o) a)
  else
    let a := aq_set_disk (snd o) a in
    r ← call (CHostInfo cur.(lr_space_name) cur.(lr_owner_id));
    let hs := if fst r =? 0 then snd r else a.(aq_hs) in
    if (fst r =? 0) && nz hs.(hs_last_check) && nz hs.(hs_last_live) &&
       (hs.(hs_owner_id) =? cur.(lr_owner_id)) &&
       (hs.(hs_owner_generation) =? cur.(lr_owner_generation))
    then Ret (Goto LWait (aq_set_wait hs hs.(hs_last_live) hs.(hs_timestamp) a))
    else
      now ← call CMonotime;
      Ret (Goto LWait (aq_set_wait hs now 0 a)).

(** [restart:] up to the wait loop; [one] as in [paxos_lease_read]. *)
Definition acquire_restart (one : lease_area) (a : acq) : prog acq_next :=
  let a := aq_set_tmp leader_zero false a in
  r ← paxos_lease_read a.(aq_token) one (LeaseArea a.(aq_cur) dblock_zero a.(aq_max_mbal) (-1));
  let a := aq_set_cur (snd r).(la_leader) (snd r).(la_max_mbal) a in
  if fst r <? 0 then Ret (Out (fst r) a)
  else
    let t := a.(aq_token) in
    let cur := a.(aq_cur) in
    let align_size := leader_align_size cur in
    if negb (cur.(lr_sector_size) =? u32 t.(t_sector_size)) || negb (align_size =? t.(t_align_size)) then
      Ret (Goto LRestart (aq_set_token (with_sizes (i32 cur.(lr_sector_size)) align_size t) a))
    else
      let copy := aq_set_tmp a.(aq_tmp) true a in
      if has_flag flags PAXOS_ACQUIRE_FORCE then Ret (Goto LRun copy)
      else if nz acquire_lver && negb (cur.(lr_lver) =? acquire_lver) then Ret (Out SANLK_ACQUIRE_LVER a)
      else if no_owner_wait t cur then Ret (Goto LRun copy)
      else acquire_check_owner a.

(** [skip_live_check:] to the end of the loop body. *)
Definition acquire_wait_next (a : acq) : prog acq_next :=
  _ ← call (CSleep 1);
  shut ← call CExternalShutdown;
  if shut : bool then Ret (Out (-1) a)
  else
    r ← paxos_lease_leader_read a.(aq_token) a.(aq_tmp);
    let a := aq_set_tmp (snd r) a.(aq_copy) a in
    if fst r <? 0 then Ret (Out (fst r) a)
    else if bool_decide (a.(aq_cur) = a.(aq_tmp)) then Ret (Goto LWait a)
    else Ret (Goto LRestart a).

(** One turn of the wait loop. *)
Definition acquire_wait (a : acq) : prog acq_next :=
  match a.(aq_host_disk) with
  | None => Ub
  | Some (host_id_disk, ls_sector_size) =>
      let t := a.(aq_token) in
      let cur := a.(aq_cur) in
      let hs := a.(aq_hs) in
      r ← delta_lease_leader_read ls_sector_size t.(t_io_timeout) host_id_disk cur.(lr_space_name)
            cur.(lr_owner_id) a.(aq_host_leader);
      let hl := snd r in
      let a := aq_set_host_leader hl a in
      if fst r <? 0 then Ret (Out (fst r) a)
      else if hl.(lr_timestamp) =? LEASE_FREE then Ret (Goto LRun a)
      else if negb (hl.(lr_owner_id) =? cur.(lr_owner_id)) ||
              (cur.(lr_owner_generation) <? hl.(lr_owner_generation)) then Ret (Goto LRun a)
      else if a.(aq_last_timestamp) =? 0 then
        acquire_wait_next (aq_set_wait hs a.(aq_wait_start) hl.(lr_timestamp) a)
      else if negb (hl.(lr_timestamp) =? a.(aq_last_timestamp)) ||
              (nz hs.(hs_last_live) && (hs.(hs_last_check) =? hs.(hs_last_live))) then
        let a := aq_set_ret cur a.(aq_dblock_ret) a in
        if negb (cur.(lr_write_id) =? cur.(lr_owner_id)) then
          disk ← disk0 t;
          d ← read_dblock t disk cur.(lr_owner_id);
          if (fst d =? 0) && has_flag (snd d).(pd_flags) DBLOCK_FL_RELEASED
          then Ret (Goto LRun a) else Ret (Out SANLK_ACQUIRE_IDLIVE a)
        else Ret (Out SANLK_ACQUIRE_IDLIVE a)
      else
        now ← call CMonotime;
        let other_host_dead_seconds := calc_host_dead_seconds com hs.(hs_io_timeout) in
        if u64 other_host_dead_seconds <? u64 (now - a.(aq_wait_start)) then Ret (Goto LRun a)
        else if has_flag flags PAXOS_ACQUIRE_OWNER_NOWAIT then Ret (Out SANLK_ACQUIRE_OWNED_RETRY a)
        else acquire_wait_next a
  end.

(** Our first ballot number above every mbal seen; the remainder by
    [max_hosts] is undefined when it is zero. *)
Definition first_mbal (host_id max_hosts max_mbal : Z) : Z :=
  if max_mbal =? 0 then host_id
  else u64 (max_mbal - max_mbal mod max_hosts + max_hosts + host_id).

(** [run:] *)
Definition acquire_run (a : acq) : prog acq_next :=
  let cur := a.(aq_cur) in
  if nz a.(aq_max_mbal) && (cur.(lr_max_hosts) =? 0) then Ub
  else Ret (Goto LRetryBallot (aq_set_ballot (u64 (cur.(lr_lver) + 1))
              (first_mbal a.(aq_token).(t_host_id) cur.(lr_max_hosts) a.(aq_max_mbal)) a)).

(** The leader committed from a won ballot. *)
Definition new_leader (t : token) (cur : leader_record) (dblock : paxos_dblock) (now : Z)
    : leader_record :=
  let flags' :=
    if dblock.(pd_inp) =? t.(t_host_id) then
      if has_flag flags PAXOS_ACQUIRE_SHARED then Z.lor cur.(lr_flags) LFL_SHORT_HOLD
      else clear_flag cur.(lr_flags) LFL_SHORT_HOLD
    else cur.(lr_flags) in
  LeaderRecord cur.(lr_magic) cur.(lr_version) flags' cur.(lr_sector_size)
    (if nz new_num_hosts then u64 new_num_hosts else cur.(lr_num_hosts)) cur.(lr_max_hosts)
    dblock.(pd_inp) dblock.(pd_inp2) dblock.(pd_lver) cur.(lr_space_name) cur.(lr_resource_name)
    dblock.(pd_inp3) cur.(lr_unused1) 0 cur.(lr_unused2) cur.(lr_io_timeout)
    t.(t_host_id) t.(t_host_generation) now.

(** After a ballot that returned a nonnegative code. *)
Definition acquire_commit (a : acq) : prog acq_next :=
  let t := a.(aq_token) in
  now ← call CMonotime;
  w ← write_new_leader t (new_leader t a.(aq_cur) a.(aq_dblock) now);
  let nl := snd w in
  let a := aq_set_ret nl a.(aq_dblock_ret) a in
  if fst w <? 0 then
    Ret (Out (fst w) (aq_set_token (with_flags (Z.lor t.(t_flags) T_RETRACT_PAXOS) t) a))
  else if negb (nl.(lr_owner_id) =? t.(t_host_id)) then Ret (Out SANLK_ACQUIRE_OTHER a)
  else Ret (Out SANLK_OK (aq_set_ret nl a.(aq_dblock) a)).

(** [retry_ballot:] *)
Definition acquire_retry_ballot (a : acq) : prog acq_next :=
  let t := a.(aq_token) in
  let cur := a.(aq_cur) in
  r ← (if a.(aq_copy) then Ret (SANLK_OK, cur) else paxos_lease_leader_read t a.(aq_tmp));
  let a := aq_set_tmp (snd r) false a in
  let tmp := snd r in
  if fst r <? 0 then Ret (Out (fst r) a)
  else if tmp.(lr_lver) =? a.(aq_next_lver) then
    if (tmp.(lr_owner_id) =? t.(t_host_id)) && (tmp.(lr_owner_generation) =? t.(t_host_generation))
    then Ret (Out SANLK_OK (aq_set_ret tmp a.(aq_dblock) a))
    else Ret (Out SANLK_ACQUIRE_OWNED (aq_set_ret tmp a.(aq_dblock_ret) a))
  else if a.(aq_next_lver) <? tmp.(lr_lver) then Ret (Goto LRestart a)
  else if negb (bool_decide (cur = tmp)) then Ret (Goto LRestart a)
  else
    b ← run_ballot t (i32 cur.(lr_num_hosts)) a.(aq_next_lver) a.(aq_our_mbal) a.(aq_dblock);
    let '(error, dblock, t) := b in
    let a := aq_set_dblock t dblock a in
    if (error =? SANLK_DBLOCK_MBAL) || (error =? SANLK_DBLOCK_LVER) then
      us ← call (CGetRand 0 1000000);
      _ ← call (CUsleep (if us <? 0 then i32 (t.(t_host_id) * 100) else us));
      Ret (Goto LRetryBallot
             (aq_set_ballot a.(aq_next_lver) (u64 (a.(aq_our_mbal) + cur.(lr_max_hosts))) a))
    else if error <? 0 then Ret (Out error a)
    else acquire_commit a.

Definition acquire_step (one : lease_area) (l : label) (a : acq) : prog acq_next :=
  match l with
  | LRestart => acquire_restart one a
  | LWait => acquire_wait a
  | LRun => acquire_run a
  | LRetryBallot => acquire_retry_ballot a
  end.

Fixpoint acquire_loop (one : lease_area) (fuel : nat) (l : label) (a : acq) : prog (option (Z * acq)) :=
  match fuel with
  | O => Ret None
  | S fuel =>
      n ← acquire_step one l a;
      match n with
      | Goto l a => acquire_loop one fuel l a
      | Out error a =>
          _ ← match a.(aq_host_disk) with
              | Some (d, _) => call (CCloseDisk d)
              | None => Ret tt
              end;
          Ret (Some (error, a))
      end
  end.

(** [a0] gives the indeterminate locals and the caller's out parameters. *)
Definition paxos_lease_acquire (fuel : nat) (one : lease_area) (t : token) (a0 : acq)
    : prog (option (Z * acq)) :=
  let a := aq_set_disk None (aq_set_dblock t dblock_zero a0) in
  if t.(t_sector_size) =? 0 then Ret (Some (- EINVAL, a))
  else acquire_loop one fuel LRestart a.

End acquire.

(** ** Release *)

(** The checks between the leader read and the write: [None] when the leader
    is to be freed, else what the function returns. *)
Definition release_check (t : token) (leader last : leader_record) : option Z :=
  if negb (leader.(lr_write_id) =? t.(t_host_id)) then Some 0
  else if negb (leader.(lr_lver) =? last.(lr_lver)) then Some SANLK_RELEASE_LVER
  else if leader.(lr_timestamp) =? LEASE_FREE then Some SANLK_RELEASE_OWNER
  else if negb (leader.(lr_owner_id) =? t.(t_host_id)) ||
          negb (leader.(lr_owner_generation) =? t.(t_host_generation)) then Some SANLK_RELEASE_OWNER
  else if negb (bool_decide (leader = last)) then Some SANLK_RELEASE_OWNER
  else None.

Definition released_leader (t : token) (resrename : option (list Z)) (now : Z) (leader : leader_record)
    : leader_record :=
  LeaderRecord leader.(lr_magic) leader.(lr_version) (clear_flag leader.(lr_flags) LFL_SHORT_HOLD)
    leader.(lr_sector_size) leader.(lr_num_hosts) leader.(lr_max_hosts) leader.(lr_owner_id)
    leader.(lr_owner_generation) leader.(lr_lver) leader.(lr_space_name)
    (match resrename with Some name => take NAME_ID_SIZE name | None => leader.(lr_resource_name) end)
    LEASE_FREE leader.(lr_unused1) 0 leader.(lr_unused2) leader.(lr_io_timeout)
    t.(t_host_id) t.(t_host_generation) now.

(** [leader0] stands for the indeterminate local. *)
Definition paxos_lease_release (t : token) (resrename : option (list Z))
    (leader_last : option leader_record) (leader0 leader_ret : leader_record)
    : prog (Z * leader_record) :=
  r ← paxos_lease_leader_read t leader0;
  if fst r <? 0 then Ret (fst r, leader_ret)
  else
    let leader := snd r in
    let last := match leader_last with Some l => l | None => leader end in
    match release_check t leader last with
    | Some rv => Ret (rv, leader_ret)
    | None =>
        now ← call CMonotime;
        w ← write_new_leader t (released_leader t resrename now leader);
        if fst w <? 0 then Ret (fst w, leader_ret) else Ret w
    end.

(** ** Format *)

Definition format_leader (t : token) (write_clear : bool) (now sector_size align_size num_hosts max_hosts : Z)
    : leader_record :=
  LeaderRecord (if write_clear then PAXOS_DISK_CLEAR else PAXOS_DISK_MAGIC)
    (Z.lor PAXOS_DISK_VERSION_MAJOR PAXOS_DISK_VERSION_MINOR)
    (leader_align_flag_from_size align_size) (u32 sector_size) (u64 num_hosts) (u64 max_hosts)
    0 0 0 (strncpy NAME_ID_SIZE t.(t_lockspace_name)) (strncpy NAME_ID_SIZE t.(t_name))
    LEASE_FREE 0 0 0 0 0 0 (if write_clear then now else 0).

(** The write of the area on each disk: the first negative code, or 0. *)
Fixpoint init_disks (disks : list sync_disk) (iobuf : mem) (iobuf_len ioto : Z) : prog Z :=
  match disks with
  | [] => Ret 0
  | d :: disks =>
      rv ← write_iobuf d.(sd_fd) d.(sd_offset) iobuf iobuf_len ioto;
      if rv <? 0 then Ret rv else init_disks disks iobuf iobuf_len ioto
  end.

(** The geometry of a new lease: sector size, align size, max hosts, hosts. *)
Definition init_sizes (t : token) (disk : sync_disk) (num_hosts : Z) (sz : sizes) : Z * Z * Z * Z :=
  let '(sector_size, align_size, max_hosts) := format_sizes disk sz in
  (sector_size, align_size, max_hosts,
   if (num_hosts =? 0) || (max_hosts <? num_hosts) then max_hosts else num_hosts).

Definition paxos_lease_init (com : command_line) (t : token) (num_hosts : Z) (write_clear : bool)
    : prog (Z * token) :=
  let '(rv, sz) := sizes_from_flags t.(t_r_flags) "RES" in
  if nz rv then Ret (rv, t)
  else
    disk ← disk0 t;
    let '(sector_size, align_size, max_hosts, num_hosts) := init_sizes t disk num_hosts sz in
    let t := with_sizes sector_size align_size t in
    r ← call (CMemalign align_size);
    if nz (fst r) then Ret (fst r, t)
    else
      now ← (if write_clear then call CMonotime else Ret 0);
      let leader := format_leader t write_clear now sector_size align_size num_hosts max_hosts in
      let rr := RequestRecord REQ_DISK_MAGIC (Z.lor REQ_DISK_VERSION_MAJOR REQ_DISK_VERSION_MINOR) 0 0 in
      rr_end ← call (CStack sizeof_request_record);
      if (align_size <? Z.of_nat sizeof_leader_record) ||
         (align_size <? sector_size + Z.of_nat sizeof_request_record) then Ub
      else
        let iobuf := buf_put (buf_put mem_zero 0 (leader_image leader lr_end0))
                       sector_size (request_record_out rr rr_end) in
        let ioto := if nz com.(com_write_init_io_timeout) then com.(com_write_init_io_timeout)
                    else t.(t_io_timeout) in
        rv ← init_disks t.(t_disks) iobuf align_size ioto;
        Ret (rv, t).

(** ** Ballot numbers *)

Lemma first_mbal_mod host_id max_hosts max_mbal :
  1 <= host_id <= max_hosts -> 0 <= max_mbal -> max_mbal + 2 * max_hosts < 2 ^ 64 ->
  max_mbal < first_mbal host_id max_hosts max_mbal <= max_mbal + 2 * max_hosts /\
  exists k, 0 <= k /\ first_mbal host_id max_hosts max_mbal = host_id + k * max_hosts.
Proof.
  intros Hh Hm Hov. unfold first_mbal. destruct (Z.eqb_spec max_mbal 0) as [-> |Hne].
  { split; [lia|]. exists 0. lia. }
  pose proof (Z.div_mod max_mbal max_hosts ltac:(lia)) as Hd.
  pose proof (Z.mod_pos_bound max_mbal max_hosts ltac:(lia)) as Hb.
  assert (0 <= max_mbal / max_hosts) by (apply Z.div_pos; lia).
  unfold u64. rw wrapu_small; [unfold is_u; lia|]. split; [lia|].
  exists (max_mbal / max_hosts + 1). lia.
Qed.

(** A host's first ballot number is above every mbal it has seen, and stays in
    the host's own residue class modulo [max_hosts], to which each retry adds
    [max_hosts]: two hosts never use the same number, whatever each has seen
    and however often each retries. *)
Theorem ballot_numbers_disjoint max_hosts h1 h2 m1 m2 n1 n2 :
  1 <= h1 <= max_hosts -> 1 <= h2 <= max_hosts -> 0 <= m1 -> 0 <= m2 -> 0 <= n1 -> 0 <= n2 ->
  m1 + (n1 + 2) * max_hosts < 2 ^ 64 -> m2 + (n2 + 2) * max_hosts < 2 ^ 64 ->
  let b1 := first_mbal h1 max_hosts m1 + n1 * max_hosts in
  let b2 := first_mbal h2 max_hosts m2 + n2 * max_hosts in
  m1 < b1 < 2 ^ 64 /\ b1 mod max_hosts = h1 mod max_hosts /\ (b1 = b2 -> h1 = h2).
Proof.
  intros H1 H2 Hm1 Hm2 Hn1 Hn2 Ho1 Ho2.
  destruct (first_mbal_mod h1 max_hosts m1) as [B1 (k1 & K1 & E1)]; [lia|lia|nia|].
  destruct (first_mbal_mod h2 max_hosts m2) as [B2 (k2 & K2 & E2)]; [lia|lia|nia|].
  cbv zeta. split; [nia|]. rw E1 E2. split.
  - replace (h1 + k1 * max_hosts + n1 * max_hosts) with (h1 + (k1 + n1) * max_hosts) by lia.
    apply Z.mod_add. lia.
  - intros E. assert (h1 - h2 = (k2 + n2 - k1 - n1) * max_hosts) by lia.
    assert (k2 + n2 - k1 - n1 = 0) by nia. lia.
Qed.

Lemma ballot_numbers_disjoint_witness :
  first_mbal 3 2000 4007 = 6003 /\
  (first_mbal 3 2000 4007 + 2 * 2000 = first_mbal 5 2000 4007 + 1 * 2000 -> 3 = 5).
Proof.
  split; [by vm_compute|]. apply (ballot_numbers_disjoint 2000 3 5 4007 4007 2 1); lia.
Defined.
