(* ===== verification/BallotLog.v ===== *)
(** * What one ballot does to the disks

    The contract of [run_ballot] ([src/src/paxos_lease.c]) with the other hosts,
    stated on the history of its i/o: every write is our own block, with the
    vote of phase 1 or of phase 2; phase 2 begins only after the phase 1 block
    was written to, and the other hosts' blocks were read without conflict
    from, a majority of the disks, and its value is the one of the largest bal
    that was read; and [SANLK_OK] is returned only after the same of phase 2.
    [ballot_always] proves it for every sequence of i/o results, together with
    the absence of out of bounds accesses. *)

From S2P Require Import Prelude OnDisk SizeFlags Io PaxosBlocks PaxosBallot.

#[local] Opaque Crc32c.crc32c.

(** ** What a host's slot says *)

(** The fields of a dblock that take part in the ballot. *)
Definition vote_of (pd : paxos_dblock) : paxos_dblock :=
  PaxosDblock pd.(pd_mbal) pd.(pd_bal) pd.(pd_inp) pd.(pd_inp2) pd.(pd_inp3) pd.(pd_lver) 0 0.

(** The vote in the bytes of a slot; a block that does not verify is skipped by
    the ballot, like one that was never written. *)
Definition dview (bs : list Z) : paxos_dblock :=
  if verify_dblock (paxos_dblock_in bs) (dblock_checksum bs) <? 0 then dblock_zero
  else vote_of (paxos_dblock_in bs).

(** The vote of host index [q] in the lease area that begins at [base]. *)
Definition slot_view (ss : Z) (m : mem) (base q : Z) : paxos_dblock :=
  dview (mem_read m (base + (2 + q) * ss) sizeof_paxos_dblock).

Lemma vote_of_idem pd : vote_of (vote_of pd) = vote_of pd.
Proof. done. Qed.

Lemma vote_of_checksum c pd : vote_of (pd_with_checksum c pd) = vote_of pd.
Proof. done. Qed.

Lemma pd_with_checksum_ok c pd :
  is_u 32 c -> paxos_dblock_ok pd -> paxos_dblock_ok (pd_with_checksum c pd).
Proof. unfold paxos_dblock_ok. simpl. tauto. Qed.

Lemma dblock_sum_u32 pd bs : paxos_dblock_ok pd -> bytes_ok bs -> is_u 32 (dblock_sum pd bs).
Proof. intros. apply dblock_checksum_u32. by apply paxos_dblock_out_bytes. Qed.

Lemma verify_dblock_sum pd c : pd.(pd_checksum) = c -> verify_dblock pd c = SANLK_OK.
Proof. intros <-. unfold verify_dblock. rw Z.eqb_refl. by destruct (_ && _). Qed.

(** A block that was written is read back as the vote it was written with. *)
Lemma dview_image pd bs tl :
  paxos_dblock_ok pd -> length bs = sizeof_paxos_dblock -> bytes_ok bs ->
  dview (dblock_image pd bs ++ tl) = vote_of pd.
Proof.
  intros Hok Hl Hb. destruct (dblock_image_in pd bs tl Hok Hl Hb) as [E1 E2].
  unfold dview. rw E1 E2 verify_dblock_sum //.
Qed.

Lemma dview_zero : dview (zeros sizeof_paxos_dblock) = dblock_zero.
Proof. unfold dview. by destruct (_ <? _). Qed.

(** ** Bounds a ballot runs with *)

Definition area_len (nh : Z) (ss : Z) : Z := roundup_power_of_two (nh + 2) * ss.

Record ballot_geometry (ss nh : Z) (disks : list sync_disk) : Prop := {
  bg_ss : ss = 512 \/ ss = 4096;
  bg_nh : 1 <= nh <= Z.of_nat HOSTID_BITMAP_SIZE * 8;
  bg_area : Forall (fun d => 0 <= d.(sd_offset) /\ d.(sd_offset) + (2 + nh) * ss <= 2 ^ 63) disks;
  bg_fds : NoDup (sd_fd <$> disks)
}.

(** A token for a lease of that geometry, held by host [hid]. *)
Record token_for (ss : Z) (disks : list sync_disk) (hid : Z) (t : token) : Prop := {
  tf_ss : t.(t_sector_size) = ss;
  tf_disks : t.(t_disks) = disks;
  tf_host : t.(t_host_id) = hid;
  tf_gen : is_u 64 t.(t_host_generation)
}.

Lemma token_for_shared ss disks hid t n bm :
  token_for ss disks hid t -> token_for ss disks hid (with_shared n bm t).
Proof. intros [? ? ? ?]. by split. Qed.

(** ** Events *)

(** Host [hid]'s write of the vote [v] to its slot on disk [d]. *)
Definition slot_write (ss hid : Z) (d : sync_disk) (v : paxos_dblock) (rv : Z) (e : event) : Prop :=
  exists m, e = EvWrite d.(sd_fd) (d.(sd_offset) + (2 + (hid - 1)) * ss) ss m rv /\
    (forall i, byte_ok (m i)) /\ dview (mem_read m 0 sizeof_paxos_dblock) = v.

Definition own_write (ss hid : Z) (disks : list sync_disk) (v : paxos_dblock) (e : event) : Prop :=
  exists d rv, d ∈ disks /\ rv <= 0 /\ slot_write ss hid d v rv e.

Definition area_read (disks : list sync_disk) (len : Z) (e : event) : Prop :=
  exists d rv m, d ∈ disks /\ rv <= 0 /\ (forall i, byte_ok (m i)) /\
    e = EvRead d.(sd_fd) d.(sd_offset) len rv m.

(** ** Writing our block *)

Lemma slot_write_image ss hid d pd m rv :
  paxos_dblock_ok pd -> (forall i, byte_ok (m i)) ->
  mem_read m 0 sizeof_paxos_dblock = dblock_image pd pd_end0 ->
  slot_write ss hid d (vote_of pd) rv
    (EvWrite d.(sd_fd) (d.(sd_offset) + (2 + (hid - 1)) * ss) ss m rv).
Proof.
  intros Hok Hm E. exists m. split; [done|]. split; [done|].
  rw E -(app_nil_r (dblock_image _ _)). apply dview_image; [done..|]. apply zeros_ok.
Qed.

Section write.
Context (ss nh hid : Z) (disks : list sync_disk).
Context (Hgeo : ballot_geometry ss nh disks) (Hhid : 1 <= hid <= nh).

(** What [write_dblock] leaves in the history and returns. *)
Definition wrote_dblock (d : sync_disk) (pd : paxos_dblock) (h h' : list event)
    (r : Z * paxos_dblock) : Prop :=
  fst r <= 0 /\ vote_of (snd r) = vote_of pd /\ paxos_dblock_ok (snd r) /\
  pd_flags (snd r) = pd_flags pd /\
  ((fst r < 0 /\ h' = h) \/
   exists e, h' = h ++ [e] /\ slot_write ss hid d (vote_of pd) (fst r) e).

Definition writing_dblock (pd : paxos_dblock) (h h' : list event) : Prop :=
  h' = h \/ exists e, h' = h ++ [e] /\ own_write ss hid disks (vote_of pd) e.

Lemma sealed_ok pd : paxos_dblock_ok pd -> paxos_dblock_ok (sealed pd).
Proof. intros H. apply pd_with_checksum_ok; [|done]. apply dblock_sum_u32; [done|apply zeros_ok]. Qed.

Lemma always_wrote d pd h m ioto rv pd' :
  d ∈ disks -> paxos_dblock_ok pd -> rv <= 0 -> (forall i, byte_ok (m i)) ->
  mem_read m 0 sizeof_paxos_dblock = dblock_image pd pd_end0 ->
  pd' = sealed pd ->
  let h' := h ++ ev (CWriteIobuf d.(sd_fd) (d.(sd_offset) + (2 + (hid - 1)) * ss) ss ioto m) rv in
  writing_dblock pd h h' /\
  always (Ret (rv, pd')) (writing_dblock pd h) (wrote_dblock d pd h) h'.
Proof.
  intros Hd Hok Hrv Hm Hr ->. simpl.
  pose proof (slot_write_image ss hid d pd m rv Hok Hm Hr) as Hsl.
  assert (writing_dblock pd h (h ++ [EvWrite d.(sd_fd) (d.(sd_offset) + (2 + (hid - 1)) * ss) ss m rv]))
    by (right; eexists; split; [done|]; by exists d, rv).
  do 2 (split; [done|]). split; [done|]. split; [done|]. split; [by apply sealed_ok|].
  split; [done|]. right. by eexists.
Qed.

Lemma always_wrote_none d pd h rv pd' :
  paxos_dblock_ok pd' -> vote_of pd' = vote_of pd -> pd_flags pd' = pd_flags pd -> rv < 0 ->
  always (Ret (rv, pd')) (writing_dblock pd h) (wrote_dblock d pd h) h.
Proof.
  intros. apply always_ret; [by left|]. split; [simpl; lia|]. by do 3 (split; [done|]); left.
Qed.

Lemma slot_offset d :
  d ∈ disks ->
  0 <= d.(sd_offset) /\ 0 <= d.(sd_offset) + (2 + (hid - 1)) * ss < 2 ^ 64.
Proof.
  intros Hd. destruct Hgeo as [Hss Hnh Harea _].
  pose proof (proj1 (list.Forall_forall _ _) Harea d Hd) as [Ho Hend]. nia.
Qed.

Lemma write_dblock_mblock_sh_always t d pd h :
  token_for ss disks hid t -> d ∈ disks -> paxos_dblock_ok pd ->
  always (write_dblock_mblock_sh t d hid pd) (writing_dblock pd h) (wrote_dblock d pd h) h.
Proof.
  intros Ht Hd Hok. destruct (slot_offset d Hd) as [Ho Hslot]. destruct Hgeo as [Hss _ _ _].
  unfold write_dblock_mblock_sh. rw (tf_ss _ _ _ _ Ht).
  destruct (Z.eqb_spec ss 0); [lia|].
  apply always_bind, always_quiet; [done|by left|]. intros [e b] [He Hb]. cbn [fst snd] in *.
  destruct (nz e); [by apply always_wrote_none|].
  apply always_bind, always_quiet; [done|by left|]. intros stk [Hstk Hsb].
  assert ((ss <? MBLOCK_OFFSET + Z.of_nat sizeof_mode_block) = false) as ->
    by (apply Z.ltb_ge; change (MBLOCK_OFFSET + Z.of_nat sizeof_mode_block) with 144; lia).
  replace (2 + hid - 1) with (2 + (hid - 1)) by lia. rw [u64 _]wrapu_small //.
  apply always_bind, always_call; [by left|]. intros rv Hrv. apply always_wrote; [done..| | |done].
  - repeat apply buf_put_ok; [done|apply dblock_image_bytes; [done|apply zeros_ok]|].
    apply mode_block_out_bytes; [|done]. split; [by vm_compute|]. apply Ht.
  - rw mem_read_put_other; [left; by vm_compute|].
    rw -{1}(length_dblock_image pd pd_end0); [done..|]. apply mem_read_put.
Qed.

Lemma write_dblock_always t d pd h :
  token_for ss disks hid t -> d ∈ disks -> paxos_dblock_ok pd ->
  always (write_dblock t d hid pd) (writing_dblock pd h) (wrote_dblock d pd h) h.
Proof.
  intros Ht Hd Hok. unfold write_dblock.
  destruct (has_flag _ _); [by apply write_dblock_mblock_sh_always|].
  destruct (slot_offset d Hd) as [Ho Hslot]. destruct Hgeo as [Hss Hnh _ _].
  rw (tf_ss _ _ _ _ Ht). apply always_bind. change (Z.of_nat HOSTID_BITMAP_SIZE * 8) with 2048 in Hnh.
  replace (u64 (2 + hid - 1)) with (2 + (hid - 1)) by (unfold u64; rw wrapu_small; [unfold is_u|]; lia).
  apply always_write_sector; [done| | |done|lia|lia|by left| |].
  - rw length_dblock_image; [done..|]. change (Z.of_nat sizeof_paxos_dblock) with 56. lia.
  - apply dblock_image_bytes; [done|]. apply zeros_ok.
  - intros rv Hrv. apply always_wrote_none; [by apply sealed_ok|done..].
  - intros rv Hrv. apply (always_wrote _ _ _ _ (t_io_timeout t)); [done..| | |done].
    + apply mem_of_ok, dblock_image_bytes; [done|]. apply zeros_ok.
    + by apply mem_of_image.
Qed.

(** The history grew by our own writes of one vote. *)
Definition writing (v : paxos_dblock) (h h' : list event) : Prop :=
  exists w, h' = h ++ w /\ Forall (own_write ss hid disks v) w.

(** The write of [v] to disk [d] is in [w] and succeeded. *)
Definition wrote_on (v : paxos_dblock) (w : list event) (d : sync_disk) : Prop :=
  Exists (slot_write ss hid d v 0) w.

Lemma writing_refl v h : writing v h h.
Proof. exists []. by rw app_nil_r. Qed.

Lemma writing_trans v h1 h2 h3 : writing v h1 h2 -> writing v h2 h3 -> writing v h1 h3.
Proof.
  intros [w1 [-> H1]] [w2 [-> H2]]. exists (w1 ++ w2). rw app_assoc. split; [done|].
  by apply Forall_app.
Qed.

Lemma writing_dblock_writing pd h h' : writing_dblock pd h h' -> writing (vote_of pd) h h'.
Proof.
  intros [-> |[e [-> He]]]; [apply writing_refl|]. exists [e]. split; [done|]. by constructor.
Qed.

Lemma wrote_on_app v w1 w2 d : wrote_on v w1 d \/ wrote_on v w2 d -> wrote_on v (w1 ++ w2) d.
Proof. intros H. by apply Exists_app. Qed.

(** What the loop over the disks leaves: our writes, and as many successful
    ones as it counted. *)
Definition wrote_dblocks (ds : list sync_disk) (pd : paxos_dblock) (k : Z) (h h' : list event)
    (r : Z * paxos_dblock) : Prop :=
  exists w, h' = h ++ w /\ Forall (own_write ss hid disks (vote_of pd)) w /\
    vote_of (snd r) = vote_of pd /\ paxos_dblock_ok (snd r) /\ pd_flags (snd r) = pd_flags pd /\
    exists ds', sublist ds' ds /\ fst r = k + Z.of_nat (length ds') /\
      Forall (wrote_on (vote_of pd) w) ds'.

Lemma write_dblocks_always t ds pd k h :
  token_for ss disks hid t -> ds ⊆ disks -> paxos_dblock_ok pd ->
  always (write_dblocks t ds pd k) (writing (vote_of pd) h) (wrote_dblocks ds pd k h) h.
Proof.
  intros Ht. revert pd k h. induction ds as [|d ds IH]; intros pd k h Hds Hok; simpl.
  { apply always_ret; [apply writing_refl|]. exists []. rw app_nil_r. do 5 (split; [done|]).
    exists []. split; [done|]. split; [simpl; lia|done]. }
  rw (tf_host _ _ _ _ Ht). apply always_bind.
  eapply always_mono; [apply write_dblock_always; [done| |done]; apply Hds, list_elem_of_here
    |intros; by apply writing_dblock_writing|].
  intros h1 [rv pd1] Hwr (Hrv & Hv & Hok1 & Hfl & Hcase). cbn [fst snd] in *.
  apply writing_dblock_writing in Hwr. destruct Hwr as [w1 [-> Hw1]].
  eapply always_mono; [apply (IH pd1); [|done]| |].
  { intros x Hx. by apply Hds, list_elem_of_further. }
  { intros h2 Hh2. rw Hv in Hh2. eapply writing_trans; [|done]. by exists w1. }
  intros h2 [n pd2] _ (w2 & -> & Hw2 & Hv2 & Hok2 & Hfl2 & ds' & Hsub & Hn & Hall).
  cbn [fst snd] in *. rw Hv in Hw2, Hv2, Hall. exists (w1 ++ w2). rw app_assoc.
  split; [done|]. split; [by apply Forall_app|]. do 2 (split; [done|]). split; [cbn; congruence|].
  assert (Hall' : Forall (wrote_on (vote_of pd) (w1 ++ w2)) ds').
  { eapply Forall_impl; [|exact Hall]. intros d' Hd'. apply wrote_on_app. by right. }
  destruct (rv <? 0) eqn:E; zbool.
  - exists ds'. split; [by apply sublist_cons|]. by split.
  - exists (d :: ds'). split; [by apply sublist_skip|]. split; [simpl; lia|].
    constructor; [|done]. apply wrote_on_app. left.
    destruct Hcase as [[? _]|[e [He Hsl]]]; [lia|]. apply app_inv_head in He as ->.
    constructor. by replace 0 with rv by lia.
Qed.
End write.

(** ** Reading the other hosts' blocks *)

(** The token differs at most in its shared count and bitmap. *)
Definition shared_only (t t' : token) : Prop := exists n bm, t' = with_shared n bm t.

Lemma shared_only_refl t : shared_only t t.
Proof. exists t.(t_shared_count), t.(t_shared_bitmap). by destruct t. Qed.

Lemma shared_only_trans t1 t2 t3 : shared_only t1 t2 -> shared_only t2 t3 -> shared_only t1 t3.
Proof. intros (n1 & b1 & ->) (n2 & b2 & ->). by exists n2, b2. Qed.

Lemma shared_only_token_for ss disks hid t t' :
  shared_only t t' -> token_for ss disks hid t -> token_for ss disks hid t'.
Proof. intros (n & bm & ->). apply token_for_shared. Qed.

Section read.
Context (ss nh : Z) (disks : list sync_disk) (L b len : Z).
Context (Hgeo : ballot_geometry ss nh disks) (HL : 1 <= L).
Context (Hlen : (2 + nh) * ss <= len).

(** A vote that does not stop a ballot (L, b), and one that carries a value
    for it. *)
Definition clean (v : paxos_dblock) : Prop :=
  v.(pd_lver) < L \/ (v.(pd_lver) = L /\ v.(pd_mbal) <= b).
Definition counts (v : paxos_dblock) : Prop :=
  v.(pd_lver) = L /\ v.(pd_inp) <> 0 /\ v.(pd_bal) <> 0.

#[local] Instance counts_dec v : Decision (counts v).
Proof. unfold counts. apply _. Defined.

Lemma phase1_bk_spec dblock bk mx :
  dblock.(pd_lver) = L -> dblock.(pd_mbal) = b ->
  match phase1_bk dblock bk mx with
  | Abort e _ => e = SANLK_DBLOCK_LVER \/ e = SANLK_DBLOCK_MBAL
  | Next mx' =>
      clean (vote_of bk) /\
      (counts (vote_of bk) /\ mx.(pd_bal) < bk.(pd_bal) /\ mx' = bk \/
       (counts (vote_of bk) -> bk.(pd_bal) <= mx.(pd_bal)) /\ mx' = mx)
  end.
Proof.
  intros <- <-. unfold phase1_bk, clean, counts. simpl.
  cases; zbool; try (by auto); split; try lia; try (right; split; [lia|done]).
  left. split; [lia|]. by split.
Qed.

Lemma phase2_bk_spec dblock bk :
  dblock.(pd_lver) = L -> dblock.(pd_mbal) = b ->
  match phase2_bk dblock bk with
  | Abort e _ => e = SANLK_DBLOCK_LVER \/ e = SANLK_DBLOCK_MBAL
  | Next _ => clean (vote_of bk)
  end.
Proof. intros <- <-. unfold phase2_bk, clean. simpl. cases; zbool; auto; lia. Qed.

Lemma dview_skip bs : (verify_dblock (paxos_dblock_in bs) (dblock_checksum bs) <? 0) = true ->
  clean (dview bs) /\ ~ counts (dview bs).
Proof.
  intros H. unfold dview. rw H. split; [left; simpl; lia|]. intros (_ & H1 & _). done.
Qed.

Lemma dview_good bs : (verify_dblock (paxos_dblock_in bs) (dblock_checksum bs) <? 0) = false ->
  dview bs = vote_of (paxos_dblock_in bs).
Proof. intros H. unfold dview. by rw H. Qed.

(** Scanning the slots [lo, hi) of a buffer from the maximum [mx]. *)
Record scanned (m : mem) (lo hi : Z) (mx mx' : paxos_dblock) : Prop := {
  sc_clean : forall q, lo <= q < hi -> clean (slot_view ss m 0 q);
  sc_max : forall q, lo <= q < hi -> counts (slot_view ss m 0 q) ->
             (slot_view ss m 0 q).(pd_bal) <= mx'.(pd_bal);
  sc_mono : mx.(pd_bal) <= mx'.(pd_bal);
  sc_from : mx' = mx \/
    paxos_dblock_ok mx' /\ counts (vote_of mx') /\
    exists q, lo <= q < hi /\ vote_of mx' = slot_view ss m 0 q
}.

Lemma scanned_nil m q mx : scanned m q q mx mx.
Proof. split; [lia..|by left]. Qed.

Lemma scanned_app m lo mid hi mx1 mx2 mx3 :
  lo <= mid <= hi -> scanned m lo mid mx1 mx2 -> scanned m mid hi mx2 mx3 ->
  scanned m lo hi mx1 mx3.
Proof.
  intros Hm [C1 M1 O1 F1] [C2 M2 O2 F2]. split.
  - intros q Hq. destruct (Z.lt_ge_cases q mid); [apply C1|apply C2]; lia.
  - intros q Hq Hc. destruct (Z.lt_ge_cases q mid); [|apply M2; [lia|done]].
    etransitivity; [apply M1; [lia|done]|done].
  - lia.
  - destruct F2 as [-> |(? & ? & q & ? & ?)].
    + destruct F1 as [-> |(? & ? & q & ? & ?)]; [by left|].
      right. do 2 (split; [done|]). exists q. split; [lia|done].
    + right. do 2 (split; [done|]). exists q. split; [lia|done].
Qed.

Definition host_result (m : mem) (lo hi : Z) (mx : paxos_dblock) (t : token) (h h' : list event)
    (r : flow paxos_dblock * token) : Prop :=
  h' = h /\ shared_only t (snd r) /\
  match fst r with
  | Abort e _ => e = SANLK_DBLOCK_LVER \/ e = SANLK_DBLOCK_MBAL
  | Next mx' => scanned m lo hi mx mx'
  end.

Lemma area_bounds q : 0 <= q < nh -> 0 <= (2 + q) * ss /\ (2 + q) * ss + 512 <= len.
Proof. intros H. destruct Hgeo as [Hss _ _ _]. nia. Qed.

Lemma get_dblock_always {R : env} m q (I : list event -> Prop) Q h :
  0 <= q < nh -> I h ->
  Q h (paxos_dblock_in (mem_read m ((2 + q) * ss) sizeof_paxos_dblock),
       dblock_checksum (mem_read m ((2 + q) * ss) sizeof_paxos_dblock)) ->
  always_in R (get_dblock len m ss q) I Q h.
Proof.
  intros Hq Hh HQ. destruct (area_bounds q Hq). unfold get_dblock. apply always_bind.
  apply always_buf_get; [lia|lia|change (Z.of_nat sizeof_paxos_dblock) with 56; lia|done|].
  rw Nat2Z.id. by apply always_ret.
Qed.

Lemma check_mode_block_always {R : env} t m q (I : list event -> Prop) h :
  0 <= q < nh -> I h ->
  always_in R (check_mode_block t q len m ((2 + q) * ss)) I (fun h' t' => h' = h /\ shared_only t t') h.
Proof.
  intros Hq Hh. destruct (area_bounds q Hq). destruct Hgeo as [_ Hnh _ _]. unfold check_mode_block.
  apply always_bind, always_buf_get; [unfold MBLOCK_OFFSET; lia|lia| |done|].
  { change (Z.of_nat sizeof_mode_block) with 16. unfold MBLOCK_OFFSET. lia. }
  destruct (has_flag _ _).
  - destruct (Z.leb_spec (Z.of_nat HOSTID_BITMAP_SIZE * 8) q); [lia|].
    apply always_ret; [done|]. split; [done|]. by eexists _, _.
  - apply always_ret; [done|]. split; [done|]. apply shared_only_refl.
Qed.

Lemma phase1_host_always m dblock q mx t (I : list event -> Prop) h :
  dblock.(pd_lver) = L -> dblock.(pd_mbal) = b -> t.(t_sector_size) = ss ->
  (forall i, byte_ok (m i)) -> 0 <= q < nh -> I h ->
  always (phase1_host len m dblock q mx t) I (host_result m q (q + 1) mx t h) h.
Proof.
  intros HdL Hdb Ht Hm Hq Hh. unfold phase1_host. rw Ht. apply always_bind.
  apply get_dblock_always; [done..|]. cbn [fst snd].
  set (bs := mem_read m ((2 + q) * ss) sizeof_paxos_dblock).
  assert (Hv : slot_view ss m 0 q = dview bs) by (unfold slot_view; by rw Z.add_0_l).
  assert (Hone : forall q', q <= q' < q + 1 -> q' = q) by lia.
  destruct (verify_dblock _ _ <? 0) eqn:E.
  - apply always_ret; [done|]. split; [done|]. split; [apply shared_only_refl|]. simpl.
    destruct (dview_skip bs E) as [H1 H2]. split; [| |done|by left].
    + intros q' ->%Hone. by rw Hv.
    + intros q' ->%Hone. by rw Hv.
  - apply always_bind. eapply always_mono; [by apply check_mode_block_always|done|].
    intros h' t' _ [-> Hsh]. apply always_ret; [done|]. split; [done|]. split; [done|].
    apply dview_good in E. rw -Hv in E. cbn [fst snd].
    pose proof (phase1_bk_spec dblock (paxos_dblock_in bs) mx HdL Hdb) as H.
    destruct (phase1_bk _ _ _) as [e ?|mx']; [done|]. rw -E in H.
    destruct H as [Hc H]. split.
    + by intros q' ->%Hone.
    + intros q' ->%Hone. rw E. rw E in H. destruct H as [(? & ? & ->)|[H ->]]; [intros _; apply Z.le_refl|done].
    + destruct H as [(? & ? & ->)|[H ->]]; lia.
    + destruct H as [(Hc' & ? & ->)|[H ->]]; [|by left]. right. split.
      { apply paxos_dblock_in_ok; [unfold bs; by rw length_mem_read|by apply mem_read_ok]. }
      rw -E. split; [done|]. exists q. split; [lia|done].
Qed.

Lemma phase1_hosts_always m dblock n q mx t (I : list event -> Prop) h :
  dblock.(pd_lver) = L -> dblock.(pd_mbal) = b -> t.(t_sector_size) = ss ->
  (forall i, byte_ok (m i)) -> 0 <= q -> q + Z.of_nat n <= nh -> I h ->
  always (phase1_hosts len m dblock n q mx t) I (host_result m q (q + Z.of_nat n) mx t h) h.
Proof.
  intros HdL Hdb Ht Hm. revert q mx t Ht. induction n as [|n IH]; intros q mx t Ht Hq Hn Hh; simpl.
  { apply always_ret; [done|]. split; [done|]. split; [apply shared_only_refl|].
    simpl. rw Z.add_0_r. apply scanned_nil. }
  apply always_bind. eapply always_mono; [apply phase1_host_always; [done..|lia|done]|done|].
  intros h' [f t1] _ (-> & Hsh & Hf). cbn [fst snd] in *. destruct f as [e mx1|mx1].
  { apply always_ret; [done|]. by split. }
  eapply always_mono; [apply IH; [by destruct Hsh as (? & ? & ->)|lia|lia|done]|done|].
  intros h' [f t2] _ (-> & Hsh2 & Hf2). cbn [fst snd] in *. split; [done|].
  split; [by eapply shared_only_trans|]. destruct f as [e mx2|mx2]; [done|].
  replace (q + Z.of_nat (S n)) with (q + 1 + Z.of_nat n) by lia.
  eapply scanned_app; [|done..]. lia.
Qed.

Lemma phase2_hosts_always m dblock n q (I : list event -> Prop) h :
  dblock.(pd_lver) = L -> dblock.(pd_mbal) = b ->
  0 <= q -> q + Z.of_nat n <= nh -> I h ->
  always (phase2_hosts len m ss dblock n q) I
    (fun h' r => h' = h /\
       match r with
       | Abort e _ => e = SANLK_DBLOCK_LVER \/ e = SANLK_DBLOCK_MBAL
       | Next _ => forall q', q <= q' < q + Z.of_nat n -> clean (slot_view ss m 0 q')
       end) h.
Proof.
  intros HdL Hdb. revert q. induction n as [|n IH]; intros q Hq Hn Hh; simpl.
  { apply always_ret; [done|]. split; [done|]. lia. }
  apply always_bind, get_dblock_always; [lia|done|]. cbn [fst snd].
  set (bs := mem_read m ((2 + q) * ss) sizeof_paxos_dblock).
  assert (Hv : slot_view ss m 0 q = dview bs) by (unfold slot_view; by rw Z.add_0_l).
  assert (Hnext : clean (dview bs) ->
    always (phase2_hosts len m ss dblock n (q + 1)) I
      (fun h' r => h' = h /\
         match r with
         | Abort e _ => e = SANLK_DBLOCK_LVER \/ e = SANLK_DBLOCK_MBAL
         | Next _ => forall q', q <= q' < q + Z.of_nat (S n) -> clean (slot_view ss m 0 q')
         end) h).
  { intros Hc. eapply always_mono; [apply IH; [lia|lia|done]|done|].
    intros h' r _ [-> Hr]. split; [done|]. destruct r; [done|]. intros q' Hq'.
    destruct (decide (q' = q)) as [-> |]; [by rw Hv|]. apply Hr. lia. }
  destruct (verify_dblock _ _ <? 0) eqn:E; [by apply Hnext, dview_skip|].
  apply dview_good in E. rw E in Hnext.
  pose proof (phase2_bk_spec dblock (paxos_dblock_in bs) HdL Hdb) as H.
  destruct (phase2_bk _ _); [by apply always_ret|]. by apply Hnext.
Qed.

(** The votes that the successful reads of a history showed. *)
Definition seen (r : list event) (v : paxos_dblock) : Prop :=
  exists fd off l m q, EvRead fd off l 0 m ∈ r /\ 0 <= q < nh /\ v = slot_view ss m 0 q.

Definition read_on (r : list event) (d : sync_disk) : Prop :=
  exists m, EvRead d.(sd_fd) d.(sd_offset) len 0 m ∈ r.

Definition reading (h h' : list event) : Prop :=
  exists r, h' = h ++ r /\ Forall (area_read disks len) r.

(** [mx] is the vote with the largest bal that the reads showed, if any
    carries a value. *)
Record best (r : list event) (mx : paxos_dblock) : Prop := {
  be_clean : forall v, seen r v -> clean v;
  be_max : forall v, seen r v -> counts v -> v.(pd_bal) <= mx.(pd_bal);
  be_from : mx = dblock_zero \/
    paxos_dblock_ok mx /\ counts (vote_of mx) /\ seen r (vote_of mx)
}.

Lemma seen_app r1 r2 v : seen (r1 ++ r2) v <-> seen r1 v \/ seen r2 v.
Proof.
  split.
  - intros (fd & off & l & m & q & [He|He]%elem_of_app & H); [left|right]; by exists fd, off, l, m, q.
  - intros [(fd & off & l & m & q & He & H)|(fd & off & l & m & q & He & H)];
      exists fd, off, l, m, q; (split; [apply elem_of_app; auto|done]).
Qed.

Lemma seen_failed fd off l rv m v : rv <> 0 -> ~ seen [EvRead fd off l rv m] v.
Proof. intros Hrv (? & ? & ? & ? & ? & ?%list_elem_of_singleton & _). congruence. Qed.

Lemma seen_one fd off l m v :
  seen [EvRead fd off l 0 m] v <-> exists q, 0 <= q < nh /\ v = slot_view ss m 0 q.
Proof.
  split.
  - intros (? & ? & ? & ? & q & ?%list_elem_of_singleton & Hq). simplify_eq. eauto.
  - intros (q & Hq). exists fd, off, l, m, q. split; [by apply list_elem_of_singleton|done].
Qed.

Lemma best_nil : best [] dblock_zero.
Proof.
  split; [intros v (? & ? & ? & ? & ? & H & _); by apply not_elem_of_nil in H..|by left].
Qed.

Lemma best_failed r mx fd off l rv m : rv <> 0 -> best r mx -> best (r ++ [EvRead fd off l rv m]) mx.
Proof.
  intros Hrv [C M F]. split.
  - intros v [?|[]%seen_failed]%seen_app; [by apply C|done].
  - intros v [?|[]%seen_failed]%seen_app; [by apply M|done].
  - destruct F as [-> |(? & ? & ?)]; [by left|right]. do 2 (split; [done|]). apply seen_app. by left.
Qed.

Lemma best_scanned r mx mx' fd off l m :
  best r mx -> scanned m 0 nh mx mx' -> best (r ++ [EvRead fd off l 0 m]) mx'.
Proof.
  intros [C M F] [SC SM SO SF]. split.
  - intros v [?|[q [? ->]]%seen_one]%seen_app; [by apply C|by apply SC].
  - intros v [?|[q [? ->]]%seen_one]%seen_app Hc; [|by apply SM].
    etransitivity; [by apply M|done].
  - destruct SF as [-> |(? & ? & q & ? & E)].
    + destruct F as [-> |(? & ? & ?)]; [by left|right]. do 2 (split; [done|]). apply seen_app. by left.
    + right. do 2 (split; [done|]). apply seen_app. right. apply seen_one. eauto.
Qed.

Lemma reading_refl h : reading h h.
Proof. exists []. by rw app_nil_r. Qed.

Lemma reading_trans h1 h2 h3 : reading h1 h2 -> reading h2 h3 -> reading h1 h3.
Proof.
  intros [w1 [-> H1]] [w2 [-> H2]]. exists (w1 ++ w2). rw app_assoc. split; [done|].
  by apply Forall_app.
Qed.

Lemma read_on_app r1 r2 d : read_on r1 d \/ read_on r2 d -> read_on (r1 ++ r2) d.
Proof. intros [[m ?]|[m ?]]; exists m; apply elem_of_app; auto. Qed.

(** The reads of a loop over [ds], counted from [k] to [k']. *)
Definition counted (ds : list sync_disk) (k k' : Z) (r : list event) : Prop :=
  exists ds', sublist ds' ds /\ k' = k + Z.of_nat (length ds') /\ Forall (read_on r) ds'.

Lemma counted_nil k : counted [] k k [].
Proof. exists []. split; [done|]. split; [simpl; lia|done]. Qed.

Lemma counted_skip d ds k k' r1 r2 : counted ds k k' r2 -> counted (d :: ds) k k' (r1 ++ r2).
Proof.
  intros (ds' & ? & ? & H). exists ds'. split; [by apply sublist_cons|]. split; [done|].
  eapply Forall_impl; [|exact H]. intros. apply read_on_app. by right.
Qed.

Lemma counted_read d ds k k' m r2 :
  counted ds (k + 1) k' r2 ->
  counted (d :: ds) k k' ([EvRead d.(sd_fd) d.(sd_offset) len 0 m] ++ r2).
Proof.
  intros (ds' & ? & -> & H). exists (d :: ds'). split; [by apply sublist_skip|].
  split; [simpl; lia|]. constructor.
  - apply read_on_app. left. exists m. by apply list_elem_of_singleton.
  - eapply Forall_impl; [|exact H]. intros. apply read_on_app. by right.
Qed.

Lemma area_read_ev d rv m :
  d ∈ disks -> rv <= 0 -> (forall i, byte_ok (m i)) ->
  Forall (area_read disks len) [EvRead d.(sd_fd) d.(sd_offset) len rv m].
Proof. intros. constructor; [|done]. by exists d, rv, m. Qed.

(** What phase 1's reads leave: the reads, and if none stopped the ballot the
    best vote among everything read so far. *)
Definition phase1_result (ds : list sync_disk) (k : Z) (mx : paxos_dblock) (t : token)
    (h h' : list event) (res : flow (Z * paxos_dblock)) (t' : token) : Prop :=
  exists r, h' = h ++ r /\ Forall (area_read disks len) r /\ shared_only t t' /\
    match res with
    | Abort e _ => e = SANLK_DBLOCK_LVER \/ e = SANLK_DBLOCK_MBAL
    | Next (k', mx') => counted ds k k' r /\ forall r0, best r0 mx -> best (r0 ++ r) mx'
    end.

Lemma phase1_result_skip d ds k mx t h h' res t' r1 :
  Forall (area_read disks len) r1 ->
  (forall r0, best r0 mx -> best (r0 ++ r1) mx) ->
  phase1_result ds k mx t (h ++ r1) h' res t' -> phase1_result (d :: ds) k mx t h h' res t'.
Proof.
  intros Hr1 Hb (r & -> & Hr & Hsh & Hres). exists (r1 ++ r). rw app_assoc.
  split; [done|]. split; [by apply Forall_app|]. split; [done|].
  destruct res as [e ?|[k' mx']]; [done|]. destruct Hres as [Hc Hbest].
  split; [by apply counted_skip|]. intros r0 H0. rw app_assoc. by apply Hbest, Hb.
Qed.

Lemma phase1_result_read d ds k mx mx1 t t1 h h' res t' m :
  d ∈ disks -> (forall i, byte_ok (m i)) -> shared_only t t1 -> scanned m 0 nh mx mx1 ->
  phase1_result ds (k + 1) mx1 t1 (h ++ [EvRead d.(sd_fd) d.(sd_offset) len 0 m]) h' res t' ->
  phase1_result (d :: ds) k mx t h h' res t'.
Proof.
  intros Hd Hm Hsh1 Hsc (r & -> & Hr & Hsh & Hres).
  exists ([EvRead d.(sd_fd) d.(sd_offset) len 0 m] ++ r). rw app_assoc. split; [done|].
  split; [apply Forall_app; split; [by apply area_read_ev|done]|].
  split; [by eapply shared_only_trans|].
  destruct res as [e ?|[k' mx']]; [done|]. destruct Hres as [Hc Hbest].
  split; [by apply counted_read|]. intros r0 H0. rw app_assoc. apply Hbest.
  by eapply best_scanned.
Qed.

Lemma phase1_disks_always dblock dl k mx t h :
  dblock.(pd_lver) = L -> dblock.(pd_mbal) = b -> t.(t_sector_size) = ss ->
  dl.*1 ⊆ disks ->
  always (phase1_disks len dblock (Z.to_nat nh) dl k mx t) (reading h)
    (fun h' r => phase1_result dl.*1 k mx t h h' r.1.1 r.2 /\ length r.1.2 = length dl) h.
Proof.
  intros HdL Hdb. destruct (bg_nh _ _ _ Hgeo) as [Hnh _].
  revert k mx t h. induction dl as [|[d live] dl IH]; intros k mx t h Ht Hsub; cbn [phase1_disks].
  { apply always_ret; [apply reading_refl|]. split; [|done]. exists []. rw app_nil_r.
    split; [done|]. split; [done|]. split; [apply shared_only_refl|].
    split; [apply counted_nil|]. intros r0. by rw app_nil_r. }
  assert (Hd : d ∈ disks) by (apply Hsub, list_elem_of_here).
  assert (Hsub' : dl.*1 ⊆ disks) by (intros x Hx; by apply Hsub, list_elem_of_further).
  assert (Hskip : forall lv r1,
    Forall (area_read disks len) r1 -> (forall r0, best r0 mx -> best (r0 ++ r1) mx) ->
    always (phase1_disks len dblock (Z.to_nat nh) dl k mx t ≫= fun r =>
              Ret (fst (fst r), lv :: snd (fst r), snd r)) (reading h)
      (fun h' r => phase1_result (d :: dl.*1) k mx t h h' r.1.1 r.2 /\
                   length r.1.2 = length ((d, live) :: dl)) (h ++ r1)).
  { intros lv r1 Hr1 Hb. apply always_bind. eapply always_mono; [by apply IH| |].
    - intros h' Hh'. eapply reading_trans; [|done]. by exists r1.
    - intros h' [[res ls] t'] Hh' [Hres Hl]. cbn [fst snd] in *. apply always_ret.
      { eapply reading_trans; [|done]. by exists r1. }
      split; [by eapply phase1_result_skip|]. cbn. lia. }
  destruct live; cbn [negb].
  2:{ specialize (Hskip false []). rw app_nil_r in Hskip. apply Hskip; [done|].
      intros r0. by rw app_nil_r. }
  apply always_bind, always_call; [apply reading_refl|]. intros [rv m] [Hrv Hm]. cbn [fst snd ev] in *.
  assert (Hh1 : reading h (h ++ [EvRead d.(sd_fd) d.(sd_offset) len rv m])).
  { eexists. split; [done|]. by apply area_read_ev. }
  split; [done|]. destruct (rv <? 0) eqn:E; zbool.
  { apply (Hskip (negb _)); [by apply area_read_ev|]. intros r0. apply best_failed. lia. }
  assert (rv = 0) as -> by lia. apply always_bind.
  eapply always_mono; [apply phase1_hosts_always; [done..|lia|lia|exact Hh1]|done|].
  intros h' [f t1] _ (-> & Hsh & Hf). cbn [fst snd] in *. rw Z2Nat.id in Hf; [lia|].
  destruct f as [e mx1|mx1].
  { apply always_ret; [done|]. cbn [fst snd]. split; [|cbn; by rw length_fmap].
    eexists. split; [done|]. split; [by apply area_read_ev|]. by split. }
  apply always_bind. eapply always_mono; [apply IH; [|done]| |].
  - by destruct Hsh as (? & ? & ->).
  - intros h' Hh'. by eapply reading_trans.
  - intros h' [[res ls] t'] Hh' [Hres Hl]. cbn [fst snd] in *.
    apply always_ret; [by eapply reading_trans|]. split; [|cbn; lia].
    by eapply phase1_result_read.
Qed.

Definition phase2_result (ds : list sync_disk) (k : Z) (h h' : list event) (res : flow Z) : Prop :=
  exists r, h' = h ++ r /\ Forall (area_read disks len) r /\
    match res with
    | Abort e _ => e = SANLK_DBLOCK_LVER \/ e = SANLK_DBLOCK_MBAL
    | Next k' => counted ds k k' r /\ forall v, seen r v -> clean v
    end.

Lemma phase2_disks_always t dblock dl k h :
  dblock.(pd_lver) = L -> dblock.(pd_mbal) = b -> t.(t_sector_size) = ss ->
  dl.*1 ⊆ disks ->
  always (phase2_disks t len dblock (Z.to_nat nh) dl k) (reading h) (phase2_result dl.*1 k h) h.
Proof.
  intros HdL Hdb Ht. destruct (bg_nh _ _ _ Hgeo) as [Hnh _].
  revert k h. induction dl as [|[d live] dl IH]; intros k h Hsub; cbn [phase2_disks].
  { apply always_ret; [apply reading_refl|]. exists []. rw app_nil_r.
    split; [done|]. split; [done|]. split; [apply counted_nil|].
    intros v (? & ? & ? & ? & ? & H & _). by apply not_elem_of_nil in H. }
  assert (Hd : d ∈ disks) by (apply Hsub, list_elem_of_here).
  assert (Hsub' : dl.*1 ⊆ disks) by (intros x Hx; by apply Hsub, list_elem_of_further).
  destruct live; cbn [negb].
  2:{ eapply always_mono; [by apply IH|done|]. intros h' res _ (r & -> & Hr & Hres).
      exists r. do 2 (split; [done|]). destruct res as [e ?|k']; [done|].
      split; [|apply Hres]. by apply (counted_skip _ _ _ _ []), Hres. }
  apply always_bind, always_call; [apply reading_refl|]. intros [rv m] [Hrv Hm]. cbn [fst snd ev] in *.
  pose proof (area_read_ev d rv m Hd Hrv Hm) as Hev.
  assert (Hh1 : reading h (h ++ [EvRead d.(sd_fd) d.(sd_offset) len rv m])) by (by eexists).
  split; [done|]. destruct (rv <? 0) eqn:E; zbool.
  { eapply always_mono; [by apply IH|intros; by eapply reading_trans|].
    intros h' res _ (r & -> & Hr & Hres). eexists (_ ++ r). rw app_assoc. split; [done|].
    split; [by apply Forall_app|]. destruct res as [e ?|k']; [done|]. split; [by apply counted_skip, Hres|].
    intros v [[]%seen_failed|?]%seen_app; [lia|by apply Hres]. }
  assert (rv = 0) as -> by lia. apply always_bind. rw Ht.
  eapply always_mono; [apply phase2_hosts_always; [done..|lia|lia|exact Hh1]|done|].
  intros h' f _ [-> Hf]. rw Z2Nat.id in Hf; [lia|]. destruct f as [e ?|?].
  { apply always_ret; [done|]. by eexists. }
  eapply always_mono; [by apply IH|intros; by eapply reading_trans|].
  intros h' res _ (r & -> & Hr & Hres). eexists (_ ++ r). rw app_assoc. split; [done|].
  split; [by apply Forall_app|]. destruct res as [e ?|k']; [done|]. split; [by apply counted_read, Hres|].
  intros v [[q [? ->]]%seen_one|?]%seen_app; [by apply Hf|by apply Hres].
Qed.
End read.

(** ** The ballot *)

(** A value: the owner's host id, its generation, and a timestamp. *)
Abbreviation value := (Z * Z * Z)%type.

Section ballot.
Context (ss nh : Z) (disks : list sync_disk) (hid gen L b : Z).

Abbreviation len := (area_len nh ss).

Definition vote1 : paxos_dblock := PaxosDblock b 0 0 0 0 L 0 0.
Definition vote2 (v : value) : paxos_dblock := PaxosDblock b b v.1.1 v.1.2 v.2 L 0 0.

Definition majority (P : sync_disk -> Prop) : Prop :=
  exists ds, sublist ds disks /\ (length disks < 2 * length ds)%nat /\ Forall P ds.

(** Phase 1 is complete with the value [v] for phase 2. *)
Record phase1_done (w1 r1 : list event) (v : value) : Prop := {
  p1_wrote : majority (wrote_on ss hid vote1 w1);
  p1_read : majority (read_on len r1);
  p1_value : exists mx, best ss nh L b r1 mx /\
    ((mx.(pd_inp) <> 0 /\ v = (mx.(pd_inp), mx.(pd_inp2), mx.(pd_inp3))) \/
     (mx.(pd_inp) = 0 /\ exists now, v = (hid, gen, now)))
}.

Record phase2_done (w2 r2 : list event) (v : value) : Prop := {
  p2_wrote : majority (wrote_on ss hid (vote2 v) w2);
  p2_read : majority (read_on len r2);
  p2_clean : forall x, seen ss nh r2 x -> clean L b x
}.

(** The i/o of a ballot, and the value of its phase 2 once that has begun. *)
Inductive ballot_log : list event -> option value -> Prop :=
  | log_phase1 w1 r1 :
      Forall (own_write ss hid disks vote1) w1 -> Forall (area_read disks len) r1 ->
      ballot_log (w1 ++ r1) None
  | log_phase2 w1 r1 w2 r2 v :
      Forall (own_write ss hid disks vote1) w1 -> Forall (area_read disks len) r1 ->
      phase1_done w1 r1 v ->
      Forall (own_write ss hid disks (vote2 v)) w2 -> Forall (area_read disks len) r2 ->
      ballot_log (w1 ++ r1 ++ w2 ++ r2) (Some v).

(** The i/o of a ballot that succeeded. *)
Inductive committed_log : list event -> value -> Prop :=
  | log_committed w1 r1 w2 r2 v :
      Forall (own_write ss hid disks vote1) w1 -> Forall (area_read disks len) r1 ->
      phase1_done w1 r1 v ->
      Forall (own_write ss hid disks (vote2 v)) w2 -> Forall (area_read disks len) r2 ->
      phase2_done w2 r2 v ->
      committed_log (w1 ++ r1 ++ w2 ++ r2) v.

(** What the result of a ballot whose buffers were allocated promises. *)
Definition ballot_end (t : token) (h : list event) (r : Z * paxos_dblock * token) : Prop :=
  let '(rv, pd, t') := r in
  (rv = SANLK_OK /\ (exists v, committed_log h v /\ vote_of pd = vote2 v /\ paxos_dblock_ok pd) /\
   shared_only t t') \/
  (rv = SANLK_DBLOCK_LVER \/ rv = SANLK_DBLOCK_MBAL) /\ shared_only t t' \/
  (rv = SANLK_DBLOCK_READ \/ rv = SANLK_DBLOCK_WRITE) /\
    (ballot_log h None /\ shared_only t t' \/
     exists t1, shared_only t t1 /\ t' = with_flags (Z.lor t1.(t_flags) T_RETRACT_PAXOS) t1).

(** What the result of [run_ballot] promises. *)
Definition ballot_result (t : token) (h : list event) (r : Z * paxos_dblock * token) : Prop :=
  ballot_end t h r \/ (r.1.1 = ENOMEM \/ r.1.1 = EINVAL) /\ h = [] /\ r.2 = t.

Context (Hgeo : ballot_geometry ss nh disks) (Hhid : 1 <= hid <= nh).
Context (HL : 1 <= L < 2 ^ 64) (Hb : 0 <= b < 2 ^ 64).

Definition logged (h : list event) : Prop := exists o, ballot_log h o.

Lemma area_len_bounds : (2 + nh) * ss <= len < 2 ^ 31 /\ 0 < len.
Proof.
  destruct Hgeo as [Hss Hnh _ _]. change (Z.of_nat HOSTID_BITMAP_SIZE * 8) with 2048 in Hnh.
  pose proof (roundup_bounds (nh + 2) ltac:(lia)). unfold area_len. nia.
Qed.

Lemma majority_of (P : sync_disk -> Prop) t ds n :
  t.(t_disks) = disks -> sublist ds disks -> n = Z.of_nat (length ds) -> Forall P ds ->
  majority_disks (num_disks t) n = true -> majority P.
Proof.
  intros Ht Hsub -> HP Hm. unfold num_disks in Hm. rw Ht majority_disks_spec in Hm; [lia|].
  exists ds. zbool. split; [done|]. split; [lia|done].
Qed.

Lemma logged_reading w1 h' :
  Forall (own_write ss hid disks vote1) w1 -> reading disks len w1 h' -> logged h'.
Proof. intros Hw (r & -> & Hr). exists None. by constructor. Qed.

Lemma logged_writing2 w1 r1 v h' :
  Forall (own_write ss hid disks vote1) w1 -> Forall (area_read disks len) r1 ->
  phase1_done w1 r1 v -> writing ss hid disks (vote2 v) (w1 ++ r1) h' -> logged h'.
Proof.
  intros Hw Hr Hp (w2 & -> & Hw2). exists (Some v). rw -app_assoc -(app_nil_r w2).
  by apply log_phase2.
Qed.

Lemma zip_fst_sub (l : list sync_disk) (bs : list bool) : sublist (zip l bs).*1 l.
Proof.
  revert bs. induction l as [|d l IH]; intros bs; [done|]. destruct bs as [|x bs]; simpl.
  - apply sublist_nil_l.
  - by apply sublist_skip.
Qed.

Lemma run_phase2_always t0 t dblock live w1 r1 v :
  shared_only t0 t -> token_for ss disks hid t ->
  Forall (own_write ss hid disks vote1) w1 -> Forall (area_read disks len) r1 ->
  phase1_done w1 r1 v -> paxos_dblock_ok dblock -> vote_of dblock = vote2 v ->
  always (run_phase2 t len (Z.to_nat nh) dblock live) logged (ballot_end t0) (w1 ++ r1).
Proof.
  intros Hsh Ht Hw1 Hr1 Hp1 Hok Hv. unfold run_phase2. rw (tf_disks _ _ _ _ Ht). apply always_bind.
  eapply always_mono; [by apply (write_dblocks_always ss nh hid disks Hgeo Hhid)| |].
  { rw Hv. intros h'. by apply logged_writing2. }
  intros h' [n pd] Hlog (w2 & -> & Hw2 & Hv2 & Hok2 & _ & ds' & Hsub & Hn & Hds). cbn [fst snd] in *.
  rw Hv in Hlog, Hw2, Hv2, Hds. apply (logged_writing2 w1 r1 v) in Hlog; [|done..].
  destruct (majority_disks _ n) eqn:Emaj; cbn [negb].
  2:{ apply always_ret; [done|]. right; right. split; [by right|]. right. by exists t. }
  pose proof (majority_of _ t ds' n (tf_disks _ _ _ _ Ht) Hsub ltac:(lia) Hds Emaj) as Hm2.
  assert (Hfl : pd.(pd_lver) = L /\ pd.(pd_mbal) = b) by (injection Hv2; auto). destruct Hfl as [HpL Hpb].
  destruct area_len_bounds as [Hlen _].
  assert (Hlog2 : forall h', reading disks len ((w1 ++ r1) ++ w2) h' -> logged h').
  { intros h' (r2 & -> & Hr2). exists (Some v). rw -!app_assoc. by constructor. }
  apply always_bind. eapply always_mono;
    [apply (phase2_disks_always ss nh disks L b len Hgeo ltac:(lia) ltac:(lia));
       [done|done|apply Ht|] | done |].
  { intros x Hx. eapply elem_of_sublist; [done|]. apply zip_fst_sub. }
  intros h' res Hlog'%Hlog2 (r2 & -> & Hr2 & Hres). destruct res as [e k|k].
  { apply always_ret; [done|]. assert (ballot_out true e pd t = (e, pd, t)) as ->
      by (by destruct Hres as [-> | ->]). right; left. by split. }
  destruct Hres as [(ds2 & Hsub2 & Hk & Hds2) Hclean].
  destruct (majority_disks _ k) eqn:Emaj2; cbn [negb]; (apply always_ret; [done|]).
  2:{ right; right. split; [by left|]. right. by exists t. }
  left. split; [done|]. split; [|done]. exists v. split; [|done]. rw -!app_assoc.
  constructor; [done..|]. split; [done| |done].
  apply (majority_of _ t ds2 k); [apply Ht| |lia|done..].
  etransitivity; [done|]. apply zip_fst_sub.
Qed.

Lemma choose_inp_always t dblock mx r1 (I : list event -> Prop) h :
  vote_of dblock = vote1 -> pd_flags dblock = 0 -> best ss nh L b r1 mx ->
  is_u 64 hid -> t.(t_host_id) = hid -> t.(t_host_generation) = gen -> is_u 64 gen -> I h ->
  always (choose_inp t dblock mx) I
    (fun h' pd => h' = h /\ paxos_dblock_ok pd /\ exists v, vote_of pd = vote2 v /\
       ((mx.(pd_inp) <> 0 /\ v = (mx.(pd_inp), mx.(pd_inp2), mx.(pd_inp3))) \/
        (mx.(pd_inp) = 0 /\ exists now, v = (hid, gen, now)))) h.
Proof.
  intros Hv Hf Hbest Hh64 Ht Hg Hg64 Hh. injection Hv as Em Eb Ei Ei2 Ei3 El.
  assert (HbL : is_u 64 b /\ is_u 64 L /\ is_u 32 0) by (unfold is_u; lia).
  unfold choose_inp. rw Em El Hf. destruct (nz mx.(pd_inp)) eqn:E; unfold nz in E; zbool.
  - apply always_ret; [done|]. split; [done|].
    destruct (be_from _ _ _ _ _ _ Hbest) as [-> |[Hok _]]; [done|].
    split; [by unfold paxos_dblock_ok in *; simpl; tauto|].
    exists (mx.(pd_inp), mx.(pd_inp2), mx.(pd_inp3)). split; [done|]. by left.
  - apply always_bind, always_quiet; [done..|]. intros now Hnow. simpl in Hnow.
    apply always_ret; [done|]. split; [done|].
    split; [by rw Ht Hg; unfold paxos_dblock_ok; simpl; tauto|].
    exists (hid, gen, now). rw Ht Hg. split; [done|]. right. split; [done|]. by exists now.
Qed.

Lemma run_phase1_always t :
  token_for ss disks hid t -> t.(t_host_generation) = gen ->
  always (run_phase1 t len (Z.to_nat nh) L b) logged (ballot_end t) [].
Proof.
  intros Ht Hgen. unfold run_phase1. rw (tf_disks _ _ _ _ Ht). apply always_bind.
  assert (Hok : paxos_dblock_ok vote1) by (unfold paxos_dblock_ok, is_u; simpl; lia).
  eapply always_mono; [by apply (write_dblocks_always ss nh hid disks Hgeo Hhid)| |].
  { intros h' (w & -> & Hw). exists None. rw -(app_nil_r ([] ++ w)). by constructor. }
  intros h' [n pd] _ (w1 & -> & Hw1 & Hv1 & Hok1 & Hf1 & ds' & Hsub & Hn & Hds).
  cbn [fst snd] in Hn, Hv1, Hok1, Hf1.
  change (vote_of (PaxosDblock b 0 0 0 0 L 0 0)) with vote1 in Hw1, Hv1, Hds. rw app_nil_l. cbn [fst snd].
  assert (Hlog : forall h', reading disks len w1 h' -> logged h') by (intros; by eapply logged_reading).
  assert (Hlog1 : ballot_log w1 None) by (rw -(app_nil_r w1); by constructor).
  destruct (majority_disks _ n) eqn:Emaj; cbn [negb].
  2:{ apply always_ret; [by exists None|]. right; right. split; [by right|]. left.
      split; [done|]. apply shared_only_refl. }
  pose proof (majority_of _ t ds' n (tf_disks _ _ _ _ Ht) Hsub ltac:(lia) Hds Emaj) as Hm1.
  assert (Hfl : pd.(pd_lver) = L /\ pd.(pd_mbal) = b) by (injection Hv1; auto). destruct Hfl as [HpL Hpb].
  destruct area_len_bounds as [Hlen _].
  apply always_bind. eapply always_mono;
    [apply (phase1_disks_always ss nh disks L b len Hgeo ltac:(lia) ltac:(lia));
       [done|done|apply Ht|] | done |].
  { intros x Hx. eapply elem_of_sublist; [done|]. apply zip_fst_sub. }
  intros h' [[res live] t1] Hl%Hlog [(r1 & -> & Hr1 & Hsh & Hres) _]. cbn [fst snd] in *.
  destruct res as [e k|[k mx]].
  { apply always_ret; [done|]. right; left. by split. }
  destruct Hres as [(ds2 & Hsub2 & Hk & Hds2) Hbest].
  pose proof (shared_only_token_for _ _ _ _ _ Hsh Ht) as Ht1.
  destruct (majority_disks _ k) eqn:Emaj2; cbn [negb].
  2:{ apply always_ret; [done|]. right; right. split; [by left|]. left. split; [|done]. by constructor. }
  specialize (Hbest [] (best_nil _ _ _ _)).
  apply always_bind. eapply always_mono; [apply (choose_inp_always t1 pd mx r1 logged); [done..| |apply Ht1| | |done]|done|].
  - destruct Hgeo as [_ Hnh _ _]. change (Z.of_nat HOSTID_BITMAP_SIZE * 8) with 2048 in Hnh. unfold is_u. lia.
  - by destruct Hsh as (? & ? & ->).
  - rw -Hgen. apply Ht.
  - intros h' pd2 _ (-> & Hok2 & v & Hv2 & Hval).
    apply (run_phase2_always t t1 pd2 live w1 r1 v); [done..| |done|done]. split; [done| |by exists mx].
    apply (majority_of _ t1 ds2 k); [apply Ht1| |lia|done..].
    etransitivity; [done|]. apply zip_fst_sub.
Qed.

Lemma alloc_iobufs_always l n (I : list event -> Prop) h :
  I h -> always (alloc_iobufs l n) I
           (fun h' rv => h' = h /\ (rv = 0 \/ rv = EINVAL \/ rv = ENOMEM)) h.
Proof.
  intros Hh. induction n as [|n IH]; cbn [alloc_iobufs]; [apply always_ret; auto|].
  apply always_bind, always_quiet; [done..|]. intros [e m] [He _]. cbn [fst snd] in *.
  destruct (nz e); [|done]. apply always_ret; [done|]. by split.
Qed.

(** A ballot is the allocation of its buffers and phase 1, in any environment. *)
Lemma ballot_start {R : env} t pd0 (I : list event -> Prop) (Q : list event -> Z * paxos_dblock * token -> Prop) h :
  token_for ss disks hid t -> I h ->
  (forall l n, always_in R (alloc_iobufs l n) I (fun h' rv => h' = h /\ (nz rv = true -> Q h (rv, pd0, t))) h) ->
  always_in R (run_phase1 t len (Z.to_nat nh) L b) I Q h ->
  always_in R (run_ballot t nh L b pd0) I Q h.
Proof.
  intros Ht Hh Halloc Hphase. destruct area_len_bounds as [Hlen Hpos].
  unfold run_ballot. rw (tf_ss _ _ _ _ Ht).
  assert (Hlen' : i32 (roundup_power_of_two (u32 (nh + 2))) * ss = len).
  { destruct Hgeo as [_ Hnh _ _]. change (Z.of_nat HOSTID_BITMAP_SIZE * 8) with 2048 in Hnh.
    unfold u32. rw wrapu_small; [unfold is_u; lia|].
    pose proof (roundup_bounds (nh + 2) ltac:(lia)). rw i32_small; [lia|done]. }
  apply always_bind, always_smul; [rw Hlen'; lia|done|]. rw Hlen'.
  assert ((len =? 0) = false) as -> by (apply Z.eqb_neq; lia).
  apply always_bind. eapply always_mono; [apply Halloc|done|].
  intros h' rv _ [-> Hrv]. destruct (nz rv) eqn:Erv; [|done]. apply always_ret; [done|by apply Hrv].
Qed.

(** Every run of a ballot keeps to the log discipline and returns a result
    that the log justifies. *)
Lemma ballot_always t pd0 :
  token_for ss disks hid t -> t.(t_host_generation) = gen ->
  always (run_ballot t nh L b pd0) logged (ballot_result t) [].
Proof.
  intros Ht Hgen. assert (Hlog : logged []) by (exists None; by apply (log_phase1 [] [])).
  apply ballot_start; [done|done| |].
  - intros l n. eapply always_mono; [by apply (alloc_iobufs_always l n logged)|done|].
    intros h' rv _ [-> Hrv]. split; [done|]. intros E. right. split; [|done]. cbn [fst].
    destruct Hrv as [-> |[-> | ->]]; [done|by right|by left].
  - eapply always_mono; [by apply run_phase1_always|done|]. by left.
Qed.
End ballot.

(** ** A lease of two hosts on one disk *)

Definition demo_disks : list sync_disk := [SyncDisk [] 0 512 0].

Definition demo_token (host_id generation : Z) : token :=
  Token host_id generation 10 0 512 1048576 0 (zeros HOSTID_BITMAP_SIZE) demo_disks [] [] 0.

Lemma demo_geometry : ballot_geometry 512 2 demo_disks.
Proof.
  split; [by left|by vm_compute| |].
  - apply Forall_singleton. split; by vm_compute.
  - apply NoDup_singleton.
Qed.

Lemma demo_token_for h gen : is_u 64 gen -> token_for 512 demo_disks h (demo_token h gen).
Proof. by split. Qed.

(** ** Properties *)

(** C4: The contract of a ballot, whatever the results of its i/o: it writes
    nothing but its own votes to its own slots; it begins phase 2 only after a
    majority of the disks took its phase 1 vote and a majority showed no
    conflicting vote, and then with the value of the largest bal it has seen,
    or its own; it returns [SANLK_OK] only after a majority took the phase 2 vote
    and a majority showed no conflict since, and returns that vote; the other
    results are those of the code, with [T_RETRACT_PAXOS] whenever an i/o
    failure may have left a phase 2 vote behind. *)
Theorem run_ballot_contract ss nh disks hid L b t pd0 :
  ballot_geometry ss nh disks -> 1 <= hid <= nh -> 1 <= L < 2 ^ 64 -> 0 <= b < 2 ^ 64 ->
  token_for ss disks hid t ->
  always (run_ballot t nh L b pd0) (logged ss nh disks hid t.(t_host_generation) L b)
    (ballot_result ss nh disks hid t.(t_host_generation) L b t) [].
Proof. intros. by apply ballot_always. Qed.

Lemma run_ballot_contract_witness :
  always (run_ballot (demo_token 2 9) 2 1 2 dblock_zero) (logged 512 2 demo_disks 2 9 1 2)
    (ballot_result 512 2 demo_disks 2 9 1 2 (demo_token 2 9)) [].
Proof.
  apply (run_ballot_contract 512 2 demo_disks 2 1 2 (demo_token 2 9));
    [exact demo_geometry|lia..|by apply demo_token_for].
Defined.

(** C37: A ballot always ends, without an access outside its buffers, and with one
    of seven codes; a positive one that is not [SANLK_OK] is an allocation
    failure before any i/o. *)
Theorem run_ballot_returns {W} (hd : handler W) ss nh disks hid L b t pd0 w :
  (forall X (c : cmd X) w, resp_ok c (fst (hd X c w))) ->
  ballot_geometry ss nh disks -> 1 <= hid <= nh -> 1 <= L < 2 ^ 64 -> 0 <= b < 2 ^ 64 ->
  token_for ss disks hid t ->
  exists rv pd t' w', run hd (run_ballot t nh L b pd0) w = (Some (rv, pd, t'), w') /\
    rv ∈ [SANLK_OK; SANLK_DBLOCK_LVER; SANLK_DBLOCK_MBAL; SANLK_DBLOCK_READ; SANLK_DBLOCK_WRITE;
          ENOMEM; EINVAL].
Proof.
  intros Hhd Hgeo Hh HL Hb Ht.
  pose proof (ballot_always ss nh disks hid _ L b Hgeo Hh HL Hb t pd0 Ht eq_refl) as Ha.
  destruct (always_run hd _ _ _ [] w Hhd Ha) as ([[rv pd] t'] & w' & h & Hr & Hq).
  exists rv, pd, t', w'. split; [done|]. rw !elem_of_cons elem_of_nil.
  unfold ballot_result in Hq. cbn [fst snd] in Hq.
  destruct Hq as [[(-> & _)|[([-> | ->] & _)|([-> | ->] & _)]]|([-> | ->] & _)]; auto 10.
Qed.

Lemma run_ballot_returns_witness :
  exists rv pd t' w', run calm (run_ballot (demo_token 2 9) 2 1 2 dblock_zero) tt = (Some (rv, pd, t'), w') /\
    rv = SANLK_OK.
Proof.
  destruct (run_ballot_returns calm 512 2 demo_disks 2 1 2 (demo_token 2 9) dblock_zero tt calm_ok
    demo_geometry ltac:(lia) ltac:(lia) ltac:(lia) ltac:(by apply demo_token_for))
    as (rv & pd & t' & w' & E & _).
  exists rv, pd, t', w'. split; [done|].
  assert (Hrv : (fun o : option (Z * paxos_dblock * token) => match o with Some (r, _, _) => r | None => 0 end)
    (fst (run calm (run_ballot (demo_token 2 9) 2 1 2 dblock_zero) tt)) = SANLK_OK) by by vm_compute.
  by rw E in Hrv.
Defined.
