(* ===== verification/PaxosSafety.v ===== *)
(** * What the paxos lease operations do to the disks

    For every sequence of i/o results: that a leader record is believed only
    when a majority of the disks agrees on it, what [paxos_lease_release]
    requires before it frees a lease, what [paxos_lease_init] writes
    ([src/src/paxos_lease.c]). *)

From S2P Require Import Prelude OnDisk SizeFlags Timeouts Io DeltaLease PaxosBlocks PaxosBallot PaxosLease.
From S2P Require Import BallotLog.

#[local] Opaque Crc32c.crc32c.

(** ** Events *)

(** [e] is a successful read of the leader sector of disk [d] that shows [l],
    and [l] passes every check of [_verify_leader]. *)
Definition saw_leader (t : token) (d : sync_disk) (l : leader_record) (e : event) : Prop :=
  exists len m, e = EvRead d.(sd_fd) d.(sd_offset) len 0 m /\
    l = leader_record_in (mem_read m 0 sizeof_leader_record) /\
    l.(lr_magic) <> PAXOS_DISK_CLEAR /\
    check_leader t l (leader_checksum (mem_read m 0 sizeof_leader_record)) = SANLK_OK.

(** The geometry of the token's disks. *)
Record leader_geometry (t : token) : Prop := {
  lg_ss : t.(t_sector_size) = 512 \/ t.(t_sector_size) = 4096;
  lg_disks : t.(t_disks) <> [];
  lg_off : Forall (fun d => 0 <= d.(sd_offset) < 2 ^ 63) t.(t_disks)
}.

Lemma leaders_match_refl l : leaders_match l l = true.
Proof. unfold leaders_match. rw !Z.eqb_refl !bool_decide_eq_true_2 //. Qed.

(** ** Reading a leader *)

Section leader.
Context (t : token) (Hgeo : leader_geometry t).

(** A step that only reads. *)
Definition grows (h h' : list event) : Prop := exists es, h' = h ++ es /\ Forall not_write es.

Lemma grows_refl h : grows h h.
Proof. exists []. by rw app_nil_r. Qed.

Lemma grows_trans h1 h2 h3 : grows h1 h2 -> grows h2 h3 -> grows h1 h3.
Proof.
  intros [w1 [-> H1]] [w2 [-> H2]]. exists (w1 ++ w2). rw app_assoc. split; [done|]. by apply Forall_app.
Qed.

Lemma grows_one h e : not_write e -> grows h (h ++ [e]).
Proof. intros. exists [e]. split; [done|]. by apply Forall_singleton. Qed.

Lemma grows_elem h h' e : grows h h' -> e ∈ h -> e ∈ h'.
Proof. intros [es [-> _]] He. apply elem_of_app. by left. Qed.

(** [read_leader] shows the record of the sector, or fails. *)
Lemma read_leader_always d lr cs h :
  d ∈ t.(t_disks) ->
  always (read_leader t d lr cs) (grows h)
    (fun h' r => let '(rv, l, c) := r in grows h h' /\ rv <= 0 /\ leader_record_ok l /\
       (rv = 0 -> exists m, EvRead d.(sd_fd) d.(sd_offset) t.(t_sector_size) 0 m ∈ h' /\
          l = leader_record_in (mem_read m 0 sizeof_leader_record) /\
          c = leader_checksum (mem_read m 0 sizeof_leader_record))) h.
Proof.
  intros Hd. destruct Hgeo as [Hss _ Hoff]. pose proof (proj1 (list.Forall_forall _ _) Hoff d Hd) as [Ho Ho2].
  unfold read_leader. destruct (Z.eqb_spec t.(t_sector_size) 0); [lia|].
  apply always_bind, always_quiet; [done|apply grows_refl|]. intros stk [Hl Hb].
  assert (Hok : forall bs, length bs = sizeof_leader_record -> bytes_ok bs -> leader_record_ok (leader_record_in bs)).
  { intros bs E. apply leader_record_in_ok. by rw E. }
  apply always_bind, always_read_sectors; [done| |lia|lia|lia|apply grows_refl| |].
  - rw Hl. change (Z.of_nat sizeof_leader_record) with 200. lia.
  - intros rv Hrv. apply always_ret; [apply grows_refl|]. split; [apply grows_refl|].
    cbn [fst snd]. split; [lia|]. split; [by apply Hok|lia].
  - intros rv m Hrv Hm. rw Z.mul_0_l Z.add_0_r. cbv zeta.
    set (e := EvRead _ _ _ rv m). assert (Hg : grows h (h ++ [e])) by (by apply grows_one).
    split; [done|]. split; intros Hcase; (apply always_ret; [done|]); (split; [done|]); cbn [fst snd].
    + split; [lia|]. split; [by apply Hok|lia].
    + rw Hl. split; [done|]. split; [apply Hok; [by rw length_mem_read|by apply mem_read_ok]|].
      intros _. exists m. split; [|done]. apply elem_of_app. right. apply list_elem_of_singleton.
      unfold e. by rw Hcase.
Qed.

Lemma check_leader_code l c : check_leader t l c = SANLK_OK \/ check_leader t l c < 0.
Proof. unfold check_leader. cases; (by left) || (by right). Qed.

(** [verify_leader] returns the verdict of the checks; for a bad record it reads
    the sector once more, for the log. *)
Lemma verify_leader_always d l c h :
  d ∈ t.(t_disks) ->
  always (verify_leader t d l c) (grows h)
    (fun h' rv => grows h h' /\
       ((rv = SANLK_OK /\ l.(lr_magic) <> PAXOS_DISK_CLEAR /\ check_leader t l c = SANLK_OK) \/ rv < 0)) h.
Proof.
  intros Hd. destruct Hgeo as [Hss _ Hoff]. pose proof (proj1 (list.Forall_forall _ _) Hoff d Hd) as [Ho Ho2].
  unfold verify_leader, _verify_leader.
  destruct (Z.eqb_spec l.(lr_magic) PAXOS_DISK_CLEAR).
  { apply always_ret; [apply grows_refl|]. split; [apply grows_refl|]. right. by vm_compute. }
  destruct (check_leader_code l c) as [Ec|Hlt].
  { rw Ec. apply always_ret; [apply grows_refl|]. split; [apply grows_refl|]. by left. }
  assert ((check_leader t l c =? SANLK_OK) = false) as -> by (apply Z.eqb_neq; unfold SANLK_OK; lia).
  cbn [negb]. apply always_bind, always_read_sectors; [done| |lia|lia|lia|apply grows_refl| |].
  - change (Z.of_nat (length (zeros sizeof_leader_record))) with 200. lia.
  - intros rv _. apply always_ret; [apply grows_refl|]. split; [apply grows_refl|]. by right.
  - intros rv m _ _. cbv zeta. set (e := EvRead _ _ _ _ _).
    assert (Hg : grows h (h ++ [e])) by (by apply grows_one).
    split; [done|]. split; intros _; (apply always_ret; [done|]); (split; [done|by right]).
Qed.

(** What the loop over the disks has seen: disk, record, and whether the record
    was read and verified. *)
Abbreviation obs := (sync_disk * leader_record * bool)%type.

Definition agrees (l : leader_record) (o : obs) : Prop := o.2 = true /\ leaders_match o.1.2 l = true.

#[local] Instance agrees_dec l o : Decision (agrees l o).
Proof. unfold agrees. apply _. Defined.

(** How many verified records agree with [l]. *)
Definition votes (os : list obs) (l : leader_record) : Z := Z.of_nat (length (filter (agrees l) os)).

Lemma votes_app os1 os2 l : votes (os1 ++ os2) l = votes os1 l + votes os2 l.
Proof. unfold votes. rw list.filter_app length_app. lia. Qed.

Lemma votes_nonneg os l : 0 <= votes os l.
Proof. unfold votes. lia. Qed.

Lemma votes_one d l g l' : votes [(d, l, g)] l' = if g && leaders_match l l' then 1 else 0.
Proof.
  unfold votes. destruct (decide (agrees l' (d, l, g))) as [Ha|Ha].
  - rw list.filter_cons_True // list.filter_nil. destruct Ha as [E1 E2]. cbn in E1, E2. by rw E1 E2.
  - rw list.filter_cons_False // list.filter_nil. destruct g, (leaders_match l l') eqn:E; try done.
    by destruct Ha.
Qed.

(** The repeats counted for a record are backed by verified records. *)
Definition backed (os : list obs) (rs : list Z) : Prop :=
  length rs = length os /\ forall i o r, os !! i = Some o -> rs !! i = Some r -> r <= votes os o.1.2.

Record looped (os : list obs) (k : nat) (leaders : list leader_record) (reps : list Z) (h : list event) : Prop := {
  lo_leaders : leaders = (fun o : obs => o.1.2) <$> os ++ replicate k (SyncDisk [] 0 0 0, leader_zero, false);
  lo_reps : exists rs, reps = rs ++ replicate k 0 /\ backed os rs;
  lo_seen : Forall (fun o : obs => leader_record_ok o.1.2 /\
              (o.2 = true -> exists e, e ∈ h /\ saw_leader t o.1.1 o.1.2 e)) os
}.

Lemma first_match_spec l ls n i :
  first_match l ls n = Some i -> (i < n)%nat /\ exists l', ls !! i = Some l' /\ leaders_match l l' = true.
Proof.
  revert ls i. induction n as [|n IH]; intros [|l' ls] i; cbn; try done.
  destruct (leaders_match l l') eqn:E.
  - intros [= <-]. split; [lia|]. by exists l'.
  - destruct (first_match l ls n) as [j|] eqn:Ej; [|done]. intros [= <-].
    destruct (IH _ _ Ej) as (? & l2 & ? & ?). split; [lia|]. by exists l2.
Qed.

Lemma backed_fail os rs d l : backed os rs -> backed (os ++ [(d, l, false)]) (rs ++ [0]).
Proof.
  intros [Hl Hb]. split; [rw !length_app; cbn; lia|]. intros i o r Ho Hr.
  apply lookup_snoc_Some in Ho as [[Hi Ho]|[-> <-]], Hr as [[Hi' Hr]|[Hi' <-]]; try lia.
  - rw votes_app. pose proof (votes_nonneg [(d, l, false)] o.1.2). specialize (Hb i o r Ho Hr). lia.
  - apply votes_nonneg.
Qed.

Lemma backed_good os rs d l ls :
  backed os rs -> ls = (fun o : obs => o.1.2) <$> os ++ [(d, l, true)] ->
  backed (os ++ [(d, l, true)])
    (match first_match l ls (length os) with
     | Some i => alter (Z.add 1) i (rs ++ [1]) | None => rs ++ [1] end).
Proof.
  intros [Hl Hb] ->. set (os' := os ++ [(d, l, true)]).
  assert (H1 : forall i o r, os' !! i = Some o -> (rs ++ [1]) !! i = Some r ->
    r <= votes os o.1.2 \/ (i = length os /\ o = (d, l, true) /\ r = 1)).
  { intros i o r Ho Hr. unfold os' in Ho.
    apply lookup_snoc_Some in Ho as [[Hi Ho]|[-> <-]], Hr as [[Hi' Hr]|[Hi' <-]]; try lia.
    - left. by eapply Hb.
    - right. by split. }
  assert (Hself : votes [(d, l, true)] l = 1) by (rw votes_one leaders_match_refl //).
  assert (H2 : forall i o r, os' !! i = Some o -> (rs ++ [1]) !! i = Some r -> r <= votes os' o.1.2).
  { intros i o r Ho Hr. unfold os'. rw votes_app.
    destruct (H1 i o r Ho Hr) as [?|(-> & -> & ->)]; cbn [fst snd].
    - pose proof (votes_nonneg [(d, l, true)] o.1.2). lia.
    - rw Hself. pose proof (votes_nonneg os l). lia. }
  destruct (first_match _ _ _) as [j|] eqn:Ej; [|split; [unfold os'; rw !length_app; cbn; lia|done]].
  apply first_match_spec in Ej as (Hj & lj & Hlj & Hm). split.
  { rw length_alter. unfold os'. rw !length_app. cbn. lia. }
  intros i o r Ho. destruct (decide (i = j)) as [-> |Hne].
  2:{ rw list_lookup_alter_ne //. by apply H2. }
  rw list_lookup_alter_eq. destruct ((rs ++ [1]) !! j) as [r0|] eqn:Er; [|done].
  intros [= <-]. destruct (H1 j o r0 Ho Er) as [Hr|(-> & _)]; [|lia].
  unfold os'. rw votes_app votes_one. unfold os' in Ho. rw list_lookup_fmap Ho in Hlj. injection Hlj as <-.
  rw Hm. cbn. lia.
Qed.

Lemma looped_grows os k leaders reps h h' : grows h h' -> looped os k leaders reps h -> looped os k leaders reps h'.
Proof.
  intros Hg [H1 H2 H3]. split; [done..|]. eapply Forall_impl; [|exact H3].
  intros o [Hok Hs]. split; [done|]. intros E. destruct (Hs E) as (e & He & Hsaw).
  exists e. split; [by eapply grows_elem|done].
Qed.

(** The leaders after the next one was read. *)
Lemma looped_leaders os k d l g :
  <[length os := l]> ((fun o : obs => o.1.2) <$> os ++ replicate (S k) (SyncDisk [] 0 0 0, leader_zero, false)) =
  (fun o : obs => o.1.2) <$> (os ++ [(d, l, g)]) ++ replicate k (SyncDisk [] 0 0 0, leader_zero, false).
Proof.
  rw !fmap_app -app_assoc. cbn. rw -(length_fmap (fun o : obs => o.1.2) os).
  by rw insert_app_r_alt // Nat.sub_diag.
Qed.

Lemma looped_fail os k leaders reps h d l :
  looped os (S k) leaders reps h -> leader_record_ok l ->
  looped (os ++ [(d, l, false)]) k (<[length os := l]> leaders) reps h.
Proof.
  intros [-> (rs & -> & Hb) Hs] Hok. split.
  - apply looped_leaders.
  - exists (rs ++ [0]). split; [by rw -app_assoc|by apply backed_fail].
  - apply Forall_app. split; [done|]. by apply Forall_singleton.
Qed.

Lemma looped_good os k leaders reps h d l e :
  looped os (S k) leaders reps h -> leader_record_ok l -> e ∈ h -> saw_leader t d l e ->
  looped (os ++ [(d, l, true)]) k (<[length os := l]> leaders)
    (count_leader (<[length os := l]> leaders) (length os) reps) h.
Proof.
  intros [-> (rs & -> & [Hlen Hb]) Hs] Hok He Hsaw.
  pose proof (looped_leaders os k d l true) as E. rw E. split; [done| |].
  - unfold count_leader. rw list_lookup_fmap lookup_app_l; [rw length_app; cbn; lia|].
    rw lookup_app_r // Nat.sub_diag. cbn [lookup list_lookup fmap option_fmap option_map].
    assert (Hins : <[length os:=1]> (rs ++ replicate (S k) 0) = (rs ++ [1]) ++ replicate k 0).
    { rw -Hlen insert_app_r_alt // Nat.sub_diag -app_assoc //. }
    rw Hins. set (fm := first_match _ _ _).
    assert (Efm : fm = first_match l ((fun o : obs => o.1.2) <$> os ++ [(d, l, true)]) (length os)).
    { unfold fm. cbn [fst snd]. rw fmap_app. clear.
      generalize ((fun o : obs => o.1.2) <$> replicate k (SyncDisk [] 0 0 0, leader_zero, false)) as tl.
      rw -!(length_fmap (fun o : obs => o.1.2) os) !fmap_app.
      generalize ((fun o : obs => o.1.2) <$> os) as ls. intros ls tl.
      induction ls as [|x ls IH]; [done|]. cbn. destruct (leaders_match l x); [done|].
      f_equal. apply IH. }
    pose proof (backed_good os rs d l _ (conj Hlen Hb) eq_refl) as Hg. rw -Efm in Hg.
    destruct fm as [i|] eqn:Ei; [|by exists (rs ++ [1])].
    exists (alter (Z.add 1) i (rs ++ [1])). split; [|done].
    symmetry in Efm. apply first_match_spec in Efm as [Hi _].
    rw alter_app_l //. rw length_app. cbn. lia.
  - apply Forall_app. split; [done|]. apply Forall_singleton. split; [done|]. intros _. by exists e.
Qed.

Lemma leader_read_loop_always ds os leaders reps num h0 h :
  ds ⊆ t.(t_disks) -> looped os (length ds) leaders reps h -> grows h0 h ->
  always (leader_read_loop t ds (length os) leaders reps num) (grows h0)
    (fun h' r => exists os', (fun o : obs => o.1.1) <$> os' = ((fun o : obs => o.1.1) <$> os) ++ ds /\
       looped os' 0 r.1.1 r.1.2 h' /\ grows h0 h') h.
Proof.
  revert os leaders reps num h. induction ds as [|d ds IH]; intros os leaders reps num h Hsub Hlo Hg;
    cbn [leader_read_loop].
  { apply always_ret; [done|]. exists os. by rw app_nil_r. }
  assert (Hd : d ∈ t.(t_disks)) by (apply Hsub, list_elem_of_here).
  assert (Hsub' : ds ⊆ t.(t_disks)) by (intros x Hx; by apply Hsub, list_elem_of_further).
  assert (Hnext : forall l g leaders' reps' num' h', grows h0 h' ->
    looped (os ++ [(d, l, g)]) (length ds) leaders' reps' h' ->
    always (leader_read_loop t ds (S (length os)) leaders' reps' num') (grows h0)
      (fun h' r => exists os', (fun o : obs => o.1.1) <$> os' = ((fun o : obs => o.1.1) <$> os) ++ d :: ds /\
         looped os' 0 r.1.1 r.1.2 h' /\ grows h0 h') h').
  { intros l g leaders' reps' num' h' Hg' Hlo'.
    replace (S (length os)) with (length (os ++ [(d, l, g)])) by (rw length_app; cbn; lia).
    eapply always_mono; [by apply IH|done|]. intros h2 r _ (os' & E & Hr). exists os'.
    rw E fmap_app -app_assoc. by split. }
  apply always_bind. eapply always_mono; [by apply read_leader_always|intros; by eapply grows_trans|].
  intros h1 [[rv l] c] _ (Hg1 & Hrv & Hok & Hread). pose proof (looped_grows _ _ _ _ _ _ Hg1 Hlo) as Hlo1.
  assert (Hg01 : grows h0 h1) by (by eapply grows_trans).
  destruct (rv <? 0) eqn:Erv; zbool; [by apply (Hnext l false), looped_fail|].
  destruct (Hread ltac:(lia)) as (m & Hm & El & Ecs).
  apply always_bind. eapply always_mono; [by apply verify_leader_always|intros; by eapply grows_trans|].
  intros h2 rv2 _ [Hg2 Hv]. pose proof (looped_grows _ _ _ _ _ _ Hg2 Hlo1) as Hlo2.
  assert (Hg02 : grows h0 h2) by (by eapply grows_trans).
  destruct Hv as [(-> & Hmag & Hck)|Hlt].
  - apply (Hnext l true); [done|]. eapply (looped_good _ _ _ _ _ _ _ (EvRead d.(sd_fd) d.(sd_offset) t.(t_sector_size) 0 m));
      [done|done|by apply (grows_elem h1)|].
    exists t.(t_sector_size), m. do 3 (split; [done|]). by rw -Ecs.
  - apply Z.ltb_lt in Hlt as E. rw E. by apply (Hnext l false), looped_fail.
Qed.

(** ** The leader that is believed *)

(** A majority of the disks showed a verified record that agrees with [l] in
    everything before the timestamp. *)
Definition majority_leader_seen (l : leader_record) (h : list event) : Prop :=
  majority t.(t_disks) (fun d => exists l' e, e ∈ h /\ saw_leader t d l' e /\ leaders_match l' l = true).

(** [l] itself, its timestamps and its writer included, was read from a disk of
    the lease and verified. *)
Definition leader_shown (l : leader_record) (h : list event) : Prop :=
  exists d e, d ∈ t.(t_disks) /\ e ∈ h /\ saw_leader t d l e.

(** What a leader read believes. With several disks the fields from the timestamp
    on are those of one disk, whose own record need not have been verified. *)
Definition leader_believed (l : leader_record) (h : list event) : Prop :=
  majority_leader_seen l h /\ (leader_shown l h \/ 1 < num_disks t).

Lemma majority_leader_spec n ls rs l :
  majority_leader n ls rs = Some l ->
  exists i r, ls !! i = Some l /\ rs !! i = Some r /\ majority_disks n r = true.
Proof.
  revert rs. induction ls as [|l' ls IH]; intros [|r rs]; cbn; try done.
  destruct (majority_disks n r) eqn:E.
  - intros [= ->]. exists O, r. done.
  - intros (i & r' & ? & ? & ?)%IH. by exists (S i), r'.
Qed.

Lemma filter_sublist os l : sublist ((fun o : obs => o.1.1) <$> filter (agrees l) os) ((fun o : obs => o.1.1) <$> os).
Proof. apply fmap_sublist. apply sublist_filter. Qed.

Lemma looped_majority os leaders reps h l :
  (fun o : obs => o.1.1) <$> os = t.(t_disks) -> looped os 0 leaders reps h ->
  majority_leader (num_disks t) leaders reps = Some l ->
  majority_leader_seen l h /\ leader_record_ok l /\ exists o, o ∈ os /\ o.1.2 = l.
Proof.
  intros Ed [-> (rs & -> & Hlen & Hb) Hs] (i & r & Hl & Hr & Hm)%majority_leader_spec.
  cbn [replicate] in Hl, Hr. rw app_nil_r in Hl. rw app_nil_r in Hr. rw list_lookup_fmap in Hl.
  destruct (os !! i) as [o|] eqn:Ho; [|done]. injection Hl as <-.
  unfold num_disks in Hm. rw majority_disks_spec in Hm; [lia|]. zbool.
  specialize (Hb i o r Ho Hr). unfold votes in Hb. split.
  - exists ((fun o : obs => o.1.1) <$> filter (agrees o.1.2) os). rw -{1}Ed. split; [apply filter_sublist|].
    rw length_fmap. split; [lia|]. apply Forall_fmap, list.Forall_forall. intros o' [[Hg Hma] Ho']%list_elem_of_filter.
    destruct (proj2 (proj1 (list.Forall_forall _ _) Hs o' Ho') Hg) as (e & He & Hsaw). by exists o'.1.2, e.
  - assert (Ho' : o ∈ os) by (by eapply list_elem_of_lookup_2). split; [|by exists o].
    by apply (proj1 (list.Forall_forall _ _) Hs).
Qed.

(** When only verified records were kept, the one that is believed is verified. *)
Lemma looped_shown os leaders reps h l :
  (fun o : obs => o.1.1) <$> os = t.(t_disks) -> looped os 0 leaders reps h ->
  Forall (fun o : obs => o.2 = false -> o.1.2 = leader_zero) os ->
  majority_leader (num_disks t) leaders reps = Some l -> leader_shown l h.
Proof.
  intros Ed Hlo Hz El. destruct (looped_majority os leaders reps h l Ed Hlo El) as (Hm & _ & o & Ho & <-).
  destruct o as [[d l'] g]. cbn in *. destruct g.
  - destruct (proj2 (proj1 (list.Forall_forall _ _) (lo_seen _ _ _ _ _ Hlo) _ Ho) eq_refl) as (e & He & Hsaw).
    exists d, e. split; [|done]. rw -Ed. by apply (list_elem_of_fmap_2 (fun o : obs => o.1.1) os (d, l', true)).
  - pose proof (proj1 (list.Forall_forall _ _) Hz _ Ho eq_refl) as Ez. cbn in Ez. subst l'.
    destruct Hm as (ds & _ & Hlen & Hds). destruct ds as [|x ds]; [cbn in Hlen; lia|].
    inversion Hds as [|? ? (l2 & e & _ & (len & m & _ & _ & _ & Hck) & Hma) _]; subst.
    assert (l2.(lr_magic) = 0) by (unfold leaders_match in Hma; zbool; done).
    unfold check_leader in Hck. destruct (Z.eqb_spec l2.(lr_magic) PAXOS_DISK_MAGIC) as [E|]; [|done].
    rw H in E. by vm_compute in E.
Qed.

Lemma lease_leader_read_always leader_ret h :
  leader_record_ok leader_ret ->
  always (paxos_lease_leader_read t leader_ret) (grows h)
    (fun h' r => grows h h' /\ leader_record_ok (snd r) /\
       (fst r < 0 \/ fst r = SANLK_OK /\ leader_believed (snd r) h')) h.
Proof.
  intros Hret. assert (Hz : leader_record_ok leader_zero).
  { assert (name_ok (zeros 48)) by (split; [done|apply zeros_ok]).
    unfold leader_record_ok. cbn. by repeat (split; [done || by vm_compute|]). }
  unfold paxos_lease_leader_read. destruct (1 <? num_disks t) eqn:En.
  - unfold _leader_read_num, alloc_arrays. apply always_bind, always_bind, always_quiet; [done|apply grows_refl|].
    assert (Hfail : always (Ret (- ENOMEM, leader_ret)) (grows h)
      (fun h' r => grows h h' /\ leader_record_ok (snd r) /\
         (fst r < 0 \/ fst r = SANLK_OK /\ leader_believed (snd r) h')) h).
    { apply always_ret; [apply grows_refl|]. split; [apply grows_refl|]. split; [done|]. left. by vm_compute. }
    intros [|] _; cbn [negb]; [|apply always_ret; [apply grows_refl|exact Hfail]].
    apply always_quiet; [done|apply grows_refl|]. intros [|] _; cbn [negb]; [|done].
    apply always_bind. eapply always_mono; [apply (leader_read_loop_always t.(t_disks) []); [done| |apply grows_refl]|done|].
    { split; [by rw fmap_replicate|exists []; split; [done|by split]|done]. }
    intros h' [[leaders reps] num] _ (os & E & Hlo & Hg). cbn [fst snd fmap list_fmap app] in *.
    destruct (negb _).
    { apply always_ret; [done|]. split; [done|]. split; [done|]. left. by vm_compute. }
    destruct (majority_leader _ _ _) as [l|] eqn:El; (apply always_ret; [done|]); (split; [done|]); cbn [fst snd].
    + destruct (looped_majority os leaders reps h' l E Hlo El) as (Hm & Hok & _).
      split; [done|]. right. split; [done|]. split; [done|]. right. zbool. done.
    + split; [done|]. left. by vm_compute.
  - unfold _leader_read_one, disk0. destruct Hgeo as [_ Hne _].
    destruct (t_disks t) as [|d ds] eqn:Ed; [done|]. apply always_bind, always_ret; [apply grows_refl|].
    assert (Hd : d ∈ t.(t_disks)) by (rw Ed; apply list_elem_of_here).
    apply always_bind. eapply always_mono; [by apply read_leader_always|done|].
    intros h1 [[rv l] c] _ (Hg1 & Hrv & Hok & Hread).
    destruct (rv <? 0) eqn:Erv; zbool; [apply always_ret; [done|]; split; [done|]; split; [done|]; by left|].
    destruct (Hread ltac:(lia)) as (m & Hm & El & Ecs).
    apply always_bind. eapply always_mono; [by apply verify_leader_always|intros; by eapply grows_trans|].
    intros h2 rv2 _ [Hg2 Hv]. assert (Hg : grows h h2) by (by eapply grows_trans).
    apply always_ret; [done|]. split; [done|]. split; [done|]. destruct Hv as [(-> & Hmag & Hck)|?]; [right|by left].
    split; [done|]. unfold num_disks in En. rw Ed in En. cbn in En.
    destruct ds as [|d2 ds]; [|exfalso; zbool; cbn in En; lia].
    set (e := EvRead d.(sd_fd) d.(sd_offset) t.(t_sector_size) 0 m) in *.
    assert (He : e ∈ h2) by (by apply (grows_elem h1)).
    assert (Hsaw : saw_leader t d l e) by (exists t.(t_sector_size), m; do 3 (split; [done|]); by rw -Ecs).
    split; [|left; by exists d, e]. exists [d]. rw Ed. split; [done|]. split; [cbn; lia|].
    apply Forall_singleton. exists l, e. split; [done|]. split; [done|apply leaders_match_refl].
Qed.

(** ** Writing a leader *)

Definition sealed_leader (l : leader_record) : leader_record := lr_with_checksum (leader_sum l lr_end0) l.

Definition leader_write (l : leader_record) (d : sync_disk) (rv : Z) : event :=
  EvWrite d.(sd_fd) d.(sd_offset) t.(t_sector_size) (mem_of (leader_image l lr_end0)) rv.

(** The history grew by writes of the leader [l] to the lease's disks. *)
Definition leader_writing (l : leader_record) (h h' : list event) : Prop :=
  exists w, h' = h ++ w /\ Forall (fun e => exists d rv, d ∈ t.(t_disks) /\ e = leader_write l d rv) w.

Lemma leader_writing_refl l h : leader_writing l h h.
Proof. exists []. by rw app_nil_r. Qed.

Lemma leader_writing_trans l h1 h2 h3 :
  leader_writing l h1 h2 -> leader_writing l h2 h3 -> leader_writing l h1 h3.
Proof.
  intros [w1 [-> H1]] [w2 [-> H2]]. exists (w1 ++ w2). rw app_assoc. split; [done|]. by apply Forall_app.
Qed.

Lemma sealed_leader_idem l : sealed_leader (sealed_leader l) = sealed_leader l.
Proof. done. Qed.

Lemma sealed_leader_ok l : leader_record_ok l -> leader_record_ok (sealed_leader l).
Proof.
  intros Hok. assert (is_u 32 (leader_sum l lr_end0)).
  { apply leader_checksum_u32. apply leader_record_out_bytes; [done|apply zeros_ok]. }
  unfold leader_record_ok, sealed_leader, lr_with_checksum in *. cbn. tauto.
Qed.

Lemma write_leader_always d l h :
  d ∈ t.(t_disks) -> leader_record_ok l ->
  always (write_leader t d l) (leader_writing l h)
    (fun h' r => fst r <= 0 /\ snd r = sealed_leader l /\ leader_writing l h h' /\
       (fst r = 0 -> leader_write l d 0 ∈ h')) h.
Proof.
  intros Hd Hok. destruct Hgeo as [Hss _ Hoff]. pose proof (proj1 (list.Forall_forall _ _) Hoff d Hd) as [Ho Ho2].
  unfold write_leader. apply always_bind.
  apply always_write_sector; [done| | |lia|lia|lia|apply leader_writing_refl| |].
  - rw length_leader_image //. change (Z.of_nat sizeof_leader_record) with 200. lia.
  - apply leader_image_bytes; [done|apply zeros_ok].
  - intros rv Hrv. apply always_ret; [apply leader_writing_refl|]. cbn [fst snd]. split; [lia|]. split; [done|].
    split; [apply leader_writing_refl|lia].
  - intros rv Hrv. rw Z.mul_0_l Z.add_0_r. fold (leader_write l d rv).
    assert (Hw : leader_writing l h (h ++ [leader_write l d rv])).
    { exists [leader_write l d rv]. split; [done|]. apply Forall_singleton. by exists d, rv. }
    split; [done|]. apply always_ret; [done|]. cbn [fst snd]. do 3 (split; [done|]). intros ->.
    apply elem_of_app. right. by apply list_elem_of_singleton.
Qed.

Lemma write_leaders_always l0 ds l k to rv h :
  ds ⊆ t.(t_disks) -> leader_record_ok l0 -> l = l0 \/ l = sealed_leader l0 ->
  always (write_leaders t ds l k to rv) (leader_writing l0 h)
    (fun h' r => let '(k', to', rv', l') := r in
       leader_writing l0 h h' /\ (l' = sealed_leader l0 \/ ds = [] /\ l' = l) /\
       exists ds', sublist ds' ds /\ k' = k + Z.of_nat (length ds') /\
         Forall (fun d => leader_write l0 d 0 ∈ h') ds') h.
Proof.
  intros Hsub Hok. revert l k to rv h Hsub. induction ds as [|d ds IH]; intros l k to rv h Hsub Hl; cbn [write_leaders].
  { apply always_ret; [apply leader_writing_refl|]. split; [apply leader_writing_refl|]. split; [by right|].
    exists []. split; [done|]. split; [cbn; lia|done]. }
  assert (Hd : d ∈ t.(t_disks)) by (apply Hsub, list_elem_of_here).
  assert (Hlok : leader_record_ok l) by (destruct Hl as [-> | ->]; [done|by apply sealed_leader_ok]).
  assert (E1 : sealed_leader l = sealed_leader l0) by (by destruct Hl as [-> | ->]).
  assert (E2 : forall rv, leader_write l d rv = leader_write l0 d rv) by (by destruct Hl as [-> | ->]).
  assert (E3 : forall h h', leader_writing l h h' -> leader_writing l0 h h') by (by destruct Hl as [-> | ->]).
  apply always_bind. eapply always_mono; [by apply write_leader_always|apply E3|].
  intros h1 [rv1 l1] _ (Hrv1 & El1 & Hw1 & Hdone). cbn [fst snd] in *. apply E3 in Hw1. rw E1 in El1. rw E2 in Hdone.
  eapply always_mono; [apply IH; [|by right]|intros; by eapply leader_writing_trans|].
  { intros x Hx. by apply Hsub, list_elem_of_further. }
  intros h2 [[[k' to'] rv'] l'] _ (Hw2 & Hl' & ds' & Hs' & Hk & Hall).
  split; [by eapply leader_writing_trans|].
  split; [left; by destruct Hl' as [-> |[_ ->]]|].
  destruct (rv1 <? 0) eqn:E; zbool.
  - exists ds'. split; [by apply sublist_cons|]. by split.
  - exists (d :: ds'). split; [by apply sublist_skip|]. split; [cbn; lia|]. constructor; [|done].
    destruct Hw2 as (w & -> & _). apply elem_of_app. left. apply Hdone. lia.
Qed.

(** Success means that a majority of the disks has the new leader. *)
Lemma write_new_leader_always l h :
  leader_record_ok l ->
  always (write_new_leader t l) (leader_writing l h)
    (fun h' r => leader_writing l h h' /\ snd r = sealed_leader l /\
       (fst r < 0 \/ fst r = SANLK_OK /\ majority t.(t_disks) (fun d => leader_write l d 0 ∈ h'))) h.
Proof.
  intros Hok. unfold write_new_leader. apply always_bind.
  eapply always_mono; [apply (write_leaders_always l); [done|done|by left]|done|].
  intros h' [[[k to] rv] l'] _ (Hw & Hl' & ds & Hs & Hk & Hall).
  assert (El : l' = sealed_leader l).
  { destruct Hl' as [? |[E _]]; [done|]. by destruct (lg_disks _ Hgeo). }
  destruct (majority_disks _ k) eqn:Em; cbn [negb].
  - apply always_ret; [done|]. split; [done|]. split; [done|]. right. split; [done|].
    exists ds. unfold num_disks in Em. rw majority_disks_spec in Em; [lia|]. zbool.
    split; [done|]. split; [lia|done].
  - destruct to; [|destruct (rv <? 0) eqn:E; zbool]; (apply always_ret; [done|]); (split; [done|]);
      (split; [done|]); left; cbn [fst]; done || by vm_compute.
Qed.
End leader.

(** ** Releasing *)

Section release.
Context (t : token) (resrename : option (list Z)) (last : option leader_record).
Context (Hgeo : leader_geometry t).
Context (Hname : match resrename with Some n => (NAME_ID_SIZE <= length n)%nat /\ bytes_ok n | None => True end).
Context (Hhost : is_u 64 t.(t_host_id)) (Hgen : is_u 64 t.(t_host_generation)).

(** The leader [l] that a majority showed is the one to be freed: we were its
    last writer, it has the version and the contents of the record the caller
    holds, it is owned by us in our generation, and it is not free. *)
Definition ours_to_free (l : leader_record) : Prop :=
  l.(lr_write_id) = t.(t_host_id) /\ l.(lr_owner_id) = t.(t_host_id) /\
  l.(lr_owner_generation) = t.(t_host_generation) /\ l.(lr_timestamp) <> LEASE_FREE /\
  (forall x, last = Some x -> l = x).

Lemma release_check_ok l :
  release_check t l (match last with Some x => x | None => l end) = None -> ours_to_free l.
Proof.
  unfold release_check. cases; try done. intros _. zbool.
  repeat (split; [done|]). intros x ->. by destruct (bool_decide_reflect (l = x)).
Qed.

(** Every history of a release. *)
Definition releasing (h : list event) : Prop :=
  Forall not_write h \/
  exists h0 l now, Forall not_write h0 /\ leader_believed t l h0 /\ ours_to_free l /\
    leader_writing t (released_leader t resrename now l) h0 h.

(** What it returns: an error, 0 when another host wrote the leader, or
    [SANLK_OK] with the freed leader on a majority of the disks. *)
Definition released (h : list event) (r : Z * leader_record) : Prop :=
  fst r < 0 \/
  (fst r = 0 /\ Forall not_write h /\
   exists l, leader_believed t l h /\ l.(lr_write_id) <> t.(t_host_id)) \/
  (fst r = SANLK_OK /\ exists h0 l now, leader_believed t l h0 /\ ours_to_free l /\
     snd r = sealed_leader (released_leader t resrename now l) /\ (snd r).(lr_timestamp) = LEASE_FREE /\
     majority t.(t_disks) (fun d => leader_write t (released_leader t resrename now l) d 0 ∈ h)).

Lemma released_leader_ok now l : is_u 64 now -> leader_record_ok l -> leader_record_ok (released_leader t resrename now l).
Proof.
  intros Hnow (?&?&?&?&?&?&?&?&?&?&?&?&?&?&?&?&?&?&?).
  assert (is_u 32 (clear_flag (lr_flags l) LFL_SHORT_HOLD)) by (by apply is_u_ldiff).
  assert (name_ok (match resrename with Some n => take NAME_ID_SIZE n | None => lr_resource_name l end)).
  { destruct resrename as [n|]; [|done]. destruct Hname as [Hl Hb].
    split; [rw length_take; lia|by apply Forall_take]. }
  assert (is_u 64 LEASE_FREE /\ is_u 32 0) as [? ?] by (by vm_compute).
  unfold leader_record_ok, released_leader. cbn. by repeat (split; [done|]).
Qed.

Lemma release_always leader0 leader_ret :
  leader_record_ok leader0 ->
  always (paxos_lease_release t resrename last leader0 leader_ret) releasing released [].
Proof.
  intros H0. unfold paxos_lease_release. apply always_bind.
  eapply always_mono; [by apply lease_leader_read_always|intros h' (es & -> & Hes); by left|].
  intros h0 [rv l] Hg0 (_ & Hok & Hres). cbn [fst snd] in *.
  assert (Hnw : Forall not_write h0) by (by destruct Hg0 as (es & -> & ?)).
  assert (Hrel : releasing h0) by by left.
  destruct Hres as [Hlt|[-> Hmaj]].
  { apply Z.ltb_lt in Hlt as E. rw E. apply always_ret; [done|]. left. cbn. lia. }
  cbn [Z.ltb]. destruct (release_check _ _ _) as [rv|] eqn:Erc.
  { apply always_ret; [done|]. unfold release_check in Erc.
    destruct (Z.eqb_spec l.(lr_write_id) t.(t_host_id)) as [_|Hne]; cbn [negb] in Erc.
    - left. cases; simplify_eq; by vm_compute.
    - injection Erc as <-. right; left. split; [done|]. split; [done|]. by exists l. }
  apply release_check_ok in Erc. apply always_bind, always_quiet; [done..|]. intros now Hnow. simpl in Hnow.
  apply always_bind. eapply always_mono; [apply (write_new_leader_always t Hgeo); by apply released_leader_ok| |].
  { intros h' Hw. right. by exists h0, l, now. }
  intros h' [rv l'] Hw (_ & El & Hres). cbn [fst snd] in *. rw El.
  assert (Hrel' : releasing h') by (right; by exists h0, l, now).
  destruct Hres as [Hlt|[-> Hm]].
  { apply Z.ltb_lt in Hlt as E. rw E. apply always_ret; [done|]. left. cbn. lia. }
  apply always_ret; [done|]. right; right. split; [done|]. by exists h0, l, now.
Qed.
End release.

(** ** Formatting *)

Section format.
Context (com : command_line) (t : token) (sz : sizes) (num_hosts : Z) (clear : bool).
Context (ss align max_hosts hosts : Z).

Record format_geometry : Prop := {
  fg_flags : sizes_from_flags t.(t_r_flags) "RES" = (0, sz);
  fg_disk : exists d ds, t.(t_disks) = d :: ds /\
    (sz.(sz_sector) = 0 -> d.(sd_sector_size) = 512 \/ d.(sd_sector_size) = 4096) /\
    init_sizes t d num_hosts sz = (ss, align, max_hosts, hosts);
  fg_name : bytes_ok t.(t_name) /\ bytes_ok t.(t_lockspace_name);
  fg_hosts : 0 <= num_hosts
}.

Context (Hgeo : format_geometry).

Lemma format_bounds :
  (ss = 512 \/ ss = 4096) /\ 0 < hosts <= max_hosts /\ max_hosts <= 2000 /\ (2 + max_hosts) * ss <= align <= 8388608.
Proof.
  destruct Hgeo as [Hf (d & ds & _ & Hd & Es) _ Hn].
  pose proof (format_sizes_ok _ _ sz (i32 d.(sd_sector_size)) Hf) as H.
  unfold init_sizes, format_sizes, DEFAULT_MAX_HOSTS in Es.
  destruct (if sz_sector sz =? 0 then _ else _) as [[s a] m] in H, Es. injection Es as -> -> -> <-.
  destruct H as (H1 & H2 & H3); [intros [-> | ->]%Hd; [by left|by right]|].
  split; [done|]. split; [|lia]. destruct (Z.eqb_spec num_hosts 0); cbn [orb]; [lia|].
  destruct (Z.ltb_spec max_hosts num_hosts); lia.
Qed.

(** The area of a lease: its leader is free, at version 0, and verifies for
    each of its hosts (or has the magic number of a cleared lease); there is no
    request; no host has a dblock or a shared mode block. *)
Definition lease_formatted (m : mem) : Prop :=
  let bs := mem_read m 0 sizeof_leader_record in
  let l := leader_record_in bs in
  (if clear then l.(lr_magic) = PAXOS_DISK_CLEAR
   else forall t', t'.(t_name) = t.(t_name) -> t'.(t_lockspace_name) = t.(t_lockspace_name) ->
     t'.(t_host_id) <= hosts -> check_leader t' l (leader_checksum bs) = SANLK_OK) /\
  l.(lr_timestamp) = LEASE_FREE /\ l.(lr_lver) = 0 /\ l.(lr_owner_id) = 0 /\
  l.(lr_sector_size) = ss /\ l.(lr_num_hosts) = hosts /\ l.(lr_max_hosts) = max_hosts /\
  request_record_in (mem_read m ss sizeof_request_record) =
    RequestRecord REQ_DISK_MAGIC (Z.lor REQ_DISK_VERSION_MAJOR REQ_DISK_VERSION_MINOR) 0 0 /\
  forall j, 1 <= j <= max_hosts ->
    mem_read m ((1 + j) * ss) (Z.to_nat ss) = zeros (Z.to_nat ss).

Definition format_write (m : mem) (rv : Z) (d : sync_disk) : event :=
  EvWrite d.(sd_fd) d.(sd_offset) align m rv.

(** The disks are written one after the other, up to the first failure. *)
Definition lease_formatting (h : list event) : Prop :=
  h = [] \/
  exists m ds d rest rv, lease_formatted m /\ t.(t_disks) = ds ++ d :: rest /\
    h = (format_write m 0 <$> ds) ++ [format_write m rv d].

Lemma format_leader_ok t' now :
  is_u 64 now -> t'.(t_name) = t.(t_name) -> t'.(t_lockspace_name) = t.(t_lockspace_name) ->
  leader_record_ok (format_leader t' clear now ss align hosts max_hosts).
Proof.
  intros Hnow En El. destruct Hgeo as [_ _ [Hn Hl] _].
  assert (is_u 32 (if clear then PAXOS_DISK_CLEAR else PAXOS_DISK_MAGIC)) by (destruct clear; by vm_compute).
  assert (is_u 64 (if clear then now else 0)) by (destruct clear; [done|by vm_compute]).
  assert (is_u 32 (leader_align_flag_from_size align)).
  { unfold leader_align_flag_from_size. cases; by vm_compute. }
  assert (name_ok (strncpy NAME_ID_SIZE (t_lockspace_name t'))).
  { rw El. split; [apply length_strncpy|by apply strncpy_ok]. }
  assert (name_ok (strncpy NAME_ID_SIZE (t_name t'))).
  { rw En. split; [apply length_strncpy|by apply strncpy_ok]. }
  assert (is_u 32 (u32 ss) /\ is_u 64 (u64 hosts) /\ is_u 64 (u64 max_hosts)) as (? & ? & ?)
    by (repeat split; by apply wrapu_is_u).
  unfold leader_record_ok, format_leader. cbn [lr_magic lr_version lr_flags lr_sector_size lr_num_hosts lr_max_hosts
    lr_owner_id lr_owner_generation lr_lver lr_space_name lr_resource_name lr_timestamp lr_unused1 lr_checksum
    lr_unused2 lr_io_timeout lr_write_id lr_write_generation lr_write_timestamp].
  repeat (split; [first [done|by vm_compute]|]); done.
Qed.

Lemma mem_read_mem_zero o n : mem_read mem_zero o n = zeros n.
Proof.
  apply list_eq. intros i. unfold mem_read, zeros.
  destruct (decide (i < n)%nat).
  - rw list_lookup_fmap lookup_seq_lt; [done|]. by rw lookup_replicate_2.
  - rw !lookup_ge_None_2 //; rw ?length_fmap ?length_seq ?length_replicate; lia.
Qed.

Lemma format_image t' now rr_end :
  is_u 64 now -> t'.(t_name) = t.(t_name) -> t'.(t_lockspace_name) = t.(t_lockspace_name) ->
  length rr_end = sizeof_request_record -> bytes_ok rr_end ->
  lease_formatted
    (buf_put (buf_put mem_zero 0 (leader_image (format_leader t' clear now ss align hosts max_hosts) lr_end0))
       ss (request_record_out
             (RequestRecord REQ_DISK_MAGIC (Z.lor REQ_DISK_VERSION_MAJOR REQ_DISK_VERSION_MINOR) 0 0) rr_end)).
Proof.
  intros Hnow En El Hlen Hb. destruct format_bounds as (Hss & Hh & Hm & Ha).
  pose proof (format_leader_ok t' now Hnow En El) as Hok. set (l := format_leader _ _ _ _ _ _ _) in *.
  set (rr := RequestRecord _ _ _ _).
  assert (Hrr : request_record_ok rr) by (by vm_compute).
  assert (L1 : length (leader_image l lr_end0) = sizeof_leader_record) by (by apply length_leader_image).
  assert (L2 : length (request_record_out rr rr_end) = sizeof_request_record) by (by apply request_record_out_length).
  assert (S1 : Z.of_nat sizeof_leader_record = 200) by done.
  assert (S2 : Z.of_nat sizeof_request_record = 24) by done.
  set (m := buf_put _ _ _).
  assert (R1 : mem_read m 0 sizeof_leader_record = leader_image l lr_end0 ++ []).
  { unfold m. rw mem_read_put_other; [left; lia|]. rw -L1 mem_read_put. by rw app_nil_r. }
  assert (R2 : mem_read m ss sizeof_request_record = request_record_out rr rr_end ++ []).
  { unfold m. rw -L2 mem_read_put. by rw app_nil_r. }
  assert (Hz : forall j, 1 <= j <= max_hosts -> mem_read m ((1 + j) * ss) (Z.to_nat ss) = zeros (Z.to_nat ss)).
  { intros j Hj. unfold m. rw mem_read_put_other; [right; rw L2; nia|].
    rw mem_read_put_other; [right; rw L1; nia|]. apply mem_read_mem_zero. }
  clearbody m. unfold lease_formatted. cbv zeta. rw R1 R2 (request_record_in_out rr); [done..|].
  destruct (leader_image_in l lr_end0 [] Hok eq_refl (zeros_ok _)) as [-> ->].
  split.
  { destruct clear eqn:Ec; [done|]. intros t2 E2 E3 H2. unfold check_leader, l, format_leader.
    cbn [lr_with_checksum lr_magic lr_version lr_space_name lr_resource_name lr_num_hosts lr_checksum].
    rw E2 E3 En El !strncmp_strncpy !Z.eqb_refl. unfold u64. rw wrapu_small; [unfold is_u; lia|].
    destruct (Z.ltb_spec hosts t2.(t_host_id)); [lia|done]. }
  unfold l, format_leader. cbn [lr_with_checksum lr_timestamp lr_lver lr_owner_id lr_sector_size lr_num_hosts lr_max_hosts].
  unfold u64, u32. rw !wrapu_small; [unfold is_u; lia..|]. done.
Qed.

Lemma init_disks_always m ioto ds ds0 :
  lease_formatted m -> t.(t_disks) = ds0 ++ ds ->
  lease_formatting (format_write m 0 <$> ds0) ->
  always (init_disks ds m align ioto) lease_formatting
    (fun h rv => rv = 0 -> h = format_write m 0 <$> t.(t_disks)) (format_write m 0 <$> ds0).
Proof.
  intros Hm. revert ds0. induction ds as [|d ds IH]; intros ds0 Ed Hh; cbn [init_disks].
  { apply always_ret; [done|]. intros _. by rw Ed app_nil_r. }
  apply always_bind, always_call; [done|]. intros rv Hrv. cbn in Hrv. cbn [ev]. fold (format_write m rv d).
  assert (Hh' : lease_formatting ((format_write m 0 <$> ds0) ++ [format_write m rv d])).
  { right. by exists m, ds0, d, ds, rv. }
  split; [done|]. destruct (rv <? 0) eqn:E; zbool.
  { apply always_ret; [done|]. intros ->. lia. }
  assert (rv = 0) as -> by lia.
  replace (_ ++ _) with (format_write m 0 <$> (ds0 ++ [d])) in * by (by rw fmap_app).
  apply IH; [by rw -app_assoc|done].
Qed.

Lemma format_always :
  always (paxos_lease_init com t num_hosts clear) lease_formatting
    (fun h r => fst r = 0 -> snd r = with_sizes ss align t /\
       exists m, lease_formatted m /\ h = format_write m 0 <$> t.(t_disks)) [].
Proof.
  destruct format_bounds as (Hss & Hh & Hm & Ha). destruct Hgeo as [Hf (d & ds & Ed & _ & Es) _ _].
  assert (H0 : lease_formatting []) by by left.
  unfold paxos_lease_init. rw Hf. cbn [nz Z.eqb negb]. assert (disk0 t = Ret d) as -> by (unfold disk0; by rw Ed). apply always_bind.
  apply always_ret; [done|]. rw Es. apply always_bind, always_quiet; [done..|]. intros [e b] [He _]. cbn [fst] in *.
  destruct (nz e) eqn:Ee; [apply always_ret; [done|]; cbn [fst]; by intros -> |].
  assert (Hrest : forall now, is_u 64 now -> always
    (rr_end ← call (CStack sizeof_request_record);
     if (align <? Z.of_nat sizeof_leader_record) || (align <? ss + Z.of_nat sizeof_request_record) then Ub
     else rv ← init_disks t.(t_disks)
                 (buf_put (buf_put mem_zero 0 (leader_image
                    (format_leader (with_sizes ss align t) clear now ss align hosts max_hosts) lr_end0))
                  ss (request_record_out (RequestRecord REQ_DISK_MAGIC
                    (Z.lor REQ_DISK_VERSION_MAJOR REQ_DISK_VERSION_MINOR) 0 0) rr_end)) align
                 (if nz com.(com_write_init_io_timeout) then com.(com_write_init_io_timeout) else t.(t_io_timeout));
          Ret (rv, with_sizes ss align t)) lease_formatting
    (fun h r => fst r = 0 -> snd r = with_sizes ss align t /\
       exists m, lease_formatted m /\ h = format_write m 0 <$> t.(t_disks)) []).
  { intros now Hnow. apply always_bind, always_quiet; [done..|]. intros rr_end [Hl Hb].
    change (Z.of_nat sizeof_leader_record) with 200. change (Z.of_nat sizeof_request_record) with 24.
    destruct (Z.ltb_spec align 200); [lia|]. destruct (Z.ltb_spec align (ss + 24)); [lia|]. cbn [orb].
    pose proof (format_image (with_sizes ss align t) now rr_end Hnow eq_refl eq_refl Hl Hb) as Hm'.
    apply always_bind. eapply always_mono; [by apply (init_disks_always _ _ _ [])|done|].
    intros h rv Hi Hq. apply always_ret; [done|]. cbn [fst snd]. intros Hrv. split; [done|].
    eexists. split; [exact Hm'|by apply Hq]. }
  apply always_bind. destruct clear.
  - apply always_quiet; [done..|]. intros now Hnow. by apply Hrest.
  - apply always_ret; [done|]. apply Hrest. by vm_compute.
Qed.
End format.

(** ** Properties *)



(** C36: Formatting makes a free lease. Whatever the i/o results,
    [paxos_lease_init] writes the disks one after the other up to the first
    failure, each with a whole area in which the leader is free and verifies for
    every host of the lease (or is marked cleared), the request record is empty
    and every host's sector is zero; it returns 0 only when every disk has been
    written, and then with the token's sizes set to those of the area. *)
Theorem paxos_init_formats com t num_hosts clear sz ss align max_hosts hosts :
  format_geometry t sz num_hosts ss align max_hosts hosts ->
  always (paxos_lease_init com t num_hosts clear)
    (lease_formatting t clear ss align max_hosts hosts)
    (fun h r => fst r = 0 -> snd r = with_sizes ss align t /\
       exists m, lease_formatted t clear ss max_hosts hosts m /\
         h = format_write align m 0 <$> t.(t_disks)) [] /\
  (2 + max_hosts) * ss <= align.
Proof.
  intros Hgeo. split; [by eapply format_always|].
  by destruct (format_bounds _ _ _ _ _ _ _ Hgeo) as (_ & _ & _ & ? & _).
Qed.

(** *** A lease on three disks *)

Definition demo3_disks : list sync_disk := [SyncDisk [] 0 512 0; SyncDisk [] 0 512 1; SyncDisk [] 0 512 2].

Definition demo3_token : token :=
  Token 2 9 10 0 512 1048576 0 (zeros HOSTID_BITMAP_SIZE) demo3_disks [76; 83] [82] 0.

Definition demo3_world : world :=
  World (fun _ => mem_zero) 1000 [] [] 0 (fun _ => HostStatus 0 0 0 0 0 0 0 0 0 0 []).

Lemma demo3_geometry : leader_geometry demo3_token.
Proof. split; [by left|done|]. apply (bool_decide_unpack _). by vm_compute. Qed.

Lemma leader_zero_ok : leader_record_ok leader_zero.
Proof. apply (leader_record_in_ok (zeros sizeof_leader_record)); [done|apply zeros_ok]. Qed.

Definition demo3_com : command_line := Com 60 40 0 0 0 10.

Definition acq_start (t : token) : acq :=
  Acq t leader_zero leader_zero dblock_zero 0 0 0 false None (HostStatus 0 0 0 0 0 0 0 0 0 0 []) 0 0
    leader_zero leader_zero dblock_zero.

(** Format it, acquire it as host 2 in generation 9, release it. *)
Definition demo3_run : prog (Z * option (Z * acq) * (Z * leader_record)) :=
  i ← paxos_lease_init demo3_com demo3_token 2 false;
  r ← paxos_lease_acquire demo3_com 0 0 0 3 (LeaseArea leader_zero dblock_zero 0 0) demo3_token
        (acq_start demo3_token);
  w ← paxos_lease_release demo3_token None
        (match r with Some (_, a) => Some a.(aq_leader_ret) | None => None end) leader_zero leader_zero;
  Ret (fst i, r, w).

(** The codes of the three operations and the owners of the two leaders. *)
Definition demo3_result : option (Z * Z * Z * (Z * Z) * Z) :=
  match fst (run world_handler demo3_run demo3_world) with
  | Some (i, Some (rv, a), (rv', l)) =>
      Some (i, rv, rv', (a.(aq_leader_ret).(lr_owner_id), a.(aq_leader_ret).(lr_lver)), l.(lr_timestamp))
  | _ => None
  end.

Definition demo3_last : leader_record :=
  match fst (run world_handler demo3_run demo3_world) with
  | Some (_, Some (_, a), _) => a.(aq_leader_ret)
  | _ => leader_zero
  end.



Lemma demo3_format : format_geometry demo3_token (Sizes 0 0 0) 2 512 1048576 2000 2.
Proof.
  split; [by vm_compute| | |lia].
  - exists (SyncDisk [] 0 512 0), [SyncDisk [] 0 512 1; SyncDisk [] 0 512 2].
    split; [done|]. split; [by left|by vm_compute].
  - split; apply (bool_decide_unpack _); by vm_compute.
Qed.

Lemma paxos_init_formats_witness :
  always (paxos_lease_init demo3_com demo3_token 2 false)
    (lease_formatting demo3_token false 512 1048576 2000 2)
    (fun h r => fst r = 0 -> snd r = with_sizes 512 1048576 demo3_token /\
       exists m, lease_formatted demo3_token false 512 2000 2 m /\
         h = format_write 1048576 m 0 <$> demo3_disks) [].
Proof.
  apply (paxos_init_formats demo3_com demo3_token 2 false (Sizes 0 0 0) 512 1048576 2000 2 demo3_format).
Defined.

(** *** An allocation failure in the ballot *)

(** The first [k] allocations succeed, the next fails. *)
Definition alloc_fails (k : nat) (w : world) : world :=
  World w.(w_dev) w.(w_clock) w.(w_io) (replicate k 0 ++ [ENOMEM]) w.(w_rand) w.(w_hosts).

(** The leader on disk [fd]. *)
Definition disk_leader (w : world) (fd : Z) : leader_record :=
  leader_record_in (mem_read (w.(w_dev) fd) 0 sizeof_leader_record).

(** The lease has been used once and is free; the buffers of the areas can be
    allocated for reading, the ballot's cannot. *)
Definition demo3_failing : world := alloc_fails 3 (snd (run world_handler demo3_run demo3_world)).

Definition demo3_failed : option (option (Z * acq)) * world :=
  run world_handler
    (paxos_lease_acquire demo3_com 0 0 0 3 (LeaseArea leader_zero dblock_zero 0 0) demo3_token
       (acq_start demo3_token)) demo3_failing.

(** An allocation failure is taken for a ballot won. [run_ballot] returns
    the positive [ENOMEM] of [posix_memalign], and [paxos_lease_acquire] treats
    only negative codes as failures: without any vote it writes to every disk a
    leader of version 0 without an owner over the free leader of version 1, and
    returns [SANLK_ACQUIRE_OTHER]. *)
Theorem acquire_alloc_failure :
  map (fun fd => (disk_leader demo3_failing fd).(lr_lver)) [0; 1; 2] = [1; 1; 1] /\
  option_map (option_map fst) (fst demo3_failed) = Some (Some SANLK_ACQUIRE_OTHER) /\
  map (fun fd => let l := disk_leader (snd demo3_failed) fd in
         (l.(lr_lver), l.(lr_owner_id), check_leader demo3_token l l.(lr_checksum))) [0; 1; 2] =
    [(0, 0, SANLK_OK); (0, 0, SANLK_OK); (0, 0, SANLK_OK)].
Proof. by vm_compute. Qed.
