(* ===== verification/AcquireSafety.v ===== *)
(** * When a paxos lease is taken over

    The whole of [paxos_lease_acquire] ([src/src/paxos_lease.c]), label by label:
    what has to be known of the previous owner before a ballot is run for the
    next version of the lease, what is written, and what [SANLK_OK] means. The
    environment is any that keeps to the documented behaviour of the callees,
    in which the allocator does not fail and valid leader records have the
    geometry of the lease. *)

From S2P Require Import Prelude OnDisk SizeFlags Timeouts Io DeltaLease PaxosBlocks PaxosBallot PaxosLease.
From S2P Require Import BallotLog PaxosSafety.

#[local] Opaque Crc32c.crc32c.

(** ** The lease and its environment *)

(** The geometry of the lease area, the clock and host status that the daemon
    sees after a history of i/o, the disk (path and offset) and sector size of
    the lease's lockspace, and the descriptors a disk may be opened with. *)
Record lease_env := LeaseEnv {
  le_ss : Z;
  le_align : Z;
  le_max_hosts : Z;
  le_clock : list event -> Z -> Prop;
  le_host : list event -> Z -> host_status -> Prop;
  le_space : sync_disk -> Z -> Prop;
  le_fd : sync_disk -> Z -> Prop
}.

(** The fields of a leader record of this lease that do not change, and a lease
    version that can still grow. *)
Record lease_leader (E : lease_env) (l : leader_record) : Prop := {
  ll_ss : l.(lr_sector_size) = E.(le_ss);
  ll_align : leader_align_size l = E.(le_align);
  ll_max : l.(lr_max_hosts) = E.(le_max_hosts);
  ll_num : l.(lr_num_hosts) <= E.(le_max_hosts);
  ll_lver : l.(lr_lver) + 1 < 2 ^ 64
}.

(** A read that shows a record that verifies for [t] shows one of the lease. *)
Definition lease_event (E : lease_env) (t : token) (e : event) : Prop :=
  match e with
  | EvRead _ _ _ rv m =>
      let bs := mem_read m 0 sizeof_leader_record in
      rv = 0 -> check_leader t (leader_record_in bs) (leader_checksum bs) = SANLK_OK ->
      lease_leader E (leader_record_in bs)
  | _ => True
  end.

Definition env_of (E : lease_env) (t : token) : env := fun h X c x =>
  resp_ok c x /\ Forall (lease_event E t) (ev c x) /\
  match c in cmd X return X -> Prop with
  | CMemalign _ => fun r => fst r = 0
  | CMonotime => fun now => E.(le_clock) h now
  | CHostInfo name host_id => fun r => fst r = 0 /\
      (strncmp_eq NAME_ID_SIZE name t.(t_lockspace_name) = true -> E.(le_host) h host_id (snd r))
  | CLockspaceDisk name => fun r => strncmp_eq NAME_ID_SIZE name t.(t_lockspace_name) = true ->
      0 <= r.1.1 -> E.(le_space) r.1.2 r.2
  | COpenDisk d => fun r => 0 <= fst r -> E.(le_fd) d (snd r)
  | _ => fun _ => True
  end x.

(** Sizes that hold every slot of the lease. *)
Definition sizes_hold (E : lease_env) (ss align : Z) : Prop :=
  (ss = 512 \/ ss = 4096) /\ (2 + E.(le_max_hosts)) * ss <= align <= 8388608.

Record acquire_geometry (E : lease_env) (t : token) : Prop := {
  ag_lease : sizes_hold E E.(le_ss) E.(le_align);
  ag_token : sizes_hold E t.(t_sector_size) t.(t_align_size);
  ag_max : E.(le_max_hosts) <= 2000;
  ag_host : 1 <= t.(t_host_id) <= E.(le_max_hosts);
  ag_gen : is_u 64 t.(t_host_generation);
  ag_disks : t.(t_disks) <> [];
  ag_fds : NoDup (sd_fd <$> t.(t_disks));
  ag_off : Forall (fun d => 0 <= d.(sd_offset) < 2 ^ 62) t.(t_disks)
}.

(** The token of the same host for the same lease; its sizes, flags and shared
    bitmap may differ. *)
Record same_lease (t t' : token) : Prop := {
  sl_host : t'.(t_host_id) = t.(t_host_id);
  sl_gen : t'.(t_host_generation) = t.(t_host_generation);
  sl_disks : t'.(t_disks) = t.(t_disks);
  sl_space : t'.(t_lockspace_name) = t.(t_lockspace_name);
  sl_name : t'.(t_name) = t.(t_name)
}.

Section acquire.
Context (com : command_line) (flags acquire_lver new_num_hosts : Z).
Context (E : lease_env) (t : token) (Hgeo : acquire_geometry E t).

Abbreviation R := (env_of E t).

Record token_ok (t' : token) : Prop := {
  tk_same : same_lease t t';
  tk_sizes : sizes_hold E t'.(t_sector_size) t'.(t_align_size)
}.

Lemma token_ok_leader t' : token_ok t' -> leader_geometry t'.
Proof.
  intros [[_ _ Hd _ _] [Hss _]]. destruct Hgeo. split; [done|by rw Hd|].
  rw Hd. eapply Forall_impl; [|done]. cbn. lia.
Qed.

Lemma check_leader_same t' l c : same_lease t t' -> check_leader t' l c = check_leader t l c.
Proof. intros [E1 _ _ E2 E3]. unfold check_leader. by rw E1 E2 E3. Qed.

Lemma saw_leader_same t' d l e : same_lease t t' -> saw_leader t' d l e <-> saw_leader t d l e.
Proof.
  intros Hs. pose proof (fun l c => check_leader_same t' l c Hs) as Hc.
  split; intros (len & m & H1 & H2 & H3 & H4); exists len, m; (do 3 (split; [done|])); [rw -Hc|rw Hc]; done.
Qed.

Lemma majority_seen_same t' l h : same_lease t t' -> majority_leader_seen t' l h -> majority_leader_seen t l h.
Proof.
  intros Hs (ds & H1 & H2 & H3). rw (sl_disks _ _ Hs) in H1, H2. exists ds. split; [done|]. split; [done|].
  eapply Forall_impl; [|exact H3]. intros d (l' & e & He & Hsaw & Hm). exists l', e.
  split; [done|]. split; [by apply (proj1 (saw_leader_same t' d l' e Hs))|done].
Qed.

Lemma leader_shown_same t' l h : same_lease t t' -> leader_shown t' l h -> leader_shown t l h.
Proof.
  intros Hs (d & e & Hd & He & Hsaw). exists d, e. rw (sl_disks _ _ Hs) in Hd. split; [done|]. split; [done|].
  by apply (proj1 (saw_leader_same t' d l e Hs)).
Qed.

(** A leader that a majority of the disks backs, and that is itself, timestamps
    and writer included, the verified record of one of the disks. *)
Definition leader_known (l : leader_record) (h : list event) : Prop :=
  majority_leader_seen t l h /\ leader_shown t l h.

(** Reading, in the environment. *)
Definition reads (h h' : list event) : Prop :=
  exists es, h' = h ++ es /\ Forall not_write es /\ Forall (lease_event E t) es.

Lemma reads_refl h : reads h h.
Proof. exists []. by rw app_nil_r. Qed.

Lemma reads_trans h1 h2 h3 : reads h1 h2 -> reads h2 h3 -> reads h1 h3.
Proof.
  intros (w1 & -> & H1 & H1') (w2 & -> & H2 & H2'). exists (w1 ++ w2). rw app_assoc.
  split; [done|]. split; by apply Forall_app.
Qed.

Lemma reads_grows h h' : reads h h' -> grows h h'.
Proof. intros (es & -> & ? & _). by exists es. Qed.

Lemma env_resp h X (c : cmd X) x : R h X c x -> resp_ok c x /\ Forall (lease_event E t) (ev c x).
Proof. by intros (? & ? & _). Qed.

(** A reading part of the program, proved for any environment. *)
Lemma always_reads {A} (p : prog A) (P : list event -> A -> Prop) h :
  always p (grows h) (fun h' r => grows h h' /\ P h' r) h ->
  always_in R p (reads h) (fun h' r => reads h h' /\ P h' r) h.
Proof.
  intros H. pose proof (always_embed (lease_event E t) p _ _ R [] h env_resp H) as H'.
  assert (Hr : forall es, grows h (h ++ es) -> Forall (lease_event E t) es -> reads h (h ++ es)).
  { intros es (es' & Ees & Hnw) Hes. apply app_inv_head in Ees as ->. by exists es'. }
  eapply always_mono; [exact H'| |].
  - intros h' (es & -> & Hg & Hes). by apply Hr.
  - intros h' r _ (es & -> & [Hg HP] & Hes). split; [by apply Hr|done].
Qed.

(** ** Reading the lease area *)

Lemma max_mbal_always len m ss n q mbal mq (I : list event -> Prop) h :
  (ss = 512 \/ ss = 4096) -> (forall i, byte_ok (m i)) -> 0 <= q ->
  (2 + q + Z.of_nat n) * ss <= len <= 8388608 -> is_u 64 mbal -> I h ->
  always_in R (max_mbal_loop len m ss n q mbal mq) I
    (fun h' r => h' = h /\ (fst r < 0 \/ fst r = SANLK_OK) /\ is_u 64 (fst (snd r))) h.
Proof.
  intros Hss Hm. revert q mbal mq. induction n as [|n IH]; intros q mbal mq Hq Hlen Hmb Hh; cbn [max_mbal_loop].
  { apply always_ret; [done|]. split; [done|]. split; [by right|done]. }
  assert (u32 ((2 + q) * ss) = (2 + q) * ss) as -> by (apply wrapu_small; unfold is_u; nia).
  change (Z.of_nat sizeof_paxos_dblock) with 56.
  apply always_bind, always_buf_get; [nia|lia|nia|done|].
  set (bs := mem_read _ _ _). destruct (verify_dblock _ _ <? 0) eqn:Ev; zbool.
  { apply always_ret; [done|]. split; [done|]. split; [by left|done]. }
  assert (Hok : paxos_dblock_ok (paxos_dblock_in bs)).
  { apply paxos_dblock_in_ok; [unfold bs; by rw length_mem_read|by apply mem_read_ok]. }
  destruct ((mbal =? 0) || _); (apply IH; [lia|nia| |done]); [by destruct Hok|done].
Qed.

(** What a read of a lease area shows. *)
Definition area_shown (h' : list event) (r : Z * lease_area) (d : sync_disk) : Prop :=
  fst r < 0 \/
  fst r = SANLK_OK /\ leader_record_ok (snd r).(la_leader) /\ is_u 64 (snd r).(la_max_mbal) /\
  exists e, e ∈ h' /\ saw_leader t d (snd r).(la_leader) e.

(** The verification and the scan of the area [m] that was read from [d]. *)
Lemma lease_scan_always tk d o m our h :
  token_ok tk -> d ∈ t.(t_disks) -> (forall i, byte_ok (m i)) ->
  let ev0 := EvRead d.(sd_fd) d.(sd_offset) tk.(t_align_size) 0 m in
  let bs := mem_read m 0 sizeof_leader_record in
  let l := leader_record_in bs in
  ev0 ∈ h -> lease_event E t ev0 ->
  always_in R
    (rv ← verify_leader tk d l (leader_checksum bs);
     if rv <? 0 then Ret (rv, LeaseArea l our o.(la_max_mbal) o.(la_max_q))
     else
       mm ← max_mbal_loop tk.(t_align_size) m tk.(t_sector_size) (Z.to_nat l.(lr_num_hosts)) 0 0 (-1);
       if fst mm <? 0 then Ret (fst mm, LeaseArea l our o.(la_max_mbal) o.(la_max_q))
       else Ret (fst mm, LeaseArea l our (fst (snd mm)) (snd (snd mm))))
    (reads h) (fun h' r => reads h h' /\ area_shown h' r d) h.
Proof.
  intros Htk Hd Hm ev0 bs l Hev0 Hlev. pose proof (token_ok_leader tk Htk) as Hlg. destruct Htk as [Hs [Hss Hal]].
  assert (Hok : leader_record_ok l) by (apply leader_record_in_ok; [unfold bs; by rw length_mem_read|by apply mem_read_ok]).
  rw -(sl_disks _ _ Hs) in Hd. apply always_bind.
  eapply always_mono; [by apply always_reads, (verify_leader_always tk Hlg)|done|].
  intros h2 rv Hr2 [_ Hv]. destruct Hv as [(-> & Hmag & Hck)|Hlt].
  2:{ apply Z.ltb_lt in Hlt as Elt. rw Elt. apply always_ret; [done|]. split; [done|]. by left. }
  cbn [Z.ltb]. rw (check_leader_same _ _ _ Hs) in Hck.
  destruct (Hlev eq_refl Hck) as [_ _ _ Hnum _].
  assert (Hn : 0 <= l.(lr_num_hosts)) by (unfold leader_record_ok, is_u in Hok; lia).
  apply always_bind. eapply always_mono; [apply max_mbal_always; [done|done|done| |by vm_compute|exact Hr2]|done|].
  { rw Z2Nat.id //. fold bs l in Hnum. nia. }
  intros h' [rv [mb mq]] _ (-> & Hrv' & Hmb). cbn [fst snd] in *.
  destruct Hrv' as [Hlt| ->].
  { apply Z.ltb_lt in Hlt as Elt. rw Elt. apply always_ret; [done|]. split; [done|]. by left. }
  cbn [Z.ltb]. apply always_ret; [done|]. split; [done|]. right. do 3 (split; [done|]).
  exists ev0. split; [by apply (grows_elem h); [apply reads_grows|]|].
  by exists tk.(t_align_size), m.
Qed.

Lemma lease_read_one_always tk d o h :
  token_ok tk -> d ∈ t.(t_disks) ->
  always_in R (_lease_read_one tk d o) (reads h) (fun h' r => reads h h' /\ area_shown h' r d) h.
Proof.
  intros Htk Hd. pose proof Htk as [Hs [Hss Hal]]. destruct Hgeo as [_ _ Hmax Hhid _ _ _ _].
  unfold _lease_read_one. rw (sl_host _ _ Hs).
  assert (u32 t.(t_host_id) = t.(t_host_id)) as -> by (apply wrapu_small; unfold is_u; lia).
  assert (u32 tk.(t_sector_size) = tk.(t_sector_size)) as -> by (apply wrapu_small; unfold is_u; lia).
  destruct (Z.ltb_spec tk.(t_align_size) 0); [nia|].
  apply always_bind, always_quiet; [done|apply reads_refl|]. intros [e b] (_ & _ & He). cbn [fst] in *. rw He.
  cbn [nz Z.eqb negb]. unfold read_iobuf.
  apply always_bind, always_call; [apply reads_refl|]. intros [rv m] ([Hrv Hm] & Hev & _). cbn [fst snd ev] in *.
  set (ev0 := EvRead _ _ _ _ _) in *. assert (Hr1 : reads h (h ++ [ev0])).
  { exists [ev0]. split; [done|]. split; [by apply Forall_singleton|done]. }
  split; [done|]. destruct (rv <? 0) eqn:Erv; zbool.
  { apply always_ret; [done|]. split; [done|]. by left. }
  assert (rv = 0) as -> by lia.
  apply always_bind, always_buf_get; [lia|done|change (Z.of_nat sizeof_leader_record) with 200; nia|done|].
  change (Z.to_nat (Z.of_nat sizeof_leader_record)) with sizeof_leader_record.
  assert (u32 ((t.(t_host_id) + 1) * tk.(t_sector_size)) = (t.(t_host_id) + 1) * tk.(t_sector_size)) as ->.
  { apply wrapu_small. unfold is_u. nia. }
  apply always_bind, always_buf_get;
    [nia|done|change (Z.of_nat sizeof_paxos_dblock) with 56; nia|done|].
  eapply always_mono; [apply lease_scan_always; [done|done|done| |by inversion Hev]|intros; by eapply reads_trans|].
  - apply elem_of_app. right. by apply list_elem_of_singleton.
  - intros h' r _ [Hr Hsh]. split; [by eapply reads_trans|done].
Qed.

Abbreviation obs := (sync_disk * leader_record * bool)%type.
Abbreviation disk_of := (fun o : obs => o.1.1).

(** A disk whose area could not be read leaves the zeroed leader. *)
Lemma looped_skip os k leaders reps h d :
  looped t os (S k) leaders reps h -> looped t (os ++ [(d, leader_zero, false)]) k leaders reps h.
Proof.
  intros Hlo. pose proof (looped_fail t os k leaders reps h d leader_zero Hlo leader_zero_ok) as H.
  rw list_insert_id in H; [|done]. destruct Hlo as [-> _ _].
  rw list_lookup_fmap lookup_app_r // Nat.sub_diag //.
Qed.

Definition read_code (os : list obs) (rv : Z) : Prop := os = [] \/ rv < 0 \/ rv = SANLK_OK.

(** Only verified records are kept. *)
Definition kept (os : list obs) : Prop := Forall (fun o : obs => o.2 = false -> o.1.2 = leader_zero) os.

Lemma kept_snoc os d l g : kept os -> (g = false -> l = leader_zero) -> kept (os ++ [(d, l, g)]).
Proof. intros Hk Hl. apply Forall_app. split; [done|]. by apply Forall_singleton. Qed.

Lemma lease_read_loop_always tk ds one os leaders reps num rv mb mq our h0 h :
  token_ok tk -> ds ⊆ t.(t_disks) -> looped t os (length ds) leaders reps h -> reads h0 h ->
  is_u 64 mb -> read_code os rv -> kept os ->
  always_in R (lease_read_loop tk ds (length os) one leaders reps num rv mb mq our) (reads h0)
    (fun h' r => let '(leaders', reps', num', rv', (mb', _), _) := r in
       exists os', (disk_of <$> os') = (disk_of <$> os) ++ ds /\ looped t os' 0 leaders' reps' h' /\
         reads h0 h' /\ is_u 64 mb' /\ read_code os' rv' /\ kept os') h.
Proof.
  intros Htk. revert one os leaders reps num rv mb mq our h.
  induction ds as [|d ds IH]; intros one os leaders reps num rv mb mq our h Hsub Hlo Hr Hmb Hrv Hk;
    cbn [lease_read_loop].
  { apply always_ret; [done|]. exists os. by rw app_nil_r. }
  assert (Hd : d ∈ t.(t_disks)) by (apply Hsub, list_elem_of_here).
  assert (Hsub' : ds ⊆ t.(t_disks)) by (intros x Hx; by apply Hsub, list_elem_of_further).
  assert (Hnext : forall l g one' leaders' reps' num' rv' mb' mq' our' h', reads h0 h' -> is_u 64 mb' ->
    rv' < 0 \/ rv' = SANLK_OK -> (g = false -> l = leader_zero) -> looped t (os ++ [(d, l, g)]) (length ds) leaders' reps' h' ->
    always_in R (lease_read_loop tk ds (S (length os)) one' leaders' reps' num' rv' mb' mq' our') (reads h0)
      (fun h' r => let '(leaders', reps', num', rv', (mb', _), _) := r in
         exists os', (disk_of <$> os') = (disk_of <$> os) ++ d :: ds /\ looped t os' 0 leaders' reps' h' /\
           reads h0 h' /\ is_u 64 mb' /\ read_code os' rv' /\ kept os') h').
  { intros l g one' leaders' reps' num' rv' mb' mq' our' h' Hr' Hmb' Hrv' Hz Hlo'.
    replace (S (length os)) with (length (os ++ [(d, l, g)])) by (rw length_app; cbn; lia).
    eapply always_mono; [apply IH; try done; [by right|by apply kept_snoc]|done|].
    intros h2 [[[[[ls rs] n2] rv2] [mb2 mq2]] our2] _ (os' & Eos & Hos). exists os'. rw Eos fmap_app -app_assoc. by split. }
  apply always_bind. eapply always_mono; [by apply lease_read_one_always|intros; by eapply reads_trans|].
  intros h1 [rv1 one1] _ [Hr1 Hsh]. cbn [fst snd] in Hsh.
  assert (Hr01 : reads h0 h1) by (by eapply reads_trans).
  pose proof (looped_grows t _ _ _ _ _ _ (reads_grows _ _ Hr1) Hlo) as Hlo1.
  destruct Hsh as [Hlt|(E1 & Hok & Hmb1 & e & He & Hsaw)]; cbn [fst snd] in *.
  { apply Z.ltb_lt in Hlt as Elt. rw Elt. apply (Hnext leader_zero false); [done|done|by left|done|by apply looped_skip]. }
  rw E1. cbn [Z.ltb]. apply (Hnext one1.(la_leader) true); [done|by destruct (_ || _)|by right|done|].
  by eapply looped_good.
Qed.

Definition lease_shown (h h' : list event) (r : Z * lease_area) : Prop :=
  reads h h' /\
  (fst r < 0 \/
   fst r = SANLK_OK /\ leader_record_ok (snd r).(la_leader) /\ is_u 64 (snd r).(la_max_mbal) /\
   leader_known (snd r).(la_leader) h').

(** A lease read believes only a leader that a majority of the disks backs, and
    returns the verified record of one of them. *)
Lemma lease_read_always tk one o h :
  token_ok tk ->
  always_in R (paxos_lease_read tk one o) (reads h) (lease_shown h) h.
Proof.
  intros Htk. pose proof (tk_same _ Htk) as Hs. unfold paxos_lease_read, num_disks, disk0. rw (sl_disks _ _ Hs).
  destruct (Z.ltb_spec 1 (Z.of_nat (length t.(t_disks)))) as [Hn|Hn].
  - unfold _lease_read_num, alloc_arrays, num_disks. rw (sl_disks _ _ Hs).
    assert (Hfail : always_in R (Ret (- ENOMEM, o)) (reads h) (lease_shown h) h).
    { apply always_ret; [apply reads_refl|]. split; [apply reads_refl|]. left. by vm_compute. }
    apply always_bind, always_bind, always_quiet; [done|apply reads_refl|].
    intros [|] _; cbn [negb]; [|apply always_ret; [apply reads_refl|exact Hfail]].
    apply always_quiet; [done|apply reads_refl|]. intros [|] _; cbn [negb]; [|done].
    apply always_bind. eapply always_mono;
      [apply (lease_read_loop_always tk t.(t_disks) one []); [done|done| |apply reads_refl|by vm_compute|by left|constructor]|done|].
    { split; [by rw fmap_replicate|exists []; split; [done|by split]|done]. }
    intros h' [[[[[leaders reps] num] rv] [mb mq]] our] _ (os & Eos & Hlo & Hr & Hmb & Hrv & Hk).
    cbn [fmap list_fmap app] in Eos. destruct (num =? 0).
    { apply always_ret; [done|]. split; [done|]. left. by vm_compute. }
    destruct (majority_leader _ _ _) as [l|] eqn:El; (apply always_ret; [done|]); (split; [done|]); cbn [fst snd].
    2:{ left. by vm_compute. }
    destruct Hrv as [-> |[Hlt| ->]].
    { cbn in Eos. rw -Eos in Hn. cbn in Hn. lia. }
    { by left. }
    destruct (looped_majority t os leaders reps h' l Eos Hlo El) as (Hm & Hok & _).
    pose proof (looped_shown t os leaders reps h' l Eos Hlo Hk El) as Hsh. by right.
  - destruct (t_disks t) as [|d ds] eqn:Ed; [by destruct (ag_disks _ _ Hgeo)|].
    apply always_bind, always_ret; [apply reads_refl|].
    eapply always_mono; [apply (lease_read_one_always tk d o h Htk); rw Ed; apply list_elem_of_here|done|].
    intros h' r _ [Hr Hsh]. split; [done|]. destruct Hsh as [?|(E1 & Hok & Hmb & e & He & Hsaw)]; [by left|right].
    do 3 (split; [done|]). destruct ds as [|d2 ds]; [|cbn in Hn; lia].
    split; [|exists d, e; rw Ed; split; [apply list_elem_of_here|done]].
    exists [d]. rw Ed. split; [done|]. split; [cbn; lia|]. apply Forall_singleton. exists (snd r).(la_leader), e.
    split; [done|]. split; [done|apply leaders_match_refl].
Qed.

Lemma leaders_match_lease l l' : leaders_match l l' = true -> lease_leader E l -> lease_leader E l'.
Proof.
  intros Hm [H1 H2 H3 H4 H5].
  assert (l.(lr_flags) = l'.(lr_flags) /\ l.(lr_sector_size) = l'.(lr_sector_size) /\
    l.(lr_num_hosts) = l'.(lr_num_hosts) /\ l.(lr_max_hosts) = l'.(lr_max_hosts) /\ l.(lr_lver) = l'.(lr_lver))
    as (E1 & E2 & E3 & E4 & E5) by (unfold leaders_match in Hm; zbool; done).
  unfold leader_align_size in H2. rw E1 E2 in H2. rw E2 in H1. rw E3 in H4. rw E4 in H3. rw E5 in H5. by split.
Qed.

(** What is believed is a leader of the lease, with a slot for this host. *)
Lemma majority_lease h l :
  Forall (lease_event E t) h -> majority_leader_seen t l h ->
  lease_leader E l /\ t.(t_host_id) <= l.(lr_num_hosts).
Proof.
  intros Hh (ds & Hsub & Hlen & Hds). destruct ds as [|d ds]; [cbn in Hlen; lia|].
  inversion Hds as [|? ? (l' & e & He & Hsaw & Hm) _]; subst.
  pose proof (proj1 (list.Forall_forall _ _) Hh e He) as Hev.
  destruct Hsaw as (len & m & -> & El & _ & Hck). pose proof Hck as Hck'. rw El in Hck'.
  pose proof (Hev eq_refl Hck') as Hlease. rw -El in Hlease.
  split; [by eapply leaders_match_lease|].
  assert (l'.(lr_num_hosts) = l.(lr_num_hosts)) as <- by (unfold leaders_match in Hm; zbool; congruence).
  unfold check_leader in Hck. destruct (negb _); [done|]. do 3 (destruct (negb _); [done|]).
  destruct (Z.ltb_spec l'.(lr_num_hosts) t.(t_host_id)); [done|lia].
Qed.

(** ** What is known of the owner *)

(** [e] is a successful read of host [id]'s delta lease in the lockspace [name]
    on disk [d], which shows the record [l], and [l] verifies. *)
Definition saw_host (d : sync_disk) (ss : Z) (name : list Z) (id : Z) (l : leader_record) (e : event) : Prop :=
  exists m, e = EvRead d.(sd_fd) (u64 (d.(sd_offset) + u64 (id - 1) * ss)) ss 0 m /\
    l = leader_record_in (mem_read m 0 sizeof_leader_record) /\
    DeltaLease.verify_leader name l (leader_checksum (mem_read m 0 sizeof_leader_record)) = SANLK_OK.

Definition saw_dblock (d : sync_disk) (ss id : Z) (pd : paxos_dblock) (e : event) : Prop :=
  exists m, e = EvRead d.(sd_fd) (u64 (d.(sd_offset) + u64 (2 + id - 1) * ss)) ss 0 m /\
    pd = paxos_dblock_in (mem_read m 0 sizeof_paxos_dblock).

(** The disk of the lockspace, opened. *)
Definition space_disk (d : sync_disk) (ss : Z) : Prop :=
  exists d0, E.(le_space) d0 ss /\ d.(sd_offset) = d0.(sd_offset) /\ E.(le_fd) d0 d.(sd_fd).

(** A read of the delta lease of the owner of [cur], in the lease's lockspace,
    that shows [hl]. *)
Definition owner_shown (cur hl : leader_record) (es : list event) : Prop :=
  exists d ss e, space_disk d ss /\ e ∈ es /\ saw_host d ss cur.(lr_space_name) cur.(lr_owner_id) hl e.

(** The renewal thread has seen the owner alive in the generation of [cur]. *)
Definition live_status (cur : leader_record) (hs : host_status) : Prop :=
  hs.(hs_last_check) <> 0 /\ hs.(hs_last_live) <> 0 /\
  hs.(hs_owner_id) = cur.(lr_owner_id) /\ hs.(hs_owner_generation) = cur.(lr_owner_generation).

(** The owner has been watched since the time [ws], from which on it has shown
    the timestamp [ts] (0: none yet): since the renewal thread last saw it
    change, or since the clock was read here and the timestamp read after that. *)
Definition watched (cur : leader_record) (hs : host_status) (ws ts : Z) (h : list event) : Prop :=
  exists h0 es, h = h0 ++ es /\ E.(le_host) h0 cur.(lr_owner_id) hs /\
    (live_status cur hs /\ ws = hs.(hs_last_live) \/ E.(le_clock) h0 ws) /\
    (ts = 0 \/ live_status cur hs /\ ts = hs.(hs_timestamp) \/
     exists hl, owner_shown cur hl es /\ ts = hl.(lr_timestamp)).

(** Its delta lease still has that timestamp, longer than a live host goes
    without renewing it. *)
Definition expired (cur : leader_record) (h : list event) : Prop :=
  exists hs ws ts hl now, watched cur hs ws ts h /\ ts <> 0 /\
    owner_shown cur hl h /\ hl.(lr_timestamp) = ts /\
    hl.(lr_owner_id) = cur.(lr_owner_id) /\ hl.(lr_owner_generation) <= cur.(lr_owner_generation) /\
    E.(le_clock) h now /\ u64 (calc_host_dead_seconds com hs.(hs_io_timeout)) < u64 (now - ws).

(** The owner of [cur] no longer holds the lease: its delta lease is free, or
    taken by another host or a later generation; or it has expired; or [cur]
    was written on its behalf and its dblock says it has released the lease. *)
Definition owner_gone (cur : leader_record) (h : list event) : Prop :=
  (exists hl, owner_shown cur hl h /\
     (hl.(lr_timestamp) = LEASE_FREE \/ hl.(lr_owner_id) <> cur.(lr_owner_id) \/
      cur.(lr_owner_generation) < hl.(lr_owner_generation))) \/
  (exists h1 h2, h = h1 ++ h2 /\ expired cur h1) \/
  (cur.(lr_write_id) <> cur.(lr_owner_id) /\
   exists d pd e, hd_error t.(t_disks) = Some d /\ e ∈ h /\
     saw_dblock d E.(le_ss) cur.(lr_owner_id) pd e /\ has_flag pd.(pd_flags) DBLOCK_FL_RELEASED = true).

(** What entitles this host to run a ballot for the version after [cur]. *)
Definition entitled (cur : leader_record) (h : list event) : Prop :=
  leader_known cur h /\
  (has_flag flags PAXOS_ACQUIRE_FORCE = true \/
   cur.(lr_timestamp) = LEASE_FREE \/
   cur.(lr_owner_id) = t.(t_host_id) /\ cur.(lr_owner_generation) <= t.(t_host_generation) \/
   owner_gone cur h).

Lemma majority_seen_app l h es : majority_leader_seen t l h -> majority_leader_seen t l (h ++ es).
Proof.
  intros (ds & H1 & H2 & H3). exists ds. split; [done|]. split; [done|].
  eapply Forall_impl; [|exact H3]. intros d (l' & e & He & H). exists l', e. split; [|done].
  apply elem_of_app. by left.
Qed.

Lemma leader_known_app l h es : leader_known l h -> leader_known l (h ++ es).
Proof.
  intros [Hm (d & e & Hd & He & Hsaw)]. split; [by apply majority_seen_app|]. exists d, e.
  split; [done|]. split; [|done]. apply elem_of_app. by left.
Qed.

Lemma owner_shown_app cur hl h es : owner_shown cur hl h -> owner_shown cur hl (h ++ es).
Proof. intros (d & ss & e & Hd & He & H). exists d, ss, e. split; [done|]. split; [|done]. apply elem_of_app. by left. Qed.

Lemma owner_gone_app cur h es : owner_gone cur h -> owner_gone cur (h ++ es).
Proof.
  intros [(hl & H & Hc)|[(h1 & h2 & -> & H)|(Hw & d & pd & e & Hd & He & H)]].
  - left. exists hl. split; [by apply owner_shown_app|done].
  - right; left. exists h1, (h2 ++ es). by rw app_assoc.
  - right; right. split; [done|]. exists d, pd, e. split; [done|]. split; [|done]. apply elem_of_app. by left.
Qed.

Lemma entitled_app cur h es : entitled cur h -> entitled cur (h ++ es).
Proof.
  intros [Hm H]. split; [by apply leader_known_app|].
  destruct H as [?|[?|[?|?]]]; [by left|by right; left|by right; right; left|].
  right; right; right. by apply owner_gone_app.
Qed.

Lemma watched_app cur hs ws ts h es : watched cur hs ws ts h -> watched cur hs ws ts (h ++ es).
Proof.
  intros (h0 & es0 & -> & H1 & H2 & H3). exists h0, (es0 ++ es). rw app_assoc. split; [done|].
  split; [done|]. split; [done|]. destruct H3 as [?|[?|(hl & Hhl & ?)]]; [by left|by right; left|].
  right; right. exists hl. split; [by apply owner_shown_app|done].
Qed.

(** ** What is written *)

(** The next version of the lease. *)
Abbreviation next_lver cur := (cur.(lr_lver) + 1).

(** A ballot for the version after [cur] that succeeded with [pd]. *)
Definition ballot_won (cur : leader_record) (pd : paxos_dblock) (hb : list event) : Prop :=
  exists nh b v, committed_log E.(le_ss) nh t.(t_disks) t.(t_host_id) t.(t_host_generation)
                   (next_lver cur) b hb v /\
    vote_of pd = vote2 (next_lver cur) b v.

(** The write [e] after the history [h]: our own slot with a vote for the version
    after a leader we are entitled to follow, or, after a ballot for it was
    won, the leader of that version with the values of the ballot. *)
Definition justified (h : list event) (e : event) : Prop :=
  exists cur, entitled cur h /\
    ((exists v, own_write E.(le_ss) t.(t_host_id) t.(t_disks) v e /\ v.(pd_lver) = next_lver cur) \/
     (exists h0 hb w pd tk now d rv, h = h0 ++ hb ++ w /\ ballot_won cur pd hb /\ same_lease t tk /\
        d ∈ t.(t_disks) /\ e = leader_write tk (new_leader flags new_num_hosts tk cur pd now) d rv)).

Definition acquiring (h : list event) : Prop :=
  Forall (lease_event E t) h /\
  forall h1 e h2, h = h1 ++ e :: h2 -> not_write e \/ justified h1 e.

(** What [SANLK_OK] stands for: the leader returned names this host; either a
    majority of the disks showed it, written on our behalf, or we have
    written it to a majority after a ballot won. *)
Definition acquired (h : list event) (l : leader_record) : Prop :=
  l.(lr_owner_id) = t.(t_host_id) /\
  exists cur, entitled cur h /\ l.(lr_lver) = next_lver cur /\
    (l.(lr_owner_generation) = t.(t_host_generation) /\ majority_leader_seen t l h \/
     exists h0 hb w pd tk now, h = h0 ++ hb ++ w /\ ballot_won cur pd hb /\ same_lease t tk /\
       l = sealed_leader (new_leader flags new_num_hosts tk cur pd now) /\
       majority t.(t_disks) (fun d => leader_write tk (new_leader flags new_num_hosts tk cur pd now) d 0 ∈ h)).

Lemma acquiring_app h es :
  acquiring h -> Forall (lease_event E t) es ->
  (forall es1 e es2, es = es1 ++ e :: es2 -> not_write e \/ justified (h ++ es1) e) -> acquiring (h ++ es).
Proof.
  intros [Hh H] Hes Hj. split; [by apply Forall_app|]. intros h1 e h2 Eq.
  apply app_eq_inv in Eq as [(k & -> & Ek)|(k & Eh & ->)].
  - destruct k as [|x k].
    + rw app_nil_r in Hj. destruct (Hj [] e h2 (eq_sym Ek)) as [?|Hje]; [by left|right]. by rw app_nil_r in Hje.
    + injection Ek as <- _. by eapply H.
  - rw Eh. by apply (Hj k e h2).
Qed.

Lemma lease_acquiring_reads h h' : acquiring h -> reads h h' -> acquiring h'.
Proof.
  intros Ha (es & -> & Hnw & Hes). apply acquiring_app; [done..|]. intros es1 e es2 ->. left.
  apply Forall_app in Hnw as [_ Hnw]. by inversion Hnw.
Qed.

(** ** The labels *)

(** The host id disk, once it has been opened, is that of the lockspace. *)
Definition disk_ok (a : acq) : Prop := forall d ss, a.(aq_host_disk) = Some (d, ss) -> space_disk d ss.

(** The lease has been read, and the token has its sizes. *)
Record ready (a : acq) (h : list event) : Prop := {
  rd_token : token_ok a.(aq_token);
  rd_ss : a.(aq_token).(t_sector_size) = E.(le_ss);
  rd_cur : leader_record_ok a.(aq_cur);
  rd_tmp : leader_record_ok a.(aq_tmp);
  rd_mbal : is_u 64 a.(aq_max_mbal);
  rd_disk : disk_ok a;
  rd_seen : leader_known a.(aq_cur) h
}.

Definition label_inv (l : label) (a : acq) (h : list event) : Prop :=
  match l with
  | LRestart => token_ok a.(aq_token) /\ disk_ok a
  | LWait => ready a h /\ a.(aq_host_disk) <> None /\
      watched a.(aq_cur) a.(aq_hs) a.(aq_wait_start) a.(aq_last_timestamp) h
  | LRun => ready a h /\ entitled a.(aq_cur) h
  | LRetryBallot => ready a h /\ entitled a.(aq_cur) h /\
      a.(aq_next_lver) = next_lver a.(aq_cur) /\ is_u 64 a.(aq_our_mbal)
  end.

Definition step_post (h : list event) (n : acq_next) : Prop :=
  acquiring h /\
  match n with
  | Goto l a => label_inv l a h
  | Out error a => error = SANLK_OK -> acquired h a.(aq_leader_ret)
  end.

Lemma ready_reads a h h' : ready a h -> reads h h' -> ready a h'.
Proof. intros [? ? ? ? ? ? ?] (es & -> & _). split; try done. by apply leader_known_app. Qed.

Lemma out_error error a h : acquiring h -> error < 0 -> always_in R (Ret (Out error a)) acquiring step_post h.
Proof.
  intros Ha He. apply always_ret; [done|]. split; [done|]. intros ->.
  assert (0 <= SANLK_OK) by (by vm_compute). lia.
Qed.

Lemma goto l a h : acquiring h -> label_inv l a h -> always_in R (Ret (Goto l a)) acquiring step_post h.
Proof. intros Ha Hl. apply always_ret; [done|]. by split. Qed.

Lemma no_owner_wait_spec cur :
  no_owner_wait t cur = true ->
  cur.(lr_timestamp) = LEASE_FREE \/
  cur.(lr_owner_id) = t.(t_host_id) /\ cur.(lr_owner_generation) <= t.(t_host_generation).
Proof.
  unfold no_owner_wait. rw !orb_true_iff !andb_true_iff !Z.eqb_eq Z.ltb_lt.
  intros [[?|[? ?]]|[? ?]]; [by left|right; lia..].
Qed.

Lemma leader_known_space l h :
  leader_known l h -> strncmp_eq NAME_ID_SIZE l.(lr_space_name) t.(t_lockspace_name) = true.
Proof.
  intros [_ (d & e & _ & _ & len & m & _ & _ & _ & Hck)]. unfold check_leader in Hck.
  do 2 (destruct (negb _); [done|]). by destruct (strncmp_eq NAME_ID_SIZE l.(lr_space_name) _).
Qed.

Lemma check_owner_always a h :
  acquiring h -> ready a h -> always_in R (acquire_check_owner a) acquiring step_post h.
Proof.
  intros Ha Hr. unfold acquire_check_owner. apply always_bind.
  assert (Hrest : forall od : sync_disk * Z, space_disk od.1 od.2 -> always_in R
    (let a := aq_set_disk (Some od) a in
     r ← call (CHostInfo a.(aq_cur).(lr_space_name) a.(aq_cur).(lr_owner_id));
     let hs := if fst r =? 0 then snd r else a.(aq_hs) in
     if (fst r =? 0) && nz hs.(hs_last_check) && nz hs.(hs_last_live) &&
        (hs.(hs_owner_id) =? a.(aq_cur).(lr_owner_id)) &&
        (hs.(hs_owner_generation) =? a.(aq_cur).(lr_owner_generation))
     then Ret (Goto LWait (aq_set_wait hs hs.(hs_last_live) hs.(hs_timestamp) a))
     else now ← call CMonotime; Ret (Goto LWait (aq_set_wait hs now 0 a))) acquiring step_post h).
  { intros od Hod. cbv zeta. assert (Hdk : disk_ok (aq_set_disk (Some od) a)) by (by intros d ss [= ->]). apply always_bind, always_quiet; [done..|]. intros [rv hs] (_ & _ & Erv & Hhs).
    cbn [fst snd] in *. specialize (Hhs (leader_known_space _ _ (rd_seen _ _ Hr))). rw Erv. cbn [Z.eqb andb].
    destruct (nz _ && _ && _ && _) eqn:Elive.
    - assert (Hlive : live_status a.(aq_cur) hs) by (unfold nz in Elive; zbool; done).
      apply goto; [done|]. split; [by destruct Hr|]. split; [done|].
      exists h, []. rw app_nil_r. split; [done|]. split; [done|]. split; [by left|]. right; left. done.
    - apply always_bind, always_quiet; [done..|]. intros now (_ & _ & Hnow).
      apply goto; [done|]. split; [by destruct Hr|]. split; [done|].
      exists h, []. rw app_nil_r. split; [done|]. split; [done|]. split; [by right|by left]. }
  destruct a.(aq_host_disk) as [[d ss]|] eqn:Ed.
  { apply always_ret; [done|]. by apply Hrest, (rd_disk _ _ Hr). }
  apply always_bind, always_quiet; [done..|]. intros [[rv disk] ss] (_ & _ & Hsp). cbn [fst snd] in Hsp.
  specialize (Hsp (leader_known_space _ _ (rd_seen _ _ Hr))).
  destruct (Z.ltb_spec rv 0); [apply always_ret; [done|]; by apply out_error|].
  apply always_bind, always_quiet; [done..|]. intros [rv' fd] (_ & _ & Hfd). cbn [fst snd] in Hfd |- *.
  destruct (Z.ltb_spec rv' 0); (apply always_ret; [done|]); [by apply out_error|].
  apply Hrest. exists disk. split; [by apply Hsp|]. split; [done|by apply Hfd].
Qed.

Lemma restart_always one a h :
  acquiring h -> label_inv LRestart a h ->
  always_in R (acquire_restart flags acquire_lver one a) acquiring step_post h.
Proof.
  intros Ha [Htk Hdk]. unfold acquire_restart. cbn [aq_token aq_set_tmp aq_cur aq_max_mbal].
  apply always_bind. eapply always_mono; [by apply lease_read_always|intros; by eapply lease_acquiring_reads|].
  intros h1 [rv o] _ [Hr Hres]. cbn [fst snd] in *. assert (Ha1 : acquiring h1) by (by eapply lease_acquiring_reads).
  destruct Hres as [Hlt|(-> & Hok & Hmb & Hseen)].
  { apply Z.ltb_lt in Hlt as Elt. rw Elt. by apply out_error. }
  cbn [Z.ltb aq_token aq_cur aq_set_cur aq_set_tmp].
  destruct (majority_lease h1 o.(la_leader) ltac:(apply Ha1) (proj1 Hseen)) as [[E1 E2 E3 E4 E5] Hnum].
  destruct (ag_lease _ _ Hgeo) as [Hss Hal]. rw E1 E2. destruct Htk as [Hs [Hss' Hal']].
  assert (u32 a.(aq_token).(t_sector_size) = a.(aq_token).(t_sector_size)) as -> by (apply wrapu_small; unfold is_u; lia).
  destruct (negb _ || negb _) eqn:Esz.
  { apply goto; [done|]. split; [|done]. split; [by destruct Hs|]. cbn [aq_token aq_set_token with_sizes t_sector_size t_align_size].
    rw i32_small; [lia|by split]. }
  assert (Hrd : forall c, ready (aq_set_tmp leader_zero c (aq_set_cur o.(la_leader) o.(la_max_mbal) (aq_set_tmp leader_zero false a))) h1).
  { intros c. zbool. split; try done. apply leader_zero_ok. }
  destruct (has_flag flags PAXOS_ACQUIRE_FORCE) eqn:Ef.
  { apply goto; [done|]. split; [by apply Hrd|]. split; [done|by left]. }
  destruct (nz acquire_lver && _); [by apply out_error|].
  destruct (no_owner_wait _ _) eqn:Eo; [|by apply check_owner_always; [|apply (Hrd false)]].
  apply goto; [done|]. split; [by apply Hrd|]. split; [done|].
  assert (no_owner_wait t o.(la_leader) = true) as [?|?]%no_owner_wait_spec; [|by right; left|by right; right; left].
  unfold no_owner_wait in Eo |- *. by rw (sl_host _ _ Hs) (sl_gen _ _ Hs) in Eo.
Qed.

Lemma host_leader_always d ss io name id lr h :
  always (delta_lease_leader_read ss io d name id lr) (grows h)
    (fun h' r => grows h h' /\
       (fst r < 0 \/ fst r = SANLK_OK /\ exists es e, h' = h ++ es /\ e ∈ es /\ saw_host d ss name id (snd r) e)) h.
Proof.
  unfold delta_lease_leader_read. destruct (ss =? 0).
  { apply always_ret; [apply grows_refl|]. split; [apply grows_refl|]. left. by vm_compute. }
  apply always_bind, always_read_sector; [by vm_compute|apply grows_refl| |].
  { intros rv Hrv. cbn [fst snd]. apply Z.ltb_lt in Hrv as E'. rw E'.
    apply always_ret; [apply grows_refl|]. split; [apply grows_refl|]. by left. }
  intros rv m _ Hrv Hm h'. assert (Hg : grows h h') by (by apply grows_one).
  split; [done|]. cbn [fst snd]. split.
  - intros Hlt. apply Z.ltb_lt in Hlt as E'. rw E'. apply always_ret; [done|]. split; [done|]. by left.
  - intros ->. cbn [Z.ltb]. apply always_ret; [done|]. split; [done|]. cbn [fst snd].
    change (length (zeros sizeof_leader_record)) with sizeof_leader_record.
    destruct (verify_leader_code name (leader_record_in (mem_read m 0 sizeof_leader_record))
                (leader_checksum (mem_read m 0 sizeof_leader_record))) as [Ev|Hlt]; [right|by left].
    split; [done|]. eexists _, _. split; [done|]. split; [apply list_elem_of_here|]. by exists m.
Qed.

Lemma read_dblock_shown tk d id h :
  always (read_dblock tk d id) (grows h)
    (fun h' r => grows h h' /\
       (fst r = 0 -> exists e, e ∈ h' /\ saw_dblock d tk.(t_sector_size) id (snd r) e)) h.
Proof.
  unfold read_dblock. apply always_bind, always_quiet; [done|apply grows_refl|]. intros bs [Hl Hb].
  apply always_bind, always_read_sector; [rw Hl; by vm_compute|apply grows_refl| |].
  { intros rv Hrv. apply always_ret; [apply grows_refl|]. split; [apply grows_refl|]. cbn. lia. }
  intros rv m _ Hrv Hm h'. assert (Hg : grows h h') by (by apply grows_one).
  split; [done|]. split; intros Hc; (apply always_ret; [done|]); (split; [done|]); cbn [fst snd]; [lia|].
  intros _. rw Hl. eexists. split; [apply elem_of_app; right; apply list_elem_of_here|].
  exists m. by rw Hc.
Qed.

(** The end of a turn of the wait loop. *)
Lemma wait_next_always a h :
  acquiring h -> label_inv LWait a h -> always_in R (acquire_wait_next a) acquiring step_post h.
Proof.
  intros Ha (Hr & Hd & Hw). unfold acquire_wait_next.
  assert (Hs : reads h (h ++ [EvSleep 1])).
  { exists [EvSleep 1]. split; [done|]. split; by apply Forall_singleton. }
  assert (Ha1 : acquiring (h ++ [EvSleep 1])) by (by eapply lease_acquiring_reads).
  apply always_bind, always_call; [done|]. intros [] _. cbn [ev]. split; [done|].
  apply always_bind, always_quiet; [done..|]. intros [|] _; [by apply out_error|].
  pose proof (token_ok_leader _ (rd_token _ _ Hr)) as Hlg.
  apply always_bind. eapply always_mono;
    [apply always_reads, (lease_leader_read_always _ Hlg _ _ (rd_tmp _ _ Hr))|intros; by eapply lease_acquiring_reads|].
  intros h2 [rv l] _ (Hr2 & Hok & Hres). cbn [fst snd] in *. assert (Ha2 : acquiring h2) by (by eapply lease_acquiring_reads).
  destruct (rv <? 0) eqn:Erv; zbool; [by apply out_error|].
  cbn [aq_cur aq_tmp aq_set_tmp]. destruct (bool_decide _).
  - assert (Hrh : reads h h2) by (by eapply reads_trans). destruct (ready_reads a h h2 Hr Hrh).
    apply goto; [done|]. split; [by split|]. split; [done|].
    destruct Hrh as (es & -> & _). by apply watched_app.
  - apply goto; [done|]. split; [by destruct Hr|by destruct Hr].
Qed.

(** The owner is alive: it may still have released a lease that was written on
    its behalf. *)
Lemma live_owner_always a h :
  acquiring h -> ready a h ->
  always_in R
    (if negb (a.(aq_cur).(lr_write_id) =? a.(aq_cur).(lr_owner_id)) then
       disk ← disk0 a.(aq_token);
       d ← read_dblock a.(aq_token) disk a.(aq_cur).(lr_owner_id);
       if (fst d =? 0) && has_flag (snd d).(pd_flags) DBLOCK_FL_RELEASED
       then Ret (Goto LRun a) else Ret (Out SANLK_ACQUIRE_IDLIVE a)
     else Ret (Out SANLK_ACQUIRE_IDLIVE a)) acquiring step_post h.
Proof.
  intros Ha Hr. destruct (Z.eqb_spec a.(aq_cur).(lr_write_id) a.(aq_cur).(lr_owner_id)) as [_|Hwr];
    cbn [negb]; [by apply out_error|].
  unfold disk0. pose proof (sl_disks _ _ (tk_same _ (rd_token _ _ Hr))) as Edisks. rw Edisks.
  pose proof (ag_disks _ _ Hgeo) as Hne. destruct (t_disks t) as [|d0 ds0] eqn:Et; [done|].
  apply always_bind, always_ret; [done|].
  apply always_bind. eapply always_mono; [apply always_reads, read_dblock_shown|intros; by eapply lease_acquiring_reads|].
  intros h2 [rv pd] _ [Hr2 Hpd]. cbn [fst snd] in *. assert (Ha2 : acquiring h2) by (by eapply lease_acquiring_reads).
  destruct (Z.eqb_spec rv 0) as [-> |_]; cbn [andb]; [|by apply out_error].
  destruct (has_flag _ _) eqn:Efl; [|by apply out_error].
  destruct (Hpd eq_refl) as (e2 & He2 & Hs2). rw (rd_ss _ _ Hr) in Hs2.
  pose proof (ready_reads _ _ _ Hr Hr2) as Hrd2.
  apply goto; [done|]. split; [done|]. split; [apply Hrd2|]. right; right; right; right; right.
  split; [done|]. exists d0, pd, e2. rw Et. by split.
Qed.

Lemma wait_always a h :
  acquiring h -> label_inv LWait a h -> always_in R (acquire_wait com flags a) acquiring step_post h.
Proof.
  intros Ha (Hr & Hd & Hw). unfold acquire_wait. destruct a.(aq_host_disk) as [[d ss]|] eqn:Ed; [|done].
  apply always_bind. eapply always_mono; [apply always_reads, host_leader_always|intros; by eapply lease_acquiring_reads|].
  intros h1 [rv hl] _ [Hr1 Hres]. cbn [fst snd] in *. assert (Ha1 : acquiring h1) by (by eapply lease_acquiring_reads).
  destruct Hres as [Hlt|(-> & es & e & -> & He & Hsaw)].
  { apply Z.ltb_lt in Hlt as Elt. rw Elt. by apply out_error. }
  assert (Hsh : owner_shown a.(aq_cur) hl es) by (exists d, ss, e; split; [by apply (rd_disk _ _ Hr)|done]).
  assert (Hsh1 : owner_shown a.(aq_cur) hl (h ++ es)).
  { exists d, ss, e. split; [by apply (rd_disk _ _ Hr)|]. split; [|done]. apply elem_of_app. by right. }
  pose proof (ready_reads a h _ Hr Hr1) as Hrd. pose proof (rd_seen _ _ Hrd) as Hseen.
  pose proof (watched_app _ _ _ _ _ es Hw) as Hw1.
  assert (Hgone : forall a', ready a' (h ++ es) -> a'.(aq_cur) = a.(aq_cur) -> owner_gone a.(aq_cur) (h ++ es) ->
    always_in R (Ret (Goto LRun a')) acquiring step_post (h ++ es)).
  { intros a' Hr' E' Hg. apply goto; [done|]. split; [done|]. rw E'. split; [done|]. by right; right; right. }
  assert (Hrl : ready (aq_set_host_leader hl a) (h ++ es)) by (by destruct Hrd).
  cbn [Z.ltb aq_cur aq_hs aq_last_timestamp aq_wait_start aq_set_host_leader aq_dblock_ret].
  destruct (Z.eqb_spec hl.(lr_timestamp) LEASE_FREE) as [Ef|_].
  { apply Hgone; [done|done|]. left. exists hl. split; [done|by left]. }
  destruct (negb (hl.(lr_owner_id) =? _) || _) eqn:Eown.
  { apply Hgone; [done|done|]. left. exists hl. split; [done|]. right. zbool. lia. }
  apply orb_false_iff in Eown as [Eid Egen]. rw negb_false_iff Z.eqb_eq in Eid. apply Z.ltb_ge in Egen.
  destruct (Z.eqb_spec a.(aq_last_timestamp) 0) as [E0|Ets].
  { apply wait_next_always; [done|]. split; [by destruct Hrl|]. split; [cbn; by rw Ed|]. cbn.
    destruct Hw as (h0 & es0 & -> & H1 & H2 & _). exists h0, (es0 ++ es). rw app_assoc. split; [done|].
    split; [done|]. split; [done|]. right; right. exists hl. split; [|done].
    destruct Hsh as (d' & ss' & e' & Hd' & He' & Hsaw'). exists d', ss', e'. split; [done|]. split; [|done]. apply elem_of_app. by right. }
  destruct (negb (hl.(lr_timestamp) =? _) || _) eqn:Elive.
  { apply (live_owner_always (aq_set_ret a.(aq_cur) a.(aq_dblock_ret) (aq_set_host_leader hl a))); [done|by destruct Hrd]. }
  apply orb_false_iff in Elive as [Ehl _]. rw negb_false_iff Z.eqb_eq in Ehl.
  apply always_bind, always_quiet; [done..|]. intros now (_ & _ & Hnow).
  destruct (Z.ltb_spec (u64 (calc_host_dead_seconds com a.(aq_hs).(hs_io_timeout))) (u64 (now - a.(aq_wait_start)))).
  { apply Hgone; [done|done|]. right; left. exists (h ++ es), []. rw app_nil_r. split; [done|].
    exists a.(aq_hs), a.(aq_wait_start), a.(aq_last_timestamp), hl, now. by repeat (split; [done|]). }
  destruct (has_flag _ _); [by apply out_error|]. apply wait_next_always; [done|].
  split; [done|]. split; [cbn; by rw Ed|done].
Qed.

Lemma run_label_always a h :
  acquiring h -> label_inv LRun a h -> always_in R (acquire_run a) acquiring step_post h.
Proof.
  intros Ha [Hr Hent]. unfold acquire_run.
  destruct (majority_lease h a.(aq_cur) ltac:(apply Ha) (proj1 (rd_seen _ _ Hr))) as [[E1 E2 E3 E4 E5] Hnum].
  destruct (ag_host _ _ Hgeo) as [Hh1 Hh2]. pose proof (ag_max _ _ Hgeo) as Hmax. rw E3.
  destruct (Z.eqb_spec E.(le_max_hosts) 0); [lia|]. rw andb_false_r.
  pose proof (rd_cur _ _ Hr) as Hcur. assert (0 <= a.(aq_cur).(lr_lver)) by (unfold leader_record_ok, is_u in Hcur; lia).
  apply goto; [done|]. split; [by destruct Hr|]. split; [done|]. split.
  - cbn. apply wrapu_small. unfold is_u. lia.
  - cbn. rw (sl_host _ _ (tk_same _ (rd_token _ _ Hr))). unfold first_mbal. destruct (_ =? 0).
    + unfold is_u. lia.
    + by apply wrapu_is_u.
Qed.

(** ** The ballot *)

Lemma logged_writes ss nh disks hid gen L b es :
  logged ss nh disks hid gen L b es ->
  Forall (fun e => not_write e \/ exists v, own_write ss hid disks v e /\ v.(pd_lver) = L) es.
Proof.
  assert (Hown : forall v w, v.(pd_lver) = L -> Forall (own_write ss hid disks v) w ->
    Forall (fun e => not_write e \/ exists v, own_write ss hid disks v e /\ v.(pd_lver) = L) w).
  { intros v w Hv Hw. eapply Forall_impl; [|exact Hw]. intros e He. right. by exists v. }
  assert (Hread : forall len r, Forall (area_read disks len) r ->
    Forall (fun e => not_write e \/ exists v, own_write ss hid disks v e /\ v.(pd_lver) = L) r).
  { intros len r Hr. eapply Forall_impl; [|exact Hr]. intros e (d & rv & m & _ & _ & _ & ->). by left. }
  intros [o [w1 r1 Hw1 Hr1|w1 r1 w2 r2 v Hw1 Hr1 _ Hw2 Hr2]]; rw ?Forall_app.
  - exact (conj (Hown (vote1 L b) _ eq_refl Hw1) (Hread _ _ Hr1)).
  - exact (conj (Hown (vote1 L b) _ eq_refl Hw1) (conj (Hread _ _ Hr1) (conj (Hown (vote2 L b v) _ eq_refl Hw2) (Hread _ _ Hr2)))).
Qed.

Lemma acquiring_ballot cur nh b h es :
  acquiring h -> entitled cur h ->
  logged E.(le_ss) nh t.(t_disks) t.(t_host_id) t.(t_host_generation) (next_lver cur) b es ->
  Forall (lease_event E t) es -> acquiring (h ++ es).
Proof.
  intros Ha Hent Hlog Hes. apply acquiring_app; [done..|]. intros es1 e es2 ->.
  apply logged_writes, Forall_app in Hlog as [_ Hlog]. inversion Hlog as [|? ? Hc _]; subst.
  destruct Hc as [?|Hv]; [by left|right]. exists cur. split; [by apply entitled_app|]. by left.
Qed.

Lemma ballot_env_always tk cur b pd0 h :
  token_ok tk -> tk.(t_sector_size) = E.(le_ss) -> lease_leader E cur -> leader_record_ok cur ->
  t.(t_host_id) <= cur.(lr_num_hosts) -> is_u 64 b ->
  let nh := i32 cur.(lr_num_hosts) in
  let log := logged E.(le_ss) nh t.(t_disks) t.(t_host_id) t.(t_host_generation) (next_lver cur) b in
  always_in R (run_ballot tk nh (next_lver cur) b pd0)
    (fun h' => exists es, h' = h ++ es /\ log es /\ Forall (lease_event E t) es)
    (fun h' r => exists es, h' = h ++ es /\ (log es /\
       ballot_end E.(le_ss) nh t.(t_disks) t.(t_host_id) t.(t_host_generation) (next_lver cur) b tk es r) /\
       Forall (lease_event E t) es) h.
Proof.
  intros [Hs Hsz] Hss [E1 E2 E3 E4 E5] Hcur Hnum Hb nh log.
  destruct Hgeo as [[Hgss Hgal] _ Hmax Hhid Hgen Hne Hfds Hoff].
  assert (Enh : nh = cur.(lr_num_hosts)) by (apply i32_small; lia).
  assert (Hbg : ballot_geometry E.(le_ss) nh t.(t_disks)).
  { split; [done| | |done].
    - change (Z.of_nat HOSTID_BITMAP_SIZE * 8) with 2048. lia.
    - eapply Forall_impl; [|exact Hoff]. cbn. intros d Hd. nia. }
  assert (Htf : token_for E.(le_ss) t.(t_disks) t.(t_host_id) tk).
  { destruct Hs. split; [done..|]. congruence. }
  assert (HL : 1 <= next_lver cur < 2 ^ 64) by (unfold leader_record_ok, is_u in Hcur; lia).
  assert (Hlog0 : log []) by (exists None; by apply (log_phase1 _ _ _ _ _ _ _ [] [])).
  apply (ballot_start E.(le_ss) nh t.(t_disks) t.(t_host_id) (next_lver cur) b Hbg); [done| | |].
  - exists []. by rw app_nil_r.
  - intros l n. assert (Hex : exists es, h = h ++ es /\ log es /\ Forall (lease_event E t) es).
    { exists []. by rw app_nil_r. }
    induction n as [|n IH]; cbn [alloc_iobufs]; [by apply always_ret|].
    apply always_bind, always_quiet; [done..|]. intros [e m] (_ & _ & He). cbn [fst] in *. by rw He.
  - assert (Hp : always (run_phase1 tk (area_len nh E.(le_ss)) (Z.to_nat nh) (next_lver cur) b) log
      (fun es r => log es /\
         ballot_end E.(le_ss) nh t.(t_disks) t.(t_host_id) t.(t_host_generation) (next_lver cur) b tk es r) []).
    { eapply always_mono; [apply (run_phase1_always E.(le_ss) nh t.(t_disks) t.(t_host_id) t.(t_host_generation)
        (next_lver cur) b Hbg ltac:(lia) HL Hb tk Htf); by destruct Hs|done|]. by intros es r Hl Hr. }
    apply (always_embed (lease_event E t) _ _ _ R h [] env_resp) in Hp. by rw app_nil_r in Hp.
Qed.

Lemma new_leader_ok tk cur pd now :
  same_lease t tk -> leader_record_ok cur -> paxos_dblock_ok pd -> is_u 64 now ->
  leader_record_ok (new_leader flags new_num_hosts tk cur pd now).
Proof.
  intros Hs (?&?&Hf&?&?&?&?&?&?&?&?&?&?&?&?&?&?&?&?) (?&?&?&?&?&?&?) Hnow.
  destruct Hgeo as [_ _ Hmax Hhid Hgen _ _ _].
  assert (is_u 64 tk.(t_host_id)) by (rw (sl_host _ _ Hs); unfold is_u; lia).
  assert (is_u 64 tk.(t_host_generation)) by (by rw (sl_gen _ _ Hs)).
  assert (is_u 32 LFL_SHORT_HOLD /\ is_u 32 0) as [? ?] by (by vm_compute).
  assert (is_u 32 (if pd.(pd_inp) =? tk.(t_host_id) then
      if has_flag flags PAXOS_ACQUIRE_SHARED then Z.lor cur.(lr_flags) LFL_SHORT_HOLD
      else clear_flag cur.(lr_flags) LFL_SHORT_HOLD else cur.(lr_flags))).
  { destruct (_ =? _); [|done]. destruct (has_flag _ _); [by apply is_u_lor|by apply is_u_ldiff]. }
  assert (is_u 64 (if nz new_num_hosts then u64 new_num_hosts else cur.(lr_num_hosts))).
  { destruct (nz _); [by apply wrapu_is_u|done]. }
  unfold leader_record_ok, new_leader. cbn. by repeat (split; [done|]).
Qed.

Lemma acquiring_leader cur pd hb tk now h0 h' :
  acquiring (h0 ++ hb) -> entitled cur h0 -> ballot_won cur pd hb -> same_lease t tk ->
  leader_writing tk (new_leader flags new_num_hosts tk cur pd now) (h0 ++ hb) h' ->
  (exists es, h' = (h0 ++ hb) ++ es /\ Forall (lease_event E t) es) -> acquiring h'.
Proof.
  intros Ha Hent Hwon Hs (w & -> & Hw) (es & Ees & Hes). apply app_inv_head in Ees as <-.
  apply acquiring_app; [done..|]. intros w1 e w2 ->. right. exists cur.
  split; [rw -app_assoc; by apply entitled_app|]. right.
  apply Forall_app in Hw as [_ Hw]. inversion Hw as [|? ? (d & rv & Hd & Ee) _]; subst.
  rw (sl_disks _ _ Hs) in Hd. exists h0, hb, w1, pd, tk, now, d, rv. by rw -app_assoc.
Qed.

Lemma commit_always a h0 hb :
  acquiring (h0 ++ hb) -> entitled a.(aq_cur) h0 -> ballot_won a.(aq_cur) a.(aq_dblock) hb ->
  token_ok a.(aq_token) -> leader_record_ok a.(aq_cur) -> paxos_dblock_ok a.(aq_dblock) ->
  always_in R (acquire_commit flags new_num_hosts a) acquiring step_post (h0 ++ hb).
Proof.
  intros Ha Hent Hwon Htk Hcur Hpd. pose proof (tk_same _ Htk) as Hs. pose proof (token_ok_leader _ Htk) as Hlg.
  unfold acquire_commit. apply always_bind, always_quiet; [done..|]. intros now ([Hnow Hnow'] & _ & _).
  pose proof (new_leader_ok a.(aq_token) a.(aq_cur) a.(aq_dblock) now Hs Hcur Hpd (conj Hnow Hnow')) as Hnl.
  set (nl := new_leader _ _ _ _ _ _) in *. apply always_bind.
  assert (Hw : forall h', leader_writing a.(aq_token) nl (h0 ++ hb) h' ->
    (exists es, h' = (h0 ++ hb) ++ es /\ Forall (lease_event E t) es) -> acquiring h').
  { intros h'. by apply (acquiring_leader a.(aq_cur) a.(aq_dblock) hb a.(aq_token) now h0). }
  pose proof (always_embed (lease_event E t) _ _ _ R [] (h0 ++ hb) env_resp
    (write_new_leader_always a.(aq_token) Hlg nl (h0 ++ hb) Hnl)) as Hem.
  eapply always_mono; [exact Hem| |].
  { intros h' (es & -> & Hlw & Hes). apply Hw; [done|by exists es]. }
  intros h' [rv l] _ (es & Eh & (Hlw & El & Hres) & Hes). cbn [fst snd app] in *. rw -Eh in Hlw, Hres.
  assert (Ha' : acquiring h') by (apply Hw; [done|by exists es]). rw El.
  destruct Hres as [Hlt|[-> Hmaj]].
  { apply Z.ltb_lt in Hlt as Elt. rw Elt. by apply out_error. }
  cbn [Z.ltb]. rw (sl_host _ _ Hs). destruct (Z.eqb_spec (sealed_leader nl).(lr_owner_id) t.(t_host_id)) as [Eo|_];
    cbn [negb]; [|by apply out_error].
  apply always_ret; [done|]. split; [done|]. intros _. cbn [aq_leader_ret aq_set_ret]. split; [done|].
  rw (sl_disks _ _ Hs) in Hmaj. rw -app_assoc in Eh.
  exists a.(aq_cur). split; [rw Eh; by apply entitled_app|]. split.
  { destruct Hwon as (nh & b & v & _ & Hv). cbn. by injection Hv as _ _ _ _ _ ->. }
  right. exists h0, hb, es, a.(aq_dblock), a.(aq_token), now. by repeat (split; [done|]).
Qed.

Lemma shared_only_ok tk tk' : shared_only tk tk' -> token_ok tk -> token_ok tk'.
Proof. intros (n & bm & ->) [[? ? ? ? ?] ?]. by split. Qed.

(** A ballot, and the commit of its outcome. *)
Lemma ballot_label_always a h :
  acquiring h -> label_inv LRetryBallot a h ->
  always_in R
    (b ← run_ballot a.(aq_token) (i32 a.(aq_cur).(lr_num_hosts)) a.(aq_next_lver) a.(aq_our_mbal) a.(aq_dblock);
     let '(error, dblock, t) := b in
     let a := aq_set_dblock t dblock a in
     if (error =? SANLK_DBLOCK_MBAL) || (error =? SANLK_DBLOCK_LVER) then
       us ← call (CGetRand 0 1000000);
       _ ← call (CUsleep (if us <? 0 then i32 (t.(t_host_id) * 100) else us));
       Ret (Goto LRetryBallot
              (aq_set_ballot a.(aq_next_lver) (u64 (a.(aq_our_mbal) + a.(aq_cur).(lr_max_hosts))) a))
     else if error <? 0 then Ret (Out error a)
     else acquire_commit flags new_num_hosts a) acquiring step_post h.
Proof.
  intros Ha (Hr & Hent & EL & Hb). pose proof Hr as [Htk Hss Hcur Htmp Hmb Hdk Hseen].
  destruct (majority_lease h a.(aq_cur) ltac:(apply Ha) (proj1 (rd_seen _ _ Hr))) as [Hlease Hnum].
  rw EL. apply always_bind.
  eapply always_mono; [apply (ballot_env_always a.(aq_token) a.(aq_cur) a.(aq_our_mbal) a.(aq_dblock) h); done| |].
  { intros h' (es & -> & Hlog & Hes). by eapply acquiring_ballot. }
  intros h' [[rv pd] tk] _ (es & -> & [Hlog Hend] & Hes).
  assert (Ha2 : acquiring (h ++ es)) by (by eapply acquiring_ballot).
  destruct Hend as [(-> & (v & Hc & Hv & Hpd) & Hsh)|[(Hrv & Hsh)|(Hrv & _)]].
  - cbn [Z.eqb orb Z.ltb]. apply commit_always; try done.
    + by exists (i32 a.(aq_cur).(lr_num_hosts)), a.(aq_our_mbal), v.
    + by eapply shared_only_ok.
  - assert ((rv =? SANLK_DBLOCK_MBAL) || (rv =? SANLK_DBLOCK_LVER) = true) as -> by (by destruct Hrv as [-> | ->]).
    apply always_bind, always_quiet; [done..|]. intros us _. apply always_bind, always_quiet; [done..|]. intros [] _.
    apply goto; [done|]. destruct Hr as [? ? ? ? ? ? ?]. split.
    { split; cbn; try done; [by eapply shared_only_ok|by destruct Hsh as (n & bm & ->)|by apply leader_known_app]. }
    split; [by apply entitled_app|]. split; [done|]. by apply wrapu_is_u.
  - assert ((rv =? SANLK_DBLOCK_MBAL) || (rv =? SANLK_DBLOCK_LVER) = false) as -> by (by destruct Hrv as [-> | ->]).
    assert (rv < 0) by (by destruct Hrv as [-> | ->]). apply Z.ltb_lt in H as Elt. rw Elt. by apply out_error.
Qed.

Lemma retry_always a h :
  acquiring h -> label_inv LRetryBallot a h ->
  always_in R (acquire_retry_ballot flags new_num_hosts a) acquiring step_post h.
Proof.
  intros Ha (Hr & Hent & EL & Hb). pose proof Hr as [Htk Hss Hcur Htmp Hmb Hdk Hseen].
  pose proof (tk_same _ Htk) as Hs. pose proof (token_ok_leader _ Htk) as Hlg.
  unfold acquire_retry_ballot. apply always_bind.
  apply (always_mono _ (reads h) acquiring (fun h' r => reads h h' /\ leader_record_ok (snd r) /\
    (fst r < 0 \/ fst r = SANLK_OK /\ majority_leader_seen t (snd r) h'))).
  { destruct a.(aq_copy).
    - apply always_ret; [apply reads_refl|]. split; [apply reads_refl|]. split; [done|]. right. by destruct Hseen.
    - eapply always_mono; [apply always_reads, (lease_leader_read_always _ Hlg _ h Htmp)|done|].
      intros h' r _ (Hrd & Hok & Hres). split; [done|]. split; [done|].
      destruct Hres as [?|[? [Hm _]]]; [by left|right]. split; [done|]. by apply (majority_seen_same a.(aq_token)). }
  { intros. by eapply lease_acquiring_reads. }
  intros h1 [rv tmp] _ (Hr1 & Hok & Hres). cbn [fst snd] in *.
  assert (Ha1 : acquiring h1) by (by eapply lease_acquiring_reads).
  pose proof (ready_reads a h h1 Hr Hr1) as Hrd1.
  assert (Hent1 : entitled a.(aq_cur) h1) by (destruct Hr1 as (es & -> & _); by apply entitled_app).
  destruct Hres as [Hlt|[-> Hm]].
  { apply Z.ltb_lt in Hlt as Elt. rw Elt. by apply out_error. }
  change (SANLK_OK <? 0) with false. cbn [aq_next_lver aq_dblock aq_our_mbal aq_dblock_ret aq_set_tmp].
  destruct (Z.eqb_spec tmp.(lr_lver) a.(aq_next_lver)) as [El|_].
  { rw (sl_host _ _ Hs) (sl_gen _ _ Hs). destruct (_ && _) eqn:Eo; [|by apply out_error].
    apply andb_true_iff in Eo as [Eo Eg]. apply Z.eqb_eq in Eo, Eg.
    apply always_ret; [done|]. split; [done|]. intros _. cbn [aq_leader_ret aq_set_ret].
    split; [done|]. exists a.(aq_cur). split; [done|]. split; [by rw El|]. by left. }
  destruct (_ <? _); [by apply goto|]. destruct (negb _); [by apply goto|].
  apply (ballot_label_always (aq_set_tmp tmp false a)); [done|]. split; [by destruct Hrd1|by split].
Qed.

(** ** The whole operation *)

Lemma loop_always fuel one l a h :
  acquiring h -> label_inv l a h ->
  always_in R (acquire_loop com flags acquire_lver new_num_hosts one fuel l a) acquiring
    (fun h' r => acquiring h' /\
       forall a', r = Some (SANLK_OK, a') -> acquired h' a'.(aq_leader_ret)) h.
Proof.
  revert l a h. induction fuel as [|fuel IH]; intros l a h Ha Hl; cbn [acquire_loop]; [by apply always_ret|].
  apply always_bind. eapply always_mono; [|done|].
  { instantiate (1 := step_post). destruct l; cbn [acquire_step].
    - by apply restart_always.
    - by apply wait_always.
    - by apply run_label_always.
    - by apply retry_always. }
  intros h' n _ [Ha' Hn]. destruct n as [l' a'|error a']; [by apply IH|].
  apply always_bind. eapply (always_mono _ acquiring _ (fun h2 _ => h2 = h')); [|done|].
  - destruct a'.(aq_host_disk) as [[d ss]|]; [by apply always_quiet|by apply always_ret].
  - intros h2 [] _ ->. apply always_ret; [done|]. split; [done|]. intros a2 [= -> <-]. by apply Hn.
Qed.

Lemma lease_acquire_always fuel one a0 :
  always_in R (paxos_lease_acquire com flags acquire_lver new_num_hosts fuel one t a0) acquiring
    (fun h r => acquiring h /\ forall a, r = Some (SANLK_OK, a) -> acquired h a.(aq_leader_ret)) [].
Proof.
  assert (Ha : acquiring []) by (split; [done|]; by intros [|? ?]).
  unfold paxos_lease_acquire. destruct (Z.eqb_spec t.(t_sector_size) 0) as [Ez|_].
  { apply always_ret; [done|]. split; [done|]. intros a Eq. discriminate Eq. }
  apply loop_always; [done|]. split; [|by intros ? ? [=]]. split; [by split|]. apply Hgeo.
Qed.
End acquire.

(** ** Properties *)



(** *** The lease on three disks *)

Definition demo3_env : lease_env :=
  LeaseEnv 512 1048576 2000 (fun _ now => 1000 <= now) (fun _ _ hs => hs.(hs_io_timeout) = 10)
    (fun d ss => d = SyncDisk [] 0 512 0 /\ ss = 512) (fun _ fd => 0 <= fd).

Lemma demo3_acquire_geometry : acquire_geometry demo3_env demo3_token.
Proof.
  assert (Hs : sizes_hold demo3_env 512 1048576) by (split; [by left|cbn; lia]).
  split; [exact Hs|exact Hs|cbn; lia|cbn; lia|by split|done| |]; apply (bool_decide_unpack _); by vm_compute.
Qed.

(** Disk 0 after the format. *)
Definition demo3_disk0 : mem :=
  (snd (run world_handler (paxos_lease_init demo3_com demo3_token 2 false) demo3_world)).(w_dev) 0.

Definition demo3_shown : list Z := mem_read demo3_disk0 0 sizeof_leader_record.


