(* ===== verification/AcquireProgress.v ===== *)
(** * A lease nobody contends for is acquired

    The other side of the safety theorems: when the i/o succeeds and the other
    hosts stand by, a ballot succeeds with this host as the owner, and
    [paxos_lease_acquire] ([src/src/paxos_lease.c]) returns [SANLK_OK] after one
    pass through its labels. *)

From S2P Require Import Prelude OnDisk SizeFlags Timeouts Io DeltaLease PaxosBlocks PaxosBallot PaxosLease.
From S2P Require Import BallotLog PaxosSafety AcquireSafety.

#[local] Opaque Crc32c.crc32c.

Lemma all_majority t k :
  t.(t_disks) <> [] -> k = Z.of_nat (length t.(t_disks)) -> majority_disks (num_disks t) k = true.
Proof.
  intros Hne ->. unfold num_disks. rw majority_disks_spec; [lia|]. apply Z.ltb_lt.
  destruct t.(t_disks); [done|cbn; lia].
Qed.

(** ** A ballot *)

Section ballot.
Context (ss nh hid L b len : Z) (disks : list sync_disk).
Context (Hgeo : ballot_geometry ss nh disks) (Hhid : 1 <= hid <= nh).
Context (HL : 1 <= L < 2 ^ 64) (Hb : 0 <= b < 2 ^ 64) (Hlen : (2 + nh) * ss <= len).

(** A vote that does not stand in the way of the ballot ([L], [b]): of an earlier
    version, or our own. *)
Definition unopposed (v : paxos_dblock) : Prop :=
  v.(pd_lver) < L \/
  v.(pd_lver) = L /\ v.(pd_mbal) <= b /\ (v.(pd_inp) = 0 \/ v.(pd_inp) = hid).

(** An environment [R] in which, as long as the history satisfies [I], all i/o
    succeeds and only such votes are read; our own reads and writes keep [I]. *)
Record standing_by (R : env) (I : list event -> Prop) : Prop := {
  sb_resp : forall h X (c : cmd X) x, R h X c x -> resp_ok c x;
  sb_alloc : forall h n r, R h _ (CMemalign n) r -> fst r = 0;
  sb_write : forall h fd off n io m rv, R h _ (CWriteIobuf fd off n io m) rv -> rv = 0;
  sb_read : forall h fd off n io r, I h -> R h _ (CReadIobuf fd off n io) r -> fst r = 0 /\
    forall q, 0 <= q < nh -> unopposed (slot_view ss (snd r) 0 q);
  sb_keep_read : forall h fd off n io r, I h -> R h _ (CReadIobuf fd off n io) r ->
    I (h ++ [EvRead fd off n (fst r) (snd r)]);
  sb_keep_write : forall h v e, I h -> unopposed v -> v.(pd_mbal) = b -> own_write ss hid disks v e -> I (h ++ [e])
}.

Context (R : env) (I : list event -> Prop) (HR : standing_by R I).

(** Our block with its checksum, as the writes leave it. *)
Definition our_block (pd : paxos_dblock) : Prop :=
  paxos_dblock_ok pd /\ unopposed (vote_of pd) /\ pd.(pd_lver) = L /\ pd.(pd_mbal) = b.

Lemma sealed_our_block pd : our_block pd -> our_block (sealed pd).
Proof. intros (Hok & H). split; [by apply sealed_ok|done]. Qed.

Lemma written_ok d pd m ioto h (rv : Z) :
  d ∈ disks -> our_block pd -> (forall i, byte_ok (m i)) ->
  mem_read m 0 sizeof_paxos_dblock = dblock_image pd pd_end0 -> I h ->
  rv = 0 -> I (h ++ ev (CWriteIobuf d.(sd_fd) (d.(sd_offset) + (2 + (hid - 1)) * ss) ss ioto m) rv).
Proof.
  intros Hd (Hok & Hun & _ & Emb) Hm Hr Hh ->. eapply (sb_keep_write _ _ HR); [done|exact Hun|done|].
  exists d, 0. split; [done|]. split; [lia|]. by apply slot_write_image.
Qed.

Lemma write_dblock_succeeds t d pd h :
  token_for ss disks hid t -> d ∈ disks -> our_block pd -> I h ->
  always_in R (write_dblock t d hid pd) I (fun h' r => I h' /\ fst r = 0 /\ snd r = sealed pd) h.
Proof.
  intros Ht Hd Hpd Hh. destruct (slot_offset ss nh hid disks Hgeo Hhid d Hd) as [Ho Hslot].
  pose proof (proj1 Hpd) as Hok. destruct Hgeo as [Hss Hnh _ _].
  assert (Hb0 : bytes_ok (dblock_image pd pd_end0)) by (apply dblock_image_bytes; [done|apply zeros_ok]).
  unfold write_dblock. rw (tf_ss _ _ _ _ Ht). destruct (has_flag _ _).
  - unfold write_dblock_mblock_sh. rw (tf_ss _ _ _ _ Ht). destruct (Z.eqb_spec ss 0); [lia|].
    apply always_bind, always_quiet; [done..|]. intros [e m] Hx. rw (sb_alloc _ _ HR _ _ _ Hx).
    apply (sb_resp _ _ HR) in Hx as [_ Hm]. cbn [nz Z.eqb negb].
    apply always_bind, always_quiet; [done..|]. intros stk Hx. apply (sb_resp _ _ HR) in Hx as [Hstk Hsb].
    destruct (Z.ltb_spec ss (MBLOCK_OFFSET + Z.of_nat sizeof_mode_block)) as [Hlt|_].
    { change (MBLOCK_OFFSET + Z.of_nat sizeof_mode_block) with 144 in Hlt. lia. }
    replace (2 + hid - 1) with (2 + (hid - 1)) by lia. rw [u64 _]wrapu_small //.
    apply always_bind, always_call; [done|]. intros rv Hrv%(sb_write _ _ HR).
    assert (HI : I (h ++ ev (CWriteIobuf (sd_fd d) (sd_offset d + (2 + (hid - 1)) * ss) ss (t_io_timeout t)
      (buf_put (buf_put m 0 (dblock_image pd pd_end0)) MBLOCK_OFFSET
         (mode_block_out (ModeBlock MBLOCK_SHARED (t_host_generation t)) stk))) rv)).
    { apply (written_ok d pd); [done|done| | |done|done].
      - repeat apply buf_put_ok; [done|done|]. apply mode_block_out_bytes; [|done]. split; [by vm_compute|apply Ht].
      - rw mem_read_put_other; [left; by vm_compute|].
        rw -{1}(length_dblock_image pd pd_end0); [done..|]. apply mem_read_put. }
    split; [done|]. by apply always_ret.
  - change (Z.of_nat HOSTID_BITMAP_SIZE * 8) with 2048 in Hnh.
    replace (u64 (2 + hid - 1)) with (2 + (hid - 1)) by (unfold u64; rw wrapu_small; [unfold is_u|]; lia).
    assert (Elen : (ss <? Z.of_nat (length (dblock_image pd pd_end0))) = false).
    { apply Z.ltb_ge. rw length_dblock_image; [done..|]. change (Z.of_nat sizeof_paxos_dblock) with 56. lia. }
    unfold write_sector, _write_sectors. rw good_sector_size // Elen.
    apply always_bind, always_bind, always_quiet; [done..|]. intros [e m] Hx. rw (sb_alloc _ _ HR _ _ _ Hx).
    cbn [nz Z.eqb negb]. rw [u64 _]wrapu_small //.
    apply always_call; [done|]. intros rv Hrv%(sb_write _ _ HR).
    assert (HI : I (h ++ ev (CWriteIobuf (sd_fd d) (sd_offset d + (2 + (hid - 1)) * ss) ss (t_io_timeout t)
      (mem_of (dblock_image pd pd_end0))) rv)).
    { apply (written_ok d pd); [done|done|by apply mem_of_ok|by apply mem_of_image|done|done]. }
    split; [done|]. by apply always_ret.
Qed.

Lemma write_dblocks_succeeds t ds pd n h :
  token_for ss disks hid t -> ds ⊆ disks -> our_block pd -> I h ->
  always_in R (write_dblocks t ds pd n) I
    (fun h' r => I h' /\ fst r = n + Z.of_nat (length ds) /\ our_block (snd r) /\ vote_of (snd r) = vote_of pd) h.
Proof.
  intros Ht. revert pd n h. induction ds as [|d ds IH]; intros pd n h Hsub Hpd Hh; cbn [write_dblocks].
  { apply always_ret; [done|]. split; [done|]. cbn. split; [lia|done]. }
  rw (tf_host _ _ _ _ Ht). apply always_bind.
  eapply always_mono; [apply write_dblock_succeeds; [done|apply Hsub, list_elem_of_here|done|done]|done|].
  intros h' [rv pd'] _ (Hh' & -> & ->). cbn [fst snd].
  eapply always_mono; [apply IH; [intros x Hx; by apply Hsub, list_elem_of_further|by apply sealed_our_block|done]|done|].
  intros h2 r _ (Hh2 & Hn & Hpd' & Hv). split; [done|]. split; [rw Hn; cbn; lia|]. by split.
Qed.

(** The largest block that phase 1 has seen carries no value but ours. *)
Definition ours_or_none (mx : paxos_dblock) : Prop :=
  paxos_dblock_ok mx /\ (mx.(pd_inp) = 0 \/ mx.(pd_inp) = hid).

Lemma phase1_bk_unopposed dblock bk mx :
  dblock.(pd_lver) = L -> dblock.(pd_mbal) = b -> unopposed (vote_of bk) -> paxos_dblock_ok bk -> ours_or_none mx ->
  exists mx', phase1_bk dblock bk mx = Next mx' /\ ours_or_none mx'.
Proof.
  intros EL Eb Hun Hok Hmx. unfold phase1_bk. rw EL Eb. unfold unopposed in Hun. cbn in Hun.
  destruct (Z.ltb_spec bk.(pd_lver) L); [by exists mx|]. destruct Hun as [?|(? & ? & Hinp)]; [lia|].
  destruct (Z.ltb_spec L bk.(pd_lver)); [lia|]. destruct (Z.ltb_spec b bk.(pd_mbal)); [lia|].
  destruct (_ =? 0); [by exists mx|]. destruct (_ =? 0); [by exists mx|].
  destruct (_ <? _); [by exists bk|by exists mx].
Qed.

Lemma phase2_bk_unopposed dblock bk :
  dblock.(pd_lver) = L -> dblock.(pd_mbal) = b -> unopposed (vote_of bk) -> phase2_bk dblock bk = Next tt.
Proof.
  intros EL Eb Hun. unfold phase2_bk. rw EL Eb. unfold unopposed in Hun. cbn in Hun.
  destruct (Z.ltb_spec bk.(pd_lver) L); [done|]. destruct Hun as [?|(? & ? & _)]; [lia|].
  destruct (Z.ltb_spec L bk.(pd_lver)); [lia|]. destruct (Z.ltb_spec b bk.(pd_mbal)); [lia|done].
Qed.

(** The slot [q] of an area, as the loops look at it. *)
Lemma slot_good m q :
  unopposed (slot_view ss m 0 q) ->
  let bs := mem_read m ((2 + q) * ss) sizeof_paxos_dblock in
  (verify_dblock (paxos_dblock_in bs) (dblock_checksum bs) <? 0) = false -> unopposed (vote_of (paxos_dblock_in bs)).
Proof.
  unfold slot_view. rw Z.add_0_l. intros H. cbv zeta. intros Ev. unfold dview in H. by rw Ev in H.
Qed.

Lemma phase1_hosts_next m dblock n q mx t h :
  dblock.(pd_lver) = L -> dblock.(pd_mbal) = b -> t.(t_sector_size) = ss ->
  (forall i, byte_ok (m i)) -> (forall q, 0 <= q < nh -> unopposed (slot_view ss m 0 q)) ->
  0 <= q -> q + Z.of_nat n <= nh -> ours_or_none mx -> I h ->
  always_in R (phase1_hosts len m dblock n q mx t) I
    (fun h' r => h' = h /\ shared_only t (snd r) /\ exists mx', fst r = Next mx' /\ ours_or_none mx') h.
Proof.
  intros EL Eb Ht Hm Hun. revert q mx t Ht. induction n as [|n IH]; intros q mx t Ht Hq Hn Hmx Hh; cbn [phase1_hosts].
  { apply always_ret; [done|]. split; [done|]. split; [apply shared_only_refl|]. by exists mx. }
  unfold phase1_host. rw Ht. apply always_bind, always_bind.
  apply (get_dblock_always ss nh disks len Hgeo Hlen); [lia|done|]. cbn [fst snd].
  pose proof (slot_good m q (Hun q ltac:(lia))) as Hslot. cbv zeta in Hslot.
  set (bs := mem_read m _ _) in *. destruct (verify_dblock _ _ <? 0) eqn:Ev.
  { apply always_ret; [done|]. cbn [fst snd]. apply IH; [done|lia|lia|done|done]. }
  apply always_bind. eapply always_mono;
    [apply (check_mode_block_always ss nh disks len Hgeo Hlen); [lia|exact Hh]|done|].
  intros h' t' _ [-> Hsh]. apply always_ret; [done|]. cbn [fst snd].
  destruct (phase1_bk_unopposed dblock (paxos_dblock_in bs) mx) as (mx' & Emx & Hmx'); [done|done|by apply Hslot| |done|].
  { apply paxos_dblock_in_ok; [unfold bs; by rw length_mem_read|by apply mem_read_ok]. }
  rw Emx. eapply always_mono; [apply IH; [by destruct Hsh as (? & ? & ->)|lia|lia|done|done]|done|].
  intros h' r _ (-> & Hsh' & Hr). split; [done|]. split; [by eapply shared_only_trans|done].
Qed.

Lemma phase2_hosts_next m dblock n q h :
  dblock.(pd_lver) = L -> dblock.(pd_mbal) = b ->
  (forall q, 0 <= q < nh -> unopposed (slot_view ss m 0 q)) -> 0 <= q -> q + Z.of_nat n <= nh -> I h ->
  always_in R (phase2_hosts len m ss dblock n q) I (fun h' r => h' = h /\ r = Next tt) h.
Proof.
  intros EL Eb Hun. revert q. induction n as [|n IH]; intros q Hq Hn Hh; cbn [phase2_hosts]; [by apply always_ret|].
  apply always_bind, (get_dblock_always ss nh disks len Hgeo Hlen); [lia|done|]. cbn [fst snd].
  pose proof (slot_good m q (Hun q ltac:(lia))) as Hslot. cbv zeta in Hslot.
  set (bs := mem_read m _ _) in *. destruct (verify_dblock _ _ <? 0); [apply IH; [lia|lia|done]|].
  rw phase2_bk_unopposed; [done|done|by apply Hslot|]. apply IH; [lia|lia|done].
Qed.

Lemma phase1_disks_next dblock ds k mx t h :
  dblock.(pd_lver) = L -> dblock.(pd_mbal) = b -> t.(t_sector_size) = ss -> ours_or_none mx -> I h ->
  always_in R (phase1_disks len dblock (Z.to_nat nh) (zip ds (replicate (length ds) true)) k mx t) I
    (fun h' r => I h' /\ shared_only t (snd r) /\ snd (fst r) = replicate (length ds) true /\
       exists mx', fst (fst r) = Next (k + Z.of_nat (length ds), mx') /\ ours_or_none mx') h.
Proof.
  intros EL Eb. revert k mx t h. induction ds as [|d ds IH]; intros k mx t h Ht Hmx Hh; cbn [length replicate zip zip_with phase1_disks].
  { apply always_ret; [done|]. split; [done|]. split; [apply shared_only_refl|]. split; [done|]. exists mx.
    cbn. by rw Z.add_0_r. }
  cbn [negb]. apply always_bind, always_call; [done|]. intros [rv m] Hx.
  pose proof (sb_keep_read _ _ HR _ _ _ _ _ _ Hh Hx) as Hh1. cbn [ev]. split; [done|].
  destruct (sb_read _ _ HR _ _ _ _ _ _ Hh Hx) as [Erv Hun]. apply (sb_resp _ _ HR) in Hx as [_ Hm].
  cbn [fst snd] in *. rw Erv. cbn [Z.ltb Z.eqb negb]. destruct (bg_nh _ _ _ Hgeo) as [Hnh _].
  rw Erv in Hh1. apply always_bind. eapply always_mono; [apply phase1_hosts_next; try done; lia|done|].
  intros h' [fl t'] _ (-> & Hsh & mx' & Efl & Hmx'). cbn [fst snd] in *. rw Efl.
  apply always_bind. eapply always_mono; [apply IH; [by destruct Hsh as (? & ? & ->)|done|done]|done|].
  intros h2 [[fl2 live] t2] _ (Hh2 & Hsh2 & Elive & mx2 & Efl2 & Hmx2). cbn [fst snd] in *.
  apply always_ret; [done|]. split; [done|]. split; [by eapply shared_only_trans|]. cbn [fst snd].
  split; [by rw Elive|]. exists mx2. split; [|done]. rw Efl2. do 2 f_equal. lia.
Qed.

Lemma phase2_disks_next t dblock ds k h :
  dblock.(pd_lver) = L -> dblock.(pd_mbal) = b -> t.(t_sector_size) = ss -> I h ->
  always_in R (phase2_disks t len dblock (Z.to_nat nh) (zip ds (replicate (length ds) true)) k) I
    (fun h' r => I h' /\ r = Next (k + Z.of_nat (length ds))) h.
Proof.
  intros EL Eb Ht. revert k h. induction ds as [|d ds IH]; intros k h Hh; cbn [length replicate zip zip_with phase2_disks].
  { apply always_ret; [done|]. split; [done|]. cbn. by rw Z.add_0_r. }
  cbn [negb]. apply always_bind, always_call; [done|]. intros [rv m] Hx.
  pose proof (sb_keep_read _ _ HR _ _ _ _ _ _ Hh Hx) as Hh1. cbn [ev]. split; [done|].
  destruct (sb_read _ _ HR _ _ _ _ _ _ Hh Hx) as [Erv Hun].
  cbn [fst snd] in *. rw Erv. cbn [Z.ltb]. rw Erv in Hh1. destruct (bg_nh _ _ _ Hgeo) as [Hnh _]. rw Ht.
  apply always_bind. eapply always_mono; [apply phase2_hosts_next; try done; lia|done|].
  intros h' r _ [-> ->]. eapply always_mono; [by apply IH|done|].
  intros h2 r _ [Hh2 ->]. split; [done|]. f_equal. lia.
Qed.

Context (Hne : disks <> []).

Definition won (t : token) (h : list event) (r : Z * paxos_dblock * token) : Prop :=
  I h /\ exists pd t', r = (SANLK_OK, pd, t') /\ shared_only t t' /\
    paxos_dblock_ok pd /\ pd.(pd_lver) = L /\ pd.(pd_inp) = hid.

Lemma phase2_wins t0 t pd h :
  token_for ss disks hid t -> shared_only t0 t -> our_block pd -> pd.(pd_inp) = hid -> I h ->
  always_in R (run_phase2 t len (Z.to_nat nh) pd (replicate (length disks) true)) I (won t0) h.
Proof.
  intros Ht Hsh Hpd Hinp Hh. pose proof (tf_disks _ _ _ _ Ht) as Ed. unfold run_phase2. rw Ed. apply always_bind.
  eapply always_mono; [by apply write_dblocks_succeeds|done|].
  intros h1 [n pd1] _ (Hh1 & En & Hpd1 & Hv1). cbn [fst snd] in *. rw all_majority; [by rw Ed|rw Ed; lia|]. cbn [negb].
  pose proof Hpd1 as (Hok1 & _ & EL1 & Eb1).
  apply always_bind. eapply always_mono; [apply phase2_disks_next; [done|done|apply Ht|done]|done|].
  intros h2 r _ [Hh2 ->]. rw all_majority; [by rw Ed|rw Ed; lia|]. cbn [negb]. apply always_ret; [done|].
  split; [done|]. exists pd1, t. do 4 (split; [done|]). injection Hv1 as _ _ E _ _ _. by rw E.
Qed.

Lemma choose_inp_ours t pd mx h :
  token_for ss disks hid t -> our_block pd -> ours_or_none mx -> I h ->
  always_in R (choose_inp t pd mx) I (fun h' pd' => h' = h /\ our_block pd' /\ pd'.(pd_inp) = hid) h.
Proof.
  intros Ht (Hok & _ & EL & Eb) [Hmx Hinp] Hh.
  assert (Hh64 : is_u 64 hid).
  { destruct Hgeo as [_ Hnh _ _]. change (Z.of_nat HOSTID_BITMAP_SIZE * 8) with 2048 in Hnh. unfold is_u. lia. }
  assert (HbL : is_u 64 b /\ is_u 64 L /\ is_u 32 0) by (unfold is_u; lia).
  assert (Hfin : forall i2 i3, is_u 64 i2 -> is_u 64 i3 ->
    our_block (PaxosDblock pd.(pd_mbal) pd.(pd_mbal) hid i2 i3 pd.(pd_lver) 0 pd.(pd_flags))).
  { intros i2 i3 H2 H3. rw EL Eb. split; [unfold paxos_dblock_ok in *; cbn; tauto|].
    split; [|done]. right. cbn. split; [done|]. split; [lia|by right]. }
  unfold choose_inp. destruct (nz mx.(pd_inp)) eqn:Enz; unfold nz in Enz; zbool.
  - destruct Hinp as [?|Ehid]; [done|]. rw Ehid. apply always_ret; [done|]. split; [done|].
    split; [|done]. unfold paxos_dblock_ok in Hmx. apply Hfin; tauto.
  - apply always_bind, always_quiet; [done..|]. intros now Hx. apply (sb_resp _ _ HR) in Hx.
    apply always_ret; [done|]. rw (tf_host _ _ _ _ Ht). split; [done|]. split; [|done].
    apply Hfin; [apply Ht|exact Hx].
Qed.

Lemma phase1_wins t h :
  token_for ss disks hid t -> I h -> always_in R (run_phase1 t len (Z.to_nat nh) L b) I (won t) h.
Proof.
  intros Ht Hh. pose proof (tf_disks _ _ _ _ Ht) as Ed.
  assert (Hpd : our_block (PaxosDblock b 0 0 0 0 L 0 0)).
  { split; [unfold paxos_dblock_ok, is_u; cbn; lia|]. split; [|done]. right. cbn. split; [done|]. split; [lia|by left]. }
  unfold run_phase1. rw Ed. apply always_bind.
  eapply always_mono; [by apply write_dblocks_succeeds|done|].
  intros h1 [n pd1] _ (Hh1 & En & Hpd1 & Hv1). cbn [fst snd] in *. rw all_majority; [by rw Ed|rw Ed; lia|]. cbn [negb].
  pose proof Hpd1 as (Hok1 & _ & EL1 & Eb1).
  assert (Hz : ours_or_none dblock_zero) by (split; [unfold paxos_dblock_ok, is_u; cbn; lia|by left]).
  apply always_bind. eapply always_mono; [apply phase1_disks_next; [done|done|apply Ht|done|done]|done|].
  intros h2 [[fl live] t'] _ (Hh2 & Hsh & Elive & mx & Efl & Hmx). cbn [fst snd] in *. rw Efl Elive.
  pose proof (shared_only_token_for _ _ _ _ _ Hsh Ht) as Ht'.
  rw all_majority; [by rw (tf_disks _ _ _ _ Ht')|rw (tf_disks _ _ _ _ Ht'); lia|]. cbn [negb].
  apply always_bind. eapply always_mono; [by apply choose_inp_ours|done|].
  intros h3 pd2 _ (-> & Hpd2 & Einp). by apply phase2_wins.
Qed.

(** A ballot that nobody opposes is won. *)
Lemma ballot_wins t pd0 h :
  len = area_len nh ss -> token_for ss disks hid t -> I h ->
  always_in R (run_ballot t nh L b pd0) I (won t) h.
Proof.
  intros El Ht Hh. apply (ballot_start ss nh disks hid L b Hgeo); [done|done| |].
  - intros l n. induction n as [|n IH]; cbn [alloc_iobufs]; [by apply always_ret|].
    apply always_bind, always_quiet; [done..|]. intros [e m] Hx. by rw (sb_alloc _ _ HR _ _ _ Hx).
  - rw -El. by apply phase1_wins.
Qed.
End ballot.

(** ** The lease *)

Section lease.
Context (com : command_line) (flags acquire_lver new_num_hosts : Z).
Context (E : lease_env) (t : token) (l : leader_record).

(** What a read of the area shows, after the history [h]: the leader [l], which
    verifies, and dblocks that verify and are of no later version, except that
    our own slot may have what we have written. *)
Definition shows_lease (h : list event) (m : mem) : Prop :=
  let bs := mem_read m 0 sizeof_leader_record in
  leader_record_in bs = l /\ check_leader t l (leader_checksum bs) = SANLK_OK /\
  forall q, 0 <= q < l.(lr_num_hosts) ->
    let sb := mem_read m ((2 + q) * E.(le_ss)) sizeof_paxos_dblock in
    verify_dblock (paxos_dblock_in sb) (dblock_checksum sb) = SANLK_OK /\
    ((paxos_dblock_in sb).(pd_lver) <= l.(lr_lver) \/
     q = t.(t_host_id) - 1 /\ exists e, e ∈ h /\ own_write E.(le_ss) t.(t_host_id) t.(t_disks) (dview sb) e).

(** Allocations and i/o succeed, and the lease is shown. *)
Definition uncontended : env := fun h X c x =>
  resp_ok c x /\
  match c in cmd X return X -> Prop with
  | CMemalign _ => fun r => fst r = 0
  | CMalloc _ => fun ok => ok = true
  | CWriteIobuf _ _ _ _ _ => fun rv => rv = 0
  | CReadIobuf _ _ _ _ => fun r => fst r = 0 /\ shows_lease h (snd r)
  | _ => fun _ => True
  end x.

(** The lease is free, and the token has its sizes. *)
Record free_lease : Prop := {
  fl_geo : acquire_geometry E t;
  fl_ss : t.(t_sector_size) = E.(le_ss);
  fl_align : t.(t_align_size) = E.(le_align);
  fl_leader : lease_leader E l;
  fl_hosts : t.(t_host_id) <= l.(lr_num_hosts);
  fl_free : l.(lr_timestamp) = LEASE_FREE;
  fl_lver : acquire_lver = 0 \/ acquire_lver = l.(lr_lver)
}.

Context (Hfl : free_lease).

Lemma max_mbal_ok len m n q mbal mq h0 (I : list event -> Prop) h :
  shows_lease h0 m -> (forall i, byte_ok (m i)) -> 0 <= q -> q + Z.of_nat n <= l.(lr_num_hosts) ->
  (2 + l.(lr_num_hosts)) * E.(le_ss) <= len <= 8388608 -> is_u 64 mbal -> I h ->
  always_in uncontended (max_mbal_loop len m E.(le_ss) n q mbal mq) I
    (fun h' r => h' = h /\ fst r = SANLK_OK /\ is_u 64 (fst (snd r))) h.
Proof.
  intros (_ & _ & Hslots) Hm. destruct (ag_lease _ _ (fl_geo Hfl)) as [Hss _]. revert q mbal mq.
  induction n as [|n IH]; intros q mbal mq Hq Hn Hlen Hmb Hh; cbn [max_mbal_loop]; [by apply always_ret|].
  assert (u32 ((2 + q) * E.(le_ss)) = (2 + q) * E.(le_ss)) as -> by (apply wrapu_small; unfold is_u; nia).
  change (Z.of_nat sizeof_paxos_dblock) with 56.
  apply always_bind, always_buf_get; [nia|lia|nia|done|]. change (Z.to_nat 56) with sizeof_paxos_dblock.
  destruct (Hslots q ltac:(lia)) as [Ev _]. rw Ev. cbn [Z.ltb]. set (bs := mem_read _ _ _).
  assert (Hok : paxos_dblock_ok (paxos_dblock_in bs)).
  { apply paxos_dblock_in_ok; [unfold bs; by rw length_mem_read|by apply mem_read_ok]. }
  change (SANLK_OK <? 0) with false. cbv iota.
  destruct ((mbal =? 0) || _); (apply IH; [lia|lia|done| |done]); [by destruct Hok|done].
Qed.

Lemma lease_read_one_ok d o h :
  Forall not_write h ->
  always_in uncontended (_lease_read_one t d o) (Forall not_write)
    (fun h' r => Forall not_write h' /\ fst r = SANLK_OK /\ (snd r).(la_leader) = l /\
       leader_record_ok l /\ is_u 64 (snd r).(la_max_mbal)) h.
Proof.
  intros Hh. destruct Hfl as [Hgeo Ess Eal Hll Hhosts _ _]. destruct Hgeo as [[Hss Hal] _ Hmax Hhid _ _ _ _].
  destruct Hll as [_ _ _ Hnum _].
  unfold _lease_read_one. rw Ess Eal.
  assert (u32 t.(t_host_id) = t.(t_host_id)) as -> by (apply wrapu_small; unfold is_u; lia).
  assert (u32 E.(le_ss) = E.(le_ss)) as -> by (apply wrapu_small; unfold is_u; lia).
  destruct (Z.ltb_spec E.(le_align) 0); [nia|].
  apply always_bind, always_quiet; [done..|]. intros [e b] [_ He]. cbn [fst] in *. rw He.
  cbn [nz Z.eqb negb]. unfold read_iobuf.
  apply always_bind, always_call; [done|]. intros [rv m] ([_ Hm] & Erv & Hsh). cbn [fst snd ev] in *. rw Erv.
  set (ev0 := EvRead _ _ _ _ _) in *.
  assert (Hh1 : Forall not_write (h ++ [ev0])) by (apply Forall_app; split; [done|by apply Forall_singleton]).
  split; [done|]. cbn [Z.ltb].
  apply always_bind, always_buf_get; [lia|done|change (Z.of_nat sizeof_leader_record) with 200; nia|done|].
  change (Z.to_nat (Z.of_nat sizeof_leader_record)) with sizeof_leader_record.
  assert (u32 ((t.(t_host_id) + 1) * E.(le_ss)) = (t.(t_host_id) + 1) * E.(le_ss)) as ->.
  { apply wrapu_small. unfold is_u. nia. }
  apply always_bind, always_buf_get; [nia|done|change (Z.of_nat sizeof_paxos_dblock) with 56; nia|done|].
  pose proof Hsh as (El & Hck & _). rw El.
  assert (Hok : leader_record_ok l).
  { rw -El. apply leader_record_in_ok; [by rw length_mem_read|by apply mem_read_ok]. }
  assert (Hmag : l.(lr_magic) = PAXOS_DISK_MAGIC).
  { unfold check_leader in Hck. by destruct (Z.eqb_spec l.(lr_magic) PAXOS_DISK_MAGIC). }
  apply always_bind. unfold verify_leader, _verify_leader. rw Hck Hmag. cbn. apply always_ret; [done|].
  change (SANLK_OK <? 0) with false. cbv iota. apply always_bind.
  assert (0 <= l.(lr_num_hosts)) by lia.
  eapply always_mono; [apply (max_mbal_ok _ m _ 0 0 (-1) h (Forall not_write)); [done|done|lia| | |by vm_compute|exact Hh1]|done|].
  { rw Z2Nat.id; lia. }
  { nia. }
  intros h' [rv' [mb mq]] _ (-> & -> & Hmb). cbn [fst snd] in *. change (SANLK_OK <? 0) with false. cbv iota.
  by apply always_ret.
Qed.

(** After [k] disks, the first has been counted [k] times. *)
Definition first_counts (k : nat) (leaders : list leader_record) (reps : list Z) : Prop :=
  length leaders = length reps /\
  (k = O \/ leaders !! O = Some l /\ reps !! O = Some (Z.of_nat k)).

Lemma length_count_leader leaders k reps : length (count_leader leaders k reps) = length reps.
Proof.
  unfold count_leader. destruct (leaders !! k); [|by rw length_insert].
  destruct (first_match _ _ _); by rw ?length_alter length_insert.
Qed.

Lemma first_counts_next k leaders reps :
  (k < length leaders)%nat -> first_counts k leaders reps ->
  first_counts (S k) (<[k := l]> leaders) (count_leader (<[k := l]> leaders) k reps).
Proof.
  intros Hk [Hlen Hf]. split; [by rw length_count_leader length_insert|right].
  unfold count_leader. rw list_lookup_insert_eq //.
  destruct leaders as [|l0 leaders]; [cbn in Hk; lia|]. destruct reps as [|r0 reps]; [done|].
  destruct k as [|k]; [done|]. destruct Hf as [?|[El Er]]; [done|]. cbn in El, Er. injection El as ->. injection Er as ->.
  cbn. rw leaders_match_refl. cbn. split; [done|]. f_equal. lia.
Qed.

Lemma lease_read_loop_ok ds k one leaders reps num rv mb mq our h :
  first_counts k leaders reps -> length leaders = (k + length ds)%nat -> is_u 64 mb ->
  Forall not_write h -> (k = O \/ rv = SANLK_OK /\ leader_record_ok l) -> Z.of_nat k = num ->
  always_in uncontended (lease_read_loop t ds k one leaders reps num rv mb mq our) (Forall not_write)
    (fun h' r => let '(leaders', reps', num', rv', (mb', _), _) := r in
       Forall not_write h' /\ first_counts (k + length ds) leaders' reps' /\ is_u 64 mb' /\
       num' = Z.of_nat (k + length ds) /\
       ((k + length ds)%nat = O \/ rv' = SANLK_OK /\ leader_record_ok l)) h.
Proof.
  revert k one leaders reps num rv mb mq our h.
  induction ds as [|d ds IH]; intros k one leaders reps num rv mb mq our h Hf Hlen Hmb Hh Hrv Hnum; cbn [lease_read_loop].
  { apply always_ret; [done|]. cbn. rw Nat.add_0_r. by subst. }
  apply always_bind. eapply always_mono; [by apply lease_read_one_ok|done|].
  intros h1 [rv1 one1] _ (Hh1 & Erv & El & Hok & Hmb1). cbn [fst snd] in *. rw Erv.
  change (SANLK_OK <? 0) with false. cbv iota. rw El.
  eapply always_mono; [apply (IH (S k)); [apply first_counts_next; [cbn in Hlen; lia|done]| | |done|by right|lia]|done|].
  { rw length_insert Hlen. cbn. lia. }
  { by destruct (_ || _). }
  intros h2 [[[[[ls rs] n2] rv2] [mb2 mq2]] our2] _ Hr. cbn [length]. by rw Nat.add_succ_r.
Qed.

Lemma lease_read_ok one o :
  always_in uncontended (paxos_lease_read t one o) (Forall not_write)
    (fun h r => Forall not_write h /\ fst r = SANLK_OK /\ (snd r).(la_leader) = l /\
       leader_record_ok l /\ is_u 64 (snd r).(la_max_mbal)) [].
Proof.
  pose proof (ag_disks _ _ (fl_geo Hfl)) as Hne. unfold paxos_lease_read, num_disks.
  destruct (Z.ltb_spec 1 (Z.of_nat (length t.(t_disks)))) as [Hn|Hn].
  - unfold _lease_read_num, alloc_arrays.
    apply always_bind, always_bind, always_quiet; [done..|]. intros ok [_ ->]. cbn [negb].
    apply always_quiet; [done..|]. intros ok [_ ->]. cbn [negb].
    apply always_bind. eapply always_mono; [apply (lease_read_loop_ok t.(t_disks) 0); [|by rw length_replicate|by vm_compute|done|by left|done]|done|].
    { split; [by rw !length_replicate|by left]. }
    intros h [[[[[leaders reps] num] rv] [mb mq]] our] _ (Hh & [Hlen Hf] & Hmb & Hnum & Hrv). cbn [Nat.add] in *.
    destruct Hf as [?|[El Er]]; [lia|]. destruct Hrv as [?|[-> Hok]]; [lia|].
    destruct (Z.eqb_spec num 0); [lia|].
    destruct leaders as [|l0 leaders]; [done|]. destruct reps as [|r0 reps]; [done|].
    injection El as ->. injection Er as ->. cbn [majority_leader].
    rw -/(num_disks t) all_majority; [done..|]. by apply always_ret.
  - unfold disk0. destruct (t_disks t) as [|d ds] eqn:Ed; [done|].
    apply always_bind, always_ret; [done|]. by apply lease_read_one_ok.
Qed.

(** ** Writing the leader *)

Lemma write_leaders_ok tk ds nl k to rv (I : list event -> Prop) h :
  (forall h, I h) -> shared_only t tk -> ds ⊆ t.(t_disks) -> leader_record_ok nl ->
  always_in uncontended (write_leaders tk ds nl k to rv) I
    (fun _ r => let '(k', _, _, nl') := r in k' = k + Z.of_nat (length ds) /\
       nl'.(lr_owner_id) = nl.(lr_owner_id) /\ nl'.(lr_lver) = nl.(lr_lver)) h.
Proof.
  intros HI Hsh. destruct Hfl as [Hgeo Ess _ _ _ _ _]. destruct Hgeo as [[Hss _] _ _ _ _ _ _ Hoff].
  assert (Etk : tk.(t_sector_size) = E.(le_ss)) by (by destruct Hsh as (? & ? & ->)).
  revert nl k to rv h. induction ds as [|d ds IH]; intros nl k to rv h Hsub Hok; cbn [write_leaders].
  { apply always_ret; [done|]. cbn. split; [lia|done]. }
  pose proof (proj1 (list.Forall_forall _ _) Hoff d ltac:(apply Hsub, list_elem_of_here)) as Ho.
  assert (Elen : (E.(le_ss) <? Z.of_nat (length (leader_image nl lr_end0))) = false).
  { apply Z.ltb_ge. rw length_leader_image; [done..|]. change (Z.of_nat sizeof_leader_record) with 200. lia. }
  unfold write_leader, write_sector, _write_sectors. rw Etk good_sector_size // Elen.
  apply always_bind, always_bind, always_bind, always_quiet; [done..|]. intros [e m] [_ He]. cbn [fst] in *. rw He.
  cbn [nz Z.eqb negb]. apply always_call; [done|]. intros w [_ ->]. split; [done|].
  apply always_ret; [done|]. cbn [fst snd].
  eapply always_mono; [apply IH; [intros x Hx; by apply Hsub, list_elem_of_further|by apply sealed_leader_ok]|done|].
  intros h' [[[k' to'] rv'] nl'] _ (-> & H). cbn [Z.ltb]. change (0 <? 0) with false. cbv iota.
  split; [cbn; lia|done].
Qed.

Lemma commit_ok a (I : list event -> Prop) h :
  (forall h, I h) -> shared_only t a.(aq_token) -> a.(aq_cur) = l -> leader_record_ok l ->
  paxos_dblock_ok a.(aq_dblock) -> a.(aq_dblock).(pd_inp) = t.(t_host_id) ->
  always_in uncontended (acquire_commit flags new_num_hosts a) I
    (fun _ n => exists a', n = Out SANLK_OK a' /\ a'.(aq_host_disk) = a.(aq_host_disk) /\
       a'.(aq_leader_ret).(lr_owner_id) = t.(t_host_id) /\
       a'.(aq_leader_ret).(lr_lver) = a.(aq_dblock).(pd_lver)) h.
Proof.
  intros HI Hsh Ecur Hok Hpd Hinp. pose proof (fl_geo Hfl) as Hgeo. unfold acquire_commit.
  assert (Hd : a.(aq_token).(t_disks) = t.(t_disks)) by (by destruct Hsh as (? & ? & ->)).
  assert (Hs : same_lease t a.(aq_token)) by (by destruct Hsh as (? & ? & ->)).
  apply always_bind, always_quiet; [done..|]. intros now [Hnow _]. apply always_bind.
  rw -Ecur in Hok.
  pose proof (new_leader_ok flags new_num_hosts E t Hgeo a.(aq_token) a.(aq_cur) a.(aq_dblock) now Hs Hok Hpd Hnow) as Hnl.
  unfold write_new_leader. apply always_bind. rw Hd.
  eapply always_mono; [by apply write_leaders_ok|done|].
  intros h' [[[k to] rv] nl] _ (Hk & Eo & El). rw all_majority; [by rw Hd; apply Hgeo|by rw Hd; lia|].
  cbn [negb]. apply always_ret; [done|]. cbn [fst snd]. change (SANLK_OK <? 0) with false. cbv iota.
  rw (sl_host _ _ Hs) Eo. cbn [lr_owner_id new_leader]. rw Hinp Z.eqb_refl. cbn [negb].
  apply always_ret; [done|]. eexists. split; [done|]. split; [done|]. cbn [aq_leader_ret aq_set_ret].
  split; [by rw Eo|by rw El].
Qed.

(** ** The ballot in the lease *)

(** Our writes so far do not stand in the way of the ballot ([L], [b]). *)
Definition own_votes (L b : Z) (h : list event) : Prop :=
  forall e v, e ∈ h -> own_write E.(le_ss) t.(t_host_id) t.(t_disks) v e ->
    unopposed t.(t_host_id) L b v.

Lemma own_write_cast v v' e :
  own_write E.(le_ss) t.(t_host_id) t.(t_disks) v e ->
  own_write E.(le_ss) t.(t_host_id) t.(t_disks) v' e -> v = v'.
Proof.
  intros (d & rv & _ & _ & m & -> & _ & <-) (d' & rv' & _ & _ & m' & Ee & _ & <-). by injection Ee as _ _ -> _.
Qed.

Lemma uncontended_standing_by b :
  standing_by E.(le_ss) l.(lr_num_hosts) t.(t_host_id) (l.(lr_lver) + 1) b t.(t_disks)
    uncontended (own_votes (l.(lr_lver) + 1) b).
Proof.
  split.
  - by intros h X c x [H _].
  - by intros h n r [_ H].
  - by intros h fd off n io m rv [_ H].
  - intros h fd off n io r Hh (_ & Erv & _ & _ & Hslots). split; [done|]. intros q Hq.
    destruct (Hslots q Hq) as [Ev Hv]. unfold slot_view. rw Z.add_0_l.
    destruct Hv as [Hlt|(_ & e & He & Hw)]; [|by eapply Hh].
    left. unfold dview. rw Ev. change (SANLK_OK <? 0) with false. cbn [vote_of pd_lver]. lia.
  - intros h fd off n io r Hh _ e v [He| ->%list_elem_of_singleton]%elem_of_app; [by eauto|].
    intros (d & rv & _ & _ & m & Ee & _). discriminate Ee.
  - intros h v e Hh Hun _ Hw e' v' [He'| ->%list_elem_of_singleton]%elem_of_app Hw'; [by eauto|].
    by rw (own_write_cast _ _ _ Hw' Hw).
Qed.

Lemma retry_ok a h :
  Forall not_write h -> a.(aq_token) = t -> a.(aq_cur) = l -> a.(aq_copy) = true -> leader_record_ok l ->
  a.(aq_next_lver) = l.(lr_lver) + 1 -> is_u 64 a.(aq_our_mbal) ->
  always_in uncontended (acquire_retry_ballot flags new_num_hosts a) (fun _ => True)
    (fun _ n => exists a', n = Out SANLK_OK a' /\ a'.(aq_host_disk) = a.(aq_host_disk) /\
       a'.(aq_leader_ret).(lr_owner_id) = t.(t_host_id) /\ a'.(aq_leader_ret).(lr_lver) = l.(lr_lver) + 1) h.
Proof.
  intros Hh Et Ecur Ecopy Hok EL Hb. pose proof Hfl as [Hgeo Ess _ [_ _ _ Hnum Hlv] Hhosts _ _].
  pose proof Hgeo as [[Hss Hal] _ Hmax Hhid Hgen Hne Hfds Hoff].
  unfold acquire_retry_ballot. rw Ecopy Et Ecur. apply always_bind, always_ret; [done|]. cbn [fst snd].
  change (SANLK_OK <? 0) with false. cbn [aq_next_lver aq_our_mbal aq_dblock aq_set_tmp]. rw EL.
  destruct (Z.eqb_spec l.(lr_lver) (l.(lr_lver) + 1)); [lia|]. destruct (Z.ltb_spec (l.(lr_lver) + 1) l.(lr_lver)); [lia|].
  assert (Ebd : bool_decide (l = l) = true) by (by apply bool_decide_eq_true_2). rw Ebd. cbn [negb].
  assert (Enh : i32 l.(lr_num_hosts) = l.(lr_num_hosts)) by (apply i32_small; lia). rw Enh.
  assert (Hbg : ballot_geometry E.(le_ss) l.(lr_num_hosts) t.(t_disks)).
  { split; [done| | |done].
    - change (Z.of_nat HOSTID_BITMAP_SIZE * 8) with 2048. lia.
    - eapply Forall_impl; [|exact Hoff]. cbn. intros d Hd. nia. }
  assert (Htf : token_for E.(le_ss) t.(t_disks) t.(t_host_id) t) by done.
  assert (HL : 1 <= l.(lr_lver) + 1 < 2 ^ 64) by (unfold leader_record_ok, is_u in Hok; lia).
  destruct (area_len_bounds E.(le_ss) l.(lr_num_hosts) t.(t_disks) Hbg) as [Hlen _].
  assert (Hov : own_votes (l.(lr_lver) + 1) a.(aq_our_mbal) h).
  { intros e v He (d & rv & _ & _ & m & -> & _). by destruct (proj1 (list.Forall_forall _ _) Hh _ He). }
  apply always_bind. eapply always_mono;
    [apply (ballot_wins E.(le_ss) l.(lr_num_hosts) t.(t_host_id) (l.(lr_lver) + 1) a.(aq_our_mbal) _ t.(t_disks)
       Hbg ltac:(lia) HL Hb ltac:(apply Hlen) uncontended _ (uncontended_standing_by _) Hne t); done|done|].
  intros h' r _ (_ & pd & t' & -> & Hsh & Hpd & EpL & Einp).
  change ((SANLK_OK =? SANLK_DBLOCK_MBAL) || (SANLK_OK =? SANLK_DBLOCK_LVER)) with false.
  change (SANLK_OK <? 0) with false. cbv iota. rw -EpL.
  by apply (commit_ok (aq_set_dblock t' pd (aq_set_tmp l false a))).
Qed.

Lemma restart_ok one a :
  a.(aq_token) = t ->
  always_in uncontended (acquire_restart flags acquire_lver one a) (fun _ => True)
    (fun h n => exists a', n = Goto LRun a' /\ Forall not_write h /\ a'.(aq_token) = t /\ a'.(aq_cur) = l /\
       a'.(aq_copy) = true /\ leader_record_ok l /\ is_u 64 a'.(aq_max_mbal) /\
       a'.(aq_host_disk) = a.(aq_host_disk)) [].
Proof.
  intros Et. pose proof Hfl as [Hgeo Ess Eal [E1 E2 E3 _ _] _ Hfree Hlver]. pose proof (ag_lease _ _ Hgeo) as [Hss _].
  unfold acquire_restart. cbn [aq_token aq_set_tmp aq_cur aq_max_mbal]. rw Et.
  apply always_bind. eapply always_mono; [apply lease_read_ok|done|].
  intros h [rv o] _ (Hh & Erv & El & Hok & Hmb). cbn [fst snd] in *. rw Erv El.
  change (SANLK_OK <? 0) with false. cbn [aq_token aq_set_cur aq_set_tmp aq_cur]. rw Et E1 E2 Ess Eal.
  assert (u32 E.(le_ss) = E.(le_ss)) as -> by (apply wrapu_small; unfold is_u; lia). rw !Z.eqb_refl. cbn [negb orb].
  assert (Ego : exists a', (Ret (Goto LRun (aq_set_tmp leader_zero true
      (aq_set_cur l o.(la_max_mbal) (aq_set_tmp leader_zero false a)))) : prog acq_next) = Ret (Goto LRun a') /\
      a'.(aq_token) = t /\ a'.(aq_cur) = l /\ a'.(aq_copy) = true /\ is_u 64 a'.(aq_max_mbal) /\
      a'.(aq_host_disk) = a.(aq_host_disk)) by (eexists; split; [done|]; by rw /= Et).
  destruct Ego as (a' & Ea & H1 & H2 & H3 & H4 & H5).
  assert (Hret : always_in uncontended (Ret (Goto LRun a')) (fun _ => True)
    (fun h n => exists a', n = Goto LRun a' /\ Forall not_write h /\ a'.(aq_token) = t /\ a'.(aq_cur) = l /\
       a'.(aq_copy) = true /\ leader_record_ok l /\ is_u 64 a'.(aq_max_mbal) /\
       a'.(aq_host_disk) = a.(aq_host_disk)) h) by (apply always_ret; [done|]; by exists a').
  cbn [aq_tmp]. rw Ea. destruct (has_flag _ _); [exact Hret|].
  assert (Elv : nz acquire_lver && negb (l.(lr_lver) =? acquire_lver) = false).
  { destruct Hlver as [-> | ->]; [done|]. by rw Z.eqb_refl andb_false_r. }
  rw Elv. assert (Enow : no_owner_wait t l = true) by (unfold no_owner_wait; by rw Hfree).
  rw Enow. exact Hret.
Qed.

Lemma acquire_wins n one a0 :
  always_in uncontended (paxos_lease_acquire com flags acquire_lver new_num_hosts (3 + n) one t a0) (fun _ => True)
    (fun _ r => exists a, r = Some (SANLK_OK, a) /\ a.(aq_leader_ret).(lr_owner_id) = t.(t_host_id) /\
       a.(aq_leader_ret).(lr_lver) = l.(lr_lver) + 1) [].
Proof.
  pose proof Hfl as [Hgeo Ess _ [_ _ E3 _ Hlv] Hhosts _ _]. pose proof Hgeo as [[Hss _] _ Hmax Hhid _ _ _ _].
  unfold paxos_lease_acquire. rw Ess. destruct (Z.eqb_spec E.(le_ss) 0); [lia|].
  cbn [Nat.add acquire_loop acquire_step]. apply always_bind.
  eapply always_mono; [by apply restart_ok|done|].
  intros h nx _ (a & -> & Hh & Et & Ec & Ecopy & Hok & Hmb & Ehd).
  cbn [acquire_loop acquire_step]. unfold acquire_run. rw Ec E3. destruct (Z.eqb_spec E.(le_max_hosts) 0); [lia|]. rw andb_false_r.
  apply always_bind, always_ret; [done|]. apply always_bind.
  assert (0 <= l.(lr_lver)) by (unfold leader_record_ok, is_u in Hok; lia).
  eapply always_mono; [apply retry_ok; [done|done|done|done|done| |]|done|].
  { cbn. apply wrapu_small. unfold is_u. lia. }
  { cbn. rw Et. unfold first_mbal. destruct (_ =? 0); [unfold is_u; lia|by apply wrapu_is_u]. }
  intros h' nx _ (a' & -> & Ehd' & Eo & El). cbn [aq_host_disk aq_set_ballot] in Ehd'. rw Ehd' Ehd. cbn [aq_host_disk aq_set_disk].
  apply always_bind, always_ret; [done|]. apply always_ret; [done|]. by exists a'.
Qed.
End lease.

(** ** Properties *)


Definition demo3_leader : leader_record := leader_record_in demo3_shown.

Lemma demo3_free : free_lease 0 demo3_env demo3_token demo3_leader.
Proof.
  split; [exact demo3_acquire_geometry|done|done|split; by vm_compute|by vm_compute|by vm_compute|by left].
Qed.

