(* ===== verification/BallotQuorum.v ===== *)
(** * The quorum argument for ballots

    Disk Paxos in terms of what the slots of a lease area say at each moment:
    a ballot that completed phase 2 fixes the value of every later ballot that
    completes phase 1. [BallotSystem] shows that hosts running [run_ballot]
    ([src/src/paxos_lease.c]) satisfy the hypotheses of the section. *)

From S2P Require Import Prelude OnDisk SizeFlags Io PaxosBlocks PaxosBallot BallotLog.

#[local] Opaque Crc32c.crc32c.

(** ** Majorities meet *)

Lemma sublist_majority_meet {A} (l l1 l2 : list A) :
  NoDup l -> sublist l1 l -> sublist l2 l -> (length l < length l1 + length l2)%nat ->
  exists x, x ∈ l1 /\ x ∈ l2.
Proof.
  intros Hnd H1. revert l2. induction H1 as [|x l1 l H1 IH|x l1 l H1 IH]; intros l2 H2 Hlen.
  - apply sublist_nil_r in H2 as ->. simpl in Hlen. lia.
  - apply list.NoDup_cons in Hnd as [Hx Hnd]. apply sublist_cons_r in H2 as [H2|(l2' & -> & H2)].
    + destruct (IH Hnd l2 H2) as (y & ? & ?); [simpl in Hlen; lia|]. exists y.
      split; [by apply list_elem_of_further|done].
    + exists x. split; apply list_elem_of_here.
  - apply list.NoDup_cons in Hnd as [Hx Hnd]. apply sublist_cons_r in H2 as [H2|(l2' & -> & H2)].
    + apply (IH Hnd l2 H2). simpl in Hlen. lia.
    + destruct (IH Hnd l2' H2) as (y & ? & ?); [simpl in Hlen; lia|]. exists y.
      split; [done|by apply list_elem_of_further].
Qed.

Lemma majority_meet disks (P Q : sync_disk -> Prop) :
  NoDup disks -> majority disks P -> majority disks Q -> exists d, d ∈ disks /\ P d /\ Q d.
Proof.
  intros Hnd (d1 & S1 & N1 & F1) (d2 & S2 & N2 & F2).
  destruct (sublist_majority_meet disks d1 d2 Hnd S1 S2 ltac:(lia)) as (d & ? & ?).
  exists d. split; [by eapply elem_of_sublist|].
  split; [by eapply (proj1 (list.Forall_forall _ _) F1)|by eapply (proj1 (list.Forall_forall _ _) F2)].
Qed.

Lemma majority_some disks P : majority disks P -> exists d, d ∈ disks /\ P d.
Proof.
  intros (ds & S & N & F). destruct ds as [|d ds]; [simpl in N; lia|]. exists d.
  split; [eapply elem_of_sublist; [|done]; apply list_elem_of_here|by inversion F].
Qed.

(** ** The quorum argument *)

(** The order in which the votes of one host follow each other. *)
Definition vote_le (x y : paxos_dblock) : Prop :=
  x.(pd_lver) < y.(pd_lver) \/ x.(pd_lver) = y.(pd_lver) /\
  (x.(pd_mbal) < y.(pd_mbal) \/ x.(pd_mbal) = y.(pd_mbal) /\ x.(pd_bal) <= y.(pd_bal)).

Definition vote_value (x : paxos_dblock) : value := (x.(pd_inp), x.(pd_inp2), x.(pd_inp3)).

Section quorum.
Context (nh : Z) (disks : list sync_disk) (L : Z).
(** What slot [q] of disk [d] says at a time. *)
Context (blk : nat -> sync_disk -> Z -> paxos_dblock).

(** Host index [h] ended phase 1 of ballot [b] with the value [v]. *)
Definition started (h b : Z) (v : value) : Prop :=
  exists (T : nat) (mx : paxos_dblock),
    majority disks (fun d => exists τ, (τ <= T)%nat /\ blk τ d h = vote1 L b) /\
    majority disks (fun d => forall q, 0 <= q < nh -> exists τ, (T <= τ)%nat /\
      clean L b (blk τ d q) /\
      (counts L (blk τ d q) -> (blk τ d q).(pd_bal) <= mx.(pd_bal))) /\
    (mx.(pd_bal) = 0 \/
     counts L mx /\ clean L b mx /\ v = vote_value mx /\
     exists τ d q, 0 <= q < nh /\ d ∈ disks /\ mx = blk τ d q /\
       (q = h -> mx.(pd_bal) <> b)).

(** Host index [h] ended phase 2 of ballot [b] with the value [v]. *)
Definition committed (h b : Z) (v : value) : Prop :=
  exists T : nat,
    majority disks (fun d => exists τ, (τ <= T)%nat /\ blk τ d h = vote2 L b v) /\
    majority disks (fun d => forall q, 0 <= q < nh -> exists τ, (T <= τ)%nat /\
      clean L b (blk τ d q)).

Context (Hdisks : NoDup disks).
Context (Hmono : forall τ τ' d q, d ∈ disks -> 0 <= q < nh -> (τ <= τ')%nat ->
  vote_le (blk τ d q) (blk τ' d q)).
(** A vote with a value is the vote of a phase 2. *)
Context (Hphase2 : forall τ d q, d ∈ disks -> 0 <= q < nh ->
  (blk τ d q).(pd_lver) = L -> (blk τ d q).(pd_bal) <> 0 ->
  (blk τ d q).(pd_mbal) = (blk τ d q).(pd_bal) /\ (blk τ d q).(pd_inp) <> 0 /\
  started q (blk τ d q).(pd_bal) (vote_value (blk τ d q))).
(** A ballot number belongs to one host, which says one value in it. *)
Context (Huniq : forall τ d q τ' d' q', d ∈ disks -> d' ∈ disks -> 0 <= q < nh -> 0 <= q' < nh ->
  (blk τ d q).(pd_lver) = L -> (blk τ' d' q').(pd_lver) = L ->
  (blk τ d q).(pd_bal) <> 0 -> (blk τ d q).(pd_bal) = (blk τ' d' q').(pd_bal) ->
  q = q' /\ vote_value (blk τ d q) = vote_value (blk τ' d' q')).
(** Whoever is past phase 1 of a ballot has it for itself. *)
Context (Hown : forall τ d q h b v, d ∈ disks -> 0 <= q < nh -> 0 <= h < nh -> started h b v ->
  (blk τ d q).(pd_lver) = L -> (blk τ d q).(pd_bal) = b -> b <> 0 -> q = h).

(** A later ballot that gets through phase 1 has seen the committed vote. *)
Lemma committed_seen p b v h b' T' mx :
  0 <= p < nh -> 0 <= h < nh -> 1 <= b < b' ->
  committed p b v ->
  (forall τ d, d ∈ disks -> (blk τ d p).(pd_lver) = L -> (blk τ d p).(pd_mbal) <= b) ->
  majority disks (fun d => exists τ, (τ <= T')%nat /\ blk τ d h = vote1 L b') ->
  majority disks (fun d => forall q, 0 <= q < nh -> exists τ, (T' <= τ)%nat /\
    clean L b' (blk τ d q) /\ (counts L (blk τ d q) -> (blk τ d q).(pd_bal) <= mx.(pd_bal))) ->
  b <= mx.(pd_bal).
Proof.
  intros Hp Hh Hb (T & Hw & Hr) Hlive Hw' Hr'.
  destruct (majority_meet disks _ _ Hdisks Hw Hr') as (d1 & Hd1 & (τw & Hτw & Ew) & Hread1).
  destruct (majority_meet disks _ _ Hdisks Hw' Hr) as (d2 & Hd2 & (σ & Hσ & Eσ) & Hread2).
  destruct (Hread1 p Hp) as (τr & Hτr & Hcl & Hmax). destruct (Hread2 h Hh) as (σ' & Hσ' & Hcl2).
  destruct (Nat.lt_ge_cases τr τw) as [Hlt|Hge].
  - exfalso. pose proof (Hmono σ σ' d2 h Hd2 Hh ltac:(lia)) as Hm. rw Eσ in Hm.
    unfold vote_le, clean in *. simpl in Hm. lia.
  - pose proof (Hmono τw τr d1 p Hd1 Hp ltac:(lia)) as Hm. rw Ew in Hm.
    pose proof (Hlive τr d1 Hd1) as Hl.
    assert (HlL : (blk τr d1 p).(pd_lver) = L) by (unfold vote_le, clean in *; simpl in Hm; lia).
    assert (Hbal : b <= (blk τr d1 p).(pd_bal)) by (unfold vote_le in Hm; simpl in Hm; lia).
    destruct (Hphase2 τr d1 p Hd1 Hp HlL ltac:(lia)) as (_ & Hinp & _).
    etransitivity; [exact Hbal|]. apply Hmax. split; [done|]. split; [done|lia].
Qed.

(** Agreement of a committed ballot with every later one. *)
Lemma committed_started p b v :
  0 <= p < nh -> 1 <= b -> committed p b v ->
  (forall τ d, d ∈ disks -> (blk τ d p).(pd_lver) = L -> (blk τ d p).(pd_mbal) <= b) ->
  forall b' h v', b < b' -> 0 <= h < nh -> started h b' v' -> v' = v.
Proof.
  intros Hp Hb Hcom Hlive b'. induction (Z.lt_wf b b') as [b' _ IH].
  intros h v' Hlt Hh Hst. pose proof Hst as (T' & mx & Hw' & Hr' & Hmx).
  pose proof (committed_seen p b v h b' T' mx Hp Hh ltac:(lia) Hcom Hlive Hw' Hr') as Hge.
  destruct Hmx as [Hmx|(Hcnt & Hcl & -> & τ & d & q & Hq & Hd & -> & Hself)]; [lia|].
  destruct Hcnt as (HmL & Hinp & Hbal).
  destruct (Hphase2 τ d q Hd Hq HmL Hbal) as (Emb & _ & Hst'').
  assert (Hle : (blk τ d q).(pd_bal) <= b') by (unfold clean in Hcl; lia).
  destruct (decide ((blk τ d q).(pd_bal) = b')) as [E|Hne'].
  { destruct Hself; [|done]. apply (Hown τ d q h b' _ Hd Hq Hh Hst HmL E). lia. }
  destruct (decide ((blk τ d q).(pd_bal) = b)) as [E|Hne].
  - destruct Hcom as (T & Hw & _). destruct (majority_some _ _ Hw) as (d3 & Hd3 & τ3 & _ & E3).
    assert (Hu : (blk τ3 d3 p).(pd_lver) = L /\ (blk τ3 d3 p).(pd_bal) = b /\
                 vote_value (blk τ3 d3 p) = v) by (rw E3; by destruct v as [[? ?] ?]).
    destruct Hu as (Hu1 & Hu2 & <-).
    destruct (Huniq τ d q τ3 d3 p) as [_ ->]; try done. by rw E Hu2.
  - apply (IH (blk τ d q).(pd_bal) ltac:(lia) q); [lia|done..].
Qed.
End quorum.
