(* ===== verification/BallotSystem.v ===== *)
(** * Hosts that run ballots concurrently

    Any number of hosts run [run_ballot] ([src/src/paxos_lease.c]) on the disks
    of one lease at the same time. [step] interleaves their i/o: a write takes
    effect at some moment between its start and its result (a failed write may
    or may not take effect), a read returns for every sector what that sector
    held at some moment between the read's start and its end, hosts stop at any
    point and run ballots again later, for the same or for later versions of
    the lease. The invariant [inv] ties the votes on the disks to the logs of the
    ballots, and [agreement] follows from it with [BallotQuorum]. *)

From stdpp Require Import sorting.
From S2P Require Import Prelude OnDisk SizeFlags Io PaxosBlocks PaxosBallot BallotLog BallotQuorum.

#[local] Opaque Crc32c.crc32c.

(** ** The system *)

Abbreviation devs := (Z -> mem).

(** A disk i/o of a host with the times of its start and its end: times count
    the writes that took effect. *)
Record tev := Tev { te_s : nat; te_e : nat; te_ev : event }.

(** A ballot with its i/o and, if it came to an end, its result. *)
Record ballot := Ballot {
  bl_gen : Z;
  bl_lver : Z;
  bl_mbal : Z;
  bl_log : list tev;
  bl_out : option (Z * paxos_dblock)
}.

(** A ballot under way: the rest of the program, when its last i/o ended, and
    the time at which the write it is doing took effect, if it has. *)
Record running := Running {
  rn_token : token;
  rn_lver : Z;
  rn_mbal : Z;
  rn_prog : prog (Z * paxos_dblock * token);
  rn_since : nat;
  rn_landed : option nat;
  rn_log : list tev
}.

Record host := Host { h_past : list ballot; h_cur : option running }.

(** The devices since the beginning, newest last, and the hosts. *)
Record system := System { s_hist : list devs; s_hosts : Z -> host }.

Definition now (g : system) : nat := pred (length g.(s_hist)).

Definition dev_at (H : list devs) (τ : nat) : devs := nth (Nat.min τ (pred (length H))) H (fun _ => mem_zero).

Definition set_host (h : Z) (x : host) (hs : Z -> host) : Z -> host :=
  fun h' => if h' =? h then x else hs h'.

Definition dev_write (D : devs) (fd off len : Z) (m : mem) : devs :=
  fun fd' => if fd' =? fd then mem_write (D fd) off len m else D fd'.

Definition finish (r : running) (out : option (Z * paxos_dblock)) : ballot :=
  Ballot r.(rn_token).(t_host_generation) r.(rn_lver) r.(rn_mbal) r.(rn_log) out.

(** The host got the result of what it was doing. *)
Definition resume (r : running) (p : prog (Z * paxos_dblock * token)) (T : nat) (es : list event) : running :=
  Running r.(rn_token) r.(rn_lver) r.(rn_mbal) p T None (r.(rn_log) ++ (Tev r.(rn_since) T <$> es)).

Definition land (r : running) (T : nat) : running :=
  Running r.(rn_token) r.(rn_lver) r.(rn_mbal) r.(rn_prog) r.(rn_since) (Some T) r.(rn_log).

Definition ballot_lt (L1 b1 L2 b2 : Z) : Prop := L1 < L2 \/ L1 = L2 /\ b1 < b2.

Section system.
Context (ss nh mh : Z) (disks : list sync_disk) (L0 : Z).

(** Every sector of the buffer is what the device's sector was at some time
    of the interval. *)
Definition sector_read (H : list devs) (s e : nat) (fd off len : Z) (m : mem) : Prop :=
  forall n, 0 <= n -> (n + 1) * ss <= len ->
  exists τ, (s <= τ <= e)%nat /\ forall i, 0 <= i < ss -> m (n * ss + i) = dev_at H τ fd (off + n * ss + i).

Definition set_cur (g : system) (h : Z) (r : running) : system :=
  System g.(s_hist) (set_host h (Host (g.(s_hosts) h).(h_past) (Some r)) g.(s_hosts)).

Definition set_past (g : system) (h : Z) (B : ballot) : system :=
  System g.(s_hist) (set_host h (Host ((g.(s_hosts) h).(h_past) ++ [B]) None) g.(s_hosts)).

Inductive step : system -> system -> Prop :=
  (** Host [h] starts ballot [b] for version [L] of the lease. *)
  | step_start g h t L b pd0 :
      1 <= h <= nh -> (g.(s_hosts) h).(h_cur) = None ->
      token_for ss disks h t -> L0 < L < 2 ^ 64 -> 1 <= b < 2 ^ 64 -> b mod mh = h mod mh ->
      Forall (fun B => ballot_lt B.(bl_lver) B.(bl_mbal) L b) (g.(s_hosts) h).(h_past) ->
      step g (set_cur g h (Running t L b (run_ballot t nh L b pd0) (now g) None []))
  (** The write a host is doing takes effect. *)
  | step_land g h r fd off len ioto m k :
      1 <= h <= nh -> (g.(s_hosts) h).(h_cur) = Some r ->
      r.(rn_prog) = Io (CWriteIobuf fd off len ioto m) k -> r.(rn_landed) = None ->
      step g (System (g.(s_hist) ++ [dev_write (dev_at g.(s_hist) (now g)) fd off len m])
                (set_host h (Host (g.(s_hosts) h).(h_past) (Some (land r (length g.(s_hist)))))
                   g.(s_hosts)))
  (** A write that took effect ends, with success or with an error. *)
  | step_written g h r fd off len ioto m k τ rv :
      1 <= h <= nh -> (g.(s_hosts) h).(h_cur) = Some r ->
      r.(rn_prog) = Io (CWriteIobuf fd off len ioto m) k -> r.(rn_landed) = Some τ -> rv <= 0 ->
      step g (set_cur g h (resume r (k rv) (now g) [EvWrite fd off len m rv]))
  (** A write ends with an error and never takes effect. *)
  | step_write_failed g h r fd off len ioto m k rv :
      1 <= h <= nh -> (g.(s_hosts) h).(h_cur) = Some r ->
      r.(rn_prog) = Io (CWriteIobuf fd off len ioto m) k -> r.(rn_landed) = None -> rv < 0 ->
      step g (set_cur g h (resume r (k rv) (now g) [EvWrite fd off len m rv]))
  | step_read g h r fd off len ioto k rv m :
      1 <= h <= nh -> (g.(s_hosts) h).(h_cur) = Some r ->
      r.(rn_prog) = Io (CReadIobuf fd off len ioto) k ->
      rv <= 0 -> (forall i, byte_ok (m i)) ->
      (rv = 0 -> sector_read g.(s_hist) r.(rn_since) (now g) fd off len m) ->
      step g (set_cur g h (resume r (k (rv, m)) (now g) [EvRead fd off len rv m]))
  (** A call that is not disk i/o. *)
  | step_call g h r X (c : cmd X) k x :
      1 <= h <= nh -> (g.(s_hosts) h).(h_cur) = Some r ->
      r.(rn_prog) = Io c k -> (forall x, ev c x = []) -> resp_ok c x ->
      step g (set_cur g h (resume r (k x) (now g) []))
  | step_return g h r rv pd t' :
      1 <= h <= nh -> (g.(s_hosts) h).(h_cur) = Some r -> r.(rn_prog) = Ret (rv, pd, t') ->
      step g (set_past g h (finish r (Some (rv, pd))))
  (** The host stops. *)
  | step_stop g h r :
      1 <= h <= nh -> (g.(s_hosts) h).(h_cur) = Some r -> r.(rn_landed) = None ->
      step g (set_past g h (finish r None)).

Definition init (dev0 : devs) : system := System [dev0] (fun _ => Host [] None).

(** Reachable from devices on which no slot is of a version above [L0]. *)
Definition old_slots (dev0 : devs) : Prop :=
  forall d q, d ∈ disks -> 0 <= q < nh ->
  (slot_view ss (dev0 d.(sd_fd)) d.(sd_offset) q).(pd_lver) <= L0.

Definition reachable (dev0 : devs) (g : system) : Prop := rtc step (init dev0) g.

(** ** The ballots of a state *)

(** The write a program is about to do. *)
Definition pend {A} (p : prog A) : option (Z * Z * Z * mem) :=
  match p with
  | Io c _ => match c with CWriteIobuf fd off len _ m => Some (fd, off, len, m) | _ => None end
  | _ => None
  end.

(** The i/o of a running ballot, with the write that took effect but whose
    result is still to come. *)
Definition full_log (r : running) : list tev :=
  r.(rn_log) ++
  match r.(rn_landed), pend r.(rn_prog) with
  | Some τ, Some (fd, off, len, m) => [Tev r.(rn_since) τ (EvWrite fd off len m (-1))]
  | _, _ => []
  end.

Definition as_ballot (r : running) : ballot :=
  Ballot r.(rn_token).(t_host_generation) r.(rn_lver) r.(rn_mbal) (full_log r) None.

Definition ballots (x : host) : list ballot :=
  x.(h_past) ++ match x.(h_cur) with Some r => [as_ballot r] | None => [] end.

(** ** Invariant *)

Definition entry_ok (H : list devs) (x : tev) : Prop :=
  (x.(te_s) <= x.(te_e) < length H)%nat /\
  match x.(te_ev) with
  | EvWrite fd off len m rv => rv = 0 ->
      exists τ, (x.(te_s) <= τ <= x.(te_e))%nat /\
        forall i, 0 <= i < len -> dev_at H τ fd (off + i) = m i
  | EvRead fd off len rv m => rv = 0 -> sector_read H x.(te_s) x.(te_e) fd off len m
  | _ => True
  end.

Definition before (x y : tev) : Prop := (x.(te_e) <= y.(te_s))%nat.

Definition log_ok (H : list devs) (l : list tev) : Prop :=
  Forall (entry_ok H) l /\ StronglySorted before l.

Abbreviation events l := (te_ev <$> l).

(** The numbers of a ballot of host [h]. *)
Definition numbers_ok (h L b : Z) : Prop :=
  L0 < L < 2 ^ 64 /\ 1 <= b < 2 ^ 64 /\ b mod mh = h mod mh.

Record ballot_ok (H : list devs) (h : Z) (B : ballot) : Prop := {
  bo_numbers : numbers_ok h B.(bl_lver) B.(bl_mbal);
  bo_log : log_ok H B.(bl_log);
  bo_logged : logged ss nh disks h B.(bl_gen) B.(bl_lver) B.(bl_mbal) (events B.(bl_log));
  bo_out : forall pd, B.(bl_out) = Some (SANLK_OK, pd) ->
    exists v, committed_log ss nh disks h B.(bl_gen) B.(bl_lver) B.(bl_mbal) (events B.(bl_log)) v /\
      vote_of pd = vote2 B.(bl_lver) B.(bl_mbal) v
}.

Record running_ok (H : list devs) (h : Z) (r : running) : Prop := {
  ro_numbers : numbers_ok h r.(rn_lver) r.(rn_mbal);
  ro_log : log_ok H r.(rn_log);
  ro_always : always r.(rn_prog)
    (logged ss nh disks h r.(rn_token).(t_host_generation) r.(rn_lver) r.(rn_mbal))
    (ballot_result ss nh disks h r.(rn_token).(t_host_generation) r.(rn_lver) r.(rn_mbal) r.(rn_token))
    (events r.(rn_log));
  ro_since : Forall (fun x => (x.(te_e) <= r.(rn_since))%nat) r.(rn_log);
  ro_now : (r.(rn_since) < length H)%nat;
  ro_landed : forall τ, r.(rn_landed) = Some τ ->
    (r.(rn_since) < τ < length H)%nat /\
    exists fd off len m, pend r.(rn_prog) = Some (fd, off, len, m) /\
      forall i, 0 <= i < len -> dev_at H τ fd (off + i) = m i
}.

(** What slot [q] of disk [d] says at time [τ]. *)
Definition blk (H : list devs) (τ : nat) (d : sync_disk) (q : Z) : paxos_dblock :=
  slot_view ss (dev_at H τ d.(sd_fd)) d.(sd_offset) q.

(** The vote is the one that an i/o of ballot [B], begun before [τ], wrote. *)
Definition voted (B : ballot) (d : sync_disk) (q : Z) (v : paxos_dblock) (τ : nat) : Prop :=
  exists x rv, x ∈ B.(bl_log) /\ (x.(te_s) < τ)%nat /\ slot_write ss (q + 1) d v rv x.(te_ev).

Definition key_lt (B B' : ballot) : Prop :=
  ballot_lt B.(bl_lver) B.(bl_mbal) B'.(bl_lver) B'.(bl_mbal).

Record inv (g : system) : Prop := {
  in_hist : g.(s_hist) <> [];
  in_past : forall h, 1 <= h <= nh -> Forall (ballot_ok g.(s_hist) h) (g.(s_hosts) h).(h_past);
  in_cur : forall h r, 1 <= h <= nh -> (g.(s_hosts) h).(h_cur) = Some r -> running_ok g.(s_hist) h r;
  in_keys : forall h, 1 <= h <= nh -> StronglySorted key_lt (ballots (g.(s_hosts) h));
  in_content : forall τ d q, d ∈ disks -> 0 <= q < nh ->
    (blk g.(s_hist) τ d q).(pd_lver) <= L0 \/
    exists B, B ∈ ballots (g.(s_hosts) (q + 1)) /\ voted B d q (blk g.(s_hist) τ d q) τ;
  in_mono : forall τ τ' d q, d ∈ disks -> 0 <= q < nh -> (τ <= τ')%nat ->
    vote_le (blk g.(s_hist) τ d q) (blk g.(s_hist) τ' d q)
}.

(** *** Histories grow *)

Lemma dev_at_app H D τ : (τ < length H)%nat -> dev_at (H ++ [D]) τ = dev_at H τ.
Proof.
  intros Hτ. unfold dev_at. rw length_app. cbn [length].
  rw !Nat.min_l; [lia..|]. by rw app_nth1.
Qed.

Lemma dev_at_last H D τ : (length H <= τ)%nat -> dev_at (H ++ [D]) τ = D.
Proof.
  intros Hτ. unfold dev_at. rw length_app. cbn [length].
  replace (Nat.min τ (pred (length H + 1))) with (length H) by lia.
  rw app_nth2; [lia|]. by rw Nat.sub_diag.
Qed.

Lemma dev_at_clamp H τ : (length H <= τ)%nat -> dev_at H τ = dev_at H (pred (length H)).
Proof.
  intros Hτ. unfold dev_at.
  by replace (Nat.min τ (pred (length H))) with (Nat.min (pred (length H)) (pred (length H))) by lia.
Qed.

Lemma sector_read_app H D s e fd off len m :
  (e < length H)%nat -> sector_read H s e fd off len m -> sector_read (H ++ [D]) s e fd off len m.
Proof.
  intros He Hr n Hn Hl. destruct (Hr n Hn Hl) as (τ & Hτ & E). exists τ. split; [done|].
  intros i Hi. rw dev_at_app; [lia|]. by apply E.
Qed.

Lemma entry_ok_app H D x : entry_ok H x -> entry_ok (H ++ [D]) x.
Proof.
  intros [Ht Hx]. split; [rw length_app; lia|].
  destruct x.(te_ev) as [fd off len rv m|fd off len m rv| | | | |]; [| |done..]; intros E; specialize (Hx E).
  - apply sector_read_app; [lia|done].
  - destruct Hx as (τ & Hτ & Hx). exists τ. split; [done|]. intros i Hi.
    rw dev_at_app; [lia|]. by apply Hx.
Qed.

Lemma log_ok_app H D l : log_ok H l -> log_ok (H ++ [D]) l.
Proof.
  intros [Hf Hs]. split; [|done]. eapply Forall_impl; [|exact Hf]. intros. by apply entry_ok_app.
Qed.

Lemma ballot_ok_app H D h B : ballot_ok H h B -> ballot_ok (H ++ [D]) h B.
Proof. intros [? ? ? ?]. split; try done. by apply log_ok_app. Qed.

Lemma running_ok_app H D h r : running_ok H h r -> running_ok (H ++ [D]) h r.
Proof.
  intros [? ? ? ? ? Hl]. split; try done; [by apply log_ok_app|rw length_app; lia|].
  intros τ Hτ. destruct (Hl τ Hτ) as [Ht (fd & off & len & m & Hp & E)].
  split; [rw length_app; lia|]. exists fd, off, len, m. split; [done|]. intros i Hi.
  rw dev_at_app; [lia|]. by apply E.
Qed.

(** *** Votes of one ballot *)

Context (Hgeo : ballot_geometry ss nh disks) (Hmh : nh <= mh) (HL0 : 0 <= L0).

Lemma disk_eq d d' : d ∈ disks -> d' ∈ disks -> d.(sd_fd) = d'.(sd_fd) -> d = d'.
Proof.
  intros [i Hi]%list_elem_of_lookup [j Hj]%list_elem_of_lookup E.
  assert (i = j) as ->; [|congruence].
  eapply (NoDup_lookup (sd_fd <$> disks)); [apply Hgeo|by rw list_lookup_fmap Hi|].
  by rw list_lookup_fmap Hj E.
Qed.

Lemma disks_nodup : NoDup disks.
Proof. eapply NoDup_fmap_1, Hgeo. Qed.

Lemma slot_write_vote hid d d' v v' rv rv' e :
  slot_write ss hid d v rv e -> slot_write ss hid d' v' rv' e -> v = v'.
Proof. intros (m & -> & _ & <-) (m' & E & _ & <-). by injection E as _ _ ->. Qed.

Lemma own_write_vote hid v e d v' rv' :
  own_write ss hid disks v e -> slot_write ss hid d v' rv' e -> v' = v.
Proof. intros (d' & rv & _ & _ & Hs) Hs'. symmetry. by eapply slot_write_vote. Qed.

Lemma read_not_write hid len d v rv e : area_read disks len e -> ~ slot_write ss hid d v rv e.
Proof. intros (? & ? & ? & _ & _ & _ & ->) (? & ? & _). done. Qed.

Lemma phase1_done_reads hid gen L b w1 r1 v : phase1_done ss nh disks hid gen L b w1 r1 v -> r1 <> [].
Proof.
  intros [_ H _] ->. destruct (majority_some _ _ H) as (d & _ & m & Hm). by apply not_elem_of_nil in Hm.
Qed.

(** The writes of a ballot are its vote of phase 1 or, after phase 1, that of
    phase 2. *)
Lemma logged_votes hid gen L b es :
  logged ss nh disks hid gen L b es ->
  (forall e d v rv, e ∈ es -> slot_write ss hid d v rv e -> v = vote1 L b) \/
  exists w1 r1 w2 val, es = w1 ++ r1 ++ w2 /\
    phase1_done ss nh disks hid gen L b w1 r1 val /\
    Forall (area_read disks (area_len nh ss)) r1 /\
    (forall e d v rv, e ∈ w1 ++ r1 -> slot_write ss hid d v rv e -> v = vote1 L b) /\
    (forall e d v rv, e ∈ w2 -> slot_write ss hid d v rv e -> v = vote2 L b val).
Proof.
  assert (Hwr : forall V l1 l2 len e d v rv,
    Forall (own_write ss hid disks V) l1 -> Forall (area_read disks len) l2 ->
    e ∈ l1 ++ l2 -> slot_write ss hid d v rv e -> v = V).
  { intros V l1 l2 len e d v rv H1 H2 [He|He]%elem_of_app Hs.
    - eapply own_write_vote; [|done]. by eapply (proj1 (list.Forall_forall _ _) H1).
    - by destruct (read_not_write _ _ _ _ _ _ (proj1 (list.Forall_forall _ _) H2 e He) Hs). }
  intros [o [w1 r1 H1 H2|w1 r1 w2 r2 val H1 H2 Hp H3 H4]].
  - left. intros e d v rv. by eapply Hwr.
  - right. exists w1, r1, (w2 ++ r2), val. split; [done|]. do 2 (split; [done|]).
    split; intros e d v rv; by eapply Hwr.
Qed.

Lemma vote_le_refl x : vote_le x x.
Proof. unfold vote_le. lia. Qed.

Lemma vote_le_trans x y z : vote_le x y -> vote_le y z -> vote_le x z.
Proof. unfold vote_le. lia. Qed.

(** The write that follows the log of a ballot does not go back. *)
Lemma logged_next hid gen L b es e d v rv e' d' v' rv' :
  0 <= b -> logged ss nh disks hid gen L b (es ++ [e]) ->
  slot_write ss hid d v rv e -> e' ∈ es -> slot_write ss hid d' v' rv' e' ->
  vote_le v' v.
Proof.
  intros Hb Hlog Hs He' Hs'. apply logged_votes in Hlog as [H|(w1 & r1 & w2 & val & E & Hp & Hr & H1 & H2)].
  - rw (H e' d' v' rv'); [apply elem_of_app; by left|done|].
    rw (H e d v rv); [apply elem_of_app; right; by apply list_elem_of_singleton|done|].
    apply vote_le_refl.
  - assert (Hv : v = vote2 L b val).
    { destruct w2 as [|y w2 _] using rev_ind.
      - exfalso. destruct r1 as [|y r1 _] using rev_ind; [by apply phase1_done_reads in Hp|].
        rw app_nil_r app_assoc in E. apply app_inj_tail in E as [_ ->].
        apply Forall_app in Hr as [_ Hr]. inversion Hr; subst. by eapply read_not_write.
      - rw !app_assoc in E. apply app_inj_tail in E as [_ ->].
        apply (H2 y d v rv); [|done]. apply elem_of_app; right. by apply list_elem_of_singleton. }
    rw Hv. assert (Hin : e' ∈ w1 ++ r1 ++ w2) by (rw -E; apply elem_of_app; by left).
    rw app_assoc in Hin. apply elem_of_app in Hin as [Hin|Hin].
    + rw (H1 e' d' v' rv' Hin Hs'). unfold vote_le. simpl. lia.
    + rw (H2 e' d' v' rv' Hin Hs'). apply vote_le_refl.
Qed.

Lemma logged_numbers hid gen L b es e d v rv :
  logged ss nh disks hid gen L b es -> e ∈ es -> slot_write ss hid d v rv e ->
  v.(pd_lver) = L /\ v.(pd_mbal) = b /\ (v.(pd_bal) = 0 \/ v.(pd_bal) = b).
Proof.
  intros Hlog He Hs. apply logged_votes in Hlog as [H|(w1 & r1 & w2 & val & -> & Hp & Hr & H1 & H2)].
  - rw (H e d v rv He Hs) /=. auto.
  - rw app_assoc in He. apply elem_of_app in He as [He|He].
    + rw (H1 e d v rv He Hs) /=. auto.
    + rw (H2 e d v rv He Hs) /=. auto.
Qed.

(** *** Steps that leave the devices alone *)

(** [B'] is [B] with at least its writes. *)
Definition extends (B B' : ballot) : Prop :=
  B.(bl_lver) = B'.(bl_lver) /\ B.(bl_mbal) = B'.(bl_mbal) /\
  forall d q v τ, voted B d q v τ -> voted B' d q v τ.

Lemma extends_refl B : extends B B.
Proof. done. Qed.

Lemma extends_log B B' :
  B.(bl_lver) = B'.(bl_lver) -> B.(bl_mbal) = B'.(bl_mbal) ->
  (forall x, x ∈ B.(bl_log) -> x ∈ B'.(bl_log)) -> extends B B'.
Proof.
  intros H1 H2 H3. do 2 (split; [done|]). intros d q v τ (x & rv & Hx & Ht & Hs).
  exists x, rv. auto.
Qed.

Lemma sorted_last l B B' :
  B.(bl_lver) = B'.(bl_lver) -> B.(bl_mbal) = B'.(bl_mbal) ->
  StronglySorted key_lt (l ++ [B]) -> StronglySorted key_lt (l ++ [B']).
Proof.
  intros E1 E2 (H1 & H2 & _)%StronglySorted_app. apply StronglySorted_app_2; [|done|by repeat constructor].
  intros x1 x2 Hx ->%list_elem_of_singleton. unfold key_lt. rw -E1 -E2.
  apply H1; [done|by apply list_elem_of_singleton].
Qed.

(** A host moved on and its ballots kept their writes. *)
Lemma inv_set_host g h x :
  inv g -> 1 <= h <= nh ->
  Forall (ballot_ok g.(s_hist) h) x.(h_past) ->
  (forall r, x.(h_cur) = Some r -> running_ok g.(s_hist) h r) ->
  StronglySorted key_lt (ballots x) ->
  (forall B, B ∈ ballots (g.(s_hosts) h) -> exists B', B' ∈ ballots x /\ extends B B') ->
  inv (System g.(s_hist) (set_host h x g.(s_hosts))).
Proof.
  intros [I1 I2 I3 I4 I5 I6] Hh Hpast Hcur Hsort Hext. split; simpl; try done.
  - intros h' Hh'. unfold set_host. destruct (Z.eqb_spec h' h) as [-> |]; [done|by apply I2].
  - intros h' r Hh'. unfold set_host. destruct (Z.eqb_spec h' h) as [-> |]; [by apply Hcur|by apply I3].
  - intros h' Hh'. unfold set_host. destruct (Z.eqb_spec h' h) as [-> |]; [done|by apply I4].
  - intros τ d q Hd Hq. destruct (I5 τ d q Hd Hq) as [?|(B & HB & Hv)]; [by left|right].
    unfold set_host. destruct (Z.eqb_spec (q + 1) h) as [E|]; [|by exists B].
    rw E in HB. destruct (Hext B HB) as (B' & HB' & _ & _ & He). exists B'. auto.
Qed.

Lemma ballots_cur g h r : (g.(s_hosts) h).(h_cur) = Some r ->
  ballots (g.(s_hosts) h) = (g.(s_hosts) h).(h_past) ++ [as_ballot r].
Proof. intros E. unfold ballots. by rw E. Qed.

(** The running ballot moved on. *)
Lemma inv_set_cur g h r r' :
  inv g -> 1 <= h <= nh -> (g.(s_hosts) h).(h_cur) = Some r ->
  running_ok g.(s_hist) h r' -> extends (as_ballot r) (as_ballot r') ->
  inv (set_cur g h r').
Proof.
  intros Hi Hh Hcur Hr' Hext. pose proof (ballots_cur g h r Hcur) as Eb.
  pose proof (in_keys _ Hi h Hh) as Hs. rw Eb in Hs. destruct Hext as (E1 & E2 & Hv).
  apply inv_set_host; [done..|by apply Hi| | |].
  - intros r0 [= <-]. done.
  - unfold ballots. simpl. by eapply sorted_last.
  - rw Eb. unfold ballots. simpl. intros B [HB|HB]%elem_of_app.
    + exists B. split; [apply elem_of_app; by left|apply extends_refl].
    + apply list_elem_of_singleton in HB as ->. exists (as_ballot r').
      split; [apply elem_of_app; right; by apply list_elem_of_singleton|done].
Qed.

(** The running ballot ended. *)
Lemma inv_set_past g h r B :
  inv g -> 1 <= h <= nh -> (g.(s_hosts) h).(h_cur) = Some r ->
  ballot_ok g.(s_hist) h B -> extends (as_ballot r) B ->
  inv (set_past g h B).
Proof.
  intros Hi Hh Hcur HB Hext. pose proof (ballots_cur g h r Hcur) as Eb.
  pose proof (in_keys _ Hi h Hh) as Hs. rw Eb in Hs. destruct Hext as (E1 & E2 & Hv).
  apply inv_set_host; [done..| | | |]; simpl.
  - apply Forall_app; split; [by apply Hi|by apply Forall_singleton].
  - done.
  - unfold ballots. simpl. rw app_nil_r. by eapply sorted_last.
  - rw Eb. unfold ballots. simpl. rw app_nil_r. intros B0 [HB0|HB0]%elem_of_app.
    + exists B0. split; [apply elem_of_app; by left|apply extends_refl].
    + apply list_elem_of_singleton in HB0 as ->. exists B.
      split; [apply elem_of_app; right; by apply list_elem_of_singleton|done].
Qed.

Lemma full_log_none r : r.(rn_landed) = None -> full_log r = r.(rn_log).
Proof. intros E. unfold full_log. by rw E app_nil_r. Qed.

Lemma full_log_idle r : pend r.(rn_prog) = None -> full_log r = r.(rn_log).
Proof. intros E. unfold full_log. rw E. destruct (rn_landed r); by rw app_nil_r. Qed.

Lemma running_done_ok H h r out :
  running_ok H h r ->
  (forall pd, out = Some (SANLK_OK, pd) ->
    exists v, committed_log ss nh disks h r.(rn_token).(t_host_generation) r.(rn_lver) r.(rn_mbal)
                (events r.(rn_log)) v /\ vote_of pd = vote2 r.(rn_lver) r.(rn_mbal) v) ->
  ballot_ok H h (finish r out).
Proof.
  intros [Hn Hl Ha _ _ _] Ho. split; simpl; [done|done|by eapply always_now|done].
Qed.

Lemma now_lt g : inv g -> (now g < length g.(s_hist))%nat.
Proof. intros [H _ _ _ _ _]. unfold now. destruct (s_hist g); [done|simpl; lia]. Qed.

(** The result of an i/o. *)
Lemma resume_ok g h r X (c : cmd X) k x :
  inv g -> running_ok g.(s_hist) h r -> r.(rn_prog) = Io c k -> resp_ok c x ->
  (ev c x = [] \/ exists e, ev c x = [e] /\ entry_ok g.(s_hist) (Tev r.(rn_since) (now g) e)) ->
  running_ok g.(s_hist) h (resume r (k x) (now g) (ev c x)).
Proof.
  intros Hi [Hn [Hl Hs] Ha Hsince Hnow _] Hp Hx He. pose proof (now_lt g Hi).
  assert (Hall : Forall (entry_ok g.(s_hist)) (Tev r.(rn_since) (now g) <$> ev c x)).
  { destruct He as [-> |(e & -> & He)]; [done|]. by apply Forall_singleton. }
  rw Hp in Ha. destruct Ha as [_ Ha]. split; simpl.
  - done.
  - split; [by apply Forall_app|]. apply StronglySorted_app_2; [|done|].
    + intros y z Hy (e & -> & _)%list_elem_of_fmap. unfold before. simpl.
      by apply (proj1 (list.Forall_forall _ _) Hsince).
    + destruct He as [-> |(e & -> & He)]; by repeat constructor.
  - rw fmap_app. replace (events (Tev (rn_since r) (now g) <$> ev c x)) with (ev c x).
    + by apply Ha.
    + rw -list_fmap_compose. symmetry. apply list_fmap_id.
  - apply Forall_app. split.
    + eapply Forall_impl; [|exact Hsince]. simpl. intros y Hy. unfold now. lia.
    + apply Forall_fmap, Forall_true. intros e. simpl. lia.
  - done.
  - done.
Qed.

(** *** The write that takes effect *)

(** The program's write is to its own slot, and follows its log. *)
Lemma pending_write H h r fd off len ioto m k :
  running_ok H h r -> r.(rn_prog) = Io (CWriteIobuf fd off len ioto m) k ->
  exists d v, d ∈ disks /\ slot_write ss h d v (-1) (EvWrite fd off len m (-1)) /\
    logged ss nh disks h r.(rn_token).(t_host_generation) r.(rn_lver) r.(rn_mbal)
      (events r.(rn_log) ++ [EvWrite fd off len m (-1)]).
Proof.
  intros Hr Hp. pose proof (ro_always _ _ _ Hr) as Ha. rw Hp in Ha. destruct Ha as [_ Ha].
  specialize (Ha (-1) ltac:(simpl; lia)). apply always_now in Ha. simpl in Ha.
  pose proof Ha as [o Ho]. set (e := EvWrite fd off len m (-1)) in *.
  assert (He : exists V, own_write ss h disks V e).
  { assert (Hin : e ∈ events (rn_log r) ++ [e])
      by (apply elem_of_app; right; by apply list_elem_of_singleton).
    assert (Hread : forall l, area_read disks l e -> False)
      by (intros l (? & ? & ? & _ & _ & _ & E); discriminate).
    inversion Ho as [w1 r1 H1 H2 E|w1 r1 w2 r2 val H1 H2 Hp1 H3 H4 E]; rw -E in Hin.
    - apply elem_of_app in Hin as [Hin|Hin].
      + exists (vote1 (rn_lver r) (rn_mbal r)). by apply (proj1 (list.Forall_forall _ _) H1).
      + destruct (Hread _ (proj1 (list.Forall_forall _ _) H2 _ Hin)).
    - rw !elem_of_app in Hin. destruct Hin as [Hin|[Hin|[Hin|Hin]]].
      + exists (vote1 (rn_lver r) (rn_mbal r)). by apply (proj1 (list.Forall_forall _ _) H1).
      + destruct (Hread _ (proj1 (list.Forall_forall _ _) H2 _ Hin)).
      + exists (vote2 (rn_lver r) (rn_mbal r) val). by apply (proj1 (list.Forall_forall _ _) H3).
      + destruct (Hread _ (proj1 (list.Forall_forall _ _) H4 _ Hin)). }
  destruct He as (V & d & rv & Hd & _ & Hs). pose proof Hs as (m' & E & _). injection E as _ _ _ _ <-.
  by exists d, V.
Qed.

(** What it does to the slots. *)
Lemma slot_view_write D h d0 v rv fd off len m d q :
  d0 ∈ disks -> d ∈ disks -> 1 <= h <= nh -> 0 <= q < nh ->
  slot_write ss h d0 v rv (EvWrite fd off len m rv) ->
  slot_view ss (dev_write D fd off len m d.(sd_fd)) d.(sd_offset) q =
    if bool_decide (d = d0 /\ q = h - 1) then v else slot_view ss (D d.(sd_fd)) d.(sd_offset) q.
Proof.
  intros Hd0 Hd Hh Hq (m' & [= -> -> -> <-] & _ & Hv). unfold dev_write.
  assert (Hss : 512 <= ss) by (destruct Hgeo as [[-> | ->] _ _ _]; lia).
  destruct (Z.eqb_spec d.(sd_fd) d0.(sd_fd)) as [E|E].
  - apply disk_eq in E as ->; [|done..]. unfold slot_view. case_bool_decide as Hc.
    + destruct Hc as [_ ->]. rw mem_read_write; [lia|change (Z.of_nat sizeof_paxos_dblock) with 56; lia|].
      by rw Z.sub_diag.
    + assert (Hne : q <> h - 1) by (intros ->; by apply Hc).
      rw mem_read_write_disjoint; [|done]. change (Z.of_nat sizeof_paxos_dblock) with 56. nia.
  - case_bool_decide as Hc; [|done]. by destruct Hc as [-> _].
Qed.

Lemma blk_app_old H D τ d q : (τ < length H)%nat -> blk (H ++ [D]) τ d q = blk H τ d q.
Proof. intros. unfold blk. by rw dev_at_app. Qed.

Lemma blk_app_new H D τ d q :
  (length H <= τ)%nat -> blk (H ++ [D]) τ d q = slot_view ss (D d.(sd_fd)) d.(sd_offset) q.
Proof. intros. unfold blk. by rw dev_at_last. Qed.

(** No ballot of the host, this one included, has a vote that comes after the
    one being written. *)
Lemma landing_order g h r d v e τ d' :
  inv g -> 1 <= h <= nh -> (g.(s_hosts) h).(h_cur) = Some r -> r.(rn_landed) = None ->
  slot_write ss h d v (-1) e ->
  logged ss nh disks h r.(rn_token).(t_host_generation) r.(rn_lver) r.(rn_mbal)
    (events r.(rn_log) ++ [e]) ->
  d' ∈ disks -> vote_le (blk g.(s_hist) τ d' (h - 1)) v.
Proof.
  intros Hi Hh Hcur Hnl Hs Hlog Hd'. pose proof (in_cur _ Hi h r Hh Hcur) as Hr.
  destruct (ro_numbers _ _ _ Hr) as (HL & Hb & _).
  destruct (logged_numbers _ _ _ _ _ e d v (-1) Hlog
    ltac:(apply elem_of_app; right; by apply list_elem_of_singleton) Hs) as (Ev1 & Ev2 & _).
  destruct (in_content _ Hi τ d' (h - 1) Hd' ltac:(lia)) as [Hold|(B & HB & x & rv & Hx & _ & Hsx)].
  { left. lia. }
  replace (h - 1 + 1) with h in * by lia. rw (ballots_cur g h r Hcur) in HB.
  apply elem_of_app in HB as [HB|HB].
  - pose proof (proj1 (list.Forall_forall _ _) (in_past _ Hi h Hh) B HB) as HBok.
    pose proof (in_keys _ Hi h Hh) as Hk. rw (ballots_cur g h r Hcur) in Hk.
    pose proof (StronglySorted_app_1_elem_of _ _ _ B (as_ballot r) Hk HB
      ltac:(by apply list_elem_of_singleton)) as Hlt.
    destruct (logged_numbers _ _ _ _ _ x.(te_ev) d' _ rv (bo_logged _ _ _ HBok)
      ltac:(by apply list_elem_of_fmap_2) Hsx) as (E1 & E2 & _).
    unfold key_lt, ballot_lt in Hlt. simpl in Hlt. unfold vote_le. lia.
  - apply list_elem_of_singleton in HB as ->. simpl in Hx. rw full_log_none in Hx; [done|].
    eapply (logged_next h _ _ _ _ e d v (-1) x.(te_ev)); [|exact Hlog|done| |exact Hsx]; [lia|].
    by apply list_elem_of_fmap_2.
Qed.

Lemma extends_land r T : r.(rn_landed) = None -> extends (as_ballot r) (as_ballot (land r T)).
Proof.
  intros Hn. apply extends_log; [done..|]. simpl. rw full_log_none //. intros x Hx.
  apply elem_of_app. by left.
Qed.

Section landing.
Context (g : system) (h : Z) (r : running) (fd off len ioto : Z) (m : mem)
  (k : Z -> prog (Z * paxos_dblock * token)).
Context (Hi : inv g) (Hh : 1 <= h <= nh) (Hcur : (g.(s_hosts) h).(h_cur) = Some r).
Context (Hp : r.(rn_prog) = Io (CWriteIobuf fd off len ioto m) k) (Hnl : r.(rn_landed) = None).

Abbreviation hist := (g.(s_hist)).
Definition new_dev : devs := dev_write (dev_at hist (now g)) fd off len m.
Definition landed_hosts : Z -> host :=
  set_host h (Host (g.(s_hosts) h).(h_past) (Some (land r (length hist)))) g.(s_hosts).

(** The votes after the write took effect. *)
Lemma blk_land d0 v τ d q :
  d0 ∈ disks -> d ∈ disks -> 0 <= q < nh ->
  slot_write ss h d0 v (-1) (EvWrite fd off len m (-1)) ->
  blk (hist ++ [new_dev]) τ d q =
    if (τ <? length hist)%nat then blk hist τ d q
    else if bool_decide (d = d0 /\ q = h - 1) then v else blk hist (now g) d q.
Proof.
  intros Hd0 Hd Hq Hs. destruct (Nat.ltb_spec τ (length hist)).
  - by apply blk_app_old.
  - rw blk_app_new //. by eapply slot_view_write.
Qed.

Lemma land_running : running_ok (hist ++ [new_dev]) h (land r (length hist)).
Proof.
  pose proof (in_cur _ Hi h r Hh Hcur) as Hr. pose proof (ro_now _ _ _ Hr) as Hlt.
  apply (running_ok_app _ new_dev) in Hr. destruct Hr as [R1 R2 R3 R4 R5 _]. split; try done.
  intros τ [= <-]. rw length_app. split; [simpl; lia|].
  exists fd, off, len, m. split; [simpl; by rw Hp|]. intros i Hi'. rw dev_at_last; [lia|].
  unfold new_dev, dev_write, mem_write. rw Z.eqb_refl.
  destruct (Z.leb_spec off (off + i)), (Z.ltb_spec (off + i) (off + len)); try lia.
  simpl. f_equal. lia.
Qed.

(** Whoever voted still has. *)
Lemma land_keeps_votes τ τ' d q :
  d ∈ disks -> 0 <= q < nh -> (τ' <= τ)%nat -> (blk hist τ' d q).(pd_lver) <= L0 \/
  exists B, B ∈ ballots (landed_hosts (q + 1)) /\ voted B d q (blk hist τ' d q) τ.
Proof.
  intros Hd Hq Hτ'. destruct (in_content _ Hi τ' d q Hd Hq) as [?|(B & HB & Hv)]; [by left|right].
  assert (Hv' : voted B d q (blk hist τ' d q) τ).
  { destruct Hv as (x & rv & ? & ? & ?). exists x, rv. split; [done|]. split; [lia|done]. }
  unfold landed_hosts, set_host. destruct (Z.eqb_spec (q + 1) h) as [E|]; [|by exists B].
  rw E (ballots_cur g h r Hcur) in HB. unfold ballots. simpl. apply elem_of_app in HB as [HB|HB].
  - exists B. split; [apply elem_of_app; by left|done].
  - apply list_elem_of_singleton in HB as ->. exists (as_ballot (land r (length hist))).
    split; [apply elem_of_app; right; by apply list_elem_of_singleton|]. by apply (extends_land r _ Hnl).
Qed.

Lemma land_new_vote d0 v τ :
  slot_write ss h d0 v (-1) (EvWrite fd off len m (-1)) -> (length hist <= τ)%nat ->
  exists B, B ∈ ballots (landed_hosts h) /\ voted B d0 (h - 1) v τ.
Proof.
  intros Hs Hτ. pose proof (ro_now _ _ _ (in_cur _ Hi h r Hh Hcur)) as Hlt.
  exists (as_ballot (land r (length hist))). unfold landed_hosts, set_host. rw Z.eqb_refl.
  unfold ballots. simpl. split; [apply elem_of_app; right; by apply list_elem_of_singleton|].
  exists (Tev r.(rn_since) (length hist) (EvWrite fd off len m (-1))), (-1).
  replace (h - 1 + 1) with h by lia. split; [|split; [simpl; lia|done]].
  apply elem_of_app. right. simpl. rw Hp. simpl. by apply list_elem_of_singleton.
Qed.

Lemma inv_land : inv (System (hist ++ [new_dev]) landed_hosts).
Proof.
  pose proof (in_cur _ Hi h r Hh Hcur) as Hr.
  destruct (pending_write _ h r fd off len ioto m k Hr Hp) as (d0 & v & Hd0 & Hs & Hlog).
  pose proof Hi as [I1 I2 I3 I4 I5 I6]. split; simpl.
  - by destruct (s_hist g).
  - intros h' Hh'. unfold landed_hosts, set_host. eapply Forall_impl; [intros B; apply ballot_ok_app|].
    destruct (Z.eqb_spec h' h) as [-> |]; by apply I2.
  - intros h' r' Hh'. unfold landed_hosts, set_host. destruct (Z.eqb_spec h' h) as [-> |].
    + intros [= <-]. apply land_running.
    + intros Hr'. by apply running_ok_app, I3.
  - intros h' Hh'. unfold landed_hosts, set_host. destruct (Z.eqb_spec h' h) as [-> |]; [|by apply I4].
    specialize (I4 h Hh). rw (ballots_cur g h r Hcur) in I4. unfold ballots. simpl.
    by apply (sorted_last _ (as_ballot r)).
  - intros τ d q Hd Hq. rw (blk_land d0 v) //.
    destruct (Nat.ltb_spec τ (length hist)); [by apply land_keeps_votes|].
    case_bool_decide as Hc; [|apply land_keeps_votes; [done..|unfold now; lia]].
    destruct Hc as [-> ->]. right. replace (h - 1 + 1) with h by lia. by apply land_new_vote.
  - intros τ τ' d q Hd Hq Hle. rw !(blk_land d0 v) //.
    destruct (Nat.ltb_spec τ' (length hist)), (Nat.ltb_spec τ (length hist)); try lia.
    + by apply I6.
    + case_bool_decide as Hc; [|apply I6; [done..|unfold now; lia]].
      destruct Hc as [-> ->]. by eapply (landing_order g h r d0 v).
    + apply vote_le_refl.
Qed.
End landing.

(** *** Every step *)

Lemma inv_init dev0 : old_slots dev0 -> inv (init dev0).
Proof.
  intros H. split; simpl; try done.
  - intros h _. constructor.
  - intros τ d q Hd Hq. left. unfold blk. destruct τ; by apply H.
  - intros τ τ' d q _ _ _. unfold blk, dev_at. simpl. rw !Nat.min_0_r. apply vote_le_refl.
Qed.

Lemma inv_start g h t L b pd0 :
  inv g -> 1 <= h <= nh -> (g.(s_hosts) h).(h_cur) = None ->
  token_for ss disks h t -> numbers_ok h L b ->
  Forall (fun B => ballot_lt B.(bl_lver) B.(bl_mbal) L b) (g.(s_hosts) h).(h_past) ->
  inv (set_cur g h (Running t L b (run_ballot t nh L b pd0) (now g) None [])).
Proof.
  intros Hi Hh Hcur Ht Hn Hall.
  assert (Eb : ballots (g.(s_hosts) h) = (g.(s_hosts) h).(h_past))
    by (unfold ballots; by rw Hcur app_nil_r).
  apply inv_set_host; [done..|by apply Hi| | |]; simpl.
  - intros r [= <-]. destruct Hn as (HL & Hb & Hm). split; simpl; try done.
    + split; [done|constructor].
    + apply ballot_always; [done..|lia|lia|done|done].
    + by apply now_lt.
  - unfold ballots. simpl. apply StronglySorted_app_2; [|rw -Eb; by apply Hi|by repeat constructor].
    intros B B' HB ->%list_elem_of_singleton. unfold key_lt. simpl.
    by apply (proj1 (list.Forall_forall _ _) Hall).
  - rw Eb. intros B HB. exists B. split; [apply elem_of_app; by left|apply extends_refl].
Qed.

(** An i/o that ended keeps the votes. *)
Lemma extends_resume r p T es :
  pend r.(rn_prog) = None \/ r.(rn_landed) = None ->
  extends (as_ballot r) (as_ballot (resume r p T es)).
Proof.
  intros Hn. apply extends_log; [done..|]. simpl. intros x.
  assert (full_log r = r.(rn_log)) as ->
    by (destruct Hn; [by apply full_log_idle|by apply full_log_none]).
  intros Hx. rw full_log_none //. apply elem_of_app. by left.
Qed.

Lemma extends_written r fd off len ioto m k p T rv :
  r.(rn_prog) = Io (CWriteIobuf fd off len ioto m) k ->
  extends (as_ballot r) (as_ballot (resume r p T [EvWrite fd off len m rv])).
Proof.
  intros Hp. do 2 (split; [done|]). intros d q v τ (x & rv0 & Hx & Ht & Hs).
  simpl in Hx. unfold full_log in Hx. rw Hp in Hx. simpl in Hx.
  apply elem_of_app in Hx as [Hx|Hx].
  - exists x, rv0. split; [|done]. simpl. rw full_log_none //. apply elem_of_app. by left.
  - destruct r.(rn_landed) as [τ0|]; [|by apply not_elem_of_nil in Hx].
    apply list_elem_of_singleton in Hx as ->.
    exists (Tev r.(rn_since) T (EvWrite fd off len m rv)), rv. split; [|split; [done|]].
    + simpl. rw full_log_none //. apply elem_of_app. right. by apply list_elem_of_singleton.
    + destruct Hs as (m' & [= -> -> -> <- _] & Hm & Hv). by exists m.
Qed.

Lemma inv_step g g' : inv g -> step g g' -> inv g'.
Proof.
  intros Hi Hs. pose proof (now_lt g Hi) as Hnow.
  destruct Hs as [g h t L b pd0 Hh Hcur Ht HL Hb Hm Hall
    |g h r fd off len ioto m k Hh Hcur Hp Hnl
    |g h r fd off len ioto m k τ rv Hh Hcur Hp Hl Hrv
    |g h r fd off len ioto m k rv Hh Hcur Hp Hl Hrv
    |g h r fd off len ioto k rv m Hh Hcur Hp Hrv Hm Hr
    |g h r X c k x Hh Hcur Hp Hev Hx
    |g h r rv pd t' Hh Hcur Hp
    |g h r Hh Hcur Hl];
    try (pose proof (in_cur _ Hi h r Hh Hcur) as Hrun; pose proof (ro_now _ _ _ Hrun) as Hlt).
  - by apply inv_start.
  - by eapply inv_land.
  - eapply inv_set_cur; [done..| |by eapply extends_written].
    apply (resume_ok g h r _ (CWriteIobuf fd off len ioto m) k rv Hi Hrun Hp Hrv).
    right. eexists; split; [done|].
    destruct (ro_landed _ _ _ Hrun τ Hl) as [Hτ (fd' & off' & len' & m' & Hpend & Hd)].
    rw Hp in Hpend. injection Hpend as <- <- <- <-.
    split; simpl; [unfold now in *; lia|]. intros _. exists τ. split; [unfold now; lia|done].
  - eapply inv_set_cur; [done..| |apply extends_resume; by right].
    apply (resume_ok g h r _ (CWriteIobuf fd off len ioto m) k rv Hi Hrun Hp ltac:(simpl; lia)).
    right. eexists; split; [done|]. split; simpl; [unfold now in *; lia|]. lia.
  - eapply inv_set_cur; [done..| |apply extends_resume; left; by rw Hp].
    apply (resume_ok g h r _ (CReadIobuf fd off len ioto) k (rv, m) Hi Hrun Hp ltac:(by split)).
    right. eexists; split; [done|]. split; simpl; [unfold now in *; lia|done].
  - eapply inv_set_cur; [done..| |apply extends_resume; left; rw Hp; simpl].
    + rw -(Hev x). by apply resume_ok; [..|left].
    + destruct c; try done. by specialize (Hev 0).
  - eapply inv_set_past; [done..| |].
    + apply running_done_ok; [done|]. intros pd' [= -> ->].
      pose proof (ro_always _ _ _ Hrun) as Ha. rw Hp in Ha. destruct Ha as [_ Ha]. simpl in Ha.
      destruct Ha as [[(_ & (v & Hc & Hv & _) & _)|[[[?|?] _]|[[?|?] _]]]|[[?|?] _]]; [by exists v|done..].
    + apply extends_log; [done..|]. simpl. rw full_log_idle //. by rw Hp.
  - eapply inv_set_past; [done..|by apply running_done_ok|].
    apply extends_log; [done..|]. simpl. by rw full_log_none.
Qed.

Lemma reachable_inv dev0 g : old_slots dev0 -> reachable dev0 g -> inv g.
Proof.
  intros H0 Hr. assert (Hi : inv (init dev0)) by by apply inv_init.
  revert Hi. unfold reachable in Hr. induction Hr as [|x y z Hxy _ IH]; [done|].
  intros Hi. apply IH. by eapply inv_step.
Qed.

(** ** From logs to quorums *)

Lemma full_log_ok H h r : running_ok H h r -> log_ok H (full_log r) /\
  logged ss nh disks h r.(rn_token).(t_host_generation) r.(rn_lver) r.(rn_mbal) (events (full_log r)).
Proof.
  intros Hr. pose proof Hr as [_ [Hl Hs] Ha Hsince Hnow Hland]. unfold full_log.
  destruct (rn_landed r) as [τ|]; [|rw app_nil_r; split; [done|by eapply always_now]].
  destruct (Hland τ eq_refl) as [Hτ (fd & off & len & m & Hp & _)]. rw Hp.
  split; [split|].
  - apply Forall_app; split; [done|]. apply Forall_singleton. split; simpl; [lia|done].
  - apply StronglySorted_app_2; [|done|by repeat constructor].
    intros x y Hx ->%list_elem_of_singleton. by apply (proj1 (list.Forall_forall _ _) Hsince).
  - rw fmap_app /=. destruct (rn_prog r) as [| |X c k] eqn:E; try done.
    destruct c; try done. injection Hp as -> -> -> ->.
    by destruct (pending_write H h r _ _ _ _ _ _ Hr E) as (? & ? & _ & _ & Hlog).
Qed.

Lemma ballots_ok g h B :
  inv g -> 1 <= h <= nh -> B ∈ ballots (g.(s_hosts) h) ->
  numbers_ok h B.(bl_lver) B.(bl_mbal) /\ log_ok g.(s_hist) B.(bl_log) /\
  logged ss nh disks h B.(bl_gen) B.(bl_lver) B.(bl_mbal) (events B.(bl_log)).
Proof.
  intros Hi Hh [HB|HB]%elem_of_app.
  - by destruct (proj1 (list.Forall_forall _ _) (in_past _ Hi h Hh) B HB).
  - destruct (h_cur (s_hosts g h)) as [r|] eqn:E; [|by apply not_elem_of_nil in HB].
    apply list_elem_of_singleton in HB as ->. pose proof (in_cur _ Hi h r Hh E) as Hr.
    destruct (full_log_ok _ _ _ Hr). split; [apply Hr|done].
Qed.

Lemma ballots_key g h B B' :
  inv g -> 1 <= h <= nh -> B ∈ ballots (g.(s_hosts) h) -> B' ∈ ballots (g.(s_hosts) h) ->
  B.(bl_lver) = B'.(bl_lver) -> B.(bl_mbal) = B'.(bl_mbal) -> B = B'.
Proof.
  intros Hi Hh HB HB' E1 E2. pose proof (in_keys _ Hi h Hh) as Hs. revert HB HB' Hs.
  generalize (ballots (s_hosts g h)) as l. clear -E1 E2. intros l.
  induction l as [|x l IH]; intros HB HB' Hs; [by apply not_elem_of_nil in HB|].
  apply StronglySorted_inv in Hs as [Hs Hx].
  apply elem_of_cons in HB as [-> |HB], HB' as [-> |HB']; [done| | |by apply IH].
  - apply (proj1 (list.Forall_forall _ _) Hx) in HB'. unfold key_lt, ballot_lt in HB'. lia.
  - apply (proj1 (list.Forall_forall _ _) Hx) in HB. unfold key_lt, ballot_lt in HB. lia.
Qed.

(** A ballot number belongs to one host. *)
Lemma same_host h h' L L' b : numbers_ok h L b -> numbers_ok h' L' b ->
  1 <= h <= nh -> 1 <= h' <= nh -> h = h'.
Proof.
  intros (_ & _ & H1) (_ & _ & H2) Hh Hh'. rw H1 in H2.
  destruct (decide (h = mh)) as [-> |], (decide (h' = mh)) as [-> |]; [done|..].
  - rw Z.mod_same in H2; [lia|]. rw Z.mod_small in H2; lia.
  - rw Z.mod_same in H2; [lia|]. rw Z.mod_small in H2; lia.
  - rw !Z.mod_small in H2; lia.
Qed.

(** An effective write was seen on the disk. *)
Lemma wrote_blk H h l v d :
  1 <= h -> Forall (entry_ok H) l -> wrote_on ss h v (events l) d ->
  exists x τ, x ∈ l /\ (x.(te_s) <= τ <= x.(te_e))%nat /\ blk H τ d (h - 1) = v.
Proof.
  intros Hh Hl (e & He & Hs)%list.Exists_exists. apply list_elem_of_fmap in He as (x & -> & Hx).
  destruct (proj1 (list.Forall_forall _ _) Hl x Hx) as [Ht Hw]. destruct Hs as (m & E & _ & <-).
  rw E in Hw. destruct (Hw eq_refl) as (τ & Hτ & Hd). exists x, τ. do 2 (split; [done|]).
  unfold blk, slot_view. f_equal. apply mem_read_ext. intros i Hi. rw Hd //.
  assert (512 <= ss) by (destruct Hgeo as [[-> | ->] _ _ _]; lia).
  change (Z.of_nat sizeof_paxos_dblock) with 56 in Hi. lia.
Qed.

(** A read shows, for every host, a vote that was on the disk meanwhile. *)
Lemma read_blk H l fd off m :
  (exists x, x ∈ l /\ x.(te_ev) = EvRead fd off (area_len nh ss) 0 m) -> Forall (entry_ok H) l ->
  exists x, x ∈ l /\ forall d q, d.(sd_fd) = fd -> d.(sd_offset) = off -> 0 <= q < nh ->
    exists τ, (x.(te_s) <= τ <= x.(te_e))%nat /\ slot_view ss m 0 q = blk H τ d q.
Proof.
  intros (x & Hx & E) Hl. exists x. split; [done|]. intros d q <- <- Hq.
  destruct (proj1 (list.Forall_forall _ _) Hl x Hx) as [Ht Hr]. rw E in Hr.
  assert (Hss : 512 <= ss) by (destruct Hgeo as [[-> | ->] _ _ _]; lia).
  pose proof (area_len_bounds ss nh disks Hgeo) as [Hlen _].
  destruct (Hr eq_refl (2 + q) ltac:(lia) ltac:(nia)) as (τ & Hτ & Hd). exists τ. split; [done|].
  unfold blk, slot_view. f_equal. apply mem_read_ext. intros i Hi. rw Z.add_0_l. apply Hd.
  change (Z.of_nat sizeof_paxos_dblock) with 56 in Hi. lia.
Qed.

Lemma pivot l1 l2 :
  StronglySorted before (l1 ++ l2) ->
  exists T, (forall x, x ∈ l1 -> (x.(te_e) <= T)%nat) /\ (forall y, y ∈ l2 -> (T <= y.(te_s))%nat).
Proof.
  induction l1 as [|a l1 IH]; intros Hs.
  - exists 0%nat. split; [intros x Hx; by apply not_elem_of_nil in Hx|lia].
  - apply StronglySorted_inv in Hs as [Hs Ha]. destruct (IH Hs) as (T & H1 & H2).
    exists (Nat.max a.(te_e) T). split.
    + intros x [-> |Hx]%elem_of_cons; [lia|]. specialize (H1 x Hx). lia.
    + intros y Hy. pose proof (proj1 (list.Forall_forall _ _) Ha y ltac:(apply elem_of_app; by right)) as Hb.
      unfold before in Hb. specialize (H2 y Hy). lia.
Qed.

Lemma majority_impl (P Q : sync_disk -> Prop) :
  majority disks P -> (forall d, d ∈ disks -> P d -> Q d) -> majority disks Q.
Proof.
  intros (ds & Hsub & Hn & HP) HPQ. exists ds. do 2 (split; [done|]).
  apply list.Forall_forall. intros d Hd. apply HPQ; [by eapply elem_of_sublist|].
  by apply (proj1 (list.Forall_forall _ _) HP).
Qed.

(** A read of the log, by the vote it showed. *)
Lemma seen_blk H l v :
  Forall (area_read disks (area_len nh ss)) (events l) -> Forall (entry_ok H) l ->
  seen ss nh (events l) v ->
  exists x τ d q, x ∈ l /\ (x.(te_s) <= τ <= x.(te_e))%nat /\ d ∈ disks /\ 0 <= q < nh /\ v = blk H τ d q.
Proof.
  intros Ha Hl (fd & off & n & m & q & Hin & Hq & ->).
  destruct (proj1 (list.Forall_forall _ _) Ha _ Hin) as (d & rv & m' & Hd & _ & _ & [= -> -> -> <- <-]).
  apply list_elem_of_fmap in Hin as (x0 & E & Hx0).
  destruct (read_blk H l d.(sd_fd) d.(sd_offset) m ltac:(by exists x0) Hl) as (x & Hx & Hr).
  destruct (Hr d q eq_refl eq_refl Hq) as (τ & Hτ & Ev). by exists x, τ, d, q.
Qed.

Lemma read_on_blk H l d :
  Forall (entry_ok H) l -> read_on (area_len nh ss) (events l) d ->
  exists x, x ∈ l /\ forall q, 0 <= q < nh -> exists τ, (x.(te_s) <= τ <= x.(te_e))%nat /\
    seen ss nh (events l) (blk H τ d q).
Proof.
  intros Hl (m & Hin). pose proof Hin as (x0 & E & Hx0)%list_elem_of_fmap.
  destruct (read_blk H l d.(sd_fd) d.(sd_offset) m ltac:(by exists x0) Hl) as (x & Hx & Hr).
  exists x. split; [done|]. intros q Hq. destruct (Hr d q eq_refl eq_refl Hq) as (τ & Hτ & Ev).
  exists τ. split; [done|]. rw -Ev. by exists d.(sd_fd), d.(sd_offset), (area_len nh ss), m, q.
Qed.

(** A ballot's own reads of phase 1 come before its votes of phase 2. *)
Lemma no_own_vote g h B l1 l2 l3 y τ d :
  inv g -> 1 <= h <= nh -> B ∈ ballots (g.(s_hosts) h) -> B.(bl_log) = l1 ++ l2 ++ l3 ->
  (forall e d v rv, e ∈ events l1 ++ events l2 -> slot_write ss h d v rv e ->
     v = vote1 B.(bl_lver) B.(bl_mbal)) ->
  y ∈ l2 -> (τ <= y.(te_e))%nat -> d ∈ disks ->
  (blk g.(s_hist) τ d (h - 1)).(pd_lver) = B.(bl_lver) ->
  (blk g.(s_hist) τ d (h - 1)).(pd_bal) <> B.(bl_mbal).
Proof.
  intros Hi Hh HB El H1 Hy Hτ Hd HL Hbal.
  destruct (ballots_ok g h B Hi Hh HB) as ((HnL & Hnb & _) & [_ Hs] & Hlog).
  destruct (in_content _ Hi τ d (h - 1) Hd ltac:(lia)) as [?|(B' & HB' & x & rv & Hx & Ht & Hw)]; [lia|].
  replace (h - 1 + 1) with h in * by lia.
  destruct (ballots_ok g h B' Hi Hh HB') as (_ & _ & Hlog').
  destruct (logged_numbers _ _ _ _ _ x.(te_ev) d _ rv Hlog' ltac:(by apply list_elem_of_fmap_2) Hw)
    as (E1 & E2 & E3).
  assert (B' = B) as -> by (apply (ballots_key g h); [done..|congruence|lia]).
  rw El app_assoc in Hx, Hs. apply elem_of_app in Hx as [Hx|Hx].
  - rw (H1 _ _ _ _ ltac:(rw -fmap_app; by apply list_elem_of_fmap_2) Hw) in Hbal. simpl in Hbal. lia.
  - pose proof (StronglySorted_app_1_elem_of _ _ _ y x Hs ltac:(apply elem_of_app; by right) Hx) as Hb.
    unfold before in Hb. lia.
Qed.

Lemma ballot_started g h B w1 r1 w2 val :
  inv g -> 1 <= h <= nh -> B ∈ ballots (g.(s_hosts) h) ->
  events B.(bl_log) = w1 ++ r1 ++ w2 ->
  phase1_done ss nh disks h B.(bl_gen) B.(bl_lver) B.(bl_mbal) w1 r1 val ->
  Forall (area_read disks (area_len nh ss)) r1 ->
  (forall e d v rv, e ∈ w1 ++ r1 -> slot_write ss h d v rv e -> v = vote1 B.(bl_lver) B.(bl_mbal)) ->
  started nh disks B.(bl_lver) (blk g.(s_hist)) (h - 1) B.(bl_mbal) val.
Proof.
  intros Hi Hh HB El [Hw Hr (mx & [Bc Bm Bf] & Hval)] Ha H1.
  destruct (ballots_ok g h B Hi Hh HB) as (_ & [Hf Hs] & _).
  apply fmap_app_inv in El as (l1 & l23 & -> & E & El).
  symmetry in E. apply fmap_app_inv in E as (l2 & l3 & -> & _ & ->).
  rw El in Hf, Hs. pose proof Hf as [Hf1 [Hf2 _]%Forall_app]%Forall_app.
  pose proof Hs as (Hs12 & Hs1 & Hs23)%StronglySorted_app.
  destruct (pivot l1 (l2 ++ l3) Hs) as (T & HT1 & HT2).
  exists T, (vote_of mx). split; [|split].
  - eapply majority_impl; [exact Hw|]. intros d Hd Hwd.
    destruct (wrote_blk _ h l1 _ d ltac:(lia) Hf1 Hwd) as (x & τ & Hx & Hτ & Ev).
    exists τ. split; [|done]. specialize (HT1 x Hx). lia.
  - eapply majority_impl; [exact Hr|]. intros d Hd Hrd q Hq.
    destruct (read_on_blk _ l2 d Hf2 Hrd) as (y & Hy & Hrq). destruct (Hrq q Hq) as (τ & Hτ & Hseen).
    exists τ. split; [|split; [by apply Bc|by apply Bm]].
    specialize (HT2 y ltac:(apply elem_of_app; by left)). lia.
  - destruct Bf as [-> |(_ & Hcnt & Hseen)]; [by left|]. right.
    split; [done|]. split; [by apply Bc|]. split.
    { destruct Hval as [[_ ->]|[H0 _]]; [done|]. by destruct Hcnt as (_ & ? & _). }
    destruct (seen_blk _ l2 _ Ha Hf2 Hseen) as (y & τ & d & q & Hy & Hτ & Hd & Hq & Ev).
    exists τ, d, q. do 2 (split; [done|]). split; [done|]. intros ->. rw Ev.
    eapply (no_own_vote g h B l1 l2 l3 y); [done..|lia|done|].
    rw -Ev. by destruct Hcnt as (? & _).
Qed.

(** Where a vote on the disk comes from. *)
Lemma vote_origin g τ d q :
  inv g -> d ∈ disks -> 0 <= q < nh ->
  let v := blk g.(s_hist) τ d q in
  L0 < v.(pd_lver) ->
  exists B, B ∈ ballots (g.(s_hosts) (q + 1)) /\ B.(bl_lver) = v.(pd_lver) /\ B.(bl_mbal) = v.(pd_mbal) /\
    (v.(pd_bal) = 0 \/
     v.(pd_bal) = B.(bl_mbal) /\ v.(pd_inp) <> 0 /\
     started nh disks B.(bl_lver) (blk g.(s_hist)) q B.(bl_mbal) (vote_value v) /\
     exists x rv, x ∈ B.(bl_log) /\ slot_write ss (q + 1) d v rv x.(te_ev)).
Proof.
  intros Hi Hd Hq v HvL. destruct (in_content _ Hi τ d q Hd Hq) as [?|(B & HB & x & rv & Hx & _ & Hw)].
  { unfold v in HvL. lia. }
  change (blk (s_hist g) τ d q) with v in Hw. exists B. split; [done|].
  destruct (ballots_ok g (q + 1) B Hi ltac:(lia) HB) as (_ & _ & Hlog).
  assert (Hxe : x.(te_ev) ∈ events B.(bl_log)) by by apply list_elem_of_fmap_2.
  destruct (logged_numbers _ _ _ _ _ _ d _ rv Hlog Hxe Hw) as (E1 & E2 & _).
  do 2 (split; [done|]).
  destruct (logged_votes _ _ _ _ _ Hlog) as [H|(w1 & r1 & w2 & val & E & Hp & Ha & H1 & H2)].
  { left. by rw (H _ _ _ _ Hxe Hw). }
  rw E app_assoc in Hxe. apply elem_of_app in Hxe as [Hxe|Hxe].
  { left. by rw (H1 _ _ _ _ Hxe Hw). }
  right. pose proof (ballot_started g (q + 1) B w1 r1 w2 val Hi ltac:(lia) HB E Hp Ha H1) as Hst.
  replace (q + 1 - 1) with q in Hst by lia. pose proof (H2 _ _ _ _ Hxe Hw) as Ev.
  split; [by rw Ev|]. split; [|split; [|by exists x, rv]].
  - rw Ev. simpl. destruct (p1_value _ _ _ _ _ _ _ _ _ _ Hp) as (mx & _ & [[? ->]|[_ [n ->]]]); [done|].
    simpl. lia.
  - rw Ev. by destruct val as [[? ?] ?].
Qed.

Lemma committed_of g h B val :
  inv g -> 1 <= h <= nh -> B ∈ ballots (g.(s_hosts) h) ->
  committed_log ss nh disks h B.(bl_gen) B.(bl_lver) B.(bl_mbal) (events B.(bl_log)) val ->
  committed nh disks B.(bl_lver) (blk g.(s_hist)) (h - 1) B.(bl_mbal) val.
Proof.
  intros Hi Hh HB Hc. destruct (ballots_ok g h B Hi Hh HB) as (_ & [Hf Hs] & _).
  inversion Hc as [w1 r1 w2 r2 v H1 H2 Hp H3 H4 [Hw Hr Hcl] E Ev]. subst v. clear Hc.
  rw app_assoc in E. symmetry in E. apply fmap_app_inv in E as (l1 & l2 & _ & E & El).
  symmetry in E. apply fmap_app_inv in E as (lw & lr & -> & -> & ->).
  rw El in Hf, Hs. apply Forall_app in Hf as [_ [Hfw Hfr]%Forall_app].
  apply StronglySorted_app_1_r in Hs. destruct (pivot lw lr Hs) as (T & HT1 & HT2).
  exists T. split.
  - eapply majority_impl; [exact Hw|]. intros d Hd Hwd.
    destruct (wrote_blk _ h lw _ d ltac:(lia) Hfw Hwd) as (x & τ & Hx & Hτ & Ev).
    exists τ. split; [|done]. specialize (HT1 x Hx). lia.
  - eapply majority_impl; [exact Hr|]. intros d Hd Hrd q Hq.
    destruct (read_on_blk _ lr d Hfr Hrd) as (y & Hy & Hrq). destruct (Hrq q Hq) as (τ & Hτ & Hseen).
    exists τ. split; [|by apply Hcl]. specialize (HT2 y Hy). lia.
Qed.

(** The votes of phase 2 of one ballot number are one vote. *)
Lemma vote_unique g L τ d q τ' d' q' :
  inv g -> L0 < L -> d ∈ disks -> d' ∈ disks -> 0 <= q < nh -> 0 <= q' < nh ->
  let v := blk g.(s_hist) τ d q in
  let v' := blk g.(s_hist) τ' d' q' in
  v.(pd_lver) = L -> v'.(pd_lver) = L -> v.(pd_bal) <> 0 -> v.(pd_bal) = v'.(pd_bal) ->
  q = q' /\ vote_value v = vote_value v'.
Proof.
  intros Hi HL Hd Hd' Hq Hq' v v' Ev Ev' Hb Eb.
  destruct (vote_origin g τ d q Hi Hd Hq) as (B & HB & EL & Em & [?|(Ebal & _ & _ & x & rv & Hx & Hw)]);
    [unfold v in *; lia|done|].
  destruct (vote_origin g τ' d' q' Hi Hd' Hq') as (B' & HB' & EL' & Em' & [?|(Ebal' & _ & _ & x' & rv' & Hx' & Hw')]);
    [unfold v' in *; lia|unfold v, v' in *; lia|].
  fold v in EL, Em, Ebal, Hw. fold v' in EL', Em', Ebal', Hw'.
  destruct (ballots_ok g (q + 1) B Hi ltac:(lia) HB) as (Hn & _ & Hlog).
  destruct (ballots_ok g (q' + 1) B' Hi ltac:(lia) HB') as (Hn' & _ & _).
  assert (Emb : B'.(bl_mbal) = B.(bl_mbal)) by lia. rw Emb in Hn'.
  assert (q' = q) as -> by (pose proof (same_host _ _ _ _ _ Hn Hn' ltac:(lia) ltac:(lia)); lia).
  split; [done|].
  assert (B' = B) as -> by (apply (ballots_key g (q + 1)); [done|lia|done|done|lia|lia]).
  destruct Hn as (_ & Hnb & _).
  assert (Hxe : x.(te_ev) ∈ events B.(bl_log)) by by apply list_elem_of_fmap_2.
  assert (Hxe' : x'.(te_ev) ∈ events B.(bl_log)) by by apply list_elem_of_fmap_2.
  destruct (logged_votes _ _ _ _ _ Hlog) as [H|(w1 & r1 & w2 & val & E & _ & _ & H1 & H2)].
  { exfalso. apply Hb. by rw (H _ _ _ _ Hxe Hw). }
  assert (H2' : forall y d0 v0 rv0, y ∈ events B.(bl_log) -> slot_write ss (q + 1) d0 v0 rv0 y ->
                  v0.(pd_bal) <> 0 -> v0 = vote2 B.(bl_lver) B.(bl_mbal) val).
  { intros y d0 v0 rv0 Hy Hw0 Hne. rw E app_assoc in Hy. apply elem_of_app in Hy as [Hy|Hy].
    - exfalso. apply Hne. by rw (H1 _ _ _ _ Hy Hw0).
    - by apply (H2 _ _ _ _ Hy Hw0). }
  rw (H2' _ _ _ _ Hxe Hw Hb) (H2' _ _ _ _ Hxe' Hw'); [lia|done].
Qed.

(** No ballot of [h] for this version has a larger number. *)
Definition latest (g : system) (h : Z) (B : ballot) : Prop :=
  forall B', B' ∈ ballots (g.(s_hosts) h) -> B'.(bl_lver) = B.(bl_lver) -> B'.(bl_mbal) <= B.(bl_mbal).

(** A ballot that succeeded, with the dblock it returned. *)
Definition succeeded (g : system) (h : Z) (B : ballot) (pd : paxos_dblock) : Prop :=
  B ∈ (g.(s_hosts) h).(h_past) /\ B.(bl_out) = Some (SANLK_OK, pd).

Lemma succeeded_committed g h B pd :
  inv g -> 1 <= h <= nh -> succeeded g h B pd ->
  B ∈ ballots (g.(s_hosts) h) /\
  committed nh disks B.(bl_lver) (blk g.(s_hist)) (h - 1) B.(bl_mbal) (vote_value pd) /\
  started nh disks B.(bl_lver) (blk g.(s_hist)) (h - 1) B.(bl_mbal) (vote_value pd).
Proof.
  intros Hi Hh [HB Ho]. assert (HBs : B ∈ ballots (g.(s_hosts) h)) by (apply elem_of_app; by left).
  split; [done|]. destruct (proj1 (list.Forall_forall _ _) (in_past _ Hi h Hh) B HB) as [_ _ _ Hout].
  destruct (Hout pd Ho) as (v & Hc & Hv).
  assert (vote_value pd = v) as ->.
  { destruct v as [[? ?] ?]. unfold vote_of, vote2 in Hv. simpl in Hv. unfold vote_value. by injection Hv as _ _ -> -> ->. }
  pose proof (committed_of g h B v Hi Hh HBs Hc) as Hcom.
  inversion Hc as [w1 r1 w2 r2 v' H1 H2 Hp H3 H4 _ E Ev]. subst v'.
  split; [done|]. apply (ballot_started g h B w1 r1 (w2 ++ r2)); try done.
  intros e d v0 rv [He|He]%elem_of_app Hw.
  - eapply own_write_vote; [|done]. by apply (proj1 (list.Forall_forall _ _) H1).
  - by destruct (read_not_write _ _ _ _ _ _ (proj1 (list.Forall_forall _ _) H2 e He) Hw).
Qed.

(** A ballot that succeeded fixes the value of the later ones. *)
Lemma agreement_lt g h1 B1 pd1 h2 B2 pd2 :
  inv g -> 1 <= h1 <= nh -> 1 <= h2 <= nh -> succeeded g h1 B1 pd1 -> succeeded g h2 B2 pd2 ->
  B1.(bl_lver) = B2.(bl_lver) -> latest g h1 B1 -> B1.(bl_mbal) < B2.(bl_mbal) ->
  vote_value pd2 = vote_value pd1.
Proof.
  intros Hi Hh1 Hh2 Hs1 Hs2 EL Hlat Hlt.
  destruct (succeeded_committed g h1 B1 pd1 Hi Hh1 Hs1) as (HB1 & Hc1 & _).
  destruct (succeeded_committed g h2 B2 pd2 Hi Hh2 Hs2) as (HB2 & _ & Hst2).
  destruct (ballots_ok g h1 B1 Hi Hh1 HB1) as ((HL & Hb & _) & _ & _). rw -EL in Hst2.
  refine (committed_started nh disks B1.(bl_lver) (blk g.(s_hist)) disks_nodup (in_mono _ Hi) _ _ _
    (h1 - 1) B1.(bl_mbal) _ ltac:(lia) ltac:(lia) Hc1 _ B2.(bl_mbal) (h2 - 1) _ Hlt ltac:(lia) Hst2).
  - intros τ d q Hd Hq HvL Hbal.
    destruct (vote_origin g τ d q Hi Hd Hq ltac:(lia)) as (B & _ & E1 & E2 & [?|(E3 & Hinp & Hst & _)]); [done|].
    split; [lia|]. split; [done|]. by rw E1 HvL -E3 in Hst.
  - intros τ d q τ' d' q' Hd Hd' Hq Hq' H1 H2 H3 H4.
    by apply (vote_unique g B1.(bl_lver) τ d q τ' d' q' Hi ltac:(lia)).
  - intros τ d q h b v Hd Hq Hh (T & mx & Hw & _) HvL Hbal Hb0.
    destruct (vote_origin g τ d q Hi Hd Hq ltac:(lia)) as (B & HB & E1 & E2 & [?|(E3 & _)]); [lia|].
    destruct (majority_some _ _ Hw) as (d' & Hd' & τ' & _ & Ev).
    destruct (vote_origin g τ' d' h Hi Hd' Hh) as (B' & HB' & E1' & E2' & _); [rw Ev /=; lia|].
    rw Ev /= in E2'. destruct (ballots_ok g (q + 1) B Hi ltac:(lia) HB) as (Hn & _).
    destruct (ballots_ok g (h + 1) B' Hi ltac:(lia) HB') as (Hn' & _).
    replace B'.(bl_mbal) with B.(bl_mbal) in Hn' by lia.
    pose proof (same_host _ _ _ _ _ Hn Hn' ltac:(lia) ltac:(lia)). lia.
  - intros τ d Hd HvL.
    destruct (vote_origin g τ d (h1 - 1) Hi Hd ltac:(lia) ltac:(lia)) as (B & HB & E1 & E2 & _).
    replace (h1 - 1 + 1) with h1 in HB by lia. specialize (Hlat B HB ltac:(lia)). lia.
Qed.

Lemma agreement g h1 B1 pd1 h2 B2 pd2 :
  inv g -> 1 <= h1 <= nh -> 1 <= h2 <= nh -> succeeded g h1 B1 pd1 -> succeeded g h2 B2 pd2 ->
  B1.(bl_lver) = B2.(bl_lver) -> latest g h1 B1 -> latest g h2 B2 ->
  vote_value pd1 = vote_value pd2.
Proof.
  intros Hi Hh1 Hh2 Hs1 Hs2 EL Hl1 Hl2.
  destruct (Z.lt_total B1.(bl_mbal) B2.(bl_mbal)) as [Hlt|[E|Hlt]].
  - symmetry. by eapply (agreement_lt g h1 B1 pd1 h2 B2).
  - destruct (succeeded_committed g h1 B1 pd1 Hi Hh1 Hs1) as (HB1 & _).
    destruct (succeeded_committed g h2 B2 pd2 Hi Hh2 Hs2) as (HB2 & _).
    destruct (ballots_ok g h1 B1 Hi Hh1 HB1) as (Hn1 & _).
    destruct (ballots_ok g h2 B2 Hi Hh2 HB2) as (Hn2 & _). rw -E in Hn2.
    assert (h2 = h1) as -> by (symmetry; by eapply same_host).
    assert (B2 = B1) as -> by (symmetry; by eapply (ballots_key g h1)).
    destruct Hs1 as [_ Ho1], Hs2 as [_ Ho2]. congruence.
  - by eapply (agreement_lt g h2 B2 pd2 h1 B1).
Qed.
End system.
