(* ===== verification/BallotAgreement.v ===== *)
(** * Agreement of the hosts on the owner of a lease

    The safety of Disk Paxos for hosts that run [run_ballot]
    ([src/src/paxos_lease.c]) concurrently, and a scheduler that runs hosts one
    i/o at a time, with which a concrete run of two hosts is evaluated. *)

From stdpp Require Import sorting.
From S2P Require Import Prelude OnDisk SizeFlags Io PaxosBlocks PaxosBallot BallotLog BallotQuorum BallotSystem.

(** ** A scheduler *)

(** The write host [h] is doing takes effect. *)
Definition land_cur (g : system) (h : Z) (r : running) (fd off len : Z) (m : mem) : system :=
  System (g.(s_hist) ++ [dev_write (dev_at g.(s_hist) (now g)) fd off len m])
    (set_host h (Host (g.(s_hosts) h).(h_past) (Some (land r (length g.(s_hist))))) g.(s_hosts)).

(** One step of an i/o of host [h], without errors. *)
Definition advance_io {X} (g : system) (h : Z) (r : running) (c : cmd X)
    : (X -> prog (Z * paxos_dblock * token)) -> system :=
  match c in cmd X return (X -> prog (Z * paxos_dblock * token)) -> system with
  | CWriteIobuf fd off len _ m => fun k =>
      match r.(rn_landed) with
      | None => land_cur g h r fd off len m
      | Some _ => set_cur g h (resume r (k 0) (now g) [EvWrite fd off len m 0])
      end
  | CReadIobuf fd off len _ => fun k =>
      let m := fun i => dev_at g.(s_hist) (now g) fd (off + i) in
      set_cur g h (resume r (k (0, m)) (now g) [EvRead fd off len 0 m])
  | CMemalign _ => fun k => set_cur g h (resume r (k (0, mem_zero)) (now g) [])
  | CStack n => fun k => set_cur g h (resume r (k (zeros n)) (now g) [])
  | CMonotime => fun k => set_cur g h (resume r (k 100) (now g) [])
  | _ => fun _ => g
  end.

Definition advance (h : Z) (g : system) : system :=
  match (g.(s_hosts) h).(h_cur) with
  | None => g
  | Some r =>
      match r.(rn_prog) with
      | Ret (rv, pd, _) => set_past g h (finish r (Some (rv, pd)))
      | Ub => g
      | Io c k => advance_io g h r c k
      end
  end.

Definition begin_ballot (nh : Z) (h : Z) (t : token) (L b : Z) (g : system) : system :=
  set_cur g h (Running t L b (run_ballot t nh L b dblock_zero) (now g) None []).

Section scheduler.
Context (ss nh mh : Z) (disks : list sync_disk) (L0 : Z).
Context (Hgeo : ballot_geometry ss nh disks) (HL0 : 0 <= L0).

Definition bytes_hist (g : system) : Prop := Forall (fun D : devs => forall fd i, byte_ok (D fd i)) g.(s_hist).

(** Reachable, with devices that hold bytes. *)
Record sched_ok (dev0 : devs) (g : system) : Prop := {
  so_reach : reachable ss nh mh disks L0 dev0 g;
  so_bytes : bytes_hist g
}.

Lemma dev_at_bytes g τ fd i : bytes_hist g -> byte_ok (dev_at g.(s_hist) τ fd i).
Proof.
  intros H. unfold dev_at. generalize (Nat.min τ (pred (length (s_hist g)))) as n. intros n.
  rw nth_lookup. destruct (s_hist g !! n) eqn:E; [|by vm_compute].
  by apply (Forall_lookup_1 _ _ _ _ H E).
Qed.

Lemma advance_write dev0 h g r fd off len ioto m k :
  inv ss nh mh disks L0 g -> 1 <= h <= nh -> sched_ok dev0 g -> (g.(s_hosts) h).(h_cur) = Some r ->
  r.(rn_prog) = Io (CWriteIobuf fd off len ioto m) k ->
  sched_ok dev0 (advance_io g h r (CWriteIobuf fd off len ioto m) k).
Proof.
  intros Hi Hh [Hr Hb] Hcur Hp. pose proof (in_cur _ _ _ _ _ _ Hi h r Hh Hcur) as Hrun.
  simpl. destruct (rn_landed r) as [τ|] eqn:Hl.
  - split; [|done]. eapply rtc_r; [exact Hr|]. by eapply step_written.
  - split; [eapply rtc_r; [exact Hr|]; by eapply step_land|].
    apply Forall_app; split; [done|]. apply Forall_singleton. intros fd' i. unfold dev_write.
    destruct (pending_write ss nh mh disks L0 _ h r _ _ _ _ _ _ Hrun Hp)
      as (d & v & _ & (m' & [= _ _ _ <-] & Hm & _) & _).
    destruct (fd' =? fd); [|by apply dev_at_bytes]. unfold mem_write.
    destruct (_ && _); [done|by apply dev_at_bytes].
Qed.

Lemma advance_ok dev0 h g :
  old_slots ss nh disks L0 dev0 -> 1 <= h <= nh -> sched_ok dev0 g -> sched_ok dev0 (advance h g).
Proof.
  intros Hold Hh [Hr Hb]. unfold advance.
  destruct (h_cur (s_hosts g h)) as [r|] eqn:Hcur; [|by split].
  pose proof (reachable_inv ss nh mh disks L0 Hgeo HL0 dev0 g Hold Hr) as Hi.
  assert (Hstep : forall g', step ss nh mh disks L0 g g' -> reachable ss nh mh disks L0 dev0 g')
    by (intros g' Hs; by eapply rtc_r).
  destruct (rn_prog r) as [[[rv pd] t]| |X c k] eqn:Hp; [split; [|done]|by split|].
  { apply Hstep. by eapply step_return. }
  destruct c; try (by split).
  - split; [|done]. apply Hstep. eapply (step_call _ _ _ _ _ g h r _ (CMemalign len) k); try done.
    split; [by left|]. intros. by vm_compute.
  - split; [|done]. apply Hstep. eapply (step_call _ _ _ _ _ g h r _ (CStack n) k); try done.
    split; [by rw length_replicate|apply zeros_ok].
  - split; [|done]. apply Hstep. eapply step_read; try done.
    + intros i. by apply dev_at_bytes.
    + intros _ n Hn Hl. exists (now g).
      pose proof (ro_since _ _ _ _ _ _ _ _ (in_cur _ _ _ _ _ _ Hi h r Hh Hcur)).
      pose proof (ro_now _ _ _ _ _ _ _ _ (in_cur _ _ _ _ _ _ Hi h r Hh Hcur)).
      split; [unfold now; lia|]. intros i Hi'. f_equal. lia.
  - by apply (advance_write dev0 h g r fd offset len ioto iobuf k).
  - split; [|done]. apply Hstep. by eapply (step_call _ _ _ _ _ g h r _ CMonotime k).
Qed.

Lemma begin_ballot_ok dev0 h t L b g :
  1 <= h <= nh -> sched_ok dev0 g -> (g.(s_hosts) h).(h_cur) = None -> token_for ss disks h t ->
  L0 < L < 2 ^ 64 -> 1 <= b < 2 ^ 64 -> b mod mh = h mod mh ->
  Forall (fun B => ballot_lt B.(bl_lver) B.(bl_mbal) L b) (g.(s_hosts) h).(h_past) ->
  sched_ok dev0 (begin_ballot nh h t L b g).
Proof.
  intros Hh [Hr Hb] Hcur Ht HL Hb' Hm Hall. split; [|done].
  eapply rtc_r; [exact Hr|]. by apply step_start.
Qed.

Lemma drive_ok dev0 h n g :
  old_slots ss nh disks L0 dev0 -> 1 <= h <= nh -> sched_ok dev0 g ->
  sched_ok dev0 (Nat.iter n (advance h) g).
Proof. intros Hold Hh Hg. induction n as [|n IH]; [done|]. by apply advance_ok. Qed.
End scheduler.

(** The owner, its generation and the timestamp of two dblocks are the same. *)
Definition same_owner (pd1 pd2 : paxos_dblock) : Prop :=
  pd1.(pd_inp) = pd2.(pd_inp) /\ pd1.(pd_inp2) = pd2.(pd_inp2) /\ pd1.(pd_inp3) = pd2.(pd_inp3).

(** ** A run of two hosts *)

(** Host 1 runs ballot 1 of version 1 to its end, then host 2, which knows
    nothing of it, runs ballot 2. *)
Definition demo_dev : devs := fun _ => mem_zero.
Definition demo1 : system :=
  Nat.iter 20 (advance 1) (begin_ballot 2 1 (demo_token 1 7) 1 1 (init demo_dev)).
Definition demo2 : system :=
  Nat.iter 20 (advance 2) (begin_ballot 2 2 (demo_token 2 9) 1 2 demo1).

Definition demo_ballot (h : Z) : ballot :=
  default (Ballot 0 0 0 [] None) ((demo2.(s_hosts) h).(h_past) !! O).

Definition demo_pd (h : Z) : paxos_dblock := default dblock_zero (snd <$> (demo_ballot h).(bl_out)).

Lemma demo_old : old_slots 512 2 demo_disks 0 demo_dev.
Proof.
  intros d q _ _. change (slot_view _ _ _ _) with (dview (zeros sizeof_paxos_dblock)). by rw dview_zero.
Qed.

Lemma demo_sched : sched_ok 512 2 2 demo_disks 0 demo_dev demo2.
Proof.
  pose proof demo_geometry as Hgeo. pose proof demo_old as Hold.
  assert (H1 : sched_ok 512 2 2 demo_disks 0 demo_dev demo1).
  { apply drive_ok; [done|lia|done|lia|]. apply begin_ballot_ok; [lia| |done|by apply demo_token_for|lia..|done|done].
    split; [apply rtc_refl|]. apply Forall_singleton. intros. by vm_compute. }
  apply drive_ok; [done|lia|done|lia|].
  apply begin_ballot_ok; [lia|done|by vm_compute|by apply demo_token_for|lia..|done|].
  by replace (h_past (s_hosts demo1 2)) with (@nil ballot) by by vm_compute.
Qed.

Lemma demo_past h : h = 1 \/ h = 2 ->
  (demo2.(s_hosts) h).(h_past) = [demo_ballot h] /\ (demo2.(s_hosts) h).(h_cur) = None.
Proof.
  intros Hh. split; [|destruct Hh as [-> | ->]; by vm_compute].
  assert (Hl : length (demo2.(s_hosts) h).(h_past) = 1%nat) by (destruct Hh as [-> | ->]; by vm_compute).
  unfold demo_ballot. destruct (h_past _) as [|B [|? ?]]; done.
Qed.

Lemma demo_succeeded h : h = 1 \/ h = 2 -> succeeded demo2 h (demo_ballot h) (demo_pd h).
Proof.
  intros Hh. split; [rw (proj1 (demo_past h Hh)); by apply list_elem_of_singleton|].
  destruct Hh as [-> | ->]; by vm_compute.
Qed.

Lemma demo_latest h : h = 1 \/ h = 2 -> latest demo2 h (demo_ballot h).
Proof.
  intros Hh B. unfold ballots. destruct (demo_past h Hh) as [-> ->]. rw app_nil_r.
  intros ->%list_elem_of_singleton. lia.
Qed.

(** C1: Agreement of concurrent ballots. Hosts run [run_ballot] for versions of
    one lease on common disks, in any number and interleaving; reads and writes
    may fail and hosts may stop at any point and start again. If two ballots for
    the same version both succeed and each is the last ballot that its host has
    begun for that version, they return the same owner, owner generation and
    timestamp. Assumed are: ballot numbers that are congruent to the host id
    modulo max_hosts; hosts whose ballots are each of a later version than the
    one before, or of the same version with a larger number; sector sizes of 512
    or 4096; slots that at the start are of no newer version; distinct
    descriptors for the disks and host ids within num_hosts; and writes that
    take effect, if at all, between their start and their result. A write that
    is reported as timed out and reaches the disk later is outside the model,
    and nothing is claimed of a ballot after which its host begins another one
    for the same version (whose first write withdraws the vote). *)
Theorem ballot_agreement ss nh mh disks L0 dev0 g h1 B1 pd1 h2 B2 pd2 :
  ballot_geometry ss nh disks -> nh <= mh -> 0 <= L0 -> old_slots ss nh disks L0 dev0 ->
  reachable ss nh mh disks L0 dev0 g ->
  1 <= h1 <= nh -> 1 <= h2 <= nh -> succeeded g h1 B1 pd1 -> succeeded g h2 B2 pd2 ->
  B1.(bl_lver) = B2.(bl_lver) -> latest g h1 B1 -> latest g h2 B2 ->
  same_owner pd1 pd2.
Proof.
  intros Hgeo Hmh HL0 Hold Hr Hh1 Hh2 Hs1 Hs2 EL Hl1 Hl2.
  assert (E : vote_value pd1 = vote_value pd2).
  { apply (agreement ss nh mh disks L0 Hgeo Hmh g h1 B1 pd1 h2 B2 pd2); [|done..]. by eapply reachable_inv. }
  by injection E.
Qed.

Lemma ballot_agreement_witness :
  reachable 512 2 2 demo_disks 0 demo_dev demo2 /\
  vote_value (demo_pd 1) = (1, 7, 100) /\
  same_owner (demo_pd 1) (demo_pd 2).
Proof.
  pose proof (so_reach _ _ _ _ _ _ _ demo_sched) as Hr. split; [done|]. split; [by vm_compute|].
  apply (ballot_agreement 512 2 2 demo_disks 0 demo_dev demo2 1 (demo_ballot 1) _ 2 (demo_ballot 2) _
           demo_geometry ltac:(lia) ltac:(lia) demo_old Hr ltac:(lia) ltac:(lia)
           (demo_succeeded 1 ltac:(by left)) (demo_succeeded 2 ltac:(by right))
           ltac:(by vm_compute) (demo_latest 1 ltac:(by left)) (demo_latest 2 ltac:(by right))).
Defined.
