(* ===== verification/Lockspace.v ===== *)
(** * Lockspaces ([src/src/lockspace.c])

    The lockspaces a daemon has joined: [struct space] with its three lists
    ([spaces_add] while the host id is acquired, [spaces] while it is in use,
    [spaces_rem] while its thread stops), the operations that add, remove and
    query them, and the invariant of the lists.

    A [struct space] is identified by the address of its list node, its first
    member, so that a pointer to it is a [Z]; an operation that follows a pointer
    to a space on none of the lists uses freed memory. Every operation runs under
    [spaces_mutex] and is one step; [now] is the result of its call of
    [monotime]. *)

From S2P Require Import Prelude OnDisk SizeFlags Timeouts Io DeltaLease PaxosBlocks.

(** ** Constants *)

Definition ENOSPC : Z := 28.
Definition EEXIST : Z := 17.
Definition EINPROGRESS : Z := 115.
Definition EAGAIN : Z := 11.
Definition ENOENT : Z := 2.
Definition EBUSY : Z := 16.
Definition ENODEV : Z := 19.
Definition ENOCSI : Z := 50.

Definition SANLK_WD_ERROR : Z := -203.
Definition SANLK_LEADER_SECTORSIZE : Z := -225.
Definition SANLK_ADDLS_SIZES : Z := -230.
Definition SANLK_ADDLS_INVALID_HOSTID : Z := -231.

Definition SANLK_PATH_LEN : nat := 1024.
Definition MAX_EVENT_FDS : nat := 32.
Definition SP_EXTERNAL_USED : Z := 0x1.
Definition SP_USED_BY_ORPHANS : Z := 0x2.

Definition SANLK_CONFIG_USED : Z := 0x1.
Definition SANLK_CONFIG_UNUSED : Z := 0x2.
Definition SANLK_CONFIG_USED_BY_ORPHANS : Z := 0x4.
Definition SANLK_CONFIG_UNUSED_BY_ORPHANS : Z := 0x8.

Definition SANLK_LSF_ADD : Z := 0x1.
Definition SANLK_LSF_REM : Z := 0x2.

(** ** State *)

Record lease_status := LeaseStatus {
  lst_corrupt_result : Z;
  lst_acquire_last_result : Z;
  lst_renewal_last_result : Z;
  lst_acquire_last_attempt : Z;
  lst_acquire_last_success : Z;
  lst_renewal_last_attempt : Z;
  lst_renewal_last_success : Z;
  lst_renewal_read_count : Z;
  lst_renewal_read_check : Z;
  lst_renewal_read_buf : option mem
}.
#[export] Instance lease_status_settable : Settable lease_status := fun r =>
  LeaseStatus r.(lst_corrupt_result) r.(lst_acquire_last_result) r.(lst_renewal_last_result)
    r.(lst_acquire_last_attempt) r.(lst_acquire_last_success) r.(lst_renewal_last_attempt)
    r.(lst_renewal_last_success) r.(lst_renewal_read_count) r.(lst_renewal_read_check)
    r.(lst_renewal_read_buf).

Record renewal_history := RenewalHistory {
  rh_timestamp : Z;
  rh_read_ms : Z;
  rh_write_ms : Z;
  rh_next_timeouts : Z;
  rh_next_errors : Z
}.
#[export] Instance renewal_history_settable : Settable renewal_history := fun r =>
  RenewalHistory r.(rh_timestamp) r.(rh_read_ms) r.(rh_write_ms) r.(rh_next_timeouts) r.(rh_next_errors).

Record sanlk_host_event := HostEvent {
  he_host_id : Z;
  he_generation : Z;
  he_event : Z;
  he_data : Z
}.
#[export] Instance host_event_settable : Settable sanlk_host_event := fun r =>
  HostEvent r.(he_host_id) r.(he_generation) r.(he_event) r.(he_data).

#[export] Instance host_status_settable : Settable host_status := fun r =>
  HostStatus r.(hs_first_check) r.(hs_last_check) r.(hs_last_live) r.(hs_last_req) r.(hs_owner_id)
    r.(hs_owner_generation) r.(hs_timestamp) r.(hs_set_bit_time) r.(hs_io_timeout) r.(hs_lease_bad)
    r.(hs_owner_name).

(** [struct space]; [sp_list] is its address, [sp_delta] holds the fields that
    the delta lease code reads. *)
Record lspace := LSpace {
  sp_list : Z;
  sp_space_name : list Z;
  sp_space_id : Z;
  sp_host_id : Z;
  sp_host_generation : Z;
  sp_host_id_disk : sync_disk;
  sp_delta :> space;
  sp_set_bitmap_seconds : Z;
  sp_flags : Z;
  sp_used_retries : Z;
  sp_rindex_op : Z;
  sp_set_max_sectors_kb : Z;
  sp_max_hosts : Z;
  sp_renew_fail : Z;
  sp_space_dead : Z;
  sp_killing_pids : Z;
  sp_external_remove : Z;
  sp_thread_stop : Z;
  sp_wd_fd : Z;
  sp_event_fds : list Z;
  sp_host_event : sanlk_host_event;
  sp_set_event_time : Z;
  sp_lease_status : lease_status;
  sp_host_status : list host_status;
  sp_renewal_history : option (list renewal_history);
  sp_renewal_history_size : Z;
  sp_renewal_history_next : Z;
  sp_renewal_history_prev : Z
}.
#[export] Instance lspace_settable : Settable lspace := fun r =>
  LSpace r.(sp_list) r.(sp_space_name) r.(sp_space_id) r.(sp_host_id) r.(sp_host_generation)
    r.(sp_host_id_disk) r.(sp_delta) r.(sp_set_bitmap_seconds) r.(sp_flags) r.(sp_used_retries)
    r.(sp_rindex_op) r.(sp_set_max_sectors_kb) r.(sp_max_hosts) r.(sp_renew_fail) r.(sp_space_dead)
    r.(sp_killing_pids) r.(sp_external_remove) r.(sp_thread_stop) r.(sp_wd_fd) r.(sp_event_fds)
    r.(sp_host_event) r.(sp_set_event_time) r.(sp_lease_status) r.(sp_host_status)
    r.(sp_renewal_history) r.(sp_renewal_history_size) r.(sp_renewal_history_next)
    r.(sp_renewal_history_prev).

(** The further fields of the global [com] that lockspaces use. *)
Record com_space := ComSpace {
  com_renewal_read_extend_sec_set : Z;
  com_renewal_read_extend_sec : Z;
  com_renewal_history_size : Z;
  com_max_sectors_kb_ignore : Z;
  com_max_sectors_kb_align : Z;
  com_max_sectors_kb_num : Z;
  com_uid : Z;
  com_use_watchdog : Z
}.

(** The global lists and the counter; [external_shutdown] is set by the shutdown
    command and read here. *)
Record lockspaces := Lockspaces {
  spaces : list lspace;
  spaces_add : list lspace;
  spaces_rem : list lspace;
  space_id_counter : Z;
  external_shutdown : Z
}.
#[export] Instance lockspaces_settable : Settable lockspaces := fun r =>
  Lockspaces r.(spaces) r.(spaces_add) r.(spaces_rem) r.(space_id_counter) r.(external_shutdown).

(** [struct space_info] *)
Record space_info := SpaceInfo {
  spi_space_id : Z;
  spi_io_timeout : Z;
  spi_host_id : Z;
  spi_host_generation : Z;
  spi_sector_size : Z;
  spi_align_size : Z;
  spi_killing_pids : Z
}.

(** ** Searching *)

(** The tests of the loop of [_search_space]: a NULL name or disk and a zero
    host id match every space. *)
Definition space_matches (name : option (list Z)) (disk : option sync_disk) (host_id : Z)
    (sp : lspace) : bool :=
  match name with
  | Some n => strncmp_eq NAME_ID_SIZE sp.(sp_space_name) n
  | None => true
  end &&
  match disk with
  | Some d => strncmp_eq SANLK_PATH_LEN sp.(sp_host_id_disk).(sd_path) d.(sd_path) &&
              (sp.(sp_host_id_disk).(sd_offset) =? d.(sd_offset))
  | None => true
  end &&
  ((host_id =? 0) || (sp.(sp_host_id) =? host_id)).

Fixpoint find_space (p : lspace -> bool) (l : list lspace) : option lspace :=
  match l with
  | [] => None
  | sp :: l => if p sp then Some sp else find_space p l
  end.

(** The heads are searched in order; the result has the number of the list
    (from 1) the space is on. A NULL head is skipped, which an empty list is too. *)
Fixpoint _search_space (name : option (list Z)) (disk : option sync_disk) (host_id : Z)
    (heads : list (list lspace)) (listnum : Z) : option (lspace * Z) :=
  match heads with
  | [] => None
  | l :: heads =>
      match find_space (space_matches name disk host_id) l with
      | Some sp => Some (sp, listnum)
      | None => _search_space name disk host_id heads (listnum + 1)
      end
  end.

Definition search_one (name : option (list Z)) (disk : option sync_disk) (host_id : Z)
    (heads : list (list lspace)) : option lspace :=
  fst <$> _search_space name disk host_id heads 1.

Definition find_lockspace (st : lockspaces) (name : list Z) : option lspace :=
  search_one (Some name) None 0 [st.(spaces); st.(spaces_rem); st.(spaces_add)].

Definition find_lockspace_id (st : lockspaces) (space_id : Z) : option lspace :=
  find_space (fun sp => sp.(sp_space_id) =? space_id) st.(spaces).

(** The space a lockspace name finds on the [spaces] list. *)
Definition named_space (st : lockspaces) (name : list Z) : option lspace :=
  search_one (Some name) None 0 [st.(spaces)].

Definition _set_space_info (sp : lspace) : space_info :=
  SpaceInfo sp.(sp_space_id) sp.(sp_io_timeout) sp.(sp_host_id) sp.(sp_host_generation)
    sp.(sp_sector_size) sp.(sp_align_size) sp.(sp_killing_pids).

Definition _lockspace_info (st : lockspaces) (space_name : list Z) : Z * option space_info :=
  match find_space (fun sp => strncmp_eq NAME_ID_SIZE sp.(sp_space_name) space_name) st.(spaces) with
  | Some sp => (0, Some (_set_space_info sp))
  | None => (-1, None)
  end.

Definition lockspace_info (st : lockspaces) (space_name : list Z) : Z * option space_info :=
  _lockspace_info st space_name.

(** The loop does not stop at the first match. *)
Fixpoint lockspace_disk_loop (space_name : list Z) (l : list lspace) (rv : Z)
    (out : option (sync_disk * Z)) : Z * option (sync_disk * Z) :=
  match l with
  | [] => (rv, out)
  | sp :: l =>
      if negb (strncmp_eq NAME_ID_SIZE sp.(sp_space_name) space_name)
      then lockspace_disk_loop space_name l rv out
      else
        let d := sp.(sp_host_id_disk) in
        lockspace_disk_loop space_name l 0
          (Some (SyncDisk d.(sd_path) d.(sd_offset) d.(sd_sector_size) (-1), sp.(sp_sector_size)))
  end.

Definition lockspace_disk (st : lockspaces) (space_name : list Z) : Z * option (sync_disk * Z) :=
  lockspace_disk_loop space_name st.(spaces) (-1) None.

(** ** Changing a space through a pointer to it *)

Definition update_at (p : Z) (f : lspace -> lspace) (l : list lspace) : list lspace :=
  (fun sp => if sp.(sp_list) =? p then f sp else sp) <$> l.

Definition update_space (p : Z) (f : lspace -> lspace) (st : lockspaces) : lockspaces :=
  st <| spaces := update_at p f st.(spaces) |>
     <| spaces_add := update_at p f st.(spaces_add) |>
     <| spaces_rem := update_at p f st.(spaces_rem) |>.

(** A list without the space at [p]. *)
Definition list_del (p : Z) (l : list lspace) : list lspace :=
  List.filter (fun sp => negb (sp.(sp_list) =? p)) l.

(** [list_del] takes a space off the list it is on. *)
Definition unlink (p : Z) (st : lockspaces) : lockspaces :=
  st <| spaces := list_del p st.(spaces) |>
     <| spaces_add := list_del p st.(spaces_add) |>
     <| spaces_rem := list_del p st.(spaces_rem) |>.

Definition all_spaces (st : lockspaces) : list lspace :=
  st.(spaces) ++ st.(spaces_add) ++ st.(spaces_rem).

(** The space a pointer refers to. *)
Definition deref (p : Z) (st : lockspaces) : option lspace :=
  find_space (fun sp => sp.(sp_list) =? p) (all_spaces st).

(** ** Adding *)

Definition host_status_zero : host_status := HostStatus 0 0 0 0 0 0 0 0 0 0 (zeros NAME_ID_SIZE).
Definition renewal_history_zero : renewal_history := RenewalHistory 0 0 0 0 0.
Definition lease_status_zero : lease_status := LeaseStatus 0 0 0 0 0 0 0 0 0 None.

(** The structure [add_lockspace_start] fills in at address [p]: zero but for the
    arguments and the defaults. [history_ok] is the result of the allocation of
    the history. *)
Definition new_space (com : command_line) (cs : com_space) (ls : sanlk_lockspace) (io_timeout p : Z)
    (history_ok : bool) : lspace :=
  let extend := if nz cs.(com_renewal_read_extend_sec_set) then cs.(com_renewal_read_extend_sec)
                else io_timeout in
  let d := ls.(ls_host_id_disk) in
  let history := nz cs.(com_renewal_history_size) && history_ok in
  LSpace p ls.(ls_name) 0 ls.(ls_host_id) 0 (SyncDisk d.(sd_path) d.(sd_offset) 0 (-1))
    (Space 0 0 io_timeout extend) (u32 (calc_set_bitmap_seconds com io_timeout)) 0 0 0 0 0 0 0 0 0 0 0
    (replicate MAX_EVENT_FDS (-1)) (HostEvent 0 0 0 0) 0 lease_status_zero
    (replicate (Z.to_nat DEFAULT_MAX_HOSTS) host_status_zero)
    (if history then Some (replicate (Z.to_nat cs.(com_renewal_history_size)) renewal_history_zero) else None)
    (if history then cs.(com_renewal_history_size) else 0) 0 0.

(** Returns the code, [*sp_out] and the lists. [malloc] is the address of the new
    space ([None]: allocation failed). The thread is created afterwards; when that
    fails the space is taken off by [add_fail_del] and the result is -1. *)
Definition add_lockspace_start (com : command_line) (cs : com_space) (ls : sanlk_lockspace)
    (io_timeout : Z) (malloc : option Z) (history_ok : bool) (st : lockspaces)
    : Z * option Z * lockspaces :=
  if (nth 0 ls.(ls_name) 0 =? 0) || (ls.(ls_host_id) =? 0) ||
     (nth 0 ls.(ls_host_id_disk).(sd_path) 0 =? 0)
  then (- EINVAL, None, st)
  else match malloc with
  | None => (- ENOMEM, None, st)
  | Some p =>
      let sp := new_space com cs ls io_timeout p history_ok in
      let same l := search_one (Some sp.(sp_space_name)) (Some sp.(sp_host_id_disk)) sp.(sp_host_id) [l] in
      match same st.(spaces) with Some _ => (- EEXIST, None, st) | None =>
      match same st.(spaces_add) with Some _ => (- EINPROGRESS, None, st) | None =>
      match same st.(spaces_rem) with Some _ => (- EAGAIN, None, st) | None =>
      match _search_space (Some sp.(sp_space_name)) None 0
              [st.(spaces); st.(spaces_add); st.(spaces_rem)] 1 with
      | Some _ => (- EINVAL, None, st) | None =>
      match _search_space None (Some sp.(sp_host_id_disk)) 0
              [st.(spaces); st.(spaces_add); st.(spaces_rem)] 1 with
      | Some _ => (- EINVAL, None, st) | None =>
          let sp := sp <| sp_space_id := st.(space_id_counter) |> in
          (0, Some p, st <| space_id_counter := u32 (st.(space_id_counter) + 1) |>
                         <| spaces_add := sp :: st.(spaces_add) |>)
      end end end end end
  end.

(** [add_lockspace_wait] as its critical sections. The first is repeated, with a
    sleep, until the result is not zero. *)
Definition add_wait_result (p : Z) (st : lockspaces) : option Z :=
  sp ← deref p st; Some sp.(sp_lease_status).(lst_acquire_last_result).

(** The second runs when the host id was acquired: [true] when the space is added,
    [false] when it was removed or the daemon told to stop in the meantime. *)
Definition add_wait_commit (p : Z) (st : lockspaces) : option (bool * lockspaces) :=
  sp ← deref p st;
  if nz sp.(sp_external_remove) || nz st.(external_shutdown) then Some (false, st)
  else let st := unlink p st in Some (true, st <| spaces := sp :: st.(spaces) |>).

(** In that case the thread is told to stop, and [deactivate_watchdog] called. *)
Definition add_wait_undo (p : Z) (st : lockspaces) : option lockspaces :=
  sp ← deref p st; Some (update_space p (fun sp => sp <| sp_thread_stop := 1 |>) st).

(** The last, after a failure and the join of the thread. *)
Definition add_fail_del (p : Z) (st : lockspaces) : lockspaces := unlink p st.

(** ** Querying and removing *)

Definition search_ls (ls : sanlk_lockspace) (heads : list (list lspace)) : option lspace :=
  search_one (Some ls.(ls_name)) (Some ls.(ls_host_id_disk)) ls.(ls_host_id) heads.

Definition inq_lockspace (ls : sanlk_lockspace) (st : lockspaces) : Z :=
  match search_ls ls [st.(spaces)] with
  | Some _ => 0
  | None => match search_ls ls [st.(spaces_add); st.(spaces_rem)] with
            | Some _ => - EINPROGRESS
            | None => - ENOENT
            end
  end.

(** Returns the code, [*space_id] and the lists. *)
Definition rem_lockspace_start (ls : sanlk_lockspace) (st : lockspaces) : Z * option Z * lockspaces :=
  match search_ls ls [st.(spaces_rem)] with Some _ => (- EINPROGRESS, None, st) | None =>
  match search_ls ls [st.(spaces_add)] with
  | Some sp => (0, Some sp.(sp_space_id),
                update_space sp.(sp_list) (fun sp => sp <| sp_external_remove := 1 |>) st)
  | None =>
  match search_ls ls [st.(spaces)] with
  | None => (- ENOENT, None, st)
  | Some sp =>
      if nz sp.(sp_rindex_op) then (- EBUSY, None, st)
      else (0, Some sp.(sp_space_id),
            update_space sp.(sp_list) (fun sp => sp <| sp_external_remove := 1 |>) st)
  end end end.

(** The condition on which [rem_lockspace_wait] returns; it sleeps and tests it
    again otherwise. *)
Definition rem_lockspace_done (ls : sanlk_lockspace) (space_id : Z) (st : lockspaces) : bool :=
  match search_ls ls [st.(spaces); st.(spaces_rem); st.(spaces_add)] with
  | Some sp => negb (sp.(sp_space_id) =? space_id)
  | None => true
  end.

Definition sizeof_sanlk_lockspace : Z := 1104.

Definition lockspace_entry (flags : Z) (sp : lspace) : sanlk_lockspace :=
  let d := sp.(sp_host_id_disk) in
  Lockspace sp.(sp_space_name) sp.(sp_host_id) flags (SyncDisk d.(sd_path) d.(sd_offset) 0 0).

(** The loop over one list: the code, [*len], the count and the entries. *)
Fixpoint get_lockspaces_loop (flags maxlen : Z) (l : list lspace) (acc : Z * Z * Z * list sanlk_lockspace)
    : Z * Z * Z * list sanlk_lockspace :=
  match l with
  | [] => acc
  | sp :: l =>
      let '(rv, len, count, out) := acc in
      get_lockspaces_loop flags maxlen l
        (if maxlen <? len + sizeof_sanlk_lockspace then (- ENOSPC, len, count + 1, out)
         else (rv, len + sizeof_sanlk_lockspace, count + 1, out ++ [lockspace_entry flags sp]))
  end.

Definition get_lockspaces (maxlen : Z) (st : lockspaces) : Z * Z * Z * list sanlk_lockspace :=
  get_lockspaces_loop SANLK_LSF_ADD maxlen st.(spaces_add)
    (get_lockspaces_loop SANLK_LSF_REM maxlen st.(spaces_rem)
      (get_lockspaces_loop 0 maxlen st.(spaces) (0, 0, 0, []))).

(** ** Settings *)

Definition lockspace_set_config (ls : sanlk_lockspace) (cmd : Z) (st : lockspaces) : Z * lockspaces :=
  match named_space st ls.(ls_name) with
  | None => (- ENOENT, st)
  | Some sp =>
      let set f := update_space sp.(sp_list) (fun sp => sp <| sp_flags := f sp.(sp_flags) |>) st in
      if cmd =? SANLK_CONFIG_USED then
        if nz sp.(sp_space_dead) then (- ENOSPC, st) else (0, set (fun f => Z.lor f SP_EXTERNAL_USED))
      else if cmd =? SANLK_CONFIG_UNUSED then (0, set (fun f => clear_flag f SP_EXTERNAL_USED))
      else if cmd =? SANLK_CONFIG_USED_BY_ORPHANS then
        if nz sp.(sp_space_dead) then (- ENOSPC, st) else (0, set (fun f => Z.lor f SP_USED_BY_ORPHANS))
      else if cmd =? SANLK_CONFIG_UNUSED_BY_ORPHANS then (0, set (fun f => clear_flag f SP_USED_BY_ORPHANS))
      else (- EINVAL, st)
  end.

Definition lockspace_begin_rindex_op (space_name : list Z) (rindex_op : Z) (st : lockspaces)
    : Z * option space_info * lockspaces :=
  match named_space st space_name with
  | None => (- ENOENT, None, st)
  | Some sp =>
      if nz sp.(sp_space_dead) || nz sp.(sp_thread_stop) then (- ENOSPC, None, st)
      else if nz sp.(sp_rindex_op) then (- EBUSY, None, st)
      else (0, Some (_set_space_info sp),
            update_space sp.(sp_list) (fun sp => sp <| sp_rindex_op := rindex_op |>) st)
  end.

Definition lockspace_clear_rindex_op (space_name : list Z) (st : lockspaces) : Z * lockspaces :=
  match named_space st space_name with
  | None => (- ENOENT, st)
  | Some sp => (0, update_space sp.(sp_list) (fun sp => sp <| sp_rindex_op := 0 |>) st)
  end.

(** ** Stopping *)

(** [join_rv] is the result of [pthread_join] or [pthread_tryjoin_np]. *)
Definition stop_lockspace_thread (join_rv : Z) (sp : lspace) : Z * lspace :=
  let stop := sp.(sp_thread_stop) in
  let sp := sp <| sp_thread_stop := 1 |> in
  if stop =? 0 then (- EINVAL, sp) else (join_rv, sp).

Fixpoint free_lockspaces_loop (join_rv : Z -> Z) (l : list lspace) : list lspace :=
  match l with
  | [] => []
  | sp :: l =>
      let '(rv, sp) := stop_lockspace_thread (join_rv sp.(sp_list)) sp in
      if rv =? 0 then free_lockspaces_loop join_rv l else sp :: free_lockspaces_loop join_rv l
  end.

Definition free_lockspaces (join_rv : Z -> Z) (st : lockspaces) : lockspaces :=
  st <| spaces_rem := free_lockspaces_loop join_rv st.(spaces_rem) |>.

(** ** What the lockspace thread publishes *)

(** The errors that mean the delta lease was lost. *)
Definition corrupt_result (result : Z) : Z :=
  if (result =? SANLK_RENEW_OWNER) || (result =? SANLK_RENEW_DIFF) || (result =? SANLK_LEADER_MAGIC) ||
     (result =? SANLK_LEADER_VERSION) || (result =? SANLK_LEADER_SECTORSIZE) ||
     (result =? SANLK_LEADER_LOCKSPACE) || (result =? SANLK_LEADER_CHECKSUM)
  then result else 0.

Definition save_renewal_history (delta_result last_success rd_ms wr_ms : Z) (sp : lspace) : lspace :=
  match sp.(sp_renewal_history) with
  | None => sp
  | Some l =>
      let size := sp.(sp_renewal_history_size) in
      let next := sp.(sp_renewal_history_next) in
      if size =? 0 then sp
      else if delta_result =? SANLK_OK then
        let l := alter (fun hi => hi <| rh_timestamp := last_success |> <| rh_read_ms := rd_ms |>
                                     <| rh_write_ms := wr_ms |>) (Z.to_nat next) l in
        sp <| sp_renewal_history := Some l |>
           <| sp_renewal_history_prev := next |>
           <| sp_renewal_history_next := if size <=? next + 1 then 0 else next + 1 |>
      else
        let count hi :=
          if delta_result =? SANLK_AIO_TIMEOUT
          then hi <| rh_next_timeouts := i32 (hi.(rh_next_timeouts) + 1) |>
          else hi <| rh_next_errors := i32 (hi.(rh_next_errors) + 1) |> in
        sp <| sp_renewal_history := Some (alter count (Z.to_nat sp.(sp_renewal_history_prev)) l) |>
  end.

(** The critical section at [set_status:] of [lockspace_thread]. *)
Definition publish_acquired (acquire_result delta_result delta_begin last_success : Z) (sp : lspace) : lspace :=
  let s := sp.(sp_lease_status) in
  let s := s <| lst_acquire_last_result := acquire_result |>
             <| lst_acquire_last_attempt := delta_begin |>
             <| lst_renewal_last_result := acquire_result |>
             <| lst_renewal_last_attempt := delta_begin |> in
  let s := if delta_result =? SANLK_OK
           then s <| lst_acquire_last_success := last_success |> <| lst_renewal_last_success := last_success |>
           else s in
  save_renewal_history delta_result last_success 0 0 (sp <| sp_lease_status := s |>).

(** The critical section after a renewal; [read_buf] is the area it read. *)
Definition publish_renewed (delta_result delta_begin last_success : Z) (read_buf : option mem)
    (rd_ms wr_ms : Z) (sp : lspace) : lspace :=
  let s := sp.(sp_lease_status) in
  let s := s <| lst_renewal_last_result := delta_result |> <| lst_renewal_last_attempt := delta_begin |> in
  let s := if delta_result =? SANLK_OK then s <| lst_renewal_last_success := last_success |> else s in
  let s := if negb (delta_result =? SANLK_OK) && (s.(lst_corrupt_result) =? 0)
           then s <| lst_corrupt_result := corrupt_result delta_result |> else s in
  let s := match read_buf with
           | Some b => s <| lst_renewal_read_buf := Some b |>
                         <| lst_renewal_read_count := u32 (s.(lst_renewal_read_count) + 1) |>
           | None => s
           end in
  save_renewal_history delta_result last_success rd_ms wr_ms (sp <| sp_lease_status := s |>).

(** The meaning of an update of the thread on the shared structure. *)
Definition sp_apply (u : sp_update) (sp : lspace) : lspace :=
  match u with
  | SpSizes sector_size align_size max_hosts =>
      sp <| sp_delta := Space sector_size align_size sp.(sp_io_timeout) sp.(sp_renewal_read_extend_sec) |>
         <| sp_max_hosts := max_hosts |>
  | SpMaxSectorsKb kb => sp <| sp_set_max_sectors_kb := kb |>
  | SpReadBuf =>
      sp <| sp_lease_status := sp.(sp_lease_status) <| lst_renewal_read_buf := Some mem_zero |> |>
  | SpAcquired acquire_result delta_result delta_begin last_success =>
      publish_acquired acquire_result delta_result delta_begin last_success sp
  | SpGeneration g => sp <| sp_host_generation := g |>
  | SpWdFd con => sp <| sp_wd_fd := con |>
  | SpRenewed delta_result delta_begin last_success read_buf rd_ms wr_ms =>
      publish_renewed delta_result delta_begin last_success read_buf rd_ms wr_ms sp
  end.
