(* ===== verification/HostStatus.v ===== *)
(** * The status of the hosts of a lockspace ([src/src/lockspace.c])

    What a host knows of the others from the delta leases its renewals read
    ([check_other_leases]), what it reports of them ([host_info], [get_hosts]),
    the bitmap with which it notifies them, the events that travel with it, and
    the check of its own renewals ([check_our_lease]).

    Arrays of [DEFAULT_MAX_HOSTS] entries are lists; loops over the first
    [max_hosts] of them split the list there. *)

From S2P Require Import Prelude OnDisk SizeFlags Timeouts Io DeltaLease PaxosBlocks Lockspace.

Definition HOSTID_BITMAP_OFFSET : Z := 256.
Definition SANLK_HOST_UNKNOWN : Z := 1.
Definition SANLK_HOST_FREE : Z := 2.
Definition SANLK_HOST_LIVE : Z := 3.
Definition SANLK_HOST_FAIL : Z := 4.
Definition SANLK_HOST_DEAD : Z := 5.
Definition SANLK_SETEV_CUR_GENERATION : Z := 0x1.
Definition SANLK_SETEV_CLEAR_HOSTID : Z := 0x2.
Definition SANLK_SETEV_CLEAR_EVENT : Z := 0x4.
Definition SANLK_SETEV_REPLACE_EVENT : Z := 0x8.
Definition SANLK_SETEV_ALL_HOSTS : Z := 0x10.

(** [sp->host_status[host_id-1]], and a change of it. *)
Definition host_at (host_id : Z) (sp : lspace) : host_status :=
  nth (Z.to_nat (host_id - 1)) sp.(sp_host_status) host_status_zero.
Definition set_host (host_id : Z) (f : host_status -> host_status) (sp : lspace) : lspace :=
  sp <| sp_host_status := alter f (Z.to_nat (host_id - 1)) sp.(sp_host_status) |>.

(** ** Requests and the bitmap *)

Definition host_status_set_bit (now : Z) (space_name : list Z) (host_id : Z) (st : lockspaces)
    : Z * lockspaces :=
  if (host_id =? 0) || (DEFAULT_MAX_HOSTS <? host_id) then (- EINVAL, st)
  else match named_space st space_name with
  | None => (- ENOSPC, st)
  | Some sp =>
      if u64 sp.(sp_max_hosts) <? host_id then (- EINVAL, st)
      else (0, update_space sp.(sp_list)
                 (set_host host_id (fun hs => hs <| hs_set_bit_time := now |>)) st)
  end.

(** Returns the code and [*hs_out]. *)
Definition host_info (space_name : list Z) (host_id : Z) (st : lockspaces) : Z * option host_status :=
  if (host_id =? 0) || (DEFAULT_MAX_HOSTS <? host_id) then (- EINVAL, None)
  else match named_space st space_name with
  | None => (- ENOSPC, None)
  | Some sp =>
      if u64 sp.(sp_max_hosts) <? host_id then (- EINVAL, None)
      else
        let hs := host_at host_id sp in
        (0, Some (if hs.(hs_io_timeout) =? 0 then hs <| hs_io_timeout := u16 sp.(sp_io_timeout) |> else hs))
  end.

(** The loop over the hosts, [i] being the index of the head of the list. *)
Fixpoint bitmap_loop (sp : lspace) (now i : Z) (l : list host_status) (bitmap : list Z)
    : list host_status * list Z :=
  match l with
  | [] => ([], bitmap)
  | hs :: l =>
      if (i + 1 =? sp.(sp_host_id)) || (hs.(hs_set_bit_time) =? 0) then
        let '(l, b) := bitmap_loop sp now (i + 1) l bitmap in (hs :: l, b)
      else if sp.(sp_set_bitmap_seconds) <? u64 (now - hs.(hs_set_bit_time)) then
        let '(l, b) := bitmap_loop sp now (i + 1) l bitmap in (hs <| hs_set_bit_time := 0 |> :: l, b)
      else
        let '(l, b) := bitmap_loop sp now (i + 1) l (set_id_bit (i + 1) bitmap) in (hs :: l, b)
  end.

Definition create_bitmap_and_extra (now : Z) (bitmap : list Z) (sp : lspace)
    : list Z * delta_extra * lspace :=
  let n := Z.to_nat sp.(sp_max_hosts) in
  let '(l, bitmap) := bitmap_loop sp now 0 (take n sp.(sp_host_status)) bitmap in
  let e := sp.(sp_host_event) in
  (bitmap, DeltaExtra e.(he_generation) e.(he_event) e.(he_data),
   sp <| sp_host_status := l ++ drop n sp.(sp_host_status) |>).

(** ** Watching the other hosts *)

(** An event passed to the resource thread: the event and the id and generation
    of the host it came from. *)
Record host_event_msg := HostEventMsg {
  hm_space_id : Z;
  hm_event : sanlk_host_event;
  hm_from_host_id : Z;
  hm_from_generation : Z
}.

Definition leader_bad (sp : lspace) (leader : leader_record) : bool :=
  negb (leader.(lr_magic) =? DELTA_DISK_MAGIC) ||
  negb (strncmp_eq NAME_ID_SIZE leader.(lr_space_name) sp.(sp_space_name)).

(** The body of the loop up to the bitmap: the status after it, and whether the
    lease changed. *)
Definition check_other_status (now : Z) (sp : lspace) (leader : leader_record) (hs : host_status)
    : host_status * bool :=
  let hs := hs <| hs_last_check := now |> in
  let hs := if hs.(hs_first_check) =? 0 then hs <| hs_first_check := now |> else hs in
  let hs :=
    if leader_bad sp leader then
      let b := u16 (hs.(hs_lease_bad) + 1) in
      hs <| hs_lease_bad := if b =? 0 then 1 else b |>
    else hs <| hs_lease_bad := 0 |> in
  let good := hs.(hs_lease_bad) =? 0 in
  let hs :=
    if good && (negb (strncmp_eq NAME_ID_SIZE hs.(hs_owner_name) leader.(lr_resource_name)) ||
                negb (hs.(hs_owner_generation) =? leader.(lr_owner_generation)))
    then hs <| hs_owner_name := strncpy NAME_ID_SIZE leader.(lr_resource_name) |> else hs in
  if (hs.(hs_owner_id) =? leader.(lr_owner_id)) &&
     (hs.(hs_owner_generation) =? leader.(lr_owner_generation)) &&
     (hs.(hs_timestamp) =? leader.(lr_timestamp))
  then (hs, false)
  else
    let hs :=
      if good then
        hs <| hs_owner_id := leader.(lr_owner_id) |>
           <| hs_owner_generation := leader.(lr_owner_generation) |>
           <| hs_owner_name := strncpy NAME_ID_SIZE leader.(lr_resource_name) |>
           <| hs_io_timeout := leader.(lr_io_timeout) |>
      else hs in
    (hs <| hs_timestamp := leader.(lr_timestamp) |> <| hs_last_live := now |>, true).

(** One host: its sector holds [leader] and [bitmap]. Returns its status, the
    event it sends us and whether it makes a request. *)
Definition check_other_lease (now : Z) (sp : lspace) (i : Z) (leader : leader_record) (bitmap : list Z)
    (hs : host_status) : host_status * list host_event_msg * bool :=
  let '(hs, changed) := check_other_status now sp leader hs in
  if negb changed then (hs, [], false)
  else if i + 1 =? sp.(sp_host_id) then (hs, [], false)
  else if negb (nz (test_id_bit sp.(sp_host_id) bitmap)) then (hs, [], false)
  else
    let he := HostEvent sp.(sp_host_id) leader.(lr_write_id) leader.(lr_write_generation)
                leader.(lr_write_timestamp) in
    let evs := if nz he.(he_event)
               then [HostEventMsg sp.(sp_space_id) he hs.(hs_owner_id) hs.(hs_owner_generation)]
               else [] in
    if u64 (now - hs.(hs_last_req)) <? sp.(sp_set_bitmap_seconds) then (hs, evs, false)
    else (hs <| hs_last_req := now |>, evs, true).

(** The sector of host index [i] in the area [buf]: its leader and its bitmap. *)
Definition sector_leader (sector_size i : Z) (buf : mem) : leader_record :=
  leader_record_in (mem_read buf (i * sector_size) sizeof_leader_record).
Definition sector_bitmap (sector_size i : Z) (buf : mem) : list Z :=
  mem_read buf (i * sector_size + HOSTID_BITMAP_OFFSET) HOSTID_BITMAP_SIZE.

Fixpoint check_other_loop (now : Z) (sp : lspace) (buf : mem) (i : Z) (l : list host_status)
    : list host_status * list host_event_msg * bool :=
  match l with
  | [] => ([], [], false)
  | hs :: l =>
      let '(hs, ev, req) := check_other_lease now sp i (sector_leader sp.(sp_sector_size) i buf)
                              (sector_bitmap sp.(sp_sector_size) i buf) hs in
      let '(l, evs, new) := check_other_loop now sp buf (i + 1) l in
      (hs :: l, ev ++ evs, req || new)
  end.

(** Returns the space, the events given to [add_host_event] in order, and whether
    [set_resource_examine] is called for the space. *)
Definition check_other_leases (now : Z) (sp : lspace) (buf : mem) : lspace * list host_event_msg * bool :=
  let n := Z.to_nat sp.(sp_max_hosts) in
  let '(l, evs, new) := check_other_loop now sp buf 0 (take n sp.(sp_host_status)) in
  (sp <| sp_host_status := l ++ drop n sp.(sp_host_status) |>, evs, new).

(** ** Our own renewals *)

(** Returns the code, [*check_all], the area to check ([None]: not copied, also
    when [check_buf] is NULL) and the space. *)
Definition check_our_lease (now : Z) (have_buf : bool) (sp : lspace) : Z * bool * option mem * lspace :=
  let s := sp.(sp_lease_status) in
  let last_success := s.(lst_renewal_last_success) in
  let corrupt := s.(lst_corrupt_result) in
  let check_all := s.(lst_renewal_read_check) <? s.(lst_renewal_read_count) in
  let buf := if check_all && have_buf then s.(lst_renewal_read_buf) else None in
  let sp := if check_all
            then sp <| sp_lease_status := s <| lst_renewal_read_check := s.(lst_renewal_read_count) |> |>
            else sp in
  let gap := i32 (u64 (now - last_success)) in
  let rv := if nz corrupt then -1
            else if calc_id_renewal_fail_seconds sp.(sp_io_timeout) <=? gap then -1
            else 0 in
  (rv, check_all, buf, sp).

(** ** What is reported *)

(** Differences of times are [uint64_t]; the intervals, of type [int], are
    converted to it. *)
Definition get_host_flag (com : command_line) (now : Z) (sp : lspace) (hs : host_status) : Z :=
  let fail := u64 (calc_id_renewal_fail_seconds hs.(hs_io_timeout)) in
  let dead := u64 (calc_host_dead_seconds com hs.(hs_io_timeout)) in
  if hs.(hs_timestamp) =? 0 then SANLK_HOST_FREE
  else
    let last := if hs.(hs_last_live) =? 0 then hs.(hs_first_check) else hs.(hs_last_live) in
    let age := u64 (now - last) in
    if sp.(sp_host_id) =? hs.(hs_owner_id) then SANLK_HOST_LIVE
    else if (age <=? fail) && (hs.(hs_first_check) =? hs.(hs_last_live)) then SANLK_HOST_UNKNOWN
    else if age <=? fail then SANLK_HOST_LIVE
    else if dead <? age then SANLK_HOST_DEAD
    else if fail <? age then SANLK_HOST_FAIL
    else 0.

Record sanlk_host := SanlkHost {
  sh_host_id : Z;
  sh_generation : Z;
  sh_timestamp : Z;
  sh_io_timeout : Z;
  sh_flags : Z
}.
Definition sizeof_sanlk_host : Z := 32.

(** [now i] is the result of the [monotime] of host index [i]. *)
Fixpoint get_hosts_loop (com : command_line) (now : Z -> Z) (sp : lspace) (ls_host_id maxlen i : Z)
    (l : list host_status) (acc : Z * Z * Z * list sanlk_host) : Z * Z * Z * list sanlk_host :=
  match l with
  | [] => acc
  | hs :: l =>
      let '(rv, len, count, out) := acc in
      get_hosts_loop com now sp ls_host_id maxlen (i + 1) l
        (if nz ls_host_id && negb (ls_host_id =? i + 1) then acc
         else if (ls_host_id =? 0) && (hs.(hs_timestamp) =? 0) then acc
         else if maxlen <? len + sizeof_sanlk_host then (- ENOSPC, len, count + 1, out)
         else (rv, len + sizeof_sanlk_host, count + 1,
               out ++ [SanlkHost (i + 1) hs.(hs_owner_generation) hs.(hs_timestamp) hs.(hs_io_timeout)
                         (get_host_flag com (now i) sp hs)]))
  end.

(** Returns the code, [*len], [*count] and the entries of [buf]. *)
Definition get_hosts (com : command_line) (now : Z -> Z) (ls : sanlk_lockspace) (maxlen : Z)
    (st : lockspaces) : Z * Z * Z * list sanlk_host :=
  match named_space st ls.(ls_name) with
  | None => (- ENOENT, 0, 0, [])
  | Some sp =>
      if (host_at 1 sp).(hs_last_check) =? 0 then (- EAGAIN, 0, 0, [])
      else get_hosts_loop com now sp ls.(ls_host_id) maxlen 0
             (take (Z.to_nat sp.(sp_max_hosts)) sp.(sp_host_status)) (0, 0, 0, [])
  end.

(** ** Events *)

(** Set the event of a space and mark its host, or all hosts. *)
Definition set_event_space (now : Z) (he : sanlk_host_event) (flags : Z) (sp : lspace) : lspace :=
  let sp := set_host he.(he_host_id) (fun hs => hs <| hs_set_bit_time := now |>)
              (sp <| sp_set_event_time := now |>) in
  let sp := sp <| sp_host_event := he |> in
  if has_flag flags SANLK_SETEV_ALL_HOSTS then
    let n := Z.to_nat sp.(sp_max_hosts) in
    sp <| sp_host_status := ((fun hs => hs <| hs_set_bit_time := now |>) <$> take n sp.(sp_host_status))
                            ++ drop n sp.(sp_host_status) |>
  else sp.

(** [he] is the event after the call too: [CUR_GENERATION] fills its generation
    in. *)
Definition lockspace_set_event (now : Z) (ls : sanlk_lockspace) (he : sanlk_host_event) (flags : Z)
    (st : lockspaces) : Z * lockspaces :=
  if (nth 0 ls.(ls_name) 0 =? 0) || (he.(he_host_id) =? 0) || (DEFAULT_MAX_HOSTS <? he.(he_host_id))
  then (- EINVAL, st)
  else match named_space st ls.(ls_name) with
  | None => (- ENOENT, st)
  | Some sp =>
      if u64 sp.(sp_max_hosts) <? he.(he_host_id) then (- EINVAL, st)
      else
        let he := if (he.(he_generation) =? 0) && has_flag flags SANLK_SETEV_CUR_GENERATION
                  then he <| he_generation := (host_at he.(he_host_id) sp).(hs_owner_generation) |> else he in
        let set f := update_space sp.(sp_list) f st in
        let set_event := set_event_space now he flags in
        if has_flag flags SANLK_SETEV_CLEAR_EVENT then
          (0, set (fun sp => sp <| sp_host_event := HostEvent 0 0 0 0 |> <| sp_set_event_time := now |>))
        else if has_flag flags SANLK_SETEV_CLEAR_HOSTID then
          (0, set (set_host he.(he_host_id) (fun hs => hs <| hs_set_bit_time := 0 |>)))
        else if has_flag flags SANLK_SETEV_REPLACE_EVENT then (0, set set_event)
        else if (u64 (now - sp.(sp_set_event_time)) <? sp.(sp_set_bitmap_seconds)) &&
                nz sp.(sp_host_event).(he_event) && nz he.(he_event) &&
                negb (sp.(sp_host_event).(he_event) =? he.(he_event))
        then (- EBUSY, st)
        else (0, set set_event)
  end.

(** What [recv] of an event descriptor gives: nothing yet, or a result with the
    value received. *)
Inductive event_recv := RecvAgain | Recv (rv end_value : Z).

(** The loop over the descriptors: those left and the number closed. *)
Fixpoint clean_event_fds_loop (rx : Z -> event_recv) (fds : list Z) : list Z * Z :=
  match fds with
  | [] => ([], 0)
  | fd :: fds =>
      let '(rest, count) := clean_event_fds_loop rx fds in
      if fd =? -1 then (fd :: rest, count)
      else match rx fd with
      | RecvAgain => (fd :: rest, count)
      | Recv rv end_value =>
          if (rv =? 4) && negb (end_value =? 1) then (fd :: rest, count)
          else (-1 :: rest, count + 1)
      end
  end.

Definition _clean_event_fds (rx : Z -> event_recv) (sp : lspace) : Z * lspace :=
  let '(fds, count) := clean_event_fds_loop rx sp.(sp_event_fds) in
  (count, sp <| sp_event_fds := fds |>).

Definition close_event_fds (sp : lspace) : lspace :=
  sp <| sp_event_fds := (fun _ => -1) <$> sp.(sp_event_fds) |>.

Definition lockspace_end_event (rx : Z -> event_recv) (ls : sanlk_lockspace) (st : lockspaces)
    : Z * lockspaces :=
  if nth 0 ls.(ls_name) 0 =? 0 then (- EINVAL, st)
  else match named_space st ls.(ls_name) with
  | None => (- ENOENT, st)
  | Some sp => (0, update_space sp.(sp_list) (fun sp => snd (_clean_event_fds rx sp)) st)
  end.

(** Store [dup_fd], the result of [dup], in the first free entry; the value of
    [new_fd] after the loop. *)
Fixpoint reg_event_loop (dup_fd : Z) (fds : list Z) : Z * list Z :=
  match fds with
  | [] => (-1, [])
  | fd :: fds =>
      if fd =? -1 then (dup_fd, dup_fd :: fds)
      else let '(new_fd, rest) := reg_event_loop dup_fd fds in (new_fd, fd :: rest)
  end.

(** One pass from [retry:]. *)
Definition reg_event_once (dup_fd : Z) (sp : lspace) : Z * lspace :=
  let '(new_fd, fds) := reg_event_loop dup_fd sp.(sp_event_fds) in
  (new_fd, sp <| sp_event_fds := fds |>).

(** The work on the space that was found; [dup1] and [dup2] are the results of
    [dup] on the two passes. *)
Definition reg_event_space (dup1 dup2 : Z) (rx : Z -> event_recv) (sp : lspace) : Z * lspace :=
  let '(new_fd, sp) := reg_event_once dup1 sp in
  if 0 <=? new_fd then (0, sp)
  else
    let '(cleaned, sp) := _clean_event_fds rx sp in
    if cleaned =? 0 then (- ENOCSI, sp)
    else
      let '(new_fd, sp) := reg_event_once dup2 sp in
      if 0 <=? new_fd then (0, sp) else (- ENOCSI, sp).

Definition lockspace_reg_event (dup1 dup2 : Z) (rx : Z -> event_recv) (ls : sanlk_lockspace)
    (st : lockspaces) : Z * lockspaces :=
  if nth 0 ls.(ls_name) 0 =? 0 then (- EINVAL, st)
  else match named_space st ls.(ls_name) with
  | None => (- ENOENT, st)
  | Some sp =>
      (fst (reg_event_space dup1 dup2 rx sp),
       update_space sp.(sp_list) (fun sp => snd (reg_event_space dup1 dup2 rx sp)) st)
  end.

(** [send_rv fd] is the final result of [send] after the retries on EINTR. The
    value returned is that of the last send. *)
Fixpoint send_event_loop (send_rv : Z -> Z) (fds : list Z) (rv : Z) : Z * list Z :=
  match fds with
  | [] => (rv, [])
  | fd :: fds =>
      if fd =? -1 then let '(rv, rest) := send_event_loop send_rv fds rv in (rv, fd :: rest)
      else
        let r := send_rv fd in
        let '(rv, rest) := send_event_loop send_rv fds r in
        (rv, (if r <? 0 then -1 else fd) :: rest)
  end.

Definition send_event_callbacks (send_rv : Z -> Z) (space_id : Z) (st : lockspaces) : Z * lockspaces :=
  match find_lockspace_id st space_id with
  | None => (- ENOSPC, st)
  | Some sp =>
      let '(rv, fds) := send_event_loop send_rv sp.(sp_event_fds) 0 in
      (rv, update_space sp.(sp_list) (fun sp => sp <| sp_event_fds := fds |>) st)
  end.

(** ** Lemmas *)

(** A difference of two times, in order and of 64 bits, does not wrap. *)
Lemma u64_diff a b : 0 <= a <= b -> b < 2 ^ 64 -> u64 (b - a) = b - a.
Proof. intros H1 H2. apply wrapu_small. unfold is_u. lia. Qed.

(** The checks of a host: each has the time and the area read. *)
Abbreviation check := (Z * mem)%type.

Definition check_once (sp : lspace) (c : check) : lspace := fst (fst (check_other_leases (fst c) sp (snd c))).

(** The space after a sequence of checks. *)
Definition watch (sp : lspace) (cs : list check) : lspace := fold_left check_once cs sp.

Definition check_host (sp : lspace) (i : Z) (hs : host_status) (c : check) : host_status :=
  fst (fst (check_other_lease (fst c) sp i (sector_leader sp.(sp_sector_size) i (snd c))
              (sector_bitmap sp.(sp_sector_size) i (snd c)) hs)).

(** What the checks read [sp] for, besides the status of the hosts. *)
Definition same_space (sp sp' : lspace) : Prop := exists l, sp' = sp <| sp_host_status := l |>.

Lemma check_other_loop_cons now sp buf i hs l :
  fst (fst (check_other_loop now sp buf i (hs :: l))) =
  check_host sp i hs (now, buf) :: fst (fst (check_other_loop now sp buf (i + 1) l)).
Proof.
  cbn [check_other_loop]. unfold check_host. cbn [fst snd].
  destruct (check_other_lease _ _ _ _ _ _) as [[hs' ev] req].
  by destruct (check_other_loop _ _ _ _ _) as [[l' evs] new].
Qed.

Lemma check_other_loop_nth now sp buf l i k :
  (k < length l)%nat ->
  nth k (fst (fst (check_other_loop now sp buf i l))) host_status_zero =
  check_host sp (i + Z.of_nat k) (nth k l host_status_zero) (now, buf).
Proof.
  revert i k. induction l as [|hs l IH]; intros i k Hk; [simpl in Hk; lia|].
  rw check_other_loop_cons. destruct k as [|k]; cbn [nth].
  - by replace (i + Z.of_nat 0) with i by lia.
  - rw IH; [simpl in Hk; lia|]. by replace (i + 1 + Z.of_nat k) with (i + Z.of_nat (S k)) by lia.
Qed.

Lemma length_check_other_loop now sp buf l i :
  length (fst (fst (check_other_loop now sp buf i l))) = length l.
Proof.
  revert i. induction l as [|hs l IH]; intros i; [done|]. rw check_other_loop_cons. cbn [length]. by rw IH.
Qed.

Lemma check_once_status sp c :
  check_once sp c =
  sp <| sp_host_status :=
    fst (fst (check_other_loop (fst c) sp (snd c) 0 (take (Z.to_nat sp.(sp_max_hosts)) sp.(sp_host_status))))
    ++ drop (Z.to_nat sp.(sp_max_hosts)) sp.(sp_host_status) |>.
Proof.
  unfold check_once, check_other_leases.
  by destruct (check_other_loop _ _ _ _ _) as [[l evs] new].
Qed.

Lemma check_once_same sp c : same_space sp (check_once sp c).
Proof. rw check_once_status. by eexists. Qed.

Lemma check_host_same sp sp' i hs c : same_space sp sp' -> check_host sp' i hs c = check_host sp i hs c.
Proof.
  intros [l ->]. unfold check_host, check_other_lease, check_other_status, leader_bad.
  cbn [set_field sp_space_name sp_delta sp_host_id sp_space_id sp_set_bitmap_seconds]. reflexivity.
Qed.

Lemma same_space_trans sp sp' sp'' : same_space sp sp' -> same_space sp' sp'' -> same_space sp sp''.
Proof. intros [l ->] [l' ->]. by exists l'. Qed.

Lemma check_once_host sp c k :
  (k < Z.to_nat sp.(sp_max_hosts))%nat -> (Z.to_nat sp.(sp_max_hosts) <= length sp.(sp_host_status))%nat ->
  host_at (Z.of_nat k + 1) (check_once sp c) = check_host sp (Z.of_nat k) (host_at (Z.of_nat k + 1) sp) c.
Proof.
  intros Hk Hl. rw check_once_status. unfold host_at. cbn [sp_host_status set_field].
  replace (Z.to_nat (Z.of_nat k + 1 - 1)) with k by lia.
  set (n := Z.to_nat sp.(sp_max_hosts)) in *.
  rw app_nth1; [rw length_check_other_loop length_take; lia|].
  rw check_other_loop_nth; [rw length_take; lia|]. rw Z.add_0_l. destruct c as [now buf]. cbn [fst snd].
  apply (f_equal (fun hs => check_host sp _ hs _)). rw -{2}(take_drop n sp.(sp_host_status)) app_nth1; [rw length_take; lia|done].
Qed.

Lemma fold_check_same sp sp' i cs hs :
  same_space sp sp' -> fold_left (check_host sp' i) cs hs = fold_left (check_host sp i) cs hs.
Proof.
  intros Hs. revert hs. induction cs as [|c cs IH]; intros hs; [reflexivity|].
  rw !fold_left_cons. etrans; [apply IH|]. apply (f_equal (fold_left _ cs)), (check_host_same _ _ _ _ _ Hs).
Qed.

Lemma check_once_length sp c : length (check_once sp c).(sp_host_status) = length sp.(sp_host_status).
Proof.
  rw check_once_status. cbn [sp_host_status set_field].
  rw length_app length_check_other_loop length_take length_drop. lia.
Qed.

Lemma watch_host sp cs k :
  (k < Z.to_nat sp.(sp_max_hosts))%nat -> (Z.to_nat sp.(sp_max_hosts) <= length sp.(sp_host_status))%nat ->
  host_at (Z.of_nat k + 1) (watch sp cs) =
  fold_left (check_host sp (Z.of_nat k)) cs (host_at (Z.of_nat k + 1) sp).
Proof.
  unfold watch. revert sp. induction cs as [|c cs IH]; intros sp Hk Hl; [reflexivity|].
  rw !fold_left_cons. pose proof (check_once_same sp c) as Hs.
  assert (Hm : sp_max_hosts (check_once sp c) = sp.(sp_max_hosts)) by (by destruct Hs as [? ->]).
  etrans; [apply IH; [by rw Hm|by rw Hm check_once_length]|].
  etrans; [by apply fold_check_same|].
  apply (f_equal (fold_left _ cs)), check_once_host; done.
Qed.

Lemma watch_same sp cs : same_space sp (watch sp cs).
Proof.
  unfold watch. revert sp. induction cs as [|c cs IH]; intros sp.
  { exists sp.(sp_host_status). by destruct sp. }
  rw fold_left_cons. eapply same_space_trans; [apply check_once_same|apply IH].
Qed.

(** *** What a status says of the checks *)

(** The part of a lease that is compared between checks. *)
Definition lease_key (l : leader_record) : Z * Z * Z :=
  (l.(lr_owner_id), l.(lr_owner_generation), l.(lr_timestamp)).
Definition status_key (hs : host_status) : Z * Z * Z :=
  (hs.(hs_owner_id), hs.(hs_owner_generation), hs.(hs_timestamp)).

Lemma check_other_lease_status now sp i l bitmap hs :
  exists r, fst (fst (check_other_lease now sp i l bitmap hs)) =
    (fst (check_other_status now sp l hs)) <| hs_last_req := r |>.
Proof.
  unfold check_other_lease. destruct (check_other_status now sp l hs) as [hs' changed]. cbn [fst].
  assert (Hid : hs' = hs' <| hs_last_req := hs'.(hs_last_req) |>) by (by destruct hs').
  cases; cbn [fst]; eauto.
Qed.

Lemma check_other_status_spec now sp l hs :
  let hs' := fst (check_other_status now sp l hs) in
  let changed := snd (check_other_status now sp l hs) in
  hs'.(hs_first_check) = (if hs.(hs_first_check) =? 0 then now else hs.(hs_first_check)) /\
  hs'.(hs_last_req) = hs.(hs_last_req) /\
  ((changed = false /\ status_key hs = lease_key l /\ status_key hs' = status_key hs /\
    hs'.(hs_last_live) = hs.(hs_last_live)) \/
   (changed = true /\ status_key hs <> lease_key l /\ hs'.(hs_timestamp) = l.(lr_timestamp) /\
    hs'.(hs_last_live) = now /\
    (leader_bad sp l = false -> status_key hs' = lease_key l))).
Proof.
  unfold check_other_status. cbv zeta.
  set (hs1 := hs <| hs_last_check := now |>).
  set (hs2 := if hs1.(hs_first_check) =? 0 then hs1 <| hs_first_check := now |> else hs1).
  set (hs3 := if leader_bad sp l then _ else _).
  set (hs4 := if _ && _ then _ else hs3).
  assert (H4 : hs4.(hs_first_check) = (if hs.(hs_first_check) =? 0 then now else hs.(hs_first_check)) /\
    status_key hs4 = status_key hs /\ hs4.(hs_last_live) = hs.(hs_last_live) /\
    hs4.(hs_last_req) = hs.(hs_last_req)).
  { unfold hs4, hs3, hs2, hs1. cbn [hs_first_check set_field]. by cases. }
  destruct H4 as (Hf & Hk & Hll & Hr).
  assert (Hb : leader_bad sp l = false -> (hs3.(hs_lease_bad) =? 0) = true).
  { intros Hb. unfold hs3. by rw Hb. }
  clearbody hs4 hs3. clear hs1 hs2. rw -Hk -Hll -Hf -Hr. clear Hk Hll Hf Hr.
  destruct (_ && _) eqn:E; cbn [fst snd]; (split; [by cases|]); (split; [by cases|]); [left|right].
  - split; [done|]. zbool. unfold status_key, lease_key. split; [congruence|done].
  - split; [done|]. split; [|split; [done|split; [done|]]].
    { unfold status_key, lease_key. intros [= E1 E2 E3]. by rw E1 E2 E3 !Z.eqb_refl in E. }
    intros Hok. rw (Hb Hok). done.
Qed.

(** The checks of host index [i], as the leases they saw. *)
Definition seen_at (sp : lspace) (i : Z) (c : check) : Z * leader_record :=
  (fst c, sector_leader sp.(sp_sector_size) i (snd c)).

(** [hs] is the status of a host after the checks [log]: the time of the first
    one, and the time from which on the same timestamp was seen. *)
Definition tracked (sp : lspace) (log : list (Z * leader_record)) (hs : host_status) : Prop :=
  hs.(hs_first_check) = match log with [] => 0 | c :: _ => fst c end /\
  ((hs.(hs_last_live) = 0 /\ status_key hs = (0, 0, 0)) \/
   exists pre c suf, log = pre ++ c :: suf /\ hs.(hs_last_live) = fst c /\
     Forall (fun c => (snd c).(lr_timestamp) = hs.(hs_timestamp)) (c :: suf) /\
     forall pre' p, pre = pre' ++ [p] -> Forall (fun c => leader_bad sp (snd c) = false) log ->
       lease_key (snd p) <> lease_key (snd c)) /\
  (Forall (fun c => leader_bad sp (snd c) = false) log ->
   status_key hs = match list.last log with Some c => lease_key (snd c) | None => (0, 0, 0) end).

Lemma tracked_check sp i log hs c :
  Forall (fun c => fst c <> 0) log -> fst c <> 0 -> tracked sp log hs ->
  tracked sp (log ++ [seen_at sp i c]) (check_host sp i hs c).
Proof.
  intros Hlog Hc (Hf & Hl & Hg). unfold check_host, seen_at.
  set (l := sector_leader _ _ _). set (bm := sector_bitmap _ _ _). clearbody l bm.
  destruct (check_other_lease_status (fst c) sp i l bm hs) as [r ->].
  destruct (check_other_status_spec (fst c) sp l hs) as (Hf' & _ & Hcase).
  set (hs' := fst (check_other_status _ _ _ _)) in *. clearbody hs'.
  unfold tracked. cbn [hs_first_check hs_last_live hs_timestamp set_field].
  change (status_key (hs' <| hs_last_req := r |>)) with (status_key hs'). split; [|split].
  - rw Hf' Hf. destruct log as [|c0 log]; [done|]. apply list.Forall_cons in Hlog as [H0 _].
    cbn [app]. by apply Z.eqb_neq in H0 as ->.
  - destruct Hcase as [(_ & Ek & Ek' & ->)|(_ & Hne & Ht & -> & _)].
    + rw Ek'. destruct Hl as [[-> ->]|(pre & p & suf & -> & Hll & Hs & Hp)]; [by left|right].
      exists pre, p, (suf ++ [(fst c, l)]). rw -app_assoc. split; [done|]. split; [done|].
      assert (hs_timestamp hs' = hs_timestamp hs) as -> by (unfold status_key in Ek'; congruence). split.
      * rw app_comm_cons. apply Forall_app. split; [done|]. apply Forall_singleton. cbn [snd].
        unfold status_key, lease_key in Ek. congruence.
      * intros pre' p' E Hgood. apply Hp with pre'; [done|].
        apply Forall_app in Hgood as [H1 H2]. apply Forall_app. split; [done|].
        by apply Forall_app in H2 as [? _].
    + right. exists log, (fst c, l), []. split; [done|]. split; [done|]. split.
      * apply Forall_singleton. by cbn [snd].
      * intros pre' p -> [Hgood _]%Forall_app. cbn [snd]. rw (Hg Hgood) in Hne. by rw last_snoc in Hne.
  - intros [Hgood Hcg]%Forall_app. rw last_snoc. cbn [snd].
    destruct Hcase as [(_ & Ek & -> & _)|(_ & _ & _ & _ & Hk)]; [done|]. apply Hk.
    by apply list.Forall_cons in Hcg as [? _].
Qed.

Lemma tracked_watch sp i cs log hs :
  Forall (fun c => fst c <> 0) log -> Forall (fun c => fst c <> 0) cs -> tracked sp log hs ->
  tracked sp (log ++ (seen_at sp i <$> cs)) (fold_left (check_host sp i) cs hs).
Proof.
  revert log hs. induction cs as [|c cs IH]; intros log hs Hlog Hcs Ht.
  { rw fold_left_nil. by rw app_nil_r. }
  apply list.Forall_cons in Hcs as [Hc Hcs]. rw fold_left_cons fmap_cons.
  rw (cons_middle (seen_at sp i c)) app_assoc. apply IH; [|done|by apply tracked_check].
  apply Forall_app. split; [done|by apply Forall_singleton].
Qed.

(** The intervals of an io timeout of 16 bits, as the comparisons see them. *)
Lemma host_intervals com io :
  is_u 16 io -> 0 <= com.(com_watchdog_fire_timeout) < 2 ^ 30 ->
  u64 (calc_id_renewal_fail_seconds io) = 8 * io /\
  u64 (calc_host_dead_seconds com io) = 8 * io + com.(com_watchdog_fire_timeout).
Proof.
  unfold is_u, calc_id_renewal_fail_seconds, calc_host_dead_seconds. intros Hio Hw.
  rw !i32_small; [lia..|]. split; apply wrapu_small; unfold is_u; lia.
Qed.

(** ** Properties *)

(** C18: The status reported of another host is what the checks of its delta
    lease show. Starting from a zero status, after any sequence of checks at
    times that are not 0 and not in the future, a host whose owner id is not our
    own is reported DEAD only when every check since one more than
    [calc_host_dead_seconds] ago has seen the same timestamp in its lease, and
    LIVE only when its status last changed at a check, not the first, at most
    [calc_id_renewal_fail_seconds] ago; and if all the leases read carry the
    magic number and the name of the lockspace, the lease of that check differs
    from the one of the check before it (a lease with bad fields can be taken
    for changed at every check). The intervals are those of the io timeout in
    the status of the host, of 16 bits; the host is within the arrays of the
    lockspace, the watchdog fire timeout below 2^30 and the clock below 2^64. *)
Theorem host_flag_sound com sp cs k now :
  (k < Z.to_nat sp.(sp_max_hosts))%nat -> (Z.to_nat sp.(sp_max_hosts) <= length sp.(sp_host_status))%nat ->
  host_at (Z.of_nat k + 1) sp = host_status_zero ->
  Forall (fun c => 0 < fst c <= now) cs -> now < 2 ^ 64 ->
  0 <= com.(com_watchdog_fire_timeout) < 2 ^ 30 ->
  let sp' := watch sp cs in
  let hs := host_at (Z.of_nat k + 1) sp' in
  let log := seen_at sp (Z.of_nat k) <$> cs in
  is_u 16 hs.(hs_io_timeout) -> sp.(sp_host_id) <> hs.(hs_owner_id) ->
  (get_host_flag com now sp' hs = SANLK_HOST_DEAD ->
   exists pre c suf, log = pre ++ c :: suf /\
     Forall (fun c => (snd c).(lr_timestamp) = hs.(hs_timestamp)) (c :: suf) /\
     calc_host_dead_seconds com hs.(hs_io_timeout) < now - fst c) /\
  (get_host_flag com now sp' hs = SANLK_HOST_LIVE ->
   exists pre p c suf, log = pre ++ p :: c :: suf /\
     now - fst c <= calc_id_renewal_fail_seconds hs.(hs_io_timeout) /\
     (Forall (fun c => leader_bad sp (snd c) = false) log -> lease_key (snd p) <> lease_key (snd c))).
Proof.
  intros Hk Hl H0 Hcs Hnow Hw sp' hs log Hio Hown.
  assert (Ht : tracked sp log hs).
  { unfold hs, sp'. rw watch_host // H0. apply (tracked_watch sp (Z.of_nat k) cs []); [done| |].
    - eapply list.Forall_impl; [exact Hcs|]. cbn. intros ? ?. lia.
    - split; [done|]. split; [by left|done]. }
  assert (Hid : sp_host_id sp' = sp.(sp_host_id)) by (unfold sp'; by destruct (watch_same sp cs) as [? ->]).
  assert (Hlog : Forall (fun c => 0 < fst c <= now) log) by (by apply Forall_fmap).
  clearbody sp' hs log. clear cs Hcs H0.
  destruct (host_intervals com _ Hio Hw) as [Ef Ed]. unfold get_host_flag. rw Ef Ed Hid. clear Ef Ed.
  apply Z.eqb_neq in Hown as ->. destruct Ht as (Hf & [[H0 Hz]|(pre & c & suf & -> & Hll & Hs & Hp)] & _).
  { unfold status_key in Hz. assert (hs_timestamp hs = 0) as -> by congruence. done. }
  assert (Hc : 0 < fst c <= now) by (apply Forall_app in Hlog as [_ Hlog]; by apply list.Forall_cons in Hlog as [? _]).
  rw Hll. destruct (Z.eqb_spec (fst c) 0) as [?|_]; [lia|].
  rw u64_diff; [lia..|]. unfold calc_host_dead_seconds, calc_id_renewal_fail_seconds, is_u in *.
  rw !i32_small; [lia..|]. split.
  - intros E. exists pre, c, suf. do 2 (split; [done|]). revert E. cases; zbool; done || lia.
  - intros E. destruct (decide (pre = [])) as [->|Hpre].
    { cbn [app] in Hf. rw Hf Z.eqb_refl andb_true_r in E. revert E. by cases. }
    destruct (exists_last Hpre) as (pre' & p & ->). exists pre', p, c, suf. rw -app_assoc. split; [done|].
    split; [revert E; cases; zbool; try done; lia|]. intros Hgood. apply (Hp pre' p eq_refl). by rw -app_assoc.
Qed.

(** a lease whose magic number or lockspace name is bad counts as renewed at
    every check as long as its owner id or generation is not the one last seen
    of a good lease, although nothing in it changes: the host stays LIVE. *)
Theorem bad_lease_stays_live com now sp l hs :
  leader_bad sp l = true ->
  (hs.(hs_owner_id), hs.(hs_owner_generation)) <> (l.(lr_owner_id), l.(lr_owner_generation)) ->
  let hs' := fst (check_other_status now sp l hs) in
  hs'.(hs_last_live) = now /\
  (hs'.(hs_owner_id), hs'.(hs_owner_generation)) = (hs.(hs_owner_id), hs.(hs_owner_generation)) /\
  (is_u 64 now -> 0 < now -> 0 < hs.(hs_first_check) < now -> is_u 16 hs.(hs_io_timeout) ->
   sp.(sp_host_id) <> hs.(hs_owner_id) -> l.(lr_timestamp) <> 0 ->
   0 <= com.(com_watchdog_fire_timeout) < 2 ^ 30 ->
   get_host_flag com now sp hs' = SANLK_HOST_LIVE).
Proof.
  intros Hb Hk.
  assert (Hs : let hs' := fst (check_other_status now sp l hs) in
    hs'.(hs_first_check) = (if hs.(hs_first_check) =? 0 then now else hs.(hs_first_check)) /\
    hs'.(hs_last_live) = now /\ hs'.(hs_timestamp) = l.(lr_timestamp) /\ hs'.(hs_io_timeout) = hs.(hs_io_timeout) /\
    (hs'.(hs_owner_id), hs'.(hs_owner_generation)) = (hs.(hs_owner_id), hs.(hs_owner_generation))).
  { unfold check_other_status. rw Hb. cbv zeta.
    set (b := if u16 _ =? 0 then 1 else u16 _). assert (b <> 0) by (unfold b; cases; zbool; lia). clearbody b.
    set (hs3 := set_field hs_lease_bad _ _). assert ((hs3.(hs_lease_bad) =? 0) = false) as -> by (by apply Z.eqb_neq).
    cbn [andb]. set (same := _ && _). assert (same = false) as ->.
    { unfold same, hs3. cases; cbn [hs_owner_id hs_owner_generation set_field]; apply not_true_is_false; intros ?;
        zbool; apply Hk; congruence. }
    unfold hs3. cbn [fst hs_first_check set_field]. by cases. }
  revert Hs. cbv zeta. set (hs' := fst _). clearbody hs'. intros (Hf & Hll & Ht & Hio & Ho).
  split; [done|]. split; [done|]. intros Hn Hn0 Hf0 Hi Hid Hts Hw.
  destruct (host_intervals com _ Hi Hw) as [Ef Ed]. unfold get_host_flag. rw Hio Ef Ed Ht Hll Hf.
  injection Ho as -> _. unfold is_u in *.
  assert ((hs_first_check hs =? 0) = false) as -> by (apply Z.eqb_neq; lia).
  assert ((hs_first_check hs =? now) = false) as -> by (apply Z.eqb_neq; lia).
  apply Z.eqb_neq in Hid as ->. apply Z.eqb_neq in Hts as ->. rw andb_false_r.
  destruct (Z.eqb_spec now 0); [lia|]. replace (now - now) with 0 by lia. change (u64 0) with 0.
  destruct (Z.leb_spec 0 (8 * hs_io_timeout hs)); [done|lia].
Qed.

(** ** Notifying other hosts *)

(** The bit of [host_id] is to be set in the bitmap of [sp] at time [now]. *)
Definition marked (sp : lspace) (now host_id : Z) (hs : host_status) : bool :=
  negb (host_id =? sp.(sp_host_id)) && nz hs.(hs_set_bit_time) &&
  (u64 (now - hs.(hs_set_bit_time)) <=? sp.(sp_set_bitmap_seconds)).

Lemma bitmap_loop_spec sp now h l i bitmap :
  0 <= i -> i + Z.of_nat (length l) <= Z.of_nat HOSTID_BITMAP_SIZE * 8 -> 1 <= h ->
  length bitmap = HOSTID_BITMAP_SIZE -> bytes_ok bitmap ->
  let b := snd (bitmap_loop sp now i l bitmap) in
  length b = HOSTID_BITMAP_SIZE /\ bytes_ok b /\
  nz (test_id_bit h b) = nz (test_id_bit h bitmap) ||
    match l !! Z.to_nat (h - 1 - i) with Some hs => (i <? h) && marked sp now h hs | None => false end.
Proof.
  revert i bitmap. induction l as [|hs l IH]; intros i bitmap Hi Hn Hh Hl Hb; cbn [bitmap_loop].
  { by rw lookup_nil orb_false_r. }
  cbn [length] in Hn. rw Nat2Z.inj_succ in Hn.
  assert (Hrest : forall bm m, length bm = HOSTID_BITMAP_SIZE -> bytes_ok bm ->
    nz (test_id_bit h bm) = nz (test_id_bit h bitmap) || ((h =? i + 1) && m) ->
    (h = i + 1 -> m = marked sp now h hs) ->
    let b := snd (bitmap_loop sp now (i + 1) l bm) in
    length b = HOSTID_BITMAP_SIZE /\ bytes_ok b /\
    nz (test_id_bit h b) = nz (test_id_bit h bitmap) ||
      match (hs :: l) !! Z.to_nat (h - 1 - i) with Some hs => (i <? h) && marked sp now h hs | None => false end).
  { intros bm m Hlbm Hbm Ht Hm. destruct (IH (i + 1) bm) as (H1 & H2 & H3); [lia..|done|done|].
    do 2 (split; [done|]). rw H3 Ht -orb_assoc. f_equal.
    destruct (Z.eqb_spec h (i + 1)) as [->|Hne]; cbn [andb orb].
    - replace (i + 1 - 1 - i) with 0 by lia. cbn. rw Z.ltb_irrefl (Hm eq_refl).
      assert ((i <? i + 1) = true) as -> by lia. cbn [andb]. destruct (l !! _); by rw orb_false_r.
    - destruct (Z.ltb_spec i h) as [Hlt|Hge].
      + replace (Z.to_nat (h - 1 - i)) with (S (Z.to_nat (h - 1 - (i + 1)))) by lia. cbn.
        assert ((i + 1 <? h) = true) as -> by lia. done.
      + assert ((i + 1 <? h) = false) as -> by lia. cbn [andb]. by destruct (l !! _), ((hs :: l) !! _). }
  destruct ((i + 1 =? sp.(sp_host_id)) || (hs.(hs_set_bit_time) =? 0)) eqn:E1;
    [|destruct (sp.(sp_set_bitmap_seconds) <? u64 (now - hs.(hs_set_bit_time))) eqn:E2].
  - specialize (Hrest bitmap false Hl Hb). destruct (bitmap_loop _ _ _ _ _) as [l' b']. cbn [snd] in *.
    apply Hrest; [by rw andb_false_r orb_false_r|]. intros ->. unfold marked, nz.
    apply orb_true_iff in E1 as [->| ->]; cbn [negb andb]; [done|]. by rw andb_false_r.
  - specialize (Hrest bitmap false Hl Hb). destruct (bitmap_loop _ _ _ _ _) as [l' b']. cbn [snd] in *.
    apply Hrest; [by rw andb_false_r orb_false_r|]. intros ->. unfold marked. zbool.
    assert ((u64 (now - hs_set_bit_time hs) <=? sp_set_bitmap_seconds sp) = false) as -> by lia. by rw andb_false_r.
  - destruct (set_id_bit_spec (i + 1) h bitmap) as (H1 & H2 & H3); [lia..|done|done|].
    specialize (Hrest _ true H1 H2). destruct (bitmap_loop _ _ _ _ _) as [l' b']. cbn [snd] in *.
    apply Hrest; [by rw H3 andb_true_r orb_comm|]. intros ->. unfold marked, nz. zbool.
    assert ((i + 1 =? sp_host_id sp) = false) as -> by (by apply Z.eqb_neq).
    assert ((hs_set_bit_time hs =? 0) = false) as -> by (by apply Z.eqb_neq).
    assert ((u64 (now - hs_set_bit_time hs) <=? sp_set_bitmap_seconds sp) = true) as -> by lia. done.
Qed.

(** The sector a renewal writes: the record and the bitmap ([renew_write]). *)
Definition renewal_image (leader : leader_record) (bitmap : list Z) : mem :=
  mem_write (mem_of (leader_image leader lr_end0)) LEADER_RECORD_MAX (Z.of_nat (length bitmap)) (mem_of bitmap).

Lemma sector_of_renewal ss i buf leader bitmap :
  leader_record_ok leader -> length bitmap = HOSTID_BITMAP_SIZE ->
  (forall k, 0 <= k < 512 -> buf (i * ss + k) = renewal_image leader bitmap k) ->
  sector_leader ss i buf = lr_with_checksum (leader_sum leader lr_end0) leader /\
  sector_bitmap ss i buf = bitmap.
Proof.
  intros Hok Hl Hbuf. unfold sector_leader, sector_bitmap, HOSTID_BITMAP_OFFSET, renewal_image, LEADER_RECORD_MAX in *.
  assert (Hs : Z.of_nat sizeof_leader_record = 200) by done.
  assert (Hb : Z.of_nat HOSTID_BITMAP_SIZE = 256) by done. split.
  - assert (mem_read buf (i * ss) sizeof_leader_record = leader_image leader lr_end0) as ->.
    { rw -{1}(mem_read_of (leader_image leader lr_end0)) length_leader_image //.
      rw -(mem_read_write_disjoint _ 256 (Z.of_nat (length bitmap)) (mem_of bitmap) sizeof_leader_record 0); [left; lia|].
      apply mem_read_ext. intros k Hk. rw Z.add_0_l. apply Hbuf. lia. }
    destruct (leader_image_in leader lr_end0 [] Hok) as [H _]; [done|apply zeros_ok|]. by rw app_nil_r in H.
  - rw -{1}(mem_read_of bitmap) Hl. change 0 with (256 - 256).
    rw -(mem_read_write (mem_of (leader_image leader lr_end0)) 256 256); [lia..|].
    apply mem_read_ext. intros k Hk. rw -Z.add_assoc Hbuf; [lia|]. by rw Hl.
Qed.

(** The hosts marked in the bitmap of [sp]. *)
Definition marks (sp : lspace) (now h : Z) : bool :=
  (h <=? sp.(sp_max_hosts)) && marked sp now h (host_at h sp).

Lemma create_bitmap_marks sp now h :
  1 <= h -> 0 <= sp.(sp_max_hosts) <= DEFAULT_MAX_HOSTS -> length sp.(sp_host_status) = Z.to_nat DEFAULT_MAX_HOSTS ->
  let b := fst (fst (create_bitmap_and_extra now (zeros HOSTID_BITMAP_SIZE) sp)) in
  length b = HOSTID_BITMAP_SIZE /\ bytes_ok b /\ nz (test_id_bit h b) = marks sp now h.
Proof.
  unfold create_bitmap_and_extra, DEFAULT_MAX_HOSTS. intros Hh Hm Hl. cbv zeta.
  set (n := Z.to_nat sp.(sp_max_hosts)). assert (Hlen : length (take n sp.(sp_host_status)) = n).
  { rw length_take Hl. lia. }
  destruct (bitmap_loop_spec sp now h (take n sp.(sp_host_status)) 0 (zeros HOSTID_BITMAP_SIZE))
    as (H1 & H2 & H3); [lia|rw Hlen; unfold HOSTID_BITMAP_SIZE; lia|done|by vm_compute|apply zeros_ok|].
  destruct (bitmap_loop _ _ _ _ _) as [l b]. cbn [fst snd] in *. do 2 (split; [done|]). rw H3.
  assert (nz (test_id_bit h (zeros HOSTID_BITMAP_SIZE)) = false) as ->.
  { unfold test_id_bit, zeros, nz. rw nth_lookup.
    destruct (replicate _ _ !! _) eqn:E; cbn; [by apply lookup_replicate in E as [-> _]|done]. }
  cbn [orb]. unfold marks, host_at. rw Z.sub_0_r nth_lookup.
  destruct (Z.leb_spec h sp.(sp_max_hosts)) as [Hle|Hgt].
  - rw lookup_take_lt; [lia|]. destruct (lookup_lt_is_Some_2 sp.(sp_host_status) (Z.to_nat (h - 1))) as [hs ->].
    { rw Hl. lia. } cbn. by assert ((0 <? h) = true) as -> by lia.
  - rw lookup_take_ge; [lia|done].
Qed.

(** C19: A host is notified exactly when it is marked. Let host a take its
    bitmap and event at time [now_a], and let the sector it then writes, with
    whatever record it renews, be read by another host b that has not seen that
    record (owner, generation and timestamp) before. Then the check of a's lease
    by b passes the event of a on if and only if a had marked b and the event is
    not 0, and examines requests if and only if b was marked and has not taken a
    request of a for [set_bitmap_seconds]. A host is marked while it is within
    max_hosts and its bit was set at most [set_bitmap_seconds] ago. The host
    status of a has 2000 entries, max_hosts is at most 2000, and the fields of
    the record fit their widths. *)
Theorem notification_exact sp_a sp_b now_a now_b ts l buf hs :
  let made := create_bitmap_and_extra now_a (zeros HOSTID_BITMAP_SIZE) sp_a in
  let leader := renewed_leader sp_a (Some (snd (fst made))) ts l in
  let a := sp_a.(sp_host_id) in
  let b := sp_b.(sp_host_id) in
  let ss := sp_b.(sp_sector_size) in
  1 <= b -> a <> b -> 0 <= sp_a.(sp_max_hosts) <= DEFAULT_MAX_HOSTS ->
  length sp_a.(sp_host_status) = Z.to_nat DEFAULT_MAX_HOSTS ->
  leader_record_ok leader ->
  (forall k, 0 <= k < 512 -> buf ((a - 1) * ss + k) = renewal_image leader (fst (fst made)) k) ->
  status_key hs <> lease_key leader ->
  let r := check_other_lease now_b sp_b (a - 1) (sector_leader ss (a - 1) buf) (sector_bitmap ss (a - 1) buf) hs in
  let hs' := fst (fst r) in
  let e := sp_a.(sp_host_event) in
  snd (fst r) = (if marks sp_a now_a b && nz e.(he_event)
    then [HostEventMsg sp_b.(sp_space_id) (HostEvent b e.(he_generation) e.(he_event) e.(he_data))
            hs'.(hs_owner_id) hs'.(hs_owner_generation)] else []) /\
  snd r = marks sp_a now_a b && (sp_b.(sp_set_bitmap_seconds) <=? u64 (now_b - hs.(hs_last_req))).
Proof.
  intros made leader a b ss Hb Hab Hm Hl Hok Hbuf Hkey. cbv zeta.
  destruct (create_bitmap_marks sp_a now_a b) as (Hlen & _ & Hbit); [done..|]. fold made in Hlen, Hbit.
  assert (Hx : snd (fst made) = DeltaExtra sp_a.(sp_host_event).(he_generation) sp_a.(sp_host_event).(he_event)
                                  sp_a.(sp_host_event).(he_data)).
  { unfold made, create_bitmap_and_extra. by destruct (bitmap_loop _ _ _ _ _). }
  destruct (sector_of_renewal ss (a - 1) buf leader _ Hok Hlen Hbuf) as [-> ->]. rw -Hbit.
  set (sealed := lr_with_checksum _ leader).
  assert (Hs : lr_write_id sealed = sp_a.(sp_host_event).(he_generation) /\
    lr_write_generation sealed = sp_a.(sp_host_event).(he_event) /\
    lr_write_timestamp sealed = sp_a.(sp_host_event).(he_data) /\ lease_key sealed = lease_key leader).
  { unfold sealed, leader. rw Hx. done. }
  clearbody sealed. destruct Hs as (Hs1 & Hs2 & Hs3 & Hs4). rw -Hs4 in Hkey.
  destruct (check_other_status_spec now_b sp_b sealed hs) as (_ & Hreq & [(_ & E & _)|(Hch & _)]); [done|].
  unfold check_other_lease. destruct (check_other_status now_b sp_b sealed hs) as [hs1 changed]. cbn [fst snd] in *.
  rw Hch. cbn [negb]. replace (a - 1 + 1) with a by lia.
  destruct (Z.eqb_spec a sp_b.(sp_host_id)) as [?|_]; [done|].
  fold b. destruct (nz (test_id_bit b (fst (fst made)))); cbn [negb andb]; [|done].
  rw Hs1 Hs2 Hs3. cbn [he_event]. rw Hreq.
  destruct (Z.ltb_spec (u64 (now_b - hs_last_req hs)) sp_b.(sp_set_bitmap_seconds)) as [Hlt|Hge]; cbn [fst snd].
  - split; [done|]. symmetry. by apply Z.leb_gt.
  - split; [done|]. symmetry. by apply Z.leb_le.
Qed.

(** *** A lockspace of three hosts *)

Definition demo_config : com_space := ComSpace 0 0 180 0 0 0 0 1.
Definition demo_host_ls : sanlk_lockspace := Lockspace [76; 83] 1 0 (SyncDisk [47; 100] 0 0 0).
Definition demo_timeouts : command_line := Com 60 40 0 0 60 10.

(** Host 1's view, with an area of 512 byte sectors. *)
Definition demo_space (host_id : Z) : lspace :=
  (new_space demo_timeouts demo_config demo_host_ls 10 4096 true)
    <| sp_host_id := host_id |> <| sp_space_id := 1 |> <| sp_max_hosts := 3 |>
    <| sp_delta := Space 512 1048576 10 10 |>
    <| sp_host_status := replicate 2000 host_status_zero |>.

(** The record of host [h] with timestamp [ts]. *)
Definition demo_lease (h ts : Z) : leader_record :=
  LeaderRecord DELTA_DISK_MAGIC 0x30004 0 512 0 1 h 1 0 (strncpy 48 [76; 83]) (strncpy 48 [104; 48 + h])
    ts 0 0 0 10 0 0 0.

(** An area in which only host 2 has a lease. *)
Definition demo_host_area (ts : Z) (bitmap : list Z) (x : option delta_extra) : mem :=
  let m := renewal_image (renewed_leader (demo_space 2) x ts (demo_lease 2 0)) bitmap in
  fun j => m (j - 512).

Definition demo_checks : list check :=
  [(10, demo_host_area 7 (zeros 256) None); (20, demo_host_area 7 (zeros 256) None)].

Lemma host_flag_sound_witness :
  get_host_flag demo_timeouts 200 (watch (demo_space 1) demo_checks)
    (host_at 2 (watch (demo_space 1) demo_checks)) = SANLK_HOST_DEAD /\
  exists pre c suf, seen_at (demo_space 1) 1 <$> demo_checks = pre ++ c :: suf /\ 140 < 200 - fst c.
Proof.
  assert (Hdead : get_host_flag demo_timeouts 200 (watch (demo_space 1) demo_checks)
    (host_at 2 (watch (demo_space 1) demo_checks)) = SANLK_HOST_DEAD) by (vm_compute; reflexivity).
  split; [exact Hdead|].
  destruct (host_flag_sound demo_timeouts (demo_space 1) demo_checks 1 200) as [H _].
  - apply Nat.ltb_lt. vm_compute. reflexivity.
  - apply Nat.leb_le. vm_compute. reflexivity.
  - vm_compute. reflexivity.
  - unfold demo_checks. constructor; [cbn; lia|]. constructor; [cbn; lia|constructor].
  - reflexivity.
  - cbn. lia.
  - vm_compute. split; [intros E; discriminate E|reflexivity].
  - vm_compute. intros E. discriminate E.
  - destruct (H Hdead) as (pre & c & suf & E & _ & Hlt). exists pre, c, suf. split; [exact E|].
    replace 140 with (calc_host_dead_seconds demo_timeouts
      (hs_io_timeout (host_at (Z.of_nat 1 + 1) (watch (demo_space 1) demo_checks)))); [exact Hlt|].
    vm_compute. reflexivity.
Defined.

Lemma bad_lease_stays_live_witness :
  let hs := HostStatus 10 20 20 0 2 1 7 0 10 0 (zeros 48) in
  hs_last_live (fst (check_other_status 100000 (demo_space 1) leader_zero hs)) = 100000.
Proof.
  intros hs. apply (bad_lease_stays_live demo_timeouts 100000 (demo_space 1) leader_zero hs).
  - vm_compute. reflexivity.
  - intros E. discriminate E.
Defined.

(** Host 2 marked host 1 at time 50, with event 3, and renews at 60. *)
Definition demo_marking : lspace :=
  set_host 1 (fun hs => hs <| hs_set_bit_time := 50 |>)
    ((demo_space 2) <| sp_host_event := HostEvent 1 1 3 4 |>).

Definition demo_made := create_bitmap_and_extra 60 (zeros HOSTID_BITMAP_SIZE) demo_marking.

Lemma notification_exact_witness :
  let buf := demo_host_area 60 (fst (fst demo_made)) (Some (snd (fst demo_made))) in
  let r := check_other_lease 70 (demo_space 1) 1 (sector_leader 512 1 buf) (sector_bitmap 512 1 buf)
             host_status_zero in
  snd (fst r) = [HostEventMsg 1 (HostEvent 1 1 3 4) 2 1] /\ snd r = true.
Proof.
  intros buf r.
  assert (H : snd (fst r) = (if true && true then [HostEventMsg 1 (HostEvent 1 1 3 4) 2 1] else []) /\ snd r = true);
    [|exact H].
  destruct (notification_exact demo_marking (demo_space 1) 60 70 60 (demo_lease 2 0) buf host_status_zero)
    as [Hev Hnew].
  - vm_compute. intros E. discriminate E.
  - vm_compute. intros E. discriminate E.
  - vm_compute. split; intros E; discriminate E.
  - vm_compute. reflexivity.
  - vm_compute. repeat split; try reflexivity; try (intros E; discriminate E).
    all: repeat (constructor; [split; [intros E; discriminate E|reflexivity]|]); constructor.
  - intros k Hk. unfold buf, demo_host_area. cbv zeta. f_equal. cbn [sp_host_id]. change (sp_host_id demo_marking) with 2.
    change (sp_sector_size (demo_space 1)) with 512. lia.
  - vm_compute. intros E. discriminate E.
  - split; [refine (eq_trans Hev _)|refine (eq_trans Hnew _)]; vm_compute; reflexivity.
Defined.
