(* ===== verification/LockspaceThread.v ===== *)
(** * The lockspace thread ([src/src/lockspace.c], [src/src/watchdog.c])

    The thread that acquires the host id of a lockspace, renews it and feeds the
    watchdog daemon, as a program over the effects of [Io]: the delta lease
    operations are those of [DeltaLease], the calls of the wdmd client library
    and the critical sections on the shared [struct space] are events.

    The theorem is that the watchdog is kept alive only for renewals that
    have reached the disk. *)

From S2P Require Import Prelude OnDisk SizeFlags Timeouts Io DeltaLease DeltaSafety PaxosBlocks Lockspace.

#[local] Opaque Crc32c.crc32c.

(** ** [watchdog.c] *)

Definition wdmd (c : wd_call) : prog Z := call (CWatchdog c).

Definition open_watchdog (cs : com_space) (con fire_timeout : Z) : prog Z :=
  if cs.(com_use_watchdog) =? 0 then Ret 0
  else rv ← wdmd (WdmdOpenWatchdog con fire_timeout); Ret (if rv <? 0 then -1 else 0).

Definition update_watchdog (cs : com_space) (wd_fd timestamp id_renewal_fail_seconds : Z) : prog unit :=
  if cs.(com_use_watchdog) =? 0 then Ret tt
  else _ ← wdmd (WdmdTestLive wd_fd timestamp (u64 (timestamp + id_renewal_fail_seconds))); Ret tt.

Definition connect_watchdog (cs : com_space) : prog Z :=
  if cs.(com_use_watchdog) =? 0 then Ret 0
  else con ← wdmd WdmdConnect; Ret (if con <? 0 then -1 else con).

(** The labels [fail_clear:] and [fail_close:]. *)
Definition activate_fail_close (con wd_fd : Z) : prog (Z * Z) := _ ← wdmd (WdClose con); Ret (-1, wd_fd).
Definition activate_fail_clear (con wd_fd : Z) : prog (Z * Z) :=
  _ ← wdmd (WdmdRefcountClear con); activate_fail_close con wd_fd.

(** Returns the code and [sp->wd_fd], which is [wd_fd] before the call. *)
Definition activate_watchdog (com : command_line) (cs : com_space) (sp : lspace)
    (timestamp id_renewal_fail_seconds con wd_fd : Z) : prog (Z * Z) :=
  if cs.(com_use_watchdog) =? 0 then Ret (0, wd_fd)
  else
    rv ← wdmd (WdmdRegister con sp.(sp_space_name) sp.(sp_host_id));
    if rv <? 0 then activate_fail_close con wd_fd
    else
      rv ← wdmd (WdmdRefcountSet con);
      if rv <? 0 then activate_fail_close con wd_fd
      else
        r ← call (CWdmdStatus con);
        if fst r <? 0 then activate_fail_clear con wd_fd
        else if negb (snd r =? com.(com_watchdog_fire_timeout)) then activate_fail_clear con wd_fd
        else
          rv ← wdmd (WdmdTestLive con timestamp (u64 (timestamp + id_renewal_fail_seconds)));
          if rv <? 0 then activate_fail_clear con wd_fd
          else _ ← call (CSpace (SpWdFd con)); Ret (0, con).

Definition deactivate_watchdog (cs : com_space) (wd_fd : Z) : prog unit :=
  if cs.(com_use_watchdog) =? 0 then Ret tt
  else
    rv ← wdmd (WdmdTestLive wd_fd 0 0);
    _ ← (if rv <? 0 then _ ← call (CUsleep 500000); wdmd (WdmdTestLive wd_fd 0 0) else Ret 0);
    _ ← wdmd (WdmdRefcountClear wd_fd); Ret tt.

Definition disconnect_watchdog (cs : com_space) (wd_fd : Z) : prog unit :=
  if cs.(com_use_watchdog) =? 0 then Ret tt else _ ← wdmd (WdClose wd_fd); Ret tt.

(** ** The size of device i/o *)

Definition set_max (cs : com_space) (path : list Z) (kb : Z) : prog (Z * Z) :=
  call (CSys (if cs.(com_uid) =? 0 then SysSetMaxKb path kb else SysHelperSetMaxKb path kb)).

Definition set_lockspace_max_sectors_kb (cs : com_space) (disk : sync_disk) (align_size : Z) : prog unit :=
  let align_size_kb := Z.quot align_size 1024 in
  r ← call (CSys (SysFstat disk.(sd_fd)));
  if fst r <? 0 then Ret tt
  else if nz (snd r) then Ret tt
  else if nz cs.(com_max_sectors_kb_ignore) then Ret tt
  else
    let set_kb := if nz cs.(com_max_sectors_kb_align) then u32 align_size_kb
                  else u32 cs.(com_max_sectors_kb_num) in
    if negb (nz cs.(com_max_sectors_kb_align)) && (cs.(com_max_sectors_kb_num) =? 0) then Ret tt
    else
      r ← call (CSys (SysReadHwKb disk.(sd_path)));
      let hw_kb := snd r in
      if (fst r <? 0) || (hw_kb =? 0) then Ret tt
      else if hw_kb <? set_kb then
        if hw_kb <? 1024 then Ret tt
        else if set_kb <? 1024 then Ret tt
        else
          r ← set_max cs disk.(sd_path) 1024;
          if fst r <? 0 then Ret tt else call (CSpace (SpMaxSectorsKb 1024))
      else
        r ← set_max cs disk.(sd_path) set_kb;
        if fst r <? 0 then Ret tt else call (CSpace (SpMaxSectorsKb set_kb)).

(** ** Acquiring the host id *)

(** The locals of [lockspace_thread] at [set_status:] and after it: the results,
    the time of the attempt, the last success, the descriptor of the device when
    it was opened, [sp->wd_fd], the sizes and the leader. *)
Record thread_state := ThreadState {
  th_acquire_result : Z;
  th_delta_result : Z;
  th_delta_begin : Z;
  th_last_success : Z;
  th_disk : option sync_disk;
  th_wd_fd : Z;
  th_sizes : space;
  th_leader : leader_record
}.
#[export] Instance thread_state_settable : Settable thread_state := fun r =>
  ThreadState r.(th_acquire_result) r.(th_delta_result) r.(th_delta_begin) r.(th_last_success) r.(th_disk)
    r.(th_wd_fd) r.(th_sizes) r.(th_leader).

Section thread.
Context (com : command_line) (cs : com_space) (sp : lspace) (our_host_name : list Z).

Definition id_renewal_fail_seconds : Z := calc_id_renewal_fail_seconds sp.(sp_io_timeout).

(** From the acquire of the delta lease to [set_status:]; [leader0] is the
    indeterminate local [leader] of [delta_lease_acquire]. *)
Definition thread_acquire (wd_con : Z) (disk : sync_disk) (leader0 : leader_record) (th : thread_state)
    : prog thread_state :=
  delta_begin ← call CMonotime;
  r ← delta_lease_acquire com th.(th_sizes) disk sp.(sp_space_name) our_host_name sp.(sp_host_id)
        leader0 th.(th_leader);
  _ ← call CMonotime;
  let th := th <| th_delta_begin := delta_begin |> <| th_acquire_result := fst r |>
               <| th_delta_result := fst r |> <| th_leader := snd r |> in
  if fst r =? SANLK_OK then
    let th := th <| th_last_success := (snd r).(lr_timestamp) |> in
    w ← activate_watchdog com cs sp th.(th_last_success) id_renewal_fail_seconds wd_con th.(th_wd_fd);
    let th := th <| th_wd_fd := snd w |> in
    Ret (if fst w <? 0 then th <| th_acquire_result := SANLK_WD_ERROR |> else th)
  else
    _ ← (if nz cs.(com_use_watchdog) then wdmd (WdClose wd_con) else Ret 0);
    Ret th.

(** From the reading of the sizes on, the device being open. *)
Definition thread_sizes (disk : sync_disk) (leader0 : leader_record) (th : thread_state) : prog thread_state :=
  let fail rv := Ret (th <| th_acquire_result := rv |> <| th_delta_result := -1 |>) in
  r ← delta_read_lockspace_sizes disk sp.(sp_io_timeout);
  match snd r with
  | None => fail (fst r)
  | Some (sector_size, align_size) =>
      if negb (sector_size =? 512) && negb (sector_size =? 4096) then fail SANLK_LEADER_SECTORSIZE
      else
        let max_hosts := size_to_max_hosts sector_size align_size in
        if max_hosts =? 0 then fail SANLK_ADDLS_SIZES
        else if u64 max_hosts <? sp.(sp_host_id) then fail SANLK_ADDLS_INVALID_HOSTID
        else
          _ ← call (CSpace (SpSizes sector_size align_size max_hosts));
          let th := th <| th_sizes := Space sector_size align_size sp.(sp_io_timeout)
                                        sp.(sp_renewal_read_extend_sec) |> in
          let fail rv := Ret (th <| th_acquire_result := rv |> <| th_delta_result := -1 |>) in
          _ ← set_lockspace_max_sectors_kb cs disk align_size;
          ok ← call (CMalloc align_size);
          if negb ok then fail (- ENOMEM)
          else
            _ ← call (CSpace SpReadBuf);
            wd_con ← connect_watchdog cs;
            if wd_con <? 0 then fail SANLK_WD_ERROR
            else
              rv ← open_watchdog cs wd_con com.(com_watchdog_fire_timeout);
              if rv <? 0 then _ ← disconnect_watchdog cs th.(th_wd_fd); fail SANLK_WD_ERROR
              else thread_acquire wd_con disk leader0 th
  end.

(** The thread up to [set_status:], with the status published. *)
Definition thread_start (leader0 leader_ret : leader_record) : prog thread_state :=
  delta_begin ← call CMonotime;
  let th := ThreadState 0 0 delta_begin 0 None sp.(sp_wd_fd) sp leader_ret in
  r ← call (COpenDisk sp.(sp_host_id_disk));
  th ← (if fst r <? 0 then Ret (th <| th_acquire_result := - ENODEV |> <| th_delta_result := -1 |>)
        else
          let d := sp.(sp_host_id_disk) in
          let disk := SyncDisk d.(sd_path) d.(sd_offset) d.(sd_sector_size) (snd r) in
          thread_sizes disk leader0 (th <| th_disk := Some disk |>));
  _ ← call (CSpace (SpAcquired th.(th_acquire_result) th.(th_delta_result) th.(th_delta_begin)
                      th.(th_last_success)));
  Ret th.

(** ** Renewing *)

(** One renewal and its publication, from [memset(bitmap)] on; [ms] are the
    durations of the read and the write. *)
Definition thread_renew (disk : sync_disk) (ms : Z * Z) (read_result : Z) (task : dtask) (th : thread_state)
    : prog (Z * dtask * thread_state) :=
  b ← call CCreateBitmap;
  let '(bitmap, (x1, x2, x3)) := b in
  delta_begin ← call CMonotime;
  r ← delta_lease_renew com th.(th_sizes) disk sp.(sp_space_name) bitmap (Some (DeltaExtra x1 x2 x3))
        th.(th_delta_result) (Some th.(th_leader)) read_result task;
  _ ← call CMonotime;
  let delta_result := r.(rn_rv) in
  let th := th <| th_delta_result := delta_result |> <| th_delta_begin := delta_begin |> in
  let th := match r.(rn_leader) with
            | Some l => th <| th_leader := l |> <| th_last_success := l.(lr_timestamp) |>
            | None => th
            end in
  let read_buf := if r.(rn_read_result) =? SANLK_OK then r.(rn_task).(task_iobuf) else None in
  _ ← call (CSpace (SpRenewed delta_result delta_begin th.(th_last_success) read_buf (fst ms) (snd ms)));
  stop ← (if delta_result =? SANLK_OK then call CThreadStop else Ret true);
  _ ← (if stop : bool then Ret tt
       else update_watchdog cs th.(th_wd_fd) th.(th_last_success) id_renewal_fail_seconds);
  Ret (r.(rn_read_result), r.(rn_task), th).

(** The renewal loop, one unit of fuel per turn; the state when [thread_stop] is
    seen ([None]: the fuel ran out, the thread is still running). *)
Fixpoint thread_loop (fuel : nat) (ms : nat -> Z * Z) (disk : sync_disk) (read_result : Z) (task : dtask)
    (th : thread_state) : prog (option thread_state) :=
  match fuel with
  | O => Ret None
  | S fuel =>
      stop ← call CThreadStop;
      if stop : bool then Ret (Some th)
      else
        now ← call CMonotime;
        if u64 (now - th.(th_last_success)) <? u64 (calc_id_renewal_seconds sp.(sp_io_timeout)) then
          _ ← call (CSleep 1); thread_loop fuel ms disk read_result task th
        else
          _ ← call (CUsleep 500000);
          r ← thread_renew disk (ms fuel) read_result task th;
          let '(read_result, task, th) := r in
          thread_loop fuel ms disk read_result task th
  end.

(** From [out:] on. *)
Definition thread_out (th : thread_state) : prog unit :=
  match th.(th_disk) with
  | None => Ret tt
  | Some disk =>
      _ ← (if th.(th_delta_result) =? SANLK_OK
           then r ← delta_lease_release th.(th_sizes) disk (Some th.(th_leader)) th.(th_leader); Ret tt
           else Ret tt);
      call (CCloseDisk disk)
  end.

Definition lockspace_thread (fuel : nat) (ms : nat -> Z * Z) (leader0 leader_ret : leader_record)
    (read_result : Z) : prog unit :=
  th ← thread_start leader0 leader_ret;
  if th.(th_acquire_result) <? 0 then thread_out th
  else
    _ ← call (CSpace (SpGeneration th.(th_leader).(lr_owner_generation)));
    match th.(th_disk) with
    | None => Ret tt
    | Some disk =>
        r ← thread_loop fuel ms disk read_result (Task None false) th;
        match r with
        | None => Ret tt
        | Some th => _ ← disconnect_watchdog cs th.(th_wd_fd); thread_out th
        end
    end.
End thread.

(** ** Calls and events of the delta lease code *)

(** Calls other than those of the watchdog and on the shared structure. *)
Definition disk_cmd X (c : cmd X) : Prop :=
  match c with CWatchdog _ => False | CSpace _ => False | _ => True end.

(** What an event claims of the disk: that the lease was written with this
    timestamp. Keeping the watchdog alive and publishing a success do. *)
Definition claim (e : event) : option Z :=
  match e with
  | EvWatchdog (WdmdTestLive _ ts _) _ => Some ts
  | EvSpace (SpAcquired _ dr _ ls) => if dr =? SANLK_OK then Some ls else None
  | EvSpace (SpRenewed dr _ ls _ _ _) => if dr =? SANLK_OK then Some ls else None
  | _ => None
  end.

Definition no_claim (e : event) : Prop := claim e = None.

Lemma disk_cmd_claim X (c : cmd X) x : disk_cmd X c -> Forall no_claim (ev c x).
Proof. destruct c; cbn; intros H; try done; by apply Forall_singleton. Qed.

Lemma uses_call P {X} (c : cmd X) : P X c -> uses P (call c).
Proof. by split. Qed.

Ltac uses_disk :=
  repeat first
    [ exact I | simple apply uses_bind | simple apply uses_call
    | match goal with
      | |- uses _ (if ?b then _ else _) => destruct b
      | |- uses _ (match ?x with _ => _ end) => destruct x
      end
    | progress intros | done ].

Lemma read_sectors_uses disk ss nr n data ioto : uses disk_cmd (read_sectors disk ss nr n data ioto).
Proof. unfold read_sectors, read_iobuf, buf_get. uses_disk. Qed.

Lemma write_sector_uses disk ss nr data ioto : uses disk_cmd (write_sector disk ss nr data ioto).
Proof. unfold write_sector, _write_sectors, write_iobuf. uses_disk. Qed.

Lemma delay_loop_uses n : uses disk_cmd (delay_loop n).
Proof. induction n as [|n IH]; cbn [delay_loop]; uses_disk. Qed.

Lemma leader_read_uses ss io disk name h l : uses disk_cmd (delta_lease_leader_read ss io disk name h l).
Proof. unfold delta_lease_leader_read. uses_disk. apply read_sectors_uses. Qed.

Lemma delta_acquire_uses com s disk name our h l l' : uses disk_cmd (delta_lease_acquire com s disk name our h l l').
Proof.
  assert (Hw : forall io lr, uses disk_cmd (delta_write_new s disk name our h io lr l')).
  { intros io lr. unfold delta_write_new, write_delta_leader. uses_disk;
      first [apply write_sector_uses | apply delay_loop_uses | apply leader_read_uses]. }
  unfold delta_lease_acquire. uses_disk; first [apply leader_read_uses | apply delay_loop_uses | apply Hw].
Qed.

Lemma delta_renew_uses com s disk name bm x pr last rr task :
  uses disk_cmd (delta_lease_renew com s disk name bm x pr last rr task).
Proof.
  unfold delta_lease_renew, renew_reap, renew_read, renew_write, read_iobuf, write_iobuf, buf_get. uses_disk.
Qed.

(** ** Histories *)

Section feed.
Context (com : command_line) (cs : com_space) (sp : lspace) (our : list Z).

(** The lease has been written with timestamp [ts]: a write of our sector, whose
    size is [ss], with a record of this host, that succeeded. *)
Definition lease_written (ts : Z) (h : list event) : Prop :=
  exists fd ss m l, EvWrite fd (sp.(sp_host_id_disk).(sd_offset) + (sp.(sp_host_id) - 1) * ss) ss m 0 ∈ h /\
    mem_read m 0 sizeof_leader_record = leader_image l lr_end0 /\ leader_record_ok l /\
    l.(lr_timestamp) = ts /\ l.(lr_owner_id) = sp.(sp_host_id).

(** Every claim is true when it is made, and the watchdog expires a fail time
    after the renewal it is told of. *)
Definition fed (h : list event) : Prop :=
  forall h1 e h2, h = h1 ++ e :: h2 ->
    (forall ts, claim e = Some ts -> lease_written ts h1) /\
    match e with
    | EvWatchdog (WdmdTestLive _ ts expire) _ => expire = u64 (ts + id_renewal_fail_seconds sp)
    | _ => True
    end.

Lemma lease_written_app ts h es : lease_written ts h -> lease_written ts (h ++ es).
Proof.
  intros (fd & ss & m & l & Hin & H). exists fd, ss, m, l. split; [|done]. apply elem_of_app. by left.
Qed.

Lemma fed_nil : fed [].
Proof. intros h1 e h2 H. by destruct h1. Qed.

Lemma fed_snoc h e :
  fed h -> (forall ts, claim e = Some ts -> lease_written ts h) ->
  match e with
  | EvWatchdog (WdmdTestLive _ ts expire) _ => expire = u64 (ts + id_renewal_fail_seconds sp)
  | _ => True
  end -> fed (h ++ [e]).
Proof.
  intros Hh He Hx h1 e' h2 E. destruct h2 as [|x h2 _] using rev_ind.
  - apply app_inj_tail in E as [-> ->]. by split.
  - rw app_comm_cons app_assoc in E. apply app_inj_tail in E as [-> _]. by eapply Hh.
Qed.

Lemma fed_quiet h es : fed h -> Forall no_claim es -> fed (h ++ es).
Proof.
  intros Hh Hes. revert h Hh. induction Hes as [|e es He Hes IH]; intros h Hh; [by rw app_nil_r|].
  rw cons_middle app_assoc. apply IH. apply fed_snoc; [done|by rw He|].
  unfold no_claim in He. destruct e as [| | |[]| | |]; try done.
Qed.

(** What a delta operation does from the empty history it does after any other,
    and it leaves no claim. *)
Lemma delta_embed {A} (p : prog A) (I : list event -> Prop) (Q : list event -> A -> Prop) h :
  uses disk_cmd p -> fed h -> always p I Q [] ->
  always p fed (fun h' a => exists es, h' = h ++ es /\ Forall no_claim es /\ Q es a) h.
Proof.
  intros Hu Hh Hp.
  pose proof (always_embed (fun _ => True) p I Q any_env h []) as He. rw !app_nil_r in He.
  assert (Ha : always_in any_env p (fun h' => exists es, h' = h ++ es /\ I ([] ++ es) /\ Forall (fun _ => True) es)
    (fun h' a => exists es, h' = h ++ es /\ Q ([] ++ es) a /\ Forall (fun _ => True) es) h).
  { apply He; [|done]. intros h0 X c x Hx. split; [done|]. by apply Forall_true. }
  apply (always_uses any_env disk_cmd no_claim) in Ha; [|apply disk_cmd_claim|done].
  eapply always_mono; [exact Ha| |].
  - intros h' [_ (es & -> & Hes)]. by apply fed_quiet.
  - intros h' a _ [(es & -> & HQ & _) (es' & E & Hes)]. apply app_inv_head in E as ->.
    exists es'. by rw app_nil_l in HQ.
Qed.

(** ** The thread *)

Record thread_geometry : Prop := {
  tg_host : 1 <= sp.(sp_host_id) < 2 ^ 32;
  tg_off : 0 <= sp.(sp_host_id_disk).(sd_offset) < 2 ^ 63;
  tg_our : bytes_ok our;
  tg_io : 0 <= sp.(sp_io_timeout)
}.
Context (Hgeo : thread_geometry).

Definition dev_ok (disk : sync_disk) : Prop := disk.(sd_offset) = sp.(sp_host_id_disk).(sd_offset).

(** The sizes read from the device, which hold the host's sector. *)
Definition sizes_ok (s : space) : Prop :=
  (s.(sp_sector_size) = 512 \/ s.(sp_sector_size) = 4096) /\
  sp.(sp_host_id) * s.(sp_sector_size) <= s.(sp_align_size) < 2 ^ 32 /\ 0 <= s.(sp_io_timeout).

(** The thread holds the host id: its leader is the last one written. *)
Definition holding (th : thread_state) (h : list event) : Prop :=
  sizes_ok th.(th_sizes) /\ leader_record_ok th.(th_leader) /\
  th.(th_leader).(lr_owner_id) = sp.(sp_host_id) /\
  th.(th_leader).(lr_timestamp) = th.(th_last_success) /\ lease_written th.(th_last_success) h.

Lemma holding_app th h es : holding th h -> holding th (h ++ es).
Proof. intros (H1 & H2 & H3 & H4 & H5). do 4 (split; [done|]). by apply lease_written_app. Qed.

Lemma call_fed {X} (c : cmd X) (Q : list event -> X -> Prop) h :
  fed h -> (forall x, Forall no_claim (ev c x)) -> (forall x, resp_ok c x -> Q (h ++ ev c x) x) ->
  always (call c) fed Q h.
Proof.
  intros Hh Hq HQ. apply always_call; [done|]. intros x Hx. split; [by apply fed_quiet|by apply HQ].
Qed.

Lemma wdmd_fed c (Q : list event -> Z -> Prop) h :
  fed h -> claim (EvWatchdog c 0) = None -> (forall rv es, Q (h ++ es) rv) -> always (wdmd c) fed Q h.
Proof.
  intros Hh Hc HQ. apply call_fed; [done| |].
  - intros x. apply Forall_singleton. unfold no_claim. by destruct c.
  - intros x _. apply HQ.
Qed.

(** Telling wdmd of a renewal that was written. *)
Lemma test_live_fed con ts (Q : list event -> Z -> Prop) h :
  fed h -> lease_written ts h -> (forall rv es, Q (h ++ es) rv) ->
  always (wdmd (WdmdTestLive con ts (u64 (ts + id_renewal_fail_seconds sp)))) fed Q h.
Proof.
  intros Hh Hw HQ. apply always_call; [done|]. intros rv _. split; [|apply HQ].
  apply fed_snoc; [done| |done]. by intros ? [= <-].
Qed.

(** The functions of [watchdog.c] keep what appending to the history keeps. *)
Section keep.
Context (K : list event -> Prop) (HK : forall h es, K h -> K (h ++ es)).

Lemma activate_fail_always con wd_fd h (clear : bool) :
  fed h -> K h ->
  always (if clear then activate_fail_clear con wd_fd else activate_fail_close con wd_fd) fed
    (fun h' _ => K h') h.
Proof.
  intros Hh Hk.
  assert (Hclose : forall h, fed h -> K h -> always (activate_fail_close con wd_fd) fed (fun h' _ => K h') h).
  { intros h0 Hh0 Hk0. apply always_bind. eapply always_mono; [apply (wdmd_fed _ (fun h' _ => K h')); auto|done|].
    intros h' rv Hf Hk'. by apply always_ret. }
  destruct clear; [|by apply Hclose]. apply always_bind.
  eapply always_mono; [apply (wdmd_fed _ (fun h' _ => K h')); auto|done|].
  intros h' rv Hf Hk'. by apply Hclose.
Qed.

Lemma wdmd_step {B} c (f : Z -> prog B) h :
  fed h -> K h -> claim (EvWatchdog c 0) = None ->
  (forall rv h', fed h' -> K h' -> always (f rv) fed (fun h' _ => K h') h') ->
  always (rv ← wdmd c; f rv) fed (fun h' _ => K h') h.
Proof.
  intros Hh Hk Hc Hf. apply always_bind.
  eapply always_mono; [apply (wdmd_fed _ (fun h' _ => K h')); auto|done|]. intros h' rv Hf' Hk'. by apply Hf.
Qed.

Lemma activate_always ts con wd_fd h :
  fed h -> K h -> lease_written ts h ->
  always (activate_watchdog com cs sp ts (id_renewal_fail_seconds sp) con wd_fd) fed (fun h' _ => K h') h.
Proof.
  intros Hh Hk Hw. unfold activate_watchdog. destruct (_ =? _); [by apply always_ret|].
  pose proof (fun h => activate_fail_always con wd_fd h true) as Hclear.
  pose proof (fun h => activate_fail_always con wd_fd h false) as Hclose. cbn iota in Hclear, Hclose.
  apply always_bind. eapply always_mono;
    [apply (wdmd_fed _ (fun h' _ => K h' /\ lease_written ts h')); auto using lease_written_app|done|].
  intros h1 rv1 Hf1 [Hk1 Hw1]. cbn beta. destruct (rv1 <? 0); [by apply Hclose|].
  apply always_bind. eapply always_mono;
    [apply (wdmd_fed _ (fun h' _ => K h' /\ lease_written ts h')); auto using lease_written_app|done|].
  intros h2 rv2 Hf2 [Hk2 Hw2]. cbn beta. destruct (rv2 <? 0); [by apply Hclose|].
  apply always_bind, call_fed; [done|by constructor|]. intros r _. cbn [ev]. rw app_nil_r.
  destruct (fst r <? 0); [by apply Hclear|]. destruct (negb _); [by apply Hclear|].
  apply always_bind. eapply always_mono; [apply (test_live_fed _ _ (fun h' _ => K h')); auto|done|].
  intros h3 rv3 Hf3 Hk3. cbn beta. destruct (rv3 <? 0); [by apply Hclear|].
  apply always_bind, call_fed; [done|by repeat constructor|]. intros [] _.
  apply always_ret; [|by apply HK]. apply fed_quiet; [done|by repeat constructor].
Qed.

Lemma update_always ts wd_fd h :
  fed h -> K h -> lease_written ts h ->
  always (update_watchdog cs wd_fd ts (id_renewal_fail_seconds sp)) fed (fun h' _ => K h') h.
Proof.
  intros Hh Hk Hw. unfold update_watchdog. destruct (_ =? _); [by apply always_ret|].
  apply always_bind. eapply always_mono; [apply (test_live_fed _ _ (fun h' _ => K h')); auto|done|].
  intros h' rv Hf Hk'. by apply always_ret.
Qed.

Lemma disconnect_always wd_fd h :
  fed h -> K h -> always (disconnect_watchdog cs wd_fd) fed (fun h' _ => K h') h.
Proof.
  intros Hh Hk. unfold disconnect_watchdog. destruct (_ =? _); [by apply always_ret|].
  apply wdmd_step; [done..|]. intros rv h' Hf Hk'. by apply always_ret.
Qed.

Lemma connect_always h : fed h -> K h -> always (connect_watchdog cs) fed (fun h' _ => K h') h.
Proof.
  intros Hh Hk. unfold connect_watchdog. destruct (_ =? _); [by apply always_ret|].
  apply wdmd_step; [done..|]. intros rv h' Hf Hk'. by apply always_ret.
Qed.

Lemma open_always con ft h : fed h -> K h -> always (open_watchdog cs con ft) fed (fun h' _ => K h') h.
Proof.
  intros Hh Hk. unfold open_watchdog. destruct (_ =? _); [by apply always_ret|].
  apply wdmd_step; [done..|]. intros rv h' Hf Hk'. by apply always_ret.
Qed.

Lemma max_sectors_always disk align h :
  fed h -> K h -> always (set_lockspace_max_sectors_kb cs disk align) fed (fun h' _ => K h') h.
Proof.
  intros Hh Hk. unfold set_lockspace_max_sectors_kb, set_max.
  assert (Hset : forall kb, always (r ← call (CSys (if com_uid cs =? 0 then SysSetMaxKb (sd_path disk) kb
      else SysHelperSetMaxKb (sd_path disk) kb));
      if fst r <? 0 then Ret tt else call (CSpace (SpMaxSectorsKb kb))) fed (fun h' _ => K h') h).
  { intros kb. apply always_bind, call_fed; [done|by constructor|]. intros r _. cbn [ev]. rw app_nil_r.
    destruct (fst r <? 0); [by apply always_ret|]. apply call_fed; [done|by repeat constructor|]. auto. }
  apply always_bind, call_fed; [done|by constructor|]. intros r _. cbn [ev]. rw app_nil_r.
  destruct (fst r <? 0); [by apply always_ret|]. destruct (nz (snd r)); [by apply always_ret|].
  destruct (nz (com_max_sectors_kb_ignore cs)); [by apply always_ret|].
  destruct (negb _ && _); [by apply always_ret|].
  apply always_bind, call_fed; [done|by constructor|]. intros r' _. cbn [ev]. rw app_nil_r.
  destruct ((fst r' <? 0) || _); [by apply always_ret|].
  destruct (_ <? _); [|apply Hset]. destruct (_ <? 1024); [by apply always_ret|].
  destruct (_ <? 1024); [by apply always_ret|]. apply Hset.
Qed.
End keep.

(** *** Acquiring *)

Lemma unsealed_ok c l : leader_record_ok (lr_with_checksum c l) -> l.(lr_checksum) = 0 -> leader_record_ok l.
Proof.
  unfold leader_record_ok. destruct l. cbn. intros (?&?&?&?&?&?&?&?&?&?&?&?&?&?&?&?&?&?&?) ->.
  assert (is_u 32 0) by (by vm_compute). by repeat (split; [done|]).
Qed.

Lemma acquired_written s disk name h r :
  dev_ok disk -> acquired com s disk name our sp.(sp_host_id) h r ->
  leader_record_ok r /\ r.(lr_owner_id) = sp.(sp_host_id) /\ lease_written r.(lr_timestamp) h.
Proof.
  intros Hd (l1 & l & h1 & ts & e & _ & Hs & -> & ->). pose proof (saw_ok _ _ _ _ _ _ Hs) as Hok.
  split; [done|]. split; [done|].
  pose proof (unsealed_ok _ _ Hok eq_refl) as Hok'. set (rec := our_record _ _ _ _ _) in *.
  exists disk.(sd_fd), s.(sp_sector_size), (mem_of (leader_image rec lr_end0)), rec. split; [|split; [|done]].
  - unfold our_write. rw Hd. apply elem_of_app. right. by apply list_elem_of_here.
  - rw -{2}(mem_read_of (leader_image rec lr_end0)). by rw length_leader_image.
Qed.

Definition started (th : thread_state) (h : list event) : Prop :=
  match th.(th_disk) with
  | None => th.(th_delta_result) <> SANLK_OK /\ th.(th_acquire_result) < 0
  | Some disk => dev_ok disk /\ (th.(th_delta_result) = SANLK_OK -> holding th h) /\
      (th.(th_delta_result) <> SANLK_OK -> th.(th_acquire_result) < 0)
  end.

Lemma started_app th h es : started th h -> started th (h ++ es).
Proof.
  unfold started. destruct th.(th_disk); [|done]. intros (H1 & H2 & H3). split; [done|]. split; [|done].
  intros H. by apply holding_app, H2.
Qed.

Lemma sizes_geometry s disk : sizes_ok s -> dev_ok disk -> delta_geometry s disk our sp.(sp_host_id).
Proof. intros (H1 & H2 & H3) Hd. destruct Hgeo. rw /dev_ok in Hd. constructor; [done|done|by rw Hd|done|done]. Qed.

Lemma thread_acquire_always wd_con disk leader0 th h :
  sizes_ok th.(th_sizes) -> dev_ok disk -> th.(th_disk) = Some disk -> fed h ->
  always (thread_acquire com cs sp our wd_con disk leader0 th) fed (fun h' th' => started th' h') h.
Proof.
  intros Hs Hd Hdisk Hh. unfold thread_acquire.
  apply always_bind, call_fed; [done|by constructor|]. intros t _. cbn [ev]. rw app_nil_r. apply always_bind.
  eapply always_mono; [eapply delta_embed; [apply delta_acquire_uses|done|]|done|].
  { apply acquire_always. by apply sizes_geometry. }
  intros h' [rv l] Hf (es & -> & _ & Hcase). cbn [fst snd] in *.
  apply always_bind, call_fed; [done|by constructor|]. intros t' _. cbn [ev]. rw app_nil_r.
  set (th1 := th <| th_delta_begin := t |> <| th_acquire_result := rv |> <| th_delta_result := rv |> <| th_leader := l |>).
  destruct Hcase as [[-> Hacq]|Hneg].
  - destruct (acquired_written _ _ _ _ _ Hd Hacq) as (Hok & Hown & Hw).
    assert (Hhold : forall wd ar, holding (th1 <| th_last_success := l.(lr_timestamp) |> <| th_wd_fd := wd |>
        <| th_acquire_result := ar |>) (h ++ es)).
    { intros wd ar. do 4 (split; [done|]). destruct Hw as (fd & ss & m & r & Hin & Hr).
      exists fd, ss, m, r. split; [|done]. apply elem_of_app. by right. }
    cbn [Z.eqb SANLK_OK]. change (SANLK_OK =? SANLK_OK) with true. cbn iota. apply always_bind.
    eapply always_mono; [apply (activate_always (fun h' => forall wd ar, holding (th1 <| th_last_success :=
      l.(lr_timestamp) |> <| th_wd_fd := wd |> <| th_acquire_result := ar |>) h'))|done|].
    + intros h0 es0 H0 wd ar. apply holding_app, H0.
    + done.
    + done.
    + apply (Hhold 0 0).
    + intros h2 w Hf2 Hk. apply always_ret; [done|]. unfold started.
      destruct (fst w <? 0); cbn [th_disk set_field th1]; rw Hdisk; (split; [done|]); (split; [|by intros []]);
        intros _; [apply (Hk (snd w) SANLK_WD_ERROR)|apply (Hk (snd w) SANLK_OK)].
  - assert ((rv =? SANLK_OK) = false) as -> by (apply Z.eqb_neq; unfold SANLK_OK; lia).
    assert (Hst : forall h0, started th1 h0).
    { intros h0. unfold started. cbn [th_disk set_field th1]. rw Hdisk. split; [done|]. split; [|done].
      cbn. unfold SANLK_OK. lia. }
    apply always_bind. destruct (nz _); [|by apply always_ret, always_ret].
    eapply always_mono; [by apply (wdmd_fed _ (fun _ _ => True))|done|].
    intros h2 rv' Hf2 _. by apply always_ret.
Qed.

Lemma read_sizes_always disk io h :
  dev_ok disk -> fed h ->
  always (delta_read_lockspace_sizes disk io) fed (fun _ r => snd r = None -> fst r < 0) h.
Proof.
  intros Hd Hh. destruct Hgeo as [_ Hoff _ _]. rw /dev_ok in Hd. unfold delta_read_lockspace_sizes.
  apply always_bind, always_read_sectors; [by right|by vm_compute|lia|done|lia|done| |].
  { intros rv Hrv. cbn [fst snd]. apply Z.ltb_lt in Hrv as E. rw E. by apply always_ret. }
  intros rv m Hrv Hm h'. assert (Hf : fed h') by (apply fed_quiet; [done|by repeat constructor]).
  split; [done|]. split; cbn [fst snd].
  - intros Hlt. apply Z.ltb_lt in Hlt as E. rw E. by apply always_ret.
  - intros ->. cbn [Z.ltb]. cases; by apply always_ret.
Qed.

Lemma thread_sizes_always disk leader0 th h :
  dev_ok disk -> th.(th_disk) = Some disk -> fed h ->
  always (thread_sizes com cs sp our disk leader0 th) fed (fun h' th' => started th' h') h.
Proof.
  intros Hd Hdisk Hh. unfold thread_sizes.
  assert (Hfail : forall th0 rv h0, th0.(th_disk) = Some disk -> fed h0 -> rv < 0 ->
    always (Ret (th0 <| th_acquire_result := rv |> <| th_delta_result := -1 |>)) fed
      (fun h' th' => started th' h') h0).
  { intros th0 rv h0 E Hf Hrv. apply always_ret; [done|]. unfold started. cbn [th_disk set_field]. by rw E. }
  apply always_bind. eapply always_mono; [by apply read_sizes_always|done|].
  intros h1 r Hf1 Hr. cbn beta in Hr. destruct (snd r) as [[ss al]|]; [|by apply Hfail; auto].
  destruct (negb (ss =? 512) && _) eqn:Ess; [by apply Hfail|].
  destruct (size_to_max_hosts ss al =? 0) eqn:Em; [by apply Hfail|].
  destruct (u64 _ <? _) eqn:Eh; [by apply Hfail|].
  apply always_bind, call_fed; [done|by repeat constructor|]. intros [] _. cbn [ev].
  set (th1 := th <| th_sizes := _ |>).
  assert (Hs : sizes_ok th1.(th_sizes)).
  { zbool. apply size_to_max_hosts_supported in Em. pose proof (supported_align _ _ Em) as Hal.
    destruct (supported_fits _ _ Em) as (Hss & Hm & Hfit). unfold ALIGN_SIZE_8M, ALIGN_SIZE_1M in Hal.
    unfold u64 in Eh. rw wrapu_small in Eh; [unfold is_u; lia|]. destruct Hgeo as [Hhost _ _ Hio].
    split; cbn [th_sizes set_field th1 sp_sector_size sp_align_size sp_io_timeout]; [done|]. split; [|done].
    destruct Hss as [-> | ->]; lia. }
  assert (Hd1 : th1.(th_disk) = Some disk) by done. clearbody th1.
  assert (Hf2 : fed (h1 ++ [EvSpace (SpSizes ss al (size_to_max_hosts ss al))]))
    by (apply fed_quiet; [done|by repeat constructor]).
  apply always_bind. eapply always_mono; [apply (max_sectors_always (fun _ => True)); done|done|].
  intros h3 _ Hf3 _. apply always_bind, call_fed; [done|by constructor|]. intros ok _. cbn [ev]. rw app_nil_r.
  destruct ok; cbn [negb]; [|by apply Hfail].
  apply always_bind, call_fed; [done|by repeat constructor|]. intros [] _. cbn [ev].
  assert (Hf4 : fed (h3 ++ [EvSpace SpReadBuf])) by (apply fed_quiet; [done|by repeat constructor]).
  apply always_bind. eapply always_mono; [by apply (connect_always (fun _ => True))|done|].
  intros h5 con Hf5 _. destruct (con <? 0); [by apply Hfail|].
  apply always_bind. eapply always_mono; [by apply (open_always (fun _ => True))|done|].
  intros h6 rv Hf6 _. destruct (rv <? 0); [|by apply thread_acquire_always].
  apply always_bind. eapply always_mono; [by apply (disconnect_always (fun _ => True))|done|].
  intros h7 _ Hf7 _. by apply Hfail.
Qed.

Lemma thread_start_always leader0 leader_ret :
  always (thread_start com cs sp our leader0 leader_ret) fed (fun h' th' => started th' h') [].
Proof.
  pose proof fed_nil as H0. unfold thread_start.
  apply always_bind, call_fed; [done|by constructor|]. intros t _. cbn [ev app].
  apply always_bind, call_fed; [done|by constructor|]. intros r _. cbn [ev app]. apply always_bind.
  set (th0 := ThreadState _ _ _ _ _ _ _ _).
  set (p := if fst r <? 0 then _ else _).
  assert (Hp : always p fed (fun h' th' => started th' h') []).
  { unfold p. destruct (fst r <? 0); [by apply always_ret|]. by apply thread_sizes_always. }
  clearbody p. eapply always_mono; [exact Hp|done|]. intros h th Hf Hst.
  apply always_bind, always_call; [done|]. intros [] _. cbn [ev].
  assert (Hf' : fed (h ++ [EvSpace (SpAcquired th.(th_acquire_result) th.(th_delta_result) th.(th_delta_begin)
                                      th.(th_last_success))])).
  { apply fed_snoc; [done| |done]. intros ts. cbn [claim]. destruct (Z.eqb_spec th.(th_delta_result) SANLK_OK) as [E|]; [|done].
    intros [= <-]. unfold started in Hst. destruct th.(th_disk); [|by destruct Hst].
    destruct Hst as (_ & Hh & _). by apply Hh. }
  split; [done|]. apply always_ret; [done|]. by apply started_app.
Qed.

(** *** Renewing *)

Lemma renewed_leader_ok s x1 x2 x3 ts l :
  0 <= s.(sp_io_timeout) -> is_u 64 x1 -> is_u 64 x2 -> is_u 64 x3 -> is_u 64 ts -> leader_record_ok l ->
  leader_record_ok (renewed_leader s (Some (DeltaExtra x1 x2 x3)) ts l).
Proof.
  intros Hio Hx1 Hx2 Hx3 Hts (?&?&?&?&?&?&?&?&?&?&?&?&?&?&?&Hl&?&?&?).
  unfold leader_record_ok, renewed_leader. cbn.
  assert (is_u 32 0) by (by vm_compute).
  assert (is_u 16 (if lr_io_timeout l =? sp_io_timeout s then lr_io_timeout l else Z.land (sp_io_timeout s) 255)).
  { destruct (_ =? _); [done|]. change 255 with (Z.ones 8). rw Z.land_ones; [lia|].
    pose proof (Z.mod_pos_bound (sp_io_timeout s) (2 ^ 8)). unfold is_u. lia. }
  by repeat (split; [done|]).
Qed.

Lemma renewed_written s disk name bitmap x1 x2 x3 pr last h r x :
  sizes_ok s -> dev_ok disk -> is_u 64 x1 -> is_u 64 x2 -> is_u 64 x3 ->
  last.(lr_owner_id) = sp.(sp_host_id) -> r.(rn_leader) = Some x ->
  renewed s disk name bitmap (Some (DeltaExtra x1 x2 x3)) pr last h r ->
  r.(rn_rv) = SANLK_OK /\ leader_record_ok x /\ x.(lr_owner_id) = sp.(sp_host_id) /\
  lease_written x.(lr_timestamp) h.
Proof.
  intros (_ & _ & Hio) Hd Hx1 Hx2 Hx3 Hown Hr Hren. unfold renewed in Hren. rw Hr in Hren.
  destruct Hren as (Hrv & h1 & e & l & ts & _ & (m & -> & Hm & El & _ & Eo & _) & Hts & -> & ->).
  assert (Hl : leader_record_ok l).
  { rw El. apply leader_record_in_ok; [by rw length_mem_read|by apply mem_read_ok]. }
  pose proof (renewed_leader_ok s x1 x2 x3 ts l Hio Hx1 Hx2 Hx3 Hts Hl) as Hok.
  unfold renew_event, renew_record. set (rec := renewed_leader _ _ _ _) in *.
  assert (Hrec : rec.(lr_owner_id) = sp.(sp_host_id) /\ rec.(lr_timestamp) = ts).
  { unfold rec, renewed_leader. cbn. by rw Eo. }
  destruct Hrec as [Hro Hrt]. split; [done|]. split.
  { rw -(proj1 (leader_image_in rec lr_end0 [] Hok eq_refl (zeros_ok _))) app_nil_r. apply leader_record_in_ok.
    - by rw length_leader_image.
    - apply leader_image_bytes; [done|apply zeros_ok]. }
  split; [by rw -Hro|]. eexists disk.(sd_fd), s.(sp_sector_size), _, rec. split; [|split; [|split; [done|]]].
  - rw -Hd -Hown. apply elem_of_app. right. apply list_elem_of_further, list_elem_of_here.
  - rw mem_read_write_disjoint; [left; by vm_compute|].
    rw -{2}(mem_read_of (leader_image rec lr_end0)). by rw length_leader_image.
  - split; [|done]. change (lr_timestamp (lr_with_checksum _ rec)) with (lr_timestamp rec). done.
Qed.

(** The state after a renewal, whether it succeeded or not. *)
Lemma renewal_kept s disk name bitmap x1 x2 x3 pr h es r th t :
  s = th.(th_sizes) -> dev_ok disk -> is_u 64 x1 -> is_u 64 x2 -> is_u 64 x3 -> holding th h ->
  renewed s disk name bitmap (Some (DeltaExtra x1 x2 x3)) pr th.(th_leader) es r ->
  let th0 := th <| th_delta_result := r.(rn_rv) |> <| th_delta_begin := t |> in
  let th1 := match r.(rn_leader) with
             | Some l => th0 <| th_leader := l |> <| th_last_success := l.(lr_timestamp) |>
             | None => th0
             end in
  holding th1 (h ++ es) /\ th1.(th_disk) = th.(th_disk) /\
  (r.(rn_rv) = SANLK_OK -> lease_written th1.(th_last_success) (h ++ es)).
Proof.
  intros -> Hd Hx1 Hx2 Hx3 Hh Hren. cbv zeta. pose proof Hh as (Hs & Hok & Hown & Hts & Hw).
  destruct r.(rn_leader) as [x|] eqn:Ex.
  - destruct (renewed_written _ _ _ _ _ _ _ _ _ _ _ _ Hs Hd Hx1 Hx2 Hx3 Hown Ex Hren)
      as (Hrv & Hxo & Hxh & (fd & ss & m & l & Hin & Hrest)).
    assert (Hw' : lease_written x.(lr_timestamp) (h ++ es)).
    { exists fd, ss, m, l. split; [|done]. apply elem_of_app. by right. }
    split; [by do 4 (split; [done|])|]. split; [done|]. by intros _.
  - split; [by apply (holding_app _ h es) in Hh|]. split; [done|]. intros _. by apply lease_written_app.
Qed.

Lemma thread_renew_always disk ms rr task th h :
  dev_ok disk -> holding th h -> fed h ->
  always (thread_renew com cs sp disk ms rr task th) fed
    (fun h' r => holding (snd r) h' /\ (snd r).(th_disk) = th.(th_disk)) h.
Proof.
  intros Hd Hh Hf. unfold thread_renew.
  apply always_bind, call_fed; [done|by constructor|]. intros [bitmap [[x1 x2] x3]] (Hbl & Hbb & Hx1 & Hx2 & Hx3).
  cbn [fst snd] in *. cbn [ev]. rw app_nil_r.
  apply always_bind, call_fed; [done|by constructor|]. intros t _. cbn [ev]. rw app_nil_r. apply always_bind.
  pose proof Hh as ((Hss & Har & Hio) & Hok & Hown & Hts & Hw).
  eapply always_mono; [eapply delta_embed; [apply delta_renew_uses|done|apply renew_always]|done|].
  { destruct Hgeo. rw /dev_ok in Hd. constructor; rw ?Hown ?Hbl ?Hd; try done; [|lia].
    unfold LEADER_RECORD_MAX. destruct Hss as [-> | ->]; lia. }
  intros h' r Hf' (es & -> & _ & Hren).
  apply always_bind, call_fed; [done|by constructor|]. intros t' _. cbn [ev]. rw app_nil_r.
  set (th1 := match r.(rn_leader) with Some l => _ | None => _ end).
  assert (Hth : holding th1 (h ++ es) /\ th1.(th_disk) = th.(th_disk) /\
    (r.(rn_rv) = SANLK_OK -> lease_written th1.(th_last_success) (h ++ es))) 
    by exact (renewal_kept _ _ _ _ x1 x2 x3 _ h es r th t eq_refl Hd Hx1 Hx2 Hx3 Hh Hren).
  clearbody th1. destruct Hth as (Hh1 & Hdisk & Hw1).
  apply always_bind, always_call; [done|]. intros [] _. cbn [ev].
  set (e := EvSpace _). assert (Hf2 : fed ((h ++ es) ++ [e])).
  { apply fed_snoc; [done| |done]. intros ts. cbn [claim e].
    destruct (Z.eqb_spec r.(rn_rv) SANLK_OK) as [E|]; [|done]. intros [= <-]. by apply Hw1. }
  split; [done|]. apply (holding_app _ _ [e]) in Hh1.
  assert (Hend : forall h0, fed h0 -> holding th1 h0 -> always (Ret (rn_read_result r, rn_task r, th1)) fed
    (fun h' r => holding (snd r) h' /\ (snd r).(th_disk) = th.(th_disk)) h0).
  { intros h0 Hf0 Hh0. by apply always_ret. }
  assert (Hupd : always (update_watchdog cs th1.(th_wd_fd) th1.(th_last_success) (id_renewal_fail_seconds sp)) fed
    (fun h' _ => holding th1 h') ((h ++ es) ++ [e])).
  { apply update_always; [by apply holding_app|done|done|apply Hh1]. }
  assert (Hgo : forall stop : bool, always (_ ← (if stop then Ret tt
      else update_watchdog cs th1.(th_wd_fd) th1.(th_last_success) (id_renewal_fail_seconds sp));
      Ret (rn_read_result r, rn_task r, th1)) fed
    (fun h' r => holding (snd r) h' /\ (snd r).(th_disk) = th.(th_disk)) ((h ++ es) ++ [e])).
  { intros [|]; apply always_bind; [apply always_ret; [done|]; by apply Hend|].
    eapply always_mono; [exact Hupd|done|]. intros h0 [] Hf0 Hh0. by apply Hend. }
  apply always_bind. destruct (rn_rv r =? SANLK_OK); [|apply always_ret; [done|]; apply (Hgo true)].
  apply call_fed; [done|by constructor|]. intros stop _. cbn [ev]. rw app_nil_r. apply Hgo.
Qed.

Lemma thread_loop_always fuel ms disk rr task th h :
  dev_ok disk -> holding th h -> fed h -> th.(th_disk) = Some disk ->
  always (thread_loop com cs sp fuel ms disk rr task th) fed
    (fun h' r => match r with Some th' => holding th' h' /\ th'.(th_disk) = Some disk | None => True end) h.
Proof.
  intros Hd. revert rr task th h. induction fuel as [|fuel IH]; intros rr task th h Hh Hf Hdisk; cbn [thread_loop].
  { by apply always_ret. }
  apply always_bind, call_fed; [done|by constructor|]. intros [|] _; cbn [ev]; rw app_nil_r; [by apply always_ret|].
  apply always_bind, call_fed; [done|by constructor|]. intros now _. cbn [ev]. rw app_nil_r. destruct (_ <? _).
  - apply always_bind, call_fed; [done|by repeat constructor|]. intros [] _. cbn [ev].
    apply IH; [by apply holding_app|apply fed_quiet; [done|by repeat constructor]|done].
  - apply always_bind, call_fed; [done|by constructor|]. intros [] _. cbn [ev]. rw app_nil_r. apply always_bind.
    eapply always_mono; [by apply thread_renew_always|done|].
    intros h' [[rr' task'] th'] Hf' [Hh' Hd']. cbn [snd] in *. apply IH; [done|done|by rw Hd'].
Qed.

Lemma thread_out_always th h :
  fed h ->
  match th.(th_disk) with
  | Some disk => dev_ok disk /\ (th.(th_delta_result) = SANLK_OK -> holding th h)
  | None => True
  end -> always (thread_out th) fed (fun _ _ => True) h.
Proof.
  intros Hf Hst. unfold thread_out. destruct th.(th_disk) as [disk|]; [|by apply always_ret].
  destruct Hst as [Hd Hhold].
  assert (Hclose : forall h, fed h -> always (call (CCloseDisk disk)) fed (fun _ _ => True) h).
  { intros h0 Hf0. apply call_fed; [done|by constructor|done]. }
  apply always_bind. destruct (Z.eqb_spec th.(th_delta_result) SANLK_OK) as [E|_]; [|apply always_ret; auto].
  destruct (Hhold E) as ((Hss & Har & _) & Hok & Hown & _). destruct Hgeo as [Hhost Hoff _ _]. rw /dev_ok in Hd.
  assert (Hfreed : leader_record_ok (freed_leader th.(th_leader))).
  { revert Hok. unfold leader_record_ok, freed_leader. cbn. assert (is_u 64 LEASE_FREE) by (by vm_compute).
    assert (is_u 32 0) by (by vm_compute). intros (?&?&?&?&?&?&?&?&?&?&?&?&?&?&?&?&?&?&?).
    by repeat (split; [done|]). }
  unfold delta_lease_release, write_delta_leader. apply always_bind, always_bind, always_bind.
  assert (u64 (lr_owner_id (th_leader th) - 1) = sp.(sp_host_id) - 1) as ->.
  { rw Hown. apply wrapu_small. unfold is_u. lia. }
  apply always_write_sector; [done| | |lia|lia|nia|done| |].
  - rw length_leader_image //. change (Z.of_nat sizeof_leader_record) with 200. destruct Hss as [-> | ->]; lia.
  - apply leader_image_bytes; [done|apply zeros_ok].
  - intros rv _. apply always_ret; [done|]. cases; apply always_ret; auto; apply always_ret; auto.
  - intros rv _. assert (Hf' : forall e, no_claim e -> fed (h ++ [e])).
    { intros e He. apply fed_quiet; [done|by apply Forall_singleton]. }
    split; [by apply Hf'|]. apply always_ret; [by apply Hf'|].
    cases; (apply always_ret; [by apply Hf'|]); (apply always_ret; [by apply Hf'|]); apply Hclose; by apply Hf'.
Qed.

Lemma lockspace_thread_always fuel ms leader0 leader_ret rr :
  always (lockspace_thread com cs sp our fuel ms leader0 leader_ret rr) fed (fun _ _ => True) [].
Proof.
  unfold lockspace_thread. apply always_bind.
  eapply always_mono; [apply thread_start_always|done|]. intros h th Hf Hst.
  destruct (th_acquire_result th <? 0) eqn:Ea.
  { apply thread_out_always; [done|]. unfold started in Hst. destruct th.(th_disk); [|done].
    by destruct Hst as (? & ? & _). }
  apply always_bind, call_fed; [done|by repeat constructor|]. intros [] _. cbn [ev].
  apply (started_app _ _ [EvSpace (SpGeneration (lr_owner_generation (th_leader th)))]) in Hst.
  assert (Hf' : fed (h ++ [EvSpace (SpGeneration (lr_owner_generation (th_leader th)))]))
    by (apply fed_quiet; [done|by repeat constructor]).
  unfold started in Hst. destruct th.(th_disk) as [disk|] eqn:Ed; [|by apply always_ret].
  destruct Hst as (Hd & Hhold & Hneg). zbool.
  assert (Hh : holding th (h ++ [EvSpace (SpGeneration (lr_owner_generation (th_leader th)))])).
  { apply Hhold. destruct (Z.eq_dec th.(th_delta_result) SANLK_OK); [done|]. specialize (Hneg n). lia. }
  apply always_bind. eapply always_mono; [by apply thread_loop_always|done|].
  intros h' [th'|] Hf2 Hth; [|by apply always_ret]. destruct Hth as [Hh' Ed'].
  apply always_bind. eapply always_mono; [apply (disconnect_always (holding th')); auto using holding_app|done|].
  intros h2 [] Hf3 Hh2. apply thread_out_always; [done|]. by rw Ed'.
Qed.
End feed.

(** ** Properties *)

(** The events of a run. *)
Fixpoint trace {A W} (hd : handler W) (p : prog A) (w : W) : list event :=
  match p with
  | Ret _ => []
  | Ub => []
  | Io c k => let '(x, w') := hd _ c w in ev c x ++ trace hd (k x) w'
  end.

(** C15: The watchdog follows the lease. Whatever the i/o results, the answers of
    wdmd and the flags set by other threads, [lockspace_thread] tells wdmd only
    of renewals that have been written: every timestamp it passes to
    [wdmd_test_live], and every success it publishes for [check_our_lease], is
    the timestamp of a record of this host that was written to its sector
    before, and wdmd is told to expire [calc_id_renewal_fail_seconds] after it.
    The thread also makes no access out of bounds. *)
Theorem watchdog_follows_lease com cs sp our fuel ms leader0 leader_ret read_result :
  thread_geometry sp our ->
  always (lockspace_thread com cs sp our fuel ms leader0 leader_ret read_result) (fed sp) (fun _ _ => True) [].
Proof. intros Hgeo. by apply lockspace_thread_always. Qed.

(** *** A host that joins a new lockspace and renews once *)

Definition demo_thread_config : com_space := ComSpace 0 0 0 1 0 0 0 1.
Definition demo_thread_ls : sanlk_lockspace := Lockspace [76; 83] 2 0x210 (SyncDisk [47; 100] 0 0 0).
Definition demo_thread_space : lspace := new_space demo_com demo_thread_config demo_thread_ls 10 4096 true.

Definition demo_thread : prog unit :=
  _ ← delta_lease_init demo_com demo_thread_ls 10 (SyncDisk [] 0 4096 0);
  lockspace_thread demo_com demo_thread_config demo_thread_space [104] 45 (fun _ => (1, 2))
    leader_zero leader_zero 0.

Definition watchdog_calls (h : list event) : list wd_call :=
  h ≫= fun e => match e with EvWatchdog c _ => [c] | _ => [] end.

Lemma demo_thread_geometry : thread_geometry demo_thread_space [104].
Proof. constructor; [by vm_compute..|apply Forall_singleton; by vm_compute|by vm_compute]. Qed.

Lemma watchdog_follows_lease_witness :
  watchdog_calls (trace world_handler demo_thread demo_world) =
    [WdmdConnect; WdmdOpenWatchdog 0 60; WdmdRegister 0 [76; 83] 2; WdmdRefcountSet 0;
     WdmdTestLive 0 1000 1080; WdmdTestLive 0 1020 1100; WdmdTestLive 0 1040 1120;
     WdmdTestLive 0 1060 1140] /\
  always (lockspace_thread demo_com demo_thread_config demo_thread_space [104] 45 (fun _ => (1, 2))
            leader_zero leader_zero 0) (fed demo_thread_space) (fun _ _ => True) [].
Proof.
  split; [vm_compute; reflexivity|].
  apply (watchdog_follows_lease demo_com demo_thread_config demo_thread_space [104] 45 (fun _ => (1, 2))).
  exact demo_thread_geometry.
Defined.

(** wdmd accepts connections, with descriptor 7, but cannot open the watchdog
    device. *)
Definition wdmd_down : handler world := fun X c =>
  match c in cmd X return world -> X * world with
  | CWatchdog WdmdConnect => fun w => (7, w)
  | CWatchdog (WdmdOpenWatchdog _ _) => fun w => (-1, w)
  | c => world_handler _ c
  end.

(** when wdmd cannot open the watchdog device, the thread closes the wrong
    descriptor: [disconnect_watchdog] closes [sp->wd_fd], which is still 0, and
    the connection to wdmd is left open. *)
Theorem open_failure_closes_stdin :
  watchdog_calls (trace wdmd_down demo_thread demo_world) =
    [WdmdConnect; WdmdOpenWatchdog 7 60; WdClose 0].
Proof. vm_compute. reflexivity. Qed.
