(* ===== verification/LockspaceLists.v ===== *)
(** * The lists of lockspaces

    The invariant of [spaces], [spaces_add] and [spaces_rem]: every space is on
    one list and has an address, a name and a disk location of its own, its arrays
    have their sizes, and a space that is in use has a running thread. Operations
    are shown to keep it through what they do to the identity of the spaces: most
    change a space in place ([same_lists]), the others move a space. *)

From S2P Require Import Prelude OnDisk SizeFlags Timeouts Io DeltaLease PaxosBlocks Lockspace HostStatus.

(** ** Identity of a space *)

(** What [strncmp] over [NAME_ID_SIZE] compares, and the location of the disk. *)
Definition name_key (n : list Z) : list Z := take NAME_ID_SIZE (cstr n).
Definition disk_key (d : sync_disk) : list Z * Z := (take SANLK_PATH_LEN (cstr d.(sd_path)), d.(sd_offset)).

Definition sp_key (sp : lspace) : list Z := name_key sp.(sp_space_name).
Definition sp_disk_key (sp : lspace) : list Z * Z := disk_key sp.(sp_host_id_disk).

(** The history is a ring of [sp_renewal_history_size] entries. *)
Definition history_ok (sp : lspace) : Prop :=
  match sp.(sp_renewal_history) with
  | None => True
  | Some l =>
      let n := Z.of_nat (length l) in
      0 < n -> sp.(sp_renewal_history_size) = n /\
        0 <= sp.(sp_renewal_history_next) < n /\ 0 <= sp.(sp_renewal_history_prev) < n
  end.

(** The sizes of the arrays, and the order of the steps of recovery: the space is
    dead before its processes are killed. *)
Record space_ok (sp : lspace) : Prop := SpaceOk {
  sok_hosts : length sp.(sp_host_status) = Z.to_nat DEFAULT_MAX_HOSTS;
  sok_events : length sp.(sp_event_fds) = MAX_EVENT_FDS;
  sok_history : history_ok sp;
  sok_dead : sp.(sp_killing_pids) <> 0 -> sp.(sp_space_dead) <> 0
}.

(** A change of a space in place. *)
Record same_ident (sp sp' : lspace) : Prop := SameIdent {
  si_list : sp'.(sp_list) = sp.(sp_list);
  si_key : sp_key sp' = sp_key sp;
  si_disk : sp_disk_key sp' = sp_disk_key sp;
  si_stop : sp'.(sp_thread_stop) = sp.(sp_thread_stop);
  si_ok : space_ok sp -> space_ok sp'
}.

Record same_lists (ls ls' : lockspaces) : Prop := SameLists {
  sl_spaces : Forall2 same_ident ls.(spaces) ls'.(spaces);
  sl_add : Forall2 same_ident ls.(spaces_add) ls'.(spaces_add);
  sl_rem : Forall2 same_ident ls.(spaces_rem) ls'.(spaces_rem)
}.

(** ** The invariant *)

Record lists_ok (ls : lockspaces) : Prop := ListsOk {
  lo_addr : NoDup (sp_list <$> all_spaces ls);
  lo_name : NoDup (sp_key <$> all_spaces ls);
  lo_disk : NoDup (sp_disk_key <$> all_spaces ls);
  lo_space : Forall space_ok (all_spaces ls);
  lo_stop : Forall (fun sp => sp.(sp_thread_stop) = 0) ls.(spaces)
}.

Lemma same_ident_refl sp : same_ident sp sp.
Proof. by constructor. Qed.
#[export] Hint Resolve same_ident_refl : sanlock.

Lemma Forall2_refl {A} (R : A -> A -> Prop) (l : list A) : (forall x, R x x) -> Forall2 R l l.
Proof. intros H. by induction l; constructor. Qed.

Lemma Forall2_fmap_r_refl {A} (R : A -> A -> Prop) (f : A -> A) (l : list A) :
  Forall (fun x => R x (f x)) l -> Forall2 R l (f <$> l).
Proof. induction 1; constructor; auto. Qed.

(** Lists that agree elementwise agree on every image the relation keeps. *)
Lemma Forall2_fmap_eq {A B} (R : A -> A -> Prop) (g : A -> B) (l l' : list A) :
  (forall x y, R x y -> g y = g x) -> Forall2 R l l' -> g <$> l' = g <$> l.
Proof. intros Hg. induction 1; csimpl; [done|]. f_equal; auto. Qed.

Lemma same_lists_refl ls : same_lists ls ls.
Proof. constructor; apply Forall2_refl; auto with sanlock. Qed.
#[export] Hint Resolve same_lists_refl : sanlock.

Lemma same_lists_all ls ls' : same_lists ls ls' -> Forall2 same_ident (all_spaces ls) (all_spaces ls').
Proof. intros []. repeat apply Forall2_app; done. Qed.

Lemma same_lists_image {B} (g : lspace -> B) ls ls' :
  (forall x y, same_ident x y -> g y = g x) -> same_lists ls ls' ->
  g <$> all_spaces ls' = g <$> all_spaces ls.
Proof. intros Hg H. eapply Forall2_fmap_eq; [exact Hg|by apply same_lists_all]. Qed.

Lemma same_ident_ok l l' : Forall2 same_ident l l' -> Forall space_ok l -> Forall space_ok l'.
Proof. induction 1 as [|x y l l' Hxy _ IH]; intros Hl; inv Hl; constructor; [by apply Hxy|auto]. Qed.

Lemma same_ident_stop l l' :
  Forall2 same_ident l l' -> Forall (fun sp => sp.(sp_thread_stop) = 0) l ->
  Forall (fun sp => sp.(sp_thread_stop) = 0) l'.
Proof.
  induction 1 as [|x y l l' Hxy _ IH]; intros Hl; inv Hl; constructor; [|auto].
  by rw (si_stop _ _ Hxy).
Qed.

Lemma lists_ok_same ls ls' : same_lists ls ls' -> lists_ok ls -> lists_ok ls'.
Proof.
  intros H [Ha Hn Hd Ho Hs]. pose proof (same_lists_all _ _ H) as Hall.
  constructor.
  - rw (same_lists_image sp_list ls ls'); [by intros ?? []|done..].
  - rw (same_lists_image sp_key ls ls'); [by intros ?? []|done..].
  - rw (same_lists_image sp_disk_key ls ls'); [by intros ?? []|done..].
  - by eapply same_ident_ok.
  - by eapply same_ident_stop; [apply H|].
Qed.

(** A change of one space through its address. *)
Lemma update_same p f ls :
  (forall sp, sp.(sp_list) = p -> sp ∈ all_spaces ls -> same_ident sp (f sp)) ->
  same_lists ls (update_space p f ls).
Proof.
  intros Hf.
  assert (forall l, l ⊆ all_spaces ls -> Forall2 same_ident l (update_at p f l)) as Hl.
  { intros l Hl. apply Forall2_fmap_r_refl, list.Forall_forall. intros sp Hsp.
    destruct (Z.eqb_spec sp.(sp_list) p); [apply Hf; [done|exact (Hl _ Hsp)]|auto with sanlock]. }
  constructor; apply Hl; unfold all_spaces; intros x; rw !elem_of_app; tauto.
Qed.

Lemma update_same_always p f ls : (forall sp, same_ident sp (f sp)) -> same_lists ls (update_space p f ls).
Proof. intros Hf. apply update_same. auto. Qed.

(** ** Operations that change a space in place *)

(** A change that leaves the identity and the recovery state alone, and the sizes
    of the arrays. *)
Ltac same_fields :=
  constructor; try done; intros [? ? ? ?]; constructor; try done; cbn [set_field]; try done.

Lemma set_host_same host_id f sp : same_ident sp (set_host host_id f sp).
Proof. same_fields. by cbn; rw length_alter. Qed.

Lemma host_status_set_bit_same now name h ls : same_lists ls (snd (host_status_set_bit now name h ls)).
Proof.
  unfold host_status_set_bit. cases; cbn [snd]; auto with sanlock.
  destruct (named_space ls name) as [sp|]; cases; cbn [snd]; auto with sanlock.
  apply update_same_always. intros. apply set_host_same.
Qed.

Lemma set_event_space_same now he flags sp : same_ident sp (set_event_space now he flags sp).
Proof.
  unfold set_event_space. cases; same_fields; cbn; [|by rw length_alter].
  rw length_app length_fmap length_take length_drop length_alter. lia.
Qed.

Lemma lockspace_set_event_same now l he flags ls : same_lists ls (snd (lockspace_set_event now l he flags ls)).
Proof.
  unfold lockspace_set_event. destruct (_ || _); cbn [snd]; auto with sanlock.
  destruct (named_space ls _) as [sp|]; [|auto with sanlock].
  destruct (_ <? _); cbn [snd]; auto with sanlock.
  repeat case_match; cbn [snd]; auto with sanlock; apply update_same_always; intros;
    auto using set_host_same, set_event_space_same; same_fields.
Qed.

Lemma clean_event_fds_length rx fds : length (fst (clean_event_fds_loop rx fds)) = length fds.
Proof.
  induction fds as [|fd fds IH]; [done|]. cbn.
  destruct (clean_event_fds_loop rx fds) as [rest n]. cbn in IH.
  cases; repeat case_match; cbn; try lia. all: cbn in *; simplify_eq; cbn; lia.
Qed.

Lemma reg_event_length fd fds : length (snd (reg_event_loop fd fds)) = length fds.
Proof.
  induction fds as [|f fds IH]; [done|]. cbn. cases; [done|].
  destruct (reg_event_loop fd fds) as [n rest]. cbn in *. lia.
Qed.

(** Only the event descriptors change. *)
Lemma same_events fds sp : length fds = length sp.(sp_event_fds) -> same_ident sp (sp <| sp_event_fds := fds |>).
Proof. intros H. same_fields. by rw -H in sok_events0. Qed.

Lemma same_ident_trans sp1 sp2 sp3 : same_ident sp1 sp2 -> same_ident sp2 sp3 -> same_ident sp1 sp3.
Proof. intros [] []. constructor; [congruence..|auto]. Qed.

Lemma reg_event_once_same fd sp : same_ident sp (snd (reg_event_once fd sp)).
Proof.
  unfold reg_event_once. pose proof (reg_event_length fd sp.(sp_event_fds)) as H.
  destruct (reg_event_loop _ _) as [n rest]. by apply same_events.
Qed.

Lemma clean_event_fds_same rx sp : same_ident sp (snd (_clean_event_fds rx sp)).
Proof.
  unfold _clean_event_fds. pose proof (clean_event_fds_length rx sp.(sp_event_fds)) as H.
  destruct (clean_event_fds_loop _ _) as [rest n]. by apply same_events.
Qed.

Lemma reg_event_space_same dup1 dup2 rx sp : same_ident sp (snd (reg_event_space dup1 dup2 rx sp)).
Proof.
  unfold reg_event_space.
  pose proof (reg_event_once_same dup1 sp) as H1. destruct (reg_event_once dup1 sp) as [n1 sp1].
  destruct (0 <=? n1); [done|].
  pose proof (clean_event_fds_same rx sp1) as H2. destruct (_clean_event_fds rx sp1) as [c sp2].
  pose proof (same_ident_trans _ _ _ H1 H2) as H12.
  destruct (c =? 0); [done|].
  pose proof (reg_event_once_same dup2 sp2) as H3. destruct (reg_event_once dup2 sp2) as [n2 sp3].
  cases; exact (same_ident_trans _ _ _ H12 H3).
Qed.

Lemma lockspace_reg_event_same dup1 dup2 rx l ls : same_lists ls (snd (lockspace_reg_event dup1 dup2 rx l ls)).
Proof.
  unfold lockspace_reg_event. repeat case_match; cbn [snd]; auto with sanlock.
  apply update_same_always. intros. apply reg_event_space_same.
Qed.

Lemma lockspace_end_event_same rx l ls : same_lists ls (snd (lockspace_end_event rx l ls)).
Proof.
  unfold lockspace_end_event. repeat case_match; cbn [snd]; auto with sanlock.
  apply update_same_always. intros. apply clean_event_fds_same.
Qed.

Lemma lockspace_set_config_same l cmd ls : same_lists ls (snd (lockspace_set_config l cmd ls)).
Proof.
  unfold lockspace_set_config. repeat case_match; cbn [snd]; auto with sanlock.
  all: apply update_same_always; intros; same_fields.
Qed.

Lemma begin_rindex_op_same name op ls : same_lists ls (snd (lockspace_begin_rindex_op name op ls)).
Proof.
  unfold lockspace_begin_rindex_op. repeat case_match; cbn [snd]; auto with sanlock.
  apply update_same_always; intros; same_fields.
Qed.

Lemma clear_rindex_op_same name ls : same_lists ls (snd (lockspace_clear_rindex_op name ls)).
Proof.
  unfold lockspace_clear_rindex_op. repeat case_match; cbn [snd]; auto with sanlock.
  apply update_same_always; intros; same_fields.
Qed.

Lemma rem_lockspace_start_same l ls : same_lists ls (snd (rem_lockspace_start l ls)).
Proof.
  unfold rem_lockspace_start. repeat case_match; cbn [snd]; auto with sanlock.
  all: apply update_same_always; intros; same_fields.
Qed.

Lemma check_our_lease_same now buf sp : same_ident sp (snd (check_our_lease now buf sp)).
Proof. unfold check_our_lease. cbn [snd]. cases; [same_fields|auto with sanlock]. Qed.

Lemma check_other_length now sp buf i l : length (fst (fst (check_other_loop now sp buf i l))) = length l.
Proof.
  revert i. induction l as [|hs l IH]; intros i; [done|]. cbn [check_other_loop].
  destruct (check_other_lease _ _ _ _ _ _) as [[hs' ev] req]. specialize (IH (i + 1)).
  destruct (check_other_loop _ _ _ _ _) as [[l' evs] new]. cbn [fst] in *. cbn. lia.
Qed.

Lemma check_other_leases_same now sp buf : same_ident sp (fst (fst (check_other_leases now sp buf))).
Proof.
  unfold check_other_leases.
  pose proof (check_other_length now sp buf 0 (take (Z.to_nat sp.(sp_max_hosts)) sp.(sp_host_status))) as H.
  destruct (check_other_loop _ _ _ _ _) as [[l evs] new]. cbn [fst] in *.
  same_fields. cbn. rw length_app length_drop H length_take. lia.
Qed.

(** The ring of renewals: an entry is written within it, and the indices stay
    within it. *)
Lemma save_history_same r t rd wr sp : same_ident sp (save_renewal_history r t rd wr sp).
Proof.
  unfold save_renewal_history. destruct (sp_renewal_history sp) as [l|] eqn:El; [|auto with sanlock].
  destruct (Z.eqb_spec sp.(sp_renewal_history_size) 0) as [|Hne]; [auto with sanlock|].
  constructor; try by cases. intros [H1 H2 H3 H4].
  unfold history_ok in H3. rw El in H3.
  constructor; try by cases. unfold history_ok.
  cases; cbn; rw length_alter; intros Hpos; specialize (H3 Hpos); zbool; lia.
Qed.

Lemma sp_apply_same u sp : same_ident sp (sp_apply u sp).
Proof.
  destruct u; cbn [sp_apply]; try by same_fields.
  - eapply same_ident_trans; [|apply save_history_same]. cases; same_fields.
  - eapply same_ident_trans; [|apply save_history_same]. cases; same_fields.
Qed.

(** ** Searching *)

Lemma find_space_elem p l sp : find_space p l = Some sp -> sp ∈ l /\ p sp = true.
Proof.
  induction l as [|x l IH]; cbn; [done|]. destruct (p x) eqn:E.
  - intros [= ->]. split; [apply list_elem_of_here|done].
  - intros H. destruct (IH H). split; [by apply list_elem_of_further|done].
Qed.

Lemma find_space_none p l : find_space p l = None -> Forall (fun sp => p sp = false) l.
Proof. induction l as [|x l IH]; cbn; [done|]. destruct (p x) eqn:E; [done|]. constructor; auto. Qed.

Lemma search_space_none name disk host_id heads n :
  _search_space name disk host_id heads n = None ->
  Forall (fun sp => space_matches name disk host_id sp = false) (concat heads).
Proof.
  revert n. induction heads as [|l heads IH]; intros n; cbn; [done|].
  destruct (find_space _ l) eqn:E; [done|]. intros H.
  apply Forall_app. split; [by apply find_space_none|by eapply IH].
Qed.

Lemma strncmp_key a b : strncmp_eq NAME_ID_SIZE a b = true <-> name_key a = name_key b.
Proof. unfold strncmp_eq. apply bool_decide_eq_true. Qed.

(** No space matches a name, or a disk, by [_search_space]: its key is new. *)
Lemma search_name_new n l :
  Forall (fun sp => space_matches (Some n) None 0 sp = false) l -> name_key n ∉ sp_key <$> l.
Proof.
  induction 1 as [|sp l H _ IH]; csimpl; [set_solver|]. apply not_elem_of_cons. split; [|done].
  intros Heq. unfold space_matches in H. by rw (proj2 (strncmp_key _ _) (eq_sym Heq)) in H.
Qed.

Lemma search_disk_new d l :
  Forall (fun sp => space_matches None (Some d) 0 sp = false) l -> disk_key d ∉ sp_disk_key <$> l.
Proof.
  induction 1 as [|sp l H _ IH]; csimpl; [set_solver|]. apply not_elem_of_cons. split; [|done].
  intros Heq. unfold sp_disk_key, disk_key in Heq. injection Heq as Hp Ho.
  unfold space_matches, strncmp_eq in H. rw -Hp -Ho Z.eqb_refl bool_decide_eq_true_2 in H; done.
Qed.

(** ** Operations that move spaces *)

(** A space that may have been told to stop. *)
Record moved (sp sp' : lspace) : Prop := Moved {
  mv_list : sp'.(sp_list) = sp.(sp_list);
  mv_key : sp_key sp' = sp_key sp;
  mv_disk : sp_disk_key sp' = sp_disk_key sp;
  mv_ok : space_ok sp -> space_ok sp'
}.

Lemma same_moved sp sp' : same_ident sp sp' -> moved sp sp'.
Proof. by intros []. Qed.
#[export] Hint Resolve same_moved : sanlock.

Lemma moved_stop n sp : moved sp (sp <| sp_thread_stop := n |>).
Proof. constructor; try done. by intros []. Qed.

Lemma moved_trans sp1 sp2 sp3 : moved sp1 sp2 -> moved sp2 sp3 -> moved sp1 sp3.
Proof. intros [] []. constructor; [congruence..|auto]. Qed.

Lemma moved_ok l l' : Forall2 moved l l' -> Forall space_ok l -> Forall space_ok l'.
Proof. induction 1 as [|x y l l' Hxy _ IH]; intros Hl; inv Hl; constructor; [by apply Hxy|auto]. Qed.

(** The spaces of [ls'] are those of [ls], changed and reordered, but for [k]. *)
Lemma lists_ok_moved ls ls' l k :
  lists_ok ls -> Forall2 moved (all_spaces ls) l -> l ≡ₚ all_spaces ls' ++ k ->
  Forall (fun sp => sp.(sp_thread_stop) = 0) ls'.(spaces) -> lists_ok ls'.
Proof.
  intros [Ha Hn Hd Ho Hs] Hm Hp Hs'.
  assert (forall {B} (g : lspace -> B), (forall x y, moved x y -> g y = g x) ->
            NoDup (g <$> all_spaces ls) -> NoDup (g <$> all_spaces ls')) as Hnd.
  { intros B g Hg Hl. rw -(Forall2_fmap_eq moved g _ _ Hg Hm) in Hl.
    rw Hp fmap_app in Hl. by apply list.NoDup_app in Hl as []. }
  constructor; [apply Hnd; [by intros ?? []|done]..| |done].
  apply (moved_ok _ _ Hm) in Ho. rw Hp in Ho. by apply Forall_app in Ho as [].
Qed.

Lemma deref_elem p ls sp : deref p ls = Some sp -> sp ∈ all_spaces ls /\ sp.(sp_list) = p.
Proof. intros H. apply find_space_elem in H as [H E]. by zbool. Qed.

Lemma list_del_notin p l : p ∉ sp_list <$> l -> list_del p l = l.
Proof.
  induction l as [|sp l IH]; csimpl; [done|]. intros [H1 H2]%not_elem_of_cons.
  destruct (Z.eqb_spec sp.(sp_list) p); [congruence|]. cbn. by rw IH.
Qed.

Lemma list_del_perm sp l :
  NoDup (sp_list <$> l) -> sp ∈ l -> l ≡ₚ sp :: list_del sp.(sp_list) l.
Proof.
  induction l as [|x l IH]; csimpl; intros Hnd Hin; [by apply elem_of_nil in Hin|].
  apply list.NoDup_cons in Hnd as [Hx Hnd]. apply elem_of_cons in Hin as [->|Hin].
  - cbn. rw Z.eqb_refl. cbn. fold (list_del x.(sp_list) l). by rw list_del_notin.
  - cbn. destruct (Z.eqb_spec x.(sp_list) sp.(sp_list)) as [E|].
    { destruct Hx. rw E. by apply list_elem_of_fmap_2. }
    cbn. fold (list_del sp.(sp_list) l). rw {1}IH; [done..|]. apply Permutation_swap.
Qed.

Lemma unlink_all p ls : all_spaces (unlink p ls) = list_del p (all_spaces ls).
Proof. unfold all_spaces, list_del, unlink. cbn. by rw !List.filter_app. Qed.

Lemma list_del_stop p l :
  Forall (fun sp => sp.(sp_thread_stop) = 0) l -> Forall (fun sp => sp.(sp_thread_stop) = 0) (list_del p l).
Proof. induction 1; cbn; [done|]. cases; by try constructor. Qed.

Lemma unlink_ok p sp ls : lists_ok ls -> deref p ls = Some sp -> lists_ok (unlink p ls).
Proof.
  intros Hok [Hin Ep]%deref_elem. eapply (lists_ok_moved ls _ (all_spaces ls) [sp]); [done| | |].
  - apply Forall2_refl. auto with sanlock.
  - rw unlink_all -Ep Permutation_app_comm. apply list_del_perm; [apply Hok|done].
  - by apply list_del_stop, Hok.
Qed.

(** ** Adding a space *)

(** A space that is being added: its thread runs and it is on [spaces_add], or it
    has been told to stop but is there still. *)
Definition adding (p : Z) (ls : lockspaces) : Prop :=
  exists sp, sp ∈ ls.(spaces_add) /\ sp.(sp_list) = p /\ sp.(sp_thread_stop) = 0.
Definition on_add (p : Z) (ls : lockspaces) : Prop := p ∈ sp_list <$> ls.(spaces_add).

Lemma adding_on_add p ls : adding p ls -> on_add p ls.
Proof. intros (sp & Hin & <- & _). by apply list_elem_of_fmap_2. Qed.

(** Elements with the same image are the same when images are distinct. *)
Lemma NoDup_fmap_unique {A B} (g : A -> B) l x y :
  NoDup (g <$> l) -> x ∈ l -> y ∈ l -> g y = g x -> y = x.
Proof.
  intros Hnd [i Hi]%list_elem_of_lookup [j Hj]%list_elem_of_lookup E.
  assert (i = j) as ->; [|congruence].
  apply (NoDup_lookup _ i j (g x) Hnd); rw list_lookup_fmap; [by rw Hi|by rw Hj /= E].
Qed.

Lemma addr_unique ls sp sp' :
  lists_ok ls -> sp ∈ all_spaces ls -> sp' ∈ all_spaces ls -> sp'.(sp_list) = sp.(sp_list) -> sp' = sp.
Proof. intros Hok. apply NoDup_fmap_unique, Hok. Qed.

Lemma key_unique ls sp sp' :
  lists_ok ls -> sp ∈ all_spaces ls -> sp' ∈ all_spaces ls -> sp_key sp' = sp_key sp -> sp' = sp.
Proof. intros Hok. apply NoDup_fmap_unique, Hok. Qed.

Lemma deref_unique p ls sp sp' :
  lists_ok ls -> sp ∈ all_spaces ls -> sp.(sp_list) = p -> deref p ls = Some sp' -> sp' = sp.
Proof. intros Hok Hin Ep [Hin' Ep']%deref_elem. by apply (addr_unique ls); [..|congruence]. Qed.

Lemma add_start_spec com cs l io m hist ls rv out ls' :
  lists_ok ls -> add_lockspace_start com cs l io m hist ls = (rv, out, ls') ->
  (forall p, m = Some p -> p ∉ sp_list <$> all_spaces ls) ->
  match out with
  | None => ls' = ls
  | Some p =>
      lists_ok ls' /\ adding p ls' /\ ls'.(spaces) = ls.(spaces) /\ ls'.(spaces_rem) = ls.(spaces_rem) /\
      (p ∉ sp_list <$> all_spaces ls) /\ exists sp, ls'.(spaces_add) = sp :: ls.(spaces_add)
  end.
Proof.
  intros Hok Hst Hm. unfold add_lockspace_start in Hst.
  destruct (_ || _); [by simplify_eq|]. destruct m as [p|]; [|by simplify_eq].
  set (sp0 := new_space _ _ _ _ _ _) in Hst.
  do 3 (destruct (search_one _ _ _ _); [by simplify_eq|]).
  destruct (_search_space (Some _) _ _ _ _) eqn:En; [by simplify_eq|].
  destruct (_search_space None _ _ _ _) eqn:Ed; [by simplify_eq|]. simplify_eq.
  apply search_space_none, search_name_new in En. apply search_space_none, search_disk_new in Ed.
  cbn [concat] in En, Ed. rw app_nil_r in En Ed. fold (all_spaces ls) in En, Ed.
  set (sp := sp0 <| sp_space_id := _ |>).
  specialize (Hm _ eq_refl). split_and!; try done; [|by exists sp; split; [apply list_elem_of_here|]|by exists sp].
  assert (forall {B} (g : lspace -> B), g sp ∉ g <$> all_spaces ls -> NoDup (g <$> all_spaces ls) ->
    NoDup (g <$> (ls.(spaces) ++ (sp :: ls.(spaces_add)) ++ ls.(spaces_rem)))) as Hnd.
  { intros B g Hg Hl. rw -(app_comm_cons) -Permutation_middle. by constructor. }
  destruct Hok as [Ha Hn Hd Ho Hs]. constructor; cbn; [by apply Hnd..| |done].
  rw -Permutation_middle. constructor; [|done].
  constructor; [apply length_replicate|done| |done].
  unfold history_ok. cbn. cases; [|done]. rw length_replicate. lia.
Qed.

(** What a step may do to spaces that are being added by other threads, and to
    the names on [spaces]. *)
Record frame (own : Z -> Prop) (ls ls' : lockspaces) : Prop := Frame {
  fr_adding : forall p, ~ own p -> adding p ls -> adding p ls';
  fr_on_add : forall p, ~ own p -> on_add p ls -> on_add p ls';
  fr_names : sp_key <$> ls.(spaces) ⊆ sp_key <$> ls'.(spaces)
}.

Lemma same_lists_frame own ls ls' : same_lists ls ls' -> frame own ls ls'.
Proof.
  intros [Hs Ha _]. constructor.
  - intros p _ (sp & Hin & Ep & Est).
    apply list_elem_of_lookup in Hin as [i Hi].
    destruct (Forall2_lookup_l _ _ _ _ _ Ha Hi) as (sp' & Hi' & Hid).
    exists sp'. split_and!; [by eapply list_elem_of_lookup_2|by rw (si_list _ _ Hid)|by rw (si_stop _ _ Hid)].
  - intros p _. unfold on_add. by rw (Forall2_fmap_eq same_ident sp_list _ _ (fun _ _ H => si_list _ _ H) Ha).
  - by rw (Forall2_fmap_eq same_ident sp_key _ _ (fun _ _ H => si_key _ _ H) Hs).
Qed.

(** A space on [spaces_add] is on no other list. *)
Lemma on_add_only p ls : lists_ok ls -> on_add p ls ->
  (p ∉ sp_list <$> ls.(spaces)) /\ (p ∉ sp_list <$> ls.(spaces_rem)).
Proof.
  intros Hok Hp. pose proof (lo_addr _ Hok) as Hnd. unfold all_spaces in Hnd. rw !fmap_app in Hnd.
  apply list.NoDup_app in Hnd as (_ & H1 & Hnd). apply list.NoDup_app in Hnd as (_ & H2 & _).
  split; [|by apply H2]. intros Hs. apply (H1 p Hs). apply elem_of_app. by left.
Qed.

Lemma on_add_deref p ls : lists_ok ls -> on_add p ls -> exists sp, deref p ls = Some sp /\ sp ∈ ls.(spaces_add).
Proof.
  intros Hok (sp & -> & Hin)%list_elem_of_fmap.
  assert (sp ∈ all_spaces ls) as Hall by (unfold all_spaces; rw !elem_of_app; tauto).
  destruct (deref sp.(sp_list) ls) as [sp'|] eqn:E.
  - exists sp'. split; [done|]. by rw (deref_unique _ _ _ _ Hok Hall eq_refl E).
  - apply find_space_none in E. rw list.Forall_forall in E. specialize (E _ Hall). cbn in E. lia.
Qed.

Lemma unlink_adding p ls :
  lists_ok ls -> on_add p ls ->
  (unlink p ls).(spaces) = ls.(spaces) /\ (unlink p ls).(spaces_rem) = ls.(spaces_rem).
Proof. intros Hok Hp. destruct (on_add_only p ls Hok Hp). split; by apply list_del_notin. Qed.

Lemma list_del_elem p sp l : sp ∈ l -> sp.(sp_list) <> p -> sp ∈ list_del p l.
Proof.
  intros Hin Hne. apply list_elem_of_In, List.filter_In. split; [by apply list_elem_of_In|].
  by apply negb_true_iff, Z.eqb_neq.
Qed.

Lemma unlink_frame p ls : lists_ok ls -> on_add p ls -> frame (fun q => q = p) ls (unlink p ls).
Proof.
  intros Hok Hp. constructor.
  - intros q Hne (sp & Hin & Eq & Est). exists sp. split; [|done]. apply list_del_elem; [done|congruence].
  - intros q Hne (sp & -> & Hin)%list_elem_of_fmap. apply list_elem_of_fmap_2, list_del_elem; done.
  - by rw (proj1 (unlink_adding p ls Hok Hp)).
Qed.

Lemma add_fail_del_spec p ls :
  lists_ok ls -> on_add p ls -> lists_ok (add_fail_del p ls) /\ frame (fun q => q = p) ls (add_fail_del p ls).
Proof.
  intros Hok Hp. destruct (on_add_deref p ls Hok Hp) as (sp & E & _).
  split; [by eapply unlink_ok|by apply unlink_frame].
Qed.

Lemma frame_more own ls ls' ls'' :
  frame own ls ls' -> ls''.(spaces_add) = ls'.(spaces_add) ->
  sp_key <$> ls'.(spaces) ⊆ sp_key <$> ls''.(spaces) -> frame own ls ls''.
Proof.
  intros [H1 H2 H3] Ha Hs. constructor.
  - intros p Hp Hadd. destruct (H1 p Hp Hadd) as (sp & Hin & Hsp). exists sp. by rw Ha.
  - intros p Hp Hadd. unfold on_add. rw Ha. by apply H2.
  - by etrans.
Qed.

(** Committing moves the space to the list of those in use. *)
Lemma add_wait_commit_spec p ls b ls' :
  lists_ok ls -> adding p ls -> add_wait_commit p ls = Some (b, ls') ->
  if b then lists_ok ls' /\ frame (fun q => q = p) ls ls' else ls' = ls.
Proof.
  intros Hok Hadd Hc. pose proof (adding_on_add _ _ Hadd) as Hon.
  destruct Hadd as (sp & Hin & Ep & Est).
  assert (sp ∈ all_spaces ls) as Hall by (unfold all_spaces; rw !elem_of_app; tauto).
  unfold add_wait_commit in Hc. destruct (deref p ls) as [sp'|] eqn:E; [|done]. cbn in Hc.
  pose proof (deref_unique _ _ _ _ Hok Hall Ep E) as ->.
  destruct (_ || _); [by simplify_eq|]. injection Hc as <- <-. split.
  - eapply (lists_ok_moved ls _ (all_spaces ls) []); [done| | |].
    + apply Forall2_refl. auto with sanlock.
    + rw app_nil_r. transitivity (sp :: all_spaces (unlink p ls)); [|done].
      rw unlink_all -Ep. apply list_del_perm; [apply Hok|done].
    + cbn. constructor; [done|]. apply list_del_stop, Hok.
  - eapply frame_more; [by apply (unlink_frame p)|done|].
    intros x Hx. by apply list_elem_of_further.
Qed.

Lemma update_at_notin p f l : p ∉ sp_list <$> l -> update_at p f l = l.
Proof.
  induction l as [|sp l IH]; csimpl; [done|]. intros [H1 H2]%not_elem_of_cons.
  destruct (Z.eqb_spec sp.(sp_list) p); [congruence|]. by rw IH.
Qed.

Lemma add_wait_undo_spec p ls ls' :
  lists_ok ls -> on_add p ls -> add_wait_undo p ls = Some ls' ->
  lists_ok ls' /\ on_add p ls' /\ frame (fun q => q = p) ls ls'.
Proof.
  intros Hok Hon Hu. unfold add_wait_undo in Hu. destruct (deref p ls) as [sp|]; [|done]. injection Hu as <-.
  destruct (on_add_only p ls Hok Hon) as [Hs _].
  set (f := fun sp => sp <| sp_thread_stop := 1 |>).
  assert (forall l, Forall2 moved l (update_at p f l)) as Hm.
  { intros l. apply Forall2_fmap_r_refl, list.Forall_forall. intros x _.
    cases; [apply moved_stop|auto with sanlock]. }
  assert (forall l, sp_list <$> update_at p f l = sp_list <$> l) as Hl.
  { intros l. by apply (Forall2_fmap_eq moved sp_list _ _ (fun _ _ H => mv_list _ _ H)). }
  split_and!.
  - eapply (lists_ok_moved ls _ (all_spaces (update_space p f ls)) []); [done| |by rw app_nil_r|].
    + repeat apply Forall2_app; apply Hm.
    + cbn. rw update_at_notin; [done|]. apply Hok.
  - unfold on_add. cbn. by rw Hl.
  - constructor; cbn.
    + intros q Hne (x & Hin & Eq & Est). exists x. split; [|done].
      apply list_elem_of_fmap. exists x. split; [|done]. cbn. destruct (Z.eqb_spec x.(sp_list) p); [congruence|done].
    + intros q _ Hq. unfold on_add. cbn. by rw Hl.
    + by rw update_at_notin.
Qed.
