(* ===== verification/Clients.v ===== *)
(** * Clients and recovery ([src/src/main.c])

    The client array of the daemon with the tokens each client holds, the
    lifetime of a connection (add, register, suspend, resume, the death of its
    process, free), and what the main loop does with a lockspace whose host id
    cannot be renewed or that is removed: kill the processes that use it, and
    stop it when none is left.

    A function that reads [cl->tokens[i]] when [cl->tokens] is NULL has the
    result [None]. *)

From S2P Require Import Prelude OnDisk SizeFlags Timeouts Io DeltaLease PaxosBlocks Lockspace HostStatus.

(** ** Constants *)

Definition ESRCH : Z := 3.
Definition CLIENT_NALLOC : nat := 1024.
Definition SANLK_MAX_RESOURCES : Z := 8.
Definition POLLIN : Z := 1.
Definition SIGKILL : Z := 9.
Definition SIGTERM : Z := 15.
Definition SIGRUNPATH : Z := 100.
Definition CL_KILLPATH_PID : Z := 0x1.
Definition CL_RUNPATH_SENT : Z := 0x2.
Definition SANLK_RESTRICT_ALL : Z := 0x1.
Definition SANLK_RESTRICT_SIGKILL : Z := 0x2.
Definition SANLK_RESTRICT_SIGTERM : Z := 0x4.
Definition SM_CMD_ACQUIRE : Z := 7.

(** [kill_count_max], which [main] sets. *)
Definition kill_count_max : Z := 100.

(** ** State *)

#[export] Instance token_settable : Settable token := fun t =>
  Token t.(t_host_id) t.(t_host_generation) t.(t_io_timeout) t.(t_flags) t.(t_sector_size)
    t.(t_align_size) t.(t_shared_count) t.(t_shared_bitmap) t.(t_disks) t.(t_lockspace_name)
    t.(t_name) t.(t_r_flags).

(** [struct token]: [tk_tok] has the fields that the lease code uses, [tk_res_id]
    is set by [acquire_token]. *)
Record rtoken := RToken {
  tk_token_id : Z;
  tk_tok :> token;
  tk_acquire_lver : Z;
  tk_acquire_data64 : Z;
  tk_acquire_data32 : Z;
  tk_acquire_flags : Z;
  tk_space_id : Z;
  tk_pid : Z;
  tk_res_id : Z;
  tk_space_dead : Z
}.
#[export] Instance rtoken_settable : Settable rtoken := fun r =>
  RToken r.(tk_token_id) r.(tk_tok) r.(tk_acquire_lver) r.(tk_acquire_data64) r.(tk_acquire_data32)
    r.(tk_acquire_flags) r.(tk_space_id) r.(tk_pid) r.(tk_res_id) r.(tk_space_dead).

(** The functions stored in [workfn] and [deadfn]. *)
Inductive workfn := ProcessListener | ProcessConnection | ProcessHelper.
Inductive deadfn := ClientFree | ClientPidDead | HelperDead.

(** [struct client]; [cl_tokens] is [None] when the pointer is NULL. *)
Record client := Client {
  cl_used : Z;
  cl_fd : Z;
  cl_pid : Z;
  cl_cmd_active : Z;
  cl_cmd_last : Z;
  cl_pid_dead : Z;
  cl_suspend : Z;
  cl_need_free : Z;
  cl_kill_count : Z;
  cl_tokens_slots : Z;
  cl_flags : Z;
  cl_restricted : Z;
  cl_kill_last : Z;
  cl_owner_name : list Z;
  cl_killpath : list Z;
  cl_killargs : list Z;
  cl_workfn : option workfn;
  cl_deadfn : option deadfn;
  cl_tokens : option (list (option rtoken))
}.
#[export] Instance client_settable : Settable client := fun r =>
  Client r.(cl_used) r.(cl_fd) r.(cl_pid) r.(cl_cmd_active) r.(cl_cmd_last) r.(cl_pid_dead)
    r.(cl_suspend) r.(cl_need_free) r.(cl_kill_count) r.(cl_tokens_slots) r.(cl_flags)
    r.(cl_restricted) r.(cl_kill_last) r.(cl_owner_name) r.(cl_killpath) r.(cl_killargs)
    r.(cl_workfn) r.(cl_deadfn) r.(cl_tokens).

Record pollfd := PollFd { pf_fd : Z; pf_events : Z; pf_revents : Z }.
#[export] Instance pollfd_settable : Settable pollfd := fun r =>
  PollFd r.(pf_fd) r.(pf_events) r.(pf_revents).

(** The globals of the pipes to the helper process. *)
Record helper := Helper {
  helper_kill_fd : Z;
  helper_status_fd : Z;
  helper_ci : Z;
  helper_full_count : Z
}.
#[export] Instance helper_settable : Settable helper := fun r =>
  Helper r.(helper_kill_fd) r.(helper_status_fd) r.(helper_ci) r.(helper_full_count).

(** The client array, the poll array, [client_maxi] and the helper. *)
Record clients := Clients {
  cs_client : list client;
  cs_pollfd : list pollfd;
  client_maxi : Z;
  cs_helper : helper
}.
#[export] Instance clients_settable : Settable clients := fun r =>
  Clients r.(cs_client) r.(cs_pollfd) r.(client_maxi) r.(cs_helper).

Definition client_zero : client :=
  Client 0 (-1) (-1) 0 0 0 0 0 0 0 0 0 0 (zeros 49) (zeros 128) (zeros 128) None None None.

(** The entry [client[ci]], and changes of the entries of an index. *)
Definition client_at (ci : nat) (st : clients) : client := nth ci st.(cs_client) client_zero.
Definition set_client (ci : nat) (cl : client) (st : clients) : clients :=
  st <| cs_client := <[ci := cl]> st.(cs_client) |>.
Definition set_pollfd (ci : nat) (f : pollfd -> pollfd) (st : clients) : clients :=
  st <| cs_pollfd := alter f ci st.(cs_pollfd) |>.

(** ** Connections *)

(** The arrays [client_alloc] leaves, [None] when an allocation fails. The last
    element of the poll array, which is for the eventfd, is not initialised. *)
Definition client_alloc (client_ok pollfd_ok : bool) (last : pollfd) (h : helper) : option clients :=
  if client_ok && pollfd_ok then
    Some (Clients (replicate CLIENT_NALLOC client_zero)
            (replicate CLIENT_NALLOC (PollFd (-1) 0 0) ++ [last]) 0 h)
  else None.

Definition poll_ignore (pf : pollfd) : pollfd := pf <| pf_fd := -1 |> <| pf_events := 0 |>.
Definition poll_watch (fd : Z) (pf : pollfd) : pollfd := pf <| pf_fd := fd |> <| pf_events := POLLIN |>.

(** Returns the descriptor that is closed, if one is. *)
Definition _client_free (ci : nat) (st : clients) : option Z * clients :=
  let cl := client_at ci st in
  if cl.(cl_used) =? 0 then (None, st)
  else if negb (cl.(cl_pid) =? -1) then (None, st)
  else if cl.(cl_fd) =? -1 then (None, st)
  else if nz cl.(cl_suspend) then (None, set_client ci (cl <| cl_need_free := 1 |>) st)
  else
    (Some cl.(cl_fd),
     set_pollfd ci (fun pf => (poll_ignore pf) <| pf_revents := 0 |>)
       (set_client ci (client_zero <| cl_cmd_last := cl.(cl_cmd_last) |>) st)).

Definition client_free (ci : nat) (st : clients) : option Z * clients := _client_free ci st.

Definition client_suspend (ci : nat) (st : clients) : Z * clients :=
  let cl := client_at ci st in
  if cl.(cl_used) =? 0 then (-1, st)
  else if cl.(cl_fd) =? -1 then (-1, st)
  else if nz cl.(cl_suspend) then (-1, st)
  else (0, set_pollfd ci poll_ignore (set_client ci (cl <| cl_suspend := 1 |>) st)).

Definition client_resume (ci : nat) (st : clients) : option Z * clients :=
  let cl := client_at ci st in
  if cl.(cl_used) =? 0 then (None, st)
  else if cl.(cl_fd) =? -1 then (None, st)
  else if cl.(cl_suspend) =? 0 then (None, st)
  else
    let cl := cl <| cl_suspend := 0 |> in
    let st := set_client ci cl st in
    if nz cl.(cl_need_free) then _client_free ci st
    else (None, set_pollfd ci (poll_watch cl.(cl_fd)) st).

(** The first free entry from index [i] on. *)
Fixpoint free_entry (l : list client) (i : nat) : option nat :=
  match l with
  | [] => None
  | cl :: l => if cl.(cl_used) =? 0 then Some i else free_entry l (S i)
  end.

Definition client_add (fd : Z) (work : workfn) (dead : option deadfn) (st : clients) : Z * clients :=
  match free_entry st.(cs_client) 0 with
  | None => (-1, st)
  | Some i =>
      let cl := (client_at i st) <| cl_used := 1 |> <| cl_fd := fd |> <| cl_workfn := Some work |>
                  <| cl_deadfn := Some (default ClientFree dead) |> in
      let st := set_pollfd i (poll_watch fd) (set_client i cl st) in
      (Z.of_nat i, st <| client_maxi := Z.max st.(client_maxi) (Z.of_nat i) |>)
  end.

(** The entries [cl->tokens[0..tokens_slots)]. *)
Definition token_slots (cl : client) : option (list (option rtoken)) :=
  if cl.(cl_tokens_slots) <=? 0 then Some []
  else l ← cl.(cl_tokens); if Z.of_nat (length l) <? cl.(cl_tokens_slots) then None
                          else Some (take (Z.to_nat cl.(cl_tokens_slots)) l).

Definition held_tokens (l : list (option rtoken)) : list rtoken := l ≫= option_list.

(** The two critical sections of [client_pid_dead]. The first returns
    [cmd_active], and [None] in a state that should never happen; a command that is
    active cleans up at its end. *)
Definition pid_dead_mark (ci : nat) (st : clients) : option Z * clients :=
  let cl := client_at ci st in
  if (cl.(cl_used) =? 0) || (cl.(cl_fd) =? -1) || (cl.(cl_pid) =? -1) then (None, st)
  else
    (Some cl.(cl_cmd_active),
     set_pollfd ci poll_ignore (set_client ci (cl <| cl_pid := -1 |> <| cl_pid_dead := 1 |>) st)).

(** The second, when no command is active, returns the tokens given to
    [release_token_async]. *)
Definition pid_dead_free (ci : nat) (st : clients) : option (list rtoken * clients) :=
  l ← token_slots (client_at ci st);
  Some (held_tokens l, snd (_client_free ci st)).

(** ** Killing the processes that use a lockspace *)

Definition uses_space (sp : lspace) (t : rtoken) : bool :=
  strncmp_eq NAME_ID_SIZE t.(t_lockspace_name) sp.(sp_space_name).

(** The token after the loop of [client_using_space]. *)
Definition mark_token (sp : lspace) (t : option rtoken) : option rtoken :=
  match t with
  | Some t => Some (if uses_space sp t && nz sp.(sp_space_dead)
                    then t <| tk_space_dead := sp.(sp_space_dead) |> else t)
  | None => None
  end.

Definition client_using_space (cl : client) (sp : lspace) : option (bool * client) :=
  l ← token_slots cl;
  let rest := match cl.(cl_tokens) with Some t => drop (length l) t | None => [] end in
  Some (existsb (uses_space sp) (held_tokens l),
        cl <| cl_tokens := match cl.(cl_tokens) with
                           | Some _ => Some ((mark_token sp <$> l) ++ rest)
                           | None => None
                           end |>).

(** [None] when [pollfd[helper_ci]] is out of bounds. *)
Definition close_helper (st : clients) : option clients :=
  let ci := st.(cs_helper).(helper_ci) in
  if (0 <=? ci) && (ci <? Z.of_nat (length st.(cs_pollfd))) then
    Some (set_pollfd (Z.to_nat ci) poll_ignore
            (st <| cs_helper := st.(cs_helper) <| helper_kill_fd := -1 |> <| helper_status_fd := -1 |>
                                  <| helper_ci := -1 |> |>))
  else None.

(** What the [write] of a message to the helper gave, after its retries. *)
Inductive helper_write := WriteOk | WriteAgain | WritePipe | WriteOther.

(** The message for a signal. *)
Definition kill_msg (cl : client) (sig : Z) : helper_msg :=
  if sig =? SIGRUNPATH
  then MsgRunpath cl.(cl_killpath) cl.(cl_killargs)
         (if has_flag cl.(cl_flags) CL_KILLPATH_PID then cl.(cl_pid) else 0)
  else MsgKillpid cl.(cl_pid) sig.

(** Returns the message that was sent, if one was. *)
Definition send_helper_kill (wr : helper_write) (ci : nat) (sig : Z) (st : clients)
    : option (option helper_msg * clients) :=
  let cl := client_at ci st in
  let h := st.(cs_helper) in
  if has_flag cl.(cl_flags) CL_RUNPATH_SENT && (sig =? SIGRUNPATH) then Some (None, st)
  else if h.(helper_kill_fd) =? -1 then Some (None, st)
  else
    match wr with
    | WriteAgain => Some (None, st <| cs_helper := h <| helper_full_count := u32 (h.(helper_full_count) + 1) |> |>)
    | WritePipe | WriteOther => st ← close_helper st; Some (None, st)
    | WriteOk =>
        Some (Some (kill_msg cl sig),
              if sig =? SIGRUNPATH
              then set_client ci (cl <| cl_flags := Z.lor cl.(cl_flags) CL_RUNPATH_SENT |>) st else st)
    end.

(** The end of the grace period of a lockspace. *)
Definition in_grace (com : command_line) (sp : lspace) (now last_success : Z) : bool :=
  now <? u64 (last_success + calc_id_renewal_fail_seconds sp.(sp_io_timeout) + com.(com_kill_grace_seconds)).

(** The signal for a client, from the severity the lockspace calls for and the
    restrictions of the client. *)
Definition kill_signal (com : command_line) (external_shutdown : Z) (sp : lspace) (now last_success : Z)
    (cl : client) : Z :=
  let grace := in_grace com sp now last_success in
  let sig :=
    if nz sp.(sp_external_remove) || (1 <? external_shutdown) then SIGKILL
    else if (0 <? com.(com_kill_grace_seconds)) && grace && nz (nth 0 cl.(cl_killpath) 0) then SIGRUNPATH
    else if grace then SIGTERM
    else SIGKILL in
  let sig := if (sig =? SIGKILL) && has_flag cl.(cl_restricted) SANLK_RESTRICT_SIGKILL then SIGTERM else sig in
  if (sig =? SIGTERM) && has_flag cl.(cl_restricted) SANLK_RESTRICT_SIGTERM then SIGKILL else sig.

(** A turn of the loop of [kill_pids] under the mutex of the client: the client,
    and [true] for [do_kill]. *)
Definition kill_check (sp : lspace) (now : Z) (cl : client) : option (bool * client) :=
  if cl.(cl_used) =? 0 then Some (false, cl)
  else if cl.(cl_pid) <=? 0 then Some (false, cl)
  else if kill_count_max <=? cl.(cl_kill_count) then Some (false, cl)
  else if nz cl.(cl_kill_count) && (u64 (now - cl.(cl_kill_last)) <? 1) then Some (false, cl)
  else
    r ← client_using_space cl sp;
    let '(in_use, cl) := r in
    if negb in_use then Some (false, cl)
    else Some (true, cl <| cl_kill_last := now |> <| cl_kill_count := cl.(cl_kill_count) + 1 |>).

(** A whole turn, with the messages it sent. *)
Definition kill_one (com : command_line) (external_shutdown : Z) (sp : lspace) (now last_success : Z)
    (wr : helper_write) (ci : nat) (st : clients) : option (list helper_msg * clients) :=
  r ← kill_check sp now (client_at ci st);
  let '(do_kill, cl) := r in
  let st := set_client ci cl st in
  if negb do_kill then Some ([], st)
  else
    r ← send_helper_kill wr ci (kill_signal com external_shutdown sp now last_success cl) st;
    let '(msg, st) := r in Some (option_list msg, st).

(** The loop over the indices [cis]; [wr] gives the result of the write to the
    helper for each index. *)
Fixpoint kill_loop (com : command_line) (external_shutdown : Z) (sp : lspace) (now last_success : Z)
    (wr : nat -> helper_write) (cis : list nat) (st : clients) : option (list helper_msg * clients) :=
  match cis with
  | [] => Some ([], st)
  | ci :: cis =>
      r ← kill_one com external_shutdown sp now last_success (wr ci) ci st;
      let '(m, st) := r in
      r ← kill_loop com external_shutdown sp now last_success wr cis st;
      let '(ms, st) := r in Some (m ++ ms, st)
  end.

Definition client_indices (st : clients) : list nat := seq 0 (Z.to_nat (st.(client_maxi) + 1)).

Definition kill_pids (com : command_line) (external_shutdown now : Z) (wr : nat -> helper_write) (sp : lspace)
    (st : clients) : option (list helper_msg * clients) :=
  if 1 <? sp.(sp_killing_pids) then Some ([], st)
  else kill_loop com external_shutdown sp now sp.(sp_lease_status).(lst_renewal_last_success) wr
         (client_indices st) st.

(** ** Waiting for the processes *)

(** The loop of [all_pids_dead] over the indices [cis]: [stuck], [check] and the
    clients. *)
Fixpoint pids_loop (sp : lspace) (cis : list nat) (st : clients) : option (Z * Z * clients) :=
  match cis with
  | [] => Some (0, 0, st)
  | ci :: cis =>
      let cl := client_at ci st in
      r ← (if (cl.(cl_used) =? 0) || (cl.(cl_pid) <=? 0) then Some (false, cl) else client_using_space cl sp);
      let '(in_use, cl) := r in
      r ← pids_loop sp cis (set_client ci cl st);
      let '(stuck, check, st) := r in
      let killed := kill_count_max <=? cl.(cl_kill_count) in
      Some (if in_use && killed then stuck + 1 else stuck,
            if in_use && negb killed then check + 1 else check, st)
  end.

(** [orphans] is [resource_orphan_count] of the space. *)
Definition all_pids_dead (orphans : Z) (sp : lspace) (st : clients) : option (bool * lspace * clients) :=
  r ← pids_loop sp (client_indices st) st;
  let '(stuck, check, st) := r in
  let sp := if nz stuck && (check =? 0) && (sp.(sp_killing_pids) <? 2)
            then sp <| sp_killing_pids := 2 |> else sp in
  let retry := sp <| sp_used_retries := u32 (sp.(sp_used_retries) + 1) |> in
  if nz stuck || nz check then Some (false, sp, st)
  else if has_flag sp.(sp_flags) SP_EXTERNAL_USED then Some (false, retry, st)
  else if has_flag sp.(sp_flags) SP_USED_BY_ORPHANS && nz orphans then Some (false, retry, st)
  else Some (true, sp, st).

(** ** The check of the lockspaces in [main_loop] *)

(** The environment of one pass of the main loop: the clock, the result of
    allocating the check buffer, the writes to the helper, the orphan counts and
    the results of joining the threads of stopped lockspaces. *)
Record pass := Pass {
  ps_now : Z;
  ps_have_buf : bool;
  ps_wr : nat -> helper_write;
  ps_orphans : list Z -> Z;
  ps_join : Z -> Z
}.

(** What is done with a space: [Stopped] is moved to [spaces_rem] (after
    [deactivate_watchdog]), the others stay. *)
Inductive verdict := Stopped | Kept.

Definition check_space (com : command_line) (ps : pass) (external_shutdown : Z) (sp : lspace) (st : clients)
    : option (verdict * lspace * list helper_msg * clients) :=
  r ← (if sp.(sp_killing_pids) =? 0 then Some (false, sp, st)
       else all_pids_dead (ps.(ps_orphans) sp.(sp_space_name)) sp st);
  let '(dead, sp, st) := r in
  if dead : bool then Some (Stopped, sp <| sp_thread_stop := 1 |>, [], st)
  else if nz sp.(sp_killing_pids) then
    r ← kill_pids com external_shutdown ps.(ps_now) ps.(ps_wr) sp st;
    let '(ms, st) := r in Some (Kept, sp, ms, st)
  else
    let '(rv, check_all, buf, sp) := check_our_lease ps.(ps_now) ps.(ps_have_buf) sp in
    let sp := if nz rv then sp <| sp_renew_fail := 1 |> else sp in
    if nz rv || nz sp.(sp_external_remove) || (1 <? external_shutdown) then
      let sp := sp <| sp_space_dead := 1 |> <| sp_killing_pids := 1 |> in
      r ← kill_pids com external_shutdown ps.(ps_now) ps.(ps_wr) sp st;
      let '(ms, st) := r in Some (Kept, sp, ms, st)
    else if check_all then
      if ps.(ps_have_buf)
      then Some (Kept, fst (fst (check_other_leases ps.(ps_now) sp (default mem_zero buf))), [], st)
      else None
    else Some (Kept, sp, [], st).

(** The loop over [spaces]: those that stay, those that stop (the last one
    first, as [list_move] leaves them). *)
Fixpoint check_spaces (com : command_line) (ps : pass) (external_shutdown : Z) (l : list lspace) (st : clients)
    : option (list lspace * list lspace * list helper_msg * clients) :=
  match l with
  | [] => Some ([], [], [], st)
  | sp :: l =>
      r ← check_space com ps external_shutdown sp st;
      let '(v, sp, m, st) := r in
      r ← check_spaces com ps external_shutdown l st;
      let '(keep, stop, ms, st) := r in
      Some (match v with Kept => sp :: keep | Stopped => keep end,
            match v with Kept => stop | Stopped => stop ++ [sp] end, m ++ ms, st)
  end.

(** The part of a turn of [main_loop] under [spaces_mutex]. *)
Definition main_check (com : command_line) (ps : pass) (ls : lockspaces) (st : clients)
    : option (list helper_msg * lockspaces * clients) :=
  r ← check_spaces com ps ls.(external_shutdown) ls.(spaces) st;
  let '(keep, stop, ms, st) := r in
  Some (ms, ls <| spaces := keep |> <| spaces_rem := stop ++ ls.(spaces_rem) |>, st).

(** A turn of [main_loop] from [check the condition of each lockspace] on: the
    result is [true] when the loop ends. *)
Definition main_turn (com : command_line) (ps : pass) (ls : lockspaces) (st : clients)
    : option (bool * list helper_msg * lockspaces * clients) :=
  r ← main_check com ps ls st;
  let '(ms, ls, st) := r in
  let empty := match ls.(spaces) with [] => true | _ => false end in
  if nz ls.(external_shutdown) && empty then Some (true, ms, ls, st)
  else
    let ls := if ls.(external_shutdown) =? 1 then ls <| external_shutdown := 0 |> else ls in
    Some (false, ms, free_lockspaces ps.(ps_join) ls, st).
