(* ===== verification/Commands.v ===== *)
(** * Commands ([src/src/cmd.c], [process_connection] in [src/src/main.c])

    The commands of the daemon that change the clients, their tokens and the
    lockspaces. A command runs in a worker thread beside the main loop; its
    definition is a [thread]: a sequence of critical sections on the state of the
    daemon ([Atomic]), which other threads can come between, and of calls whose
    effect is outside of that state ([Ask]: the socket, the allocator, the clock
    and the functions of [resource.c]); [Spawn] puts a command on the work queue of
    the thread pool, from where any worker takes it. A section that accesses memory out of
    bounds has the result [None].

    A wait loop takes fuel, one unit per turn; a thread whose fuel is used up
    keeps waiting ([Waiting]). *)

From S2P Require Import Prelude OnDisk SizeFlags Timeouts Io DeltaLease PaxosBlocks Lockspace HostStatus Clients.

(** ** Constants *)

Definition E2BIG : Z := 7.
Definition ESTALE : Z := 116.
Definition ENOTTY : Z := 25.
Definition ENOTCONN : Z := 107.
Definition ERANGE : Z := 34.
Definition ELIBACC : Z := 79.
Definition ELIBBAD : Z := 80.
Definition ELIBSCN : Z := 81.

Definition SM_MAGIC : Z := 0x04282010.
Definition SM_PROTO : Z := 1.
Definition SM_CMD_REGISTER : Z := 1.
Definition SM_CMD_ADD_LOCKSPACE : Z := 2.
Definition SM_CMD_REM_LOCKSPACE : Z := 3.
Definition SM_CMD_SHUTDOWN : Z := 4.
Definition SM_CMD_RELEASE : Z := 8.
Definition SM_CMD_INQUIRE : Z := 9.
Definition SM_CMD_RESTRICT : Z := 10.
Definition SM_CMD_REQUEST : Z := 11.
Definition SM_CMD_INQ_LOCKSPACE : Z := 16.
Definition SM_CMD_KILLPATH : Z := 17.
Definition SM_CMD_CONVERT : Z := 27.
Definition SM_CMD_VERSION : Z := 28.
Definition SM_CMD_SHUTDOWN_WAIT : Z := 29.
Definition SM_CMD_REG_EVENT : Z := 30.
Definition SM_CMD_END_EVENT : Z := 31.
Definition SM_CMD_SET_EVENT : Z := 32.
Definition SM_CMD_SET_CONFIG : Z := 33.

Definition SANLK_MAX_DISKS : Z := 4.
Definition SANLK_MAX_RES_STR : Z := 4400.
Definition SANLK_HELPER_LEN : Z := 128.
Definition SANLK_RES_SHARED : Z := 0x4.
Definition SANLK_REL_ALL : Z := 0x1.
Definition SANLK_REL_RENAME : Z := 0x2.
Definition SANLK_REL_ORPHAN : Z := 0x4.
Definition SANLK_ADD_ASYNC : Z := 0x1.
Definition SANLK_REM_ASYNC : Z := 0x1.
Definition SANLK_REM_UNUSED : Z := 0x2.
Definition SANLK_INQ_WAIT : Z := 0x1.
Definition SANLK_KILLPATH_PID : Z := 0x1.
Definition SANLK_REQUEST_NEXT_LVER : Z := 0x1.
Definition T_RESTRICT_SIGKILL : Z := 0x1.
Definition T_RESTRICT_SIGTERM : Z := 0x2.

(** ** Data *)

Record sm_header := SmHeader {
  h_magic : Z;
  h_version : Z;
  h_cmd : Z;
  h_cmd_flags : Z;
  h_length : Z;
  h_seq : Z;
  h_data : Z;
  h_data2 : Z
}.

Record cmd_args := CmdArgs {
  ca_ci_in : nat;
  ca_ci_target : nat;
  ca_cl_fd : Z;
  ca_cl_pid : Z;
  ca_header : sm_header
}.

(** [struct sanlk_resource] as it is received, the disks follow it. *)
Record sanlk_resource := Resource {
  r_lockspace_name : list Z;
  r_name : list Z;
  r_lver : Z;
  r_data64 : Z;
  r_data32 : Z;
  r_flags : Z;
  r_num_disks : Z
}.

(** The state of the daemon that its threads share: lockspaces, clients,
    [token_id_counter] and the client that waits for the shutdown. *)
Record daemon := Daemon {
  d_spaces : lockspaces;
  d_clients : clients;
  token_id_counter : Z;
  shutdown_reply_ci : Z;
  shutdown_reply_fd : Z
}.
#[export] Instance daemon_settable : Settable daemon := fun r =>
  Daemon r.(d_spaces) r.(d_clients) r.(token_id_counter) r.(shutdown_reply_ci)
    r.(shutdown_reply_fd).

(** ** Threads *)

(** The calls outside of the state. A receive gives [None] when it does not
    return the size of what is expected. *)
Inductive query :=
  | QRecvHeader (fd : Z)
  | QRecvResource (fd : Z)
  | QRecvDisks (fd num_disks : Z)
  | QRecvOptions (fd : Z)
  | QRecvLockspace (fd : Z)
  | QRecvHostEvent (fd : Z)
  | QRecvBytes (fd len : Z)
  | QDrain (ci : nat) (h : sm_header)
  | QSendResult (fd : Z) (h : sm_header) (result : Z)
  | QSendState (fd : Z) (h : sm_header) (result res_count : Z) (state : option (list Z))
  | QPeerPid (fd : Z)
  | QAccept (fd : Z)
  | QReadHelper (fd : Z)
  | QMalloc
  | QMallocTokens
  | QMallocSpace
  | QThreadCreate
  | QSleep
  | QMonotime
  | QEventFds
  | QResToStr
  | QAcquireToken (t : rtoken) (cmd_flags : Z) (killpath killargs : list Z)
  | QReleaseToken (t : rtoken) (resrename : option sanlk_resource)
  | QReleaseAsync (t : rtoken)
  | QReleaseOrphan (res : sanlk_resource)
  | QConvertToken (res : sanlk_resource) (t : rtoken) (cmd_flags : Z)
  | QRequestToken (t : rtoken) (force_mode next_lver : Z)
  | QLockspaceIsUsed (ls : sanlk_lockspace)
  | QOther (fd : Z) (h : sm_header).

(** The header with what [recv] returned; the descriptors [dup] returns and what
    is read from registered ones; the result of [acquire_token] with the token as
    it left it, of [convert_token] with the flags it left in the token; the rest
    is plain. *)
Definition answer (q : query) : Type :=
  match q with
  | QRecvHeader _ => Z * sm_header
  | QRecvResource _ => option sanlk_resource
  | QRecvDisks _ _ => option (list sync_disk)
  | QRecvOptions _ => option (list Z)
  | QRecvLockspace _ => option sanlk_lockspace
  | QRecvHostEvent _ => option sanlk_host_event
  | QRecvBytes _ _ => option (list Z)
  | QDrain _ _ | QSendResult _ _ _ | QSendState _ _ _ _ _ | QSleep | QReleaseAsync _ => unit
  | QPeerPid _ => option Z
  | QAccept _ | QReadHelper _ => Z
  | QMalloc | QMallocTokens => bool
  | QMallocSpace => option Z * bool
  | QThreadCreate | QMonotime => Z
  | QEventFds => Z * Z * (Z -> event_recv)
  | QResToStr => rtoken -> option (list Z)
  | QAcquireToken _ _ _ _ => Z * rtoken
  | QReleaseToken _ _ | QReleaseOrphan _ => Z
  | QConvertToken _ _ _ => Z * Z
  | QRequestToken _ _ _ => Z * Z
  | QLockspaceIsUsed _ => bool
  | QOther _ _ => Z
  end.

Inductive thread (A : Type) : Type :=
  | Done (a : A)
  | Waiting
  | Atomic (T : Type) (f : daemon -> option (T * daemon)) (k : T -> thread A)
  | Ask (q : query) (k : answer q -> thread A)
  | Spawn (ca : cmd_args) (k : thread A).
Arguments Done {A} a.
Arguments Waiting {A}.
Arguments Atomic {A T} f k.
Arguments Ask {A} q k.
Arguments Spawn {A} ca k.

#[export] Instance thread_ret : MRet thread := @Done.
#[export] Instance thread_bind : MBind thread := fun A B k =>
  fix bind t :=
    match t with
    | Done a => k a
    | Waiting => Waiting
    | Atomic f k' => Atomic f (fun x => bind (k' x))
    | Ask q k' => Ask q (fun x => bind (k' x))
    | Spawn ca k' => Spawn ca (bind k')
    end.

Definition ask (q : query) : thread (answer q) := Ask q Done.
Definition atomic {T} (f : daemon -> option (T * daemon)) : thread T := Atomic f Done.

(** Sections on one part of the state, and reads. *)
Definition on_clients {T} (f : clients -> option (T * clients)) : thread T :=
  atomic (fun d => r ← f d.(d_clients); let '(x, cs) := r in Some (x, d <| d_clients := cs |>)).
Definition on_client {T} (ci : nat) (f : client -> option (T * client)) : thread T :=
  on_clients (fun cs => r ← f (client_at ci cs); let '(x, cl) := r in Some (x, set_client ci cl cs)).
Definition on_spaces {T} (f : lockspaces -> option (T * lockspaces)) : thread T :=
  atomic (fun d => r ← f d.(d_spaces); let '(x, ls) := r in Some (x, d <| d_spaces := ls |>)).
Definition client_fd (ci : nat) : thread Z := on_clients (fun cs => Some ((client_at ci cs).(cl_fd), cs)).

Definition resume (ci : nat) : thread unit := on_clients (fun cs => Some (tt, snd (client_resume ci cs))).
Definition free_client (ci : nat) : thread unit := on_clients (fun cs => Some (tt, snd (client_free ci cs))).

(** [send_result] and [client_resume], the end of most commands. *)
Definition reply (ca : cmd_args) (fd result : Z) : thread unit :=
  ask (QSendResult fd ca.(ca_header) result);; resume ca.(ca_ci_in).

(** ** Tokens of a client *)

(** [release_cl_tokens]: the client's process is dead and no other thread uses
    its tokens any more. *)
Fixpoint release_tokens (l : list rtoken) : thread unit :=
  match l with
  | [] => mret tt
  | t :: l => ask (QReleaseToken t None);; release_tokens l
  end.

Definition release_cl_tokens (ci : nat) : thread unit :=
  l ← on_client ci (fun cl => l ← token_slots cl; Some (held_tokens l, cl));
  release_tokens l.

(** The first [acquire_count] tokens were acquired; the memory of all is freed. *)
Definition release_new_tokens (new_tokens : list rtoken) (acquire_count : nat) : thread unit :=
  release_tokens (take acquire_count new_tokens).

Definition empty_slots (l : list (option rtoken)) : Z :=
  Z.of_nat (length (List.filter (fun t => match t with None => true | Some _ => false end) l)).

(** The test of each new token in [check_new_tokens_space]. *)
Definition token_space_ok (ls : lockspaces) (t : rtoken) : bool :=
  match _lockspace_info ls t.(t_lockspace_name) with
  | (rv, Some spi) => (rv =? 0) && (spi.(spi_killing_pids) =? 0) && (spi.(spi_host_id) =? t.(t_host_id))
  | (_, None) => false
  end.

Definition check_new_tokens_space (ls : lockspaces) (slots : list (option rtoken)) (new_tokens : list rtoken) : Z :=
  if empty_slots slots <? Z.of_nat (length new_tokens) then - ENOENT
  else if forallb (token_space_ok ls) new_tokens then 0 else - ENOSPC.

(** [cl->tokens[j] = token] at the first slot that is NULL. *)
Fixpoint put_token (t : rtoken) (l : list (option rtoken)) : list (option rtoken) :=
  match l with
  | [] => []
  | None :: l => Some t :: l
  | s :: l => s :: put_token t l
  end.

(** ** [cmd_acquire] *)

(** The first section: the result, the killpath and its arguments. The array of
    tokens grows when it has not enough free slots; [grow_ok] is the result of
    that allocation. *)
Definition acquire_slots (new_count : Z) (grow_ok : bool) (cl : client)
    : option (Z * (list Z * list Z) * client) :=
  if nz cl.(cl_pid_dead) then Some (- ESTALE, ([], []), cl)
  else
    l ← token_slots cl;
    let empty := empty_slots l in
    let paths := (cl.(cl_killpath), cl.(cl_killargs)) in
    let grow := SANLK_MAX_RESOURCES * 2 in
    if empty <? new_count then
      if grow_ok then
        let cl := cl <| cl_tokens := Some (l ++ replicate (Z.to_nat grow) None) |>
                     <| cl_tokens_slots := cl.(cl_tokens_slots) + grow |> in
        Some (if empty + grow <? new_count then - ENOENT else 0, paths, cl)
      else Some (- ENOMEM, ([], []), cl)
    else Some (0, paths, cl).

(** The token made from a received resource and its disks. *)
Definition acquire_new_token (id : Z) (res : sanlk_resource) (disks : list sync_disk) : rtoken :=
  let disks := (fun d => SyncDisk d.(sd_path) d.(sd_offset) 0 (-1)) <$> disks in
  RToken id
    (Token 0 0 0 0 0 0 0 (zeros HOSTID_BITMAP_SIZE) disks res.(r_lockspace_name) res.(r_name)
       (Z.land res.(r_flags) SANLK_RES_SHARED))
    res.(r_lver) res.(r_data64) res.(r_data32) res.(r_flags) 0 0 0 0.

Definition next_token_id : thread Z :=
  atomic (fun d => Some (d.(token_id_counter), d <| token_id_counter := u32 (d.(token_id_counter) + 1) |>)).

(** The loop that receives [n] resources: the result and the tokens allocated. *)
Fixpoint acquire_recv (fd : Z) (n : nat) (new_tokens : list rtoken) : thread (Z * list rtoken) :=
  match n with
  | O => mret (0, new_tokens)
  | S n =>
      r ← ask (QRecvResource fd);
      match r with
      | None => mret (- ENOTCONN, new_tokens)
      | Some res =>
          if (res.(r_num_disks) =? 0) || (SANLK_MAX_DISKS <? res.(r_num_disks))
          then mret (- ERANGE, new_tokens)
          else
            ok ← ask QMalloc;
            if ok : bool then
              r ← ask (QRecvDisks fd res.(r_num_disks));
              match r with
              | None => mret (- ENOTCONN, new_tokens)
              | Some disks =>
                  id ← next_token_id;
                  acquire_recv fd n (new_tokens ++ [acquire_new_token id res disks])
              end
            else mret (- ENOMEM, new_tokens)
      end
  end.

(** The values copied from the lockspace of the token and from the client. *)
Definition acquire_fill_token (ls : lockspaces) (pid restricted : Z) (t : rtoken) : option rtoken :=
  match lockspace_info ls t.(t_lockspace_name) with
  | (rv, Some spi) =>
      if (rv <? 0) || nz spi.(spi_killing_pids) then None
      else
        let f := if has_flag restricted SANLK_RESTRICT_SIGKILL
                 then Z.lor t.(t_flags) T_RESTRICT_SIGKILL else t.(t_flags) in
        let f := if has_flag restricted SANLK_RESTRICT_SIGTERM then Z.lor f T_RESTRICT_SIGTERM else f in
        Some (t <| tk_tok := t.(tk_tok) <| t_host_id := spi.(spi_host_id) |>
                               <| t_host_generation := spi.(spi_host_generation) |>
                               <| t_io_timeout := spi.(spi_io_timeout) |>
                               <| t_sector_size := spi.(spi_sector_size) |>
                               <| t_align_size := spi.(spi_align_size) |>
                               <| t_flags := f |> |>
                <| tk_space_id := spi.(spi_space_id) |> <| tk_pid := pid |>)
  | (_, None) => None
  end.

Fixpoint acquire_fill (ci : nat) (pid : Z) (todo filled : list rtoken) : thread (Z * list rtoken) :=
  match todo with
  | [] => mret (0, filled)
  | t :: todo =>
      r ← atomic (fun d => Some (acquire_fill_token d.(d_spaces) pid (client_at ci d.(d_clients)).(cl_restricted) t, d));
      match r with
      | None => mret (- ENOSPC, filled ++ t :: todo)
      | Some t => acquire_fill ci pid todo (filled ++ [t])
      end
  end.

(** The loop that acquires the leases: the result, the tokens, and how many were
    acquired. *)
Fixpoint acquire_leases (cmd_flags : Z) (killpath killargs : list Z) (todo acquired : list rtoken)
    : thread (Z * list rtoken * nat) :=
  match todo with
  | [] => mret (0, acquired, length acquired)
  | t :: todo =>
      r ← ask (QAcquireToken t cmd_flags killpath killargs);
      let '(rv, t) := r in
      if rv <? 0 then mret (rv, acquired ++ t :: todo, length acquired)
      else acquire_leases cmd_flags killpath killargs todo (acquired ++ [t])
  end.

(** The section at [done:] under [spaces_mutex] and the mutex of the client:
    returns the result and [pid_dead]. *)
Definition acquire_done (ls : lockspaces) (result : Z) (new_tokens : list rtoken) (cl : client)
    : option (Z * Z * client) :=
  let pid_dead := cl.(cl_pid_dead) in
  let cl := cl <| cl_cmd_active := 0 |> in
  if (result =? 0) && (pid_dead =? 0) then
    l ← token_slots cl;
    if negb (check_new_tokens_space ls l new_tokens =? 0) then Some (- ENOSPC, pid_dead, cl)
    else Some (0, pid_dead, match cl.(cl_tokens) with
                            | Some _ => cl <| cl_tokens := Some (fold_left (fun l t => put_token t l) new_tokens l) |>
                            | None => cl
                            end)
  else Some (result, pid_dead, cl).

Definition acquire_finish (ci : nat) (result : Z) (new_tokens : list rtoken) : thread (Z * Z) :=
  atomic (fun d =>
    r ← acquire_done d.(d_spaces) result new_tokens (client_at ci d.(d_clients));
    let '(x, cl) := r in Some (x, d <| d_clients := set_client ci cl d.(d_clients) |>)).

(** Everything before [done:]: the result, the tokens, how many were acquired,
    and [recv_done]. *)
Definition acquire_tokens (ca : cmd_args) (fd : Z) : thread (Z * list rtoken * nat * bool) :=
  let ci := ca.(ca_ci_target) in
  let new_count := i32 ca.(ca_header).(h_data) in
  if SANLK_MAX_RESOURCES <? new_count then mret (- E2BIG, [], 0%nat, false)
  else
    grow_ok ← ask QMalloc;
    r ← on_client ci (acquire_slots new_count grow_ok);
    let '(result, (killpath, killargs)) := r in
    if nz result then mret (result, [], 0%nat, false)
    else
      r ← acquire_recv fd (Z.to_nat new_count) [];
      let '(result, new_tokens) := r in
      if nz result then mret (result, new_tokens, 0%nat, false)
      else
        r ← ask (QRecvOptions fd);
        match r with
        | None => mret (- ENOTCONN, new_tokens, 0%nat, false)
        | Some owner_name =>
            on_client ci (fun cl =>
              Some (tt, cl <| cl_owner_name := strncpy NAME_ID_SIZE owner_name ++ drop NAME_ID_SIZE cl.(cl_owner_name) |>));;
            r ← acquire_fill ci ca.(ca_cl_pid) new_tokens [];
            let '(result, new_tokens) := r in
            if nz result then mret (result, new_tokens, 0%nat, true)
            else
              r ← acquire_leases ca.(ca_header).(h_cmd_flags) killpath killargs new_tokens [];
              let '(result, new_tokens, acquired) := r in
              mret (result, new_tokens, acquired, true)
        end.

Definition cmd_acquire (ca : cmd_args) : thread unit :=
  let ci := ca.(ca_ci_target) in
  fd ← client_fd ca.(ca_ci_in);
  r ← acquire_tokens ca fd;
  let '(result, new_tokens, acquired, recv_done) := r in
  r ← acquire_finish ci result new_tokens;
  let '(result, pid_dead) := r in
  let send result :=
    (if recv_done : bool then mret tt else ask (QDrain ca.(ca_ci_in) ca.(ca_header)));; reply ca fd result in
  if (result =? 0) && (pid_dead =? 0) then send 0
  else
    release_new_tokens new_tokens acquired;;
    if pid_dead =? 0 then send result
    else
      release_cl_tokens ci;;
      free_client ci;;
      send (if result =? 0 then - ENOTTY else result).

(** ** [cmd_release] *)

(** The array [rem_tokens] has [SANLK_MAX_RESOURCES] elements: a write past them
    is out of bounds. *)
Definition rem_add (rem : list rtoken) (t : rtoken) : option (list rtoken) :=
  if Z.of_nat (length rem) <? SANLK_MAX_RESOURCES then Some (rem ++ [t]) else None.

(** [SANLK_REL_ALL]: the slots become NULL, the tokens go to [rem_tokens]. *)
Fixpoint take_all (l : list (option rtoken)) (rem : list rtoken)
    : option (list rtoken * list (option rtoken)) :=
  match l with
  | [] => Some (rem, [])
  | s :: l =>
      rem ← (match s with Some t => rem_add rem t | None => Some rem end);
      r ← take_all l rem;
      let '(rem, l) := r in Some (rem, None :: l)
  end.

(** [memcmp] of both names. *)
Definition token_is (res : sanlk_resource) (t : rtoken) : bool :=
  bool_decide (take NAME_ID_SIZE t.(t_lockspace_name) = take NAME_ID_SIZE res.(r_lockspace_name)) &&
  bool_decide (take NAME_ID_SIZE t.(t_name) = take NAME_ID_SIZE res.(r_name)).

(** The first token of a resource, taken out of its slot. *)
Fixpoint take_token (res : sanlk_resource) (l : list (option rtoken)) : option (rtoken * list (option rtoken)) :=
  match l with
  | [] => None
  | Some t :: l =>
      if token_is res t then Some (t, None :: l)
      else r ← take_token res l; let '(t', l) := r in Some (t', Some t :: l)
  | None :: l => r ← take_token res l; let '(t', l) := r in Some (t', None :: l)
  end.

(** A change of the slots of a client. *)
Definition with_slots {T} (f : list (option rtoken) -> option (T * list (option rtoken))) (cl : client)
    : option (T * client) :=
  l ← token_slots cl;
  r ← f l;
  let '(x, l') := r in
  Some (x, match cl.(cl_tokens) with
           | Some a => cl <| cl_tokens := Some (l' ++ drop (length l) a) |>
           | None => cl
           end).

(** One resource: [rem_tokens] afterwards, and whether it was found. *)
Definition release_find (res : sanlk_resource) (rem : list rtoken) (cl : client)
    : option (list rtoken * bool * client) :=
  with_slots (fun l =>
    match take_token res l with
    | Some (t, l) => rem ← rem_add rem t; Some (rem, true, l)
    | None => Some (rem, false, l)
    end) cl.

Fixpoint release_recv (ci : nat) (fd : Z) (n : nat) (rem : list rtoken) (result : Z) : thread (list rtoken * Z) :=
  match n with
  | O => mret (rem, result)
  | S n =>
      r ← ask (QRecvResource fd);
      match r with
      | None => mret (rem, - ENOTCONN)
      | Some res =>
          r ← on_client ci (release_find res rem);
          let '(rem, found) := r in
          release_recv ci fd n rem (if found : bool then result else -1)
      end
  end.

(** The section at [out:]: [pid_dead]. A client whose last token is released need
    not be killed any more. *)
Definition release_done (cl : client) : option (Z * client) :=
  let pid_dead := cl.(cl_pid_dead) in
  let cl := cl <| cl_cmd_active := 0 |> in
  if (pid_dead =? 0) && nz cl.(cl_kill_count) then
    l ← token_slots cl;
    match held_tokens l with
    | [] => Some (pid_dead, cl <| cl_kill_count := 0 |> <| cl_kill_last := 0 |>
                               <| cl_flags := clear_flag cl.(cl_flags) CL_RUNPATH_SENT |>)
    | _ => Some (pid_dead, cl)
    end
  else Some (pid_dead, cl).

(** [do_remove:] *)
Fixpoint release_rem (rem : list rtoken) (resrename : option sanlk_resource) (result : Z) : thread Z :=
  match rem with
  | [] => mret result
  | t :: rem =>
      rv ← ask (QReleaseToken t resrename);
      release_rem rem resrename (if rv <? 0 then rv else result)
  end.

(** Everything before [out:]: the result. *)
Definition release_resources (ca : cmd_args) (fd : Z) : thread Z :=
  let ci := ca.(ca_ci_target) in
  let flags := ca.(ca_header).(h_cmd_flags) in
  if has_flag flags SANLK_REL_ALL then
    rem ← on_client ci (with_slots (fun l => take_all l []));
    release_rem rem None 0
  else if has_flag flags SANLK_REL_ORPHAN then
    r ← ask (QRecvResource fd);
    match r with
    | None => mret (- ENOTCONN)
    | Some res => ask (QReleaseOrphan res)
    end
  else if has_flag flags SANLK_REL_RENAME then
    r ← ask (QRecvResource fd);
    match r with
    | None => mret (- ENOTCONN)
    | Some res =>
        r ← ask (QRecvResource fd);
        match r with
        | None => mret (- ENOTCONN)
        | Some new =>
            r ← on_client ci (release_find res []);
            let '(rem, found) := r in
            release_rem rem (Some new) (if found : bool then 0 else -1)
        end
    end
  else
    r ← release_recv ci fd (Z.to_nat ca.(ca_header).(h_data)) [] 0;
    let '(rem, result) := r in
    release_rem rem None result.

(** The end of a command on a client whose process died meanwhile. *)
Definition clean_dead (ci : nat) (pid_dead : Z) : thread unit :=
  if nz pid_dead then release_cl_tokens ci;; free_client ci else mret tt.

Definition cmd_release (ca : cmd_args) : thread unit :=
  let ci := ca.(ca_ci_target) in
  fd ← client_fd ca.(ca_ci_in);
  result ← release_resources ca fd;
  pid_dead ← on_client ci release_done;
  clean_dead ci pid_dead;;
  reply ca fd result.

(** ** [cmd_inquire], [cmd_convert], [cmd_killpath] *)

(** The strings of the tokens, separated by spaces; the result and the
    state. *)
Fixpoint inquire_loop (to_str : rtoken -> option (list Z)) (l : list rtoken) (cat : Z) (state : list Z)
    : Z * list Z :=
  match l with
  | [] => (0, state)
  | t :: l =>
      match to_str t with
      | None => (- ELIBACC, state)
      | Some str =>
          if SANLK_MAX_RES_STR - 1 <? Z.of_nat (length str) then (- ELIBBAD, state)
          else if existsb (Z.eqb 32) str then (- ELIBSCN, state)
          else inquire_loop to_str l (cat + 1) (state ++ (if cat =? 0 then [] else [32]) ++ str)
      end
  end.

(** The section of [cmd_inquire]: the result, [res_count], the bytes of the state
    that are sent ([state_strlen + 1], and [state_strlen] is 0 after an error) and
    [pid_dead]. *)
Definition inquire_section (to_str : rtoken -> option (list Z)) (state_ok : bool) (cl : client)
    : option (Z * Z * option (list Z) * Z * client) :=
  let pid_dead := cl.(cl_pid_dead) in
  let cl' := cl <| cl_cmd_active := 0 |> in
  if nz pid_dead then Some (- ESTALE, 0, None, pid_dead, cl')
  else
    l ← token_slots cl;
    let held := held_tokens l in
    let res_count := Z.of_nat (length held) in
    if res_count =? 0 then Some (0, 0, None, pid_dead, cl')
    else if state_ok then
      let '(result, state) := inquire_loop to_str held 0 [] in
      Some (result, res_count, Some (if result =? 0 then state ++ [0] else take 1 (state ++ [0])), pid_dead, cl')
    else Some (- ENOMEM, res_count, None, pid_dead, cl').

Definition cmd_inquire (ca : cmd_args) : thread unit :=
  let ci := ca.(ca_ci_target) in
  fd ← client_fd ca.(ca_ci_in);
  to_str ← ask QResToStr;
  state_ok ← ask QMalloc;
  r ← on_client ci (inquire_section to_str state_ok);
  let '(result, res_count, state, pid_dead) := r in
  clean_dead ci pid_dead;;
  ask (QSendState fd ca.(ca_header) result res_count state);;
  resume ca.(ca_ci_in).

(** The index of the token of a resource. *)
Fixpoint find_token (res : sanlk_resource) (l : list (option rtoken)) (i : nat) : option (nat * rtoken) :=
  match l with
  | [] => None
  | Some t :: l => if token_is res t then Some (i, t) else find_token res l (S i)
  | None :: l => find_token res l (S i)
  end.

Definition end_command (cl : client) : option (Z * client) :=
  Some (cl.(cl_pid_dead), cl <| cl_cmd_active := 0 |>).

(** When the resource is not received, [cmd_active] stays set. The flags that
    [convert_token] changes are those of the token in the slot. *)
Definition cmd_convert (ca : cmd_args) : thread unit :=
  let ci := ca.(ca_ci_target) in
  fd ← client_fd ca.(ca_ci_in);
  r ← ask (QRecvResource fd);
  match r with
  | None => reply ca fd (- ENOTCONN)
  | Some res =>
      r ← on_client ci (fun cl => l ← token_slots cl; Some (find_token res l 0, cl));
      result ← (match r with
                | None => mret (- ENOENT)
                | Some (i, t) =>
                    r ← ask (QConvertToken res t ca.(ca_header).(h_cmd_flags));
                    let '(rv, flags) := r in
                    on_client ci (fun cl => Some (tt, cl <| cl_tokens :=
                      alter (fmap (fun t => t <| tk_tok := t.(tk_tok) <| t_r_flags := flags |> |>)) i
                      <$> cl.(cl_tokens) |>));;
                    mret (if rv <? 0 then rv else 0)
                end : thread Z);
      pid_dead ← on_client ci end_command;
      clean_dead ci pid_dead;;
      reply ca fd result
  end.

Definition set_killpath (path args : list Z) (ci : nat) : thread unit :=
  on_client ci (fun cl => Some (tt, cl <| cl_killpath := path |> <| cl_killargs := args |>)).

(** Zero the last byte of a string buffer. *)
Definition terminate (l : list Z) : list Z := <[(length l - 1)%nat := 0]> l.

(** The result; the killpath of the target client is received in place. *)
Definition killpath_recv (ca : cmd_args) : thread Z :=
  let ci := ca.(ca_ci_target) in
  let len := Z.to_nat SANLK_HELPER_LEN in
  r ← ask (QRecvBytes ca.(ca_cl_fd) SANLK_HELPER_LEN);
  match r with
  | None => set_killpath (zeros len) (zeros len) ci;; mret (- ENOTCONN)
  | Some path =>
      on_client ci (fun cl => Some (tt, cl <| cl_killpath := path |>));;
      r ← ask (QRecvBytes ca.(ca_cl_fd) SANLK_HELPER_LEN);
      match r with
      | None => set_killpath (zeros len) (zeros len) ci;; mret (- ENOTCONN)
      | Some args =>
          set_killpath (terminate path) (terminate args) ci;;
          (if has_flag ca.(ca_header).(h_cmd_flags) SANLK_KILLPATH_PID
           then on_client ci (fun cl => Some (tt, cl <| cl_flags := Z.lor cl.(cl_flags) CL_KILLPATH_PID |>))
           else mret tt);;
          mret 0
      end
  end.

Definition cmd_killpath (ca : cmd_args) : thread unit :=
  let ci := ca.(ca_ci_target) in
  result ← killpath_recv ca;
  pid_dead ← on_client ci end_command;
  if nz pid_dead then release_cl_tokens ci;; free_client ci
  else reply ca ca.(ca_cl_fd) result.

(** ** [cmd_request] *)

Definition request_setup (ls : lockspaces) (t : rtoken) : option rtoken :=
  match lockspace_info ls t.(t_lockspace_name) with
  | (rv, Some spi) =>
      if (rv <? 0) || nz spi.(spi_killing_pids) then None
      else Some (t <| tk_tok := t.(tk_tok) <| t_io_timeout := spi.(spi_io_timeout) |>
                                 <| t_sector_size := spi.(spi_sector_size) |>
                                 <| t_align_size := spi.(spi_align_size) |> |>)
  | (_, None) => None
  end.

(** The result. A request with a version or a mode is announced to the owner with
    its bit in the bitmap of our delta lease. *)
Definition request_result (ca : cmd_args) (fd : Z) : thread Z :=
  let force_mode := ca.(ca_header).(h_data) in
  r ← ask (QRecvResource fd);
  match r with
  | None => mret (- ENOTCONN)
  | Some res =>
      if (res.(r_num_disks) =? 0) || (SANLK_MAX_DISKS <? res.(r_num_disks)) then mret (- ERANGE)
      else
        ok ← ask QMalloc;
        if negb ok then mret (- ENOMEM)
        else
          r ← ask (QRecvDisks fd res.(r_num_disks));
          match r with
          | None => mret (- ENOTCONN)
          | Some disks =>
              let t := acquire_new_token 0 res disks in
              let t := t <| tk_tok := t.(tk_tok) <| t_r_flags := 0 |> |> in
              r ← atomic (fun d => Some (request_setup d.(d_spaces) t, d));
              match r with
              | None => mret (- ENOSPC)
              | Some t =>
                  r ← ask (QRequestToken t force_mode
                             (Z.land ca.(ca_header).(h_cmd_flags) SANLK_REQUEST_NEXT_LVER));
                  let '(error, owner_id) := r in
                  if error <? 0 then mret error
                  else if (t.(tk_acquire_lver) =? 0) && (force_mode =? 0) then mret 0
                  else if owner_id =? 0 then mret 0
                  else
                    now ← ask QMonotime;
                    on_spaces (fun ls => Some (host_status_set_bit now t.(t_lockspace_name) owner_id ls));;
                    mret 0
              end
          end
  end.

Definition cmd_request (ca : cmd_args) : thread unit :=
  fd ← client_fd ca.(ca_ci_in);
  result ← request_result ca fd;
  reply ca fd result.

(** ** Lockspace commands *)

(** [malloc] returns an address that is not in use. *)
Definition malloc_space (p : option Z) (ls : lockspaces) : option Z :=
  match p with
  | Some p => if existsb (fun sp => sp.(sp_list) =? p) (all_spaces ls) then None else Some p
  | None => None
  end.

(** [add_lockspace_wait]: joining the thread is part of the wait. *)
Fixpoint add_lockspace_poll (fuel : nat) (p : Z) : thread Z :=
  match fuel with
  | O => Waiting
  | S fuel =>
      result ← on_spaces (fun ls => r ← add_wait_result p ls; Some (r, ls));
      if result =? 0 then ask QSleep;; add_lockspace_poll fuel p else mret result
  end.

Definition add_fail (p : Z) (rv : Z) : thread Z :=
  on_spaces (fun ls => Some (tt, add_fail_del p ls));; mret rv.

Definition add_lockspace_wait (fuel : nat) (p : Z) : thread Z :=
  result ← add_lockspace_poll fuel p;
  if negb (result =? SANLK_OK) then add_fail p result
  else
    added ← on_spaces (add_wait_commit p);
    if added : bool then mret 0
    else
      on_spaces (fun ls => ls ← add_wait_undo p ls; Some (tt, ls));;
      add_fail p (-1).

Definition cmd_add_lockspace (com : command_line) (cs : com_space) (fuel : nat) (ca : cmd_args) : thread unit :=
  fd ← client_fd ca.(ca_ci_in);
  r ← ask (QRecvLockspace fd);
  match r with
  | None => reply ca fd (- ENOTCONN)
  | Some ls =>
      let data := ca.(ca_header).(h_data) in
      let io_timeout := if data =? 0 then com.(com_io_timeout) else data in
      r ← ask QMallocSpace;
      let '(malloc, history_ok) := r in
      r ← on_spaces (fun st => Some (add_lockspace_start com cs ls io_timeout (malloc_space malloc st) history_ok st));
      match r with
      | (rv, None) => reply ca fd rv
      | (rv, Some p) =>
          create_rv ← ask QThreadCreate;
          if nz create_rv then rv ← add_fail p (-1); reply ca fd rv
          else if has_flag ca.(ca_header).(h_cmd_flags) SANLK_ADD_ASYNC then
            reply ca fd rv;; add_lockspace_wait fuel p;; mret tt
          else result ← add_lockspace_wait fuel p; reply ca fd result
      end
  end.

Fixpoint inq_wait (fuel : nat) (waitrs : bool) (ls : sanlk_lockspace) : thread Z :=
  match fuel with
  | O => Waiting
  | S fuel =>
      result ← on_spaces (fun st => Some (inq_lockspace ls st, st));
      if negb (result =? - EINPROGRESS) || negb waitrs then mret result
      else ask QSleep;; inq_wait fuel waitrs ls
  end.

Definition cmd_inq_lockspace (fuel : nat) (ca : cmd_args) : thread unit :=
  fd ← client_fd ca.(ca_ci_in);
  r ← ask (QRecvLockspace fd);
  match r with
  | None => reply ca fd (- ENOTCONN)
  | Some ls =>
      result ← inq_wait fuel (has_flag ca.(ca_header).(h_cmd_flags) SANLK_INQ_WAIT) ls;
      reply ca fd result
  end.

Fixpoint rem_lockspace_wait (fuel : nat) (ls : sanlk_lockspace) (space_id : Z) : thread Z :=
  match fuel with
  | O => Waiting
  | S fuel =>
      fin ← on_spaces (fun st => Some (rem_lockspace_done ls space_id st, st));
      if fin : bool then mret 0 else ask QSleep;; rem_lockspace_wait fuel ls space_id
  end.

Definition cmd_rem_lockspace (fuel : nat) (ca : cmd_args) : thread unit :=
  fd ← client_fd ca.(ca_ci_in);
  r ← ask (QRecvLockspace fd);
  match r with
  | None => reply ca fd (- ENOTCONN)
  | Some ls =>
      used ← (if has_flag ca.(ca_header).(h_cmd_flags) SANLK_REM_UNUSED
              then ask (QLockspaceIsUsed ls) else mret false);
      if used : bool then reply ca fd (- EBUSY)
      else
        r ← on_spaces (fun st => Some (rem_lockspace_start ls st));
        match r with
        | (rv, None) => reply ca fd rv
        | (rv, Some space_id) =>
            if has_flag ca.(ca_header).(h_cmd_flags) SANLK_REM_ASYNC then
              reply ca fd rv;; rem_lockspace_wait fuel ls space_id;; mret tt
            else result ← rem_lockspace_wait fuel ls space_id; reply ca fd result
        end
  end.

Definition cmd_set_event (ca : cmd_args) : thread unit :=
  fd ← client_fd ca.(ca_ci_in);
  r ← ask (QRecvLockspace fd);
  match r with
  | None => reply ca fd (- ENOTCONN)
  | Some ls =>
      r ← ask (QRecvHostEvent fd);
      match r with
      | None => reply ca fd (- ENOTCONN)
      | Some he =>
          now ← ask QMonotime;
          result ← on_spaces (fun st => Some (lockspace_set_event now ls he ca.(ca_header).(h_cmd_flags) st));
          reply ca fd result
      end
  end.

(** ** Shutdown *)

Definition no_spaces (ls : lockspaces) : bool :=
  match all_spaces ls with [] => true | _ => false end.

Definition daemon_shutdown_start (ci fd force : Z) (d : daemon) : Z * daemon :=
  let shut n := d <| shutdown_reply_ci := ci |> <| shutdown_reply_fd := fd |>
                  <| d_spaces := d.(d_spaces) <| external_shutdown := n |> |> in
  if nz force then (0, shut 2)
  else if no_spaces d.(d_spaces) then (0, shut 1)
  else (- EBUSY, d).

Definition cmd_shutdown_wait (ca : cmd_args) : thread unit :=
  fd ← client_fd ca.(ca_ci_in);
  result ← atomic (fun d => Some (daemon_shutdown_start (Z.of_nat ca.(ca_ci_in)) fd ca.(ca_header).(h_data) d));
  if result =? 0 then mret tt else reply ca fd result.

(** ** Dispatch *)

(** The commands that only call other components (their result is that of
    [QOther]) reply and resume the connection like the rest. *)
Definition cmd_other (ca : cmd_args) : thread unit :=
  fd ← client_fd ca.(ca_ci_in);
  result ← ask (QOther fd ca.(ca_header));
  reply ca fd result.

Definition call_cmd_thread (com : command_line) (cs : com_space) (fuel : nat) (ca : cmd_args) : thread unit :=
  let cmd := ca.(ca_header).(h_cmd) in
  if cmd =? SM_CMD_ACQUIRE then cmd_acquire ca
  else if cmd =? SM_CMD_RELEASE then cmd_release ca
  else if cmd =? SM_CMD_INQUIRE then cmd_inquire ca
  else if cmd =? SM_CMD_CONVERT then cmd_convert ca
  else if cmd =? SM_CMD_REQUEST then cmd_request ca
  else if cmd =? SM_CMD_ADD_LOCKSPACE then cmd_add_lockspace com cs fuel ca
  else if cmd =? SM_CMD_INQ_LOCKSPACE then cmd_inq_lockspace fuel ca
  else if cmd =? SM_CMD_REM_LOCKSPACE then cmd_rem_lockspace fuel ca
  else if cmd =? SM_CMD_KILLPATH then cmd_killpath ca
  else if cmd =? SM_CMD_SHUTDOWN_WAIT then cmd_shutdown_wait ca
  else if cmd =? SM_CMD_SET_EVENT then cmd_set_event ca
  else cmd_other ca.

(** [thread_pool_add_work]; [add_rv] is negative when the pool is quitting or a
    worker cannot be created. *)
Definition thread_pool_add_work (add_rv : Z) (ca : cmd_args) : thread unit :=
  if add_rv <? 0 then mret tt else Spawn ca (mret tt).

Definition process_fail (ci : nat) (h : sm_header) (result : Z) : thread unit :=
  fd ← client_fd ci;
  ask (QDrain ci h);;
  ask (QSendResult fd h result);;
  resume ci.

Definition process_cmd_thread_unregistered (ci_in : nat) (h : sm_header) : thread unit :=
  ok ← ask QMalloc;
  if negb ok then process_fail ci_in h (- ENOMEM)
  else
    add_rv ← ask QThreadCreate;
    thread_pool_add_work add_rv (CmdArgs ci_in 0 0 0 h);;
    if add_rv <? 0 then process_fail ci_in h add_rv else mret tt.

(** The client with a pid. *)
Fixpoint find_pid (pid : Z) (l : list client) (i : nat) : option nat :=
  match l with
  | [] => None
  | cl :: l => if u32 cl.(cl_pid) =? pid then Some i else find_pid pid l (S i)
  end.

(** The checks of the target client; [cmd_active] is set when they hold. *)
Definition register_cmd (cmd : Z) (cl : client) : Z * client :=
  if (cl.(cl_used) =? 0) || (cl.(cl_pid) <=? 0) || nz cl.(cl_pid_dead) || nz cl.(cl_need_free) ||
     (nz cl.(cl_kill_count) && (cmd =? SM_CMD_ACQUIRE)) || nz cl.(cl_cmd_active)
  then (- EBUSY, cl)
  else (0, cl <| cl_cmd_active := cmd |>).

(** [data2] is the pid of the target, or all ones for the sender. Returns the
    result, and the target with its pid and descriptor. *)
Definition register_target (ci_in : nat) (h : sm_header) (cs : clients) : Z * (nat * Z * Z) * clients :=
  let target := if h.(h_data2) =? 2 ^ 32 - 1 then Some ci_in else find_pid h.(h_data2) cs.(cs_client) 0 in
  match target with
  | None => (- ESRCH, (0%nat, 0, 0), cs)
  | Some ci =>
      let '(result, cl) := register_cmd h.(h_cmd) (client_at ci cs) in
      (result, (ci, cl.(cl_pid), cl.(cl_fd)), set_client ci cl cs)
  end.

Definition process_cmd_thread_registered (ci_in : nat) (h : sm_header) : thread unit :=
  ok ← ask QMalloc;
  if negb ok then process_fail ci_in h (- ENOMEM)
  else
    r ← on_clients (fun cs => Some (register_target ci_in h cs));
    let '(result, (ci, pid, fd)) := r in
    if result <? 0 then process_fail ci_in h result
    else
      add_rv ← ask QThreadCreate;
      thread_pool_add_work add_rv (CmdArgs ci_in ci fd pid h);;
      if add_rv <? 0 then
        on_client ci (fun cl => Some (tt, cl <| cl_cmd_active := 0 |>));;
        process_fail ci_in h add_rv
      else mret tt.

(** [SM_CMD_REGISTER]: the tokens of an array that exists are lost with it. The
    result says whether the connection stays; the decimal pid that becomes the
    owner name is left out. *)
Definition cmd_register (pid : Z) (tokens_ok : bool) (cl : client) : bool * client :=
  let cl := cl <| cl_pid := pid |> <| cl_deadfn := Some ClientPidDead |>
              <| cl_tokens_slots := SANLK_MAX_RESOURCES |> in
  if tokens_ok then (true, cl <| cl_tokens := Some (replicate (Z.to_nat SANLK_MAX_RESOURCES) None) |>)
  else (false, cl <| cl_tokens := None |>).

Definition cmd_shutdown (force : Z) (ls : lockspaces) : lockspaces :=
  if nz force then ls <| external_shutdown := 2 |>
  else if no_spaces ls then ls <| external_shutdown := 1 |> else ls.

(** [call_cmd_daemon]. The commands that report state change nothing. *)
Definition call_cmd_daemon (ci : nat) (h : sm_header) : thread unit :=
  fd ← client_fd ci;
  let cmd := h.(h_cmd) in
  if cmd =? SM_CMD_REGISTER then
    r ← ask (QPeerPid fd);
    match r with
    | None => free_client ci
    | Some pid =>
        tokens_ok ← ask QMallocTokens;
        keep ← on_client ci (fun cl => Some (cmd_register pid tokens_ok cl));
        if keep : bool then mret tt else free_client ci
    end
  else if cmd =? SM_CMD_RESTRICT then
    on_client ci (fun cl => Some (tt, cl <| cl_restricted := h.(h_cmd_flags) |>));;
    ask (QSendResult fd h 0)
  else if cmd =? SM_CMD_VERSION then ask (QSendResult fd h 0)
  else if cmd =? SM_CMD_SHUTDOWN then
    on_spaces (fun ls => Some (tt, cmd_shutdown h.(h_data) ls));;
    free_client ci
  else if cmd =? SM_CMD_REG_EVENT then
    r ← ask (QRecvLockspace fd);
    result ← (match r with
              | None => mret (- ENOTCONN)
              | Some ls =>
                  r ← ask (QRecvHostEvent fd);
                  match r with
                  | None => mret (- ENOTCONN)
                  | Some _ =>
                      r ← ask QEventFds;
                      let '(dup1, dup2, rx) := r in
                      on_spaces (fun st => Some (lockspace_reg_event dup1 dup2 rx ls st))
                  end
              end : thread Z);
    ask (QSendResult fd h result);; free_client ci
  else if cmd =? SM_CMD_END_EVENT then
    r ← ask (QRecvLockspace fd);
    result ← (match r with
              | None => mret (- ENOTCONN)
              | Some ls =>
                  r ← ask QEventFds;
                  let '(_, _, rx) := r in
                  on_spaces (fun st => Some (lockspace_end_event rx ls st))
              end : thread Z);
    ask (QSendResult fd h result);; free_client ci
  else if cmd =? SM_CMD_SET_CONFIG then
    r ← ask (QRecvLockspace fd);
    result ← (match r with
              | None => mret (- ENOTCONN)
              | Some ls => on_spaces (fun st => Some (lockspace_set_config ls h.(h_data) st))
              end : thread Z);
    ask (QSendResult fd h result);; free_client ci
  else
    ask (QOther fd h);; free_client ci.

(** How [process_connection] treats a command. *)
Inductive cmd_class := ByDaemon | Unregistered | Registered | Unknown.

Definition classify (cmd : Z) : cmd_class :=
  if existsb (Z.eqb cmd) [1; 10; 28; 4; 5; 15; 34; 6; 22; 23; 30; 31; 33] then ByDaemon
  else if existsb (Z.eqb cmd) [2; 16; 3; 11; 14; 13; 12; 18; 19; 20; 21; 24; 25; 26; 29; 32; 35; 40; 36; 37; 38; 39]
  then Unregistered
  else if existsb (Z.eqb cmd) [7; 8; 9; 27; 17] then Registered
  else Unknown.

Definition sizeof_sm_header : Z := 32.

(** The header is bad, or of a newer protocol. *)
Definition bad_header (rv : Z) (h : sm_header) (restricted : Z) : bool :=
  (rv <? 0) || negb (rv =? sizeof_sm_header) || negb (h.(h_magic) =? SM_MAGIC) ||
  has_flag restricted SANLK_RESTRICT_ALL ||
  (nz h.(h_version) && negb (h.(h_cmd) =? SM_CMD_VERSION) &&
   (Z.land SM_PROTO 0xFFFF0000 <? Z.land h.(h_version) 0xFFFF0000)).

Fixpoint release_async (l : list rtoken) : thread unit :=
  match l with
  | [] => mret tt
  | t :: l => ask (QReleaseAsync t);; release_async l
  end.

Definition client_pid_dead (ci : nat) : thread unit :=
  cmd_active ← on_clients (fun cs => Some (pid_dead_mark ci cs));
  match cmd_active with
  | Some 0 => l ← on_clients (pid_dead_free ci); release_async l
  | _ => mret tt
  end.

(** [close_helper] as a section of the main thread. *)
Definition drop_helper : thread unit := on_clients (fun cs => cs ← close_helper cs; Some (tt, cs)).

(** The [deadfn] of a connection. That of a connection that has not registered,
    [client_free], is looked up in the section it runs: freeing an entry that
    another thread has freed meanwhile does nothing. *)
Definition call_deadfn (ci : nat) : thread unit :=
  f ← on_clients (fun cs =>
        match (client_at ci cs).(cl_deadfn) with
        | Some ClientFree => Some (None, snd (client_free ci cs))
        | f => Some (f, cs)
        end);
  match f with
  | Some ClientPidDead => client_pid_dead ci
  | Some HelperDead => drop_helper
  | _ => mret tt
  end.

Definition process_connection (ci : nat) : thread unit :=
  cl ← on_client ci (fun cl => Some (cl, cl));
  r ← ask (QRecvHeader cl.(cl_fd));
  let '(rv, h) := r in
  if rv =? 0 then call_deadfn ci
  else if bad_header rv h cl.(cl_restricted) then mret tt
  else
    on_client ci (fun cl => Some (tt, cl <| cl_cmd_last := i32 h.(h_cmd) |>));;
    match classify h.(h_cmd) with
    | ByDaemon => call_cmd_daemon ci h
    | Unregistered =>
        rv ← on_clients (fun cs => Some (client_suspend ci cs));
        if rv <? 0 then mret tt else process_cmd_thread_unregistered ci h
    | Registered =>
        rv ← on_clients (fun cs => Some (client_suspend ci cs));
        if rv <? 0 then mret tt else process_cmd_thread_registered ci h
    | Unknown => mret tt
    end.

Definition process_listener (ci : nat) : thread unit :=
  fd ← client_fd ci;
  new_fd ← ask (QAccept fd);
  if new_fd <? 0 then mret tt
  else on_clients (fun cs => Some (client_add new_fd ProcessConnection None cs));; mret tt.

Definition sizeof_helper_status : Z := 4.

Definition process_helper (ci : nat) : thread unit :=
  fd ← client_fd ci;
  rv ← ask (QReadHelper fd);
  if (rv =? 0) || (rv =? - EAGAIN) then mret tt
  else if (rv <? 0) || negb (rv =? sizeof_helper_status) then drop_helper
  else mret tt.

(** The [workfn] of a connection. *)
Definition call_workfn (ci : nat) : thread unit :=
  f ← on_client ci (fun cl => Some (cl.(cl_workfn), cl));
  match f with
  | Some ProcessListener => process_listener ci
  | Some ProcessConnection => process_connection ci
  | Some ProcessHelper => process_helper ci
  | None => mret tt
  end.

(** ** Releasing all tokens *)

Lemma take_all_spec l rem :
  Z.of_nat (length rem) <= SANLK_MAX_RESOURCES ->
  take_all l rem =
    if Z.of_nat (length rem + length (held_tokens l)) <=? SANLK_MAX_RESOURCES
    then Some (rem ++ held_tokens l, replicate (length l) None) else None.
Proof.
  revert rem. induction l as [|s l IH]; intros rem Hrem; cbn [take_all].
  { rw (proj2 (Z.leb_le _ _)); [cbn; lia|]. cbn. by rw app_nil_r. }
  destruct s as [t|]; cbn [mbind option_bind].
  - unfold rem_add. destruct (Z.ltb_spec (Z.of_nat (length rem)) SANLK_MAX_RESOURCES) as [Hlt|Hge].
    + cbn [mbind option_bind]. rw IH; [rw length_app; cbn; lia|]. rw length_app. cbn [length].
      change (held_tokens (Some t :: l)) with (t :: held_tokens l). cbn [length].
      rw -Nat.add_assoc. destruct (_ <=? _); [|done]. cbn. by rw -app_assoc.
    + cbn [mbind option_bind]. change (held_tokens (Some t :: l)) with (t :: held_tokens l). cbn [length].
      by rw (proj2 (Z.leb_gt _ _)); [lia|].
  - rw IH; [done|]. change (held_tokens (None :: l)) with (held_tokens l). by destruct (_ <=? _).
Qed.

(** Releasing all resources of a process. When the process holds at most
    [SANLK_MAX_RESOURCES] tokens, every slot becomes empty and exactly the tokens
    that were held are released, in the order of the slots. When it holds more,
    which it can since its array of slots grows, the array [rem_tokens] on the
    stack is written beyond its end. *)
Theorem release_all_tokens cl l :
  token_slots cl = Some l -> cl.(cl_tokens) = Some l ->
  with_slots (fun l => take_all l []) cl =
    if Z.of_nat (length (held_tokens l)) <=? SANLK_MAX_RESOURCES
    then Some (held_tokens l, cl <| cl_tokens := Some (replicate (length l) None) |>) else None.
Proof.
  intros Hl Ht. unfold with_slots. rw Hl. cbn [mbind option_bind]. rw take_all_spec; [done|]. cbn [length Nat.add app].
  destruct (_ <=? _); [|done]. cbn [mbind option_bind]. by rw Ht drop_all app_nil_r.
Qed.

(** A client with [n] tokens in an array that has grown once. *)
Definition demo_many (n : nat) : client :=
  let t := RToken 1 (Token 1 1 10 0 512 1048576 0 [] [] [76; 83] [82] 0) 0 0 0 0 1 1000 0 0 in
  client_zero <| cl_used := 1 |> <| cl_pid := 1000 |> <| cl_tokens_slots := 24 |>
              <| cl_tokens := Some (replicate n (Some t) ++ replicate (24 - n) None) |>.

Lemma release_all_tokens_witness :
  with_slots (fun l => take_all l []) (demo_many 9) = None /\
  with_slots (fun l => take_all l []) (demo_many 8) <> None.
Proof.
  split.
  - exact (release_all_tokens (demo_many 9) (default [] (demo_many 9).(cl_tokens)) eq_refl eq_refl).
  - pose proof (release_all_tokens (demo_many 8) (default [] (demo_many 8).(cl_tokens)) eq_refl eq_refl) as E.
    intros E'. rewrite -> E' in E. discriminate.
Defined.
