(* ===== verification/Claims.v ===== *)
(** * Claims of threads on clients and lockspaces

    The invariant of the client array and the rely/guarantee argument for the
    threads of the daemon. A thread has claims on entries of the client array (a
    connection it suspended, a client whose command it runs, a dead client it has
    to clean up; for the main thread the connection it works for) and on the
    lockspace it adds. [keeps] says of a thread that each of its sections keeps the
    invariant and leaves the claims of other threads good; a rule for each kind of
    section follows. *)

From S2P Require Import Prelude OnDisk SizeFlags Timeouts Io DeltaLease PaxosBlocks Lockspace HostStatus.
From S2P Require Import LockspaceLists Clients Commands.

(** ** What a client holds *)

(** The lockspace names of the tokens of a client whose process lives. *)
Definition alive (cl : client) : bool := negb (cl.(cl_used) =? 0) && (0 <? cl.(cl_pid)).
Definition token_keys (l : list (option rtoken)) : list (list Z) :=
  (fun t : rtoken => name_key t.(t_lockspace_name)) <$> held_tokens l.
Definition held_keys (cl : client) : list (list Z) :=
  match cl.(cl_tokens) with Some l => token_keys l | None => [] end.
Definition holding (cl : client) : list (list Z) := if alive cl then held_keys cl else [].

(** The array has the size that [tokens_slots] says. *)
Definition slots_ok (cl : client) : Prop :=
  match cl.(cl_tokens) with
  | Some l => cl.(cl_tokens_slots) = Z.of_nat (length l)
  | None => cl.(cl_tokens_slots) = 0
  end.

(** ** The state of an entry of the client array *)

(** A lockspace of that name is in use. *)
Definition in_spaces (ls : lockspaces) (k : list Z) : Prop := k ∈ sp_key <$> ls.(spaces).

(** A free entry has nothing left of the last client. *)
Record cleared (cl : client) : Prop := Cleared {
  cl_no_tokens : cl.(cl_tokens) = None;
  cl_no_pid : cl.(cl_pid) = -1;
  cl_no_dead : cl.(cl_pid_dead) = 0;
  cl_no_suspend : cl.(cl_suspend) = 0;
  cl_no_cmd : cl.(cl_cmd_active) = 0;
  cl_no_free : cl.(cl_need_free) = 0;
  cl_no_fn : cl.(cl_deadfn) = None
}.

Record entry_ok (cl : client) : Prop := EntryOk {
  eo_slots : slots_ok cl;
  eo_clear : cl.(cl_used) = 0 -> cleared cl;
  eo_dead : cl.(cl_pid_dead) <> 0 -> cl.(cl_pid) = -1;
  eo_free : cl.(cl_need_free) <> 0 -> cl.(cl_pid) = -1 /\ cl.(cl_cmd_active) = 0;
  eo_cmd : cl.(cl_cmd_active) <> 0 -> cl.(cl_pid) <> -1 \/ cl.(cl_pid_dead) <> 0;
  eo_fn : cl.(cl_deadfn) = Some ClientFree -> cl.(cl_pid) = -1 /\ cl.(cl_pid_dead) = 0
}.

Definition client_ok (ls : lockspaces) (cl : client) : Prop :=
  entry_ok cl /\ Forall (in_spaces ls) (holding cl).

Record clients_ok (ls : lockspaces) (cs : clients) : Prop := ClientsOk {
  co_clients : Forall (client_ok ls) cs.(cs_client);
  co_length : length cs.(cs_client) = CLIENT_NALLOC;
  co_pollfd : length cs.(cs_pollfd) = S CLIENT_NALLOC;
  co_maxi : -1 <= cs.(client_maxi) < Z.of_nat CLIENT_NALLOC;
  co_used : forall i cl, cs.(cs_client) !! i = Some cl -> cs.(client_maxi) < Z.of_nat i -> cl.(cl_used) = 0;
  co_helper : cs.(cs_helper).(helper_kill_fd) <> -1 ->
              0 <= cs.(cs_helper).(helper_ci) < Z.of_nat CLIENT_NALLOC
}.

(** ** Claims of a thread on an entry *)

Record susp_ok (cl : client) : Prop := SuspOk {
  su_used : cl.(cl_used) <> 0;
  su_suspend : cl.(cl_suspend) <> 0
}.
Record cmd_ok (cl : client) : Prop := CmdOk {
  cm_used : cl.(cl_used) <> 0;
  cm_active : cl.(cl_cmd_active) <> 0
}.
Record dead_ok (cl : client) : Prop := DeadOk {
  de_used : cl.(cl_used) <> 0;
  de_dead : cl.(cl_pid_dead) <> 0;
  de_cmd : cl.(cl_cmd_active) = 0;
  de_free : cl.(cl_need_free) = 0
}.
(** The main thread while it works for a connection. *)
Record main_ok (cl : client) : Prop := MainOk {
  ma_used : cl.(cl_used) <> 0;
  ma_dead : cl.(cl_pid_dead) = 0;
  ma_suspend : cl.(cl_suspend) = 0;
  ma_free : cl.(cl_need_free) = 0
}.

(** The fields that claims and [entry_ok] are about. *)
Record same_control (cl cl' : client) : Prop := SameControl {
  sc_used : cl'.(cl_used) = cl.(cl_used);
  sc_pid : cl'.(cl_pid) = cl.(cl_pid);
  sc_cmd : cl'.(cl_cmd_active) = cl.(cl_cmd_active);
  sc_dead : cl'.(cl_pid_dead) = cl.(cl_pid_dead);
  sc_suspend : cl'.(cl_suspend) = cl.(cl_suspend);
  sc_free : cl'.(cl_need_free) = cl.(cl_need_free);
  sc_fn : cl'.(cl_deadfn) = cl.(cl_deadfn)
}.

(** Every claim on the entry stays good. *)
Record claims_kept (cl cl' : client) : Prop := ClaimsKept {
  ck_susp : susp_ok cl -> susp_ok cl';
  ck_cmd : cmd_ok cl -> cmd_ok cl';
  ck_dead : dead_ok cl -> dead_ok cl';
  ck_main : main_ok cl -> main_ok cl'
}.

Lemma same_control_claims cl cl' : same_control cl cl' -> claims_kept cl cl'.
Proof. intros []. constructor; intros []; constructor; congruence. Qed.

Lemma same_control_refl cl : same_control cl cl.
Proof. done. Qed.

(** The tokens of a client that shares the control fields: the array fits, and is
    not there when the entry is free. *)
Lemma same_control_entry cl cl' :
  same_control cl cl' -> slots_ok cl' -> (cl.(cl_tokens) = None -> cl'.(cl_tokens) = None) ->
  entry_ok cl -> entry_ok cl'.
Proof.
  intros [] Hs Ht [H1 H2 H3 H4 H5 H6]. constructor; [done|..].
  - intros Hu. destruct H2; [congruence|]. constructor; try congruence. auto.
  - by rw sc_dead0 sc_pid0.
  - by rw sc_free0 sc_pid0 sc_cmd0.
  - by rw sc_cmd0 sc_pid0 sc_dead0.
  - by rw sc_fn0 sc_pid0 sc_dead0.
Qed.

(** A change of other fields. *)
Record quiet (cl cl' : client) : Prop := Quiet {
  qu_control : same_control cl cl';
  qu_tokens : cl'.(cl_tokens) = cl.(cl_tokens);
  qu_slots : cl'.(cl_tokens_slots) = cl.(cl_tokens_slots)
}.

Lemma quiet_ok ls cl cl' : quiet cl cl' -> client_ok ls cl -> client_ok ls cl'.
Proof.
  intros [Hc Ht Hs] [He Hh]. split.
  - apply (same_control_entry cl); [done| |congruence|done]. unfold slots_ok. rw Ht Hs. apply He.
  - unfold holding, alive, held_keys. by rw (sc_used _ _ Hc) (sc_pid _ _ Hc) Ht.
Qed.

(** ** Entries of the array *)

Lemma client_zero_ok ls : client_ok ls client_zero.
Proof. split; [|constructor]. by constructor. Qed.

Lemma client_at_ok ls cs ci : clients_ok ls cs -> client_ok ls (client_at ci cs).
Proof.
  intros H. unfold client_at. destruct (nth_lookup_or_length cs.(cs_client) ci client_zero) as [E|E].
  - eapply Forall_lookup_1; [apply H|exact E].
  - rw nth_overflow; [lia|]. apply client_zero_ok.
Qed.

Lemma client_at_lookup cs i cl : cs.(cs_client) !! i = Some cl -> client_at i cs = cl.
Proof. apply nth_lookup_Some. Qed.

Lemma used_lookup cs ci : (client_at ci cs).(cl_used) <> 0 -> cs.(cs_client) !! ci = Some (client_at ci cs).
Proof.
  intros H. unfold client_at in *. destruct (nth_lookup_or_length cs.(cs_client) ci client_zero) as [E|E]; [done|].
  by rw nth_overflow in H; [lia|].
Qed.

Lemma client_at_set_ne ci ci' cl cs : ci' <> ci -> client_at ci' (set_client ci cl cs) = client_at ci' cs.
Proof. intros H. unfold client_at. cbn. by rw !nth_lookup list_lookup_insert_ne. Qed.

(** Storing in an entry that does not exist changes nothing. *)
Lemma client_at_set ci cl cs :
  client_at ci (set_client ci cl cs) = cl \/
  (client_at ci (set_client ci cl cs) = client_at ci cs /\ client_at ci cs = client_zero).
Proof.
  unfold client_at. cbn. destruct (decide (ci < length cs.(cs_client))%nat) as [Hlt|Hge].
  - left. rw nth_lookup list_lookup_insert_eq; done.
  - right. rw !nth_overflow ?length_insert; [lia..|]. done.
Qed.

Lemma client_at_pollfd ci ci' f cs : client_at ci (set_pollfd ci' f cs) = client_at ci cs.
Proof. done. Qed.

(** Storing a client. *)
Lemma clients_ok_set ls cs ci cl :
  clients_ok ls cs -> client_ok ls cl -> ((client_at ci cs).(cl_used) = 0 -> cl.(cl_used) = 0) ->
  clients_ok ls (set_client ci cl cs).
Proof.
  intros [H1 H2 H3 H4 H5 H6] Hcl Hu. constructor; cbn; try done.
  - by apply Forall_insert.
  - by rw length_insert.
  - intros i cl' Hi Hm. destruct (decide (i = ci)) as [->|Hne].
    + rw list_lookup_insert_Some in Hi. destruct Hi as [(_ & -> & Hlt)|[]]; [|done].
      apply Hu. unfold client_at. eapply H5; [|exact Hm].
      destruct (nth_lookup_or_length cs.(cs_client) ci client_zero); [done|lia].
    + rw list_lookup_insert_ne in Hi; [done|]. by eapply H5.
Qed.

Lemma clients_ok_pollfd ls cs ci f : clients_ok ls cs -> clients_ok ls (set_pollfd ci f cs).
Proof. intros []. constructor; cbn; try done. by rw length_alter. Qed.
#[export] Hint Resolve clients_ok_pollfd : sanlock.

(** More lockspaces are in use than before. *)
Lemma clients_ok_spaces ls ls' cs :
  sp_key <$> ls.(spaces) ⊆ sp_key <$> ls'.(spaces) -> clients_ok ls cs -> clients_ok ls' cs.
Proof.
  intros Hsub [H1 H2 H3 H4 H5 H6]. constructor; try done.
  eapply list.Forall_impl; [exact H1|]. intros cl [Hs Hl]. split; [done|].
  eapply list.Forall_impl; [exact Hl|]. intros k Hk. by apply Hsub.
Qed.

(** ** Claims of a thread *)

(** The space it adds ([true]: its thread runs), the connection it suspended, the
    client it runs a command for, the dead client it cleans up; for the main
    thread, the connection it works for. *)
Record own := Own {
  o_is_main : bool;
  o_space : option (bool * Z);
  o_susp : option nat;
  o_cmd : option nat;
  o_dead : option nat;
  o_main : option nat
}.
#[export] Instance own_settable : Settable own := fun r =>
  Own r.(o_is_main) r.(o_space) r.(o_susp) r.(o_cmd) r.(o_dead) r.(o_main).

Definition own_none : own := Own false None None None None None.
Definition own_main : own := Own true None None None None None.

Definition claims {A} (o : option A) (P : A -> Prop) : Prop := match o with Some x => P x | None => True end.

Definition space_claim (ls : lockspaces) (c : bool * Z) : Prop :=
  if fst c then adding (snd c) ls else on_add (snd c) ls.

Record own_ok (o : own) (d : daemon) : Prop := OwnOk {
  ow_space : claims o.(o_space) (space_claim d.(d_spaces));
  ow_susp : claims o.(o_susp) (fun ci => susp_ok (client_at ci d.(d_clients)));
  ow_cmd : claims o.(o_cmd) (fun ci => cmd_ok (client_at ci d.(d_clients)));
  ow_dead : claims o.(o_dead) (fun ci => dead_ok (client_at ci d.(d_clients)));
  ow_main : claims o.(o_main) (fun ci => main_ok (client_at ci d.(d_clients)));
  ow_wf : o.(o_is_main) = false -> o.(o_main) = None
}.

Definition distinct {A} (a b : option A) : Prop := claims a (fun x => b <> Some x).

(** Claims of different threads. *)
Record disjoint_own (o r : own) : Prop := DisjointOwn {
  dj_space : distinct (snd <$> o.(o_space)) (snd <$> r.(o_space));
  dj_susp : distinct o.(o_susp) r.(o_susp);
  dj_cmd : distinct o.(o_cmd) r.(o_cmd);
  dj_cmd_dead : distinct o.(o_cmd) r.(o_dead);
  dj_dead_cmd : distinct o.(o_dead) r.(o_cmd);
  dj_dead : distinct o.(o_dead) r.(o_dead);
  dj_main : o.(o_is_main) = true -> r.(o_is_main) = false
}.

Record inv (d : daemon) : Prop := Inv {
  inv_lists : lists_ok d.(d_spaces);
  inv_clients : clients_ok d.(d_spaces) d.(d_clients)
}.

(** A section from [d] to [d'] that turns the claims [o] into [o'] is fair to the
    other threads. *)
Definition fair (o o' : own) (d d' : daemon) : Prop :=
  forall r, disjoint_own o r -> own_ok r d -> own_ok r d' /\ disjoint_own o' r.

(** The answers that are assumed: a registered peer has a pid, and the array of a
    registered client can be allocated. *)
Definition answer_ok (q : query) : answer q -> Prop :=
  match q with
  | QPeerPid _ => fun a => claims a (fun pid => 0 <= pid)
  | QMallocTokens => fun ok => ok = true
  | _ => fun _ => True
  end.

(** The claims a queued command starts with. *)
Definition registered_cmd (cmd : Z) : bool := match classify cmd with Registered => true | _ => false end.
Definition worker_own (ca : cmd_args) : own :=
  Own false None (Some ca.(ca_ci_in)) (if registered_cmd ca.(ca_header).(h_cmd) then Some ca.(ca_ci_target) else None)
    None None.

(** [keeps t o Q]: started with the claims [o], every section of the thread keeps
    the invariant and is fair, and it ends with a result and claims in [Q]. A
    command it queues takes over the claims it starts with. *)
Fixpoint keeps {A} (t : thread A) (o : own) (Q : A -> own -> Prop) : Prop :=
  match t with
  | Done a => Q a o
  | Waiting => True
  | Atomic f k => forall d x d', inv d -> own_ok o d -> f d = Some (x, d') ->
      exists o', inv d' /\ own_ok o' d' /\ fair o o' d d' /\ keeps (k x) o' Q
  | Ask q k => forall a, answer_ok q a -> keeps (k a) o Q
  | Spawn ca k => o.(o_susp) = Some ca.(ca_ci_in) /\ o.(o_cmd) = (worker_own ca).(o_cmd) /\
      keeps k (o <| o_susp := None |> <| o_cmd := None |>) Q
  end.

Lemma keeps_bind {A B} (t : thread A) (k : A -> thread B) o Q :
  keeps t o (fun a o' => keeps (k a) o' Q) -> keeps (t ≫= k) o Q.
Proof.
  revert o. induction t as [a| |T f k' IH|q k' IH|ca k' IH]; intros o; cbn; auto.
  - intros H d x d' Hi Ho E. destruct (H d x d' Hi Ho E) as (o' & ? & ? & ? & ?). exists o'. auto.
  - intros (? & ? & H). split_and!; auto.
Qed.

Lemma keeps_impl {A} (t : thread A) o (Q Q' : A -> own -> Prop) :
  (forall a o', Q a o' -> Q' a o') -> keeps t o Q -> keeps t o Q'.
Proof.
  intros HQ. revert o. induction t as [a| |T f k' IH|q k' IH|ca k' IH]; intros o; cbn; auto.
  - intros H d x d' Hi Ho E. destruct (H d x d' Hi Ho E) as (o' & ? & ? & ? & ?). exists o'. auto.
  - intros (? & ? & H). split_and!; auto.
Qed.

Lemma keeps_ask q o (Q : answer q -> own -> Prop) :
  (forall a, answer_ok q a -> Q a o) -> keeps (ask q) o Q.
Proof. intros H a Ha. by apply H. Qed.

Lemma keeps_ret {A} (a : A) o (Q : A -> own -> Prop) : Q a o -> keeps (mret a) o Q.
Proof. done. Qed.

(** ** Sections that change one entry *)

(** How claims on the entry [ci] may be gained: [P] says that another thread has
    it. *)
Definition gain (ci : nat) (old new : option nat) (P : Prop) : Prop :=
  new = old \/ new = None \/ (new = Some ci /\ ~ P).

(** What a change of the entry [ci] from [cl] to [cl'] has to respect. *)
Record entry_step (o o' : own) (ci : nat) (cl cl' : client) : Prop := EntryStep {
  es_susp : susp_ok cl -> o.(o_susp) <> Some ci -> susp_ok cl';
  es_cmd : cmd_ok cl -> o.(o_cmd) <> Some ci -> o.(o_dead) <> Some ci -> cmd_ok cl';
  es_dead : dead_ok cl -> o.(o_cmd) <> Some ci -> o.(o_dead) <> Some ci -> dead_ok cl';
  es_main : main_ok cl -> o.(o_is_main) = false -> main_ok cl';
  es_space : o'.(o_space) = o.(o_space);
  es_gain_susp : gain ci o.(o_susp) o'.(o_susp) (susp_ok cl);
  es_gain_cmd : gain ci o.(o_cmd) o'.(o_cmd) (cmd_ok cl \/ dead_ok cl);
  es_gain_dead : gain ci o.(o_dead) o'.(o_dead) ((cmd_ok cl \/ dead_ok cl) /\ o.(o_cmd) <> Some ci);
  es_is_main : o'.(o_is_main) = o.(o_is_main);
  es_gain_main : o'.(o_main) = o.(o_main) \/ o'.(o_main) = None;
  es_own_susp : o'.(o_susp) = Some ci -> cl.(cl_used) <> 0 /\ susp_ok cl';
  es_own_cmd : o'.(o_cmd) = Some ci -> cl.(cl_used) <> 0 /\ cmd_ok cl';
  es_own_dead : o'.(o_dead) = Some ci -> cl.(cl_used) <> 0 /\ dead_ok cl';
  es_own_main : o'.(o_main) = Some ci -> cl.(cl_used) <> 0 /\ main_ok cl'
}.

(** The claim of another thread on an entry survives a change of one entry. *)
Lemma claim_entry (P : client -> Prop) (c : option nat) ci cl' cs :
  ~ P client_zero ->
  claims c (fun i => P (client_at i cs)) -> (c = Some ci -> P (client_at ci cs) -> P cl') ->
  claims c (fun i => P (client_at i (set_client ci cl' cs))).
Proof.
  intros Hz Hc H. destruct c as [i|]; [|done]. unfold claims in *. destruct (decide (i = ci)) as [->|Hne].
  - destruct (client_at_set ci cl' cs) as [E|[E E0]]; rw E; [auto|]. by rw E0 in Hc.
  - by rw client_at_set_ne.
Qed.

Lemma gain_distinct ci old new (P : Prop) (r : option nat) :
  gain ci old new P -> distinct old r -> (r = Some ci -> new = Some ci -> P) -> distinct new r.
Proof.
  intros [->|[->|[-> Hn]]] Hd Hr; cbn; [done..|]. intros E. by apply Hn, Hr.
Qed.

Lemma zero_claims : ~ susp_ok client_zero /\ ~ cmd_ok client_zero /\ ~ dead_ok client_zero /\ ~ main_ok client_zero.
Proof. split_and!; by intros []. Qed.

Lemma claims_impl {A} (c : option A) (P Q : A -> Prop) : (forall x, P x -> Q x) -> claims c P -> claims c Q.
Proof. destruct c; cbn; auto. Qed.

Lemma claims_at {A} (c : option A) P x : claims c P -> c = Some x -> P x.
Proof. by intros H ->. Qed.

Lemma distinct_ne {A} (a b : option A) x : distinct a b -> b = Some x -> a <> Some x.
Proof. by intros H -> ->. Qed.
#[local] Hint Resolve distinct_ne : sanlock.

Lemma fair_entry o o' ci cl' d :
  entry_step o o' ci (client_at ci d.(d_clients)) cl' ->
  fair o o' d (d <| d_clients := set_client ci cl' d.(d_clients) |>).
Proof.
  intros [Es Ec Ed Em Esp Gs Gc Gd Im Gm _ _ _ _] r [D1 D2 D3 D4 D5 D6 D7] [R1 R2 R3 R4 R5 R6].
  destruct zero_claims as (Z1 & Z2 & Z3 & Z4). split.
  - constructor; cbn -[set_client]; [done|..].
    + apply (claim_entry susp_ok); eauto with sanlock.
    + apply (claim_entry cmd_ok); eauto with sanlock.
    + apply (claim_entry dead_ok); eauto with sanlock.
    + apply (claim_entry main_ok); [done..|]. intros E HM. apply Em; [done|].
      destruct (o_is_main o); [|done]. rw R6 in E; [by apply D7|done].
    + done.
  - constructor.
    + by rw Esp.
    + eapply gain_distinct; [done..|]. intros E _. exact (claims_at _ _ _ R2 E).
    + eapply gain_distinct; [done..|]. intros E _. left. exact (claims_at _ _ _ R3 E).
    + eapply gain_distinct; [done..|]. intros E _. right. exact (claims_at _ _ _ R4 E).
    + eapply gain_distinct; [done..|]. intros E _. split; [left; exact (claims_at _ _ _ R3 E)|].
      exact (distinct_ne _ _ _ D3 E).
    + eapply gain_distinct; [done..|]. intros E _. split; [right; exact (claims_at _ _ _ R4 E)|].
      exact (distinct_ne _ _ _ D4 E).
    + by rw Im.
Qed.


Lemma own_entry_claim (P : client -> Prop) (old new : option nat) (N : Prop) ci cl' cs :
  claims old (fun i => P (client_at i cs)) -> gain ci old new N ->
  (new = Some ci -> (client_at ci cs).(cl_used) <> 0 /\ P cl') ->
  claims new (fun i => P (client_at i (set_client ci cl' cs))).
Proof.
  intros Ho Hg Hn. destruct new as [i|]; [|done]. unfold claims. destruct (decide (i = ci)) as [->|Hne].
  - destruct (Hn eq_refl) as [Hu HP]. destruct (client_at_set ci cl' cs) as [E|[_ E0]]; [by rw E|].
    by rw E0 in Hu.
  - rw client_at_set_ne; [done|]. destruct Hg as [<-|[[=]|[[= <-] _]]]; done.
Qed.

Lemma own_entry o o' ci cl' d :
  own_ok o d -> entry_step o o' ci (client_at ci d.(d_clients)) cl' ->
  own_ok o' (d <| d_clients := set_client ci cl' d.(d_clients) |>).
Proof.
  intros [O1 O2 O3 O4 O5 O6] E. constructor; cbn -[set_client].
  - by rw (es_space _ _ _ _ _ E).
  - eapply (own_entry_claim susp_ok); [exact O2|apply E|apply E].
  - eapply (own_entry_claim cmd_ok); [exact O3|apply E|apply E].
  - eapply (own_entry_claim dead_ok); [exact O4|apply E|apply E].
  - eapply (own_entry_claim main_ok _ _ False); [exact O5| |apply E].
    destruct (es_gain_main _ _ _ _ _ E) as [->| ->]; [by left|by right; left].
  - rw (es_is_main _ _ _ _ _ E). intros H. destruct (es_gain_main _ _ _ _ _ E) as [->| ->]; auto.
Qed.

(** Claims depend on the clients only through the entries. *)
Lemma own_ok_clients o d cs cs' :
  (forall i, client_at i cs' = client_at i cs) ->
  own_ok o (d <| d_clients := cs |>) -> own_ok o (d <| d_clients := cs' |>).
Proof.
  intros E [O1 O2 O3 O4 O5 O6]. constructor; [done|..|done].
  all: eapply claims_impl; [|eassumption]; intros i; cbn; by rw E.
Qed.

(** A section that changes the entry [ci] and perhaps the poll array. *)
Lemma entry_section o o' ci cl' cs' d :
  inv d -> own_ok o d -> entry_step o o' ci (client_at ci d.(d_clients)) cl' ->
  clients_ok d.(d_spaces) cs' -> (forall i, client_at i cs' = client_at i (set_client ci cl' d.(d_clients))) ->
  inv (d <| d_clients := cs' |>) /\ own_ok o' (d <| d_clients := cs' |>) /\
  fair o o' d (d <| d_clients := cs' |>).
Proof.
  intros [Hl Hc] Ho He Hc' E. split_and!; [done|..].
  - eapply own_ok_clients; [exact E|]. by apply (own_entry o).
  - intros r Hd Hr. destruct (fair_entry _ _ _ _ _ He r Hd Hr) as [H1 H2]. split; [|done].
    by eapply own_ok_clients.
Qed.

(** The claims of a thread on one entry. *)
Record own_at (o : own) (ci : nat) (cl : client) : Prop := OwnAt {
  oa_susp : o.(o_susp) = Some ci -> susp_ok cl;
  oa_cmd : o.(o_cmd) = Some ci -> cmd_ok cl;
  oa_dead : o.(o_dead) = Some ci -> dead_ok cl;
  oa_main : o.(o_main) = Some ci -> main_ok cl
}.

Lemma own_ok_at o d ci : own_ok o d -> own_at o ci (client_at ci d.(d_clients)).
Proof. intros [O1 O2 O3 O4 O5 _]. constructor; intros E; [by rw E in O2|by rw E in O3|by rw E in O4|by rw E in O5]. Qed.

Lemma keeps_on_client {T} ci (f : client -> option (T * client)) o (Q : T -> own -> Prop) :
  (forall ls cl x cl', client_ok ls cl -> f cl = Some (x, cl') ->
     own_at o ci cl ->
     exists o', client_ok ls cl' /\ (cl.(cl_used) = 0 -> cl'.(cl_used) = 0) /\ entry_step o o' ci cl cl' /\ Q x o') ->
  keeps (on_client ci f) o Q.
Proof.
  intros H d x d' Hi Ho Hf. unfold on_client in Hf.
  destruct (f (client_at ci d.(d_clients))) as [[y cl']|] eqn:E; [|done]. cbn in Hf. injection Hf as <- <-.
  destruct (H d.(d_spaces) _ _ _ (client_at_ok _ _ ci (inv_clients _ Hi)) E) as (o' & Hok & Hu & He & HQ).
  { by apply own_ok_at. }
  exists o'. destruct (entry_section o o' ci cl' (set_client ci cl' d.(d_clients)) d) as (? & ? & ?); try done.
  by apply clients_ok_set; [apply Hi|..].
Qed.

(** A change that leaves the control fields alone. *)
Lemma control_step o ci cl cl' : own_at o ci cl -> same_control cl cl' -> entry_step o o ci cl cl'.
Proof.
  intros [A1 A2 A3 A4] H. destruct (same_control_claims _ _ H) as [K1 K2 K3 K4].
  constructor; auto; try (by left); intros E; (split; [|auto]).
  - by destruct (A1 E). - by destruct (A2 E). - by destruct (A3 E). - by destruct (A4 E).
Qed.

Lemma keeps_quiet {T} ci (f : client -> option (T * client)) o (Q : T -> own -> Prop) :
  (forall cl x cl', f cl = Some (x, cl') -> quiet cl cl' /\ Q x o) -> keeps (on_client ci f) o Q.
Proof.
  intros H. apply keeps_on_client. intros ls cl x cl' Hok E Ho. destruct (H _ _ _ E) as [Hq HQ].
  exists o. split_and!; [by eapply quiet_ok| |by apply control_step; [|apply Hq]|done].
  by rw (sc_used _ _ (qu_control _ _ Hq)).
Qed.

(** The tokens of the client the thread runs a command for: the array fits, and
    what is held was held or is of a lockspace in use. *)
Lemma keeps_tokens {T} ci (f : client -> option (T * client)) o (Q : T -> own -> Prop) :
  o.(o_cmd) = Some ci ->
  (forall ls cl x cl', client_ok ls cl -> f cl = Some (x, cl') ->
     same_control cl cl' /\ slots_ok cl' /\ Forall (in_spaces ls) (holding cl') /\ Q x o) ->
  keeps (on_client ci f) o Q.
Proof.
  intros Hc H. apply keeps_on_client. intros ls cl x cl' Hok E Ho.
  destruct (H _ _ _ _ Hok E) as (Hsc & Hs & Hh & HQ). exists o. split_and!; try done.
  - split; [|done]. destruct (oa_cmd _ _ _ Ho Hc) as [Hu _]. destruct Hok as [[H1 H2 H3 H4 H5 H6] _].
    destruct Hsc. constructor; try done; try congruence; rw ?sc_dead0 ?sc_pid0 ?sc_free0 ?sc_cmd0 ?sc_fn0; done.
  - by rw (sc_used _ _ Hsc).
  - by apply control_step.
Qed.

(** ** Sections on the life of a client *)

(** The end of a command: [cmd_active] is cleared, and a client that died is left
    to the thread to clean up. *)
Definition after_cmd (o : own) (ci : nat) (pid_dead : Z) : own :=
  o <| o_cmd := None |> <| o_dead := if nz pid_dead then Some ci else None |>.

Definition sets_done (cl cl' : client) : Prop := same_control (cl <| cl_cmd_active := 0 |>) cl'.

Lemma done_step o ci cl cl' (dead : bool) :
  own_at o ci cl -> entry_ok cl -> o.(o_cmd) = Some ci -> sets_done cl cl' ->
  (dead = true -> cl.(cl_pid_dead) <> 0) ->
  entry_step o (o <| o_cmd := None |> <| o_dead := if dead then Some ci else None |>) ci cl cl'.
Proof.
  intros [A1 A2 A3 A4] [E1 E2 E3 E4 E5 E6] Hc [S1 S2 S3 S4 S5 S6 S7] Hdead. cbn in *.
  destruct (A2 Hc) as [Hu Ha].
  assert (cl.(cl_need_free) = 0) as Hf.
  { destruct (Z.eq_dec cl.(cl_need_free) 0) as [|Hne]; [done|]. by destruct (E4 Hne). }
  constructor; cbn; try done; try (by left); try (by right; left).
  - intros [] _. constructor; congruence.
  - intros [] _. constructor; congruence.
  - unfold gain. destruct dead; [|by right; left]. right; right. split; [done|]. tauto.
  - intros H. split; [done|]. destruct (A1 H). constructor; congruence.
  - destruct dead; [|done]. intros _. split; [done|]. specialize (Hdead eq_refl). constructor; congruence.
  - intros H. split; [done|]. destruct (A4 H). constructor; congruence.
Qed.

Lemma done_entry cl cl' :
  entry_ok cl -> cl.(cl_used) <> 0 -> sets_done cl cl' -> slots_ok cl' -> entry_ok cl'.
Proof.
  intros [E1 E2 E3 E4 E5 E6] Hu [S1 S2 S3 S4 S5 S6 S7] Hs. cbn in *.
  constructor; try done; try congruence; rw ?S2 ?S3 ?S4 ?S6 ?S7; try done.
  intros Hf. by destruct (E4 Hf).
Qed.

Lemma keeps_done {T} ci (f : client -> option (T * client)) (dead : T -> Z) o (Q : T -> own -> Prop) :
  o.(o_cmd) = Some ci ->
  (forall ls cl x cl', client_ok ls cl -> f cl = Some (x, cl') ->
     sets_done cl cl' /\ slots_ok cl' /\ Forall (in_spaces ls) (holding cl') /\
     dead x = cl.(cl_pid_dead) /\ Q x (after_cmd o ci (dead x))) ->
  keeps (on_client ci f) o Q.
Proof.
  intros Hc H. apply keeps_on_client. intros ls cl x cl' Hok E Ho.
  destruct (H _ _ _ _ Hok E) as (Hd & Hs & Hh & Hx & HQ). destruct (oa_cmd _ _ _ Ho Hc) as [Hu Ha].
  exists (after_cmd o ci (dead x)). rw Hx. split_and!.
  - split; [|done]. by eapply done_entry; [apply Hok|..].
  - intros H0. by destruct Hu.
  - apply (done_step _ _ _ _ (nz cl.(cl_pid_dead))); [done|apply Hok|done..|]. unfold nz. lia.
  - by rw -Hx.
Qed.

(** [_client_free] does nothing, marks the entry, or clears it. *)
Lemma client_free_cases ci cs :
  let cl := client_at ci cs in
  let cs' := snd (_client_free ci cs) in
  cs' = cs \/
  (cl.(cl_used) <> 0 /\ cl.(cl_pid) = -1 /\ cl.(cl_suspend) <> 0 /\
   cs' = set_client ci (cl <| cl_need_free := 1 |>) cs) \/
  (cl.(cl_used) <> 0 /\ cl.(cl_pid) = -1 /\ cl.(cl_suspend) = 0 /\
   exists f, cs' = set_pollfd ci f (set_client ci (client_zero <| cl_cmd_last := cl.(cl_cmd_last) |>) cs)).
Proof.
  cbn zeta. unfold _client_free. cbn zeta. unfold nz.
  destruct (Z.eqb_spec (client_at ci cs).(cl_used) 0); [by left|].
  destruct (Z.eqb_spec (client_at ci cs).(cl_pid) (-1)); [|by left]. cbn [negb].
  destruct (Z.eqb_spec (client_at ci cs).(cl_fd) (-1)); [by left|].
  destruct (Z.eqb_spec (client_at ci cs).(cl_suspend) 0); cbn [negb snd]; right; [right|left]; eauto.
Qed.

Lemma cleared_ok ls n : client_ok ls (client_zero <| cl_cmd_last := n |>).
Proof. split; [|constructor]. by constructor. Qed.

Definition drop_free (o : own) : own := o <| o_dead := None |> <| o_main := None |>.

(** A thread may free an entry that it has to clean up, or, as the main thread, one
    whose process did not die. *)
Definition may_free (o : own) (ci : nat) (cl : client) : Prop :=
  o.(o_dead) = Some ci \/ (cl.(cl_pid_dead) = 0 /\ o.(o_is_main) = true).

Lemma free_step o ci cl n :
  own_at o ci cl -> entry_ok cl -> may_free o ci cl ->
  cl.(cl_used) <> 0 -> cl.(cl_pid) = -1 -> cl.(cl_suspend) = 0 ->
  entry_step o (drop_free o) ci cl (client_zero <| cl_cmd_last := n |>).
Proof.
  intros [A1 A2 A3 A4] [E1 E2 E3 E4 E5 E6] Hm Hu Hp Hs.
  assert (cmd_ok cl -> o.(o_dead) <> Some ci -> False) as Hcmd.
  { intros [_ Ha] Hd. destruct Hm as [|[Hpd _]]; [done|]. by destruct (E5 Ha). }
  unfold drop_free. constructor; cbn; try done; try (by left); try (by right; left); try (by right).
  - by intros [].
  - intros H _ Hd. by destruct (Hcmd H Hd).
  - intros [_ Hdd _ _] _ Hd. by destruct Hm as [|[]].
  - intros [_ Hdd _ _] Him. destruct Hm as [Hd|[_ H]]; [|congruence]. by destruct (A3 Hd).
  - intros H. by destruct (A1 H).
  - intros H. destruct (A2 H) as [_ Ha]. destruct Hm as [Hd|[Hpd _]]; [by destruct (A3 Hd)|]. by destruct (E5 Ha).
Qed.

Lemma need_free_step o ci cl :
  own_at o ci cl -> entry_ok cl -> may_free o ci cl ->
  cl.(cl_used) <> 0 -> cl.(cl_pid) = -1 -> cl.(cl_suspend) <> 0 ->
  entry_step o (drop_free o) ci cl (cl <| cl_need_free := 1 |>).
Proof.
  intros [A1 A2 A3 A4] [E1 E2 E3 E4 E5 E6] Hm Hu Hp Hs.
  unfold drop_free. constructor; cbn; try done; try (by left); try (by right; left); try (by right).
  - intros [] _ _. by constructor.
  - intros [_ Hdd _ _] _ Hd. by destruct Hm as [|[]].
  - by intros [].
  - intros H. destruct (A2 H). by split.
Qed.

Lemma need_free_ok ls o ci cl :
  own_at o ci cl -> client_ok ls cl -> may_free o ci cl -> cl.(cl_pid) = -1 -> cl.(cl_used) <> 0 ->
  client_ok ls (cl <| cl_need_free := 1 |>).
Proof.
  intros Ho [[E1 E2 E3 E4 E5 E6] Hh] Hm Hp Hu. split; [|done]. constructor; cbn; try done.
  intros _. split; [done|]. destruct Hm as [Hd|[Hd _]]; [by destruct (oa_dead _ _ _ Ho Hd)|].
  destruct (Z.eq_dec cl.(cl_cmd_active) 0) as [|Ha]; [done|]. by destruct (E5 Ha).
Qed.

Lemma own_ok_less o o' d :
  own_ok o d -> o'.(o_is_main) = o.(o_is_main) -> o'.(o_space) = o.(o_space) -> o'.(o_susp) = o.(o_susp) ->
  o'.(o_cmd) = o.(o_cmd) -> o'.(o_dead) = None -> o'.(o_main) = None ->
  own_ok o' d /\ fair o o' d d.
Proof.
  intros [O1 O2 O3 O4 O5 O6] H1 H2 H3 H4 H5 H6. split.
  - constructor; rw ?H1 ?H2 ?H3 ?H4 ?H5 ?H6; done.
  - intros r [D1 D2 D3 D4 D5 D6 D7] Hr. split; [done|]. constructor; rw ?H1 ?H2 ?H3 ?H4 ?H5; done.
Qed.

Lemma client_free_section o ci d :
  inv d -> own_ok o d -> may_free o ci (client_at ci d.(d_clients)) ->
  let d' := d <| d_clients := snd (_client_free ci d.(d_clients)) |> in
  inv d' /\ own_ok (drop_free o) d' /\ fair o (drop_free o) d d'.
Proof.
  intros Hi Ho Hm. cbn zeta. pose proof (own_ok_at _ _ ci Ho) as Ha.
  pose proof (client_at_ok _ _ ci (inv_clients _ Hi)) as Hcl.
  destruct (client_free_cases ci d.(d_clients)) as [->|[(Hu & Hp & Hs & ->)|(Hu & Hp & Hs & f & ->)]].
  - split; [by destruct Hi|]. replace (d <| d_clients := d.(d_clients) |>) with d by by destruct d.
    by apply own_ok_less.
  - apply (entry_section _ _ ci ((client_at ci d.(d_clients)) <| cl_need_free := 1 |>)); try done.
    + by apply need_free_step; [|apply Hcl|..].
    + apply clients_ok_set; [apply Hi|by eapply need_free_ok|done].
  - apply (entry_section _ _ ci (client_zero <| cl_cmd_last := (client_at ci d.(d_clients)).(cl_cmd_last) |>)); try done.
    + by apply free_step; [|apply Hcl|..].
    + apply clients_ok_pollfd, clients_ok_set; [apply Hi|apply cleared_ok|done].
Qed.

Lemma keeps_on_clients {T} (f : clients -> option (T * clients)) o (Q : T -> own -> Prop) :
  (forall d x cs', inv d -> own_ok o d -> f d.(d_clients) = Some (x, cs') ->
     exists o', inv (d <| d_clients := cs' |>) /\ own_ok o' (d <| d_clients := cs' |>) /\
       fair o o' d (d <| d_clients := cs' |>) /\ Q x o') ->
  keeps (on_clients f) o Q.
Proof.
  intros H d x d' Hi Ho E. destruct (f d.(d_clients)) as [[y cs']|] eqn:Ef; [|done]. cbn in E.
  injection E as <- <-. by apply H.
Qed.

Lemma keeps_free ci o (Q : unit -> own -> Prop) :
  (forall d, inv d -> own_ok o d -> may_free o ci (client_at ci d.(d_clients))) ->
  Q tt (drop_free o) -> keeps (free_client ci) o Q.
Proof.
  intros Hm HQ. apply keeps_on_clients. intros d x cs' Hi Ho [= <- <-]. exists (drop_free o).
  destruct (client_free_section o ci d Hi Ho (Hm _ Hi Ho)) as (? & ? & ?). done.
Qed.

(** ** Suspending and resuming *)

Lemma same_state d : d <| d_clients := d.(d_clients) |> = d.
Proof. by destruct d. Qed.

Lemma resume_free_step o ci cl n :
  own_at o ci cl -> entry_ok cl -> o.(o_susp) = Some ci -> o.(o_cmd) <> Some ci -> o.(o_dead) <> Some ci ->
  cl.(cl_need_free) <> 0 ->
  entry_step o (o <| o_susp := None |>) ci cl (client_zero <| cl_cmd_last := n |>).
Proof.
  intros [A1 A2 A3 A4] [E1 E2 E3 E4 E5 E6] Hs Hc Hd Hf. destruct (A1 Hs) as [Hu Hsu].
  destruct (E4 Hf) as [Hp Ha].
  constructor; cbn; try done; try (by left); try (by right; left).
  - by intros [].
  - by intros [].
  - by intros [].
  - intros H. by destruct (A4 H).
Qed.

Lemma resume_step o ci cl :
  own_at o ci cl -> o.(o_susp) = Some ci ->
  entry_step o (o <| o_susp := None |>) ci cl (cl <| cl_suspend := 0 |>).
Proof.
  intros [A1 A2 A3 A4] Hs. destruct (A1 Hs) as [Hu Hsu].
  constructor; cbn; try done; try (by left); try (by right; left).
  - intros [] _ _. by constructor.
  - intros [] _ _. by constructor.
  - intros [] _. by constructor.
  - intros H. destruct (A2 H). by split.
  - intros H. destruct (A3 H). by split.
  - intros H. destruct (A4 H). by split.
Qed.

Lemma client_at_set_used ci cl cs : (client_at ci cs).(cl_used) <> 0 -> client_at ci (set_client ci cl cs) = cl.
Proof. intros H. destruct (client_at_set ci cl cs) as [|[_ E]]; [done|]. by rw E in H. Qed.

Lemma set_client_twice ci cl cl' cs i :
  client_at i (set_client ci cl' (set_client ci cl cs)) = client_at i (set_client ci cl' cs).
Proof. unfold client_at, set_client. cbn. by rw list_insert_insert_eq. Qed.

Lemma client_resumed_ok ls cl : client_ok ls cl -> client_ok ls (cl <| cl_suspend := 0 |>).
Proof.
  intros [[E1 E2 E3 E4 E5 E6] Hh]. split; [|done]. constructor; try done.
  cbn. intros Hu. destruct (E2 Hu). by constructor.
Qed.

Lemma client_resume_cases ci cs :
  let cl := client_at ci cs in
  let cs' := snd (client_resume ci cs) in
  cl.(cl_used) <> 0 -> entry_ok cl ->
  cs' = cs \/
  (cl.(cl_need_free) <> 0 /\ (forall i, client_at i cs' =
     client_at i (set_client ci (client_zero <| cl_cmd_last := cl.(cl_cmd_last) |>) cs)) /\
   exists f, cs' = set_pollfd ci f (set_client ci (client_zero <| cl_cmd_last := cl.(cl_cmd_last) |>)
                                      (set_client ci (cl <| cl_suspend := 0 |>) cs))) \/
  exists f, cs' = set_pollfd ci f (set_client ci (cl <| cl_suspend := 0 |>) cs).
Proof.
  cbn zeta. intros Hu He. unfold client_resume. cbn zeta.
  destruct (Z.eqb_spec (client_at ci cs).(cl_used) 0); [done|].
  destruct (Z.eqb_spec (client_at ci cs).(cl_fd) (-1)); [by left|].
  destruct (Z.eqb_spec (client_at ci cs).(cl_suspend) 0); [by left|]. right.
  set (cl1 := (client_at ci cs) <| cl_suspend := 0 |>).
  unfold nz. destruct (Z.eqb_spec cl1.(cl_need_free) 0) as [|Hf]; cbn [negb snd]; [right; eauto|left].
  destruct (eo_free _ He Hf) as [Hp _].
  unfold _client_free. cbn zeta. rw !client_at_set_used; [done|].
  rw (proj2 (Z.eqb_neq cl1.(cl_used) 0) Hu). rw (proj2 (Z.eqb_eq cl1.(cl_pid) (-1)) Hp). cbn [negb].
  rw (proj2 (Z.eqb_neq cl1.(cl_fd) (-1)) n0). cbn [nz cl1 cl_suspend set_field snd]. split_and!; [done| |eauto].
  intros i. apply set_client_twice.
Qed.

Lemma keeps_resume ci o (Q : unit -> own -> Prop) :
  o.(o_susp) = Some ci -> o.(o_cmd) <> Some ci -> o.(o_dead) <> Some ci ->
  Q tt (o <| o_susp := None |>) -> keeps (resume ci) o Q.
Proof.
  intros Hs Hc Hd HQ. apply keeps_on_clients. intros d x cs' Hi Ho [= <- <-].
  exists (o <| o_susp := None |>). pose proof (own_ok_at _ _ ci Ho) as Ha.
  pose proof (client_at_ok _ _ ci (inv_clients _ Hi)) as Hcl.
  destruct (oa_susp _ _ _ Ha Hs) as [Hu Hsu]. pose proof (inv_clients _ Hi) as Hcs.
  destruct (client_resume_cases ci d.(d_clients) Hu (proj1 Hcl)) as [->|[(Hf & E & f & E')|(f & ->)]].
  - rw same_state. split_and!; [done|..|done].
    + destruct Ho. by constructor.
    + intros r [] Hr. split; [done|]. by constructor.
  - destruct (entry_section o (o <| o_susp := None |>) ci
      (client_zero <| cl_cmd_last := (client_at ci d.(d_clients)).(cl_cmd_last) |>)
      (snd (client_resume ci d.(d_clients))) d Hi Ho) as (? & ? & ?);
      [by apply resume_free_step; [|apply Hcl|..]| |exact E|done].
    rw E'. apply clients_ok_pollfd, clients_ok_set; [|apply cleared_ok|done].
    by apply clients_ok_set; [|apply client_resumed_ok|].
  - destruct (entry_section o (o <| o_susp := None |>) ci ((client_at ci d.(d_clients)) <| cl_suspend := 0 |>)
      (set_pollfd ci f (set_client ci ((client_at ci d.(d_clients)) <| cl_suspend := 0 |>) d.(d_clients))) d Hi Ho)
      as (? & ? & ?); [by apply resume_step| |done..].
    by apply clients_ok_pollfd, clients_ok_set; [|apply client_resumed_ok|].
Qed.

(** [client_suspend] fails, or the thread has the connection suspended. *)
Lemma suspend_step o ci cl :
  own_at o ci cl -> o.(o_is_main) = true -> cl.(cl_used) <> 0 -> cl.(cl_suspend) = 0 ->
  entry_step o (o <| o_susp := Some ci |> <| o_main := None |>) ci cl (cl <| cl_suspend := 1 |>).
Proof.
  intros [A1 A2 A3 A4] Hm Hu Hs.
  constructor; cbn; try done; try (by left); try (by right).
  - intros [] _ _. by constructor.
  - intros [] _ _. by constructor.
  - by intros _ ?; congruence.
  - right; right. split; [done|]. by intros [].
  - intros H. destruct (A2 H). by split.
  - intros H. destruct (A3 H). by split.
Qed.

Lemma suspend_ok ls cl : client_ok ls cl -> cl.(cl_used) <> 0 -> client_ok ls (cl <| cl_suspend := 1 |>).
Proof. intros [[E1 E2 E3 E4 E5 E6] Hh] Hu. split; [|done]. by constructor. Qed.

Lemma keeps_suspend ci o (Q : Z -> own -> Prop) :
  o.(o_is_main) = true ->
  Q (-1) o -> Q 0 (o <| o_susp := Some ci |> <| o_main := None |>) ->
  keeps (on_clients (fun cs => Some (client_suspend ci cs))) o Q.
Proof.
  intros Hm H1 H0. apply keeps_on_clients. intros d x cs' Hi Ho Hf. unfold client_suspend in Hf.
  assert (inv (d <| d_clients := d.(d_clients) |>) /\ own_ok o (d <| d_clients := d.(d_clients) |>) /\
          fair o o d (d <| d_clients := d.(d_clients) |>)) as Hsame by (rw same_state; done).
  destruct (Z.eqb_spec (client_at ci d.(d_clients)).(cl_used) 0); [injection Hf as <- <-; exists o; tauto|].
  destruct (Z.eqb_spec (client_at ci d.(d_clients)).(cl_fd) (-1)); [injection Hf as <- <-; exists o; tauto|].
  unfold nz in Hf. destruct (Z.eqb_spec (client_at ci d.(d_clients)).(cl_suspend) 0); cbn [negb] in Hf;
    [|injection Hf as <- <-; exists o; tauto].
  injection Hf as <- <-. eexists.
  pose proof (own_ok_at _ _ ci Ho) as Ha. pose proof (client_at_ok _ _ ci (inv_clients _ Hi)) as Hcl.
  destruct (entry_section o (o <| o_susp := Some ci |> <| o_main := None |>) ci
    ((client_at ci d.(d_clients)) <| cl_suspend := 1 |>)
    (set_pollfd ci poll_ignore (set_client ci ((client_at ci d.(d_clients)) <| cl_suspend := 1 |>) d.(d_clients)))
    d Hi Ho) as (? & ? & ?); [by apply suspend_step| |done..].
  apply clients_ok_pollfd, clients_ok_set; [apply Hi|by apply suspend_ok|done].
Qed.

(** ** The main thread *)

(** A target that passes the checks has no command and no dead process. *)
Lemma target_step o ci cl cmd :
  own_at o ci cl -> cl.(cl_used) <> 0 -> cl.(cl_pid_dead) = 0 -> cl.(cl_cmd_active) = 0 -> cmd <> 0 ->
  o.(o_cmd) = None ->
  entry_step o (o <| o_cmd := Some ci |>) ci cl (cl <| cl_cmd_active := cmd |>).
Proof.
  intros [A1 A2 A3 A4] Hu Hd Ha Hn Hc.
  constructor; cbn; try done; try (by left).
  - by intros [] _.
  - by intros [] _ _.
  - by intros [] _.
  - right; right. split; [done|]. by intros [[]|[]].
  - intros H. destruct (A1 H). by split.
  - intros H. by destruct (A3 H).
  - intros H. destruct (A4 H). by split.
Qed.

Lemma register_cmd_ok ls cmd cl result cl' :
  client_ok ls cl -> register_cmd cmd cl = (result, cl') ->
  (result = - EBUSY /\ cl' = cl) \/
  (result = 0 /\ cl' = cl <| cl_cmd_active := cmd |> /\ client_ok ls cl' /\
   cl.(cl_used) <> 0 /\ cl.(cl_pid_dead) = 0 /\ cl.(cl_cmd_active) = 0).
Proof.
  intros [[E1 E2 E3 E4 E5 E6] Hh] E. unfold register_cmd in E.
  destruct (_ || _) eqn:Eb; injection E as <- <-; [by left|right].
  unfold nz in Eb. zbool. split_and!; try done. split; [|done].
  constructor; try done; cbn.
  intros _. left. lia.
Qed.

(** The result of looking for the target: a failure, or the claim on it. *)
Lemma keeps_target ci_in h o (Q : Z * (nat * Z * Z) -> own -> Prop) :
  o.(o_cmd) = None -> h.(h_cmd) <> 0 ->
  (forall r t, r < 0 -> Q (r, t) o) ->
  (forall ci pid fd, Q (0, (ci, pid, fd)) (o <| o_cmd := Some ci |>)) ->
  keeps (on_clients (fun cs => Some (register_target ci_in h cs))) o Q.
Proof.
  intros Hc Hn Hf Hs. apply keeps_on_clients. intros d x cs' Hi Ho E. injection E as E.
  unfold register_target in E.
  destruct (if _ =? _ then _ else _) as [ci|].
  2:{ injection E as <- <-. exists o. rw same_state. split_and!; try done. by apply Hf. }
  pose proof (own_ok_at _ _ ci Ho) as Ha. pose proof (client_at_ok _ _ ci (inv_clients _ Hi)) as Hcl.
  destruct (register_cmd _ _) as [result cl'] eqn:Er. injection E as <- <-.
  destruct (register_cmd_ok _ _ _ _ _ Hcl Er) as [(-> & ->)|(-> & -> & Hok & Hu & Hd & Hca)].
  - exists o. destruct (entry_section o o ci (client_at ci d.(d_clients))
      (set_client ci (client_at ci d.(d_clients)) d.(d_clients)) d Hi Ho) as (? & ? & ?); try done.
    + by apply control_step.
    + by apply clients_ok_set; [apply Hi|..].
    + split_and!; try done. by apply Hf.
  - exists (o <| o_cmd := Some ci |>). destruct (entry_section o (o <| o_cmd := Some ci |>) ci _
      (set_client ci ((client_at ci d.(d_clients)) <| cl_cmd_active := h.(h_cmd) |>) d.(d_clients)) d Hi Ho
      (target_step o ci _ h.(h_cmd) Ha Hu Hd Hca Hn Hc)) as (? & ? & ?); try done.
    by apply clients_ok_set; [apply Hi|..].
Qed.

(** Registering gives the client an empty array. *)
Lemma register_holding pid ok cl : holding (snd (cmd_register pid ok cl)) = [].
Proof. unfold cmd_register. cases; unfold holding, held_keys; cbn; cases; done. Qed.

Lemma keeps_register ci pid o (Q : bool -> own -> Prop) :
  0 <= pid -> o.(o_main) = Some ci -> Q true o ->
  keeps (on_client ci (fun cl => Some (cmd_register pid true cl))) o Q.
Proof.
  intros Hp Hm HQ. apply keeps_on_client. intros ls cl x cl' Hok [= <- <-] Ha. exists o.
  destruct Ha as [A1 A2 A3 A4]. destruct (A4 Hm) as [Hu Hd Hs Hf].
  destruct Hok as [[E1 E2 E3 E4 E5 E6] Hh]. split_and!; try done.
  - split; [constructor; try done; cbn|]; try done.
    + intros _. left. lia.
    + by change (Forall (in_spaces ls) (holding (snd (cmd_register pid true cl)))); rw register_holding.
  - constructor; cbn; try done; try (by left); try (by intros []).
    + intros H. by destruct (A1 H).
    + intros H. destruct (A2 H). by split.
    + intros H. by destruct (A3 H).
Qed.

Lemma holding_dead cl : cl.(cl_pid) <= 0 -> holding cl = [].
Proof. intros H. unfold holding, alive. by rw (proj2 (Z.ltb_ge 0 _) H) andb_false_r. Qed.

(** The main thread notices that a process is gone: it cleans up itself when no
    command is active. *)
Lemma mark_step o ci cl :
  own_at o ci cl -> entry_ok cl -> o.(o_is_main) = true -> o.(o_main) = None -> o.(o_dead) = None ->
  cl.(cl_used) <> 0 -> cl.(cl_pid) <> -1 ->
  entry_step o (o <| o_dead := if cl.(cl_cmd_active) =? 0 then Some ci else None |>) ci cl
    (cl <| cl_pid := -1 |> <| cl_pid_dead := 1 |>).
Proof.
  intros [A1 A2 A3 A4] [E1 E2 E3 E4 E5 E6] Him Hm Hd Hu Hp.
  assert (cl.(cl_need_free) = 0) as Hf.
  { destruct (Z.eq_dec cl.(cl_need_free) 0) as [|H]; [done|]. by destruct (E4 H). }
  assert (~ dead_ok cl) as Hnd by (intros []; auto).
  constructor; cbn; try done; try (by left).
  - intros [] _. by constructor.
  - intros [] _ _. by constructor.
  - by intros _; congruence.
  - unfold gain. destruct (Z.eqb_spec cl.(cl_cmd_active) 0); [|by right; left]. right; right. split; [done|].
    by intros [[[]|] _].
  - intros H. destruct (A1 H). by split.
  - intros H. destruct (A2 H). by split.
  - destruct (Z.eqb_spec cl.(cl_cmd_active) 0); [|done]. intros _. split; [done|]. by constructor.
  - by rw Hm.
Qed.

Lemma keeps_mark ci o (Q : option Z -> own -> Prop) :
  o.(o_is_main) = true -> o.(o_main) = None -> o.(o_dead) = None ->
  Q None o -> Q (Some 0) (o <| o_dead := Some ci |>) -> (forall n, n <> 0 -> Q (Some n) (o <| o_dead := None |>)) ->
  keeps (on_clients (fun cs => Some (pid_dead_mark ci cs))) o Q.
Proof.
  intros Him Hm Hd Hn H0 H1. apply keeps_on_clients. intros d x cs' Hi Ho E. injection E as E.
  unfold pid_dead_mark in E. destruct (_ || _) eqn:Eb.
  { injection E as <- <-. exists o. by rw same_state. }
  zbool. injection E as <- <-. set (cl := client_at ci d.(d_clients)) in *.
  pose proof (own_ok_at _ _ ci Ho) as Ha. pose proof (client_at_ok _ _ ci (inv_clients _ Hi)) as Hcl.
  fold cl in Ha, Hcl. eexists.
  destruct (entry_section o _ ci _
    (set_pollfd ci poll_ignore (set_client ci (cl <| cl_pid := -1 |> <| cl_pid_dead := 1 |>) d.(d_clients))) d Hi Ho
    (mark_step o ci cl Ha (proj1 Hcl) Him Hm Hd ltac:(done) ltac:(done))) as (? & ? & ?); try done.
  - apply clients_ok_pollfd, clients_ok_set; [apply Hi| |done].
    destruct Hcl as [[E1 E2 E3 E4 E5 E6] Hh]. split; [constructor; try done; cbn|by rw holding_dead].
    + intros Hx. by destruct (E4 Hx).
    + by intros; right.
    + intros Hx. by destruct (E6 Hx).
  - split_and!; try done. destruct (Z.eqb_spec cl.(cl_cmd_active) 0) as [->|]; auto.
Qed.

Lemma keeps_dead_free ci o (Q : list rtoken -> own -> Prop) :
  o.(o_dead) = Some ci -> (forall l, Q l (drop_free o)) -> keeps (on_clients (pid_dead_free ci)) o Q.
Proof.
  intros Hd HQ. apply keeps_on_clients. intros d x cs' Hi Ho E. unfold pid_dead_free in E.
  destruct (token_slots _); [|done]. injection E as <- <-. exists (drop_free o).
  destruct (client_free_section o ci d Hi Ho (or_introl Hd)) as (? & ? & ?). done.
Qed.

(** ** New connections and the helper *)

Lemma free_entry_spec l i j : free_entry l i = Some j -> exists k cl, j = (i + k)%nat /\ l !! k = Some cl /\ cl.(cl_used) = 0.
Proof.
  revert i. induction l as [|cl l IH]; intros i; cbn; [done|].
  destruct (Z.eqb_spec cl.(cl_used) 0).
  - intros [= <-]. exists 0%nat, cl. split_and!; [lia|done..].
  - intros (k & cl' & -> & Hk & Hu)%IH. exists (S k), cl'. split_and!; [lia|done..].
Qed.

(** An entry that nobody uses. *)
Lemma add_step o ci cl cl' :
  own_at o ci cl -> cl.(cl_used) = 0 -> entry_step o o ci cl cl'.
Proof.
  intros [A1 A2 A3 A4] Hu.
  constructor; try done; try (by left); try (by intros []).
  - intros H. by destruct (A1 H).
  - intros H. by destruct (A2 H).
  - intros H. by destruct (A3 H).
  - intros H. by destruct (A4 H).
Qed.

Lemma new_client_ok ls cl fd work dead :
  client_ok ls cl -> cl.(cl_used) = 0 ->
  client_ok ls (cl <| cl_used := 1 |> <| cl_fd := fd |> <| cl_workfn := Some work |>
                   <| cl_deadfn := Some dead |>).
Proof.
  intros [[E1 E2 E3 E4 E5 E6] Hh] Hu. destruct (E2 Hu) as [Ht Hp Hd Hs Hc Hf Hn]. split.
  - by constructor.
  - unfold holding, held_keys. cbn. rw Ht. by cases.
Qed.

Lemma clients_ok_add ls cs i cl :
  clients_ok ls cs -> client_ok ls cl -> (i < length cs.(cs_client))%nat ->
  clients_ok ls ((set_client i cl cs) <| client_maxi := Z.max cs.(client_maxi) (Z.of_nat i) |>).
Proof.
  intros [H1 H2 H3 H4 H5 H6] Hcl Hi. constructor; cbn; try done.
  - by apply Forall_insert.
  - by rw length_insert.
  - lia.
  - intros j cl' Hj Hm. rw list_lookup_insert_ne in Hj; [lia|]. apply (H5 j); [done|lia].
Qed.

Lemma client_add_ok ls cs fd work dead : clients_ok ls cs -> clients_ok ls (snd (client_add fd work dead cs)).
Proof.
  intros Hok. unfold client_add. destruct (free_entry _ 0) as [i|] eqn:Ef; [|done]. cbn [snd].
  apply free_entry_spec in Ef as (k & cl & -> & Hk & Hu). cbn [Nat.add].
  rw (client_at_lookup _ _ _ Hk).
  set (cl' := cl <| cl_used := 1 |> <| cl_fd := fd |> <| cl_workfn := Some work |> <| cl_deadfn := _ |>).
  change (clients_ok ls (set_pollfd k (poll_watch fd)
    ((set_client k cl' cs) <| client_maxi := Z.max cs.(client_maxi) (Z.of_nat k) |>))).
  apply clients_ok_pollfd, clients_ok_add; [done| |by eapply lookup_lt_Some].
  apply new_client_ok; [|done]. rw -(client_at_lookup _ _ _ Hk). by apply client_at_ok.
Qed.

Lemma keeps_add fd work o (Q : Z -> own -> Prop) :
  (forall x, Q x o) -> keeps (on_clients (fun cs => Some (client_add fd work None cs))) o Q.
Proof.
  intros HQ. apply keeps_on_clients. intros d x cs' Hi Ho E. injection E as E. unfold client_add in E.
  exists o. destruct (free_entry _ 0) as [i|] eqn:Ef.
  2:{ injection E as <- <-. by rw same_state. }
  injection E as <- <-. apply free_entry_spec in Ef as (k & cl & -> & Hk & Hu). cbn [Nat.add] in *.
  pose proof (client_at_lookup _ _ _ Hk) as Eat. rw Eat.
  pose proof (own_ok_at _ _ k Ho) as Ha. pose proof (client_at_ok _ _ k (inv_clients _ Hi)) as Hcl.
  rw Eat in Ha Hcl. pose proof (new_client_ok _ _ fd work ClientFree Hcl Hu) as Hnew.
  destruct (entry_section o o k (cl <| cl_used := 1 |> <| cl_fd := fd |> <| cl_workfn := Some work |>
                   <| cl_deadfn := Some ClientFree |>)
    (set_pollfd k (poll_watch fd) ((set_client k (cl <| cl_used := 1 |> <| cl_fd := fd |>
       <| cl_workfn := Some work |> <| cl_deadfn := Some ClientFree |>) d.(d_clients))
       <| client_maxi := Z.max d.(d_clients).(client_maxi) (Z.of_nat k) |>)) d Hi Ho) as (? & ? & ?).
  - rw Eat. by apply add_step.
  - apply clients_ok_pollfd, clients_ok_add; [apply Hi|done|by eapply lookup_lt_Some].
  - done.
  - split_and!; done.
Qed.

Lemma close_helper_at cs cs' i : close_helper cs = Some cs' -> client_at i cs' = client_at i cs.
Proof. unfold close_helper. case_match; [|done]. by intros [= <-]. Qed.

Lemma close_helper_ok ls cs cs' : clients_ok ls cs -> close_helper cs = Some cs' -> clients_ok ls cs'.
Proof.
  intros [] E. unfold close_helper in E. case_match; [|done]. injection E as <-.
  apply clients_ok_pollfd. by constructor.
Qed.

Lemma same_clients_section o d cs' :
  inv d -> own_ok o d -> clients_ok d.(d_spaces) cs' -> (forall i, client_at i cs' = client_at i d.(d_clients)) ->
  inv (d <| d_clients := cs' |>) /\ own_ok o (d <| d_clients := cs' |>) /\ fair o o d (d <| d_clients := cs' |>).
Proof.
  intros [Hl Hc] Ho Hc' E.
  assert (forall r, own_ok r d -> own_ok r (d <| d_clients := cs' |>)) as Hr.
  { intros r Hr. apply (own_ok_clients r d d.(d_clients)); [done|]. by rw same_state. }
  split_and!; [done|auto|]. intros r Hd Hok. auto.
Qed.

Lemma keeps_drop_helper o (Q : unit -> own -> Prop) : Q tt o -> keeps drop_helper o Q.
Proof.
  intros HQ. apply keeps_on_clients. intros d x cs' Hi Ho E. exists o.
  destruct (close_helper d.(d_clients)) as [cs|] eqn:Ec; [|done]. injection E as <- <-.
  destruct (same_clients_section o d cs Hi Ho) as (? & ? & ?); [|by intros; eapply close_helper_at|done].
  by eapply close_helper_ok; [apply Hi|].
Qed.
