(* ===== verification/Recovery.v ===== *)
(** * The threads of the daemon keep the invariant

    By the rules of [Claims.v], every section of the commands that worker threads
    run and of the handlers that the main thread runs for a connection keeps the
    invariant of clients and lockspaces, and leaves the claims of the other
    threads good: a new token is put in a client only while its lockspace is on
    [spaces], and a lockspace is added and removed without losing one. *)

From S2P Require Import Prelude OnDisk SizeFlags Timeouts Io DeltaLease PaxosBlocks Lockspace HostStatus.
From S2P Require Import LockspaceLists Clients Commands Claims.

(** ** Sections on lockspaces *)

Lemma keeps_on_spaces {T} (f : lockspaces -> option (T * lockspaces)) o (Q : T -> own -> Prop) :
  (forall d x ls', inv d -> own_ok o d -> f d.(d_spaces) = Some (x, ls') ->
     exists o', lists_ok ls' /\ frame (fun p => (snd <$> o.(o_space)) = Some p) d.(d_spaces) ls' /\
       claims o'.(o_space) (space_claim ls') /\
       o' = o <| o_space := o'.(o_space) |> /\
       (forall p, (snd <$> o'.(o_space)) = Some p -> (snd <$> o.(o_space)) = Some p \/ p ∉ sp_list <$> all_spaces d.(d_spaces)) /\
       Q x o') ->
  keeps (on_spaces f) o Q.
Proof.
  intros H d x d' Hi Ho E. destruct (f d.(d_spaces)) as [[y ls']|] eqn:Ef; [|done]. cbn in E.
  injection E as <- <-. destruct (H d y ls' Hi Ho Ef) as (o' & Hl & [F1 F2 F3] & Hc & Eo & Hn & HQ).
  exists o'. split_and!; [|..|done].
  - constructor; [done|]. cbn. eapply clients_ok_spaces; [exact F3|apply Hi].
  - destruct Ho. rw Eo. by constructor.
  - intros r [D1 D2 D3 D4 D5 D6 D7] [R1 R2 R3 R4 R5 R6]. split.
    + constructor; cbn; try done. destruct (o_space r) as [[b p]|]; [|done]. cbn in *.
      assert (~ (snd <$> o.(o_space)) = Some p) as Hp.
      { intros Ep. unfold distinct in D1. rw Ep in D1. by apply D1. }
      unfold space_claim in *. cbn in *. destruct b; auto.
    + rw Eo. constructor; cbn; try done. unfold distinct.
      destruct (o_space o') as [[b p]|] eqn:Ep; [|done]. cbn. intros Er.
      destruct (Hn p) as [Hold|Hfresh]; [done| |].
      * unfold distinct in D1. rw Hold in D1. by apply D1.
      * apply Hfresh. destruct (o_space r) as [[b' p']|]; [|done]. injection Er as ->. cbn in R1.
        assert (on_add p d.(d_spaces)) as Hon by (destruct b'; [by apply adding_on_add|done]).
        unfold all_spaces. rw !fmap_app !elem_of_app. by right; left.
Qed.

(** A section that changes spaces in place. *)
Lemma keeps_same_lists {T} (f : lockspaces -> option (T * lockspaces)) o (Q : T -> own -> Prop) :
  (forall ls x ls', f ls = Some (x, ls') -> same_lists ls ls' /\ Q x o) -> keeps (on_spaces f) o Q.
Proof.
  intros H. apply keeps_on_spaces. intros d x ls' Hi Ho E. destruct (H _ _ _ E) as [Hs HQ]. exists o.
  pose proof (same_lists_frame (fun _ => False) _ _ Hs) as [F1 F2 F3]. split_and!.
  - by eapply lists_ok_same; [|apply Hi].
  - by apply same_lists_frame.
  - eapply claims_impl; [|apply (ow_space _ _ Ho)]. intros [b p]. unfold space_claim. cbn. destruct b; auto.
  - by destruct o.
  - auto.
  - done.
Qed.

(** ** Common parts of commands *)

Lemma keeps_read {T} (g : clients -> T) o (Q : T -> own -> Prop) :
  (forall x, Q x o) -> keeps (on_clients (fun cs => Some (g cs, cs))) o Q.
Proof.
  intros HQ. apply keeps_on_clients. intros d x cs' Hi Ho [= <- <-]. exists o. rw same_state.
  split_and!; [done..|apply HQ].
Qed.

Lemma keeps_look {T} (g : daemon -> T) o (Q : T -> own -> Prop) :
  (forall x, Q x o) -> keeps (atomic (fun d => Some (g d, d))) o Q.
Proof. intros HQ d x d' Hi Ho [= <- <-]. exists o. split_and!; [done..|apply HQ]. Qed.

Lemma keeps_counter n o (Q : Z -> own -> Prop) :
  (forall x, Q x o) -> keeps (atomic (fun d => Some (d.(token_id_counter), d <| token_id_counter := n d |>))) o Q.
Proof.
  intros HQ d x d' Hi Ho [= <- <-]. exists o. destruct Hi, Ho.
  split_and!; [done..| |apply HQ]. intros r Hd [R1 R2 R3 R4 R5 R6]. by split.
Qed.

Lemma keeps_release l o (Q : unit -> own -> Prop) : Q tt o -> keeps (release_tokens l) o Q.
Proof. intros HQ. induction l; cbn; auto. Qed.

Lemma keeps_release_cl ci o (Q : unit -> own -> Prop) : Q tt o -> keeps (release_cl_tokens ci) o Q.
Proof.
  intros HQ. apply keeps_bind, keeps_quiet. intros cl x cl' E.
  destruct (token_slots cl); [|done]. injection E as <- <-. split; [done|]. by apply keeps_release.
Qed.

(** The end of a command: the connection is resumed. *)
Lemma keeps_reply ca fd result o (Q : unit -> own -> Prop) :
  o.(o_susp) = Some ca.(ca_ci_in) -> o.(o_cmd) = None -> o.(o_dead) = None ->
  Q tt (o <| o_susp := None |>) -> keeps (reply ca fd result) o Q.
Proof. intros Hs Hc Hd HQ [] _. apply keeps_resume; [done|congruence..|done]. Qed.

(** Cleaning up after a client that died. *)
Lemma keeps_clean ci o (Q : unit -> own -> Prop) :
  o.(o_dead) = Some ci -> Q tt (drop_free o) -> keeps (release_cl_tokens ci;; free_client ci) o Q.
Proof.
  intros Hd HQ. apply keeps_bind, keeps_release_cl, keeps_free; [|done]. intros. by left.
Qed.

(** The claims of a worker, before and after its command is done. *)
Definition worker (ci_in : nat) (cmd dead : option nat) : own := Own false None (Some ci_in) cmd dead None.

Lemma keeps_clean_dead ci ci_in pid_dead (Q : unit -> own -> Prop) :
  Q tt (worker ci_in None None) ->
  keeps (clean_dead ci pid_dead) (after_cmd (worker ci_in (Some ci) None) ci pid_dead) Q.
Proof.
  intros HQ. unfold clean_dead, after_cmd. destruct (nz pid_dead); cbn.
  - by apply keeps_clean.
  - done.
Qed.

(** The section at the end of a command that looks at the lockspaces too. *)
Lemma keeps_done_spaces {T} ci (f : lockspaces -> client -> option (T * client)) (dead : T -> Z) o (Q : T -> own -> Prop) :
  o.(o_cmd) = Some ci ->
  (forall ls cl x cl', client_ok ls cl -> f ls cl = Some (x, cl') ->
     sets_done cl cl' /\ slots_ok cl' /\ Forall (in_spaces ls) (holding cl') /\
     dead x = cl.(cl_pid_dead) /\ Q x (after_cmd o ci (dead x))) ->
  keeps (atomic (fun d => r ← f d.(d_spaces) (client_at ci d.(d_clients));
                          let '(x, cl) := r in Some (x, d <| d_clients := set_client ci cl d.(d_clients) |>))) o Q.
Proof.
  intros Hc H d x d' Hi Ho Ef. pose proof (client_at_ok _ _ ci (inv_clients _ Hi)) as Hok.
  destruct (f _ _) as [[y cl']|] eqn:E; [|done]. cbn in Ef. injection Ef as <- <-.
  destruct (H _ _ _ _ Hok E) as (Hd & Hs & Hh & Hx & HQ).
  pose proof (own_ok_at _ _ ci Ho) as Ha. destruct (oa_cmd _ _ _ Ha Hc) as [Hu _].
  exists (after_cmd o ci (dead y)).
  destruct (entry_section o (after_cmd o ci (dead y)) ci cl' (set_client ci cl' d.(d_clients)) d Hi Ho) as (? & ? & ?);
    try done.
  - rw Hx. apply (done_step _ _ _ _ (nz _)); [done|apply Hok|done..|]. unfold nz. lia.
  - apply clients_ok_set; [apply Hi| |done]. split; [|done]. by eapply done_entry; [apply Hok|..].
Qed.

(** ** Token arrays *)

Lemma token_slots_ok cl : slots_ok cl -> token_slots cl = Some (default [] cl.(cl_tokens)).
Proof.
  unfold slots_ok, token_slots. destruct (cl_tokens cl) as [l|]; intros E; rw E; cbn; [|done].
  destruct (Z.leb_spec (Z.of_nat (length l)) 0).
  - by destruct l; [|cbn in *; lia].
  - rw Z.ltb_irrefl Nat2Z.id firstn_all. done.
Qed.

Lemma token_keys_app l l' : token_keys (l ++ l') = token_keys l ++ token_keys l'.
Proof. unfold token_keys, held_tokens. by rw bind_app fmap_app. Qed.

Lemma token_keys_none n : token_keys (replicate n None) = [].
Proof. by induction n. Qed.

Lemma held_default cl : held_keys cl = token_keys (default [] cl.(cl_tokens)).
Proof. unfold held_keys. by destruct (cl_tokens cl). Qed.

(** What a client holds with other tokens. *)
Lemma holding_sub (P : list Z -> Prop) cl cl' :
  cl'.(cl_used) = cl.(cl_used) -> cl'.(cl_pid) = cl.(cl_pid) ->
  (Forall P (held_keys cl) -> Forall P (held_keys cl')) -> Forall P (holding cl) -> Forall P (holding cl').
Proof. unfold holding, alive. intros -> -> H. destruct (_ && _); auto. Qed.

Lemma acquire_slots_spec ls n ok cl x cl' :
  client_ok ls cl -> acquire_slots n ok cl = Some (x, cl') ->
  same_control cl cl' /\ slots_ok cl' /\ Forall (in_spaces ls) (holding cl').
Proof.
  intros [He Hh] E. pose proof (eo_slots _ He) as Hs. unfold acquire_slots in E.
  destruct (nz _); [injection E as <- <-; done|]. rw (token_slots_ok cl Hs) in E. cbn in E.
  destruct (_ <? n); [|injection E as <- <-; done]. destruct ok; injection E as <- <-; [|done].
  split_and!; [done| |].
  - unfold slots_ok in *. cbn. rw length_app. unfold SANLK_MAX_RESOURCES. destruct (cl_tokens cl); cbn [default length]; unfold id; lia.
  - eapply holding_sub; [..|exact Hh]; [done..|].
    rw (held_default cl). unfold held_keys. cbn. by rw token_keys_app (token_keys_none 16) app_nil_r.
Qed.

Lemma put_token_length t l : length (put_token t l) = length l.
Proof. induction l as [|[x|] l IH]; cbn; auto. Qed.

Lemma put_token_keys (P : list Z -> Prop) (t : rtoken) l :
  P (name_key t.(t_lockspace_name)) -> Forall P (token_keys l) -> Forall P (token_keys (put_token t l)).
Proof.
  intros Ht. induction l as [|[x|] l IH]; cbn; [done|..].
  - intros Hl. inv Hl. constructor; [done|]. by apply IH.
  - intros Hl. constructor; done.
Qed.

Lemma put_tokens_spec (P : list Z -> Prop) new l :
  Forall (fun t : rtoken => P (name_key t.(t_lockspace_name))) new -> Forall P (token_keys l) ->
  let l' := fold_left (fun l t => put_token t l) new l in
  length l' = length l /\ Forall P (token_keys l').
Proof.
  revert l. induction new as [|t new IH]; intros l Hn Hl; [done|]. inv Hn.
  destruct (IH (put_token t l)) as [Hlen Hkeys]; [done|by apply put_token_keys|].
  cbn zeta in *. rw fold_left_cons. split; [|done]. by rw Hlen put_token_length.
Qed.

(** The check under [spaces_mutex]: every new token is of a lockspace in use. *)
Lemma token_space_in ls t : token_space_ok ls t = true -> in_spaces ls (name_key t.(t_lockspace_name)).
Proof.
  unfold token_space_ok, _lockspace_info. destruct (find_space _ _) as [sp|] eqn:E; [|done]. intros _.
  apply find_space_elem in E as [Hin Hm]. apply strncmp_key in Hm. rw -Hm.
  by apply (list_elem_of_fmap_2 sp_key).
Qed.

Lemma acquire_done_spec ls result new cl x cl' :
  client_ok ls cl -> acquire_done ls result new cl = Some (x, cl') ->
  sets_done cl cl' /\ slots_ok cl' /\ Forall (in_spaces ls) (holding cl') /\ snd x = cl.(cl_pid_dead).
Proof.
  intros [He Hh] E. pose proof (eo_slots _ He) as Hs. unfold acquire_done in E.
  destruct (_ && _); [|injection E as <- <-; done].
  rw token_slots_ok in E; [done|]. cbn in E.
  destruct (negb _) eqn:Ec; [injection E as <- <-; done|]. injection E as <- <-.
  destruct (cl_tokens cl) as [l|] eqn:Et; [|done]. cbn in Ec |- *.
  unfold check_new_tokens_space in Ec.
  destruct (_ <? _); [done|]. destruct (forallb _ new) eqn:Ef; [|done].
  assert (Forall (fun t : rtoken => in_spaces ls (name_key t.(t_lockspace_name))) new) as Hnew.
  { apply list.Forall_forall. intros t Ht. apply token_space_in.
    by apply (proj1 (forallb_forall _ _) Ef), list_elem_of_In. }
  split_and!; [done|..|done].
  - unfold slots_ok in *. rw Et in Hs. cbn.
    by rw (proj1 (put_tokens_spec (fun _ => True) new l ltac:(by apply Forall_true) ltac:(by apply Forall_true))).
  - eapply holding_sub; [..|exact Hh]; [done..|].
    unfold held_keys. cbn. rw Et. intros Hl. by apply (put_tokens_spec _ new l).
Qed.

(** ** Commands on a registered client *)

Lemma keeps_acquire_recv fd n new o (Q : Z * list rtoken -> own -> Prop) :
  (forall x, Q x o) -> keeps (acquire_recv fd n new) o Q.
Proof.
  intros HQ. revert new. induction n as [|n IH]; intros new; cbn [acquire_recv]; [apply HQ|].
  intros [res|] _; [|apply HQ]. cbn. destruct (_ || _); [apply HQ|].
  intros [] _; [|apply HQ]. intros [disks|] _; [|apply HQ].
  apply (keeps_bind next_token_id), keeps_counter. intros id. apply IH.
Qed.

Lemma keeps_acquire_fill ci pid todo filled o (Q : Z * list rtoken -> own -> Prop) :
  (forall x, Q x o) -> keeps (acquire_fill ci pid todo filled) o Q.
Proof.
  intros HQ. revert filled. induction todo as [|t todo IH]; intros filled; cbn [acquire_fill]; [apply HQ|].
  apply keeps_bind, keeps_look. intros [t'|]; [apply IH|apply HQ].
Qed.

Lemma keeps_acquire_leases flags kp ka todo acquired o (Q : Z * list rtoken * nat -> own -> Prop) :
  (forall x, Q x o) -> keeps (acquire_leases flags kp ka todo acquired) o Q.
Proof.
  intros HQ. revert acquired. induction todo as [|t todo IH]; intros acquired; cbn [acquire_leases]; [apply HQ|].
  intros [rv t'] _. cbn. destruct (rv <? 0); [apply HQ|apply IH].
Qed.

Lemma keeps_acquire_tokens ca fd o (Q : Z * list rtoken * nat * bool -> own -> Prop) :
  o.(o_cmd) = Some ca.(ca_ci_target) -> (forall x, Q x o) -> keeps (acquire_tokens ca fd) o Q.
Proof.
  intros Hc HQ. unfold acquire_tokens. destruct (_ <? _); [apply HQ|]. intros ok _.
  apply keeps_bind, (keeps_tokens _ _ _ _ Hc). intros ls cl [result [kp ka]] cl' Hok E.
  destruct (acquire_slots_spec _ _ _ _ _ _ Hok E) as (H1 & H2 & H3). split_and!; try done.
  destruct (nz result); [apply HQ|]. apply keeps_bind, keeps_acquire_recv. intros [r new].
  destruct (nz r); [apply HQ|]. intros [name|] _; [|apply HQ].
  apply (keeps_bind (on_client _ _)), keeps_quiet. intros c x c' [= <- <-]. split; [done|].
  apply keeps_bind, keeps_acquire_fill. intros [r' filled]. destruct (nz r'); [apply HQ|].
  apply keeps_bind, keeps_acquire_leases. intros [[r'' acq] n]. apply HQ.
Qed.

Lemma keeps_cmd_acquire ca :
  keeps (cmd_acquire ca) (worker ca.(ca_ci_in) (Some ca.(ca_ci_target)) None) (fun _ _ => True).
Proof.
  unfold cmd_acquire. apply keeps_bind, keeps_read. intros fd.
  apply keeps_bind, keeps_acquire_tokens; [done|]. intros [[[result new] acquired] recv_done].
  apply keeps_bind. unfold acquire_finish.
  apply (keeps_done_spaces _ (fun ls => acquire_done ls result new) snd); [done|].
  intros ls cl [result' pid_dead] cl' Hok E.
  destruct (acquire_done_spec _ _ _ _ _ _ Hok E) as (H1 & H2 & H3 & H4). split_and!; try done. cbn [snd].
  assert (forall r (Q : unit -> own -> Prop), (forall o, Q tt o) ->
    keeps ((if recv_done : bool then mret tt else ask (QDrain ca.(ca_ci_in) ca.(ca_header)));; reply ca fd r)
      (worker ca.(ca_ci_in) None None) Q) as Hsend.
  { intros r Q HQ. apply keeps_bind. destruct recv_done; [|intros ? _]; by apply keeps_reply. }
  unfold after_cmd, nz. destruct (Z.eqb_spec pid_dead 0) as [->|Hne]; cbn [negb].
  - rw andb_true_r. destruct (result' =? 0); [by apply Hsend|].
    apply keeps_bind, keeps_release. by apply Hsend.
  - rw andb_false_r. apply keeps_bind, keeps_release.
    apply keeps_bind, keeps_release_cl. apply keeps_bind, keeps_free; [intros; by left|]. by apply Hsend.
Qed.

(** Tokens are only taken out of their slots. *)
Definition takes {T} (f : list (option rtoken) -> option (T * list (option rtoken))) : Prop :=
  forall l x l', f l = Some (x, l') ->
    length l' = length l /\ forall P, Forall P (token_keys l) -> Forall P (token_keys l').

Lemma keeps_with_slots {T} ci (f : list (option rtoken) -> option (T * list (option rtoken))) o (Q : T -> own -> Prop) :
  o.(o_cmd) = Some ci -> takes f -> (forall x, Q x o) -> keeps (on_client ci (with_slots f)) o Q.
Proof.
  intros Hc Hf HQ. apply keeps_tokens; [done|]. intros ls cl x cl' [He Hh] E.
  pose proof (eo_slots _ He) as Hs. unfold with_slots in E. rw (token_slots_ok cl Hs) in E. cbn in E.
  destruct (f _) as [[y l']|] eqn:Ef; [|done]. injection E as <- <-.
  destruct (cl_tokens cl) as [l|] eqn:Et; [|split_and!; [done..|apply HQ]].
  cbn in Ef. destruct (Hf _ _ _ Ef) as [Hlen Hk]. unfold id in *. cbn [default]. unfold id.
  rw drop_all app_nil_r. split_and!; [done|..|apply HQ].
  - unfold slots_ok in *. rw Et in Hs. cbn. by rw Hlen.
  - eapply holding_sub; [..|exact Hh]; [done..|]. unfold held_keys. cbn. rw Et. apply Hk.
Qed.

Lemma take_all_takes rem : takes (fun l => take_all l rem).
Proof.
  intros l. revert rem. induction l as [|s l IH]; intros rem x l' E; cbn in E; [by simplify_eq|].
  destruct (match s with Some t => _ | None => _ end) as [rem'|]; [|done]. cbn in E.
  destruct (take_all l rem') as [[rem'' l'']|] eqn:Er; [|done]. injection E as <- <-.
  destruct (IH _ _ _ Er) as [H1 H2]. split; [by cbn; rw H1|]. intros P HP. apply H2.
  destruct s; cbn in HP; [by inv HP|done].
Qed.

Lemma take_token_takes res l t l' :
  take_token res l = Some (t, l') ->
  length l' = length l /\ forall P, Forall P (token_keys l) -> Forall P (token_keys l').
Proof.
  revert l'. induction l as [|[x|] l IH]; intros l' E; cbn in E; [done|..].
  - destruct (token_is res x).
    + injection E as <- <-. split; [done|]. intros P HP. by inv HP.
    + destruct (take_token res l) as [[t' l'']|]; [|done]. injection E as <- <-.
      destruct (IH _ eq_refl) as [H1 H2]. split; [by cbn; rw H1|]. intros P HP. inv HP. constructor; [done|by apply H2].
  - destruct (take_token res l) as [[t' l'']|]; [|done]. injection E as <- <-.
    destruct (IH _ eq_refl) as [H1 H2]. split; [by cbn; rw H1|]. intros P HP. by apply H2.
Qed.

Lemma keeps_release_find ci res rem o (Q : list rtoken * bool -> own -> Prop) :
  o.(o_cmd) = Some ci -> (forall x, Q x o) -> keeps (on_client ci (release_find res rem)) o Q.
Proof.
  intros Hc HQ. apply keeps_with_slots; [done| |done]. intros l x l' E.
  destruct (take_token res l) as [[t l'']|] eqn:Et; [|by simplify_eq].
  destruct (rem_add rem t); [|done]. injection E as <- <-. by apply (take_token_takes res l t).
Qed.

Lemma keeps_release_recv ci fd n rem result o (Q : list rtoken * Z -> own -> Prop) :
  o.(o_cmd) = Some ci -> (forall x, Q x o) -> keeps (release_recv ci fd n rem result) o Q.
Proof.
  intros Hc HQ. revert rem result. induction n as [|n IH]; intros rem result; cbn [release_recv]; [apply HQ|].
  intros [res|] _; [|apply HQ]. apply (keeps_bind (on_client _ _)), keeps_release_find; [done|].
  intros [rem' found]. apply IH.
Qed.

Lemma keeps_release_rem rem new result o (Q : Z -> own -> Prop) :
  (forall x, Q x o) -> keeps (release_rem rem new result) o Q.
Proof.
  intros HQ. revert result. induction rem as [|t rem IH]; intros result; cbn [release_rem]; [apply HQ|].
  intros rv _. apply IH.
Qed.

Lemma keeps_release_resources ca fd o (Q : Z -> own -> Prop) :
  o.(o_cmd) = Some ca.(ca_ci_target) -> (forall x, Q x o) -> keeps (release_resources ca fd) o Q.
Proof.
  intros Hc HQ. unfold release_resources.
  destruct (has_flag _ _).
  { apply keeps_bind, keeps_with_slots; [done|apply take_all_takes|]. intros rem. by apply keeps_release_rem. }
  destruct (has_flag _ _).
  { intros [res|] _; [|apply HQ]. intros r _. apply HQ. }
  destruct (has_flag _ _).
  { intros [res|] _; [|apply HQ]. intros [new|] _; [|apply HQ].
    apply (keeps_bind (on_client _ _)), keeps_release_find; [done|]. intros [rem found]. by apply keeps_release_rem. }
  apply keeps_bind, keeps_release_recv; [done|]. intros [rem result]. by apply keeps_release_rem.
Qed.

(** Sections that only end the command. *)
Lemma quiet_done ls cl cl' :
  client_ok ls cl -> quiet (cl <| cl_cmd_active := 0 |>) cl' ->
  sets_done cl cl' /\ slots_ok cl' /\ Forall (in_spaces ls) (holding cl').
Proof.
  intros [He Hh] [Hc Ht Hs]. split_and!; [done|..].
  - unfold slots_ok. rw Ht Hs. apply He.
  - unfold holding, alive, held_keys. by rw (sc_used _ _ Hc) (sc_pid _ _ Hc) Ht.
Qed.

Lemma release_done_spec cl x cl' :
  release_done cl = Some (x, cl') -> quiet (cl <| cl_cmd_active := 0 |>) cl' /\ x = cl.(cl_pid_dead).
Proof.
  unfold release_done. destruct (_ && _); [|by intros [= <- <-]].
  destruct (token_slots _) as [l|]; [|done]. cbn. destruct (held_tokens l); by intros [= <- <-].
Qed.

Lemma keeps_cmd_release ca :
  keeps (cmd_release ca) (worker ca.(ca_ci_in) (Some ca.(ca_ci_target)) None) (fun _ _ => True).
Proof.
  unfold cmd_release. apply keeps_bind, keeps_read. intros fd.
  apply keeps_bind, keeps_release_resources; [done|]. intros result.
  apply keeps_bind, (keeps_done _ _ id); [done|]. intros ls cl x cl' Hok E.
  destruct (release_done_spec _ _ _ E) as [Hq ->]. destruct (quiet_done _ _ _ Hok Hq) as (? & ? & ?).
  split_and!; try done. apply keeps_bind, keeps_clean_dead. by apply keeps_reply.
Qed.

Lemma inquire_spec to_str ok cl x cl' :
  inquire_section to_str ok cl = Some (x, cl') -> quiet (cl <| cl_cmd_active := 0 |>) cl' /\ snd x = cl.(cl_pid_dead).
Proof.
  unfold inquire_section. destruct (nz _); [by intros [= <- <-]|].
  destruct (token_slots _) as [l|]; [|done]. cbn. destruct (_ =? 0); [by intros [= <- <-]|].
  destruct ok; [|by intros [= <- <-]]. destruct (inquire_loop _ _ _ _). by intros [= <- <-].
Qed.

Lemma keeps_cmd_inquire ca :
  keeps (cmd_inquire ca) (worker ca.(ca_ci_in) (Some ca.(ca_ci_target)) None) (fun _ _ => True).
Proof.
  unfold cmd_inquire. apply keeps_bind, keeps_read. intros fd to_str _ ok _.
  apply (keeps_bind (on_client _ _)), (keeps_done _ _ snd); [done|].
  intros ls cl [[[result count] state] pid_dead] cl' Hok E.
  destruct (inquire_spec _ _ _ _ _ E) as [Hq Hd]. destruct (quiet_done _ _ _ Hok Hq) as (? & ? & ?).
  split_and!; try done. apply keeps_bind, keeps_clean_dead. intros ? _. by apply keeps_resume.
Qed.

(** A thread may give up its claim on the client it ran a command for. *)
Lemma keeps_give_up {T} (f : daemon -> option (T * daemon)) o (Q : T -> own -> Prop) :
  keeps (atomic f) (o <| o_cmd := None |>) Q -> keeps (atomic f) o Q.
Proof.
  intros H d x d' Hi Ho E. destruct (H d x d' Hi) as (o' & H1 & H2 & H3 & H4); [by destruct Ho|done|].
  exists o'. split_and!; try done. intros r [] Hr. apply H3; [by constructor|done].
Qed.

Lemma alter_flags_keys fl i l :
  token_keys (alter (fmap (fun t : rtoken => t <| tk_tok := t.(tk_tok) <| t_r_flags := fl |> |>)) i l) = token_keys l.
Proof.
  revert i. induction l as [|[t|] l IH]; intros [|i]; try done.
  - change (name_key t.(t_lockspace_name) :: token_keys (alter (fmap (fun t : rtoken => t <| tk_tok := t.(tk_tok) <| t_r_flags := fl |> |>)) i l) =
            name_key t.(t_lockspace_name) :: token_keys l). by rw IH.
  - apply IH.
Qed.

Lemma keeps_set_flags ci i fl o (Q : unit -> own -> Prop) :
  o.(o_cmd) = Some ci -> Q tt o ->
  keeps (on_client ci (fun cl => Some (tt, cl <| cl_tokens :=
           alter (fmap (fun t : rtoken => t <| tk_tok := t.(tk_tok) <| t_r_flags := fl |> |>)) i <$> cl.(cl_tokens) |>))) o Q.
Proof.
  intros Hc HQ. apply keeps_tokens; [done|]. intros ls cl x cl' [He Hh] [= <- <-].
  pose proof (eo_slots _ He) as Hs. split_and!; try done.
  - unfold slots_ok in *. cbn. destruct (cl_tokens cl); cbn; [|done]. by rw length_alter.
  - eapply holding_sub; [..|exact Hh]; [done..|]. unfold held_keys. cbn.
    destruct (cl_tokens cl); cbn; [|done]. by rw alter_flags_keys.
Qed.

Lemma keeps_end_command ci ci_in (Q : Z -> own -> Prop) :
  (forall pd, Q pd (after_cmd (worker ci_in (Some ci) None) ci pd)) ->
  keeps (on_client ci end_command) (worker ci_in (Some ci) None) Q.
Proof.
  intros HQ. apply (keeps_done _ _ id); [done|]. intros ls cl x cl' Hok [= <- <-].
  destruct (quiet_done ls cl (cl <| cl_cmd_active := 0 |>) Hok) as (? & ? & ?); [done|].
  split_and!; done.
Qed.

Lemma keeps_cmd_convert ca :
  keeps (cmd_convert ca) (worker ca.(ca_ci_in) (Some ca.(ca_ci_target)) None) (fun _ _ => True).
Proof.
  unfold cmd_convert. apply keeps_bind, keeps_read. intros fd [res|] _.
  2:{ intros ? _. apply keeps_give_up. by apply keeps_resume. }
  apply (keeps_bind (on_client _ _)), keeps_quiet. intros cl r cl' E.
  destruct (token_slots cl); [|done]. injection E as <- <-. split; [done|].
  assert (forall result, keeps (pid_dead ← on_client ca.(ca_ci_target) end_command;
      clean_dead ca.(ca_ci_target) pid_dead;; reply ca fd result)
      (worker ca.(ca_ci_in) (Some ca.(ca_ci_target)) None) (fun _ _ => True)) as Hend.
  { intros result. apply keeps_bind, keeps_end_command. intros pd. apply keeps_bind, keeps_clean_dead.
    by apply keeps_reply. }
  apply keeps_bind. destruct (find_token _ _ _) as [[i t]|]; [|apply Hend].
  intros [rv fl] _. apply (keeps_bind (on_client _ _)), keeps_set_flags; [done|]. apply Hend.
Qed.

Lemma keeps_killpath_recv ca o (Q : Z -> own -> Prop) : (forall x, Q x o) -> keeps (killpath_recv ca) o Q.
Proof.
  intros HQ. unfold killpath_recv.
  assert (forall p a ci (Q' : unit -> own -> Prop), Q' tt o -> keeps (set_killpath p a ci) o Q') as Hset.
  { intros p a ci Q' H. apply keeps_quiet. by intros cl x cl' [= <- <-]. }
  intros [path|] _; [|by apply (keeps_bind (set_killpath _ _ _)), Hset, HQ].
  apply (keeps_bind (on_client _ _)), keeps_quiet. intros cl x cl' [= <- <-]. split; [done|].
  intros [args|] _; [|by apply (keeps_bind (set_killpath _ _ _)), Hset, HQ].
  apply (keeps_bind (set_killpath _ _ _)), Hset, keeps_bind.
  destruct (has_flag _ _); [|apply HQ]. apply keeps_quiet. intros c y c' [= <- <-]. split; [done|apply HQ].
Qed.

Lemma keeps_cmd_killpath ca :
  keeps (cmd_killpath ca) (worker ca.(ca_ci_in) (Some ca.(ca_ci_target)) None) (fun _ _ => True).
Proof.
  unfold cmd_killpath. apply keeps_bind, keeps_killpath_recv. intros result.
  apply keeps_bind, keeps_end_command. intros pd. unfold after_cmd.
  destruct (nz pd); [by apply keeps_clean|by apply keeps_reply].
Qed.

(** ** Commands on lockspaces *)

Lemma keeps_request_result ca fd o (Q : Z -> own -> Prop) : (forall x, Q x o) -> keeps (request_result ca fd) o Q.
Proof.
  intros HQ. unfold request_result.
  apply keeps_bind, keeps_ask. intros [res|] _; cbv beta iota; [|apply HQ].
  destruct (_ || _); [apply HQ|].
  apply keeps_bind, keeps_ask. intros [] _; cbv beta iota; cbn [negb]; [|apply HQ].
  apply keeps_bind, keeps_ask. intros [disks|] _; cbv beta iota; [|apply HQ].
  apply keeps_bind, keeps_look. intros [t|]; [|apply HQ].
  apply keeps_bind, keeps_ask. intros [error owner] _. cbv beta iota. destruct (error <? 0); [apply HQ|].
  destruct (_ && _); [apply HQ|]. destruct (owner =? 0); [apply HQ|].
  apply keeps_bind, keeps_ask. intros now _.
  apply keeps_bind, keeps_same_lists. intros ls x ls' E. split; [|apply HQ].
  injection E as E. pose proof (host_status_set_bit_same now t.(t_lockspace_name) owner ls) as H. by rw E in H.
Qed.

Lemma keeps_cmd_request ca : keeps (cmd_request ca) (worker ca.(ca_ci_in) None None) (fun _ _ => True).
Proof.
  unfold cmd_request. apply keeps_bind, keeps_read. intros fd.
  apply keeps_bind, keeps_request_result. intros r. by apply keeps_reply.
Qed.

(** The thread owns the space it adds until it is committed or deleted. *)
Definition adder (ci_in : option nat) (c : option (bool * Z)) : own := Own false c ci_in None None None.

Lemma keeps_add_poll fuel p ci (Q : Z -> own -> Prop) :
  (forall r, Q r (adder ci (Some (true, p)))) -> keeps (add_lockspace_poll fuel p) (adder ci (Some (true, p))) Q.
Proof.
  intros HQ. induction fuel as [|fuel IH]; cbn [add_lockspace_poll]; [done|].
  apply keeps_bind, keeps_same_lists. intros ls x ls' E.
  destruct (add_wait_result p ls); [|done]. injection E as <- <-. split; [auto with sanlock|].
  destruct (_ =? 0); [|apply HQ]. intros ? _. apply IH.
Qed.

(** A section that moves the space of the thread. *)
Lemma keeps_move {T} p b (f : lockspaces -> option (T * lockspaces)) ci (Q : T -> own -> Prop) :
  (forall ls x ls', lists_ok ls -> space_claim ls (b, p) -> f ls = Some (x, ls') ->
     exists c, lists_ok ls' /\ frame (fun q => q = p) ls ls' /\ claims c (space_claim ls') /\
       (c = None \/ exists b', c = Some (b', p)) /\ Q x (adder ci c)) ->
  keeps (on_spaces f) (adder ci (Some (b, p))) Q.
Proof.
  intros H. apply keeps_on_spaces. intros d x ls' Hi Ho E.
  destruct (H _ _ _ (inv_lists _ Hi) (ow_space _ _ Ho) E) as (c & H1 & [F1 F2 F3] & H3 & H4 & H5).
  exists (adder ci c). split_and!; try done.
  - constructor; [..|done]; intros q Hq; [apply F1|apply F2]; cbn in Hq; congruence.
  - cbn. intros q Hq. left. destruct H4 as [->|[b' ->]]; done.
Qed.

Lemma keeps_add_fail p rv b ci (Q : Z -> own -> Prop) :
  Q rv (adder ci None) -> keeps (add_fail p rv) (adder ci (Some (b, p))) Q.
Proof.
  intros HQ. apply keeps_bind, keeps_move. intros ls x ls' Hok Hc [= <- <-]. exists None.
  assert (on_add p ls) as Hon by (destruct b; [by apply adding_on_add|done]).
  destruct (add_fail_del_spec p ls Hok Hon). split_and!; try done. by left.
Qed.

Lemma keeps_add_wait fuel p ci (Q : Z -> own -> Prop) :
  (forall r, Q r (adder ci None)) -> keeps (add_lockspace_wait fuel p) (adder ci (Some (true, p))) Q.
Proof.
  intros HQ. unfold add_lockspace_wait. apply keeps_bind, keeps_add_poll. intros r.
  destruct (negb _); [by apply keeps_add_fail|].
  apply keeps_bind, keeps_move. intros ls added ls' Hok Hadd E.
  pose proof (add_wait_commit_spec p ls added ls' Hok Hadd E) as H. destruct added.
  - exists None. destruct H. split_and!; try done; [by left|apply HQ].
  - subst ls'. exists (Some (true, p)). split_and!; eauto using same_lists_frame with sanlock.
    apply keeps_bind, keeps_move. intros ls1 x ls2 Hok1 Hadd1 E1.
    destruct (add_wait_undo p ls1) as [ls3|] eqn:Eu; [|done]. injection E1 as <- <-.
    destruct (add_wait_undo_spec p ls1 _ Hok1 (adding_on_add _ _ Hadd1) Eu) as (? & ? & ?).
    exists (Some (false, p)). split_and!; eauto. by apply keeps_add_fail.
Qed.

Lemma malloc_space_fresh m ls p : malloc_space m ls = Some p -> p ∉ sp_list <$> all_spaces ls.
Proof.
  unfold malloc_space. destruct m as [q|]; [|done]. destruct (existsb _ _) eqn:E; [done|]. intros [= ->].
  intros (sp & -> & Hin)%list_elem_of_fmap. apply not_true_iff_false in E. apply E, existsb_exists.
  exists sp. split; [by apply list_elem_of_In|apply Z.eqb_refl].
Qed.

Lemma keeps_add_start com cs l io m hist ci (Q : Z * option Z -> own -> Prop) :
  (forall rv, Q (rv, None) (adder ci None)) -> (forall rv p, Q (rv, Some p) (adder ci (Some (true, p)))) ->
  keeps (on_spaces (fun st => Some (add_lockspace_start com cs l io (malloc_space m st) hist st))) (adder ci None) Q.
Proof.
  intros H0 H1. apply keeps_on_spaces. intros d [rv out] ls' Hi Ho E. injection E as E.
  pose proof (add_start_spec com cs l io _ hist _ _ _ _ (inv_lists _ Hi) E
    (fun p => malloc_space_fresh m d.(d_spaces) p)) as H.
  destruct out as [p|].
  - destruct H as (Hok & Hadd & Es & Er & Hfresh & sp & Ea). exists (adder ci (Some (true, p))).
    split_and!; try done.
    + constructor; [..|by rw Es]; intros q _; unfold adding, on_add; rw Ea.
      * intros (s & Hin & Hs). exists s. split; [by apply list_elem_of_further|done].
      * intros Hq. by apply list_elem_of_further.
    + intros q [= <-]. by right.
  - subst ls'. exists (adder ci None). split_and!; try done; auto using same_lists_frame with sanlock. apply Hi.
Qed.

Lemma keeps_cmd_add com cs fuel ca :
  keeps (cmd_add_lockspace com cs fuel ca) (worker ca.(ca_ci_in) None None) (fun _ _ => True).
Proof.
  unfold cmd_add_lockspace. change (worker ca.(ca_ci_in) None None) with (adder (Some ca.(ca_ci_in)) None).
  apply keeps_bind, keeps_read. intros fd.
  apply keeps_bind, keeps_ask. intros [l|] _; cbv beta iota; [|by apply keeps_reply].
  apply keeps_bind, keeps_ask. intros [m hist] _. cbv beta iota.
  apply keeps_bind, keeps_add_start; [intros rv; by apply keeps_reply|].
  intros rv p. cbv beta iota. apply keeps_bind, keeps_ask. intros create _.
  destruct (nz create).
  { apply keeps_bind, keeps_add_fail. by apply keeps_reply. }
  destruct (has_flag _ _).
  - apply keeps_bind, keeps_reply; try done. apply keeps_bind, (keeps_add_wait _ _ None). done.
  - apply keeps_bind, keeps_add_wait. intros r. by apply keeps_reply.
Qed.

Lemma keeps_inq_wait fuel w l o (Q : Z -> own -> Prop) : (forall x, Q x o) -> keeps (inq_wait fuel w l) o Q.
Proof.
  intros HQ. induction fuel as [|fuel IH]; cbn [inq_wait]; [done|].
  apply keeps_bind, keeps_same_lists. intros ls x ls' [= <- <-]. split; [auto with sanlock|].
  destruct (_ || _); [apply HQ|]. intros ? _. apply IH.
Qed.

Lemma keeps_rem_wait fuel l id o (Q : Z -> own -> Prop) : (forall x, Q x o) -> keeps (rem_lockspace_wait fuel l id) o Q.
Proof.
  intros HQ. induction fuel as [|fuel IH]; cbn [rem_lockspace_wait]; [done|].
  apply keeps_bind, keeps_same_lists. intros ls x ls' [= <- <-]. split; [auto with sanlock|].
  destruct (rem_lockspace_done _ _ _); [apply HQ|]. intros ? _. apply IH.
Qed.

Lemma keeps_cmd_inq fuel ca : keeps (cmd_inq_lockspace fuel ca) (worker ca.(ca_ci_in) None None) (fun _ _ => True).
Proof.
  unfold cmd_inq_lockspace. apply keeps_bind, keeps_read. intros fd.
  apply keeps_bind, keeps_ask. intros [l|] _; cbv beta iota; [|by apply keeps_reply].
  apply keeps_bind, keeps_inq_wait. intros r. by apply keeps_reply.
Qed.

Lemma keeps_cmd_rem fuel ca : keeps (cmd_rem_lockspace fuel ca) (worker ca.(ca_ci_in) None None) (fun _ _ => True).
Proof.
  unfold cmd_rem_lockspace. apply keeps_bind, keeps_read. intros fd.
  apply keeps_bind, keeps_ask. intros [l|] _; cbv beta iota; [|by apply keeps_reply].
  apply keeps_bind.
  assert (forall used : bool, keeps (if used then reply ca fd (- EBUSY) else
    r ← on_spaces (fun st => Some (rem_lockspace_start l st));
    match r with
    | (rv, None) => reply ca fd rv
    | (rv, Some space_id) =>
        if has_flag ca.(ca_header).(h_cmd_flags) SANLK_REM_ASYNC then
          reply ca fd rv;; rem_lockspace_wait fuel l space_id;; mret tt
        else result ← rem_lockspace_wait fuel l space_id; reply ca fd result
    end) (worker ca.(ca_ci_in) None None) (fun _ _ => True)) as Hrest.
  { intros []; [by apply keeps_reply|]. apply keeps_bind, keeps_same_lists. intros ls [rv out] ls' E.
    injection E as E. pose proof (rem_lockspace_start_same l ls) as H. rw E in H. split; [done|].
    destruct out as [id|]; [|by apply keeps_reply]. destruct (has_flag _ _).
    - apply keeps_bind, keeps_reply; try done. by apply keeps_bind, keeps_rem_wait.
    - apply keeps_bind, keeps_rem_wait. intros r. by apply keeps_reply. }
  destruct (has_flag _ SANLK_REM_UNUSED); [intros used _|]; apply Hrest.
Qed.

Lemma keeps_cmd_set_event ca : keeps (cmd_set_event ca) (worker ca.(ca_ci_in) None None) (fun _ _ => True).
Proof.
  unfold cmd_set_event. apply keeps_bind, keeps_read. intros fd.
  apply keeps_bind, keeps_ask. intros [l|] _; cbv beta iota; [|by apply keeps_reply].
  apply keeps_bind, keeps_ask. intros [he|] _; cbv beta iota; [|by apply keeps_reply].
  apply keeps_bind, keeps_ask. intros now _. apply keeps_bind, keeps_same_lists. intros ls x ls' E.
  injection E as E. pose proof (lockspace_set_event_same now l he ca.(ca_header).(h_cmd_flags) ls) as H. rw E in H.
  split; [done|]. by apply keeps_reply.
Qed.

(** The shutdown flag is not part of what is claimed. *)
Lemma shutdown_section o d n (g : daemon -> daemon) :
  inv d -> own_ok o d -> (g d).(d_spaces) = d.(d_spaces) <| external_shutdown := n |> ->
  (g d).(d_clients) = d.(d_clients) -> inv (g d) /\ own_ok o (g d) /\ fair o o d (g d).
Proof.
  intros [[L1 L2 L3 L4 L5] [C1 C2 C3 C4 C5 C6]] Ho Hs Hc.
  assert (forall r, own_ok r d -> own_ok r (g d)) as Hr.
  { intros r [R1 R2 R3 R4 R5 R6]. constructor; rw ?Hs ?Hc; done. }
  split_and!; [|auto|]; [|intros r Hd Hok; auto].
  constructor; rw ?Hs ?Hc; by constructor.
Qed.

Lemma keeps_cmd_shutdown_wait ca : keeps (cmd_shutdown_wait ca) (worker ca.(ca_ci_in) None None) (fun _ _ => True).
Proof.
  unfold cmd_shutdown_wait. apply keeps_bind, keeps_read. intros fd. apply keeps_bind.
  intros d x d' Hi Ho E. injection E as E. exists (worker ca.(ca_ci_in) None None).
  assert (inv d' /\ own_ok (worker ca.(ca_ci_in) None None) d' /\
          fair (worker ca.(ca_ci_in) None None) (worker ca.(ca_ci_in) None None) d d') as (H1 & H2 & H3).
  { unfold daemon_shutdown_start in E. cases; simplify_eq; try done.
    - by apply (shutdown_section _ d 2 (fun d => d <| shutdown_reply_ci := _ |> <| shutdown_reply_fd := fd |>
        <| d_spaces := d.(d_spaces) <| external_shutdown := 2 |> |>)).
    - by apply (shutdown_section _ d 1 (fun d => d <| shutdown_reply_ci := _ |> <| shutdown_reply_fd := fd |>
        <| d_spaces := d.(d_spaces) <| external_shutdown := 1 |> |>)). }
  split_and!; try done. apply keeps_ret. destruct (x =? 0); [exact I|by apply keeps_reply].
Qed.

Lemma keeps_cmd_other ca : keeps (cmd_other ca) (worker ca.(ca_ci_in) None None) (fun _ _ => True).
Proof.
  unfold cmd_other. apply keeps_bind, keeps_read. intros fd. intros r _. by apply keeps_reply.
Qed.

Lemma registered_cases cmd :
  registered_cmd cmd = true ->
  cmd = SM_CMD_ACQUIRE \/ cmd = SM_CMD_RELEASE \/ cmd = SM_CMD_INQUIRE \/ cmd = SM_CMD_CONVERT \/ cmd = SM_CMD_KILLPATH.
Proof.
  unfold registered_cmd, classify. destruct (existsb _ _); [done|]. destruct (existsb _ _); [done|].
  destruct (existsb _ _) eqn:E; [|done]. intros _. apply existsb_exists in E as (x & Hin & Hx).
  apply Z.eqb_eq in Hx as ->. cbn in Hin. unfold SM_CMD_ACQUIRE, SM_CMD_RELEASE, SM_CMD_INQUIRE, SM_CMD_CONVERT, SM_CMD_KILLPATH. lia.
Qed.

Lemma keeps_call_cmd com cs fuel ca :
  keeps (call_cmd_thread com cs fuel ca) (worker_own ca) (fun _ _ => True).
Proof.
  unfold call_cmd_thread, worker_own. pose proof (registered_cases (ca_header ca).(h_cmd)) as Hreg.
  set (cmd := (ca_header ca).(h_cmd)) in *.
  destruct (Z.eqb_spec cmd SM_CMD_ACQUIRE) as [->|]; [exact (keeps_cmd_acquire ca)|].
  destruct (Z.eqb_spec cmd SM_CMD_RELEASE) as [->|]; [exact (keeps_cmd_release ca)|].
  destruct (Z.eqb_spec cmd SM_CMD_INQUIRE) as [->|]; [exact (keeps_cmd_inquire ca)|].
  destruct (Z.eqb_spec cmd SM_CMD_CONVERT) as [->|]; [exact (keeps_cmd_convert ca)|].
  destruct (Z.eqb_spec cmd SM_CMD_REQUEST) as [->|]; [exact (keeps_cmd_request ca)|].
  destruct (Z.eqb_spec cmd SM_CMD_ADD_LOCKSPACE) as [->|]; [exact (keeps_cmd_add com cs fuel ca)|].
  destruct (Z.eqb_spec cmd SM_CMD_INQ_LOCKSPACE) as [->|]; [exact (keeps_cmd_inq fuel ca)|].
  destruct (Z.eqb_spec cmd SM_CMD_REM_LOCKSPACE) as [->|]; [exact (keeps_cmd_rem fuel ca)|].
  destruct (Z.eqb_spec cmd SM_CMD_KILLPATH) as [->|]; [exact (keeps_cmd_killpath ca)|].
  destruct (registered_cmd cmd); [destruct Hreg as [|[|[|[|]]]]; done|].
  destruct (Z.eqb_spec cmd SM_CMD_SHUTDOWN_WAIT); [exact (keeps_cmd_shutdown_wait ca)|].
  destruct (Z.eqb_spec cmd SM_CMD_SET_EVENT); [exact (keeps_cmd_set_event ca)|].
  exact (keeps_cmd_other ca).
Qed.

(** ** The main thread *)

Definition main_for (ci : option nat) (susp cmd : option nat) : own := Own true None susp cmd None ci.

Lemma keeps_process_fail ci h r :
  keeps (process_fail ci h r) (main_for None (Some ci) None) (fun _ _ => True).
Proof.
  unfold process_fail. apply keeps_bind, keeps_read. intros fd. apply keeps_bind, keeps_ask. intros ? _.
  apply keeps_bind, keeps_ask. intros ? _. by apply keeps_resume.
Qed.

Lemma keeps_process_unregistered ci h :
  registered_cmd h.(h_cmd) = false ->
  keeps (process_cmd_thread_unregistered ci h) (main_for None (Some ci) None) (fun _ _ => True).
Proof.
  intros Hr. unfold process_cmd_thread_unregistered.
  apply keeps_bind, keeps_ask. intros [] _; cbv beta iota; cbn [negb]; [|apply keeps_process_fail].
  apply keeps_bind, keeps_ask. intros add _. apply keeps_bind. unfold thread_pool_add_work.
  destruct (add <? 0) eqn:E.
  - apply keeps_ret. apply keeps_process_fail.
  - cbn -[registered_cmd]. by rw Hr.
Qed.

Lemma keeps_process_registered ci h :
  registered_cmd h.(h_cmd) = true ->
  keeps (process_cmd_thread_registered ci h) (main_for None (Some ci) None) (fun _ _ => True).
Proof.
  intros Hr. unfold process_cmd_thread_registered.
  apply keeps_bind, keeps_ask. intros [] _; cbv beta iota; cbn [negb]; [|apply keeps_process_fail].
  apply keeps_bind, keeps_target; [done|by intros E; rw E in Hr| |].
  - intros r [[t p] f] Hlt. rw (proj2 (Z.ltb_lt r 0) Hlt). apply keeps_process_fail.
  - intros t p f. cbv beta iota. cbn [Z.ltb Z.compare].
    apply keeps_bind, keeps_ask. intros add _. apply keeps_bind. unfold thread_pool_add_work.
    destruct (add <? 0) eqn:E.
    + apply keeps_ret. apply keeps_bind.
      apply keeps_on_client. intros ls cl x cl' Hok [= <- <-] Ha. eexists.
      destruct (quiet_done ls cl (cl <| cl_cmd_active := 0 |>) Hok) as (H1 & H2 & H3); [done|].
      split_and!; [| |apply (done_step _ _ _ _ false); [done|apply Hok|done..]|].
      * split; [|done]. eapply done_entry; [apply Hok| |done..]. by destruct (oa_cmd _ _ _ Ha eq_refl).
      * done.
      * apply keeps_process_fail.
    + cbn -[registered_cmd]. by rw Hr.
Qed.

(** Closing the connection the main thread works for. *)
Lemma keeps_close ci : keeps (free_client ci) (main_for (Some ci) None None) (fun _ _ => True).
Proof.
  apply keeps_free; [|done]. intros d Hi Ho. right. split; [|done].
  by destruct (claims_at _ _ _ (ow_main _ _ Ho) eq_refl).
Qed.

Lemma keeps_send_close ci fd h r :
  keeps (ask (QSendResult fd h r);; free_client ci) (main_for (Some ci) None None) (fun _ _ => True).
Proof. intros ? _. apply keeps_close. Qed.

Lemma keeps_call_daemon ci h : keeps (call_cmd_daemon ci h) (main_for (Some ci) None None) (fun _ _ => True).
Proof.
  unfold call_cmd_daemon. apply keeps_bind, keeps_read. intros fd.
  destruct (_ =? SM_CMD_REGISTER).
  { apply keeps_bind, keeps_ask. intros [pid|] Hpid; cbv beta iota; [|apply keeps_close].
    apply keeps_bind, keeps_ask. intros ok ->. apply keeps_bind, keeps_register; done. }
  destruct (_ =? SM_CMD_RESTRICT).
  { apply keeps_bind, keeps_quiet. intros cl x cl' [= <- <-]. split; [done|]. by apply keeps_ask. }
  destruct (_ =? SM_CMD_VERSION); [by apply keeps_ask|].
  destruct (_ =? SM_CMD_SHUTDOWN).
  { apply keeps_bind, keeps_same_lists. intros ls x ls' [= <- <-]. split; [|apply keeps_close].
    unfold cmd_shutdown. cases; try apply same_lists_refl; constructor; apply Forall2_refl; auto with sanlock. }
  destruct (_ =? SM_CMD_REG_EVENT).
  { apply keeps_bind, keeps_ask. intros [l|] _; cbv beta iota; apply keeps_bind; [|apply keeps_send_close].
    apply keeps_bind, keeps_ask. intros [he|] _; cbv beta iota; [|apply keeps_send_close].
    apply keeps_bind, keeps_ask. intros [[dup1 dup2] rx] _; cbv beta iota.
    apply keeps_same_lists. intros ls x ls' E. injection E as E.
    pose proof (lockspace_reg_event_same dup1 dup2 rx l ls) as H. rw E in H. split; [done|apply keeps_send_close]. }
  destruct (_ =? SM_CMD_END_EVENT).
  { apply keeps_bind, keeps_ask. intros [l|] _; cbv beta iota; apply keeps_bind; [|apply keeps_send_close].
    apply keeps_bind, keeps_ask. intros [[dup1 dup2] rx] _; cbv beta iota.
    apply keeps_same_lists. intros ls x ls' E. injection E as E.
    pose proof (lockspace_end_event_same rx l ls) as H. rw E in H. split; [done|apply keeps_send_close]. }
  destruct (_ =? SM_CMD_SET_CONFIG).
  { apply keeps_bind, keeps_ask. intros [l|] _; cbv beta iota; apply keeps_bind; [|apply keeps_send_close].
    apply keeps_same_lists. intros ls x ls' E. injection E as E.
    pose proof (lockspace_set_config_same l h.(h_data) ls) as H. rw E in H. split; [done|apply keeps_send_close]. }
  apply keeps_bind, keeps_ask. intros ? _. apply keeps_close.
Qed.

Lemma keeps_client_pid_dead ci : keeps (client_pid_dead ci) (main_for None None None) (fun _ _ => True).
Proof.
  unfold client_pid_dead. apply keeps_bind, keeps_mark; try done.
  - apply keeps_bind, keeps_dead_free; [done|]. intros l. induction l; cbn; auto.
  - intros n Hn. by destruct n.
Qed.

(** The main thread may give up its claim on a connection. *)
Lemma keeps_leave {T} (f : daemon -> option (T * daemon)) o (Q : T -> own -> Prop) :
  keeps (atomic f) (o <| o_main := None |>) Q -> keeps (atomic f) o Q.
Proof.
  intros H d x d' Hi Ho E. destruct (H d x d' Hi) as (o' & H1 & H2 & H3 & H4); [by destruct Ho|done|].
  exists o'. split_and!; try done. intros r [] Hr. apply H3; [by constructor|done].
Qed.

Lemma keeps_call_deadfn ci c : keeps (call_deadfn ci) (main_for c None None) (fun _ _ => True).
Proof.
  unfold call_deadfn. apply keeps_bind, keeps_leave.
  apply (keeps_on_clients (fun cs => match (client_at ci cs).(cl_deadfn) with
           | Some ClientFree => Some (None, snd (client_free ci cs)) | f => Some (f, cs) end)).
  intros d x cs' Hi Ho E. exists (main_for None None None).
  pose proof (client_at_ok _ _ ci (inv_clients _ Hi)) as [He _].
  destruct (cl_deadfn _) as [[]|] eqn:Ef; injection E as <- <-.
  - destruct (client_free_section (main_for None None None) ci d Hi Ho) as (? & ? & ?); [|done].
    right. split; [|done]. by destruct (eo_fn _ He Ef).
  - rw same_state. split_and!; try done. apply keeps_client_pid_dead.
  - rw same_state. split_and!; try done. by apply keeps_drop_helper.
  - by rw same_state.
Qed.

Lemma keeps_process_connection ci : keeps (process_connection ci) (main_for (Some ci) None None) (fun _ _ => True).
Proof.
  unfold process_connection. apply keeps_bind, keeps_quiet. intros cl0 cl cl' [= <- <-]. split; [done|].
  apply keeps_bind, keeps_ask. intros [rv h] _. cbv beta iota.
  destruct (rv =? 0); [apply keeps_call_deadfn|]. destruct (bad_header _ _ _); [exact I|].
  apply keeps_bind, keeps_quiet. intros c x c' [= <- <-]. split; [done|].
  destruct (classify (h_cmd h)) eqn:Ec; [apply keeps_call_daemon|..|exact I].
  - apply keeps_bind, keeps_suspend; [done|exact I|].
    apply keeps_process_unregistered. unfold registered_cmd. by rw Ec.
  - apply keeps_bind, keeps_suspend; [done|exact I|].
    apply keeps_process_registered. unfold registered_cmd. by rw Ec.
Qed.

Lemma keeps_call_workfn ci : keeps (call_workfn ci) (main_for (Some ci) None None) (fun _ _ => True).
Proof.
  unfold call_workfn. apply keeps_bind, keeps_quiet. intros cl f cl' [= <- <-]. split; [done|].
  destruct (cl_workfn cl) as [[]|]; [..|exact I].
  - unfold process_listener. apply keeps_bind, keeps_read. intros fd.
    apply keeps_bind, keeps_ask. intros n _. destruct (n <? 0); [exact I|]. apply keeps_bind, keeps_add. done.
  - apply keeps_process_connection.
  - unfold process_helper. apply keeps_bind, keeps_read. intros fd. apply keeps_bind, keeps_ask. intros n _.
    destruct (_ || _); [exact I|]. destruct (_ || _); [by apply keeps_drop_helper|exact I].
Qed.
