(* ===== verification/RecoveryMain.v ===== *)
(** * The check of the lockspaces in the main loop

    A turn of the main loop never dereferences a missing token array or check
    buffer, provided that these were allocated, sends the processes of a lost
    lockspace the signals that its grace period calls for, changes clients only in what it records of the killing, and moves a
    lockspace to [spaces_rem] only when no live process holds a token of it. *)

From S2P Require Import Prelude OnDisk SizeFlags Timeouts Io DeltaLease PaxosBlocks Lockspace HostStatus.
From S2P Require Import LockspaceLists Clients Commands Claims Recovery.

(** ** What happens to the clients *)

(** Only the records of the killing change, in the client and its tokens. *)
Record kill_marks (cl cl' : client) : Prop := Marks {
  mk_control : same_control cl cl';
  mk_slots : cl'.(cl_tokens_slots) = cl.(cl_tokens_slots);
  mk_length : length <$> cl'.(cl_tokens) = length <$> cl.(cl_tokens);
  mk_keys : held_keys cl' = held_keys cl
}.

Lemma kill_marks_refl cl : kill_marks cl cl.
Proof. done. Qed.

Lemma kill_marks_trans cl1 cl2 cl3 : kill_marks cl1 cl2 -> kill_marks cl2 cl3 -> kill_marks cl1 cl3.
Proof. intros [[] ? ? ?] [[] ? ? ?]. constructor; [constructor|..]; congruence. Qed.

Lemma kill_marks_holding cl cl' : kill_marks cl cl' -> holding cl' = holding cl.
Proof. intros [Hc _ _ Hk]. unfold holding, alive. by rw (sc_used _ _ Hc) (sc_pid _ _ Hc) Hk. Qed.

Lemma kill_marks_slots cl cl' : kill_marks cl cl' -> slots_ok cl -> slots_ok cl'.
Proof.
  intros [_ Hs Hl _]. unfold slots_ok. rw Hs.
  destruct (cl_tokens cl), (cl_tokens cl'); cbn in Hl; try done. by injection Hl as ->.
Qed.

Lemma kill_marks_ok ls cl cl' : kill_marks cl cl' -> client_ok ls cl -> client_ok ls cl'.
Proof.
  intros Hm [He Hh]. split; [|by rw (kill_marks_holding _ _ Hm)].
  apply (same_control_entry cl); [apply Hm|apply (kill_marks_slots cl); [done|apply He]| |done].
  intros E. pose proof (mk_length _ _ Hm) as Hl. rw E in Hl. by destruct (cl_tokens cl').
Qed.

(** The whole array. *)
Record steady (ls : lockspaces) (cs cs' : clients) : Prop := Steady {
  st_ok : clients_ok ls cs';
  st_marks : forall i, kill_marks (client_at i cs) (client_at i cs');
  st_maxi : cs'.(client_maxi) = cs.(client_maxi)
}.

Lemma steady_refl ls cs : clients_ok ls cs -> steady ls cs cs.
Proof. done. Qed.

Lemma steady_trans ls cs1 cs2 cs3 : steady ls cs1 cs2 -> steady ls cs2 cs3 -> steady ls cs1 cs3.
Proof.
  intros [_ M1 E1] [O2 M2 E2]. constructor; [done| |congruence]. intros i. by eapply kill_marks_trans.
Qed.

Lemma steady_set ls cs ci cl :
  clients_ok ls cs -> kill_marks (client_at ci cs) cl -> steady ls cs (set_client ci cl cs).
Proof.
  intros Hok Hm. constructor; [|intros i|done].
  - apply clients_ok_set; [done|eapply kill_marks_ok; [done|by apply client_at_ok]|].
    by rw (sc_used _ _ (mk_control _ _ Hm)).
  - destruct (decide (i = ci)) as [->|Hne]; [|by rw client_at_set_ne].
    destruct (client_at_set ci cl cs) as [E|[E _]]; rw E; done.
Qed.

(** ** Using a lockspace *)

Lemma mark_token_keys sp l : token_keys (mark_token sp <$> l) = token_keys l.
Proof.
  induction l as [|[t|] l IH]; [done| |exact IH].
  change (name_key (if uses_space sp t && nz sp.(sp_space_dead)
                    then t <| tk_space_dead := sp.(sp_space_dead) |> else t).(t_lockspace_name)
          :: token_keys (mark_token sp <$> l) = name_key t.(t_lockspace_name) :: token_keys l).
  rw IH. by destruct (_ && _).
Qed.

Lemma uses_key sp t : uses_space sp t = true <-> name_key t.(t_lockspace_name) = sp_key sp.
Proof. apply strncmp_key. Qed.

Lemma existsb_uses sp l :
  existsb (uses_space sp) (held_tokens l) = false <-> sp_key sp ∉ token_keys l.
Proof.
  rw -not_true_iff_false existsb_exists. unfold token_keys. rw list_elem_of_fmap.
  split; intros H; contradict H.
  - destruct H as (t & Ht & Hin). exists t. split; [by apply list_elem_of_In|]. by apply uses_key.
  - destruct H as (t & Hin & Ht%uses_key). exists t. split; [done|]. by apply list_elem_of_In.
Qed.

Lemma using_space_spec cl sp :
  slots_ok cl -> exists b cl', client_using_space cl sp = Some (b, cl') /\ kill_marks cl cl' /\
    (b = false <-> sp_key sp ∉ held_keys cl).
Proof.
  intros Hs. unfold client_using_space. rw (token_slots_ok cl Hs). cbn [mbind option_bind].
  do 2 eexists. split_and!; [done|..].
  - destruct (cl_tokens cl) as [l|] eqn:Et; cbn [default]; unfold id.
    + constructor; [done..|cbn; by rw Et drop_all app_nil_r length_fmap|].
      unfold held_keys. cbn. by rw Et drop_all app_nil_r mark_token_keys.
    + constructor; [done..|cbn; by rw Et|]. unfold held_keys. cbn. by rw Et.
  - rw held_default. apply existsb_uses.
Qed.

(** ** [kill_pids] *)

Lemma kill_check_spec sp now cl :
  slots_ok cl -> exists b cl', kill_check sp now cl = Some (b, cl') /\ kill_marks cl cl'.
Proof.
  intros Hs. unfold kill_check. destruct (using_space_spec cl sp Hs) as (b & cl' & -> & Hm & _).
  cbn. repeat (match goal with |- context [if ?c then Some (false, cl) else _] => destruct c; [by eauto using kill_marks_refl|] end).
  destruct b; cbn; [|by eauto]. do 2 eexists. split; [done|]. destruct Hm as [[] ? ? ?]. by constructor.
Qed.

Lemma close_helper_some ls cs :
  clients_ok ls cs -> cs.(cs_helper).(helper_kill_fd) <> -1 ->
  exists cs', close_helper cs = Some cs' /\ steady ls cs cs'.
Proof.
  intros Hok Hfd. pose proof (co_helper _ _ Hok Hfd) as Hci.
  assert (exists cs', close_helper cs = Some cs') as [cs' E].
  { unfold close_helper. destruct (_ && _) eqn:E; [eauto|]. exfalso. rw (co_pollfd _ _ Hok) in E. apply andb_false_iff in E as [E|E]; zbool; lia. }
  exists cs'. split; [done|]. constructor.
  - by eapply close_helper_ok.
  - intros i. by rw (close_helper_at cs cs' i E).
  - unfold close_helper in E. case_match; [|done]. by injection E as <-.
Qed.

Lemma send_helper_kill_spec ls wr ci sig cs :
  clients_ok ls cs -> exists m cs', send_helper_kill wr ci sig cs = Some (m, cs') /\ steady ls cs cs'.
Proof.
  intros Hok. pose proof (steady_refl ls cs Hok) as Hr. unfold send_helper_kill.
  destruct (_ && _); [by eauto|]. destruct (Z.eqb_spec cs.(cs_helper).(helper_kill_fd) (-1)) as [|Hfd]; [by eauto|].
  destruct wr.
  - destruct (sig =? SIGRUNPATH); [|by eauto]. do 2 eexists. split; [done|]. by apply steady_set.
  - do 2 eexists. split; [done|]. destruct Hok. by constructor; [constructor|..].
  - destruct (close_helper_some ls cs Hok Hfd) as (cs' & -> & Hs). cbn. eauto.
  - destruct (close_helper_some ls cs Hok Hfd) as (cs' & -> & Hs). cbn. eauto.
Qed.

Lemma kill_one_spec com sh sp now last wr ci ls cs :
  clients_ok ls cs -> exists m cs', kill_one com sh sp now last wr ci cs = Some (m, cs') /\ steady ls cs cs'.
Proof.
  intros Hok. unfold kill_one. destruct (kill_check_spec sp now (client_at ci cs)) as (b & cl & -> & Hm).
  { apply (client_at_ok ls cs ci Hok). }
  cbn. pose proof (steady_set ls cs ci cl Hok Hm) as Hs. destruct b; cbn; [|by eauto].
  destruct (send_helper_kill_spec ls wr ci (kill_signal com sh sp now last cl) _ (st_ok _ _ _ Hs)) as (m & cs' & -> & Hs').
  cbn. do 2 eexists. split; [done|]. by eapply steady_trans.
Qed.

Lemma kill_loop_spec com sh sp now last wr cis ls cs :
  clients_ok ls cs -> exists m cs', kill_loop com sh sp now last wr cis cs = Some (m, cs') /\ steady ls cs cs'.
Proof.
  revert cs. induction cis as [|ci cis IH]; intros cs Hok; cbn [kill_loop]; [by eauto using steady_refl|].
  destruct (kill_one_spec com sh sp now last (wr ci) ci ls cs Hok) as (m & cs1 & -> & H1). cbn.
  destruct (IH cs1 (st_ok _ _ _ H1)) as (ms & cs2 & -> & H2). cbn.
  do 2 eexists. split; [done|]. by eapply steady_trans.
Qed.

Lemma kill_pids_spec com sh now wr sp ls cs :
  clients_ok ls cs -> exists m cs', kill_pids com sh now wr sp cs = Some (m, cs') /\ steady ls cs cs'.
Proof.
  intros Hok. unfold kill_pids. destruct (_ <? _); [by eauto using steady_refl|]. by apply kill_loop_spec.
Qed.

(** ** [all_pids_dead] *)

(** No client of [cis] holds a token of the space. *)
Definition unused_by (sp : lspace) (cis : list nat) (cs : clients) : Prop :=
  forall ci, ci ∈ cis -> sp_key sp ∉ holding (client_at ci cs).

Lemma pid_uses ls sp ci cs :
  clients_ok ls cs -> let cl := client_at ci cs in
  exists b cl', (if (cl.(cl_used) =? 0) || (cl.(cl_pid) <=? 0) then Some (false, cl)
                 else client_using_space cl sp) = Some (b, cl') /\ kill_marks cl cl' /\
    (b = false <-> sp_key sp ∉ holding cl).
Proof.
  intros Hok cl. unfold holding, alive. destruct (_ || _) eqn:E.
  - do 2 eexists. split_and!; [done..|].
    assert (negb (cl.(cl_used) =? 0) && (0 <? cl.(cl_pid)) = false) as -> by lia.
    split; [intros _; apply not_elem_of_nil|done].
  - assert (negb (cl.(cl_used) =? 0) && (0 <? cl.(cl_pid)) = true) as -> by lia.
    apply using_space_spec, (client_at_ok ls cs ci Hok).
Qed.

Lemma pids_loop_spec sp cis ls cs :
  clients_ok ls cs -> exists stuck check cs', pids_loop sp cis cs = Some (stuck, check, cs') /\ steady ls cs cs' /\
    0 <= stuck /\ 0 <= check /\ (stuck = 0 /\ check = 0 <-> unused_by sp cis cs).
Proof.
  revert cs. induction cis as [|ci cis IH]; intros cs Hok; cbn [pids_loop].
  { do 3 eexists. split_and!; [done|by apply steady_refl|lia..|]. split; [|done].
    intros _ ci Hci. by apply elem_of_nil in Hci. }
  destruct (pid_uses ls sp ci cs Hok) as (b & cl' & -> & Hm & Hb).
  cbn. pose proof (steady_set ls cs ci cl' Hok Hm) as Hs.
  destruct (IH _ (st_ok _ _ _ Hs)) as (stuck & check & cs' & -> & Hs' & H1 & H2 & Hu). cbn.
  do 3 eexists. split_and!; [done|by eapply steady_trans|cases; lia..|].
  set (cl := client_at ci cs) in *. set (killed := _ <=? _).
  transitivity (b = false /\ stuck = 0 /\ check = 0).
  { destruct b, killed; cbn; split; intros; destruct_and?; split_and?; try done; lia. }
  rw Hb Hu. unfold unused_by. split.
  - intros [H H'] i [->|Hin]%elem_of_cons; [done|].
    rw -(kill_marks_holding _ _ (st_marks _ _ _ Hs i)). by apply H'.
  - intros H. split; [apply H, list_elem_of_here|]. intros i Hi.
    rw (kill_marks_holding _ _ (st_marks _ _ _ Hs i)). apply H. by apply list_elem_of_further.
Qed.

(** A client that lives is at an index that the loops cover. *)
Lemma used_index ls cs i : clients_ok ls cs -> (client_at i cs).(cl_used) <> 0 -> i ∈ client_indices cs.
Proof.
  intros Hok E. unfold client_indices. apply elem_of_seq. pose proof (co_maxi _ _ Hok).
  destruct (Z.lt_ge_cases cs.(client_maxi) (Z.of_nat i)) as [Hlt|Hge]; [|lia].
  exfalso. apply E. eapply (co_used _ _ Hok); [by apply used_lookup|done].
Qed.

Lemma unused_all ls sp cs :
  clients_ok ls cs -> unused_by sp (client_indices cs) cs -> forall i, sp_key sp ∉ holding (client_at i cs).
Proof.
  intros Hok Hu i. destruct (Z.eq_dec (client_at i cs).(cl_used) 0) as [E|E].
  - unfold holding, alive. rw E. apply not_elem_of_nil.
  - apply Hu. by eapply used_index.
Qed.

Lemma all_pids_dead_spec n sp ls cs :
  clients_ok ls cs -> sp.(sp_killing_pids) <> 0 ->
  exists dead sp' cs', all_pids_dead n sp cs = Some (dead, sp', cs') /\ steady ls cs cs' /\ same_ident sp sp' /\
    sp'.(sp_killing_pids) <> 0 /\ (dead = true -> forall i, sp_key sp ∉ holding (client_at i cs)).
Proof.
  intros Hok Hk. unfold all_pids_dead.
  destruct (pids_loop_spec sp (client_indices cs) ls cs Hok) as (stuck & check & cs' & -> & Hs & H1 & H2 & Hu).
  cbn [mbind option_bind].
  set (sp1 := if _ : bool then sp <| sp_killing_pids := 2 |> else sp).
  assert (same_ident sp sp1 /\ sp1.(sp_killing_pids) <> 0) as [Hid Hk1].
  { unfold sp1. destruct (_ && _); [|by auto with sanlock]. split; [|done].
    constructor; try done. intros [? ? ? Hd]. constructor; try done. intros _. by apply Hd. }
  assert (same_ident sp1 (sp1 <| sp_used_retries := u32 (sp1.(sp_used_retries) + 1) |>)) as Hre by same_fields.
  pose proof (same_ident_trans _ _ _ Hid Hre) as Hre'.
  unfold nz. destruct (Z.eqb_spec stuck 0), (Z.eqb_spec check 0); cbn [negb orb];
    [|do 3 eexists; by split_and!..].
  destruct (has_flag _ SP_EXTERNAL_USED); [do 3 eexists; by split_and!|].
  destruct (has_flag _ SP_USED_BY_ORPHANS && _); [do 3 eexists; by split_and!|].
  do 3 eexists. split_and!; try done. intros _. eapply unused_all; [done|]. by apply Hu.
Qed.

(** ** One lockspace *)

Definition unused (sp : lspace) (cs : clients) : Prop := forall i, sp_key sp ∉ holding (client_at i cs).

Lemma check_space_spec com ps sh sp ls cs :
  clients_ok ls cs -> ps.(ps_have_buf) = true ->
  exists v sp' m cs', check_space com ps sh sp cs = Some (v, sp', m, cs') /\ steady ls cs cs' /\
    match v with Kept => same_ident sp sp' | Stopped => moved sp sp' /\ unused sp cs end.
Proof.
  intros Hok Hbuf. unfold check_space.
  destruct (Z.eqb_spec sp.(sp_killing_pids) 0) as [E0|Hk].
  2:{ destruct (all_pids_dead_spec (ps_orphans ps sp.(sp_space_name)) sp ls cs Hok Hk)
        as (dead & sp1 & cs1 & -> & Hs & Hid & Hk1 & Hu). cbn [mbind option_bind].
      destruct dead.
      - do 4 eexists. split; [done|]. split; [done|].
        split; [eapply moved_trans; [by apply same_moved|apply moved_stop]|exact (Hu eq_refl)].
      - unfold nz. destruct (Z.eqb_spec sp1.(sp_killing_pids) 0); [done|]. cbn [negb].
        destruct (kill_pids_spec com sh ps.(ps_now) ps.(ps_wr) sp1 ls cs1 (st_ok _ _ _ Hs)) as (m & cs2 & -> & Hs2).
        cbn. do 4 eexists. split_and!; [done|by eapply steady_trans|done]. }
  cbn [mbind option_bind]. unfold nz at 1. rw E0. cbn [Z.eqb negb].
  pose proof (check_our_lease_same ps.(ps_now) ps.(ps_have_buf) sp) as Hid.
  destruct (check_our_lease _ _ _) as [[[rv check_all] buf] sp1]. cbn [snd] in Hid.
  set (sp2 := if nz rv then sp1 <| sp_renew_fail := 1 |> else sp1).
  assert (same_ident sp sp2) as Hid2.
  { eapply same_ident_trans; [exact Hid|]. unfold sp2. destruct (nz rv); [same_fields|auto with sanlock]. }
  destruct (_ || _).
  - set (sp3 := sp2 <| sp_space_dead := 1 |> <| sp_killing_pids := 1 |>).
    destruct (kill_pids_spec com sh ps.(ps_now) ps.(ps_wr) sp3 ls cs Hok) as (m & cs' & -> & Hs).
    cbn [mbind option_bind]. do 4 eexists. split_and!; [done..|].
    eapply same_ident_trans; [exact Hid2|]. constructor; try done. intros []. by constructor.
  - destruct check_all; [rw Hbuf|]; do 4 eexists; (split_and!; [done|by apply steady_refl|]); [|done].
    eapply same_ident_trans; [exact Hid2|apply check_other_leases_same].
Qed.

(** ** All lockspaces *)

Lemma steady_unused ls sp cs cs' : steady ls cs cs' -> unused sp cs <-> unused sp cs'.
Proof.
  intros Hs. unfold unused. split; intros H i; [rw (kill_marks_holding _ _ (st_marks _ _ _ Hs i))|
    rw -(kill_marks_holding _ _ (st_marks _ _ _ Hs i))]; apply H.
Qed.

Lemma check_spaces_spec com ps sh l ls cs :
  clients_ok ls cs -> ps.(ps_have_buf) = true ->
  Forall (fun sp => sp.(sp_thread_stop) = 0) l ->
  exists keep stop m cs' l', check_spaces com ps sh l cs = Some (keep, stop, m, cs') /\ steady ls cs cs' /\
    Forall2 moved l l' /\ l' ≡ₚ keep ++ stop /\ Forall (fun sp => sp.(sp_thread_stop) = 0) keep /\
    Forall (fun sp => sp_key sp ∈ sp_key <$> keep \/ unused sp cs) l.
Proof.
  revert cs. induction l as [|sp l IH]; intros cs Hok Hbuf Hst; cbn [check_spaces].
  { exists [], [], [], cs, []. split_and!; try done. }
  apply list.Forall_cons in Hst as [Hst0 Hst].
  destruct (check_space_spec com ps sh sp ls cs Hok Hbuf) as (v & sp' & m & cs1 & -> & Hs1 & Hv).
  cbn [mbind option_bind]. destruct (IH cs1 (st_ok _ _ _ Hs1) Hbuf Hst) as (keep & stop & ms & cs2 & l' & -> & Hs2 & Hm & Hp & Hk & Hu).
  cbn. assert (Forall (fun x => sp_key x ∈ sp_key <$> keep \/ unused x cs) l) as Hu'.
  { eapply list.Forall_impl; [exact Hu|]. intros x [|H]; [by left|right]. by apply (steady_unused ls _ cs cs1 Hs1). }
  pose proof (steady_trans _ _ _ _ Hs1 Hs2) as Hs. destruct v.
  - destruct Hv as [Hmv Hun]. exists keep, (stop ++ [sp']), (m ++ ms), cs2, (sp' :: l').
    split_and!; [done..|by constructor| |done|constructor; [by right|done]].
    rw Hp app_assoc. apply Permutation_cons_append.
  - exists (sp' :: keep), stop, (m ++ ms), cs2, (sp' :: l').
    split_and!; [done..|constructor; [by apply same_moved|done]|by rw Hp| |].
    + constructor; [by rw (si_stop _ _ Hv)|done].
    + constructor.
      * left. csimpl. rw (si_key _ _ Hv). apply list_elem_of_here.
      * eapply list.Forall_impl; [exact Hu'|]. intros x [H|H]; [left|by right]. by apply list_elem_of_further.
Qed.

(** The names that are held stay in use. *)
Lemma spaces_left ls l keep cs :
  clients_ok ls cs -> ls.(spaces) = l ->
  Forall (fun sp => sp_key sp ∈ sp_key <$> keep \/ unused sp cs) l ->
  forall ls', ls'.(spaces) = keep -> clients_ok ls' cs.
Proof.
  intros [C1 C2 C3 C4 C5 C6] <- Hu ls' Hk. constructor; try done.
  apply list.Forall_forall. intros cl Hcl. rw list.Forall_forall in C1. destruct (C1 cl Hcl) as [He Hh].
  split; [done|]. apply list.Forall_forall. intros k Hkin. rw list.Forall_forall in Hh.
  destruct (proj1 (list_elem_of_fmap _ _ _) (Hh k Hkin)) as (sp & -> & Hsp).
  rw list.Forall_forall in Hu. unfold in_spaces. rw Hk. destruct (Hu sp Hsp) as [|H]; [done|].
  apply list_elem_of_lookup in Hcl as [i Hi]. destruct (H i). by rw (client_at_lookup _ _ _ Hi).
Qed.

(** ** The lists *)

Lemma free_loop_spec join l :
  exists l' k, Forall2 moved l l' /\ l' ≡ₚ free_lockspaces_loop join l ++ k.
Proof.
  induction l as [|sp l (l' & k & Hm & Hp)]; cbn [free_lockspaces_loop]; [by exists [], []|].
  assert (moved sp (snd (stop_lockspace_thread (join sp.(sp_list)) sp))) as Hsp.
  { unfold stop_lockspace_thread. cases; cbn [snd]; auto using moved_stop, same_moved, same_ident_refl. }
  destruct (stop_lockspace_thread _ _) as [rv sp']. cbn [snd] in Hsp. destruct (rv =? 0).
  - exists (sp' :: l'), (sp' :: k). split; [by constructor|]. rw Hp. apply Permutation_middle.
  - exists (sp' :: l'), k. split; [by constructor|]. by rw Hp.
Qed.

Lemma free_lockspaces_ok join ls : lists_ok ls -> lists_ok (free_lockspaces join ls).
Proof.
  intros Hok. destruct (free_loop_spec join ls.(spaces_rem)) as (l' & k & Hm & Hp).
  eapply (lists_ok_moved ls _ (ls.(spaces) ++ ls.(spaces_add) ++ l') k); [done| | |apply Hok].
  - unfold all_spaces. repeat apply Forall2_app; [apply Forall2_refl; auto with sanlock..|done].
  - unfold all_spaces. cbn. by rw Hp !app_assoc.
Qed.

Lemma main_check_spec com ps ls cs :
  lists_ok ls -> clients_ok ls cs -> ps.(ps_have_buf) = true ->
  exists ms ls' cs', main_check com ps ls cs = Some (ms, ls', cs') /\ lists_ok ls' /\ clients_ok ls' cs' /\
    (forall i, kill_marks (client_at i cs) (client_at i cs')) /\ ls'.(spaces_add) = ls.(spaces_add).
Proof.
  intros Hl Hc Hb. unfold main_check.
  destruct (check_spaces_spec com ps ls.(external_shutdown) ls.(spaces) ls cs Hc Hb (lo_stop _ Hl))
    as (keep & stop & ms & cs' & l' & -> & Hs & Hmv & Hp & Hst & Hu).
  pose proof Hs as [Hok Hm _].
  cbn [mbind option_bind]. do 3 eexists. split; [done|]. split; [|split; [|done]].
  - eapply (lists_ok_moved ls _ (l' ++ ls.(spaces_add) ++ ls.(spaces_rem)) []); [done| | |done].
    + unfold all_spaces. repeat apply Forall2_app; [done|apply Forall2_refl; auto with sanlock..].
    + unfold all_spaces. cbn. rw Hp app_nil_r -!app_assoc. f_equiv.
      rw !app_assoc. f_equiv. apply Permutation_app_comm.
  - apply (spaces_left ls ls.(spaces) keep); [done..| |done].
    eapply list.Forall_impl; [exact Hu|]. intros sp [H|H]; [by left|right].
    by apply (steady_unused ls sp cs cs' Hs).
Qed.

(** ** A turn of the main loop *)

Lemma kill_marks_claims (cl cl' : client) : kill_marks cl cl' -> claims_kept cl cl'.
Proof. intros []. by apply same_control_claims. Qed.

Lemma own_ok_turn r d ls' cs' :
  (forall i, kill_marks (client_at i d.(d_clients)) (client_at i cs')) ->
  ls'.(spaces_add) = d.(d_spaces).(spaces_add) ->
  own_ok r d -> own_ok r (d <| d_spaces := ls' |> <| d_clients := cs' |>).
Proof.
  intros Hm Ha [H1 H2 H3 H4 H5 H6].
  pose proof (fun i => kill_marks_claims _ _ (Hm i)) as Hk.
  constructor; cbn; try done.
  - unfold space_claim, adding, on_add in *. by rw Ha.
  - destruct (o_susp r); [by apply Hk|done].
  - destruct (o_cmd r); [by apply Hk|done].
  - destruct (o_dead r); [by apply Hk|done].
  - destruct (o_main r); [by apply Hk|done].
Qed.

Lemma main_turn_spec com ps d :
  inv d -> ps.(ps_have_buf) = true ->
  exists stop ms ls' cs', main_turn com ps d.(d_spaces) d.(d_clients) = Some (stop, ms, ls', cs') /\
    inv (d <| d_spaces := ls' |> <| d_clients := cs' |>) /\
    forall r, own_ok r d -> own_ok r (d <| d_spaces := ls' |> <| d_clients := cs' |>).
Proof.
  intros [Hl Hc] Hb. unfold main_turn.
  destruct (main_check_spec com ps _ _ Hl Hc Hb) as (ms & ls & cs & -> & Hl' & Hc' & Hm & Ha).
  cbn [mbind option_bind]. destruct (_ && _).
  { do 4 eexists. split_and!; [done..|]. intros r. by apply own_ok_turn. }
  set (ls1 := if _ : bool then _ else _).
  assert (lists_ok ls1 /\ ls1.(spaces) = ls.(spaces) /\ ls1.(spaces_add) = ls.(spaces_add)) as (Hl1 & Es & Ea).
  { unfold ls1. destruct (_ =? _); [|done]. split_and!; [|done..]. by destruct Hl'. }
  do 4 eexists. split_and!; [done|..].
  - split; cbn; [by apply free_lockspaces_ok|]. apply (clients_ok_spaces ls); [|done].
    unfold free_lockspaces. cbn. by rw Es.
  - intros r. apply own_ok_turn; [done|]. by rw /free_lockspaces /= Ea.
Qed.

(** ** What is sent to the processes *)

Definition tokens_of (cl : client) : list rtoken := held_tokens (default [] cl.(cl_tokens)).

(** A process that has to be killed: it lives, holds a token of the lockspace, has
    been killed less than [kill_count_max] times and not in the last second. *)
Definition must_kill (sp : lspace) (now : Z) (cl : client) : bool :=
  alive cl && (cl.(cl_kill_count) <? kill_count_max) &&
  ((cl.(cl_kill_count) =? 0) || (1 <=? u64 (now - cl.(cl_kill_last)))) && existsb (uses_space sp) (tokens_of cl).

(** The message for it; the killpath is run once only. *)
Definition kill_message (com : command_line) (external_shutdown : Z) (sp : lspace) (now last_success : Z) (cl : client)
    : list helper_msg :=
  let sig := kill_signal com external_shutdown sp now last_success cl in
  if must_kill sp now cl && negb (has_flag cl.(cl_flags) CL_RUNPATH_SENT && (sig =? SIGRUNPATH))
  then [kill_msg cl sig] else [].

(** Its record afterwards: the kill is counted, and its tokens of the lockspace are
    dead. *)
Definition kill_recorded (sp : lspace) (now : Z) (cl cl' : client) : Prop :=
  if must_kill sp now cl
  then cl'.(cl_kill_count) = cl.(cl_kill_count) + 1 /\ cl'.(cl_kill_last) = now /\
       Forall (fun t => uses_space sp t = true -> t.(tk_space_dead) = sp.(sp_space_dead)) (tokens_of cl')
  else cl'.(cl_kill_count) = cl.(cl_kill_count) /\ cl'.(cl_kill_last) = cl.(cl_kill_last).

Lemma mark_token_uses sp t : uses_space sp (if uses_space sp t && nz sp.(sp_space_dead)
  then t <| tk_space_dead := sp.(sp_space_dead) |> else t) = uses_space sp t.
Proof. by destruct (_ && _). Qed.

Lemma mark_token_dead sp l :
  sp.(sp_space_dead) <> 0 ->
  Forall (fun t => uses_space sp t = true -> t.(tk_space_dead) = sp.(sp_space_dead)) (held_tokens (mark_token sp <$> l)).
Proof.
  intros Hd. induction l as [|[t|] l IH]; [constructor| |exact IH]. unfold held_tokens. csimpl.
  apply list.Forall_cons. split; [|exact IH]. cbn [mark_token]. rw mark_token_uses. intros Hu. rw Hu.
  unfold nz. by destruct (Z.eqb_spec sp.(sp_space_dead) 0).
Qed.

Lemma using_space_eq cl sp :
  slots_ok cl -> exists cl', client_using_space cl sp = Some (existsb (uses_space sp) (tokens_of cl), cl') /\
    cl' = cl <| cl_tokens := cl'.(cl_tokens) |> /\
    (sp.(sp_space_dead) <> 0 ->
     Forall (fun t => uses_space sp t = true -> t.(tk_space_dead) = sp.(sp_space_dead)) (tokens_of cl')).
Proof.
  intros Hs. unfold client_using_space. rw (token_slots_ok cl Hs). cbn [mbind option_bind].
  eexists. split; [done|]. split; [done|]. intros Hd. unfold tokens_of. cbn.
  destruct (cl_tokens cl) as [l|]; cbn; [|constructor]. rw drop_all app_nil_r. by apply mark_token_dead.
Qed.

(** [kill_check] finds those processes. *)
Lemma kill_check_eq sp now cl :
  slots_ok cl -> sp.(sp_space_dead) <> 0 ->
  exists cl', kill_check sp now cl = Some (must_kill sp now cl, cl') /\ kill_recorded sp now cl cl' /\
    cl'.(cl_used) = cl.(cl_used) /\ cl'.(cl_flags) = cl.(cl_flags) /\ cl'.(cl_restricted) = cl.(cl_restricted) /\ cl'.(cl_pid) = cl.(cl_pid) /\
    cl'.(cl_killpath) = cl.(cl_killpath) /\ cl'.(cl_killargs) = cl.(cl_killargs).
Proof.
  intros Hs Hd. unfold kill_check, kill_recorded, must_kill, alive.
  destruct (using_space_eq cl sp Hs) as (cl' & -> & E & Hm). specialize (Hm Hd).
  destruct (Z.eqb_spec cl.(cl_used) 0); [by eexists|]. destruct (Z.leb_spec cl.(cl_pid) 0) as [Hp|Hp].
  { rw (proj2 (Z.ltb_ge 0 _) Hp) /=. by eexists. }
  rw (proj2 (Z.ltb_lt 0 _) Hp). cbn [negb andb].
  destruct (Z.leb_spec kill_count_max cl.(cl_kill_count)) as [Hk|Hk].
  { rw (proj2 (Z.ltb_ge _ _) Hk) /=. by eexists. }
  rw (proj2 (Z.ltb_lt _ _) Hk). cbn [andb]. unfold nz.
  assert (negb (cl.(cl_kill_count) =? 0) && (u64 (now - cl.(cl_kill_last)) <? 1) =
    negb ((cl.(cl_kill_count) =? 0) || (1 <=? u64 (now - cl.(cl_kill_last))))) as ->.
  { destruct (_ =? 0); [done|]. cbn. apply Z.ltb_antisym. }
  destruct (_ || _); cbn [negb andb mbind option_bind]; [|by eexists].
  destruct (existsb _ _); cbn [negb]; eexists; (split; [done|]); rw E; done.
Qed.

(** A helper that takes its messages gets one, unless the killpath has been sent
    before; only the flags of the client change. *)
Lemma send_helper_kill_eq ci sig cs :
  cs.(cs_helper).(helper_kill_fd) <> -1 -> alive (client_at ci cs) = true ->
  exists cs' f, send_helper_kill WriteOk ci sig cs =
      Some (if has_flag (client_at ci cs).(cl_flags) CL_RUNPATH_SENT && (sig =? SIGRUNPATH) then None
            else Some (kill_msg (client_at ci cs) sig), cs') /\
    cs'.(cs_helper) = cs.(cs_helper) /\ (forall i, i <> ci -> client_at i cs' = client_at i cs) /\
    client_at ci cs' = (client_at ci cs) <| cl_flags := f |>.
Proof.
  intros Hh Ha. set (cl := client_at ci cs) in *. unfold send_helper_kill. fold cl.
  assert (cl = cl <| cl_flags := cl.(cl_flags) |>) as Hcl by by destruct cl.
  destruct (_ && _); [by exists cs, cl.(cl_flags)|].
  rw (proj2 (Z.eqb_neq _ _) Hh). destruct (sig =? SIGRUNPATH); [|by exists cs, cl.(cl_flags)].
  do 2 eexists. split_and!; [done|done|intros i Hi; by apply client_at_set_ne|].
  destruct (client_at_set ci (cl <| cl_flags := Z.lor cl.(cl_flags) CL_RUNPATH_SENT |>) cs) as [E|[_ E]]; [exact E|].
  fold cl in E. by rw E in Ha.
Qed.

Lemma kill_recorded_flags sp now cl cl' f :
  kill_recorded sp now cl cl' -> kill_recorded sp now cl (cl' <| cl_flags := f |>).
Proof. done. Qed.

(** A turn of [kill_pids] with such a helper. *)
Lemma kill_one_eq com sh sp now last ci ls cs :
  clients_ok ls cs -> sp.(sp_space_dead) <> 0 -> cs.(cs_helper).(helper_kill_fd) <> -1 ->
  exists cs', kill_one com sh sp now last WriteOk ci cs =
      Some (kill_message com sh sp now last (client_at ci cs), cs') /\
    cs'.(cs_helper) = cs.(cs_helper) /\ (forall i, i <> ci -> client_at i cs' = client_at i cs) /\
    kill_recorded sp now (client_at ci cs) (client_at ci cs').
Proof.
  intros Hok Hd Hh. unfold kill_one, kill_message. set (cl := client_at ci cs).
  destruct (kill_check_eq sp now cl) as (cl' & -> & Hr & Ea & Ef & Er & Ep & Ekp & Eka); [apply (client_at_ok ls cs ci Hok)|done|].
  cbn [mbind option_bind]. set (cs1 := set_client ci cl' cs).
  assert (forall i, i <> ci -> client_at i cs1 = client_at i cs) as Hne by (intros; by apply client_at_set_ne).
  destruct (must_kill sp now cl) eqn:Em; cbn [negb andb].
  2:{ exists cs1. split_and!; try done. destruct (client_at_set ci cl' cs) as [E|[E E0]]; [by rw E|].
      rw E. fold cl. unfold cl. by rw E0. }
  assert (alive cl = true) as Hal by (unfold must_kill in Em; by zbool).
  assert (client_at ci cs1 = cl') as Eat.
  { destruct (client_at_set ci cl' cs) as [|[E E0]]; [done|]. unfold cl in Hal. by rw E0 in Hal. }
  destruct (send_helper_kill_eq ci (kill_signal com sh sp now last cl') cs1 Hh) as (cs' & f & -> & Eh & Hi & Eci).
  { unfold alive. by rw Eat Ea Ep. }
  rw Eat Ef.
  assert (kill_signal com sh sp now last cl' = kill_signal com sh sp now last cl) as ->
    by (unfold kill_signal; by rw Er Ekp).
  assert (kill_msg cl' (kill_signal com sh sp now last cl) = kill_msg cl (kill_signal com sh sp now last cl)) as ->
    by (unfold kill_msg; by rw Ekp Eka Ef Ep).
  exists cs'. cbn [mbind option_bind]. split_and!.
  - by destruct (_ && _).
  - by rw Eh.
  - intros i Hn. rw Hi; [done|]. by apply Hne.
  - rw Eci Eat. by apply kill_recorded_flags.
Qed.

(** The loop, over indices that are all different. *)
Lemma kill_loop_eq com sh sp now last wr cis ls cs :
  clients_ok ls cs -> sp.(sp_space_dead) <> 0 -> cs.(cs_helper).(helper_kill_fd) <> -1 ->
  (forall ci, wr ci = WriteOk) -> NoDup cis ->
  exists cs', kill_loop com sh sp now last wr cis cs =
      Some (cis ≫= (fun ci => kill_message com sh sp now last (client_at ci cs)), cs') /\
    (forall i, i ∉ cis -> client_at i cs' = client_at i cs) /\
    (forall i, i ∈ cis -> kill_recorded sp now (client_at i cs) (client_at i cs')).
Proof.
  intros Hok Hd Hh Hwr. revert cs Hok Hh. induction cis as [|ci cis IH]; intros cs Hok Hh Hnd; cbn [kill_loop].
  { exists cs. split_and!; [done..|]. intros i Hi. by apply elem_of_nil in Hi. }
  apply list.NoDup_cons in Hnd as [Hnin Hnd]. rw Hwr.
  destruct (kill_one_eq com sh sp now last ci ls cs Hok Hd Hh) as (cs1 & E1 & Eh & Hne & Hr).
  destruct (kill_one_spec com sh sp now last WriteOk ci ls cs Hok) as (m & cs1' & E1' & Hst).
  rewrite -> E1 in E1'. injection E1' as <- <-. rewrite -> E1. cbn [mbind option_bind].
  destruct (IH cs1 (st_ok _ _ _ Hst)) as (cs' & -> & Hout & Hin); [by rw Eh|done|]. cbn [mbind option_bind].
  exists cs'. split_and!.
  - csimpl. f_equal. f_equal. f_equal. apply Forall_bind_ext.
    apply list.Forall_forall. intros i Hi. rw Hne; [by intros ->|done].
  - intros i [Hi1 Hi2]%not_elem_of_cons. rw Hout; [done|]. by apply Hne.
  - intros i [->|Hi]%elem_of_cons; [by rw Hout|].
    rw -(Hne i); [by intros ->|]. by apply Hin.
Qed.

(** ** Losing a lockspace *)

(** The renewals are too old or failed, the lockspace is removed, or the daemon is
    shut down by force. *)
Definition must_stop (ps : pass) (external_shutdown : Z) (sp : lspace) : bool :=
  let '(rv, _, _, sp) := check_our_lease ps.(ps_now) ps.(ps_have_buf) sp in
  nz rv || nz sp.(sp_external_remove) || (1 <? external_shutdown).

Definition dead_space (ps : pass) (sp : lspace) : lspace :=
  let '(rv, _, _, sp) := check_our_lease ps.(ps_now) ps.(ps_have_buf) sp in
  (if nz rv then sp <| sp_renew_fail := 1 |> else sp) <| sp_space_dead := 1 |> <| sp_killing_pids := 1 |>.

(** The last renewal that the grace period counts from. *)
Definition last_renewal (sp : lspace) : Z := sp.(sp_lease_status).(lst_renewal_last_success).

Lemma check_space_kills com ps sh sp ls cs :
  clients_ok ls cs -> cs.(cs_helper).(helper_kill_fd) <> -1 -> (forall ci, ps.(ps_wr) ci = WriteOk) ->
  sp.(sp_killing_pids) = 0 -> must_stop ps sh sp = true ->
  exists cs', check_space com ps sh sp cs =
      Some (Kept, dead_space ps sp,
            client_indices cs ≫= (fun ci => kill_message com sh (dead_space ps sp) ps.(ps_now)
                                             (last_renewal (dead_space ps sp)) (client_at ci cs)), cs') /\
    forall i, kill_recorded (dead_space ps sp) ps.(ps_now) (client_at i cs) (client_at i cs').
Proof.
  intros Hok Hh Hwr Hk Hs. unfold check_space. rw Hk. cbn [Z.eqb mbind option_bind]. rw Hk. cbn [nz Z.eqb negb].
  unfold must_stop, dead_space in *. destruct (check_our_lease _ _ _) as [[[rv check_all] buf] sp1].
  set (sp2 := if nz rv then _ else _).
  assert (nz rv || nz sp2.(sp_external_remove) || (1 <? sh) = true) as ->.
  { rw -Hs. unfold sp2. by destruct (nz rv). }
  cbn [Z.eqb negb]. set (sp3 := sp2 <| sp_space_dead := 1 |> <| sp_killing_pids := 1 |>).
  destruct (kill_loop_eq com sh sp3 ps.(ps_now) (last_renewal sp3) ps.(ps_wr) (client_indices cs) ls cs)
    as (cs' & E & Hout & Hin); try done; [apply NoDup_seq|].
  assert (kill_pids com sh ps.(ps_now) ps.(ps_wr) sp3 cs =
    Some (client_indices cs ≫= (fun ci => kill_message com sh sp3 ps.(ps_now) (last_renewal sp3) (client_at ci cs)), cs'))
    as -> by exact E.
  cbn [mbind option_bind]. exists cs'. split; [done|]. intros i. destruct (decide (i ∈ client_indices cs)) as [Hi|Hi]; [by apply Hin|].
  rw (Hout i Hi). unfold kill_recorded, must_kill. assert (alive (client_at i cs) = false) as ->; [|done].
  unfold alive. destruct (Z.eqb_spec (client_at i cs).(cl_used) 0) as [|Hu]; [done|]. exfalso. apply Hi.
  by eapply used_index.
Qed.

(** *** The signals *)

(** The host id was found corrupt, or its last renewal is eight io timeouts old
    (a difference of [uint64_t] in an [int]). *)
Definition lease_lost (now : Z) (sp : lspace) : Prop :=
  sp.(sp_lease_status).(lst_corrupt_result) <> 0 \/
  i32 (8 * sp.(sp_io_timeout)) <= i32 (u64 (now - sp.(sp_lease_status).(lst_renewal_last_success))).

(** The lockspace is removed, or the daemon is shut down by force. *)
Definition forced (external_shutdown : Z) (sp : lspace) : Prop :=
  sp.(sp_external_remove) <> 0 \/ 1 < external_shutdown.

(** Eight io timeouts and the grace seconds after the last renewal are not over. *)
Definition graceful (com : command_line) (now : Z) (sp : lspace) : Prop :=
  now < u64 (sp.(sp_lease_status).(lst_renewal_last_success) + i32 (8 * sp.(sp_io_timeout)) +
             com.(com_kill_grace_seconds)).

(** The process has named a program that is to be run instead of a signal. *)
Definition has_killpath (com : command_line) (cl : client) : Prop :=
  0 < com.(com_kill_grace_seconds) /\ nth 0 cl.(cl_killpath) 0 <> 0.

(** What the helper is told of a process: its program once, within the grace
    period; else SIGTERM (15) within it and SIGKILL (9) after it or when forced, in
    place of which a process may be restricted to the other one. *)
Inductive kill_sent (com : command_line) (sh now : Z) (sp : lspace) (cl : client) : list helper_msg -> Prop :=
  | sent_nothing : must_kill sp now cl = false -> kill_sent com sh now sp cl []
  | sent_path_before :
      must_kill sp now cl = true -> ~ forced sh sp -> graceful com now sp -> has_killpath com cl ->
      has_flag cl.(cl_flags) CL_RUNPATH_SENT = true -> kill_sent com sh now sp cl []
  | sent_path :
      must_kill sp now cl = true -> ~ forced sh sp -> graceful com now sp -> has_killpath com cl ->
      has_flag cl.(cl_flags) CL_RUNPATH_SENT = false ->
      kill_sent com sh now sp cl [MsgRunpath cl.(cl_killpath) cl.(cl_killargs)
        (if has_flag cl.(cl_flags) CL_KILLPATH_PID then cl.(cl_pid) else 0)]
  | sent_term :
      must_kill sp now cl = true -> ~ forced sh sp -> graceful com now sp -> ~ has_killpath com cl ->
      kill_sent com sh now sp cl
        [MsgKillpid cl.(cl_pid) (if has_flag cl.(cl_restricted) SANLK_RESTRICT_SIGTERM then 9 else 15)]
  | sent_kill :
      must_kill sp now cl = true -> forced sh sp \/ ~ graceful com now sp ->
      kill_sent com sh now sp cl
        [MsgKillpid cl.(cl_pid) (if has_flag cl.(cl_restricted) SANLK_RESTRICT_SIGKILL &&
                                    negb (has_flag cl.(cl_restricted) SANLK_RESTRICT_SIGTERM) then 15 else 9)].

Lemma must_stop_iff ps sh sp : must_stop ps sh sp = true <-> lease_lost ps.(ps_now) sp \/ forced sh sp.
Proof.
  unfold must_stop, check_our_lease, lease_lost, forced, calc_id_renewal_fail_seconds, nz. cbv zeta.
  set (b := _ <? _). destruct sp.(sp_lease_status) eqn:El. destruct b; cbn; rw ?El; cbn;
    destruct (Z.eqb_spec lst_corrupt_result 0); cbn; try (destruct (Z.leb_spec (i32 (8 * sp_io_timeout sp)) (i32 (u64 (ps_now ps - lst_renewal_last_success)))); cbn);
    destruct (Z.eqb_spec (sp_external_remove sp) 0), (Z.ltb_spec 1 sh); cbn; intuition lia.
Qed.

(** Only the mark of what has been checked, and the state of the recovery, change. *)
Lemma dead_space_fields ps sp :
  let sp' := dead_space ps sp in
  sp'.(sp_space_dead) = 1 /\ sp'.(sp_killing_pids) = 1 /\ sp'.(sp_space_name) = sp.(sp_space_name) /\
  sp'.(sp_external_remove) = sp.(sp_external_remove) /\ sp'.(sp_io_timeout) = sp.(sp_io_timeout) /\
  last_renewal sp' = last_renewal sp /\ (lease_lost ps.(ps_now) sp -> sp'.(sp_renew_fail) = 1).
Proof.
  unfold dead_space, check_our_lease, lease_lost, calc_id_renewal_fail_seconds, last_renewal, nz. cbv zeta.
  destruct (_ <? _); cbn; (destruct (Z.eqb_spec (lst_corrupt_result (sp_lease_status sp)) 0); cbn;
    [destruct (Z.leb_spec (i32 (8 * sp_io_timeout sp)) (i32 (u64 (ps_now ps - lst_renewal_last_success (sp_lease_status sp))))); cbn|]);
    split_and!; try done; intros [?|?]; lia || done.
Qed.

Lemma must_kill_ext sp sp' now cl : sp'.(sp_space_name) = sp.(sp_space_name) -> must_kill sp' now cl = must_kill sp now cl.
Proof. intros E. unfold must_kill, uses_space. by rw E. Qed.

Lemma kill_message_sent com sh now sp sp' cl :
  sp'.(sp_space_name) = sp.(sp_space_name) -> sp'.(sp_external_remove) = sp.(sp_external_remove) ->
  sp'.(sp_io_timeout) = sp.(sp_io_timeout) ->
  kill_sent com sh now sp cl (kill_message com sh sp' now (last_renewal sp) cl).
Proof.
  intros En Er Eio. unfold kill_message. rw (must_kill_ext sp sp' now cl En).
  destruct (must_kill sp now cl) eqn:Em; cbn [andb]; [|by apply sent_nothing].
  unfold kill_signal, in_grace, calc_id_renewal_fail_seconds, last_renewal. rw Er Eio.
  destruct (nz sp.(sp_external_remove) || (1 <? sh)) eqn:Ef.
  - assert (forced sh sp) by (unfold forced, nz in *; zbool; lia).
    pose proof (sent_kill com sh now sp cl Em (or_introl H)) as Hk.
    destruct (has_flag cl.(cl_restricted) SANLK_RESTRICT_SIGKILL), (has_flag cl.(cl_restricted) SANLK_RESTRICT_SIGTERM);
      cbn in Hk |- *; by rw andb_false_r.
  - assert (~ forced sh sp) as Hnf by (unfold forced, nz in *; zbool; lia).
    destruct (Z.ltb_spec now (u64 (lst_renewal_last_success (sp_lease_status sp) + i32 (8 * sp_io_timeout sp) + com_kill_grace_seconds com))) as [Hg|Hg].
    + destruct ((0 <? com.(com_kill_grace_seconds)) && true && nz (nth 0 cl.(cl_killpath) 0)) eqn:Ep.
      * assert (has_killpath com cl) as Hp by (unfold has_killpath, nz in *; zbool; done).
        destruct (has_flag cl.(cl_flags) CL_RUNPATH_SENT) eqn:Es; cbn.
        -- by apply sent_path_before.
        -- by apply sent_path.
      * assert (~ has_killpath com cl) as Hp.
        { intros [H1 H2]. unfold nz in Ep. apply Z.ltb_lt in H1. rw H1 in Ep. cbn in Ep.
          by destruct (Z.eqb_spec (nth 0 cl.(cl_killpath) 0) 0). }
        pose proof (sent_term com sh now sp cl Em Hnf Hg Hp) as Hk.
        destruct (has_flag cl.(cl_restricted) SANLK_RESTRICT_SIGTERM); cbn in Hk |- *; by rw andb_false_r.
    + rw andb_false_r /=. assert (~ graceful com now sp) as Hng by (unfold graceful; lia).
      pose proof (sent_kill com sh now sp cl Em (or_intror Hng)) as Hk.
      destruct (has_flag cl.(cl_restricted) SANLK_RESTRICT_SIGKILL), (has_flag cl.(cl_restricted) SANLK_RESTRICT_SIGTERM);
        cbn in Hk |- *; by rw andb_false_r.
Qed.

(** Its record afterwards: the kill is counted, and its tokens of the lockspace are
    dead. *)
Definition kill_counted (sp : lspace) (now : Z) (cl cl' : client) : Prop :=
  if must_kill sp now cl
  then cl'.(cl_kill_count) = cl.(cl_kill_count) + 1 /\ cl'.(cl_kill_last) = now /\
       Forall (fun t => uses_space sp t = true -> t.(tk_space_dead) = 1) (tokens_of cl')
  else cl'.(cl_kill_count) = cl.(cl_kill_count) /\ cl'.(cl_kill_last) = cl.(cl_kill_last).

(** C9: When a lockspace that is not yet being recovered has lost its host id
    (found corrupt, or not renewed for eight io timeouts), is removed, or the
    daemon is shut down by force, the check marks it dead and being killed and,
    in that same turn, the helper is told of each live process that holds a
    token of the lockspace, was sent fewer than [kill_count_max] kills and none
    in the last second: SIGKILL when the lockspace is removed, shutdown is
    forced or the grace period after the eight io timeouts is over, else its
    killpath (once only) if it has one and there is a grace period, else
    SIGTERM; a process restricted from one of the two signals gets the other.
    Each such kill is counted and the process's tokens of the lockspace are
    marked dead; no other process gets a message. Assumed: the invariant of the
    clients, a helper that is alive, and writes to it that succeed. *)
Theorem lost_lockspace_kills com ps sh sp ls cs :
  clients_ok ls cs -> cs.(cs_helper).(helper_kill_fd) <> -1 -> (forall ci, ps.(ps_wr) ci = WriteOk) ->
  sp.(sp_killing_pids) = 0 -> lease_lost ps.(ps_now) sp \/ forced sh sp ->
  exists sp' msgs cs', check_space com ps sh sp cs = Some (Kept, sp', concat msgs, cs') /\
    sp'.(sp_space_dead) = 1 /\ sp'.(sp_killing_pids) = 1 /\ (lease_lost ps.(ps_now) sp -> sp'.(sp_renew_fail) = 1) /\
    Forall2 (fun ci ms => kill_sent com sh ps.(ps_now) sp (client_at ci cs) ms) (client_indices cs) msgs /\
    forall i, kill_counted sp ps.(ps_now) (client_at i cs) (client_at i cs').
Proof.
  intros Hok Hh Hwr Hk Hs%must_stop_iff. destruct (check_space_kills com ps sh sp ls cs Hok Hh Hwr Hk Hs) as (cs' & E & Hr).
  destruct (dead_space_fields ps sp) as (E1 & E2 & E3 & E4 & E5 & E6 & E7).
  exists (dead_space ps sp), ((fun ci => kill_message com sh (dead_space ps sp) ps.(ps_now)
    (last_renewal (dead_space ps sp)) (client_at ci cs)) <$> client_indices cs), cs'.
  split; [by rw -flat_map_concat_map|]. do 2 (split; [done|]). split; [done|]. split.
  - apply Forall2_fmap_r, Forall_Forall2_diag, list.Forall_forall. intros ci _. rw E6. by apply kill_message_sent.
  - intros i. specialize (Hr i). unfold kill_recorded in Hr. unfold kill_counted.
    rw (must_kill_ext sp (dead_space ps sp) _ _ E3) in Hr. destruct (must_kill _ _ _); [|done].
    rw E1 in Hr. destruct Hr as (? & ? & Hf). do 2 (split; [done|]). eapply list.Forall_impl; [exact Hf|].
    intros t Ht Hu. apply Ht. unfold uses_space in *. by rw E3.
Qed.

(** A client that holds a token of the lockspace, which is removed. *)
Definition demo_removed : lspace := (demo_space 1) <| sp_external_remove := 1 |>.
Definition demo_token : rtoken :=
  RToken 1 (Token 1 1 10 0 512 1048576 0 (zeros 256) [] [76; 83] [82] 0) 0 0 0 0 1 1000 0 0.
Definition demo_client : client :=
  client_zero <| cl_used := 1 |> <| cl_fd := 10 |> <| cl_pid := 1000 |> <| cl_tokens_slots := 1 |>
              <| cl_tokens := Some [Some demo_token] |>.
Definition demo_clients : clients :=
  Clients (demo_client :: replicate 1023 client_zero) (replicate 1025 (PollFd (-1) 0 0)) 0 (Helper 5 6 1 0).
Definition demo_lists : lockspaces := Lockspaces [demo_removed] [] [] 2 0.

Lemma demo_clients_ok : clients_ok demo_lists demo_clients.
Proof.
  constructor; cbn -[replicate]; try done.
  - apply list.Forall_cons. split; [|apply (Forall_replicate _ 1023), client_zero_ok].
    split; [by constructor|]. by repeat constructor.
  - intros [|i] cl Hi Hm; [done|]. cbn -[replicate] in Hi. by apply (lookup_replicate 1023) in Hi as [-> _].
Qed.

Definition demo_remove_pass : pass := Pass 100 true (fun _ => WriteOk) (fun _ => 0) (fun _ => 0).

Definition demo_dead : lspace := dead_space demo_remove_pass demo_removed.

Lemma demo_must_kill : must_kill demo_removed demo_remove_pass.(ps_now) (client_at 0 demo_clients) = true.
Proof. vm_compute. reflexivity. Qed.

Lemma demo_stop : lease_lost demo_remove_pass.(ps_now) demo_removed \/ forced 0 demo_removed.
Proof. right. left. vm_compute. discriminate. Qed.

Lemma lost_lockspace_kills_witness :
  exists sp' msgs cs', check_space demo_timeouts demo_remove_pass 0 demo_removed demo_clients =
    Some (Kept, sp', msgs, cs') /\ sp'.(sp_space_dead) = 1 /\ msgs = [MsgKillpid 1000 9] /\
    (client_at 0 cs').(cl_kill_count) = (client_at 0 demo_clients).(cl_kill_count) + 1.
Proof.
  destruct (lost_lockspace_kills demo_timeouts demo_remove_pass 0 demo_removed demo_lists demo_clients demo_clients_ok
              ltac:(done) ltac:(done) eq_refl demo_stop)
    as (sp' & msgs & cs' & E & Hd & _ & _ & _ & Hr).
  exists sp', (concat msgs), cs'. split; [exact E|]. split; [exact Hd|]. split.
  - assert (option_map (fun r => snd (fst r)) (check_space demo_timeouts demo_remove_pass 0 demo_removed demo_clients) =
      Some [MsgKillpid 1000 9]) as E2 by (vm_compute; reflexivity).
    rewrite -> E in E2. by injection E2.
  - specialize (Hr 0%nat). unfold kill_counted in Hr. rewrite -> demo_must_kill in Hr. exact (proj1 Hr).
Defined.

(** ** Stopping a lockspace *)

(** Nothing but processes keeps the lockspace: no external user, no orphan resource
    where orphans count as use. *)
Definition may_stop (ps : pass) (sp : lspace) : bool :=
  negb (has_flag sp.(sp_flags) SP_EXTERNAL_USED) &&
  negb (has_flag sp.(sp_flags) SP_USED_BY_ORPHANS && nz (ps.(ps_orphans) sp.(sp_space_name))).

Lemma all_pids_dead_iff orphans sp ls cs :
  clients_ok ls cs -> exists dead sp' cs', all_pids_dead orphans sp cs = Some (dead, sp', cs') /\
    (dead = true <-> unused sp cs /\ has_flag sp.(sp_flags) SP_EXTERNAL_USED = false /\
                     has_flag sp.(sp_flags) SP_USED_BY_ORPHANS && nz orphans = false) /\
    (dead = true -> sp' = sp).
Proof.
  intros Hok. unfold all_pids_dead.
  destruct (pids_loop_spec sp (client_indices cs) ls cs Hok) as (stuck & check & cs' & -> & Hs & H1 & H2 & Hu).
  cbn [mbind option_bind].
  assert (stuck = 0 /\ check = 0 <-> unused sp cs) as Hun.
  { rw Hu. split; [exact (unused_all ls sp cs Hok)|]. intros H i _. apply H. }
  set (sp1 := if _ : bool then sp <| sp_killing_pids := 2 |> else sp).
  assert (sp1.(sp_flags) = sp.(sp_flags)) as -> by (unfold sp1; by destruct (_ && _)).
  unfold nz. destruct (Z.eqb_spec stuck 0) as [->|Hne]; cbn [negb orb].
  2:{ do 3 eexists. split_and!; [done|split; [done|]; intros (?%Hun & _); lia|done]. }
  destruct (Z.eqb_spec check 0) as [->|Hne]; cbn [negb].
  2:{ do 3 eexists. split_and!; [done|split; [done|]; intros (?%Hun & _); lia|done]. }
  destruct (has_flag _ SP_EXTERNAL_USED) eqn:E1; [do 3 eexists; split_and!; [done|split; [done|by intros (_ & ? & _)]|done]|].
  destruct (_ && negb _) eqn:E2; [do 3 eexists; split_and!; [done|split; [done|by intros (_ & _ & ?)]|done]|].
  do 3 eexists. split_and!; [done| |done]. split; [|done]. intros _. split_and!; try done. by apply Hun.
Qed.

(** C10: A lockspace that is being recovered is stopped as soon as it can be, and
    not before: the check of the main loop moves it to the list of those that are
    shut down exactly when its processes are being killed, no live process holds a
    token of it, and it has no external user or counted orphans; its thread is told
    to stop in the same step. *)
Theorem stopped_when_unused com ps sh sp ls cs :
  clients_ok ls cs -> ps.(ps_have_buf) = true ->
  (exists m cs', check_space com ps sh sp cs = Some (Stopped, sp <| sp_thread_stop := 1 |>, m, cs')) <->
  sp.(sp_killing_pids) <> 0 /\ unused sp cs /\ may_stop ps sp = true.
Proof.
  intros Hok Hb. unfold may_stop. rw andb_true_iff !negb_true_iff. destruct (Z.eq_dec sp.(sp_killing_pids) 0) as [E|E].
  - split; [|tauto]. intros (m & cs' & Ec). exfalso. revert Ec.
    unfold check_space. rw E. cbn [Z.eqb mbind option_bind]. rw E. cbn [nz Z.eqb negb].
    destruct (check_our_lease _ _ _) as [[[rv check_all] buf] sp1].
    destruct (_ || _); [destruct (kill_pids _ _ _ _ _ _) as [[]|]; done|].
    destruct check_all; [rw Hb|]; done.
  - unfold check_space. rw (proj2 (Z.eqb_neq _ _) E).
    destruct (all_pids_dead_iff (ps.(ps_orphans) sp.(sp_space_name)) sp ls cs Hok) as (dead & sp' & cs1 & -> & Hd & Hs).
    cbn [mbind option_bind]. destruct dead.
    + rw (Hs eq_refl). split; [|by eauto]. intros _. split; [done|]. by apply Hd.
    + split; [|intros (_ & H); by apply Hd in H]. intros (m & cs' & Ec). exfalso. revert Ec.
      unfold nz. destruct (_ =? 0); cbn [negb]; [|destruct (kill_pids _ _ _ _ _ _) as [[]|]; done].
      destruct (check_our_lease _ _ _) as [[[rv check_all] buf] sp1].
      destruct (_ || _); [destruct (kill_pids _ _ _ _ _ _) as [[]|]; done|].
      destruct check_all; [rw Hb|]; done.
Qed.

Definition demo_left : clients := set_client 0 (demo_client <| cl_pid := -1 |> <| cl_pid_dead := 1 |>) demo_clients.

Lemma demo_left_ok : clients_ok demo_lists demo_left.
Proof.
  apply clients_ok_set; [apply demo_clients_ok| |done]. split; [by constructor|]. constructor.
Qed.

Lemma demo_left_unused : unused demo_dead demo_left.
Proof.
  intros i. unfold unused. destruct i as [|i]; [apply not_elem_of_nil|].
  assert (client_at (S i) demo_left = client_zero) as ->; [|apply not_elem_of_nil].
  unfold client_at, demo_left. cbn -[replicate]. destruct (decide (i < 1023)%nat).
  - apply nth_lookup_Some. by apply lookup_replicate_2.
  - apply nth_overflow. rw length_replicate. lia.
Qed.

Lemma stopped_when_unused_witness :
  exists m cs', check_space demo_timeouts demo_remove_pass 0 demo_dead demo_left =
    Some (Stopped, demo_dead <| sp_thread_stop := 1 |>, m, cs').
Proof.
  apply (stopped_when_unused demo_timeouts demo_remove_pass 0 demo_dead demo_lists demo_left demo_left_ok eq_refl).
  split; [|split; [exact demo_left_unused|]]; vm_compute; done.
Defined.
