(* ===== verification/DaemonSystem.v ===== *)
(** * The daemon as a transition system

    The main thread runs the handlers of its connections and the turns of
    [main_loop], worker threads run the commands that are put on the queue of the
    thread pool, lockspace threads publish their results, signals arrive, all in any
    order of their critical sections. In every state the daemon can reach, a
    live process that holds a token has its lockspace on [spaces], with its thread
    running, where the main loop checks the renewals and kills the process when
    they fail. *)

From S2P Require Import Prelude OnDisk SizeFlags Timeouts Io DeltaLease PaxosBlocks Lockspace HostStatus.
From S2P Require Import LockspaceLists Clients Commands Claims Recovery RecoveryMain.

(** ** Startup *)

(** The client array when [do_daemon] enters [main_loop]: the helper and the
    listener are the first connections. [None] when an allocation fails. *)
Definition set_owner_name (ci : Z) (name : list Z) (cs : clients) : clients :=
  let i := Z.to_nat ci in set_client i ((client_at i cs) <| cl_owner_name := name |>) cs.

Definition setup_listener (fd : Z) (cs : clients) : option clients :=
  let '(ci, cs) := client_add fd ProcessListener None cs in
  if ci <? 0 then None else Some (set_owner_name ci [108; 105; 115; 116; 101; 110; 101; 114; 0] cs).

Definition do_daemon_clients (client_ok pollfd_ok : bool) (last : pollfd) (kill_fd status_fd listen_fd : Z)
    : option clients :=
  cs ← client_alloc client_ok pollfd_ok last (Helper kill_fd status_fd (-1) 0);
  let '(ci, cs) := client_add status_fd ProcessHelper (Some HelperDead) cs in
  if ci <? 0 then None
  else setup_listener listen_fd
         (set_owner_name ci [104; 101; 108; 112; 101; 114; 0]
            (cs <| cs_helper := cs.(cs_helper) <| helper_ci := ci |> |>)).

Definition no_lockspaces : lockspaces := Lockspaces [] [] [] 1 0.

Definition do_daemon_start (last : pollfd) (kill_fd status_fd listen_fd : Z) : option daemon :=
  cs ← do_daemon_clients true true last kill_fd status_fd listen_fd;
  Some (Daemon no_lockspaces cs 1 (-1) (-1)).

(** ** States and steps *)

(** The main thread is [Done tt] between two handlers; [sy_running] is false
    after [main_loop]. *)
Record system := System {
  sy_daemon : daemon;
  sy_running : bool;
  sy_main : thread unit;
  sy_workers : list (thread unit)
}.
#[export] Instance system_settable : Settable system := fun r =>
  System r.(sy_daemon) r.(sy_running) r.(sy_main) r.(sy_workers).

(** A step of a thread, with the command it queues. *)
Inductive thread_step : daemon -> thread unit -> daemon -> thread unit -> option cmd_args -> Prop :=
  | step_atomic {T} (f : daemon -> option (T * daemon)) k d x d' :
      f d = Some (x, d') -> thread_step d (Atomic f k) d' (k x) None
  | step_ask q k a d : answer_ok q a -> thread_step d (Ask q k) d (k a) None
  | step_spawn ca k d : thread_step d (Spawn ca k) d k (Some ca).

(** [poll] reports input for a connection it watches: one that is in use, is not
    suspended and whose process has not been found dead. *)
Definition watched (ci : nat) (d : daemon) : bool :=
  let cl := client_at ci d.(d_clients) in
  nz cl.(cl_used) && (cl.(cl_suspend) =? 0) && (cl.(cl_pid_dead) =? 0) && (cl.(cl_need_free) =? 0).

(** What changes lockspaces beside commands and the main loop: the thread of a
    lockspace, the resource threads, and signals. *)
Inductive space_change :=
  | ThreadUpdate (p : Z) (u : sp_update)
  | BeginRindex (name : list Z) (op : Z)
  | ClearRindex (name : list Z)
  | SetBit (now : Z) (name : list Z) (host_id : Z)
  | SendEvents (send_rv : Z -> Z) (space_id : Z)
  | Sigterm.

Definition change_spaces (c : space_change) (ls : lockspaces) : lockspaces :=
  match c with
  | ThreadUpdate p u => update_space p (sp_apply u) ls
  | BeginRindex name op => snd (lockspace_begin_rindex_op name op ls)
  | ClearRindex name => snd (lockspace_clear_rindex_op name ls)
  | SetBit now name h => snd (host_status_set_bit now name h ls)
  | SendEvents rv id => snd (send_event_callbacks rv id ls)
  | Sigterm => ls <| external_shutdown := 1 |>
  end.

Section System.
Context (com : command_line) (cfg : com_space).

(** Workers that take up a queued command. *)
Definition spawned (fuel : nat) (ca : option cmd_args) : list (thread unit) :=
  call_cmd_thread com cfg fuel <$> option_list ca.

Inductive step : system -> system -> Prop :=
  | step_work s ci :
      s.(sy_running) = true -> s.(sy_main) = Done tt -> watched ci s.(sy_daemon) = true ->
      step s (s <| sy_main := call_workfn ci |>)
  | step_dead s ci :
      s.(sy_running) = true -> s.(sy_main) = Done tt ->
      step s (s <| sy_main := call_deadfn ci |>)
  | step_turn s ps stop ms ls cs :
      s.(sy_running) = true -> s.(sy_main) = Done tt -> ps.(ps_have_buf) = true ->
      main_turn com ps s.(sy_daemon).(d_spaces) s.(sy_daemon).(d_clients) = Some (stop, ms, ls, cs) ->
      step s (s <| sy_daemon := s.(sy_daemon) <| d_spaces := ls |> <| d_clients := cs |> |>
                <| sy_running := negb stop |>)
  | step_main s d t ca fuel :
      thread_step s.(sy_daemon) s.(sy_main) d t ca ->
      step s (s <| sy_daemon := d |> <| sy_main := t |>
                <| sy_workers := s.(sy_workers) ++ spawned fuel ca |>)
  | step_worker s i w d t ca fuel :
      s.(sy_workers) !! i = Some w -> thread_step s.(sy_daemon) w d t ca ->
      step s (s <| sy_daemon := d |> <| sy_workers := <[i := t]> s.(sy_workers) ++ spawned fuel ca |>)
  | step_change s c :
      step s (s <| sy_daemon := s.(sy_daemon) <| d_spaces := change_spaces c s.(sy_daemon).(d_spaces) |> |>).

Inductive reachable : system -> Prop :=
  | reach_start last kill_fd status_fd listen_fd d :
      do_daemon_start last kill_fd status_fd listen_fd = Some d -> reachable (System d true (Done tt) [])
  | reach_step s s' : reachable s -> step s s' -> reachable s'.

(** ** The invariant of the system *)

(** The threads with their claims. *)
Record threads_ok (d : daemon) (l : list (thread unit * own)) : Prop := ThreadsOk {
  th_keeps : forall i t o, l !! i = Some (t, o) -> keeps t o (fun _ _ => True) /\ own_ok o d;
  th_disjoint : forall i j t o t' o', i <> j -> l !! i = Some (t, o) -> l !! j = Some (t', o') -> disjoint_own o o'
}.

Record system_ok (s : system) : Prop := SystemOk {
  sy_inv : inv s.(sy_daemon);
  sy_threads : exists o ws, threads_ok s.(sy_daemon) ((s.(sy_main), o) :: ws) /\
                 s.(sy_workers) = ws.*1 /\ Forall (fun w : _ * own => w.2.(o_is_main) = false) ws
}.

Lemma distinct_sym {A} (a b : option A) : distinct a b -> distinct b a.
Proof. unfold distinct, claims. destruct a, b; try done; congruence. Qed.

Lemma distinct_none {A} (a : option A) : distinct a None.
Proof. by destruct a. Qed.

Lemma disjoint_sym o r : disjoint_own o r -> disjoint_own r o.
Proof.
  intros [D1 D2 D3 D4 D5 D6 D7]. constructor; try by apply distinct_sym.
  intros H. destruct (o_is_main o); [|done]. by rw D7 in H.
Qed.

(** A thread that is not the main thread does not become it. *)
Lemma fair_worker o o' d d' : o.(o_is_main) = false -> fair o o' d d' -> o'.(o_is_main) = false.
Proof.
  intros Hm Hf. destruct (Hf own_main) as [_ Hd]; [constructor; try apply distinct_none; congruence|by constructor|].
  destruct (o_is_main o') eqn:E; [|done]. by pose proof (dj_main _ _ Hd E).
Qed.

(** One thread changes. *)
Lemma threads_replace d d' l i t o t' o' :
  threads_ok d l -> l !! i = Some (t, o) -> fair o o' d d' -> own_ok o' d' ->
  keeps t' o' (fun _ _ => True) -> threads_ok d' (<[i := (t', o')]> l).
Proof.
  intros [Hk Hd] Hi Hf Ho' Ht'.
  assert (forall j t1 o1, j <> i -> l !! j = Some (t1, o1) ->
            keeps t1 o1 (fun _ _ => True) /\ own_ok o1 d' /\ disjoint_own o' o1) as Hj.
  { intros j t1 o1 Hne Hj. destruct (Hk _ _ _ Hj) as [K O].
    destruct (Hf o1) as [? ?]; [by apply (Hd i j t o t1 o1)|done|]. done. }
  constructor.
  - intros j t1 o1. rw list_lookup_insert_Some. intros [(-> & [= -> ->] & _)|[Hne H]]; [done|].
    destruct (Hj j t1 o1) as (? & ? & ?); done.
  - intros j k t1 o1 t2 o2 Hne. rw !list_lookup_insert_Some.
    intros [(-> & [= -> ->] & _)|[N1 H1]] [(-> & [= -> ->] & _)|[N2 H2]]; [done|..].
    + by destruct (Hj k t2 o2) as (_ & _ & ?).
    + apply disjoint_sym. by destruct (Hj j t1 o1) as (_ & _ & ?).
    + by apply (Hd j k t1 o1 t2 o2).
Qed.

(** A thread is added whose claims no other thread has. *)
Lemma threads_add d l t o :
  threads_ok d l -> keeps t o (fun _ _ => True) -> own_ok o d ->
  (forall i t1 o1, l !! i = Some (t1, o1) -> disjoint_own o1 o) -> threads_ok d (l ++ [(t, o)]).
Proof.
  intros [Hk Hd] Ht Ho Hn. constructor.
  - intros i t1 o1. rw lookup_app_Some. intros [H|[Hge H]]; [by eapply Hk|].
    apply list_lookup_singleton_Some in H as [_ [= <- <-]]. done.
  - intros i j t1 o1 t2 o2 Hne. rw !lookup_app_Some.
    intros [H1|[G1 H1]] [H2|[G2 H2]];
      repeat match goal with H : [_] !! _ = Some _ |- _ => apply list_lookup_singleton_Some in H as [? [= <- <-]] end.
    + by apply (Hd i j t1 o1 t2 o2).
    + by eapply Hn.
    + apply disjoint_sym. by eapply Hn.
    + lia.
Qed.

(** The command that is queued takes its claims over from the main thread. *)
Lemma spawn_claims o ca d :
  own_ok o d -> o.(o_susp) = Some ca.(ca_ci_in) -> o.(o_cmd) = (worker_own ca).(o_cmd) ->
  own_ok (worker_own ca) d /\ own_ok (o <| o_susp := None |> <| o_cmd := None |>) d /\
  disjoint_own (o <| o_susp := None |> <| o_cmd := None |>) (worker_own ca) /\
  forall r, disjoint_own o r -> disjoint_own (o <| o_susp := None |> <| o_cmd := None |>) r /\
    disjoint_own r (worker_own ca).
Proof.
  intros Ho Es Ec. pose proof Ho as [O1 O2 O3 O4 O5 O6]. split_and!; [|by constructor|..].
  - constructor; cbn -[worker_own]; try done; [by rw Es in O2|by rw Ec in O3].
  - constructor; cbn; try done; try apply distinct_none. rw Ec in O3. unfold distinct.
    destruct (o_dead o) as [n|] eqn:Ed; [|done]. cbn. intros En. cbn in O3, O4. rw En in O3.
    destruct O3 as [_ H], O4 as [_ _ H' _]. done.
  - intros r Hd. split; [by destruct Hd; constructor|]. apply disjoint_sym.
    destruct Hd as [D1 D2 D3 D4 D5 D6 D7]. rw Es in D2. rw Ec in D3. rw Ec in D4. by constructor.
Qed.

Lemma fair_same o o' d :
  (forall r, disjoint_own o r -> disjoint_own o' r) -> fair o o' d d.
Proof. intros H r Hd Hr. auto. Qed.

(** A step of the thread [i]. *)
Lemma thread_step_ok d l i t o d' t' ca fuel :
  inv d -> threads_ok d l -> l !! i = Some (t, o) -> thread_step d t d' t' ca ->
  inv d' /\ exists o' ws, threads_ok d' (<[i := (t', o')]> l ++ ws) /\ ws.*1 = spawned fuel ca /\
    Forall (fun w : _ * own => w.2.(o_is_main) = false) ws /\ (o.(o_is_main) = false -> o'.(o_is_main) = false).
Proof.
  intros Hi Hl Hli Hs. destruct (th_keeps _ _ Hl _ _ _ Hli) as [Hk Ho].
  destruct Hs as [T f k d x d' E|q k a d Ha|ca k d].
  - destruct (Hk d x d' Hi Ho E) as (o' & Hi' & Ho' & Hf & Hk'). split; [done|]. exists o', []. rw app_nil_r.
    split_and!; [by eapply threads_replace|done..|]. intros. by eapply fair_worker.
  - split; [done|]. exists o, []. rw app_nil_r. split_and!; [|done..].
    eapply threads_replace; [done..| |done|by apply Hk]. by apply fair_same.
  - destruct Hk as (Es & Ec & Hk). destruct (spawn_claims o ca d Ho Es Ec) as (Hw & Hrest & Hdj & Hr).
    split; [done|]. exists (o <| o_susp := None |> <| o_cmd := None |>), [(call_cmd_thread com cfg fuel ca, worker_own ca)].
    split_and!; [|done|by constructor|exact id]. apply threads_add; [|apply keeps_call_cmd|done|].
    + eapply threads_replace; [done..| |done|done]. apply fair_same. intros r Hd. by apply Hr.
    + intros j t1 o1. rw list_lookup_insert_Some. intros [(-> & [= <- <-] & _)|[Hne Hj]]; [done|].
      apply Hr. by eapply (th_disjoint _ _ Hl i j).
Qed.

(** ** Changes of lockspaces outside of commands *)

Lemma send_event_length send l rv : length (snd (send_event_loop send l rv)) = length l.
Proof.
  revert rv. induction l as [|fd l IH]; intros rv; cbn; [done|]. destruct (fd =? -1).
  - specialize (IH rv). destruct (send_event_loop _ _ _). cbn in *. lia.
  - specialize (IH (send fd)). destruct (send_event_loop _ _ _). cbn in *. lia.
Qed.

Lemma send_event_same send id ls : lists_ok ls -> same_lists ls (snd (send_event_callbacks send id ls)).
Proof.
  intros Hok. unfold send_event_callbacks. destruct (find_lockspace_id ls id) as [sp|] eqn:E; [|auto with sanlock].
  pose proof (send_event_length send sp.(sp_event_fds) 0) as Hlen.
  destruct (send_event_loop _ _ _) as [rv fds]. cbn [snd] in *. apply update_same. intros sp' Esp Hin.
  apply same_events. rw Hlen.
  assert (sp ∈ all_spaces ls) as Hsp.
  { unfold all_spaces. apply elem_of_app. left. unfold find_lockspace_id in E. by apply find_space_elem in E as []. }
  by rw (addr_unique ls sp sp' Hok Hsp Hin Esp).
Qed.

Lemma change_same c ls : lists_ok ls -> same_lists ls (change_spaces c ls).
Proof.
  intros Hok. destruct c as [p u|name op|name|now name h|send id|]; cbn [change_spaces].
  - apply update_same_always. intros. apply sp_apply_same.
  - apply begin_rindex_op_same.
  - apply clear_rindex_op_same.
  - apply host_status_set_bit_same.
  - by apply send_event_same.
  - destruct (same_lists_refl ls). by constructor.
Qed.

Lemma own_ok_same_lists r d ls' :
  same_lists d.(d_spaces) ls' -> own_ok r d -> own_ok r (d <| d_spaces := ls' |>).
Proof.
  intros Hs [H1 H2 H3 H4 H5 H6]. destruct (same_lists_frame (fun _ => False) _ _ Hs) as [F1 F2 _].
  constructor; try done. cbn. destruct (o_space r) as [[b p]|]; [|done]. cbn in *.
  unfold space_claim in *. cbn in *. destruct b; auto.
Qed.

Lemma inv_same_lists d ls' : same_lists d.(d_spaces) ls' -> inv d -> inv (d <| d_spaces := ls' |>).
Proof.
  intros Hs [Hl Hc]. split; [by eapply lists_ok_same|]. cbn. eapply clients_ok_spaces; [|exact Hc].
  apply (fr_names (fun _ => False)), same_lists_frame, Hs.
Qed.

(** All threads stay where they are. *)
Lemma threads_same d d' l : threads_ok d l -> (forall r, own_ok r d -> own_ok r d') -> threads_ok d' l.
Proof. intros [Hk Hd] H. constructor; [|done]. intros i t o Hi. destruct (Hk i t o Hi). auto. Qed.

(** ** Every step keeps the invariant *)

(** The main thread starts a handler. *)
Lemma main_start d o t ws t' c :
  threads_ok d ((t, o) :: ws) -> Forall (fun w : _ * own => w.2.(o_is_main) = false) ws ->
  keeps t' (main_for c None None) (fun _ _ => True) -> own_ok (main_for c None None) d ->
  threads_ok d ((t', main_for c None None) :: ws).
Proof.
  intros [Hk Hd] Hw Ht Ho.
  assert (forall i t1 o1, ws !! i = Some (t1, o1) -> disjoint_own (main_for c None None) o1) as Hm.
  { intros i t1 o1 Hi. rw Forall_lookup in Hw. specialize (Hw _ _ Hi). by constructor. }
  constructor.
  - intros [|i] t1 o1 Hi; [by injection Hi as <- <-|]. by apply (Hk (S i)).
  - intros [|i] [|j] t1 o1 t2 o2 Hne Hi Hj; [done|..].
    + injection Hi as <- <-. by eapply Hm.
    + injection Hj as <- <-. apply disjoint_sym. by eapply Hm.
    + by apply (Hd (S i) (S j) t1 o1 t2 o2).
Qed.

Lemma watched_ok ci d : inv d -> watched ci d = true -> own_ok (main_for (Some ci) None None) d.
Proof.
  intros _ Hw. constructor; cbn; try done. unfold watched, nz in Hw. zbool. by constructor.
Qed.

Lemma step_ok s s' : system_ok s -> step s s' -> system_ok s'.
Proof.
  intros [Hi (o & ws & Ht & Ew & Hw)] Hs.
  destruct Hs as [s ci _ _ Hg|s ci _ _|s ps stop ms ls cs _ _ Hb E|s d t ca fuel Hs|s i w d t ca fuel Hwi Hs|s c].
  - split; [done|]. exists (main_for (Some ci) None None), ws. split_and!; [|done..].
    eapply main_start; [done..|apply keeps_call_workfn|by apply watched_ok].
  - split; [done|]. exists (main_for None None None), ws. split_and!; [|done..].
    eapply main_start; [done..|apply keeps_call_deadfn|by constructor].
  - destruct (main_turn_spec com ps s.(sy_daemon) Hi Hb) as (? & ? & ? & ? & E' & Hi' & Hr).
    rw E in E'. injection E' as <- <- <- <-. split; [done|]. exists o, ws. split_and!; [|done..].
    by eapply threads_same.
  - destruct (thread_step_ok _ _ 0 _ o d t ca fuel Hi Ht eq_refl Hs) as (Hi' & o' & ws' & Ht' & E' & Hw' & _).
    split; [done|]. exists o', (ws ++ ws'). split_and!; [done| |by apply Forall_app].
    cbn. by rw fmap_app Ew E'.
  - rw Ew list_lookup_fmap in Hwi. destruct (ws !! i) as [[w' ow]|] eqn:Ei; [|done]. injection Hwi as ->.
    destruct (thread_step_ok _ _ (S i) w ow d t ca fuel Hi Ht Ei Hs) as (Hi' & o' & ws' & Ht' & E' & Hw' & Hm).
    split; [done|]. exists o, (<[i := (t, o')]> ws ++ ws'). split_and!; [done|..].
    + cbn. by rw fmap_app list_fmap_insert Ew E'.
    + apply Forall_app. split; [|done]. apply Forall_insert; [done|].
      apply Hm. by apply (Forall_lookup_1 _ _ _ _ Hw Ei).
  - pose proof (change_same c _ (inv_lists _ Hi)) as Hs. split; [by apply inv_same_lists|].
    exists o, ws. split_and!; [|done..]. eapply threads_same; [done|]. intros r. by apply own_ok_same_lists.
Qed.

(** ** The start *)

Lemma client_add_index fd work dead cs ci cs' :
  client_add fd work dead cs = (ci, cs') -> (ci < 0) \/ 0 <= ci < Z.of_nat (length cs.(cs_client)).
Proof.
  unfold client_add. destruct (free_entry _ 0) as [i|] eqn:E; intros [= <- _]; [right|by left].
  apply free_entry_spec in E as (k & cl & -> & Hk & _). apply lookup_lt_Some in Hk. lia.
Qed.

Lemma owner_name_ok ls ci name cs : clients_ok ls cs -> clients_ok ls (set_owner_name ci name cs).
Proof.
  intros Hok. apply clients_ok_set; [done| |done]. eapply quiet_ok; [|by apply client_at_ok]. by constructor.
Qed.

Lemma client_alloc_ok ls last h cs :
  client_alloc true true last h = Some cs -> clients_ok ls (cs <| cs_helper := h <| helper_kill_fd := -1 |> |>).
Proof.
  intros [= <-]. constructor.
  - exact (Forall_replicate _ CLIENT_NALLOC client_zero (client_zero_ok ls)).
  - exact (length_replicate CLIENT_NALLOC client_zero).
  - change (length (replicate CLIENT_NALLOC (PollFd (-1) 0 0) ++ [last]) = S CLIENT_NALLOC).
    rw length_app length_replicate. cbn [length]. lia.
  - done.
  - intros i cl Hi _. change (replicate CLIENT_NALLOC client_zero !! i = Some cl) in Hi.
    by apply lookup_replicate in Hi as [-> _].
  - done.
Qed.

(** Adding a connection leaves the helper alone. *)
Lemma client_add_helper fd work dead h cs ci cs' :
  client_add fd work dead cs = (ci, cs') ->
  client_add fd work dead (cs <| cs_helper := h |>) = (ci, cs' <| cs_helper := h |>).
Proof.
  unfold client_add. cbn [cs_client]. change ((cs <| cs_helper := h |>).(cs_client)) with cs.(cs_client).
  destruct (free_entry _ 0); by intros [= <- <-].
Qed.

Lemma helper_set_ok ls cs h ci :
  clients_ok ls (cs <| cs_helper := h |>) -> 0 <= ci < Z.of_nat CLIENT_NALLOC ->
  clients_ok ls (cs <| cs_helper := cs.(cs_helper) <| helper_ci := ci |> |>).
Proof. intros [] Hci. by constructor. Qed.

Lemma start_ok last kill_fd status_fd listen_fd d :
  do_daemon_start last kill_fd status_fd listen_fd = Some d -> inv d.
Proof.
  unfold do_daemon_start, do_daemon_clients. set (h := Helper kill_fd status_fd (-1) 0).
  destruct (client_alloc true true last h) as [cs|] eqn:Ea; [|done]. cbn [mbind option_bind].
  pose proof (client_alloc_ok no_lockspaces _ _ _ Ea) as Hok.
  destruct (client_add status_fd ProcessHelper _ cs) as [ci cs1] eqn:E1.
  destruct (Z.ltb_spec ci 0) as [|Hci]; [done|].
  pose proof (client_add_index _ _ _ _ _ _ E1) as Hidx. rw (co_length _ _ Hok : length cs.(cs_client) = _) in Hidx.
  apply (client_add_ok _ _ status_fd ProcessHelper (Some HelperDead)) in Hok.
  rw (client_add_helper _ _ _ _ _ _ _ E1) in Hok. cbn [snd] in Hok.
  apply (helper_set_ok _ _ _ ci) in Hok; [|lia].
  apply (owner_name_ok _ ci [104; 101; 108; 112; 101; 114; 0]) in Hok.
  unfold setup_listener. set (cs2 := set_owner_name ci _ _) in *.
  apply (client_add_ok _ _ listen_fd ProcessListener None) in Hok.
  destruct (client_add listen_fd _ _ cs2) as [ci2 cs3]. destruct (ci2 <? 0); [done|]. cbn [mbind option_bind].
  intros [= <-]. split; [|by apply owner_name_ok]. by constructor; try constructor.
Qed.

Lemma reachable_ok s : reachable s -> system_ok s.
Proof.
  induction 1 as [last k st l d E|s s' _ IH Hs]; [|by eapply step_ok].
  split; [by eapply start_ok|]. exists own_main, []. split_and!; [|done..]. constructor.
  - intros [|i] t o Hi; [|done]. injection Hi as <- <-. split; [done|]. by constructor.
  - intros [|i] [|j] t o t' o' Hne Hi Hj; done.
Qed.

End System.

(** ** Running the system *)

(** Steps of threads with given answers, for concrete runs. *)
Definition answer_okb (q : query) : answer q -> bool :=
  match q with
  | QPeerPid _ => fun a => match a with Some pid => 0 <=? pid | None => true end
  | QMallocTokens => fun ok => ok
  | _ => fun _ => true
  end.

Lemma answer_okb_ok q a : answer_okb q a = true -> answer_ok q a.
Proof. destruct q; try done. cbn. destruct a; [|done]. intros. zbool. done. Qed.

Definition thread_next (ans : forall q, answer q) (d : daemon) (t : thread unit)
    : option (daemon * thread unit * option cmd_args) :=
  match t with
  | Atomic f k => r ← f d; let '(x, d') := r in Some (d', k x, None)
  | Ask q k => if answer_okb q (ans q) then Some (d, k (ans q), None) else None
  | Spawn ca k => Some (d, k, Some ca)
  | _ => None
  end.

Lemma thread_next_ok ans d t d' t' ca :
  thread_next ans d t = Some (d', t', ca) -> thread_step d t d' t' ca.
Proof.
  destruct t as [a| |T f k|q k|ca0 k]; cbn; try done.
  - destruct (f d) as [[x d1]|] eqn:E; [|done]. intros [= <- <- <-]. by constructor.
  - destruct (answer_okb q (ans q)) eqn:E; [|done]. intros [= <- <- <-]. constructor. by apply answer_okb_ok.
  - intros [= <- <- <-]. constructor.
Qed.

(** The thread to run: the main thread, or a worker. *)
Inductive action :=
  | Work (ci : nat)
  | Dead (ci : nat)
  | Turn (ps : pass)
  | RunMain (ans : forall q, answer q) (n : nat)
  | RunWorker (i : nat) (ans : forall q, answer q) (n : nat)
  | Change (c : space_change).

Section Run.
Context (com : command_line) (cfg : com_space) (fuel : nat).

Fixpoint run_main (ans : forall q, answer q) (n : nat) (s : system) : system :=
  match n with
  | O => s
  | S n =>
      match thread_next ans s.(sy_daemon) s.(sy_main) with
      | Some (d, t, ca) =>
          run_main ans n (s <| sy_daemon := d |> <| sy_main := t |>
                            <| sy_workers := s.(sy_workers) ++ spawned com cfg fuel ca |>)
      | None => s
      end
  end.

Fixpoint run_worker (i : nat) (ans : forall q, answer q) (n : nat) (s : system) : system :=
  match n with
  | O => s
  | S n =>
      match s.(sy_workers) !! i with
      | Some w =>
          match thread_next ans s.(sy_daemon) w with
          | Some (d, t, ca) =>
              run_worker i ans n (s <| sy_daemon := d |>
                                    <| sy_workers := <[i := t]> s.(sy_workers) ++ spawned com cfg fuel ca |>)
          | None => s
          end
      | None => s
      end
  end.

Definition idle (s : system) : bool := s.(sy_running) && match s.(sy_main) with Done _ => true | _ => false end.

Definition act (a : action) (s : system) : option system :=
  match a with
  | Work ci => if idle s && watched ci s.(sy_daemon) then Some (s <| sy_main := call_workfn ci |>) else None
  | Dead ci => if idle s then Some (s <| sy_main := call_deadfn ci |>) else None
  | Turn ps =>
      if idle s && ps.(ps_have_buf) then
        r ← main_turn com ps s.(sy_daemon).(d_spaces) s.(sy_daemon).(d_clients);
        let '(stop, _, ls, cs) := r in
        Some (s <| sy_daemon := s.(sy_daemon) <| d_spaces := ls |> <| d_clients := cs |> |>
                <| sy_running := negb stop |>)
      else None
  | RunMain ans n => Some (run_main ans n s)
  | RunWorker i ans n => Some (run_worker i ans n s)
  | Change c => Some (s <| sy_daemon := s.(sy_daemon) <| d_spaces := change_spaces c s.(sy_daemon).(d_spaces) |> |>)
  end.

Fixpoint run (l : list action) (s : system) : option system :=
  match l with
  | [] => Some s
  | a :: l => s ← act a s; run l s
  end.

Lemma run_main_ok ans n s : reachable com cfg s -> reachable com cfg (run_main ans n s).
Proof.
  revert s. induction n as [|n IH]; intros s Hs; cbn [run_main]; [done|].
  destruct (thread_next _ _ _) as [[[d t] ca]|] eqn:E; [|done]. apply IH.
  eapply reach_step; [done|]. apply step_main. by apply (thread_next_ok ans).
Qed.

Lemma run_worker_ok i ans n s : reachable com cfg s -> reachable com cfg (run_worker i ans n s).
Proof.
  revert s. induction n as [|n IH]; intros s Hs; cbn [run_worker]; [done|].
  destruct (sy_workers s !! i) as [w|] eqn:Ew; [|done].
  destruct (thread_next _ _ _) as [[[d t] ca]|] eqn:E; [|done]. apply IH.
  eapply reach_step; [done|]. eapply step_worker; [done|]. by apply (thread_next_ok ans).
Qed.

Lemma idle_ok s : idle s = true -> s.(sy_running) = true /\ s.(sy_main) = Done tt.
Proof. unfold idle. intros [H1 H2]%andb_true_iff. by destruct (sy_main s) as [[]| | | |]. Qed.

Lemma act_ok a s s' : reachable com cfg s -> act a s = Some s' -> reachable com cfg s'.
Proof.
  intros Hs. destruct a as [ci|ci|ps|ans n|i ans n|c]; cbn [act].
  - destruct (idle s && _) eqn:E; [|done]. intros [= <-]. apply andb_true_iff in E as [[E1 E2]%idle_ok Hw].
    eapply reach_step; [done|]. by constructor.
  - destruct (idle s) eqn:E; [|done]. intros [= <-]. apply idle_ok in E as [E1 E2].
    eapply reach_step; [done|]. by constructor.
  - destruct (idle s && _) eqn:E; [|done]. apply andb_true_iff in E as [[E1 E2]%idle_ok Hb].
    destruct (main_turn _ _ _ _) as [[[[stop ms] ls] cs]|] eqn:Em; [|done]. intros [= <-].
    eapply reach_step; [done|]. by eapply step_turn.
  - intros [= <-]. by apply run_main_ok.
  - intros [= <-]. by apply run_worker_ok.
  - intros [= <-]. eapply reach_step; [done|]. constructor.
Qed.

Lemma run_ok l s s' : reachable com cfg s -> run l s = Some s' -> reachable com cfg s'.
Proof.
  revert s. induction l as [|a l IH]; intros s Hs; cbn [run]; [by intros [= <-]|].
  destruct (act a s) as [s1|] eqn:E; [|done]. cbn. apply IH. by eapply act_ok.
Qed.

End Run.

(** ** Theorems *)

(** The tokens of the live client at an index of the array. *)
Definition holds (d : daemon) (cl : client) (t : rtoken) : Prop :=
  cl ∈ d.(d_clients).(cs_client) /\ alive cl = true /\ exists l, cl.(cl_tokens) = Some l /\ Some t ∈ l.

(** The lockspace of a token, with its thread running, and the only one of that
    name on any list. *)
Definition lockspace_of (t : rtoken) (ls : lockspaces) (sp : lspace) : Prop :=
  sp ∈ ls.(spaces) /\ uses_space sp t = true /\ sp.(sp_thread_stop) = 0 /\
  forall sp', sp' ∈ all_spaces ls -> uses_space sp' t = true -> sp' = sp.

Lemma holds_key d cl t :
  holds d cl t -> clients_ok d.(d_spaces) d.(d_clients) -> in_spaces d.(d_spaces) (name_key t.(t_lockspace_name)).
Proof.
  intros (Hin & Ha & l & El & Ht) Hc. pose proof (co_clients _ _ Hc) as Hall. rw list.Forall_forall in Hall.
  destruct (Hall cl Hin) as [_ Hh]. unfold holding in Hh. rw Ha /held_keys El list.Forall_forall in Hh.
  apply Hh. unfold token_keys. apply (list_elem_of_fmap_2 (fun t : rtoken => name_key t.(t_lockspace_name))).
  apply list_elem_of_bind. exists (Some t). split; [|done]. apply list_elem_of_here.
Qed.

(** C8: The lockspace of a token outlives its holder. In every state the daemon
    can reach, with commands, deaths of processes, renewals and removals
    interleaved in any order, a live process that holds a token of a resource has
    the lockspace of that resource on the list that the main loop checks, with its
    renewal thread not told to stop, and no other lockspace has that name. *)
Theorem lockspace_outlives_holders com cfg s cl t :
  reachable com cfg s -> holds s.(sy_daemon) cl t ->
  exists sp, lockspace_of t s.(sy_daemon).(d_spaces) sp.
Proof.
  intros [[Hl Hc] _]%reachable_ok Hh.
  destruct (proj1 (list_elem_of_fmap _ _ _) (holds_key _ _ _ Hh Hc)) as (sp & Ek & Hsp).
  assert (sp ∈ all_spaces s.(sy_daemon).(d_spaces)) as Hall by (unfold all_spaces; apply elem_of_app; by left).
  exists sp. split_and!; [done|by apply uses_key|..].
  - pose proof (lo_stop _ Hl) as Hs. rw list.Forall_forall in Hs. by apply Hs.
  - intros sp' Hin Hu%uses_key. apply (key_unique _ _ _ Hl Hall Hin). congruence.
Qed.

(** C20: The lockspaces of the daemon are well formed in every state it can
    reach: a lockspace is on one of the lists [spaces], [spaces_add] and
    [spaces_rem] only, no two have the same name, disk location or address, the
    arrays of each keep their sizes, a lockspace is marked dead before its processes
    are killed, and those on [spaces] have not been told to stop. *)
Theorem lockspaces_well_formed com cfg s : reachable com cfg s -> lists_ok s.(sy_daemon).(d_spaces).
Proof. intros [[Hl _] _]%reachable_ok. exact Hl. Qed.

(** C21: A turn of the main loop ends. In every state that the daemon reaches
    when the allocation of the token array of a new client succeeds, a turn for
    which the check buffer of the lockspaces was allocated checks all
    lockspaces, kills processes and frees stopped lockspaces without a missing
    token array, an index out of bounds or a missing buffer, and keeps the
    invariants of the lists of lockspaces and of the clients. Both allocations
    are assumed: the code does not survive their failure. *)
Theorem main_turn_total com cfg s ps :
  reachable com cfg s -> ps.(ps_have_buf) = true ->
  exists stop ms ls cs,
    main_turn com ps s.(sy_daemon).(d_spaces) s.(sy_daemon).(d_clients) = Some (stop, ms, ls, cs) /\
    lists_ok ls /\ clients_ok ls cs.
Proof.
  intros [Hi _]%reachable_ok Hb.
  destruct (main_turn_spec com ps _ Hi Hb) as (stop & ms & ls & cs & E & [Hl Hc] & _).
  exists stop, ms, ls, cs. done.
Qed.

(** ** A run of the daemon *)

(** A process connects and registers, another one adds a lockspace, whose thread
    acquires the host id, and the first one acquires a resource. *)
Definition demo_header (cmd data data2 : Z) : sm_header := SmHeader SM_MAGIC SM_PROTO cmd 0 32 0 data data2.

Definition demo_answer (h : sm_header) (accept : Z) (q : query) : answer q :=
  match q with
  | QRecvHeader _ => (sizeof_sm_header, h)
  | QRecvResource _ => Some (Resource [76; 83] [82] 0 0 0 0 1)
  | QRecvDisks _ _ => Some [SyncDisk [47; 114] 0 0 0]
  | QRecvOptions _ => Some [112]
  | QRecvLockspace _ => Some demo_host_ls
  | QRecvHostEvent _ => None
  | QRecvBytes _ _ => None
  | QDrain _ _ | QSendResult _ _ _ | QSendState _ _ _ _ _ | QSleep | QReleaseAsync _ => tt
  | QPeerPid _ => Some 1000
  | QAccept _ => accept
  | QReadHelper _ => 4
  | QMalloc | QMallocTokens => true
  | QMallocSpace => (Some 4096, true)
  | QThreadCreate => 0
  | QMonotime => 100
  | QEventFds => (7, 7, fun _ => RecvAgain)
  | QResToStr => fun _ => None
  | QAcquireToken t _ _ _ => (0, t)
  | QReleaseToken _ _ | QReleaseOrphan _ => 0
  | QConvertToken _ _ _ => (0, 0)
  | QRequestToken _ _ _ => (0, 0)
  | QLockspaceIsUsed _ => false
  | QOther _ _ => 0
  end.

Definition demo_serve (ci : nat) (h : sm_header) (accept : Z) : list action :=
  [Work ci; RunMain (demo_answer h accept) 40].
Definition demo_add : sm_header := demo_header SM_CMD_ADD_LOCKSPACE 0 0.
Definition demo_acquire : sm_header := demo_header SM_CMD_ACQUIRE 1 (2 ^ 32 - 1).

Definition demo_run : list action :=
  demo_serve 1 demo_add 10 ++ demo_serve 2 (demo_header SM_CMD_REGISTER 0 0) 0 ++
  demo_serve 1 demo_add 11 ++ demo_serve 3 demo_add 0 ++
  [RunWorker 0 (demo_answer demo_add 0) 5; Change (ThreadUpdate 4096 (SpAcquired SANLK_OK SANLK_OK 90 90));
   RunWorker 0 (demo_answer demo_add 0) 40] ++
  demo_serve 2 demo_acquire 0 ++ [RunWorker 1 (demo_answer demo_acquire 0) 60].

Definition demo_start : option system :=
  d ← do_daemon_start (PollFd 0 0 0) 5 6 8; Some (System d true (Done tt) []).
Definition demo_system : option system := s ← demo_start; run demo_timeouts demo_config 20 demo_run s.

Lemma run_reachable l (P : system -> bool) :
  match s ← demo_start; run demo_timeouts demo_config 20 l s with Some s => P s | None => false end = true ->
  exists s, reachable demo_timeouts demo_config s /\ P s = true.
Proof.
  unfold demo_start. destruct (do_daemon_start _ _ _ _) as [d|] eqn:Ed; [|done]. cbn [mbind option_bind].
  destruct (run _ _ _ _ _) as [s|] eqn:Er; [|done]. intros HP. exists s. split; [|done].
  by eapply run_ok; [eapply reach_start|].
Qed.

(** In the last state the first process lives and holds a token. *)
Definition demo_holds (s : system) : bool :=
  let cl := client_at 2 s.(sy_daemon).(d_clients) in
  alive cl && match cl.(cl_tokens) with Some (Some _ :: _) => true | _ => false end.

Lemma demo_computed : match demo_system with Some s => demo_holds s | None => false end = true.
Proof. vm_compute. reflexivity. Qed.

Lemma demo_reached :
  exists s t, reachable demo_timeouts demo_config s /\ holds s.(sy_daemon) (client_at 2 s.(sy_daemon).(d_clients)) t.
Proof.
  destruct (run_reachable demo_run demo_holds demo_computed) as (s & Hr & H). unfold demo_holds in H.
  apply andb_true_iff in H as [Ha Ht]. destruct (cl_tokens _) as [[|[t|] l]|] eqn:El; try done.
  exists s, t. split; [done|]. split_and!; [|done|].
  - eapply list_elem_of_lookup_2, used_lookup. unfold alive in Ha. apply andb_true_iff in Ha as [Hu _]. by zbool.
  - exists (Some t :: l). split; [done|]. apply list_elem_of_here.
Qed.

Lemma lockspace_outlives_holders_witness :
  exists s t sp, reachable demo_timeouts demo_config s /\
    holds s.(sy_daemon) (client_at 2 s.(sy_daemon).(d_clients)) t /\ lockspace_of t s.(sy_daemon).(d_spaces) sp.
Proof.
  destruct demo_reached as (s & t & Hr & Hh).
  destruct (lockspace_outlives_holders _ _ _ _ _ Hr Hh) as [sp Hsp]. by exists s, t, sp.
Defined.

Lemma lockspaces_well_formed_witness :
  exists s, reachable demo_timeouts demo_config s /\ lists_ok s.(sy_daemon).(d_spaces).
Proof.
  destruct demo_reached as (s & t & Hr & _). exists s. split; [done|].
  exact (lockspaces_well_formed _ _ _ Hr).
Defined.

Definition demo_pass : pass := Pass 100 true (fun _ => WriteOk) (fun _ => 0) (fun _ => 0).

Lemma main_turn_total_witness :
  exists s r, reachable demo_timeouts demo_config s /\
    main_turn demo_timeouts demo_pass s.(sy_daemon).(d_spaces) s.(sy_daemon).(d_clients) = Some r.
Proof.
  destruct demo_reached as (s & t & Hr & _).
  destruct (main_turn_total demo_timeouts demo_config s demo_pass Hr eq_refl) as (stop & ms & ls & cs & E & _).
  by exists s, (stop, ms, ls, cs).
Defined.

(** ** Commands that end in a bad state *)

(** Nothing runs any more. *)
Definition quiescent (s : system) : bool :=
  idle s && forallb (fun w => match w with Done _ => true | _ => false end) s.(sy_workers).

(** The second process sets the killpath of the first one, which dies before the
    worker is done. *)
Definition demo_killpath : sm_header := demo_header SM_CMD_KILLPATH 0 1000.
Definition demo_killpath_run : list action :=
  demo_serve 1 demo_add 10 ++ demo_serve 2 (demo_header SM_CMD_REGISTER 0 0) 0 ++
  demo_serve 1 demo_add 11 ++ demo_serve 3 demo_killpath 0 ++
  [Dead 2; RunMain (demo_answer demo_killpath 0) 20; RunWorker 0 (demo_answer demo_killpath 0) 40].

(** The first process converts a lock, and the receive of the resource fails. *)
Definition demo_convert : sm_header := demo_header SM_CMD_CONVERT 0 (2 ^ 32 - 1).
Definition demo_no_resource (q : query) : answer q :=
  match q with
  | QRecvResource _ => None
  | q => demo_answer demo_convert 0 q
  end.
Definition demo_convert_run : list action :=
  demo_serve 1 demo_add 10 ++ demo_serve 2 (demo_header SM_CMD_REGISTER 0 0) 0 ++
  demo_serve 2 demo_convert 0 ++ [RunWorker 0 demo_no_resource 40].

(** A connection that [poll] will never watch again: it is in use and suspended, and
    no thread is left to resume it. *)
Definition stranded (ci : nat) (s : system) : bool :=
  let cl := client_at ci s.(sy_daemon).(d_clients) in
  quiescent s && nz cl.(cl_used) && nz cl.(cl_suspend).

(** when a process sets the killpath of another one that dies meanwhile, the
    command ends without a reply and without resuming the connection it came from:
    the daemon reaches a state in which no thread runs and that connection is still
    suspended, so that it is neither served nor closed any more. *)
Theorem killpath_strands_connection :
  exists s, reachable demo_timeouts demo_config s /\ stranded 3 s = true.
Proof. apply (run_reachable demo_killpath_run). vm_compute. reflexivity. Qed.

(** A live process whose commands are all refused: one is recorded as active, and
    no thread is left to end it. *)
Definition wedged (ci : nat) (s : system) : bool :=
  let cl := client_at ci s.(sy_daemon).(d_clients) in
  quiescent s && alive cl && (fst (register_cmd SM_CMD_RELEASE cl) =? - EBUSY) &&
  match pid_dead_mark ci s.(sy_daemon).(d_clients) with (Some n, _) => nz n | _ => false end.

(** When the receive of its resource fails, a convert command leaves
    [cmd_active] set: the daemon reaches a state in which no thread runs, and a live
    process has every further command refused with [-EBUSY]; at its death the main
    thread defers to the active command, so that its tokens are not released. *)
Theorem convert_wedges_process :
  exists s, reachable demo_timeouts demo_config s /\ wedged 2 s = true.
Proof. apply (run_reachable demo_convert_run). vm_compute. reflexivity. Qed.
