(* ===== verification/ResourceDisk.v ===== *)
(** * Leases of resources on disk ([src/src/resource.c], first part)

    The functions of [resource.c] that read and write the blocks of a lease and
    that do not touch the lists of resources: the host block with our dblock and
    mode block, the clearing of shared leases that dead hosts left behind, the
    value block, the request record, and the report of a lease's owners. *)

From S2P Require Import Prelude OnDisk SizeFlags Timeouts Io DeltaLease PaxosBlocks PaxosBallot PaxosLease.

(** ** Constants *)

Definition LVB_SECTOR : Z := 2002.
Definition SANLK_REQUEST_MAGIC : Z := -270.
Definition SANLK_REQUEST_VERSION : Z := -271.
Definition SANLK_REQUEST_OLD : Z := -272.
Definition SANLK_REQUEST_LVER : Z := -273.
Definition PAXOS_ACQUIRE_QUIET_FAIL : Z := 0x2.
Definition PAXOS_ACQUIRE_DEBUG_ALL : Z := 0x10.

(** ** Settings *)

(** The fields of [com] that [resource.c] reads. *)
Record res_com := ResCom {
  rc_com :> command_line;
  com_quiet_fail : Z;
  com_paxos_debug_all : Z;
  com_sh_retries : Z
}.

(** ** Liveness of a shared holder *)

Definition host_live (com : command_line) (lockspace_name : list Z) (host_id gen : Z) : prog bool :=
  r ← call (CHostInfo lockspace_name host_id);
  let hs := snd r in
  if nz (fst r) then Ret true
  else if hs.(hs_last_check) =? 0 then Ret true
  else if hs.(hs_timestamp) =? 0 then Ret false
  else if gen <? hs.(hs_owner_generation) then Ret false
  else
    now ← call CMonotime;
    let dead := u64 (calc_host_dead_seconds com hs.(hs_io_timeout)) in
    if (hs.(hs_last_live) =? 0) && (dead <? u64 (now - hs.(hs_first_check))) then Ret false
    else if nz hs.(hs_last_live) && (dead <? u64 (now - hs.(hs_last_live))) then Ret false
    else Ret true.

(** ** Host blocks *)

(** [disk->offset + ((2 + host_id - 1) * token->sector_size)] *)
Definition host_block_offset (t : token) (disk : sync_disk) (host_id : Z) : Z :=
  u64 (disk.(sd_offset) + (2 + host_id - 1) * t.(t_sector_size)).

(** The bytes of [pd_end]. When [pd] is of another host it is zeroed but [pd_end]
    is not assigned, and the checksum is computed over what the stack holds. *)
Definition host_dblock (t : token) (pd : paxos_dblock) : prog (list Z) :=
  if nz pd.(pd_inp) && negb (pd.(pd_inp) =? t.(t_host_id)) then
    stk ← call (CStack sizeof_paxos_dblock);
    Ret (poke 48 (le_split 4 (dblock_checksum stk)) stk)
  else Ret (dblock_image pd pd_end0).

(** The write of the block on every disk, up to the first that fails. *)
Fixpoint write_host_disks (t : token) (disks : list sync_disk) (host_id : Z) (iobuf : mem) (rv : Z) : prog Z :=
  match disks with
  | [] => Ret rv
  | d :: disks =>
      rv ← write_iobuf d.(sd_fd) (host_block_offset t d host_id) iobuf t.(t_sector_size) t.(t_io_timeout);
      if rv <? 0 then Ret rv else write_host_disks t disks host_id iobuf rv
  end.

(** The copies into the buffer overrun it when it is shorter than the blocks. *)
Definition write_host_block (t : token) (host_id mb_gen mb_flags : Z) (pd : option paxos_dblock) : prog Z :=
  let iobuf_len := t.(t_sector_size) in
  if iobuf_len =? 0 then Ret (- EINVAL)
  else
    r ← call (CMemalign iobuf_len);
    if nz (fst r) then Ret (- ENOMEM)
    else
      iobuf ← match pd with
              | None => Ret mem_zero
              | Some pd =>
                  pd_end ← host_dblock t pd;
                  if iobuf_len <? Z.of_nat sizeof_paxos_dblock then Ub
                  else Ret (buf_put mem_zero 0 pd_end)
              end;
      iobuf ← (if nz mb_gen || nz mb_flags then
                 stk ← call (CStack sizeof_mode_block);
                 if iobuf_len <? MBLOCK_OFFSET + Z.of_nat sizeof_mode_block then Ub
                 else Ret (buf_put iobuf MBLOCK_OFFSET (mode_block_out (ModeBlock mb_flags mb_gen) stk))
               else Ret iobuf);
      write_host_disks t t.(t_disks) host_id iobuf 0.

(** [dblock] is [token->resource->dblock]. *)
Definition dblock_released (dblock : paxos_dblock) : paxos_dblock :=
  PaxosDblock dblock.(pd_mbal) dblock.(pd_bal) dblock.(pd_inp) dblock.(pd_inp2) dblock.(pd_inp3)
    dblock.(pd_lver) dblock.(pd_checksum) DBLOCK_FL_RELEASED.

Definition write_mblock_zero_dblock_release (t : token) (dblock : paxos_dblock) : prog Z :=
  write_host_block t t.(t_host_id) 0 0 (Some (dblock_released dblock)).

Definition write_mblock_shared_dblock_release (t : token) (dblock : paxos_dblock) : prog Z :=
  write_host_block t t.(t_host_id) t.(t_host_generation) MBLOCK_SHARED (Some (dblock_released dblock)).

(** Only the first disk is read. [mb] is what the caller's block held. *)
Definition read_mode_block (t : token) (host_id : Z) (mb : mode_block) : prog (Z * mode_block) :=
  let iobuf_len := t.(t_sector_size) in
  if iobuf_len =? 0 then Ret (- EINVAL, mb)
  else
    r ← call (CMemalign iobuf_len);
    if nz (fst r) then Ret (- ENOMEM, mb)
    else match t.(t_disks) with
    | [] => Ret (0, mb)
    | d :: _ =>
        r ← read_iobuf d.(sd_fd) (host_block_offset t d host_id) iobuf_len t.(t_io_timeout);
        if fst r <? 0 then Ret (fst r, mb)
        else
          mb_end ← buf_get iobuf_len (snd r) MBLOCK_OFFSET (Z.of_nat sizeof_mode_block);
          Ret (fst r, mode_block_in mb_end)
    end.

(** The loop from host index [i] on, with [n] hosts left. *)
Fixpoint clear_dead_loop (com : command_line) (t : token) (n : nat) (i rv live live_count : Z) : prog (Z * Z) :=
  match n with
  | O => Ret (rv, live)
  | S n =>
      let host_id := i + 1 in
      let next rv live := clear_dead_loop com t n (i + 1) rv live live_count in
      if host_id =? t.(t_host_id) then next rv live
      else if Z.of_nat HOSTID_BITMAP_SIZE * 8 <=? i then Ub
      else if test_id_bit host_id t.(t_shared_bitmap) =? 0 then next rv live
      else
        r ← read_mode_block t host_id (ModeBlock 0 0);
        let '(rv, mb) := r in
        if rv <? 0 then Ret (rv, live_count)
        else if negb (has_flag mb.(mb_flags) MBLOCK_SHARED) then next rv live
        else if mb.(mb_generation) =? 0 then next rv live
        else
          alive ← host_live com t.(t_lockspace_name) host_id mb.(mb_generation);
          if alive : bool then next rv (live + 1)
          else
            rv ← write_host_block t host_id 0 0 None;
            if rv <? 0 then Ret (rv, live_count) else next rv live
  end.

(** Returns the code and [*live_count], which an error leaves as it was. *)
Definition clear_dead_shared (com : command_line) (t : token) (num_hosts live_count : Z) : prog (Z * Z) :=
  clear_dead_loop com t (Z.to_nat num_hosts) 0 0 0 live_count.

(** ** The value block *)

(** A buffer with its length. *)
Record lvbuf := LvBuf { lvb_len : Z; lvb_mem : mem }.

Definition lvb_offset (t : token) (disk : sync_disk) : Z :=
  u64 (disk.(sd_offset) + LVB_SECTOR * t.(t_sector_size)).

(** The read replaces the first [sector_size] bytes of the buffer. *)
Definition read_lvb_block (t : token) (lvb : option lvbuf) : prog (Z * option lvbuf) :=
  disk ← disk0 t;
  match lvb with
  | None => Ret (0, None)
  | Some b =>
      let iobuf_len := t.(t_sector_size) in
      if b.(lvb_len) <? iobuf_len then Ub
      else
        r ← read_iobuf disk.(sd_fd) (lvb_offset t disk) iobuf_len t.(t_io_timeout);
        Ret (fst r, Some (LvBuf b.(lvb_len) (mem_write b.(lvb_mem) 0 iobuf_len (snd r))))
  end.

Definition write_lvb_block (t : token) (lvb : option lvbuf) : prog Z :=
  disk ← disk0 t;
  match lvb with
  | None => Ret 0
  | Some b =>
      let iobuf_len := t.(t_sector_size) in
      if b.(lvb_len) <? iobuf_len then Ub
      else write_iobuf disk.(sd_fd) (lvb_offset t disk) b.(lvb_mem) iobuf_len t.(t_io_timeout)
  end.

(** ** Acquire and release of the paxos lease *)

(** The flags [acquire_disk] passes. *)
Definition acquire_disk_flags (com : res_com) (shared owner_nowait : bool) : Z :=
  let f := if nz com.(com_quiet_fail) then PAXOS_ACQUIRE_QUIET_FAIL else 0 in
  let f := if nz com.(com_paxos_debug_all) then Z.lor f PAXOS_ACQUIRE_DEBUG_ALL else f in
  let f := if shared then Z.lor f PAXOS_ACQUIRE_SHARED else f in
  if owner_nowait then Z.lor f PAXOS_ACQUIRE_OWNER_NOWAIT else f.

(** The flags [convert_sh2ex_token] passes. *)
Definition convert_flags (com : res_com) (owner_nowait : bool) : Z :=
  let f := if owner_nowait then PAXOS_ACQUIRE_OWNER_NOWAIT else 0 in
  let f := if nz com.(com_quiet_fail) then Z.lor f PAXOS_ACQUIRE_QUIET_FAIL else f in
  if nz com.(com_paxos_debug_all) then Z.lor f PAXOS_ACQUIRE_DEBUG_ALL else f.

(** Returns the code, and the record that the copy leaves in [*leader]. [junk]
    stands for the indeterminate locals of the callee. *)
Definition release_disk (t : token) (resrename : option (list Z)) (leader junk : leader_record)
    : prog (Z * leader_record) :=
  r ← paxos_lease_release t resrename (Some leader) junk junk;
  if fst r <? 0 then Ret (fst r, leader) else Ret r.

(** ** Request records *)

(** The checks of a request record that was read. *)
Definition request_check (req : request_record) : option Z :=
  if negb (req.(rr_magic) =? REQ_DISK_MAGIC) then Some SANLK_REQUEST_MAGIC
  else if negb (Z.land req.(rr_version) 0xFFFF0000 =? REQ_DISK_VERSION_MAJOR) then Some SANLK_REQUEST_VERSION
  else None.

(** [req_read:] to the end. *)
Definition request_write (t : token) (acquire_lver force_mode : Z) : prog Z :=
  r ← paxos_lease_request_read t (RequestRecord 0 0 0 0);
  let '(rv, req) := r in
  if rv <? 0 then Ret rv
  else match request_check req with
  | Some rv => Ret rv
  | None =>
      if negb ((acquire_lver =? 0) && (force_mode =? 0)) && (acquire_lver <? req.(rr_lver))
      then Ret SANLK_REQUEST_LVER
      else paxos_lease_request_write t
             (RequestRecord req.(rr_magic) (Z.lor REQ_DISK_VERSION_MAJOR REQ_DISK_VERSION_MINOR)
                acquire_lver force_mode)
  end.

(** Between the opening and the closing of the disks: the code, [*owner_id] (which
    some paths leave as it was), the token and its [acquire_lver]. *)
Definition request_opened (t : token) (acquire_lver force_mode owner_id : Z) (next_lver : bool)
    (junk : leader_record) : prog (Z * Z * token * Z) :=
  if (acquire_lver =? 0) && (force_mode =? 0) then
    rv ← request_write t acquire_lver force_mode; Ret (rv, owner_id, t, acquire_lver)
  else
    r ← paxos_lease_leader_read t junk;
    let '(rv, leader) := r in
    if rv <? 0 then Ret (rv, owner_id, t, acquire_lver)
    else
      let align_size := leader_align_size leader in
      let t := if negb (leader.(lr_sector_size) =? u32 t.(t_sector_size)) || negb (align_size =? t.(t_align_size))
               then with_sizes (i32 leader.(lr_sector_size)) align_size t else t in
      if leader.(lr_timestamp) =? LEASE_FREE then Ret (SANLK_OK, 0, t, acquire_lver)
      else
        let acquire_lver := if (acquire_lver =? 0) && next_lver then u64 (leader.(lr_lver) + 1)
                            else acquire_lver in
        if acquire_lver <=? leader.(lr_lver) then Ret (SANLK_REQUEST_OLD, leader.(lr_owner_id), t, acquire_lver)
        else
          rv ← request_write t acquire_lver force_mode;
          Ret (rv, leader.(lr_owner_id), t, acquire_lver).

Definition with_disks (ds : list sync_disk) (t : token) : token :=
  Token t.(t_host_id) t.(t_host_generation) t.(t_io_timeout) t.(t_flags) t.(t_sector_size)
    t.(t_align_size) t.(t_shared_count) t.(t_shared_bitmap) ds t.(t_lockspace_name) t.(t_name) t.(t_r_flags).

Definition request_token (t : token) (acquire_lver force_mode owner_id : Z) (next_lver : bool)
    (junk : leader_record) : prog (Z * Z * token * Z) :=
  o ← open_disks t.(t_disks);
  let t := with_disks (snd o) t in
  if fst o <? 0 then Ret (fst o, owner_id, t, acquire_lver)
  else
    r ← request_opened t acquire_lver force_mode owner_id next_lver junk;
    let '(rv, owner_id, t, acquire_lver) := r in
    ds ← close_disks t.(t_disks);
    Ret (rv, owner_id, with_disks ds t, acquire_lver).

(** Returns the code, and [*req_out] when it is assigned. *)
Definition examine_token (t : token) : prog (Z * option request_record) :=
  r ← paxos_lease_request_read t (RequestRecord 0 0 0 0);
  let '(rv, req) := r in
  if rv <? 0 then Ret (rv, None)
  else match request_check req with
  | Some rv => Ret (rv, None)
  | None => Ret (rv, Some req)
  end.

(** ** Owners of a lease *)

Record sanlk_host := Host { h_host_id : Z; h_generation : Z; h_timestamp : Z }.

Definition leader_owned (leader : leader_record) : bool := nz leader.(lr_timestamp) && nz leader.(lr_owner_id).

(** The hosts from index [i] on whose mode block is shared, the leader's owner
    left out; whether any mode block is shared, the owner's included. *)
Fixpoint shared_hosts (buf_len : Z) (buf : mem) (sector_size : Z) (leader : leader_record) (n : nat) (i : Z)
    : prog (bool * list sanlk_host) :=
  match n with
  | O => Ret (false, [])
  | S n =>
      mb_end ← buf_get buf_len buf ((2 + i) * sector_size + MBLOCK_OFFSET) (Z.of_nat sizeof_mode_block);
      let mb := mode_block_in mb_end in
      r ← shared_hosts buf_len buf sector_size leader n (i + 1);
      if negb (has_flag mb.(mb_flags) MBLOCK_SHARED) then Ret r
      else if leader_owned leader && (i + 1 =? leader.(lr_owner_id)) then Ret (true, snd r)
      else Ret (true, Host (i + 1) mb.(mb_generation) 0 :: snd r)
  end.

Definition owner_hosts (leader : leader_record) : list sanlk_host :=
  if leader_owned leader
  then [Host leader.(lr_owner_id) leader.(lr_owner_generation) leader.(lr_timestamp)] else [].

(** What the caller gets: the code, the token, [res->lver] and [res->flags], and
    the hosts sent, [None] when [*send_buf] is not assigned. *)
Record owners := Owners {
  ow_rv : Z;
  ow_token : token;
  ow_res : sanlk_resource;
  ow_count : option Z;
  ow_hosts : option (list sanlk_host)
}.

Definition SANLK_RES_SHARED : Z := 0x4.

Definition owners_of (t : token) (res : sanlk_resource) (leader : leader_record) (lease_buf : mem)
    (align_size : Z) : prog owners :=
  s ← shared_hosts align_size lease_buf t.(t_sector_size) leader (Z.to_nat leader.(lr_num_hosts)) 0;
  let flags := if fst s : bool then Z.lor res.(sr_flags) SANLK_RES_SHARED else res.(sr_flags) in
  let res := Resource res.(sr_lockspace_name) res.(sr_name) leader.(lr_lver) flags in
  let hosts := owner_hosts leader ++ snd s in
  let count := Z.of_nat (length hosts) in
  if count =? 0 then Ret (Owners 0 t res (Some 0) (Some []))
  else
    ok ← call (CMalloc (count * 40));
    if ok : bool then Ret (Owners 0 t res (Some count) (Some hosts))
    else Ret (Owners (- ENOMEM) t res (Some count) (Some [])).

(** [retry:], one unit of fuel each time. A positive code of the read, which is
    the errno of its allocation, is not taken for an error: the copy is then out
    of a NULL buffer. *)
Fixpoint read_owners_loop (fuel : nat) (t : token) (sector_size_set align_size_set : bool)
    (res : sanlk_resource) : prog (option owners) :=
  match fuel with
  | O => Ret None
  | S fuel =>
      r ← paxos_read_buf t;
      if fst r <? 0 then Ret (Some (Owners (fst r) t res None None))
      else match snd r with
      | None => Ub
      | Some lease_buf =>
          leader_end ← buf_get t.(t_align_size) lease_buf 0 (Z.of_nat sizeof_leader_record);
          let checksum := leader_checksum leader_end in
          let leader := leader_record_in leader_end in
          let align_size := leader_align_size leader in
          let differ_ss := negb (u32 t.(t_sector_size) =? leader.(lr_sector_size)) in
          let differ_al := negb (t.(t_align_size) =? align_size) in
          if sector_size_set && differ_ss then Ret (Some (Owners (- EINVAL) t res None (Some [])))
          else if align_size_set && differ_al then Ret (Some (Owners (- EINVAL) t res None (Some [])))
          else if differ_ss || differ_al then
            read_owners_loop fuel (with_sizes (i32 leader.(lr_sector_size)) align_size t)
              sector_size_set align_size_set res
          else
            disk ← disk0 t;
            rv ← paxos_verify_leader t disk leader checksum;
            if rv <? 0 then Ret (Some (Owners rv t res None (Some [])))
            else o ← owners_of t res leader lease_buf align_size; Ret (Some o)
      end
  end.

Definition read_resource_owners (fuel : nat) (t : token) (res : sanlk_resource) : prog (option owners) :=
  let sector_size_set := nz t.(t_sector_size) in
  let align_size_set := nz t.(t_align_size) in
  let ss := if sector_size_set then t.(t_sector_size) else 512 in
  let al := if align_size_set then t.(t_align_size) else sector_size_to_align_size_old ss in
  read_owners_loop fuel (with_sizes ss al t) sector_size_set align_size_set res.
