(* ===== verification/Rindex.v ===== *)
(** * The resource index ([src/src/rindex.c])

    An area of a device that records the names and offsets of the resource leases
    that follow it, with a paxos lease of its own in the second area. The functions
    are programs over the effects of [Io]; [lockspace_begin_rindex_op] and
    [lockspace_clear_rindex_op] (modelled in [Lockspace]) are calls. *)

From S2P Require Import Prelude SizeFlags OnDisk Timeouts Io DeltaLease PaxosBlocks PaxosBallot PaxosLease ResourceDisk.

(** ** Constants *)

Definition RINDEX_DISK_MAGIC : Z := 0x01042018.
Definition RINDEX_DISK_VERSION_MAJOR : Z := 0x00010000.
Definition RINDEX_DISK_VERSION_MINOR : Z := 0x00000002.
Definition SANLK_RINDEX_MAGIC : Z := -274.
Definition SANLK_RINDEX_VERSION : Z := -275.
Definition SANLK_RINDEX_LOCKSPACE : Z := -276.
Definition SANLK_RINDEX_OFFSET : Z := -277.
Definition SANLK_RINDEX_DIFF : Z := -278.
Definition RX_OP_CREATE : Z := 2.
Definition RX_OP_DELETE : Z := 3.
Definition RX_OP_LOOKUP : Z := 4.
Definition RX_OP_UPDATE : Z := 5.
Definition RX_OP_REBUILD : Z := 6.
Definition SANLK_RX_NO_LOCKSPACE : Z := 0x1.
Definition SANLK_RXUP_ADD : Z := 0x10000.
Definition SANLK_RXUP_REM : Z := 0x20000.
Definition ENOENT : Z := 2.
Definition EMSGSIZE : Z := 90.

(** ** Data *)

Record sanlk_rindex := Rindex {
  ri_flags : Z;
  ri_max_resources : Z;
  ri_lockspace_name : list Z;
  ri_disk : sync_disk
}.

Record sanlk_rentry := Rentry {
  rn_name : list Z;
  rn_offset : Z
}.

(** What is used of [struct space_info]. *)
Record rx_space := RxSpace {
  rs_io_timeout : Z;
  rs_sector_size : Z;
  rs_host_id : Z;
  rs_host_generation : Z
}.

(** [struct rindex_info]: the index, its open disk, the header. *)
Record rindex_info := RindexInfo {
  rx_ri : sanlk_rindex;
  rx_disk : sync_disk;
  rx_header : rindex_header
}.

Definition no_space : rx_space := RxSpace 0 0 0 0.
Definition header_zero : rindex_header := rindex_header_in (zeros sizeof_rindex_header).
Definition entry_zero : rindex_entry := rindex_entry_in (zeros sizeof_rindex_entry).

Definition rx_ss (rx : rindex_info) : Z := i32 rx.(rx_header).(rh_sector_size).
Definition rx_align (rx : rindex_info) : Z := rindex_header_align_size_from_flag rx.(rx_header).(rh_flags).

(** ** Tokens *)

(** ["rindex_lease"] in an array of zeros. *)
Definition rindex_lease_name : list Z := strncpy NAME_ID_SIZE [114; 105; 110; 100; 101; 120; 95; 108; 101; 97; 115; 101].

Definition rx_token (rx : rindex_info) (name : list Z) (offset ss al io_timeout : Z) (sp : option rx_space) : token :=
  Token (match sp with Some s => s.(rs_host_id) | None => 0 end)
    (match sp with Some s => s.(rs_host_generation) | None => 0 end) io_timeout 0 ss al 0 (zeros HOSTID_BITMAP_SIZE)
    [SyncDisk rx.(rx_disk).(sd_path) offset 0 rx.(rx_disk).(sd_fd)] rx.(rx_ri).(ri_lockspace_name) name
    (Z.lor (sanlk_res_sector_size_to_flag ss) (sanlk_res_align_size_to_flag al)).

(** [None]: the allocation failed. *)
Definition setup_rindex_token (com : command_line) (rx : rindex_info) (ss al : Z) (spi : option rx_space) : prog (option token) :=
  ok ← call (CMalloc 0);
  if ok : bool then
    Ret (Some (rx_token rx rindex_lease_name (u64 (rx.(rx_disk).(sd_offset) + al)) ss al
                 (match spi with Some s => s.(rs_io_timeout) | None => com.(com_io_timeout) end) spi))
  else Ret None.

(** The offset is set later. *)
Definition setup_resource_token (com : command_line) (rx : rindex_info) (res_name : list Z) (ss al : Z) (spi : option rx_space)
    : prog (option token) :=
  ok ← call (CMalloc 0);
  if ok : bool then
    Ret (Some (rx_token rx res_name 0 ss al
                 (match spi with Some s => s.(rs_io_timeout) | None => com.(com_io_timeout) end) None))
  else Ret None.

Definition set_offset (off : Z) (t : token) : token :=
  with_disks ((fun d => SyncDisk d.(sd_path) off d.(sd_sector_size) d.(sd_fd)) <$> t.(t_disks)) t.

(** ** Entries *)

Definition size_to_max_resources (sector_size align_size : Z) : Z :=
  if (sector_size =? 512) && (align_size =? ALIGN_SIZE_1M) then 16000
  else if (sector_size =? 4096) && (align_size =? ALIGN_SIZE_1M) then 16000
  else if (sector_size =? 4096) && (align_size =? ALIGN_SIZE_2M) then 32000
  else if (sector_size =? 4096) && (align_size =? ALIGN_SIZE_4M) then 64000
  else if (sector_size =? 4096) && (align_size =? ALIGN_SIZE_8M) then 128000
  else 16000.

Definition entry_size : Z := Z.of_nat sizeof_rindex_entry.

Definition is_free (re : rindex_entry) : bool := (re.(re_res_offset) =? 0) && (nth 0 re.(re_name) 0 =? 0).
Definition has_name (name : list Z) (re : rindex_entry) : bool :=
  nz (nth 0 re.(re_name) 0) && strncmp_eq NAME_ID_SIZE re.(re_name) name.

(** The entries from number [i] on, [n] of them: the offsets of the first that is free
    (when [name] is [None]) or has the name. [i * align_size] is a product of [int]s. *)
Fixpoint search_loop (rx : rindex_info) (len : Z) (iobuf : mem) (name : option (list Z)) (n : nat) (i : Z)
    : prog (option (Z * Z)) :=
  match n with
  | O => Ret None
  | S n =>
      let ent_offset := u64 (rx_ss rx + i * entry_size) in
      bs ← buf_get len iobuf ent_offset entry_size;
      let re := rindex_entry_in bs in
      if match name with None => is_free re | Some nm => has_name nm re end then
        area ← smul i (rx_align rx);
        Ret (Some (ent_offset, u64 (rx.(rx_disk).(sd_offset) + 2 * rx_align rx + area)))
      else search_loop rx len iobuf name n (i + 1)
  end.

Definition rx_max_resources (rx : rindex_info) : Z :=
  if rx.(rx_header).(rh_max_resources) =? 0 then size_to_max_resources (rx_ss rx) (rx_align rx)
  else rx.(rx_header).(rh_max_resources).

(** [None]: ENOENT. The buffer is of the align size. *)
Definition search_entries (rx : rindex_info) (iobuf : mem) (name : option (list Z)) : prog (option (Z * Z)) :=
  search_loop rx (rx_align rx) iobuf name (Z.to_nat (rx_max_resources rx)) 0.

(** The sector of the entry is written, with the entry replaced. A positive code is
    the errno of the allocation. *)
Definition update_rindex (io_timeout : Z) (rx : rindex_info) (iobuf : mem) (name : list Z)
    (ent_offset res_offset : Z) (delete : bool) : prog Z :=
  let ss := rx_ss rx in
  if ss =? 0 then Ub
  else
    let sector_offset := u32 (ent_offset / u64 ss * u64 ss) in
    let in_sector := u32 (ent_offset mod u64 ss) in
    r ← call (CMemalign ss);
    if nz (fst r) then Ret (fst r)
    else
      let re_new := if delete then entry_zero else RindexEntry res_offset 0 0 name in
      sector ← buf_get (rx_align rx) iobuf sector_offset ss;
      if ss <? in_sector + entry_size then Ub
      else
        write_iobuf rx.(rx_disk).(sd_fd) (u64 (rx.(rx_disk).(sd_offset) + sector_offset))
          (buf_put (mem_of sector) in_sector (rindex_entry_out re_new (zeros sizeof_rindex_entry))) ss io_timeout.

(** [None]: the buffer is not assigned. *)
Definition read_rindex (io_timeout : Z) (rx : rindex_info) : prog (Z * option mem) :=
  r ← call (CMemalign (rx_align rx));
  if nz (fst r) then Ret (fst r, None)
  else
    r ← read_iobuf rx.(rx_disk).(sd_fd) rx.(rx_disk).(sd_offset) (rx_align rx) io_timeout;
    if fst r <? 0 then Ret (fst r, None) else Ret (fst r, Some (snd r)).

(** [!strcmp(a, b)] of two arrays of characters: [None] when it reads past the end of
    one of them, with neither a NUL nor a difference up to there. *)
Fixpoint strcmp_eq (a b : list Z) : option bool :=
  match a, b with
  | x :: a, y :: b => if x =? y then if x =? 0 then Some true else strcmp_eq a b else Some false
  | _, _ => None
  end.

(** The checks of a header that was read; [None] when [strcmp] reads past the names,
    which need no NUL. *)
Definition check_header (rx : rindex_info) : option Z :=
  let h := rx.(rx_header) in
  if negb (h.(rh_magic) =? RINDEX_DISK_MAGIC) then Some SANLK_RINDEX_MAGIC
  else if negb (Z.land h.(rh_version) 0xFFFF0000 =? RINDEX_DISK_VERSION_MAJOR) then Some SANLK_RINDEX_VERSION
  else
    same ← strcmp_eq h.(rh_lockspace_name) rx.(rx_ri).(ri_lockspace_name);
    if negb same then Some SANLK_RINDEX_LOCKSPACE
    else if negb (h.(rh_rx_offset) =? rx.(rx_disk).(sd_offset)) then Some SANLK_RINDEX_OFFSET
    else Some 0.

(** Returns the code, [spi] with its io timeout, and the index with its header. *)
Definition read_rindex_header (com : command_line) (spi : rx_space) (rx : rindex_info) : prog (Z * rx_space * rindex_info) :=
  let ss := if spi.(rs_sector_size) =? 0 then 4096 else spi.(rs_sector_size) in
  let spi := if spi.(rs_io_timeout) =? 0
             then RxSpace com.(com_io_timeout) spi.(rs_sector_size) spi.(rs_host_id) spi.(rs_host_generation) else spi in
  r ← call (CMemalign ss);
  if nz (fst r) then Ret (- ENOMEM, spi, rx)
  else
    r ← read_iobuf rx.(rx_disk).(sd_fd) rx.(rx_disk).(sd_offset) ss spi.(rs_io_timeout);
    if fst r <? 0 then Ret (fst r, spi, rx)
    else
      bs ← buf_get ss (snd r) 0 (Z.of_nat sizeof_rindex_header);
      let rx := RindexInfo rx.(rx_ri) rx.(rx_disk) (rindex_header_in bs) in
      match check_header rx with
      | None => Ub
      | Some rv => Ret (if rv <? 0 then rv else fst r, spi, rx)
      end.

(** ** Format *)

Definition format_header (ri : sanlk_rindex) (offset ss al max_resources : Z) : rindex_header :=
  RindexHeader RINDEX_DISK_MAGIC (Z.lor RINDEX_DISK_VERSION_MAJOR RINDEX_DISK_VERSION_MINOR)
    (rindex_header_align_flag_from_size al) (u32 ss) max_resources 0 offset
    (strncpy NAME_ID_SIZE ri.(ri_lockspace_name)).

(** The number of entries of a new index. *)
Definition format_max (ri : sanlk_rindex) (ss al : Z) : Z :=
  let max := if ri.(ri_max_resources) =? 0 then 4096 else ri.(ri_max_resources) in
  let limit := size_to_max_resources ss al in
  if limit <? max then limit else max.

Definition close_disk (d : sync_disk) : prog unit := close_disks [d];; Ret tt.

(** With the disk open: the code. *)
Definition format_opened (com : command_line) (ri : sanlk_rindex) (disk : sync_disk) (ss al : Z) : prog Z :=
  r ← call (CMemalign al);
  if nz (fst r) then Ret (fst r)
  else
    let rh_end := rindex_header_out (format_header ri disk.(sd_offset) ss al (format_max ri ss al)) (zeros sizeof_rindex_header) in
    if al <? Z.of_nat sizeof_rindex_header then Ub
    else
      let ioto := if nz com.(com_write_init_io_timeout) then com.(com_write_init_io_timeout) else com.(com_io_timeout) in
      rv ← write_iobuf disk.(sd_fd) disk.(sd_offset) (buf_put mem_zero 0 rh_end) al ioto;
      if rv <? 0 then Ret rv
      else
        o ← setup_rindex_token com (RindexInfo ri disk header_zero) ss al None;
        match o with
        | None => Ret (- ENOMEM)
        | Some t => r ← paxos_lease_init com t 0 false; Ret (if fst r <? 0 then fst r else 0)
        end.

(** When the flags are bad the disk stays open. *)
Definition rindex_format (com : command_line) (ri : sanlk_rindex) : prog Z :=
  o ← open_disk ri.(ri_disk);
  let disk := snd o in
  if fst o <? 0 then Ret (fst o)
  else
    let '(rv, sz) := sizes_from_flags ri.(ri_flags) "RIF" in
    if nz rv then Ret rv
    else
      let '(ss, al, _) := format_sizes disk sz in
      rv ← format_opened com ri disk ss al;
      close_disk disk;;
      Ret rv.

(** ** Operations under the lease of the index *)

Section rindex.
Context (com : command_line) (fuel : nat) (one : lease_area) (junk_acq : acq) (junk : leader_record).

(** [rindex_create] while the lease is held: the code and [re_ret->offset]. A NULL
    buffer, when its allocation failed, is dereferenced. *)
Definition create_locked (io_timeout : Z) (rx : rindex_info) (res_token : token) (re : sanlk_rentry) (num_hosts : Z)
    : prog (Z * option Z) :=
  r ← read_rindex io_timeout rx;
  if fst r <? 0 then Ret (fst r, None)
  else match snd r with
  | None => Ub
  | Some iobuf =>
      s ← search_entries rx iobuf None;
      match s with
      | None => Ret (- ENOENT, None)
      | Some (ent_offset, res_offset) =>
          i ← paxos_lease_init com (set_offset res_offset res_token) num_hosts false;
          if fst i <? 0 then Ret (fst i, None)
          else
            rv ← update_rindex io_timeout rx iobuf re.(rn_name) ent_offset res_offset false;
            if rv <? 0 then Ret (rv, None) else Ret (0, Some res_offset)
      end
  end.

(** [rindex_delete] while the lease is held. *)
Definition delete_locked (io_timeout : Z) (rx : rindex_info) (res_token : token) (re : sanlk_rentry)
    : prog (Z * option Z) :=
  r ← read_rindex io_timeout rx;
  if fst r <? 0 then Ret (fst r, None)
  else match snd r with
  | None => Ub
  | Some iobuf =>
      s ← search_entries rx iobuf (Some re.(rn_name));
      match s with
      | None => Ret (- ENOENT, None)
      | Some (ent_offset, res_offset) =>
          rv ← update_rindex io_timeout rx iobuf re.(rn_name) ent_offset res_offset true;
          if rv <? 0 then Ret (rv, None)
          else
            i ← paxos_lease_init com (set_offset res_offset res_token) 0 true;
            if fst i <? 0 then Ret (fst i, None) else Ret (0, Some 0)
      end
  end.

(** The loop of [rindex_rebuild] from entry [i] on: the buffer with the leases found.
    [paxos_read_resource] changes the token. *)
Fixpoint rebuild_loop (rx : rindex_info) (n : nat) (i res_offset : Z) (t : token) (iobuf : mem) : prog mem :=
  match n with
  | O => Ret iobuf
  | S n =>
      let t := set_offset res_offset (with_names t.(t_lockspace_name) (zeros NAME_ID_SIZE) t) in
      r ← paxos_read_resource t (Resource (zeros NAME_ID_SIZE) (zeros NAME_ID_SIZE) 0 0);
      let '(rv, t, res) := r in
      if rv =? - EMSGSIZE then Ret iobuf
      else
        iobuf ← (if rv =? SANLK_OK then
                   let ent_offset := u64 (rx_ss rx + i * entry_size) in
                   let re_end := rindex_entry_out (RindexEntry res_offset 0 0 res.(sr_name)) (zeros sizeof_rindex_entry) in
                   if rx_align rx <? ent_offset + entry_size then Ub else Ret (buf_put iobuf ent_offset re_end)
                 else Ret iobuf);
        rebuild_loop rx n (i + 1) (u64 (res_offset + rx_align rx)) t iobuf
  end.

Definition rebuild_locked (io_timeout : Z) (rx : rindex_info) (res_token : token) : prog Z :=
  r ← read_rindex io_timeout rx;
  if fst r <? 0 then Ret (fst r)
  else match snd r with
  | None => Ub
  | Some iobuf =>
      let al := rx_align rx in
      if al <? rx_ss rx then Ub
      else
        let iobuf := mem_write iobuf (rx_ss rx) (al - rx_ss rx) mem_zero in
        iobuf ← rebuild_loop rx (Z.to_nat (rx_max_resources rx)) 0
                  (u64 (rx.(rx_disk).(sd_offset) + 2 * al)) (with_flags (Z.lor res_token.(t_flags) T_CHECK_EXISTS) res_token) iobuf;
        rv ← write_iobuf rx.(rx_disk).(sd_fd) rx.(rx_disk).(sd_offset) iobuf al io_timeout;
        Ret (if rv <? 0 then rv else 0)
  end.

(** [paxos_lease_acquire] of the index's lease, the body, [paxos_lease_release]. [None]:
    the loop of the acquire goes on. *)
Definition with_lease {A} (t : token) (fail : Z -> A) (body : prog A) : prog (option A) :=
  o ← paxos_lease_acquire com (Z.lor PAXOS_ACQUIRE_OWNER_NOWAIT PAXOS_ACQUIRE_QUIET_FAIL) 0 0 fuel one t
        (aq_set_ret junk junk_acq.(aq_dblock_ret) junk_acq);
  match o with
  | None => Ret None
  | Some (rv, a) =>
      if rv <? 0 then Ret (Some (fail rv))
      else
        r ← body;
        _ ← paxos_lease_release a.(aq_token) None (Some a.(aq_leader_ret)) junk a.(aq_leader_ret);
        Ret (Some r)
  end.

(** The frame of every operation: the disk is opened, the operation is announced to the
    lockspace unless [nolock], the header is read; all is undone at the end. *)
Definition rindex_op {A} (ri : sanlk_rindex) (op : Z) (nolock : bool) (fail : Z -> A)
    (body : rx_space -> rindex_info -> prog (option A)) : prog (option A) :=
  o ← open_disk ri.(ri_disk);
  let disk := snd o in
  if fst o <? 0 then Ret (Some (fail (fst o)))
  else
    b ← (if nolock then Ret (0, no_space)
         else
           b ← call (CBeginRindexOp ri.(ri_lockspace_name) op);
           let '(rv, (iot, ss, id, gen)) := b in Ret (rv, RxSpace iot ss id gen));
    if fst b <? 0 then close_disk disk;; Ret (Some (fail (fst b)))
    else
      h ← read_rindex_header com (snd b) (RindexInfo ri disk header_zero);
      let '(rv, spi, rx) := h in
      r ← (if rv <? 0 then Ret (Some (fail rv)) else body spi rx);
      match r with
      | None => Ret None
      | Some r =>
          (if nolock then Ret tt else call (CClearRindexOp ri.(ri_lockspace_name)));;
          close_disk disk;;
          Ret (Some r)
      end.

(** The two tokens that create, delete and rebuild set up. *)
Definition with_tokens {A} (spi : rx_space) (rx : rindex_info) (name : list Z) (fail : Z -> A)
    (body : token -> token -> prog (option A)) : prog (option A) :=
  o ← setup_rindex_token com rx (rx_ss rx) (rx_align rx) (Some spi);
  match o with
  | None => Ret (Some (fail (- ENOMEM)))
  | Some rx_token =>
      o ← setup_resource_token com rx name (rx_ss rx) (rx_align rx) (Some spi);
      match o with
      | None => Ret (Some (fail (- ENOMEM)))
      | Some res_token => body rx_token res_token
      end
  end.

(** Results: the code, and what is stored in [re_ret]. *)
Definition rindex_create (ri : sanlk_rindex) (re : sanlk_rentry) (num_hosts : Z) : prog (option (Z * option Z)) :=
  let fail rv := (rv, None) in
  rindex_op ri RX_OP_CREATE false fail (fun spi rx =>
    with_tokens spi rx re.(rn_name) fail (fun rx_token res_token =>
      with_lease rx_token fail (create_locked spi.(rs_io_timeout) rx res_token re num_hosts))).

(** The remainder by an align size of 0, from a header without align flag, traps. *)
Definition misaligned (rx : rindex_info) (off : Z) : prog bool :=
  if off =? 0 then Ret false
  else if rx_align rx =? 0 then Ub
  else Ret (nz (off mod rx_align rx)).

Definition rindex_delete (ri : sanlk_rindex) (re : sanlk_rentry) : prog (option (Z * option Z)) :=
  let fail rv := (rv, None) in
  rindex_op ri RX_OP_DELETE false fail (fun spi rx =>
    bad ← misaligned rx re.(rn_offset);
    if bad : bool then Ret (Some (fail SANLK_RINDEX_OFFSET))
    else
      with_tokens spi rx re.(rn_name) fail (fun rx_token res_token =>
        with_lease rx_token fail (delete_locked spi.(rs_io_timeout) rx res_token re))).

Definition rindex_rebuild (ri : sanlk_rindex) (cmd_flags : Z) : prog (option Z) :=
  let nolock := has_flag cmd_flags SANLK_RX_NO_LOCKSPACE in
  rindex_op ri RX_OP_REBUILD nolock (fun rv => rv) (fun spi rx =>
    with_tokens spi rx (zeros NAME_ID_SIZE) (fun rv => rv) (fun rx_token res_token =>
      if nolock then r ← rebuild_locked spi.(rs_io_timeout) rx res_token; Ret (Some r)
      else with_lease rx_token (fun rv => rv) (rebuild_locked spi.(rs_io_timeout) rx res_token))).

(** The number of the entry of a lease at the offset, an [int], and the offset of the
    entry. *)
Definition entry_num (rx : rindex_info) (res_offset : Z) : Z :=
  i32 (u64 (res_offset - rx.(rx_disk).(sd_offset) - 2 * rx_align rx) / u64 (rx_align rx)).
Definition entry_offset (rx : rindex_info) (n : Z) : Z := u64 (rx_ss rx + u64 (u64 n * entry_size)).

(** The entry that the index has for the offset. *)
Definition entry_at (rx : rindex_info) (iobuf : mem) (res_offset : Z) : prog rindex_entry :=
  if rx_align rx =? 0 then Ub
  else
    bs ← buf_get (rx_align rx) iobuf (entry_offset rx (entry_num rx res_offset)) entry_size;
    Ret (rindex_entry_in bs).

(** The search of [rindex_lookup] by what is given of name and offset. *)
Definition lookup_entry (rx : rindex_info) (iobuf : mem) (re : sanlk_rentry) : prog (Z * option sanlk_rentry) :=
  let no_name := nth 0 re.(rn_name) 0 =? 0 in
  if rn_offset re =? 0 then
    s ← search_entries rx iobuf (if no_name then None else Some re.(rn_name));
    match s with
    | None => Ret (- ENOENT, None)
    | Some (_, res_offset) =>
        Ret (0, Some (Rentry (if no_name then zeros NAME_ID_SIZE else re.(rn_name)) res_offset))
    end
  else
    e ← entry_at rx iobuf re.(rn_offset);
    Ret (if no_name || strncmp_eq NAME_ID_SIZE re.(rn_name) e.(re_name) then 0 else SANLK_RINDEX_DIFF,
         Some (Rentry e.(re_name) re.(rn_offset))).

Definition rindex_lookup (ri : sanlk_rindex) (re : sanlk_rentry) (cmd_flags : Z) : prog (option (Z * option sanlk_rentry)) :=
  let fail rv := (rv, None) in
  rindex_op ri RX_OP_LOOKUP (has_flag cmd_flags SANLK_RX_NO_LOCKSPACE) fail (fun spi rx =>
    r ← read_rindex spi.(rs_io_timeout) rx;
    if fst r <? 0 then Ret (Some (fail (fst r)))
    else
      bad ← misaligned rx re.(rn_offset);
      if bad : bool then Ret (Some (fail SANLK_RINDEX_OFFSET))
      else match snd r with
      | None => Ub
      | Some iobuf => r ← lookup_entry rx iobuf re; Ret (Some r)
      end).

Definition rindex_update (ri : sanlk_rindex) (re : sanlk_rentry) (cmd_flags : Z) : prog (option (Z * option sanlk_rentry)) :=
  let fail rv := (rv, None) in
  rindex_op ri RX_OP_UPDATE (has_flag cmd_flags SANLK_RX_NO_LOCKSPACE) fail (fun spi rx =>
    r ← read_rindex spi.(rs_io_timeout) rx;
    if fst r <? 0 then Ret (Some (fail (fst r)))
    else
      bad ← misaligned rx re.(rn_offset);
      if bad : bool then Ret (Some (fail SANLK_RINDEX_OFFSET))
      else if rx_align rx =? 0 then Ub
      else
        let given := nz re.(rn_offset) in
        let op_remove := has_flag cmd_flags SANLK_RXUP_REM && given in
        let op_add := has_flag cmd_flags SANLK_RXUP_ADD && nz (nth 0 re.(rn_name) 0) && given in
        if negb (op_remove || op_add) then Ret (Some (fail (- EINVAL)))
        else match snd r with
        | None => Ub
        | Some iobuf =>
            rv ← update_rindex spi.(rs_io_timeout) rx iobuf re.(rn_name) (entry_offset rx (entry_num rx re.(rn_offset)))
                   re.(rn_offset) op_remove;
            if rv <? 0 then Ret (Some (fail rv))
            else Ret (Some (0, Some (if op_remove then Rentry (zeros NAME_ID_SIZE) 0
                                     else Rentry re.(rn_name) re.(rn_offset))))
        end).

End rindex.
