(* ===== verification/RindexSafety.v ===== *)
(** * The resource index: what its operations promise

    The entries of an index are a list; the search is the first match of that list,
    an update replaces one element, and lookups, updates, creation and formatting
    are described by what they do to it. For every response of the environment,
    the order in which creation and deletion write the entry and the lease. *)

From S2P Require Import Prelude SizeFlags OnDisk Timeouts Io DeltaLease PaxosBlocks PaxosBallot PaxosLease PaxosSafety.
From S2P Require Import ResourceDisk Rindex.

(** ** The entries as a list *)

(** The geometry of an index whose header came from [rindex_format]: a supported pair of
    sizes, and entries that fit in the area of the index. *)
Record index_geometry (rx : rindex_info) : Prop := {
  xg_sizes : supported (rx_ss rx) (rx_align rx);
  xg_max : 0 < rx_max_resources rx;
  xg_fits : rx_ss rx + rx_max_resources rx * entry_size <= rx_align rx;
  xg_offset : 0 <= rx.(rx_disk).(sd_offset) /\
    rx.(rx_disk).(sd_offset) + (2 + rx_max_resources rx) * rx_align rx < 2 ^ 64
}.

Definition entry_of (rx : rindex_info) (iobuf : mem) (i : nat) : rindex_entry :=
  rindex_entry_in (mem_read iobuf (rx_ss rx + Z.of_nat i * entry_size) sizeof_rindex_entry).

Definition entries (rx : rindex_info) (iobuf : mem) : list rindex_entry :=
  entry_of rx iobuf <$> seq 0 (Z.to_nat (rx_max_resources rx)).

(** The entries of the index on its device. *)
Definition index_area (rx : rindex_info) (w : world) : mem :=
  fun i => w.(w_dev) rx.(rx_disk).(sd_fd) (rx.(rx_disk).(sd_offset) + i).
Definition index_of (rx : rindex_info) (w : world) : list rindex_entry := entries rx (index_area rx w).

(** What a search looks for: a free entry, or one of a name. *)
Definition wanted (key : option (list Z)) (re : rindex_entry) : Prop :=
  match key with None => is_free re | Some name => has_name name re end = true.

#[export] Instance wanted_dec key re : Decision (wanted key re).
Proof. unfold wanted. apply _. Defined.

(** Where the lease of entry [i] is. *)
Definition lease_offset (rx : rindex_info) (i : nat) : Z :=
  rx.(rx_disk).(sd_offset) + (2 + Z.of_nat i) * rx_align rx.
Definition entry_pos (rx : rindex_info) (i : nat) : Z := rx_ss rx + Z.of_nat i * entry_size.

Lemma lookup_entries rx iobuf i :
  entries rx iobuf !! i = if Z.of_nat i <? rx_max_resources rx then Some (entry_of rx iobuf i) else None.
Proof.
  unfold entries. rw list_lookup_fmap. destruct (Z.ltb_spec (Z.of_nat i) (rx_max_resources rx)).
  - by rw lookup_seq_lt; [lia|].
  - by rw lookup_seq_ge; [lia|].
Qed.

Lemma entries_ext rx m1 m2 :
  (forall i, (Z.of_nat i < rx_max_resources rx) -> entry_of rx m1 i = entry_of rx m2 i) -> entries rx m1 = entries rx m2.
Proof. intros H. apply list_eq. intros i. rw !lookup_entries. destruct (Z.ltb_spec (Z.of_nat i) (rx_max_resources rx)); [|done]. by rw H. Qed.

Section geometry.
Context (rx : rindex_info) (Hgeo : index_geometry rx).

Lemma index_sizes :
  (rx_ss rx = 512 \/ rx_ss rx = 4096) /\ 0 < rx_align rx <= 8388608 /\
  rx_max_resources rx < 131072 /\ 2 * rx_ss rx <= rx_align rx /\ exists k, 0 < k /\ rx_align rx = k * rx_ss rx.
Proof.
  destruct Hgeo as [Hs Hm Hf _]. unfold entry_size, sizeof_rindex_entry in Hf. change (Z.of_nat 64) with 64 in Hf.
  unfold supported in Hs. rw !elem_of_cons elem_of_nil in Hs.
  unfold ALIGN_SIZE_2M, ALIGN_SIZE_4M, ALIGN_SIZE_8M, ALIGN_SIZE_1M in *.
  assert (exists k, (k = 2048 \/ k = 256 \/ k = 512 \/ k = 1024) /\ rx_align rx = k * rx_ss rx /\
    (rx_ss rx = 512 \/ rx_ss rx = 4096) /\ 0 < rx_align rx <= 8388608) as (k & Hk & Ek & Hss & Ha).
  { destruct Hs as [[= -> ->]|[[= -> ->]|[[= -> ->]|[[= -> ->]|[[= -> ->]|[]]]]]];
      [exists 2048|exists 256|exists 512|exists 1024|exists 2048]; lia. }
  split; [done|]. split; [done|]. split; [lia|]. split; [lia|]. exists k. lia.
Qed.

(** An entry that exists lies in the area, its offset does not wrap around, and it does
    not straddle two sectors. *)
Lemma entry_bounds i :
  Z.of_nat i < rx_max_resources rx ->
  let o := entry_pos rx i in
  u64 o = o /\ rx_ss rx <= o /\ o + entry_size <= rx_align rx /\
  o / rx_ss rx * rx_ss rx + rx_ss rx <= rx_align rx /\ o mod rx_ss rx + entry_size <= rx_ss rx.
Proof.
  intros Hi o. destruct index_sizes as (Hss & Ha & Hm & _ & k & Hk & Ek). destruct Hgeo as [_ _ Hf _].
  unfold o, entry_pos, entry_size, sizeof_rindex_entry in *. change (Z.of_nat 64) with 64 in *.
  split; [apply wrapu_small; split; lia|]. split; [lia|]. split; [lia|].
  pose proof (Z.div_mod (rx_ss rx + Z.of_nat i * 64) (rx_ss rx) ltac:(lia)) as Hd.
  pose proof (Z.mod_pos_bound (rx_ss rx + Z.of_nat i * 64) (rx_ss rx) ltac:(lia)) as Hb.
  set (q := (rx_ss rx + Z.of_nat i * 64) / rx_ss rx) in *. set (r := (rx_ss rx + Z.of_nat i * 64) mod rx_ss rx) in *.
  split; [assert (q < k) by nia; nia|].
  assert (exists j, rx_ss rx = 64 * j) as [j Hj] by (destruct Hss as [-> | ->]; [by exists 8|by exists 64]).
  assert (exists c, r = 64 * c) as [c Hc]; [|nia].
  exists (j + Z.of_nat i - q * j). nia.
Qed.

Lemma search_loop_spec iobuf key n i :
  Z.of_nat i + Z.of_nat n <= rx_max_resources rx ->
  search_loop rx (rx_align rx) iobuf key n (Z.of_nat i) =
    match list_find (wanted key) (entry_of rx iobuf <$> seq i n) with
    | None => Ret None
    | Some (j, _) =>
        if Z.of_nat (i + j) * rx_align rx <? 2 ^ 31 then Ret (Some (entry_pos rx (i + j), lease_offset rx (i + j))) else Ub
    end.
Proof.
  revert i. induction n as [|n IH]; intros i Hn; [done|]. cbn [search_loop seq fmap list_fmap list_find].
  destruct (entry_bounds i ltac:(lia)) as (E & H1 & H2 & _). fold (entry_pos rx i). rw E. unfold buf_get at 1.
  destruct index_sizes as (Hss & Ha & Hm & _).
  assert ((0 <=? entry_pos rx i) && (0 <=? entry_size) && (entry_pos rx i + entry_size <=? rx_align rx) = true) as ->.
  { rw !andb_true_iff !Z.leb_le. split; [split; [lia|done]|lia]. }
  cbn [mbind prog_bind pbind]. change (rindex_entry_in _) with (entry_of rx iobuf i).
  assert (Hw : wanted key (entry_of rx iobuf i) <->
    match key with None => is_free (entry_of rx iobuf i) | Some nm => has_name nm (entry_of rx iobuf i) end = true) by done.
  destruct (match key with None => _ | Some nm => _ end).
  - rw decide_True; [by apply Hw|]. rw Nat.add_0_r. unfold smul.
    destruct (Z.leb_spec (- 2 ^ 31) (Z.of_nat i * rx_align rx)); [|nia]. cbn [andb].
    destruct (Z.of_nat i * rx_align rx <? 2 ^ 31); [|done]. cbn [mbind prog_bind pbind].
    unfold lease_offset. do 3 f_equal. rw [u64 _]wrapu_small; [|lia].
    destruct Hgeo as [_ _ _ Ho]. split; nia.
  - rw decide_False; [by intros ?%Hw|]. replace (Z.of_nat i + 1) with (Z.of_nat (S i)) by lia. rw IH; [lia|].
    destruct (list_find _ (_ <$> seq (S i) n)) as [[j re]|]; [|done]. cbn.
    by replace (S (i + j))%nat with (i + S j)%nat by lia.
Qed.

Lemma search_entries_spec iobuf key :
  search_entries rx iobuf key =
    match list_find (wanted key) (entries rx iobuf) with
    | None => Ret None
    | Some (i, _) => if Z.of_nat i * rx_align rx <? 2 ^ 31 then Ret (Some (entry_pos rx i, lease_offset rx i)) else Ub
    end.
Proof. unfold search_entries, entries. rw (search_loop_spec _ _ _ 0); [|done]. destruct Hgeo. lia. Qed.
End geometry.

(** ** Changing one entry *)

Lemma mem_of_mem_read m o n i : 0 <= i < Z.of_nat n -> mem_of (mem_read m o n) i = m (o + i).
Proof.
  intros Hi. unfold mem_of. destruct (Z.ltb_spec i 0); [lia|]. rw nth_lookup. unfold mem_read.
  rw list_lookup_fmap lookup_seq_lt; [lia|]. cbn. by rw Z2Nat.id; [lia|].
Qed.

(** What is stored for a name, or nothing. *)
Definition new_entry (name : list Z) (res_offset : Z) (delete : bool) : rindex_entry :=
  if delete then entry_zero else RindexEntry res_offset 0 0 name.

Lemma new_entry_ok name off delete : name_ok name -> is_u 64 off -> rindex_entry_ok (new_entry name off delete).
Proof.
  intros Hn Ho. destruct delete; [|repeat split; try apply Hn; try apply Ho; by vm_compute].
  apply rindex_entry_in_ok; [done|apply zeros_ok].
Qed.

(** [w'] is [w] but for the bytes of entry [i], which hold [re]. *)
Record entry_put (rx : rindex_info) (i : nat) (re : rindex_entry) (w w' : world) : Prop := {
  ep_bytes : mem_read (index_area rx w') (entry_pos rx i) sizeof_rindex_entry = rindex_entry_out re (zeros sizeof_rindex_entry);
  ep_others : forall fd a,
    fd <> rx.(rx_disk).(sd_fd) \/ a < rx.(rx_disk).(sd_offset) + entry_pos rx i \/
    rx.(rx_disk).(sd_offset) + entry_pos rx i + entry_size <= a -> w'.(w_dev) fd a = w.(w_dev) fd a;
  ep_reliable : reliable w';
  ep_clock : w'.(w_clock) = w.(w_clock)
}.

Section put.
Context (rx : rindex_info) (Hgeo : index_geometry rx).

Lemma entry_put_index i re w w' :
  Z.of_nat i < rx_max_resources rx -> rindex_entry_ok re -> entry_put rx i re w w' ->
  index_of rx w' = <[i := re]> (index_of rx w).
Proof.
  intros Hi Hre [Hb Ho _ _]. apply list_eq. intros j.
  assert (Hlen : (i < length (index_of rx w))%nat) by (unfold index_of, entries; rw length_fmap length_seq; lia).
  destruct (decide (j = i)) as [-> |Hne].
  - rw list_lookup_insert_eq //. unfold index_of. rw lookup_entries.
    destruct (Z.ltb_spec (Z.of_nat i) (rx_max_resources rx)); [|lia]. unfold entry_of.
    fold (entry_pos rx i). rw Hb. f_equal. rw -(app_nil_r (rindex_entry_out _ _)).
    apply rindex_entry_in_out; [done..|apply zeros_ok].
  - rw list_lookup_insert_ne //. unfold index_of. rw !lookup_entries. destruct (Z.ltb _ _); [|done].
    unfold entry_of. do 2 f_equal. apply mem_read_ext. intros k Hk. apply Ho. right.
    unfold entry_pos, entry_size, sizeof_rindex_entry in *. nia.
Qed.

(** The sector of entry [i], and what is written there for a new entry. *)
Definition sector_of (i : nat) : Z := entry_pos rx i / rx_ss rx * rx_ss rx.
Definition sector_buf (iobuf : mem) (i : nat) (re : rindex_entry) : mem :=
  buf_put (mem_of (mem_read iobuf (sector_of i) (Z.to_nat (rx_ss rx)))) (entry_pos rx i mod rx_ss rx)
    (rindex_entry_out re (zeros sizeof_rindex_entry)).

Lemma sector_buf_ok iobuf i re :
  Z.of_nat i < rx_max_resources rx -> rindex_entry_ok re ->
  mem_read (sector_buf iobuf i re) (entry_pos rx i - sector_of i) sizeof_rindex_entry = rindex_entry_out re (zeros sizeof_rindex_entry) /\
  forall a, sector_of i <= a < sector_of i + rx_ss rx -> a < entry_pos rx i \/ entry_pos rx i + entry_size <= a ->
    sector_buf iobuf i re (a - sector_of i) = iobuf a.
Proof.
  intros Hi Hre. destruct (entry_bounds rx Hgeo i Hi) as (_ & H1 & H2 & H3 & H4). destruct (index_sizes rx Hgeo) as (Hss & _).
  pose proof (Z.div_mod (entry_pos rx i) (rx_ss rx) ltac:(lia)) as Hd.
  pose proof (rindex_entry_out_length _ (zeros sizeof_rindex_entry) Hre eq_refl) as Hlen.
  unfold sector_buf. set (bs := rindex_entry_out _ _) in *. unfold sector_of in *. split.
  - replace (entry_pos rx i - _) with (entry_pos rx i mod rx_ss rx) by lia. rw -Hlen. apply mem_read_put.
  - intros a Ha Hout. unfold buf_put, mem_write. rw Hlen. fold entry_size.
    destruct (_ && _) eqn:Ein; [zbool; lia|]. rw mem_of_mem_read; [lia|]. f_equal. lia.
Qed.

(** What [update_rindex] does for an entry of the index. *)
Lemma update_step io_timeout iobuf name i off delete :
  Z.of_nat i < rx_max_resources rx ->
  update_rindex io_timeout rx iobuf name (entry_pos rx i) off delete =
    (r ← call (CMemalign (rx_ss rx));
     if nz (fst r) then Ret (fst r)
     else write_iobuf rx.(rx_disk).(sd_fd) (rx.(rx_disk).(sd_offset) + sector_of i)
            (sector_buf iobuf i (new_entry name off delete)) (rx_ss rx) io_timeout).
Proof.
  intros Hi. destruct (entry_bounds rx Hgeo i Hi) as (E & H1 & H2 & H3 & H4).
  destruct (index_sizes rx Hgeo) as (Hss & Ha & Hm & _). unfold sector_buf, sector_of.
  pose proof (Z.mod_pos_bound (entry_pos rx i) (rx_ss rx) ltac:(lia)) as Hb.
  assert (0 <= entry_pos rx i / rx_ss rx) by (apply Z.div_pos; lia).
  unfold update_rindex. destruct (Z.eqb_spec (rx_ss rx) 0); [lia|].
  assert (u64 (rx_ss rx) = rx_ss rx) as -> by (destruct Hss as [-> | ->]; done).
  assert (forall x, 0 <= x <= 8388608 -> u32 x = x) as Hu by (intros x Hx; apply wrapu_small; split; lia).
  rw (Hu (entry_pos rx i / rx_ss rx * rx_ss rx)); [nia|]. rw (Hu (entry_pos rx i mod rx_ss rx)); [lia|].
  set (so := entry_pos rx i / rx_ss rx * rx_ss rx) in *. unfold buf_get at 1.
  assert ((0 <=? so) && (0 <=? rx_ss rx) && (so + rx_ss rx <=? rx_align rx) = true) as -> by (rw !andb_true_iff !Z.leb_le; nia).
  destruct (Z.ltb_spec (rx_ss rx) (entry_pos rx i mod rx_ss rx + entry_size)); [lia|].
  assert (u64 (rx.(rx_disk).(sd_offset) + so) = rx.(rx_disk).(sd_offset) + so) as ->; [|done].
  destruct Hgeo as [_ ? _ ?]. apply wrapu_small. split; nia.
Qed.

Lemma run_update w iobuf io_timeout name i off delete :
  reliable w -> (forall a, 0 <= a < rx_align rx -> iobuf a = index_area rx w a) ->
  Z.of_nat i < rx_max_resources rx -> name_ok name -> is_u 64 off ->
  exists w', run world_handler (update_rindex io_timeout rx iobuf name (entry_pos rx i) off delete) w = (Some 0, w') /\
    entry_put rx i (new_entry name off delete) w w'.
Proof.
  intros Hw Hbuf Hi Hn Hoff. destruct (entry_bounds rx Hgeo i Hi) as (_ & H1 & H2 & H3 & H4).
  destruct (index_sizes rx Hgeo) as (Hss & _). pose proof (Z.div_mod (entry_pos rx i) (rx_ss rx) ltac:(lia)) as Hd.
  pose proof (Z.mod_pos_bound (entry_pos rx i) (rx_ss rx) ltac:(lia)) as Hb.
  assert (0 <= entry_pos rx i / rx_ss rx) by (apply Z.div_pos; lia). fold (sector_of i) in H3.
  assert (Hs : sector_of i <= entry_pos rx i /\ entry_pos rx i + entry_size <= sector_of i + rx_ss rx /\ 0 <= sector_of i) by (unfold sector_of; nia).
  rw update_step // run_bind run_memalign //. cbn [nz fst Z.eqb negb]. rw run_write_iobuf //. eexists. split; [done|].
  destruct (sector_buf_ok iobuf i _ Hi (new_entry_ok name off delete Hn Hoff)) as [E1 E2]. unfold entry_size in *.
  split; [..|done|done].
  - rw -E1. apply mem_read_ext. intros k Hk. unfold index_area, world_put. cbn [w_dev]. rw Z.eqb_refl. unfold mem_write at 1.
    rw !(proj2 (Z.leb_le _ _)) ?(proj2 (Z.ltb_lt _ _)) ; [lia..|]. cbn [andb]. f_equal. lia.
  - intros fd a Hfa. unfold entry_size in Hfa. unfold world_put. cbn [w_dev].
    destruct (Z.eqb_spec fd rx.(rx_disk).(sd_fd)) as [-> |]; [|done].
    unfold mem_write. destruct (_ && _) eqn:Ein; [|done]. zbool. replace (a - (_ + sector_of i)) with (a - rx.(rx_disk).(sd_offset) - sector_of i) by lia.
    rw E2; [lia..|]. rw Hbuf; [lia|]. unfold index_area. f_equal. lia.
Qed.
End put.

(** ** Whole operations on a device without failures *)

Definition opened (d : sync_disk) : sync_disk := SyncDisk d.(sd_path) d.(sd_offset) 512 (nth 0 d.(sd_path) 0).

(** The index that an operation finds on the device. *)
Definition the_index (ri : sanlk_rindex) (w : world) : rindex_info :=
  let d := opened ri.(ri_disk) in
  RindexInfo ri d (rindex_header_in (mem_read (w.(w_dev) d.(sd_fd)) d.(sd_offset) sizeof_rindex_header)).

(** The device opens and has an index of the lockspace with entries that fit. *)
Record indexed (ri : sanlk_rindex) (w : world) : Prop := {
  ix_reliable : reliable w;
  ix_fd : 0 <= nth 0 ri.(ri_disk).(sd_path) 0;
  ix_header : check_header (the_index ri w) = Some 0;
  ix_geometry : index_geometry (the_index ri w)
}.

(** What is known of the lockspace: nothing, without it. *)
Definition op_space (com : command_line) (nolock : bool) : rx_space :=
  if nolock then RxSpace com.(com_io_timeout) 0 0 0 else RxSpace 10 512 2 9.

Lemma run_open_disk d w :
  0 <= nth 0 d.(sd_path) 0 -> run world_handler (open_disk d) w = (Some (0, opened d), w).
Proof. intros Hd. cbn. destruct (Z.ltb_spec (nth 0 (sd_path d) 0) 0); [lia|done]. Qed.

Lemma run_close_disk d w : run world_handler (close_disk d) w = (Some tt, w).
Proof. unfold close_disk, close_disks. destruct (Z.eqb (sd_fd d) (-1)); done. Qed.

Lemma run_header com ri w nolock :
  indexed ri w ->
  run world_handler (read_rindex_header com (if nolock then no_space else RxSpace 10 512 2 9)
    (RindexInfo ri (opened ri.(ri_disk)) header_zero)) w =
  (Some (0, op_space com nolock, the_index ri w), w).
Proof.
  intros [Hw Hfd Hh _]. unfold read_rindex_header.
  assert (E : forall ss spi, ss = 512 \/ ss = 4096 ->
    run world_handler (r ← call (CMemalign ss);
      if nz (fst r) then Ret (- ENOMEM, spi, RindexInfo ri (opened (ri_disk ri)) header_zero)
      else
        r ← read_iobuf (sd_fd (opened (ri_disk ri))) (sd_offset (opened (ri_disk ri))) ss (rs_io_timeout spi);
        if fst r <? 0 then Ret (fst r, spi, RindexInfo ri (opened (ri_disk ri)) header_zero)
        else
          bs ← buf_get ss (snd r) 0 (Z.of_nat sizeof_rindex_header);
          let rx := RindexInfo ri (opened (ri_disk ri)) (rindex_header_in bs) in
          match check_header rx with
          | None => Ub
          | Some rv => Ret (if rv <? 0 then rv else fst r, spi, rx)
          end) w = (Some (0, spi, the_index ri w), w)).
  { intros ss spi Hss. rw run_bind run_memalign //. cbn [nz fst Z.eqb negb]. rw run_bind run_read_iobuf //. cbn [fst snd Z.ltb Z.compare].
    rw run_bind. unfold buf_get, sizeof_rindex_header.
    assert ((0 <=? 0) && (0 <=? Z.of_nat 80) && (0 + Z.of_nat 80 <=? ss) = true) as -> by (destruct Hss as [-> | ->]; done).
    cbn [run]. set (h := rindex_header_in _).
    assert (RindexInfo ri (opened (ri_disk ri)) h = the_index ri w) as ->.
    { unfold the_index. by f_equal. }
    by rw Hh. }
  destruct nolock; [apply (E 4096 (op_space com true)); by right|apply (E 512 (op_space com false)); by left].
Qed.

Lemma run_op com {A} ri op nolock (fail : Z -> A) body w r w' :
  indexed ri w -> run world_handler (body (op_space com nolock) (the_index ri w)) w = (Some (Some r), w') ->
  run world_handler (rindex_op com ri op nolock fail body) w = (Some (Some r), w').
Proof.
  intros Hi Hb. unfold rindex_op. rw run_bind run_open_disk; [by destruct Hi|]. cbn [fst snd Z.ltb Z.compare]. rw run_bind.
  assert (run world_handler (if nolock then Ret (0, no_space)
         else b ← call (CBeginRindexOp ri.(ri_lockspace_name) op);
              let '(rv, (iot, ss, id, gen)) := b in Ret (rv, RxSpace iot ss id gen)) w =
    (Some (0, if nolock then no_space else RxSpace 10 512 2 9), w)) as -> by (by destruct nolock).
  cbn [fst snd Z.ltb Z.compare]. rw run_bind run_header //. cbn [Z.ltb Z.compare]. rw run_bind Hb.
  assert (run world_handler (if nolock then Ret tt else call (CClearRindexOp ri.(ri_lockspace_name))) w' = (Some tt, w')) as E
    by (by destruct nolock).
  by rw run_bind E run_bind run_close_disk.
Qed.

Lemma run_read_rindex rx w io_timeout :
  reliable w -> run world_handler (read_rindex io_timeout rx) w = (Some (0, Some (index_area rx w)), w).
Proof.
  intros Hw. unfold read_rindex. rw run_bind run_memalign //. cbn [nz fst Z.eqb negb]. by rw run_bind run_read_iobuf.
Qed.

(** The entry of the lease at the offset of number [i] is entry [i]. *)
Lemma entry_of_lease rx i :
  index_geometry rx -> Z.of_nat i < rx_max_resources rx ->
  entry_offset rx (entry_num rx (lease_offset rx i)) = entry_pos rx i.
Proof.
  intros Hgeo Hi. destruct (entry_bounds rx Hgeo i Hi) as (E & H1 & H2 & _).
  destruct (index_sizes rx Hgeo) as (Hss & Ha & Hm & _). destruct Hgeo as [_ _ _ Ho].
  unfold entry_num, lease_offset.
  replace (_ + (2 + Z.of_nat i) * rx_align rx - _ - _) with (Z.of_nat i * rx_align rx) by lia.
  unfold u64 at 1. rw wrapu_small; [split; nia|]. unfold u64. rw wrapu_small; [split; lia|].
  rw Z.div_mul; [lia|]. unfold i32. rw Z.mod_small; [lia|]. unfold entry_offset.
  replace (Z.of_nat i + 2 ^ 31 - 2 ^ 31) with (Z.of_nat i) by lia. unfold entry_size, sizeof_rindex_entry.
  change (Z.of_nat 64) with 64. unfold u64. rw (wrapu_small 64 (Z.of_nat i)); [split; lia|].
  rw (wrapu_small 64 (Z.of_nat i * 64)); [split; lia|]. exact E.
Qed.

(** ** Lookup *)

(** The name given, if any. *)
Definition key_of (re : sanlk_rentry) : option (list Z) :=
  if nth 0 re.(rn_name) 0 =? 0 then None else Some re.(rn_name).

(** What a lookup answers for the list of entries: [None], where nothing is said of it, for
    an aligned offset that is not that of a lease of the index, and for an entry found whose number
    times the align size overflows the [int] it is computed in. *)
Definition lookup_answer (rx : rindex_info) (l : list rindex_entry) (re : sanlk_rentry) : option (Z * option sanlk_rentry) :=
  if re.(rn_offset) =? 0 then
    match list_find (wanted (key_of re)) l with
    | None => Some (- ENOENT, None)
    | Some (i, _) =>
        if Z.of_nat i * rx_align rx <? 2 ^ 31
        then Some (0, Some (Rentry (match key_of re with None => zeros NAME_ID_SIZE | Some name => name end) (lease_offset rx i)))
        else None
    end
  else if nz (re.(rn_offset) mod rx_align rx) then Some (SANLK_RINDEX_OFFSET, None)
  else
    let i := Z.to_nat ((re.(rn_offset) - rx.(rx_disk).(sd_offset)) / rx_align rx - 2) in
    if negb (lease_offset rx i =? re.(rn_offset)) then None
    else
      e ← l !! i;
      Some (match key_of re with
            | None => 0
            | Some name => if strncmp_eq NAME_ID_SIZE name e.(re_name) then 0 else SANLK_RINDEX_DIFF
            end, Some (Rentry e.(re_name) re.(rn_offset))).

Lemma lease_number rx i :
  0 < rx_align rx -> Z.to_nat ((lease_offset rx i - rx.(rx_disk).(sd_offset)) / rx_align rx - 2) = i.
Proof.
  intros Ha. unfold lease_offset.
  replace (_ + (2 + Z.of_nat i) * rx_align rx - _) with ((2 + Z.of_nat i) * rx_align rx) by lia. rw Z.div_mul; lia.
Qed.

Lemma run_lookup_entry rx m re w a :
  index_geometry rx -> (re.(rn_offset) <> 0 -> re.(rn_offset) mod rx_align rx = 0) ->
  lookup_answer rx (entries rx m) re = Some a ->
  run world_handler (lookup_entry rx m re) w = (Some a, w).
Proof.
  intros Hgeo Hal. destruct (index_sizes rx Hgeo) as (_ & Ha & _). unfold lookup_entry, lookup_answer, key_of.
  destruct (Z.eqb_spec re.(rn_offset) 0) as [E0|E0].
  - rw run_bind search_entries_spec //. set (key := if nth 0 (rn_name re) 0 =? 0 then None else Some (rn_name re)).
    destruct (list_find _ _) as [[i e]|] eqn:Ef; [|by intros [= <-]].
    destruct (Z.of_nat i * rx_align rx <? 2 ^ 31); [|done]. intros [= <-]. cbn [run]. subst key. by destruct (nth 0 _ 0 =? 0).
  - rw (Hal E0). cbn [nz Z.eqb negb]. set (i := Z.to_nat _).
    destruct (Z.eqb_spec (lease_offset rx i) re.(rn_offset)) as [Eo|]; cbn [negb]; [|done].
    rw lookup_entries. destruct (Z.ltb_spec (Z.of_nat i) (rx_max_resources rx)) as [Hi|]; [|done].
    cbn [mbind option_bind]. intros [= <-]. rw run_bind. unfold entry_at. destruct (Z.eqb_spec (rx_align rx) 0); [lia|].
    rw -Eo entry_of_lease // run_bind.
    destruct (entry_bounds rx Hgeo i Hi) as (_ & H1 & H2 & _). destruct (index_sizes rx Hgeo) as (Hss & _).
    unfold buf_get. assert ((0 <=? entry_pos rx i) && (0 <=? entry_size) && (entry_pos rx i + entry_size <=? rx_align rx) = true) as ->.
    { rw !andb_true_iff !Z.leb_le. split; [split; [lia|done]|lia]. }
    cbn [run]. change (rindex_entry_in _) with (entry_of rx m i). by destruct (nth 0 _ 0 =? 0).
Qed.

Lemma run_lookup com ri re flags w a :
  let rx := the_index ri w in
  indexed ri w -> lookup_answer rx (index_of rx w) re = Some a ->
  run world_handler (rindex_lookup com ri re flags) w = (Some (Some a), w).
Proof.
  intros rx Hi Hla. apply run_op; [done|]. fold rx. destruct Hi as [Hw _ _ Hgeo]. fold rx in Hgeo.
  destruct (index_sizes rx Hgeo) as (_ & Ha & _).
  rw run_bind run_read_rindex //. cbn [fst snd Z.ltb Z.compare]. unfold misaligned.
  destruct (Z.eqb_spec re.(rn_offset) 0) as [E0|E0].
  { rw run_bind. cbn [run]. rw run_bind (run_lookup_entry rx _ re w a) //. }
  destruct (Z.eqb_spec (rx_align rx) 0); [lia|]. rw run_bind. cbn [run].
  destruct (nz (re.(rn_offset) mod rx_align rx)) eqn:Em.
  - unfold lookup_answer in Hla. apply Z.eqb_neq in E0. rw E0 Em in Hla. by injection Hla as <-.
  - rw run_bind (run_lookup_entry rx _ re w a) //. intros _. unfold nz in Em. by zbool.
Qed.

(** ** Update *)

(** A change of one entry leaves the header, so the index is the same index. *)
Lemma entry_put_indexed ri w w' i re :
  indexed ri w -> Z.of_nat i < rx_max_resources (the_index ri w) -> entry_put (the_index ri w) i re w w' ->
  the_index ri w' = the_index ri w /\ indexed ri w'.
Proof.
  intros [Hw Hfd Hh Hgeo] Hi [_ Ho Hw' _].
  assert (E : the_index ri w' = the_index ri w).
  { unfold the_index at 1 2. do 2 f_equal. apply mem_read_ext. intros k Hk. apply Ho. right. left.
    destruct (entry_bounds _ Hgeo i Hi) as (_ & H1 & _). destruct (index_sizes _ Hgeo) as (Hss & _).
    unfold sizeof_rindex_header in Hk. cbn [rx_disk the_index]. lia. }
  split; [done|]. by split; [..|rw E|rw E].
Qed.

(** The flags ask for a removal, or for the addition of a name. *)
Definition update_flags_ok (flags : Z) (re : sanlk_rentry) : bool :=
  has_flag flags SANLK_RXUP_REM || has_flag flags SANLK_RXUP_ADD && nz (nth 0 re.(rn_name) 0).

Lemma run_rindex_update com ri re flags w i :
  let rx := the_index ri w in
  let del := has_flag flags SANLK_RXUP_REM in
  indexed ri w -> Z.of_nat i < rx_max_resources rx -> re.(rn_offset) = lease_offset rx i ->
  re.(rn_offset) mod rx_align rx = 0 -> name_ok re.(rn_name) -> update_flags_ok flags re = true ->
  exists w', run world_handler (rindex_update com ri re flags) w =
      (Some (Some (0, Some (if del then Rentry (zeros NAME_ID_SIZE) 0 else re))), w') /\
    entry_put rx i (new_entry re.(rn_name) re.(rn_offset) del) w w'.
Proof.
  intros rx del Hix Hi Eo Hal Hn Hfl. destruct (Hix) as [Hw _ _ Hgeo]. fold rx in Hgeo.
  destruct (index_sizes rx Hgeo) as (_ & Ha & _). assert (0 < re.(rn_offset)).
  { rw Eo. unfold lease_offset. destruct Hgeo as [_ _ _ ?]. nia. }
  destruct (run_update rx Hgeo w (index_area rx w) (op_space com (has_flag flags SANLK_RX_NO_LOCKSPACE)).(rs_io_timeout)
    re.(rn_name) i re.(rn_offset) del Hw (fun _ _ => eq_refl) Hi Hn) as (w' & Er & Hp).
  { split; [lia|]. rw Eo. unfold lease_offset. destruct Hgeo as [_ _ _ ?]. nia. }
  exists w'. split; [|done]. apply run_op; [done|]. fold rx. rw run_bind run_read_rindex //. cbn [fst snd Z.ltb Z.compare].
  unfold misaligned. destruct (Z.eqb_spec re.(rn_offset) 0); [lia|]. destruct (Z.eqb_spec (rx_align rx) 0); [lia|].
  rw run_bind Hal. cbn [run nz Z.eqb negb].
  assert (nz re.(rn_offset) = true) as -> by (unfold nz; apply negb_true_iff, Z.eqb_neq; lia). rw !andb_true_r.
  fold del. unfold update_flags_ok in Hfl. fold del in Hfl. rw Hfl. cbn [negb].
  rw run_bind {1}Eo entry_of_lease // Er. cbn [Z.ltb Z.compare run].
  destruct del; [done|]. by destruct re.
Qed.

(** ** Formatting a lease of the index *)

Lemma token_sizes ss al :
  supported ss al ->
  sizes_from_flags (Z.lor (sanlk_res_sector_size_to_flag ss) (sanlk_res_align_size_to_flag al)) "RES" =
    (0, Sizes ss al (size_to_max_hosts ss al)).
Proof.
  unfold supported. rw !elem_of_cons elem_of_nil.
  intros H; destruct_or?; try done; by injection H as -> ->.
Qed.

(** The hosts of a lease that is asked for [num_hosts]. *)
Definition lease_hosts (ss al num_hosts : Z) : Z :=
  let max := size_to_max_hosts ss al in
  if (num_hosts =? 0) || (max <? num_hosts) then max else num_hosts.

(** A token of the index for the lease at an offset. *)
Definition lease_token (rx : rindex_info) (name : list Z) (offset io_timeout : Z) : token :=
  rx_token rx name offset (rx_ss rx) (rx_align rx) io_timeout None.

Lemma token_geometry rx name offset ss al iot sp num_hosts :
  supported ss al -> bytes_ok name -> bytes_ok rx.(rx_ri).(ri_lockspace_name) -> 0 <= num_hosts ->
  format_geometry (rx_token rx name offset ss al iot sp) (Sizes ss al (size_to_max_hosts ss al)) num_hosts
    ss al (size_to_max_hosts ss al) (lease_hosts ss al num_hosts).
Proof.
  intros Hs Hn Hl Hh. destruct (supported_fits ss al Hs) as (Hss & _).
  split; [by apply token_sizes| |done|done].
  eexists _, []. split; [done|]. cbn [sz_sector]. split; [lia|]. unfold init_sizes, format_sizes. cbn [sz_sector sz_align sz_max_hosts].
  destruct (Z.eqb_spec ss 0); [lia|done].
Qed.

Lemma run_lease_init com t sz num_hosts clear ss al max_hosts hosts d w :
  format_geometry t sz num_hosts ss al max_hosts hosts -> t.(t_disks) = [d] -> reliable w -> is_u 64 w.(w_clock) ->
  exists m, run world_handler (paxos_lease_init com t num_hosts clear) w =
      (Some (0, with_sizes ss al t), world_put w d.(sd_fd) d.(sd_offset) al m) /\
    lease_formatted t clear ss max_hosts hosts m.
Proof.
  intros Hgeo Ed Hw Hclk. destruct (format_bounds _ _ _ _ _ _ _ Hgeo) as (Hss & Hh & Hm & Ha).
  set (now := if clear then w.(w_clock) else 0).
  assert (Hnow : is_u 64 now) by (unfold now; destruct clear; [done|by vm_compute]).
  pose proof (format_image _ _ _ clear _ _ _ _ Hgeo (with_sizes ss al t) now (replicate 24 0xA5) Hnow eq_refl eq_refl eq_refl
    ltac:(apply Forall_replicate; by vm_compute)) as Hf.
  eexists. split; [|exact Hf]. destruct Hgeo as [Hfl (d' & ds & Ed' & _ & Es) _ _]. rw Ed in Ed'. injection Ed' as <- <-.
  unfold paxos_lease_init. rw Hfl. cbn [nz Z.eqb negb]. unfold disk0. rw Ed. rw run_bind. cbn [head run]. rw Es.
  rw run_bind run_memalign //. cbn [nz fst Z.eqb negb]. rw run_bind.
  assert (run world_handler (if clear then call CMonotime else Ret 0) w = (Some now, w)) as -> by (by destruct clear).
  rw run_bind. cbn [run call world_handler fst snd].
  change (Z.of_nat sizeof_leader_record) with 200. change (Z.of_nat sizeof_request_record) with 24.
  destruct (Z.ltb_spec al 200); [lia|]. destruct (Z.ltb_spec al (ss + 24)); [lia|]. cbn [orb].
  cbn [t_disks with_sizes]. rw Ed. rw run_bind. cbn [init_disks]. rw run_bind run_write_iobuf //.
Qed.

(** ** Creation and deletion *)

(** The memory of the lease area at an offset of the index's device. *)
Definition lease_area_of (rx : rindex_info) (off : Z) (w : world) : mem :=
  fun a => w.(w_dev) rx.(rx_disk).(sd_fd) (off + a).

Lemma lease_formatted_ext t clear ss al max_hosts hosts sz num_hosts m1 m2 :
  format_geometry t sz num_hosts ss al max_hosts hosts -> (forall a, 0 <= a < al -> m1 a = m2 a) ->
  lease_formatted t clear ss max_hosts hosts m1 -> lease_formatted t clear ss max_hosts hosts m2.
Proof.
  intros Hgeo Hm. destruct (format_bounds _ _ _ _ _ _ _ Hgeo) as (Hss & Hh & Hmh & Ha). unfold lease_formatted.
  assert (E : forall o n, 0 <= o -> o + Z.of_nat n <= al -> mem_read m2 o n = mem_read m1 o n).
  { intros o n Ho Hn. apply mem_read_ext. intros i Hi. symmetry. apply Hm. lia. }
  assert (S1 : Z.of_nat sizeof_leader_record = 200) by done. assert (S2 : Z.of_nat sizeof_request_record = 24) by done.
  cbv zeta. rw !(E 0) ?(E ss); [lia..|]. intros (H1 & H2 & H3 & H4 & H5 & H6 & H7 & H8 & H9).
  do 8 (split; [done|]). intros j Hj. rw E; [nia|nia|]. by apply H9.
Qed.

(** The first entry of a search that finds one below the overflow. *)
Definition found (rx : rindex_info) (key : option (list Z)) (l : list rindex_entry) (i : nat) : Prop :=
  (exists e, list_find (wanted key) l = Some (i, e)) /\ Z.of_nat i * rx_align rx < 2 ^ 31.

Section locked.
Context (com : command_line) (rx : rindex_info) (io_timeout : Z) (name : list Z) (offset : Z) (w : world).
Context (Hgeo : index_geometry rx) (Hw : reliable w) (Hclk : is_u 64 w.(w_clock)).
Context (Hname : name_ok name) (Hls : bytes_ok rx.(rx_ri).(ri_lockspace_name)).

Lemma run_search key i :
  found rx key (index_of rx w) i ->
  search_entries rx (index_area rx w) key = Ret (Some (entry_pos rx i, lease_offset rx i)) /\ Z.of_nat i < rx_max_resources rx.
Proof.
  intros [[e Ef] Hov]. rw search_entries_spec //. fold (index_of rx w). rw Ef. destruct (Z.ltb_spec (Z.of_nat i * rx_align rx) (2 ^ 31)); [|lia].
  split; [done|]. apply list_find_Some in Ef as (Ei & _). unfold index_of in Ei. rw lookup_entries in Ei.
  by destruct (Z.ltb_spec (Z.of_nat i) (rx_max_resources rx)).
Qed.

Lemma lease_offset_ok i :
  Z.of_nat i < rx_max_resources rx ->
  is_u 64 (lease_offset rx i) /\ rx.(rx_disk).(sd_offset) + 2 * rx_align rx <= lease_offset rx i.
Proof. intros Hi. destruct (index_sizes rx Hgeo) as (_ & Ha & _), Hgeo as [_ _ _ Ho]. unfold lease_offset, is_u. nia. Qed.

(** A write of a lease area leaves the index. *)
Lemma lease_put_index w0 i m a :
  Z.of_nat i < rx_max_resources rx -> 0 <= a < rx_align rx ->
  index_area rx (world_put w0 rx.(rx_disk).(sd_fd) (lease_offset rx i) (rx_align rx) m) a = index_area rx w0 a.
Proof.
  intros Hi Ha. destruct (lease_offset_ok i Hi) as [_ H]. unfold index_area, world_put. cbn [w_dev]. rw Z.eqb_refl.
  unfold mem_write. destruct (Z.leb_spec (lease_offset rx i) (rx.(rx_disk).(sd_offset) + a)); [lia|done].
Qed.

(** An entry written after the lease area, or before it, leaves the area. *)
Lemma entry_put_lease i re w1 w2 a :
  Z.of_nat i < rx_max_resources rx -> entry_put rx i re w1 w2 -> 0 <= a ->
  lease_area_of rx (lease_offset rx i) w2 a = lease_area_of rx (lease_offset rx i) w1 a.
Proof.
  intros Hi [_ Ho _ _] Ha. apply Ho. right. right. destruct (lease_offset_ok i Hi) as [_ H].
  destruct (entry_bounds rx Hgeo i Hi) as (_ & _ & H2 & _). destruct (index_sizes rx Hgeo) as (_ & Hal & _). lia.
Qed.

Lemma lease_put_area w0 i m a :
  0 <= a < rx_align rx ->
  lease_area_of rx (lease_offset rx i) (world_put w0 rx.(rx_disk).(sd_fd) (lease_offset rx i) (rx_align rx) m) a = m a.
Proof.
  intros Ha. unfold lease_area_of, world_put. cbn [w_dev]. rw Z.eqb_refl. unfold mem_write.
  destruct (Z.leb_spec (lease_offset rx i) (lease_offset rx i + a)); [|lia].
  destruct (Z.ltb_spec (lease_offset rx i + a) (lease_offset rx i + rx_align rx)); [|lia]. cbn. f_equal. lia.
Qed.

Lemma index_of_ext w1 w2 :
  (forall a, 0 <= a < rx_align rx -> index_area rx w1 a = index_area rx w2 a) -> index_of rx w1 = index_of rx w2.
Proof.
  intros H. apply entries_ext. intros i Hi. unfold entry_of. f_equal. apply mem_read_ext. intros k Hk. apply H.
  destruct (entry_bounds rx Hgeo i Hi) as (_ & H1 & H2 & _). destruct (index_sizes rx Hgeo) as (Hss & _).
  fold (entry_pos rx i). unfold entry_size in H2. lia.
Qed.

(** The lease of entry [i], formatted (or cleared) for the name. *)
Definition lease_ready (i : nat) (num_hosts : Z) (clear : bool) (w' : world) : Prop :=
  lease_formatted (lease_token rx name (lease_offset rx i) io_timeout) clear (rx_ss rx)
    (size_to_max_hosts (rx_ss rx) (rx_align rx)) (lease_hosts (rx_ss rx) (rx_align rx) num_hosts)
    (lease_area_of rx (lease_offset rx i) w').

Lemma run_create num_hosts i :
  0 <= num_hosts -> found rx None (index_of rx w) i ->
  exists w', run world_handler (create_locked com io_timeout rx (lease_token rx name 0 io_timeout) (Rentry name offset) num_hosts) w =
      (Some (0, Some (lease_offset rx i)), w') /\
    index_of rx w' = <[i := RindexEntry (lease_offset rx i) 0 0 name]> (index_of rx w) /\
    lease_ready i num_hosts false w' /\ reliable w'.
Proof.
  intros Hh Hf. destruct (run_search None i Hf) as [Es Hi]. destruct (lease_offset_ok i Hi) as [Hu _].
  pose proof (token_geometry rx name (lease_offset rx i) (rx_ss rx) (rx_align rx) io_timeout None num_hosts
    (xg_sizes rx Hgeo) (proj2 Hname) Hls Hh) as Hg.
  destruct (run_lease_init com _ _ _ false _ _ _ _ _ w Hg eq_refl Hw Hclk) as (m & Er & Hm). cbn [sd_fd sd_offset] in Er.
  set (w1 := world_put _ _ _ _ m) in *.
  destruct (run_update rx Hgeo w1 (index_area rx w) io_timeout name i (lease_offset rx i) false Hw
    ltac:(intros a Ha; symmetry; by apply lease_put_index) Hi Hname Hu) as (w2 & Eu & Hp).
  exists w2. unfold create_locked. rw run_bind run_read_rindex //. cbn [fst snd Z.ltb Z.compare]. rw run_bind Es. cbn [run].
  change (set_offset _ (lease_token rx name 0 io_timeout)) with (lease_token rx name (lease_offset rx i) io_timeout).
  unfold lease_token at 1. rw run_bind Er. cbn [fst Z.ltb Z.compare rn_name]. rw run_bind Eu.
  split; [done|]. split; [|split; [|by destruct Hp]].
  - rw (entry_put_index _ i _ w1 w2 Hi _ Hp); [by apply new_entry_ok|]. f_equal. apply index_of_ext. intros a Ha. by apply lease_put_index.
  - eapply lease_formatted_ext; [exact Hg| |exact Hm]. intros a Ha. rw (entry_put_lease i _ w1 w2 a Hi Hp); [lia|].
    by rw lease_put_area.
Qed.

Lemma run_delete i :
  found rx (Some name) (index_of rx w) i ->
  exists w', run world_handler (delete_locked com io_timeout rx (lease_token rx name 0 io_timeout) (Rentry name offset)) w =
      (Some (0, Some 0), w') /\
    index_of rx w' = <[i := entry_zero]> (index_of rx w) /\ lease_ready i 0 true w' /\ reliable w'.
Proof.
  intros Hf. destruct (run_search (Some name) i Hf) as [Es Hi]. destruct (lease_offset_ok i Hi) as [Hu _].
  destruct (run_update rx Hgeo w (index_area rx w) io_timeout name i (lease_offset rx i) true Hw
    (fun _ _ => eq_refl) Hi Hname Hu) as (w1 & Eu & Hp).
  pose proof (token_geometry rx name (lease_offset rx i) (rx_ss rx) (rx_align rx) io_timeout None 0
    (xg_sizes rx Hgeo) (proj2 Hname) Hls ltac:(lia)) as Hg.
  destruct (run_lease_init com _ _ _ true _ _ _ _ _ w1 Hg eq_refl (ep_reliable _ _ _ _ _ Hp)) as (m & Er & Hm).
  { by rw (ep_clock _ _ _ _ _ Hp). }
  cbn [sd_fd sd_offset] in Er. eexists. unfold delete_locked. rw run_bind run_read_rindex //. cbn [fst snd Z.ltb Z.compare rn_name].
  rw run_bind Es. cbn [run]. rw run_bind Eu. cbn [Z.ltb Z.compare].
  change (set_offset _ (lease_token rx name 0 io_timeout)) with (lease_token rx name (lease_offset rx i) io_timeout).
  unfold lease_token at 1. rw run_bind Er. cbn [fst Z.ltb Z.compare rn_name run].
  split; [done|]. split; [|split; [|by destruct Hp]].
  - rw -(entry_put_index _ i entry_zero w w1 Hi _ Hp); [apply (new_entry_ok name (lease_offset rx i) true Hname Hu)|].
    apply index_of_ext. intros a Ha. by apply lease_put_index.
  - eapply lease_formatted_ext; [exact Hg| |exact Hm]. intros a Ha. by rw lease_put_area.
Qed.
End locked.

(** ** Format *)

Lemma max_resources_fit ss al :
  supported ss al -> 0 < size_to_max_resources ss al < 2 ^ 31 /\ ss + size_to_max_resources ss al * entry_size <= al.
Proof.
  unfold supported. rw !elem_of_cons elem_of_nil.
  intros H; destruct_or?; try done; injection H as -> ->; vm_compute; intuition congruence.
Qed.

Lemma format_supported flags sz d :
  sizes_from_flags flags "RIF" = (0, sz) ->
  let '(ss, al, _) := format_sizes (opened d) sz in supported ss al.
Proof.
  intros Hs. unfold format_sizes. destruct (sizes_from_flags_ok _ _ _ Hs) as [-> |(Hsup & Hss & _)].
  - apply (bool_decide_unpack _). by vm_compute.
  - by destruct (Z.eqb_spec (sz_sector sz) 0); [lia|].
Qed.

Section format.
Context (com : command_line) (ri : sanlk_rindex) (ss al : Z).
Context (Hsup : supported ss al) (Hls : name_ok ri.(ri_lockspace_name)) (Hnul : 0 ∈ ri.(ri_lockspace_name)) (Hmax : is_u 32 ri.(ri_max_resources)).
Context (Hoff : 0 <= ri.(ri_disk).(sd_offset) /\ ri.(ri_disk).(sd_offset) + (2 + format_max ri ss al) * al < 2 ^ 64).

Lemma format_max_ok : 0 < format_max ri ss al <= size_to_max_resources ss al.
Proof.
  destruct (max_resources_fit ss al Hsup) as [H _]. unfold format_max. destruct Hmax.
  cbv zeta. cases; zbool; lia.
Qed.

Lemma supported_bounds : (ss = 512 \/ ss = 4096) /\ 80 <= al <= 8388608.
Proof.
  destruct (supported_fits ss al Hsup) as (H1 & H2 & H3). pose proof (supported_align ss al Hsup) as H4.
  unfold ALIGN_SIZE_8M, ALIGN_SIZE_1M in H4. split; [done|]. nia.
Qed.

Lemma format_header_ok off : is_u 64 off -> rindex_header_ok (format_header ri off ss al (format_max ri ss al)).
Proof.
  intros Ho. destruct format_max_ok as [H1 H2]. destruct (max_resources_fit ss al Hsup) as [H3 _].
  assert (is_u 32 (rindex_header_align_flag_from_size al)) by (unfold rindex_header_align_flag_from_size; cases; by vm_compute).
  assert (is_u 32 (u32 ss)) by (by apply wrapu_is_u).
  assert (is_u 32 (format_max ri ss al)) by (split; lia).
  assert (name_ok (strncpy NAME_ID_SIZE (ri_lockspace_name ri))) by (split; [apply length_strncpy|by apply strncpy_ok, Hls]).
  unfold rindex_header_ok, format_header. cbn. repeat (split; [first [done|by vm_compute]|]); done.
Qed.

(** The device after the write of the header. *)
Definition header_bytes : list Z :=
  rindex_header_out (format_header ri ri.(ri_disk).(sd_offset) ss al (format_max ri ss al)) (zeros sizeof_rindex_header).

Definition formatted_index : rindex_info :=
  RindexInfo ri (opened ri.(ri_disk)) (format_header ri ri.(ri_disk).(sd_offset) ss al (format_max ri ss al)).

Lemma strcmp_eq_nul l a b : Forall (fun c => c <> 0) l -> strcmp_eq (l ++ 0 :: a) (l ++ 0 :: b) = Some true.
Proof.
  induction 1 as [|c l Hc Hl IH]; cbn; [done|]. rw Z.eqb_refl. by apply Z.eqb_neq in Hc as ->.
Qed.

Lemma cstr_nul l : 0 ∈ l -> exists r, l = cstr l ++ 0 :: r.
Proof.
  induction l as [|c l IH]; cbn; [by intros ?%not_elem_of_nil|]. destruct (Z.eqb_spec c 0) as [-> |Hc]; [by exists l|].
  intros [E|Hin]%elem_of_cons; [by destruct Hc|]. destruct (IH Hin) as [r Er]. exists r. cbn. by f_equal.
Qed.

(** A name with a NUL is equal to its copy in a field of the same size. *)
Lemma strcmp_strncpy n l : length l = n -> 0 ∈ l -> strcmp_eq (strncpy n l) l = Some true.
Proof.
  intros Hn [r Er]%cstr_nul. assert (length (cstr l) < n)%nat.
  { rw -Hn Er length_app. cbn. rw cstr_app_zero; [apply cstr_nonzero|]. lia. }
  unfold strncpy. rw take_ge; [lia|]. destruct (n - length (cstr l))%nat as [|k] eqn:Ek; [lia|].
  cbn [replicate]. rw {2}Er. apply strcmp_eq_nul, cstr_nonzero.
Qed.

Lemma formatted_geometry :
  rx_ss formatted_index = ss /\ rx_align formatted_index = al /\ rx_max_resources formatted_index = format_max ri ss al /\
  index_geometry formatted_index /\ check_header formatted_index = Some 0.
Proof.
  destruct supported_bounds as [Hss Ha], format_max_ok as [H1 H2], (max_resources_fit ss al Hsup) as [H3 H4].
  assert (Ess : rx_ss formatted_index = ss) by (unfold rx_ss; cbn; destruct Hss as [-> | ->]; done).
  assert (Eal : rx_align formatted_index = al).
  { unfold rx_align. cbn. pose proof Hsup as H. unfold supported in H. rw !elem_of_cons elem_of_nil in H.
    destruct_or?; try done; by injection H as _ ->. }
  assert (Emax : rx_max_resources formatted_index = format_max ri ss al).
  { unfold rx_max_resources. cbn [rx_header formatted_index format_header rh_max_resources].
    destruct (Z.eqb_spec (format_max ri ss al) 0); [lia|done]. }
  do 3 (split; [done|]). split.
  - split; rw ?Ess ?Eal ?Emax; [done|lia| |exact Hoff]. unfold entry_size in *. nia.
  - unfold check_header. cbn [rx_header formatted_index format_header rh_magic rh_version rh_lockspace_name rh_rx_offset rx_ri rx_disk opened sd_offset].
    rw Z.eqb_refl. cbn [negb]. change (negb (Z.land _ _ =? _)) with false. cbv iota.
    rw strcmp_strncpy //; [by destruct Hls|]. cbn [mbind option_bind negb]. by rw Z.eqb_refl.
Qed.

(** The device after both writes: [m] is the area of the index's lease. *)
Definition formatted_world (w : world) (m : mem) : world :=
  let fd := nth 0 ri.(ri_disk).(sd_path) 0 in
  world_put (world_put w fd ri.(ri_disk).(sd_offset) al (buf_put mem_zero 0 header_bytes)) fd (ri.(ri_disk).(sd_offset) + al) al m.

Lemma header_length : length header_bytes = 80%nat.
Proof. apply rindex_header_out_length; [|done]. apply format_header_ok. destruct supported_bounds, format_max_ok. split; [lia|]. nia. Qed.

Lemma formatted_area w m a :
  0 <= a < al -> index_area formatted_index (formatted_world w m) a = buf_put mem_zero 0 header_bytes a.
Proof.
  intros Hb. unfold index_area, formatted_world, world_put. cbn [w_dev formatted_index rx_disk opened sd_fd sd_offset].
  rw !Z.eqb_refl. unfold mem_write.
  destruct (Z.leb_spec (ri.(ri_disk).(sd_offset) + al) (ri.(ri_disk).(sd_offset) + a)); [lia|]. cbn [andb].
  rw (proj2 (Z.leb_le _ _)) ?(proj2 (Z.ltb_lt _ _)); [lia..|]. cbn [andb]. f_equal. lia.
Qed.

Lemma formatted_the_index w m : the_index ri (formatted_world w m) = formatted_index.
Proof.
  destruct supported_bounds as [_ Ha], format_max_ok as [Hm _].
  unfold the_index, formatted_index. f_equal.
  transitivity (rindex_header_in (header_bytes ++ [])).
  - f_equal. rw app_nil_r -{1}(mem_read_put mem_zero 0 header_bytes) header_length. apply mem_read_ext. intros i Hi.
    unfold sizeof_rindex_header in Hi. rw Z.add_0_l -(formatted_area w m); [lia|]. done.
  - apply rindex_header_in_out; [apply format_header_ok; split; [lia|nia]|done|apply zeros_ok].
Qed.

Lemma formatted_entries w m :
  index_of formatted_index (formatted_world w m) = replicate (Z.to_nat (format_max ri ss al)) entry_zero.
Proof.
  destruct supported_bounds as [Hss Ha], formatted_geometry as (Ess & Eal & Emax & Hgeo & _).
  apply list_eq. intros i. unfold index_of. rw lookup_entries Emax. destruct (Z.ltb_spec (Z.of_nat i) (format_max ri ss al)).
  - rw lookup_replicate_2; [lia|]. f_equal. unfold entry_of, entry_zero. f_equal. rw -(mem_read_mem_zero (entry_pos formatted_index i)).
    fold (entry_pos formatted_index i). apply mem_read_ext. intros k Hk.
    destruct (entry_bounds formatted_index Hgeo i ltac:(lia)) as (_ & B1 & B2 & _). unfold entry_size in B2. rw Ess in B1. rw Eal in B2.
    rw formatted_area; [lia|]. unfold buf_put, mem_write. rw header_length.
    destruct (Z.ltb_spec (entry_pos formatted_index i + k) (0 + Z.of_nat 80)); [lia|]. by rw andb_false_r.
  - symmetry. apply lookup_replicate_None. lia.
Qed.

(** The lease of the index, for the hosts of its geometry. *)
Definition index_lease_ready (w' : world) : Prop :=
  lease_formatted (rx_token formatted_index rindex_lease_name (ri.(ri_disk).(sd_offset) + al) ss al com.(com_io_timeout) None)
    false ss (size_to_max_hosts ss al) (size_to_max_hosts ss al)
    (lease_area_of formatted_index (ri.(ri_disk).(sd_offset) + al) w').

Lemma run_format_opened w :
  reliable w -> is_u 64 w.(w_clock) ->
  exists m, run world_handler (format_opened com ri (opened ri.(ri_disk)) ss al) w = (Some 0, formatted_world w m) /\
    index_lease_ready (formatted_world w m).
Proof.
  intros Hw Hclk. destruct supported_bounds as [Hss Ha], format_max_ok as [Hm _].
  pose proof (token_geometry formatted_index rindex_lease_name (ri.(ri_disk).(sd_offset) + al) ss al com.(com_io_timeout) None 0 Hsup
    ltac:(apply (bool_decide_unpack _); by vm_compute) (proj2 Hls) ltac:(lia)) as Hg.
  set (fd := nth 0 ri.(ri_disk).(sd_path) 0) in *.
  set (w1 := world_put w fd ri.(ri_disk).(sd_offset) al (buf_put mem_zero 0 header_bytes)).
  destruct (run_lease_init com _ _ _ false _ _ _ _ _ w1 Hg eq_refl (reliable_put w _ _ _ _ Hw) Hclk) as (m & Er & Hf).
  cbn [sd_fd sd_offset rx_disk formatted_index opened] in Er. exists m. split.
  - unfold format_opened. rw run_bind run_memalign //. cbn [nz fst Z.eqb negb]. cbn [opened sd_offset sd_fd]. fold fd header_bytes.
    unfold sizeof_rindex_header. destruct (Z.ltb_spec al (Z.of_nat 80)); [lia|]. rw run_bind run_write_iobuf //. cbn [Z.ltb Z.compare].
    fold w1. rw run_bind. cbn [run call setup_rindex_token mbind prog_bind pbind world_handler].
    assert (rx_token (RindexInfo ri (opened (ri_disk ri)) header_zero) rindex_lease_name
      (u64 (ri.(ri_disk).(sd_offset) + al)) ss al com.(com_io_timeout) None = rx_token formatted_index rindex_lease_name
      (ri.(ri_disk).(sd_offset) + al) ss al com.(com_io_timeout) None) as Et.
    { unfold rx_token. do 3 f_equal. apply wrapu_small. split; [lia|nia]. }
    cbn [opened sd_offset rx_disk]. unfold opened in Et. rw Et. by rw run_bind Er.
  - eapply lease_formatted_ext; [exact Hg| |exact Hf]. intros a Hb. unfold lease_area_of, formatted_world, world_put.
    cbn [formatted_index rx_disk opened sd_fd w_dev]. rw Z.eqb_refl. unfold mem_write.
    rw (proj2 (Z.leb_le _ _)); [lia|]. rw (proj2 (Z.ltb_lt _ _)); [lia|]. cbn [andb]. f_equal. lia.
Qed.
End format.

(** ** Properties *)

(** C29: The search of the index is the first match of the list of its entries. For every index
    whose geometry is one that [rindex_format] writes, [search_entries] returns the place of the first
    entry that is free (or has the name) with the offset of the lease area that belongs to it, ENOENT
    when there is none, and never reads outside the buffer; the offset is computed in an [int], so the
    code has undefined behaviour exactly when the number of the entry times the align size
    reaches 2^31. *)
Theorem search_is_first_match rx iobuf key :
  index_geometry rx ->
  search_entries rx iobuf key =
    match list_find (wanted key) (entries rx iobuf) with
    | None => Ret None
    | Some (i, _) => if Z.of_nat i * rx_align rx <? 2 ^ 31 then Ret (Some (entry_pos rx i, lease_offset rx i)) else Ub
    end.
Proof. intros Hgeo. by apply search_entries_spec. Qed.

(** C28: Formatting makes an empty index. On a device without failures
    (allocations included), for every supported pair of sizes, every number of
    entries asked for, an area that ends below 2^64 and a lockspace name with
    its terminating NUL (fewer than 48 characters), [rindex_format] returns 0
    and leaves an index whose header the other operations accept, with all its
    entries free and as many of them as asked for (4096 by default) up to the
    limit of the sizes, all inside the area; the lease of the index follows it,
    formatted and free. *)
Theorem index_format_empty com ri sz w :
  reliable w -> is_u 64 w.(w_clock) -> 0 <= nth 0 ri.(ri_disk).(sd_path) 0 ->
  sizes_from_flags ri.(ri_flags) "RIF" = (0, sz) -> name_ok ri.(ri_lockspace_name) -> 0 ∈ ri.(ri_lockspace_name) ->
  is_u 32 ri.(ri_max_resources) ->
  let '(ss, al, _) := format_sizes (opened ri.(ri_disk)) sz in
  0 <= ri.(ri_disk).(sd_offset) /\ ri.(ri_disk).(sd_offset) + (2 + format_max ri ss al) * al < 2 ^ 64 ->
  exists w', run world_handler (rindex_format com ri) w = (Some 0, w') /\
    indexed ri w' /\ the_index ri w' = formatted_index ri ss al /\
    index_of (the_index ri w') w' = replicate (Z.to_nat (format_max ri ss al)) entry_zero /\
    index_lease_ready com ri ss al w'.
Proof.
  intros Hw Hclk Hfd Hs Hls Hnul Hmax. pose proof (format_supported _ _ ri.(ri_disk) Hs) as Hsup.
  destruct (format_sizes (opened ri.(ri_disk)) sz) as [[ss al] mh] eqn:Es. intros Hoff.
  destruct (run_format_opened com ri ss al Hsup Hls Hmax Hoff w Hw Hclk) as (m & Er & Hl).
  destruct (formatted_geometry ri ss al Hsup Hls Hnul Hmax Hoff) as (_ & _ & _ & Hgeo & Hh).
  pose proof (formatted_the_index ri ss al Hsup Hls Hmax Hoff w m) as Ei.
  exists (formatted_world ri ss al w m). split; [|split; [by split; [..|rw Ei|rw Ei]|split; [done|split; [|done]]]].
  - unfold rindex_format. rw run_bind run_open_disk //. cbn [fst snd Z.ltb Z.compare]. rw Hs. cbn [nz Z.eqb negb].
    by rw Es run_bind Er run_bind run_close_disk.
  - rw Ei. by apply formatted_entries.
Qed.

(** C27: A lookup answers from the list of entries. On a device without failures
    that has an index of the lockspace, [rindex_lookup] changes nothing and
    returns, for a name without offset, the lease offset of the first entry with
    that name; without name and offset, the offset of the first free entry;
    ENOENT when there is none; for the offset of a lease of the index, the name
    that the index records for it, with SANLK_RINDEX_DIFF when a different name
    is given; and SANLK_RINDEX_OFFSET for a misaligned offset. Nothing is said
    of aligned offsets that are not those of a lease of the index, nor of a
    search that ends at an entry whose number times the align size reaches 2^31.
    *)
Theorem index_lookup_refines com ri re flags w a :
  let rx := the_index ri w in
  indexed ri w -> lookup_answer rx (index_of rx w) re = Some a ->
  run world_handler (rindex_lookup com ri re flags) w = (Some (Some a), w).
Proof. apply run_lookup. Qed.

(** C26: What is added to the index is found in it. On a device without failures
    that has an index of the lockspace, [rindex_update] with SANLK_RXUP_ADD and
    without SANLK_RXUP_REM, of a nonempty name at the (aligned) offset of a
    lease of the index, replaces exactly that entry of the list and keeps the
    index valid. Afterwards [rindex_lookup] by the offset returns the name; by
    the name it returns the offset when no entry before it has that name (which
    the update does not check) and the number of the entry times the align size
    is below 2^31. *)
Theorem index_add_lookup com ri re flags w i :
  let rx := the_index ri w in
  indexed ri w -> Z.of_nat i < rx_max_resources rx ->
  re.(rn_offset) = lease_offset rx i -> re.(rn_offset) mod rx_align rx = 0 -> name_ok re.(rn_name) -> nth 0 re.(rn_name) 0 <> 0 ->
  has_flag flags SANLK_RXUP_ADD = true -> has_flag flags SANLK_RXUP_REM = false ->
  exists w', run world_handler (rindex_update com ri re flags) w = (Some (Some (0, Some re)), w') /\ indexed ri w' /\
    the_index ri w' = rx /\ index_of rx w' = <[i := RindexEntry re.(rn_offset) 0 0 re.(rn_name)]> (index_of rx w) /\
    run world_handler (rindex_lookup com ri (Rentry [] re.(rn_offset)) flags) w' = (Some (Some (0, Some re)), w') /\
    (Forall (fun e => has_name re.(rn_name) e = false) (take i (index_of rx w)) -> Z.of_nat i * rx_align rx < 2 ^ 31 ->
     run world_handler (rindex_lookup com ri (Rentry re.(rn_name) 0) flags) w' = (Some (Some (0, Some re)), w')).
Proof.
  intros rx Hix Hi Eo Hal Hn H0 Hadd Hrem.
  destruct (run_rindex_update com ri re flags w i Hix Hi Eo Hal Hn) as (w' & Er & Hp).
  { unfold update_flags_ok, nz. rw Hadd Hrem. cbn. by apply negb_true_iff, Z.eqb_neq. }
  fold rx in Er, Hp. rw Hrem in Er, Hp. destruct (entry_put_indexed ri w w' i _ Hix Hi Hp) as [Ei Hix']. fold rx in Ei.
  destruct Hix as [_ _ _ Hgeo]. fold rx in Hgeo. destruct (lease_offset_ok rx Hgeo i Hi) as [Hu Hlo].
  destruct (index_sizes rx Hgeo) as (_ & Ha & _).
  assert (El : index_of rx w' = <[i := RindexEntry re.(rn_offset) 0 0 re.(rn_name)]> (index_of rx w)).
  { apply (entry_put_index rx i _ w w' Hi); [|done]. apply (new_entry_ok _ _ false Hn). by rw Eo. }
  assert (Hlen : (i < length (index_of rx w))%nat) by (unfold index_of, entries; rw length_fmap length_seq; lia).
  assert (re.(rn_offset) <> 0) by (rw Eo; destruct Hgeo as [_ _ _ ?]; lia).
  exists w'. do 2 (split; [done|]). split; [done|]. split; [done|]. split.
  - apply run_lookup; [done|]. rw Ei El. unfold lookup_answer, key_of. cbn [rn_offset rn_name nth Z.eqb].
    destruct (Z.eqb_spec re.(rn_offset) 0); [done|]. rw Hal. cbn [nz Z.eqb negb].
    rw Eo lease_number; [lia|]. rw Z.eqb_refl. cbn [negb]. rw list_lookup_insert_eq //. rw -Eo. by destruct re.
  - intros Hfree Hrange. assert (Ek : key_of (Rentry re.(rn_name) 0) = Some re.(rn_name)).
    { unfold key_of. cbn. by destruct (Z.eqb_spec (nth 0 re.(rn_name) 0) 0). }
    assert (Efind : list_find (wanted (Some re.(rn_name))) (index_of rx w') =
      Some (i, RindexEntry re.(rn_offset) 0 0 re.(rn_name))).
    2:{ apply run_lookup; [done|]. rw Ei. unfold lookup_answer. rw Ek Efind. cbn [rn_offset Z.eqb].
        apply Z.ltb_lt in Hrange as ->. rw -Eo. by destruct re. }
    rw El. apply list_find_Some. split; [by rw list_lookup_insert_eq|]. split.
    + unfold wanted, has_name. cbn [re_name]. apply andb_true_iff. split; [by apply negb_true_iff, Z.eqb_neq|]. by apply bool_decide_eq_true.
    + intros j e Ej Hj. rw list_lookup_insert_ne in Ej; [lia|]. unfold wanted.
      rw (Forall_lookup_1 _ _ j e Hfree); [|done]. by rw lookup_take_lt.
Qed.

(** Creation takes the first free entry. On a device without failures, [rindex_create] while it holds the lease of
    the index formats the lease area of the first free entry for the name and the number of hosts,
    replaces exactly that entry of the list by the name and the offset, and returns the offset; with no free entry it returns
    ENOENT and changes nothing. *)
Theorem index_create_refines com rx io_timeout name offset num_hosts w :
  index_geometry rx -> reliable w -> is_u 64 w.(w_clock) -> name_ok name -> bytes_ok rx.(rx_ri).(ri_lockspace_name) ->
  0 <= num_hosts ->
  let create := create_locked com io_timeout rx (lease_token rx name 0 io_timeout) (Rentry name offset) num_hosts in
  (forall i, found rx None (index_of rx w) i ->
     exists w', run world_handler create w = (Some (0, Some (lease_offset rx i)), w') /\
       index_of rx w' = <[i := RindexEntry (lease_offset rx i) 0 0 name]> (index_of rx w) /\
       lease_ready rx io_timeout name i num_hosts false w') /\
  (list_find (wanted None) (index_of rx w) = None -> run world_handler create w = (Some (- ENOENT, None), w)).
Proof.
  intros Hgeo Hw Hclk Hn Hls Hh create. split.
  - intros i Hf. destruct (run_create com rx io_timeout name offset w Hgeo Hw Hclk Hn Hls num_hosts i Hh Hf) as (w' & H1 & H2 & H3 & _). by exists w'.
  - intros Ef. unfold create, create_locked. rw run_bind run_read_rindex //. cbn [fst snd Z.ltb Z.compare].
    rw run_bind search_entries_spec //. fold (index_of rx w). by rw Ef.
Qed.

(** *** A small index *)

Definition demo_ri : sanlk_rindex := Rindex 0 16 (strncpy NAME_ID_SIZE [76; 83]) (SyncDisk [5] 0 0 (-1)).
Definition demo_name : list Z := strncpy NAME_ID_SIZE [82; 49].
Definition demo_index : rindex_info := formatted_index demo_ri 512 ALIGN_SIZE_1M.
Definition demo_world : world := formatted_world demo_ri 512 ALIGN_SIZE_1M demo3_world mem_zero.

Lemma demo_name_ok : name_ok demo_name.
Proof. split; [done|]. apply (bool_decide_unpack _). by vm_compute. Qed.

Lemma demo_ri_nul : 0 ∈ demo_ri.(ri_lockspace_name).
Proof. apply (bool_decide_unpack _). by vm_compute. Qed.

Lemma demo_ri_ok :
  supported 512 ALIGN_SIZE_1M /\ name_ok demo_ri.(ri_lockspace_name) /\ is_u 32 demo_ri.(ri_max_resources) /\
  0 <= demo_ri.(ri_disk).(sd_offset) /\
  demo_ri.(ri_disk).(sd_offset) + (2 + format_max demo_ri 512 ALIGN_SIZE_1M) * ALIGN_SIZE_1M < 2 ^ 64.
Proof.
  split; [apply (bool_decide_unpack _); by vm_compute|].
  split; [split; [done|apply (bool_decide_unpack _); by vm_compute]|]. by vm_compute.
Qed.

Lemma demo_indexed :
  indexed demo_ri demo_world /\ the_index demo_ri demo_world = demo_index /\ index_geometry demo_index /\
  rx_align demo_index = ALIGN_SIZE_1M /\ rx_max_resources demo_index = 16 /\ index_of demo_index demo_world = replicate 16 entry_zero.
Proof.
  destruct demo_ri_ok as (Hs & Hls & Hm & Ho).
  destruct (formatted_geometry demo_ri 512 ALIGN_SIZE_1M Hs Hls demo_ri_nul Hm Ho) as (_ & Ea & Em & Hgeo & Hh).
  pose proof (formatted_the_index demo_ri 512 ALIGN_SIZE_1M Hs Hls Hm Ho demo3_world mem_zero) as Ei. fold demo_index demo_world in Ei.
  assert (Hix : indexed demo_ri demo_world) by (by split; [..|rw Ei|rw Ei]).
  do 3 (split; [done|]). split; [done|]. split; [done|].
  exact (formatted_entries demo_ri 512 ALIGN_SIZE_1M Hs Hls demo_ri_nul Hm Ho demo3_world mem_zero).
Qed.

Lemma demo_clock : is_u 64 demo_world.(w_clock).
Proof. change (w_clock demo_world) with 1000. by vm_compute. Qed.

Lemma search_is_first_match_witness :
  search_entries demo_index (index_area demo_index demo_world) None = Ret (Some (512, 2097152)).
Proof.
  destruct demo_indexed as (_ & _ & Hg & Ea & _ & Ee).
  pose proof (search_is_first_match demo_index (index_area demo_index demo_world) None Hg) as H.
  fold (index_of demo_index demo_world) in H. rw Ee Ea in H. exact H.
Defined.

Lemma index_format_empty_witness :
  exists w', run world_handler (rindex_format demo3_com demo_ri) demo3_world = (Some 0, w') /\
    indexed demo_ri w' /\ index_of (the_index demo_ri w') w' = replicate 16 entry_zero.
Proof.
  destruct demo_ri_ok as (_ & Hls & Hm & Ho).
  destruct (index_format_empty demo3_com demo_ri (Sizes 0 0 0) demo3_world (conj eq_refl eq_refl)
    ltac:(by vm_compute) ltac:(by vm_compute) eq_refl Hls demo_ri_nul Hm Ho) as (w' & H1 & H2 & _ & H3 & _).
  exists w'. split; [exact H1|]. split; [exact H2|exact H3].
Defined.

Lemma index_lookup_refines_witness :
  run world_handler (rindex_lookup demo3_com demo_ri (Rentry [] 0) 0) demo_world =
    (Some (Some (0, Some (Rentry (zeros NAME_ID_SIZE) 2097152))), demo_world).
Proof.
  destruct demo_indexed as (Hix & Ei & _ & Ea & Em & Ee).
  apply (index_lookup_refines demo3_com demo_ri (Rentry [] 0) 0 demo_world _ Hix).
  rw Ei Ee. unfold lookup_answer. cbn [rn_offset Z.eqb]. change (list_find _ _) with (Some (0%nat, entry_zero)).
  cbv beta iota. unfold lease_offset. rw Ea. reflexivity.
Defined.

Lemma index_add_lookup_witness :
  exists w', run world_handler (rindex_lookup demo3_com demo_ri (Rentry demo_name 0) SANLK_RXUP_ADD) w' =
    (Some (Some (0, Some (Rentry demo_name 5242880))), w').
Proof.
  destruct demo_indexed as (Hix & Ei & _ & Ea & Em & Ee).
  pose proof (index_add_lookup demo3_com demo_ri (Rentry demo_name 5242880) SANLK_RXUP_ADD demo_world 3 Hix) as H.
  cbv zeta in H. unfold lease_offset in H. rw Ei Ea Em Ee in H.
  destruct H as (w' & _ & _ & _ & _ & _ & H); [done|reflexivity|reflexivity|exact demo_name_ok|done|reflexivity|reflexivity|].
  exists w'. apply H; [apply (bool_decide_unpack _); by vm_compute|by vm_compute].
Defined.

Lemma index_create_refines_witness :
  exists w', run world_handler (create_locked demo3_com 10 demo_index (lease_token demo_index demo_name 0 10) (Rentry demo_name 0) 4)
      demo_world = (Some (0, Some 2097152), w') /\
    index_of demo_index w' = <[0%nat := RindexEntry 2097152 0 0 demo_name]> (replicate 16 entry_zero).
Proof.
  destruct demo_indexed as (Hix & _ & Hg & Ea & _ & Ee). destruct demo_ri_ok as (_ & [_ Hls] & _).
  destruct (index_create_refines demo3_com demo_index 10 demo_name 0 4 demo_world Hg (ix_reliable _ _ Hix)
    demo_clock demo_name_ok Hls ltac:(lia)) as [H _].
  destruct (H 0%nat) as (w' & H1 & H2 & _).
  { split; [rw Ee; exists entry_zero; reflexivity|rw Ea; reflexivity]. }
  exists w'. unfold lease_offset in H1, H2. rw Ea in H1, H2. rw Ee in H2. split; [exact H1|exact H2].
Defined.
