(* ===== verification/RindexOrder.v ===== *)
(** * The resource index: the order of the writes

    For every response of the device, the i/o that creation and deletion of an entry do
    while they hold the lease of the index: a new lease is on disk before its entry,
    and an entry is gone before its lease is cleared. Then what the code does when an allocation
    fails, and when an index of the default size fills up. *)

From S2P Require Import Prelude SizeFlags OnDisk Timeouts Io DeltaLease PaxosBlocks PaxosBallot PaxosLease PaxosSafety.
From S2P Require Import ResourceDisk Rindex RindexSafety.

(** ** Environments in which allocations succeed *)

Definition alloc_ok {X} (c : cmd X) : X -> Prop :=
  match c in cmd X return X -> Prop with CMemalign _ => fun r => fst r = 0 | _ => fun _ => True end.
Definition alloc_env : env := fun _ X c x => resp_ok c x /\ alloc_ok c x.

Lemma always_and {R : env} {A} (p : prog A) (I1 I2 : list event -> Prop) (Q1 Q2 : list event -> A -> Prop) h :
  always_in R p I1 Q1 h -> always_in R p I2 Q2 h ->
  always_in R p (fun h => I1 h /\ I2 h) (fun h a => Q1 h a /\ Q2 h a) h.
Proof.
  revert h. induction p as [a| |X c k IH]; intros h [H1 H1'] [H2 H2']; (split; [done|]); [done|done|].
  intros x Hx. apply IH; eauto.
Qed.

Lemma always_memalign_ok len (I : list event -> Prop) (Q : list event -> Z * mem -> Prop) h :
  I h -> (forall m, Q h (0, m)) -> always_in alloc_env (call (CMemalign len)) I Q h.
Proof. intros Hh HQ. apply always_quiet; [done..|]. intros [e m] [_ He]. cbn in He. subst. apply HQ. Qed.

Lemma init_disks_code disks m len ioto h :
  always_in alloc_env (init_disks disks m len ioto) (fun _ => True) (fun _ rv => rv <= 0) h.
Proof.
  revert h. induction disks as [|d ds IH]; intros h; [by apply always_ret|].
  apply always_bind, always_call; [done|]. intros rv [Hrv _]. cbn in Hrv. split; [done|].
  destruct (Z.ltb_spec rv 0); [apply always_ret; [done|lia]|apply IH].
Qed.

(** A code of [paxos_lease_init] that is not an error is then 0. *)
Lemma lease_init_code com t sz num_hosts clear ss al max_hosts hosts :
  format_geometry t sz num_hosts ss al max_hosts hosts -> forall h,
  always_in alloc_env (paxos_lease_init com t num_hosts clear) (fun _ => True) (fun _ r => fst r <= 0) h.
Proof.
  intros Hgeo h. destruct (format_bounds _ _ _ _ _ _ _ Hgeo) as (Hss & Hh & Hm & Ha).
  destruct Hgeo as [Hf (d & ds & Ed & _ & Es) _ _].
  unfold paxos_lease_init. rw Hf. cbn [nz Z.eqb negb]. assert (disk0 t = Ret d) as -> by (unfold disk0; by rw Ed).
  apply always_bind, always_ret; [done|]. rw Es. apply always_bind, always_memalign_ok; [done|]. intros m. cbn [nz fst Z.eqb negb].
  apply always_bind. eapply (always_mono _ (fun _ => True) (fun _ => True) (fun _ _ => True)); [|done|].
  { destruct clear; [by apply always_quiet|by apply always_ret]. }
  intros h' now _ _. apply always_bind, always_quiet; [done..|]. intros rr _.
  change (Z.of_nat sizeof_leader_record) with 200. change (Z.of_nat sizeof_request_record) with 24.
  destruct (Z.ltb_spec al 200); [lia|]. destruct (Z.ltb_spec al (ss + 24)); [lia|]. cbn [orb].
  apply always_bind. eapply always_mono; [apply init_disks_code|done|]. intros h2 rv _ Hrv. by apply always_ret.
Qed.

(** ** The traces *)

Section order.
Context (com : command_line) (rx : rindex_info) (io_timeout : Z) (name : list Z) (offset : Z).
Context (Hgeo : index_geometry rx) (Hsmall : rx_max_resources rx * rx_align rx <= 2 ^ 31).
Context (Hname : name_ok name) (Hls : bytes_ok rx.(rx_ri).(ri_lockspace_name)).

Definition index_read (m : mem) (rv : Z) : event :=
  EvRead rx.(rx_disk).(sd_fd) rx.(rx_disk).(sd_offset) (rx_align rx) rv m.

(** The write of the area of lease [i]. *)
Definition lease_write (i : nat) (m : mem) (rv : Z) : event :=
  EvWrite rx.(rx_disk).(sd_fd) (lease_offset rx i) (rx_align rx) m rv.

(** The write of the sector of entry [i], with the entry replaced in what was read. *)
Definition entry_write (i : nat) (re : rindex_entry) (m : mem) (rv : Z) : event :=
  EvWrite rx.(rx_disk).(sd_fd) (rx.(rx_disk).(sd_offset) + sector_of rx i) (rx_ss rx) (sector_buf rx m i re) rv.

Definition lease_image (i : nat) (num_hosts : Z) (clear : bool) (m : mem) : Prop :=
  lease_formatted (lease_token rx name (lease_offset rx i) io_timeout) clear (rx_ss rx)
    (size_to_max_hosts (rx_ss rx) (rx_align rx)) (lease_hosts (rx_ss rx) (rx_align rx) num_hosts) m.

Definition named_entry (i : nat) : rindex_entry := RindexEntry (lease_offset rx i) 0 0 name.

Definition first_entry (key : option (list Z)) (m : mem) (i : nat) : Prop :=
  exists e, list_find (wanted key) (entries rx m) = Some (i, e).

Inductive creating (num_hosts : Z) : list event -> Prop :=
  | cr_start : creating num_hosts []
  | cr_read m rv : creating num_hosts [index_read m rv]
  | cr_lease m i l rv : first_entry None m i -> lease_image i num_hosts false l ->
      creating num_hosts [index_read m 0; lease_write i l rv]
  | cr_entry m i l rv : first_entry None m i -> lease_image i num_hosts false l ->
      creating num_hosts [index_read m 0; lease_write i l 0; entry_write i (named_entry i) m rv].

Definition created (num_hosts : Z) (h : list event) (r : Z * option Z) : Prop :=
  fst r < 0 \/ exists m i l, r = (0, Some (lease_offset rx i)) /\ first_entry None m i /\ lease_image i num_hosts false l /\
    h = [index_read m 0; lease_write i l 0; entry_write i (named_entry i) m 0].

Inductive deleting : list event -> Prop :=
  | dl_start : deleting []
  | dl_read m rv : deleting [index_read m rv]
  | dl_entry m i rv : first_entry (Some name) m i -> deleting [index_read m 0; entry_write i entry_zero m rv]
  | dl_lease m i l rv : first_entry (Some name) m i -> lease_image i 0 true l ->
      deleting [index_read m 0; entry_write i entry_zero m 0; lease_write i l rv].

Definition deleted (h : list event) (r : Z * option Z) : Prop :=
  fst r < 0 \/ exists m i l, r = (0, Some 0) /\ first_entry (Some name) m i /\ lease_image i 0 true l /\
    h = [index_read m 0; entry_write i entry_zero m 0; lease_write i l 0].

#[local] Hint Constructors creating deleting : core.

(** ** The parts *)

(** The read, and the search in what it returned. *)
Lemma read_search_always {A} key (none : A) (body : mem -> Z -> Z -> prog A) (fail : Z -> A)
    (I : list event -> Prop) (Q : list event -> A -> Prop) :
  I [] -> (forall m rv, I [index_read m rv]) -> (forall h rv, rv < 0 -> Q h (fail rv)) -> (forall h, Q h none) ->
  (forall m i, first_entry key m i -> Z.of_nat i < rx_max_resources rx ->
     always_in alloc_env (body m (entry_pos rx i) (lease_offset rx i)) I Q [index_read m 0]) ->
  always_in alloc_env
    (r ← read_rindex io_timeout rx;
     if fst r <? 0 then Ret (fail (fst r))
     else match snd r with
     | None => Ub
     | Some iobuf =>
         s ← search_entries rx iobuf key;
         match s with
         | None => Ret none
         | Some (ent_offset, res_offset) => body iobuf ent_offset res_offset
         end
     end) I Q [].
Proof.
  intros H0 H1 Hf Hn Hb. apply always_bind. unfold read_rindex. apply always_bind, always_memalign_ok; [done|]. intros b.
  cbn [nz fst Z.eqb negb]. apply always_bind, always_call; [done|]. intros [rv m] [[Hrv _] _]. cbn [fst snd ev] in *.
  split; [apply H1|]. destruct (Z.ltb_spec rv 0).
  - apply always_ret; [apply H1|]. cbn [fst]. destruct (Z.ltb_spec rv 0); [|lia]. apply always_ret; [apply H1|by apply Hf].
  - assert (rv = 0) as -> by lia. apply always_ret; [apply H1|]. cbn [fst snd Z.ltb Z.compare].
    apply always_bind. rw search_entries_spec //. destruct (list_find _ _) as [[i e]|] eqn:Ef.
    + pose proof (proj1 (proj1 (list_find_Some _ _ _ _) Ef)) as Ei. rw lookup_entries in Ei.
      destruct (Z.ltb_spec (Z.of_nat i) (rx_max_resources rx)); [|done].
      destruct (index_sizes rx Hgeo) as (_ & Ha & _). destruct (Z.ltb_spec (Z.of_nat i * rx_align rx) (2 ^ 31)); [|nia].
      apply always_ret; [apply H1|]. apply (Hb m i); [by exists e|done].
    + apply always_ret; [apply H1|]. apply always_ret; [apply H1|apply Hn].
Qed.

(** The write of the area of lease [i], after [pre]. *)
Lemma lease_write_always num_hosts clear i (I : list event -> Prop) (Q : list event -> Z * token -> Prop) pre :
  0 <= num_hosts -> I pre -> (forall h rv t, I h -> rv < 0 -> Q h (rv, t)) ->
  (forall m rv, lease_image i num_hosts clear m -> I (pre ++ [lease_write i m rv])) ->
  (forall m t, lease_image i num_hosts clear m -> Q (pre ++ [lease_write i m 0]) (0, t)) ->
  always_in alloc_env (paxos_lease_init com (lease_token rx name (lease_offset rx i) io_timeout) num_hosts clear) I Q pre.
Proof.
  intros Hh Hpre Hfail HI HQ.
  pose proof (token_geometry rx name (lease_offset rx i) (rx_ss rx) (rx_align rx) io_timeout None num_hosts
    (xg_sizes rx Hgeo) (proj2 Hname) Hls Hh) as Hg. fold (lease_token rx name (lease_offset rx i) io_timeout) in Hg.
  pose proof (always_embed (fun _ => True) _ _ _ alloc_env pre [] ltac:(intros h X c x [H _]; split; [done|by apply Forall_true])
    (format_always com _ _ _ clear _ _ _ _ Hg)) as Hf. rw app_nil_r in Hf.
  assert (HI' : forall h es, h = pre ++ es -> lease_formatting (lease_token rx name (lease_offset rx i) io_timeout) clear (rx_ss rx)
    (rx_align rx) (size_to_max_hosts (rx_ss rx) (rx_align rx)) (lease_hosts (rx_ss rx) (rx_align rx) num_hosts) es -> I h).
  { intros h es -> [-> |(m & ds & d & rest & rv & Hm & Ed & ->)]; [by rw app_nil_r|].
    cbn [t_disks lease_token rx_token] in Ed. destruct ds as [|d0 ds]; [|by destruct ds].
    injection Ed as <- <-. by apply HI. }
  eapply always_mono; [exact (always_and _ _ _ _ _ _ Hf (lease_init_code com _ _ _ clear _ _ _ _ Hg _))| |].
  - intros h [(es & E & Hes & _) _]. by apply (HI' h es).
  - intros h [rv t] [(es' & E' & Hes' & _) _] [(es & E & Hq & _) Hrv]. cbn [fst snd] in *.
    destruct (decide (rv = 0)) as [-> |]; [|apply Hfail; [by apply (HI' h es')|lia]].
    destruct (Hq eq_refl) as (_ & m & Hm & Em). cbn [app] in Em. rw E Em. by apply HQ.
Qed.

(** The write of entry [i], after [pre]. *)
Lemma entry_write_always m i off delete (I : list event -> Prop) (Q : list event -> Z -> Prop) pre :
  Z.of_nat i < rx_max_resources rx -> I pre ->
  (forall rv, rv <= 0 -> I (pre ++ [entry_write i (new_entry name off delete) m rv]) /\
     Q (pre ++ [entry_write i (new_entry name off delete) m rv]) rv) ->
  always_in alloc_env (update_rindex io_timeout rx m name (entry_pos rx i) off delete) I Q pre.
Proof.
  intros Hi Hpre Hw. rw update_step //. apply always_bind, always_memalign_ok; [done|]. intros b. cbn [nz fst Z.eqb negb].
  apply always_call; [done|]. intros rv [Hrv _]. by apply Hw.
Qed.

Lemma create_always num_hosts :
  0 <= num_hosts ->
  always_in alloc_env (create_locked com io_timeout rx (lease_token rx name 0 io_timeout) (Rentry name offset) num_hosts)
    (creating num_hosts) (created num_hosts) [].
Proof.
  intros Hh. apply (read_search_always None (- ENOENT, None) _ (fun rv => (rv, None))); [auto|auto|by left|by left|].
  intros m i Hf Hi. apply always_bind.
  change (set_offset _ (lease_token rx name 0 io_timeout)) with (lease_token rx name (lease_offset rx i) io_timeout).
  apply lease_write_always; [done|auto| |by constructor|].
  - intros h rv t Hh' Hrv. cbn [fst]. destruct (Z.ltb_spec rv 0); [|lia]. apply always_ret; [done|by left].
  - intros l t Hl. cbn [fst Z.ltb Z.compare app]. apply always_bind, entry_write_always; [done|auto|].
    intros rv Hrv. split; [by constructor|]. destruct (Z.ltb_spec rv 0).
    + apply always_ret; [by constructor|by left].
    + assert (rv = 0) as -> by lia. apply always_ret; [by constructor|]. right. by exists m, i, l.
Qed.

Lemma delete_always :
  always_in alloc_env (delete_locked com io_timeout rx (lease_token rx name 0 io_timeout) (Rentry name offset))
    deleting deleted [].
Proof.
  apply (read_search_always (Some name) (- ENOENT, None) _ (fun rv => (rv, None))); [auto|auto|by left|by left|].
  intros m i Hf Hi. apply always_bind, entry_write_always; [done|auto|]. intros rv Hrv. split; [by constructor|].
  destruct (Z.ltb_spec rv 0); [apply always_ret; [by constructor|by left]|]. assert (rv = 0) as -> by lia.
  change (set_offset _ (lease_token rx name 0 io_timeout)) with (lease_token rx name (lease_offset rx i) io_timeout).
  apply always_bind, lease_write_always; [lia|by constructor| |by constructor|].
  - intros h rv t Hh' Hrv'. cbn [fst]. destruct (Z.ltb_spec rv 0); [|lia]. apply always_ret; [done|by left].
  - intros l t Hl. apply always_ret; [by constructor|]. right. by exists m, i, l.
Qed.
End order.

(** ** Properties *)

(** C25: A new lease is on disk before its entry. Provided that allocations
    succeed, that the header of the index has sizes and a number of entries that
    [rindex_format] writes, and that this number times the align size is at most
    2^31, then, whatever the device answers, at every point at which
    [rindex_create] could be interrupted while it holds the lease of the index,
    it has done a prefix of: the read of the index, the write of a formatted
    lease area at the offset of the first free entry that was read, and, only
    when that write succeeded, the write of the sector of that entry with the
    name and the offset. It returns 0 only when all of it succeeded. *)
Theorem create_lease_before_entry com rx io_timeout name offset num_hosts :
  index_geometry rx -> rx_max_resources rx * rx_align rx <= 2 ^ 31 -> name_ok name ->
  bytes_ok rx.(rx_ri).(ri_lockspace_name) -> 0 <= num_hosts ->
  always_in alloc_env (create_locked com io_timeout rx (lease_token rx name 0 io_timeout) (Rentry name offset) num_hosts)
    (creating rx io_timeout name num_hosts) (created rx io_timeout name num_hosts) [].
Proof. intros. by apply create_always. Qed.

(** An entry is gone before its lease. Whatever the device answers, [rindex_delete] while it holds the lease of the
    index clears the lease area only after the sector with the emptied entry was written with success, and it touches
    only the first entry with the name and its lease. *)
Theorem delete_entry_before_lease com rx io_timeout name offset :
  index_geometry rx -> rx_max_resources rx * rx_align rx <= 2 ^ 31 -> name_ok name ->
  bytes_ok rx.(rx_ri).(ri_lockspace_name) ->
  always_in alloc_env (delete_locked com io_timeout rx (lease_token rx name 0 io_timeout) (Rentry name offset))
    (deleting rx io_timeout name) (deleted rx io_timeout name) [].
Proof. intros. by apply delete_always. Qed.

Lemma create_lease_before_entry_witness :
  always_in alloc_env (create_locked demo3_com 10 demo_index (lease_token demo_index demo_name 0 10) (Rentry demo_name 0) 4)
    (creating demo_index 10 demo_name 4) (created demo_index 10 demo_name 4) [].
Proof.
  destruct demo_indexed as (_ & _ & Hg & Ea & Em & _). destruct demo_ri_ok as (_ & [_ Hls] & _).
  apply create_lease_before_entry; [exact Hg|rw Ea Em; discriminate|exact demo_name_ok|exact Hls|lia].
Defined.

Lemma delete_entry_before_lease_witness :
  always_in alloc_env (delete_locked demo3_com 10 demo_index (lease_token demo_index demo_name 0 10) (Rentry demo_name 0))
    (deleting demo_index 10 demo_name) (deleted demo_index 10 demo_name) [].
Proof.
  destruct demo_indexed as (_ & _ & Hg & Ea & Em & _). destruct demo_ri_ok as (_ & [_ Hls] & _).
  apply delete_entry_before_lease; [exact Hg|rw Ea Em; discriminate|exact demo_name_ok|exact Hls].
Defined.

(** ** What goes wrong *)

Lemma run_memalign_script w rv l len :
  w.(w_alloc) = rv :: l ->
  run world_handler (call (CMemalign len)) w =
    (Some (rv, fun _ => 0xA5), World w.(w_dev) w.(w_clock) w.(w_io) l w.(w_rand) w.(w_hosts)).
Proof. intros E. cbn. by rw E. Qed.

(** A lease that could not be formatted for lack of memory is recorded all the same. When the
    allocation of [paxos_lease_init] fails, its positive errno passes the test [rv < 0] of [rindex_create], which
    writes the entry, returns 0 and the offset, and leaves the lease area as it was. *)
Theorem create_ignores_enomem com rx io_timeout name offset num_hosts w i :
  index_geometry rx -> reliable w -> name_ok name -> bytes_ok rx.(rx_ri).(ri_lockspace_name) -> 0 <= num_hosts ->
  found rx None (index_of rx w) i ->
  exists w', run world_handler
      (create_locked com io_timeout rx (lease_token rx name 0 io_timeout) (Rentry name offset) num_hosts) (alloc_fails 1 w) =
      (Some (0, Some (lease_offset rx i)), w') /\
    index_of rx w' = <[i := named_entry rx name i]> (index_of rx w) /\
    forall a, 0 <= a -> lease_area_of rx (lease_offset rx i) w' a = lease_area_of rx (lease_offset rx i) w a.
Proof.
  intros Hgeo Hw Hn Hls Hh Hf. destruct (run_search rx w Hgeo None i Hf) as [Es Hi]. destruct (lease_offset_ok rx Hgeo i Hi) as [Hu _].
  pose proof (token_geometry rx name (lease_offset rx i) (rx_ss rx) (rx_align rx) io_timeout None num_hosts
    (xg_sizes rx Hgeo) (proj2 Hn) Hls Hh) as Hg. fold (lease_token rx name (lease_offset rx i) io_timeout) in Hg.
  destruct Hg as [Hfl (d & ds & Ed & _ & Ez) _ _].
  set (w1 := World w.(w_dev) w.(w_clock) [] [] w.(w_rand) w.(w_hosts)).
  destruct (run_update rx Hgeo w1 (index_area rx w) io_timeout name i (lease_offset rx i) false
    (conj eq_refl eq_refl) (fun _ _ => eq_refl) Hi Hn Hu) as (w2 & Eu & Hp).
  exists w2. split; [|split].
  - unfold create_locked. rw run_bind. unfold read_rindex. rw run_bind.
    rw (run_memalign_script _ 0 [ENOMEM]); [done|]. cbn [nz fst Z.eqb negb]. rw run_bind. destruct Hw as [Ei Ea].
    cbn [read_iobuf call run world_handler w_io alloc_fails script]. rw Ei. cbn [script run fst snd Z.ltb Z.compare w_dev w_clock w_alloc w_rand w_hosts].
    fold (index_area rx w). rw run_bind Es. cbn [run].
    change (set_offset _ (lease_token rx name 0 io_timeout)) with (lease_token rx name (lease_offset rx i) io_timeout).
    rw run_bind. unfold paxos_lease_init. rw Hfl. cbn [nz Z.eqb negb]. unfold disk0. rw Ed. rw run_bind. cbn [run]. rw Ez run_bind.
    rw (run_memalign_script _ ENOMEM []); [done|]. cbn [nz fst Z.eqb ENOMEM negb run Z.ltb Z.compare rn_name w_dev w_clock w_io w_rand w_hosts].
    by rw run_bind [run world_handler (update_rindex _ _ _ _ _ _ _) _]Eu.
  - exact (entry_put_index rx i _ w1 w2 Hi (new_entry_ok name _ false Hn Hu) Hp).
  - intros a Ha. exact (entry_put_lease rx Hgeo i _ w1 w2 a Hi Hp Ha).
Qed.

(** An index of the default size fills up before its last entry. When the first free entry has a number
    whose product with the align size does not fit in an [int] (entry 2048 of the default 4096, with the areas of 1M), the
    creation of a resource has undefined behaviour. *)
Theorem full_index_overflows com rx io_timeout t name offset num_hosts w i e :
  index_geometry rx -> reliable w -> list_find (wanted None) (index_of rx w) = Some (i, e) ->
  2 ^ 31 <= Z.of_nat i * rx_align rx ->
  run world_handler (create_locked com io_timeout rx t (Rentry name offset) num_hosts) w = (None, w).
Proof.
  intros Hgeo Hw Ef Ho. unfold create_locked. rw run_bind run_read_rindex //. cbn [fst snd Z.ltb Z.compare].
  rw run_bind search_entries_spec //. fold (index_of rx w). rw Ef. by destruct (Z.ltb_spec (Z.of_nat i * rx_align rx) (2 ^ 31)); [lia|].
Qed.

Lemma create_ignores_enomem_witness :
  exists w', run world_handler (create_locked demo3_com 10 demo_index (lease_token demo_index demo_name 0 10) (Rentry demo_name 0) 4)
      (alloc_fails 1 demo_world) = (Some (0, Some 2097152), w') /\
    index_of demo_index w' = <[0%nat := named_entry demo_index demo_name 0]> (replicate 16 entry_zero).
Proof.
  destruct demo_indexed as (Hix & _ & Hg & Ea & _ & Ee). destruct demo_ri_ok as (_ & [_ Hls] & _).
  destruct (create_ignores_enomem demo3_com demo_index 10 demo_name 0 4 demo_world 0 Hg (ix_reliable _ _ Hix)
    demo_name_ok Hls ltac:(lia)) as (w' & H1 & H2 & _).
  { split; [rw Ee; exists entry_zero; reflexivity|rw Ea; reflexivity]. }
  exists w'. unfold lease_offset in H1. rw Ea in H1. rw Ee in H2. split; [exact H1|exact H2].
Defined.

(** The default number of entries, the first 2048 in use. *)
Definition default_ri : sanlk_rindex := Rindex 0 0 (strncpy NAME_ID_SIZE [76; 83]) (SyncDisk [5] 0 0 (-1)).
Definition default_index : rindex_info := formatted_index default_ri 512 ALIGN_SIZE_1M.
Definition used_world : world :=
  World (fun _ a => if (512 <=? a) && (a <? 512 + 2048 * 64) then 1 else 0) 1000 [] [] 0 demo3_world.(w_hosts).

Lemma full_index_overflows_witness :
  rx_max_resources default_index = 4096 /\
  run world_handler (create_locked demo3_com 10 default_index (lease_token default_index demo_name 0 10) (Rentry demo_name 0) 4)
    used_world = (None, used_world).
Proof.
  destruct demo_ri_ok as (Hs & Hls & _).
  destruct (formatted_geometry default_ri 512 ALIGN_SIZE_1M Hs Hls demo_ri_nul) as (_ & Ea & Em & Hg & _); [by vm_compute|by vm_compute|].
  split; [exact Em|].
  apply (full_index_overflows demo3_com default_index 10 _ demo_name 0 4 used_world 2048 entry_zero Hg (conj eq_refl eq_refl)).
  - vm_cast_no_check (@eq_refl (option (nat * rindex_entry)) (Some (2048%nat, entry_zero))).
  - rw Ea. by vm_compute.
Defined.
