(* ===== verification/Resource.v ===== *)
(** * Resources and their tokens ([src/src/resource.c], second part)

    A [struct resource] stands for a lease that this host is acquiring, holds or
    releases; the tokens on its list are the local processes that hold it, several
    when it is shared. The manager keeps the resources on five lists, under
    [resource_mutex], and a thread that releases leases in the background and
    examines requests of other hosts.

    An operation is an [rthread]: critical sections on the state of the manager
    ([RSec]) and i/o between them ([RIo]), where other threads can run. A section
    that follows a pointer to freed memory, or unlinks what is on no list, has the
    result [None]. An access to a field of a resource outside of the mutex is a
    section of its own. *)

From S2P Require Import Prelude OnDisk SizeFlags Timeouts Io DeltaLease PaxosBlocks PaxosBallot PaxosLease.
From S2P Require Import Lockspace HostStatus Clients ResourceDisk.

(** ** Constants *)

Definition EALREADY : Z := 114.
Definition EUCLEAN : Z := 117.
Definition E2BIG : Z := 7.
Definition SANLK_ACQUIRE_SHRETRY : Z := -246.
Definition FREE_RES_COUNT : Z := 128.

Definition R_SHARED : Z := 0x1.
Definition R_THREAD_EXAMINE : Z := 0x2.
Definition R_THREAD_RELEASE : Z := 0x4.
Definition R_RESTRICT_SIGKILL : Z := 0x8.
Definition R_RESTRICT_SIGTERM : Z := 0x10.
Definition R_LVB_WRITE_RELEASE : Z := 0x20.
Definition R_UNDO_SHARED : Z := 0x40.
Definition R_ERASE_ALL : Z := 0x80.

Definition T_RESTRICT_SIGKILL : Z := 0x1.
Definition T_RESTRICT_SIGTERM : Z := 0x2.

Definition SANLK_RES_LVER : Z := 0x1.
Definition SANLK_RES_NUM_HOSTS : Z := 0x2.
Definition SANLK_RES_PERSISTENT : Z := 0x8.
Definition SANLK_ACQUIRE_LVB : Z := 0x1.
Definition SANLK_ACQUIRE_ORPHAN : Z := 0x2.
Definition SANLK_ACQUIRE_ORPHAN_ONLY : Z := 0x4.
Definition SANLK_ACQUIRE_OWNER_NOWAIT : Z := 0x8.
Definition SANLK_CONVERT_OWNER_NOWAIT : Z := 0x8.
Definition SANLK_REQ_FORCE : Z := 0x1.
Definition SANLK_REQ_GRACEFUL : Z := 0x2.

(** ** State *)

(** The address of a resource or of a token. *)
Abbreviation addr := nat.

(** [struct token] with [r.lver] and [resource]. *)
Record mtoken := MToken {
  mt_tok :> rtoken;
  mt_r_lver : Z;
  mt_resource : option addr
}.
#[export] Instance mtoken_settable : Settable mtoken := fun t =>
  MToken t.(mt_tok) t.(mt_r_lver) t.(mt_resource).

(** [struct resource]; [rs_disks] are the [r.num_disks] disks of its [r]. *)
Record resource := RResource {
  rs_tokens : list addr;
  rs_host_id : Z;
  rs_host_generation : Z;
  rs_io_timeout : Z;
  rs_pid : Z;
  rs_sector_size : Z;
  rs_align_size : Z;
  rs_res_id : Z;
  rs_reused : Z;
  rs_flags : Z;
  rs_thread_release_retry : Z;
  rs_lvb : option lvbuf;
  rs_killpath : list Z;
  rs_killargs : list Z;
  rs_leader : leader_record;
  rs_dblock : paxos_dblock;
  rs_lockspace_name : list Z;
  rs_name : list Z;
  rs_r_flags : Z;
  rs_disks : list sync_disk
}.
#[export] Instance resource_settable : Settable resource := fun r =>
  RResource r.(rs_tokens) r.(rs_host_id) r.(rs_host_generation) r.(rs_io_timeout) r.(rs_pid)
    r.(rs_sector_size) r.(rs_align_size) r.(rs_res_id) r.(rs_reused) r.(rs_flags)
    r.(rs_thread_release_retry) r.(rs_lvb) r.(rs_killpath) r.(rs_killargs) r.(rs_leader)
    r.(rs_dblock) r.(rs_lockspace_name) r.(rs_name) r.(rs_r_flags) r.(rs_disks).

(** [struct recv_he] *)
Record recv_he := RecvHe {
  rhe_space_id : Z;
  rhe_from_host_id : Z;
  rhe_from_generation : Z;
  rhe_he : host_event_data
}.

(** The lists of the manager, first element first. *)
Record rlists := RLists {
  resources_free : list addr;
  resources_held : list addr;
  resources_add : list addr;
  resources_rem : list addr;
  resources_orphan : list addr
}.
#[export] Instance rlists_settable : Settable rlists := fun l =>
  RLists l.(resources_free) l.(resources_held) l.(resources_add) l.(resources_rem) l.(resources_orphan).

(** The allocated resources and tokens, and the globals of [resource.c]. *)
Record resmgr := ResMgr {
  rm_heap : gmap addr resource;
  rm_toks : gmap addr mtoken;
  rm_lists : rlists;
  resources_free_count : Z;
  resource_id_counter : Z;
  resource_thread_work : bool;
  resource_thread_work_examine : bool;
  resource_thread_stop : bool;
  host_events : list recv_he;
  rm_helper_kill_fd : Z
}.
#[export] Instance resmgr_settable : Settable resmgr := fun m =>
  ResMgr m.(rm_heap) m.(rm_toks) m.(rm_lists) m.(resources_free_count) m.(resource_id_counter)
    m.(resource_thread_work) m.(resource_thread_work_examine) m.(resource_thread_stop)
    m.(host_events) m.(rm_helper_kill_fd).

Definition setup_token_manager (kill_fd : Z) : resmgr :=
  ResMgr ∅ ∅ (RLists [] [] [] [] []) 0 2 false false false [] kill_fd.

(** ** Threads *)

Inductive rthread (A : Type) : Type :=
  | RRet (a : A)
  | RUb
  | RStuck
  | RSec (T : Type) (f : resmgr -> option (T * resmgr)) (k : T -> rthread A)
  | RIo (X : Type) (c : cmd X) (k : X -> rthread A).
Arguments RRet {A} a.
Arguments RUb {A}.
Arguments RStuck {A}.
Arguments RSec {A T} f k.
Arguments RIo {A X} c k.

#[export] Instance rthread_ret : MRet rthread := @RRet.
#[export] Instance rthread_bind : MBind rthread := fun A B k =>
  fix bind t :=
    match t with
    | RRet a => k a
    | RUb => RUb
    | RStuck => RStuck
    | RSec f k' => RSec f (fun x => bind (k' x))
    | RIo c k' => RIo c (fun x => bind (k' x))
    end.

Definition sec {T} (f : resmgr -> option (T * resmgr)) : rthread T := RSec f RRet.

(** I/o code between the sections. *)
Fixpoint disk {A} (p : prog A) : rthread A :=
  match p with
  | Ret a => RRet a
  | Ub => RUb
  | Io c k => RIo c (fun x => disk (k x))
  end.

(** A loop of the callee that used up its fuel goes on. *)
Definition unfuel {A} (o : option A) : rthread A :=
  match o with Some a => RRet a | None => RStuck end.

(** ** Access to resources and tokens *)

Definition get_res (p : addr) (m : resmgr) : option resource := m.(rm_heap) !! p.
Definition get_tok (tk : addr) (m : resmgr) : option mtoken := m.(rm_toks) !! tk.

Definition upd_res (p : addr) (f : resource -> resource) (m : resmgr) : option resmgr :=
  r ← get_res p m; Some (m <| rm_heap := <[p := f r]> m.(rm_heap) |>).
Definition upd_tok (tk : addr) (f : mtoken -> mtoken) (m : resmgr) : option resmgr :=
  t ← get_tok tk m; Some (m <| rm_toks := <[tk := f t]> m.(rm_toks) |>).

Definition read_res (p : addr) : rthread resource := sec (fun m => r ← get_res p m; Some (r, m)).
Definition read_tok (tk : addr) : rthread mtoken := sec (fun m => t ← get_tok tk m; Some (t, m)).
Definition set_res (p : addr) (f : resource -> resource) : rthread unit :=
  sec (fun m => m ← upd_res p f m; Some (tt, m)).
Definition set_tok (tk : addr) (f : mtoken -> mtoken) : rthread unit :=
  sec (fun m => m ← upd_tok tk f m; Some (tt, m)).

Definition add_rflags (f : Z) (r : resource) : resource := r <| rs_flags := Z.lor r.(rs_flags) f |>.
Definition clear_rflags (f : Z) (r : resource) : resource := r <| rs_flags := clear_flag r.(rs_flags) f |>.

(** What the lease code changes of a token: flags, sizes and shared hosts. *)
Definition put_results (t' : token) (t : mtoken) : mtoken :=
  t <| mt_tok := t.(mt_tok) <| tk_tok := t.(tk_tok) <| t_flags := t'.(t_flags) |>
         <| t_sector_size := t'.(t_sector_size) |> <| t_align_size := t'.(t_align_size) |>
         <| t_shared_count := t'.(t_shared_count) |> <| t_shared_bitmap := t'.(t_shared_bitmap) |> |> |>.
Definition put_disks (ds : list sync_disk) (t : mtoken) : mtoken :=
  t <| mt_tok := t.(mt_tok) <| tk_tok := t.(tk_tok) <| t_disks := ds |> |> |>.
Definition put_acquire_flags (f : Z) (t : mtoken) : mtoken :=
  t <| mt_tok := t.(mt_tok) <| tk_acquire_flags := f |> |>.
Definition put_r_flags (f : Z) (t : mtoken) : mtoken :=
  t <| mt_tok := t.(mt_tok) <| tk_tok := t.(tk_tok) <| t_r_flags := f |> |> |>.
Definition put_flags (f : Z) (t : mtoken) : mtoken :=
  t <| mt_tok := t.(mt_tok) <| tk_tok := t.(tk_tok) <| t_flags := f |> |> |>.
Definition put_res_id (id : Z) (t : mtoken) : mtoken :=
  t <| mt_tok := t.(mt_tok) <| tk_res_id := id |> |>.

(** [open_disks], [open_disks_fd] and [close_disks] of a token's disks. *)
Definition tok_open (opener : list sync_disk -> prog (Z * list sync_disk)) (tk : addr) : rthread Z :=
  t ← read_tok tk;
  o ← disk (opener t.(mt_tok).(t_disks));
  set_tok tk (put_disks (snd o));;
  mret (fst o).
Definition tok_close (tk : addr) : rthread unit :=
  t ← read_tok tk;
  ds ← disk (close_disks t.(mt_tok).(t_disks));
  set_tok tk (put_disks ds).

(** ** Lists *)

Definition without (p : addr) (l : list addr) : list addr := filter (fun q => q <> p) l.

(** [list_del] of a resource, which is on one of the lists. *)
Definition unlink (p : addr) (l : rlists) : option rlists :=
  if bool_decide (p ∈ l.(resources_free) ++ l.(resources_held) ++ l.(resources_add) ++
                      l.(resources_rem) ++ l.(resources_orphan)) then
    Some (RLists (without p l.(resources_free)) (without p l.(resources_held))
            (without p l.(resources_add)) (without p l.(resources_rem)) (without p l.(resources_orphan)))
  else None.

Definition list_del (p : addr) (m : resmgr) : option resmgr :=
  l ← unlink p m.(rm_lists); Some (m <| rm_lists := l |>).

(** [list_add] to a list and [list_move] to it. *)
Definition add_free p l := l <| resources_free := p :: l.(resources_free) |>.
Definition add_held p l := l <| resources_held := p :: l.(resources_held) |>.
Definition add_add p l := l <| resources_add := p :: l.(resources_add) |>.
Definition add_rem p l := l <| resources_rem := p :: l.(resources_rem) |>.
Definition add_orphan p l := l <| resources_orphan := p :: l.(resources_orphan) |>.

Definition list_move (add : addr -> rlists -> rlists) (p : addr) (m : resmgr) : option resmgr :=
  m ← list_del p m; Some (m <| rm_lists := add p m.(rm_lists) |>).

(** [list_del] of a token, which is on the list of the resource, and [list_add]. *)
Definition del_token (tk : addr) (r : resource) : option resource :=
  if bool_decide (tk ∈ r.(rs_tokens)) then Some (r <| rs_tokens := without tk r.(rs_tokens) |>) else None.
Definition add_token (tk : addr) (r : resource) : resource := r <| rs_tokens := tk :: r.(rs_tokens) |>.

(** ** Free resources *)

(** The resource that makes room: walking from the tail, the first that was never
    reused, else one that was reused least. *)
Fixpoint free_victim (m : resmgr) (l : list addr) (rmin : option (addr * Z)) : option (option addr) :=
  match l with
  | [] => Some (fst <$> rmin)
  | p :: l =>
      r ← get_res p m;
      if r.(rs_reused) =? 0 then Some (Some p)
      else free_victim m l (match rmin with
                            | Some (_, n) => if r.(rs_reused) <? n then Some (p, r.(rs_reused)) else rmin
                            | None => Some (p, r.(rs_reused))
                            end)
  end.

(** [list_del] and [free] of a resource. *)
Definition drop_res (p : addr) (m : resmgr) : option resmgr :=
  m ← list_del p m; Some (m <| rm_heap := delete p m.(rm_heap) |>).

(** The value block is freed; the pointer to it stays until the resource is used
    again, when it is cleared. *)
Definition free_resource (p : addr) (m : resmgr) : option resmgr :=
  let add m := m <| rm_lists := add_free p m.(rm_lists) |> in
  if m.(resources_free_count) <? FREE_RES_COUNT then
    Some (add (m <| resources_free_count := m.(resources_free_count) + 1 |>))
  else
    v ← free_victim m (reverse m.(rm_lists).(resources_free)) None;
    match v with
    | Some v => m ← drop_res v m; Some (add m)
    | None => Some (add m)
    end.

(** [list_del] followed by [free_resource]. *)
Definition retire (p : addr) (m : resmgr) : option resmgr := m ← list_del p m; free_resource p m.

Definition path0 (ds : list sync_disk) : option (list Z) := cstr ∘ sd_path <$> head ds.

(** The tests of [get_free_resource]; the names are compared up to a NUL or the
    end of the array. *)
Definition free_matches (t : token) (r : resource) : bool :=
  bool_decide (cstr r.(rs_lockspace_name) = cstr t.(t_lockspace_name)) &&
  bool_decide (cstr r.(rs_name) = cstr t.(t_name)) &&
  bool_decide (length r.(rs_disks) = length t.(t_disks)) &&
  bool_decide (path0 r.(rs_disks) = path0 t.(t_disks)).

Fixpoint find_free (m : resmgr) (t : token) (l : list addr) : option (option addr) :=
  match l with
  | [] => Some None
  | p :: l => r ← get_res p m; if free_matches t r then Some (Some p) else find_free m t l
  end.

Definition get_free_resource (t : token) (m : resmgr) : option (option addr * resmgr) :=
  o ← find_free m t m.(rm_lists).(resources_free);
  match o with
  | None => Some (None, m)
  | Some p =>
      m ← list_del p m;
      m ← upd_res p (fun r => r <| rs_reused := u32 (r.(rs_reused) + 1) |>)
            (m <| resources_free_count := m.(resources_free_count) - 1 |>);
      Some (Some p, m)
  end.

(** The first resource of a list with the names of the token. *)
Definition same_names (ls nm : list Z) (r : resource) : bool :=
  strncmp_eq NAME_ID_SIZE r.(rs_lockspace_name) ls && strncmp_eq NAME_ID_SIZE r.(rs_name) nm.

Fixpoint find_resource (m : resmgr) (t : token) (l : list addr) : option (option addr) :=
  match l with
  | [] => Some None
  | p :: l =>
      r ← get_res p m;
      if same_names t.(t_lockspace_name) t.(t_name) r then Some (Some p) else find_resource m t l
  end.

(** Disks copied over with descriptors of their own. The number of disks is the
    caller's: past the end of [src], what lies after it in memory is copied. *)
Definition copy_disks (num_disks : nat) (src : list sync_disk) (past : nat -> sync_disk) : list sync_disk :=
  (fun i => set_fd (-1) (default (past i) (src !! i))) <$> seq 0 num_disks.

Definition zero_disk : sync_disk := SyncDisk (zeros 1024) 0 0 0.

(** The fields of a resource in use for the first time. *)
Definition init_resource (res_id reused : Z) (t : mtoken) : resource :=
  let shared := has_flag t.(tk_acquire_flags) SANLK_RES_SHARED in
  let restrict :=
    Z.lor (if has_flag t.(t_flags) T_RESTRICT_SIGKILL then R_RESTRICT_SIGKILL else 0)
          (if has_flag t.(t_flags) T_RESTRICT_SIGTERM then R_RESTRICT_SIGTERM else 0) in
  RResource [] t.(t_host_id) t.(t_host_generation) t.(t_io_timeout)
    (if shared then 0 else t.(tk_pid)) 0 0 res_id reused (if shared then R_SHARED else restrict)
    0 None [] [] leader_zero dblock_zero t.(t_lockspace_name) t.(t_name) t.(t_r_flags)
    (replicate (length t.(t_disks)) zero_disk).

(** The address of a resource that is on no list, and whether its id is new; [ok] is
    whether the allocation succeeds. *)
Definition get_resource (ok : bool) (t : mtoken) (m : resmgr) : option (option (addr * bool) * resmgr) :=
  o ← get_free_resource t m;
  let '(o, m) := o in
  match o with
  | Some p =>
      r ← get_res p m;
      m ← upd_res p (fun _ => init_resource r.(rs_res_id) r.(rs_reused) t) m;
      Some (Some (p, false), m)
  | None =>
      if ok then
        let p := fresh (dom m.(rm_heap)) in
        let id := m.(resource_id_counter) in
        Some (Some (p, true),
              m <| rm_heap := <[p := init_resource id 0 t]> m.(rm_heap) |>
                <| resource_id_counter := u32 (id + 1) |>)
      else Some (None, m)
  end.

(** ** Releasing *)

(** The first section of [_release_token]: the token leaves its resource, which goes
    to [resources_rem] with its last token. *)
Definition release_unlink (tk p : addr) (m : resmgr) : option (bool * Z * Z * resmgr) :=
  r ← get_res p m;
  r' ← del_token tk r;
  m ← upd_res p (fun _ => r') m;
  match r'.(rs_tokens) with
  | [] => m ← list_move add_rem p m; Some (true, r.(rs_leader).(lr_lver), r.(rs_flags), m)
  | _ => Some (false, r.(rs_leader).(lr_lver), r.(rs_flags), m)
  end.

(** What the disk operations of a release leave: [ret], [retry_async], whether the
    value block was written, and [r->leader]. *)
Record released := Released {
  rl_ret : Z;
  rl_retry : bool;
  rl_lvb_written : bool;
  rl_leader : leader_record
}.

Definition timed_out (rv : Z) : bool := rv =? SANLK_AIO_TIMEOUT.
Definition or_error (ret rv : Z) : Z := if rv <? 0 then rv else ret.

Section io.
Context (com : res_com) (fuel : nat) (one : lease_area) (junk_acq : acq) (junk : leader_record).
(** What lies in memory after the disks of a resource. *)
Context (past : nat -> sync_disk).

(** R_ERASE_ALL: the codes of the two writes. *)
Definition erase_all (t : token) (r : resource) : prog (Z * Z) :=
  rv1 ← write_mblock_zero_dblock_release t r.(rs_dblock);
  rv2 ← paxos_lease_release t None
          (if r.(rs_leader).(lr_lver) =? 0 then None else Some r.(rs_leader)) junk junk;
  Ret (rv1, fst rv2).

(** R_UNDO_SHARED: the codes and [r->leader]. *)
Definition undo_shared (t : token) (r : resource) (resrename : option (list Z)) : prog (Z * Z * leader_record) :=
  rv1 ← write_mblock_zero_dblock_release t r.(rs_dblock);
  rv2 ← release_disk t resrename r.(rs_leader) junk;
  Ret (rv1, fst rv2, snd rv2).

(** An exclusive lease: the value block, our host block (whose failure is ignored),
    the leader. *)
Definition release_ex (t : token) (r : resource) (resrename : option (list Z)) : prog released :=
  lvb ← (if has_flag r.(rs_flags) R_LVB_WRITE_RELEASE
         then rv ← write_lvb_block t r.(rs_lvb); Ret (rv =? 0) else Ret false);
  _ ← write_mblock_zero_dblock_release t r.(rs_dblock);
  rv ← release_disk t resrename r.(rs_leader) junk;
  Ret (Released (or_error SANLK_OK (fst rv)) (timed_out (fst rv)) lvb (snd rv)).

Definition release_disks (t : token) (r : resource) (resrename : option (list Z)) : prog released :=
  if has_flag r.(rs_flags) R_ERASE_ALL then
    e ← erase_all t r;
    Ret (Released (or_error (or_error SANLK_OK (fst e)) (snd e)) (timed_out (fst e) || timed_out (snd e))
           false r.(rs_leader))
  else if has_flag r.(rs_flags) R_UNDO_SHARED then
    e ← undo_shared t r resrename;
    let '(rv1, rv2, leader) := e in
    Ret (Released (or_error (or_error SANLK_OK rv1) rv2) (timed_out rv1 || timed_out rv2) false leader)
  else if has_flag r.(rs_flags) R_SHARED then
    rv ← write_mblock_zero_dblock_release t r.(rs_dblock);
    Ret (Released (or_error SANLK_OK rv) (timed_out rv) false r.(rs_leader))
  else if r.(rs_leader).(lr_lver) =? 0 then Ret (Released SANLK_OK false false r.(rs_leader))
  else release_ex t r resrename.

(** What a release stores in its resource. *)
Definition put_released (o : released) (r : resource) : resource :=
  let r := r <| rs_leader := o.(rl_leader) |> in
  if o.(rl_lvb_written) then clear_rflags R_LVB_WRITE_RELEASE r else r.

(** [out:], with the code to return. *)
Definition release_out (p : addr) (ret : Z) (retry_async : bool) : rthread Z :=
  if retry_async then
    set_res p (add_rflags R_THREAD_RELEASE);; mret SANLK_AIO_TIMEOUT
  else
    sec (fun m => m ← retire p m; Some (tt, m));; mret ret.

(** From the opening of the disks on, for the last token. *)
Definition release_last (tk p : addr) (resrename : option (list Z)) (opened : bool) : rthread Z :=
  rv ← (if opened then mret 0 else tok_open open_disks_fd tk);
  if rv <? 0 then release_out p rv false
  else
    t ← read_tok tk;
    r ← read_res p;
    o ← disk (release_disks t.(mt_tok) r resrename);
    set_res p (put_released o);;
    tok_close tk;;
    release_out p o.(rl_ret) o.(rl_retry).

Definition _release_token (tk : addr) (resrename : option (list Z)) (opened nodisk : bool) : rthread Z :=
  u ← sec (fun m => t ← get_tok tk m; p ← t.(mt_resource); u ← release_unlink tk p m;
                    let '(last, lver, flags, m) := u in Some (p, last, flags, m));
  let '(p, last_token, r_flags) := u in
  if has_flag r_flags R_SHARED && negb last_token then tok_close tk;; mret SANLK_OK
  else if negb last_token then tok_close tk;; mret SANLK_ERROR
  else
    t ← read_tok tk;
    if nz t.(mt_tok).(tk_space_dead) then tok_close tk;; release_out p SANLK_OK false
    else if nodisk : bool then release_out p SANLK_OK false
    else release_last tk p resrename opened.

Definition release_token_nodisk (tk : addr) : rthread Z := _release_token tk None false true.
Definition release_token_opened (tk : addr) : rthread Z := _release_token tk None true false.
Definition release_token (tk : addr) (resrename : option (list Z)) : rthread Z :=
  _release_token tk resrename false false.

Definition wake (m : resmgr) : resmgr := m <| resource_thread_work := true |>.

Definition release_async_section (tk : addr) (m : resmgr) : option (unit * resmgr) :=
  t ← get_tok tk m;
  p ← t.(mt_resource);
  r ← get_res p m;
  r' ← del_token tk r;
  m ← upd_res p (fun _ => r') m;
  match r'.(rs_tokens) with
  | _ :: _ => Some (tt, m)
  | [] =>
      if nz t.(mt_tok).(tk_space_dead) || (r.(rs_leader).(lr_lver) =? 0) then
        m ← retire p m; Some (tt, m)
      else if has_flag t.(mt_tok).(tk_acquire_flags) SANLK_RES_PERSISTENT then
        m ← list_move add_orphan p m; Some (tt, m)
      else
        m ← upd_res p (add_rflags R_THREAD_RELEASE) (wake m);
        m ← list_move add_rem p m; Some (tt, m)
  end.

Definition release_token_async (tk : addr) : rthread unit := sec (release_async_section tk).

(** ** Converting *)

(** The loop of [fail:]: [retries] more attempts after a timeout. *)
Fixpoint sh2ex_undo (retries : nat) (tk p : addr) (t : token) (leader : leader_record) (error : Z)
    : rthread Z :=
  rv ← disk (paxos_lease_release t None (if leader.(lr_lver) =? 0 then None else Some leader) junk leader);
  match timed_out (fst rv), retries with
  | true, S retries =>
      disk (call (CSleep t.(t_io_timeout)));; sh2ex_undo retries tk p t (snd rv) error
  | _, _ =>
      if fst rv <? 0 then set_res p (add_rflags R_ERASE_ALL);; mret error else mret error
  end.

Definition sh2ex_fail (tk p : addr) (leader : leader_record) (error : Z) : rthread Z :=
  t ← read_tok tk;
  if nz t.(mt_tok).(tk_space_dead) then mret error
  else sh2ex_undo 3 tk p t.(mt_tok) leader error.

(** [do_mb:]; the flags are cleared in the token, then in the resource. *)
Definition sh2ex_done (tk p : addr) (t : token) (dblock : paxos_dblock) : rthread Z :=
  disk (write_host_block t t.(t_host_id) 0 0 (Some dblock));;
  set_tok tk (fun t => put_acquire_flags (clear_flag t.(tk_acquire_flags) SANLK_RES_SHARED)
                         (put_r_flags (clear_flag t.(t_r_flags) SANLK_RES_SHARED) t));;
  set_res p (fun r => clear_rflags R_SHARED r <| rs_r_flags := clear_flag r.(rs_r_flags) SANLK_RES_SHARED |>);;
  mret SANLK_OK.

(** After the lease was acquired. *)
Definition sh2ex_acquired (tk p : addr) (t : token) (leader : leader_record) (dblock : paxos_dblock) : rthread Z :=
  set_res p (fun r => r <| rs_leader := leader |> <| rs_dblock := dblock |>);;
  set_tok tk (fun t => t <| mt_r_lver := leader.(lr_lver) |>);;
  if (t.(t_shared_count) =? 1) || (t.(t_shared_count) =? 0) then sh2ex_done tk p t dblock
  else
    c ← disk (clear_dead_shared com t (i32 leader.(lr_num_hosts)) 0);
    if fst c <? 0 then sh2ex_fail tk p leader (fst c)
    else if nz (snd c) then
      rv ← disk (release_disk t None leader junk);
      if fst rv <? 0 then sh2ex_fail tk p leader (fst rv) else mret (- EAGAIN)
    else sh2ex_done tk p t dblock.

(** The acquire with the token that a convert passes to it. *)
Definition convert_acquire (t : token) (owner_nowait : bool) : prog (option (Z * acq)) :=
  paxos_lease_acquire com (convert_flags com owner_nowait) 0 0 fuel one
    (with_flags (Z.lor t.(t_flags) T_WRITE_DBLOCK_MBLOCK_SH) (with_shared 0 (zeros HOSTID_BITMAP_SIZE) t))
    (aq_set_ret leader_zero junk_acq.(aq_dblock_ret) junk_acq).

Definition convert_sh2ex_token (tk p : addr) (cmd_flags : Z) : rthread Z :=
  t ← read_tok tk;
  o ← disk (convert_acquire t.(mt_tok) (has_flag cmd_flags SANLK_CONVERT_OWNER_NOWAIT));
  o ← unfuel o;
  let '(rv, a) := o in
  let t := with_flags (clear_flag a.(aq_token).(t_flags) T_WRITE_DBLOCK_MBLOCK_SH) a.(aq_token) in
  set_tok tk (put_results t);;
  if rv <? 0 then
    if has_flag t.(t_flags) T_RETRACT_PAXOS then
      set_tok tk (put_flags (clear_flag t.(t_flags) T_RETRACT_PAXOS));;
      sh2ex_fail tk p a.(aq_leader_ret) rv
    else mret rv
  else sh2ex_acquired tk p t a.(aq_leader_ret) a.(aq_dblock_ret).

(** [retry:] of [convert_ex2sh_token], with [n] more attempts after a timeout. *)
Fixpoint ex2sh_release (n : nat) (fail_count : Z) (tk p : addr) (t : token) (leader : leader_record)
    : rthread Z :=
  rv ← disk (release_disk t None leader junk);
  match timed_out (fst rv), n with
  | true, S n =>
      t' ← read_tok tk;
      if nz t'.(mt_tok).(tk_space_dead) then mret (fst rv)
      else disk (call (CSleep (fail_count + 1)));; ex2sh_release n (fail_count + 1) tk p t leader
  | _, _ =>
      if fst rv <? 0 then set_res p (add_rflags R_ERASE_ALL);; mret (fst rv)
      else
        set_tok tk (fun t => put_acquire_flags (Z.lor t.(tk_acquire_flags) SANLK_RES_SHARED)
                               (put_r_flags (Z.lor t.(t_r_flags) SANLK_RES_SHARED) t));;
        set_res p (fun r => add_rflags R_SHARED r <| rs_r_flags := Z.lor r.(rs_r_flags) SANLK_RES_SHARED |>);;
        mret SANLK_OK
  end.

Definition convert_ex2sh_token (tk p : addr) : rthread Z :=
  t ← read_tok tk;
  r ← read_res p;
  _ ← (if has_flag r.(rs_flags) R_LVB_WRITE_RELEASE
       then disk (write_lvb_block t.(mt_tok) r.(rs_lvb)) else mret 0);
  rv ← disk (write_mblock_shared_dblock_release t.(mt_tok) r.(rs_dblock));
  if rv <? 0 then mret rv
  else ex2sh_release (Z.to_nat t.(mt_tok).(t_io_timeout)) 0 tk p t.(mt_tok) r.(rs_leader).

(** How many of the tokens are shared. *)
Fixpoint count_shared (m : resmgr) (l : list addr) : option Z :=
  match l with
  | [] => Some 0
  | tk :: l =>
      t ← get_tok tk m;
      n ← count_shared m l;
      Some (if has_flag t.(mt_tok).(tk_acquire_flags) SANLK_RES_SHARED then n + 1 else n)
  end.

(** The first section: the resource of the token, whether the token is on its list,
    and how many of its tokens are shared. *)
Definition convert_find (tk : addr) (m : resmgr) : option (option (addr * bool * Z) * resmgr) :=
  t ← get_tok tk m;
  o ← find_resource m t.(mt_tok) m.(rm_lists).(resources_held);
  match o with
  | None => Some (None, m)
  | Some p =>
      r ← get_res p m;
      n ← count_shared m r.(rs_tokens);
      Some (Some (p, bool_decide (tk ∈ r.(rs_tokens)), n), m)
  end.

Definition convert_token (res_flags : Z) (tk : addr) (cmd_flags : Z) : rthread Z :=
  o ← sec (convert_find tk);
  match o with
  | None => mret (- ENOENT)
  | Some (p, found, sh_count) =>
      if negb found then mret (- ENOENT)
      else
        r ← read_res p;
        let shared := has_flag r.(rs_flags) R_SHARED in
        let want := has_flag res_flags SANLK_RES_SHARED in
        if nz sh_count && negb shared then mret (- EINVAL)
        else if (sh_count =? 0) && shared then mret (- EINVAL)
        else if negb want && negb shared then mret (- EALREADY)
        else if want && shared then mret (- EALREADY)
        else
          rv ← tok_open open_disks_fd tk;
          if rv <? 0 then mret rv
          else
            rv ← (if want then convert_ex2sh_token tk p else convert_sh2ex_token tk p cmd_flags);
            tok_close tk;;
            mret rv
  end.

(** ** Acquiring *)

(** How the first section of [acquire_token] ends: the function returns, the token
    was given an orphan, or a new resource. *)
Inductive lookup := LkReturn (rv : Z) | LkAdopt | LkNew (p : addr).

(** [token->res_id = r->res_id] and a return. *)
Definition refuse (tk p : addr) (rv : Z) (m : resmgr) : option (lookup * resmgr) :=
  r ← get_res p m; m ← upd_tok tk (put_res_id r.(rs_res_id)) m; Some (LkReturn rv, m).

(** [token->res_id = r->res_id; token->resource = r; list_add(&token->list, &r->tokens)] *)
Definition link (tk p : addr) (m : resmgr) : option resmgr :=
  r ← get_res p m;
  m ← upd_tok tk (fun t => put_res_id r.(rs_res_id) t <| mt_resource := Some p |>) m;
  upd_res p (add_token tk) m.

(** A held resource with the names: another shared token, or EEXIST. *)
Definition lookup_held (tk p : addr) (m : resmgr) : option (lookup * resmgr) :=
  t ← get_tok tk m;
  r ← get_res p m;
  if has_flag t.(mt_tok).(tk_acquire_flags) SANLK_RES_SHARED && has_flag r.(rs_flags) R_SHARED then
    m ← upd_tok tk (put_disks (copy_disks (length t.(mt_tok).(t_disks)) r.(rs_disks) past)) m;
    m ← link tk p m;
    Some (LkReturn SANLK_OK, m)
  else refuse tk p (- EEXIST) m.

(** An orphan with the names, which is adopted when it is asked for in its mode. *)
Definition lookup_orphan (tk p : addr) (allow_orphan : bool) (m : resmgr) : option (lookup * resmgr) :=
  t ← get_tok tk m;
  r ← get_res p m;
  let want := has_flag t.(mt_tok).(tk_acquire_flags) SANLK_RES_SHARED in
  let shared := has_flag r.(rs_flags) R_SHARED in
  if negb allow_orphan || negb (eqb want shared) then refuse tk p (- EUCLEAN) m
  else
    m ← (if want then Some m
         else m ← upd_tok tk (fun t => t <| mt_r_lver := r.(rs_leader).(lr_lver) |>) m;
              upd_res p (fun r => r <| rs_pid := t.(mt_tok).(tk_pid) |>) m);
    m ← link tk p m;
    m ← list_move add_held p m;
    Some (LkAdopt, m).

(** No resource has the names: a new one on [resources_add]. [only_orphan] is 0 or 1
    and is tested against the command flags. *)
Definition lookup_new (tk : addr) (ok : bool) (cmd_flags only_orphan : Z) (killpath killargs : list Z)
    (m : resmgr) : option (lookup * resmgr) :=
  t ← get_tok tk m;
  if has_flag cmd_flags only_orphan then Some (LkReturn (- ENOENT), m)
  else
    o ← get_resource ok t m;
    let '(o, m) := o in
    match o with
    | None => Some (LkReturn (- ENOMEM), m)
    | Some (p, _) =>
        m ← upd_res p (fun r => r <| rs_killpath := killpath |> <| rs_killargs := killargs |>) m;
        m ← link tk p m;
        Some (LkNew p, m <| rm_lists := add_add p m.(rm_lists) |>)
    end.

Definition acquire_lookup (tk : addr) (ok : bool) (cmd_flags : Z) (killpath killargs : list Z)
    (m : resmgr) : option (lookup * resmgr) :=
  let allow_orphan := has_flag cmd_flags (Z.lor SANLK_ACQUIRE_ORPHAN SANLK_ACQUIRE_ORPHAN_ONLY) in
  let only_orphan := if has_flag cmd_flags SANLK_ACQUIRE_ORPHAN_ONLY then 1 else 0 in
  t ← get_tok tk m;
  in_rem ← find_resource m t.(mt_tok) m.(rm_lists).(resources_rem);
  in_add ← find_resource m t.(mt_tok) m.(rm_lists).(resources_add);
  in_held ← find_resource m t.(mt_tok) m.(rm_lists).(resources_held);
  in_orphan ← find_resource m t.(mt_tok) m.(rm_lists).(resources_orphan);
  match in_rem, in_add, in_held, in_orphan with
  | Some p, _, _, _ => refuse tk p (- EAGAIN) m
  | _, Some p, _, _ => refuse tk p (- EBUSY) m
  | _, _, Some p, _ => lookup_held tk p m
  | _, _, _, Some p => lookup_orphan tk p allow_orphan m
  | None, None, None, None => lookup_new tk ok cmd_flags only_orphan killpath killargs m
  end.

(** After an orphan was adopted. *)
Definition acquire_adopted (tk : addr) : rthread Z :=
  rv ← tok_open open_disks tk;
  if rv <? 0 then release_token_nodisk tk;; mret rv
  else tok_close tk;; mret SANLK_OK.

(** [out:] of [acquire_token]: the value block, and the resource is held. *)
Definition acquire_out (tk p : addr) (cmd_flags : Z) : rthread Z :=
  t ← read_tok tk;
  (if has_flag cmd_flags SANLK_ACQUIRE_LVB then
     b ← disk (call (CMemalign t.(mt_tok).(t_sector_size)));
     if nz (fst b) then mret tt
     else
       r ← disk (read_lvb_block t.(mt_tok) (Some (LvBuf t.(mt_tok).(t_sector_size) (snd b))));
       set_res p (fun res => res <| rs_lvb := snd r |>)
   else mret tt);;
  tok_close tk;;
  sec (fun m => m ← list_move add_held p m; Some (tt, m));;
  mret SANLK_OK.

(** A shared acquire that failed after the lease was ours. *)
Definition undo_acquire (tk p : addr) (rv : Z) : rthread Z :=
  set_res p (fun r => add_rflags R_UNDO_SHARED (clear_rflags R_SHARED r));;
  release_token_opened tk;;
  mret rv.

(** A shared lease: our mode block, then the leader is released. *)
Definition acquire_shared (tk p : addr) (t : token) (leader : leader_record) (dblock : paxos_dblock)
    (cmd_flags : Z) : rthread Z :=
  rv ← disk (write_mblock_shared_dblock_release t dblock);
  if rv <? 0 then undo_acquire tk p rv
  else
    rv ← disk (release_disk t None leader junk);
    if fst rv <? 0 then undo_acquire tk p (fst rv) else acquire_out tk p cmd_flags.

(** An exclusive lease: hosts that hold it shared have to be dead. *)
Definition acquire_exclusive (tk p : addr) (t : token) (leader : leader_record) (cmd_flags : Z) : rthread Z :=
  if t.(t_shared_count) =? 0 then acquire_out tk p cmd_flags
  else
    c ← disk (clear_dead_shared com t (i32 leader.(lr_num_hosts)) 0);
    if fst c <? 0 then release_token_opened tk;; mret (fst c)
    else if nz (snd c) then
      rv ← release_token_opened tk;
      if rv <? 0 then mret rv else mret (- EAGAIN)
    else acquire_out tk p cmd_flags.

(** After [paxos_lease_acquire] succeeded. *)
Definition acquire_won (tk p : addr) (shared : bool) (t : token) (leader : leader_record)
    (dblock : paxos_dblock) (cmd_flags : Z) : rthread Z :=
  set_res p (fun r => r <| rs_leader := leader |> <| rs_dblock := dblock |>);;
  if shared then acquire_shared tk p t leader dblock cmd_flags
  else
    set_tok tk (fun t => t <| mt_r_lver := leader.(lr_lver) |>);;
    acquire_exclusive tk p t leader cmd_flags.

(** The result of [acquire_disk]: the code, the token, the leader and the dblock. *)
Definition acquire_disk (t : token) (shared owner_nowait : bool) (acquire_lver new_num_hosts : Z)
    (dblock : paxos_dblock) : prog (option (Z * token * leader_record * paxos_dblock)) :=
  o ← paxos_lease_acquire com (acquire_disk_flags com shared owner_nowait) acquire_lver new_num_hosts fuel one t
        (aq_set_ret leader_zero dblock junk_acq);
  match o with
  | Some (rv, a) => Ret (Some (rv, a.(aq_token), a.(aq_leader_ret), a.(aq_dblock_ret)))
  | None => Ret None
  end.

Definition held_by_other (rv : Z) : bool :=
  (rv =? SANLK_ACQUIRE_IDLIVE) || (rv =? SANLK_ACQUIRE_OWNED) || (rv =? SANLK_ACQUIRE_OTHER).

(** After [acquire_disk] when no other host holds the lease. *)
Definition acquire_result (tk p : addr) (shared : bool) (rv : Z) (t : token) (leader : leader_record)
    (dblock : paxos_dblock) (cmd_flags : Z) : rthread Z :=
  if (rv <? 0) && negb (has_flag t.(t_flags) T_RETRACT_PAXOS) then
    set_res p (clear_rflags R_SHARED);;
    release_token_opened tk;;
    mret rv
  else if rv <? 0 then
    set_res p (fun r => add_rflags R_ERASE_ALL (clear_rflags R_SHARED r) <| rs_leader := leader |>);;
    release_token_opened tk;;
    mret rv
  else acquire_won tk p shared t leader dblock cmd_flags.

(** [retry:], with [n] more attempts at a shared lease that is held for a short time. *)
Fixpoint acquire_attempt (n : nat) (tk p : addr) (shared owner_nowait : bool)
    (acquire_lver new_num_hosts cmd_flags : Z) (dblock : paxos_dblock) : rthread Z :=
  t ← read_tok tk;
  o ← disk (acquire_disk t.(mt_tok) shared owner_nowait acquire_lver new_num_hosts dblock);
  o ← unfuel o;
  let '(rv, t, leader, dblock) := o in
  set_tok tk (put_results t);;
  set_res p (fun r => r <| rs_sector_size := t.(t_sector_size) |> <| rs_align_size := t.(t_align_size) |>);;
  if held_by_other rv then
    if shared && has_flag leader.(lr_flags) LFL_SHORT_HOLD then
      match n with
      | S n =>
          us ← disk (call (CGetRand 0 1000000));
          disk (call (CUsleep us));;
          acquire_attempt n tk p shared owner_nowait acquire_lver new_num_hosts cmd_flags dblock
      | O => release_token_opened tk;; mret SANLK_ACQUIRE_SHRETRY
      end
    else release_token_opened tk;; mret rv
  else acquire_result tk p shared rv t leader dblock cmd_flags.

(** A new resource: open the disks and acquire the lease. *)
Definition acquire_new (tk p : addr) (cmd_flags : Z) : rthread Z :=
  rv ← tok_open open_disks tk;
  if rv <? 0 then release_token_nodisk tk;; mret rv
  else
    t ← read_tok tk;
    let t := t.(mt_tok) in
    set_res p (fun r => r <| rs_disks := copy_disks (length t.(t_disks)) t.(t_disks) past |>);;
    acquire_attempt (Z.to_nat com.(com_sh_retries)) tk p
      (has_flag t.(tk_acquire_flags) SANLK_RES_SHARED) (has_flag cmd_flags SANLK_ACQUIRE_OWNER_NOWAIT)
      (if has_flag t.(tk_acquire_flags) SANLK_RES_LVER then t.(tk_acquire_lver) else 0)
      (if has_flag t.(tk_acquire_flags) SANLK_RES_NUM_HOSTS then t.(tk_acquire_data32) else 0)
      cmd_flags dblock_zero.

Definition acquire_token (tk : addr) (cmd_flags : Z) (killpath killargs : list Z) : rthread Z :=
  ok ← disk (call (CMalloc 0));
  l ← sec (acquire_lookup tk ok cmd_flags killpath killargs);
  match l with
  | LkReturn rv => mret rv
  | LkAdopt => acquire_adopted tk
  | LkNew p => acquire_new tk p cmd_flags
  end.

(** ** Requests *)

(** The message that asks the helper to stop the holder, [None] when the mode is
    unknown. *)
Definition request_msg (pid force_mode flags : Z) (killpath killargs : list Z) : option helper_msg :=
  if force_mode =? SANLK_REQ_FORCE then
    Some (MsgKillpid pid (if has_flag flags R_RESTRICT_SIGKILL then SIGTERM else SIGKILL))
  else if force_mode =? SANLK_REQ_GRACEFUL then
    if nz (nth 0 killpath 0) then Some (MsgRunpath killpath killargs 0)
    else Some (MsgKillpid pid (if has_flag flags R_RESTRICT_SIGTERM then SIGKILL else SIGTERM))
  else None.

(** The section of [do_request]: what is found of the resource, and the helper's
    descriptor. *)
Definition request_find (t : token) (pid : Z) (m : resmgr)
    : option (option (Z * list Z * list Z) * Z * resmgr) :=
  o ← find_resource m t m.(rm_lists).(resources_held);
  match o with
  | None => Some (None, m.(rm_helper_kill_fd), m)
  | Some p =>
      r ← get_res p m;
      Some (if r.(rs_pid) =? pid then Some (r.(rs_flags), r.(rs_killpath), r.(rs_killargs)) else None,
            m.(rm_helper_kill_fd), m)
  end.

Definition do_request (t : token) (pid force_mode : Z) : rthread unit :=
  f ← sec (request_find t pid);
  match f with
  | (Some (flags, killpath, killargs), kill_fd) =>
      if kill_fd =? -1 then mret ()
      else match request_msg pid force_mode flags killpath killargs with
           | Some hm => disk (call (CHelperWrite hm));; mret ()
           | None => mret ()
           end
  | (None, _) => mret ()
  end.

(** Sets R_THREAD_EXAMINE in the held resources of the list that match. *)
Fixpoint mark_examine (space_name : list Z) (res_name : option (list Z)) (l : list addr) (m : resmgr)
    : option (Z * resmgr) :=
  match l with
  | [] => Some (0, m)
  | p :: l =>
      r ← get_res p m;
      if strncmp_eq NAME_ID_SIZE r.(rs_lockspace_name) space_name &&
         match res_name with Some n => strncmp_eq NAME_ID_SIZE r.(rs_name) n | None => true end
      then
        m ← upd_res p (add_rflags R_THREAD_EXAMINE) m;
        c ← mark_examine space_name res_name l
              (m <| resource_thread_work := true |> <| resource_thread_work_examine := true |>);
        Some (fst c + 1, snd c)
      else mark_examine space_name res_name l m
  end.

Definition set_resource_examine (space_name : list Z) (res_name : option (list Z)) : rthread Z :=
  sec (fun m => mark_examine space_name res_name m.(rm_lists).(resources_held) m).

(** ** The resource thread *)

(** The first resource of the list with the flag, and for a release one whose time
    has come. *)
Fixpoint find_resource_thread (m : resmgr) (now flag : Z) (l : list addr) : option (option addr) :=
  match l with
  | [] => Some None
  | p :: l =>
      r ← get_res p m;
      if has_flag r.(rs_flags) flag && (has_flag flag R_THREAD_EXAMINE || (r.(rs_thread_release_retry) <=? now))
      then Some (Some p) else find_resource_thread m now flag l
  end.

(** The token made from a resource. *)
Definition thread_token (r : resource) : token :=
  Token r.(rs_host_id) r.(rs_host_generation) r.(rs_io_timeout) 0 r.(rs_sector_size) r.(rs_align_size)
    0 (zeros HOSTID_BITMAP_SIZE) (copy_disks (length r.(rs_disks)) r.(rs_disks) past) r.(rs_lockspace_name) r.(rs_name) r.(rs_r_flags).

(** The disk operations of [resource_thread_release]: whether one timed out, whether
    the value block was written, and [r->leader]. *)
Definition async_disks (t : token) (r : resource) : prog (bool * bool * leader_record) :=
  if has_flag r.(rs_flags) R_ERASE_ALL then
    e ← erase_all t r;
    Ret (timed_out (fst e) || timed_out (snd e), false, r.(rs_leader))
  else if has_flag r.(rs_flags) R_UNDO_SHARED then
    e ← undo_shared t r None;
    let '(rv1, rv2, leader) := e in Ret (timed_out rv1 || timed_out rv2, false, leader)
  else if has_flag r.(rs_flags) R_SHARED then
    rv ← write_mblock_zero_dblock_release t r.(rs_dblock);
    Ret (timed_out rv, false, r.(rs_leader))
  else
    o ← release_ex t r None;
    Ret (o.(rl_retry), o.(rl_lvb_written), o.(rl_leader)).

(** The token [t] lives in the thread alone. [r_flags], read when the function is entered, are
    those of [r]: the resource is on [resources_rem] and no other thread changes it. *)
Definition resource_thread_release (p : addr) (t : token) : rthread unit :=
  o ← disk (open_disks_fd t.(t_disks));
  if fst o <? 0 then release_out p 0 false;; mret ()
  else
    let t := with_disks (snd o) t in
    i ← disk (call (CLockspaceInfo t.(t_lockspace_name)));
    r ← read_res p;
    a ← (if (fst i <? 0) || nz (snd i) then mret (false, false, r.(rs_leader))
         else disk (async_disks t r));
    let '(retry_async, lvb_written, leader) := a in
    set_res p (put_released (Released 0 retry_async lvb_written leader));;
    disk (close_disks t.(t_disks));;
    release_out p 0 retry_async;;
    mret ().

Definition resource_thread_examine (t : token) (pid lver : Z) : rthread unit :=
  o ← disk (open_disks_fd t.(t_disks));
  if fst o <? 0 then mret ()
  else
    let t := with_disks (snd o) t in
    e ← disk (examine_token t);
    disk (close_disks t.(t_disks));;
    match e with
    | (_, None) => mret ()
    | (rv, Some req) =>
        if negb (rv =? SANLK_OK) then mret ()
        else if (req.(rr_force_mode) =? 0) || (req.(rr_lver) =? 0) then mret ()
        else if req.(rr_lver) <=? lver then mret ()
        else do_request t pid req.(rr_force_mode)
    end.

Definition add_host_event (space_id : Z) (he : host_event_data) (from_host_id from_generation : Z)
    : rthread unit :=
  ok ← disk (call (CMalloc 0));
  if ok : bool then
    sec (fun m => Some (tt, wake (m <| host_events := m.(host_events) ++ [RecvHe space_id from_host_id from_generation he] |>)))
  else mret tt.

(** What a turn of the thread finds to do. *)
Inductive thread_job :=
  | JobStop
  | JobWait
  | JobEvent (e : recv_he)
  | JobRelease (p : addr) (t : token)
  | JobExamine (t : token) (pid lver : Z)
  | JobNone.

(** [r->thread_release_retry]: the time of the next attempt. *)
Definition next_retry (now : Z) (r : resource) : Z :=
  u64 (now + if r.(rs_thread_release_retry) =? 0 then r.(rs_io_timeout) else u32 (r.(rs_io_timeout) * 2)).

Definition thread_section (now : Z) (m : resmgr) : option (thread_job * resmgr) :=
  if negb m.(resource_thread_work) then
    Some (if m.(resource_thread_stop) then JobStop else JobWait, m)
  else match m.(host_events) with
  | e :: es => Some (JobEvent e, m <| host_events := es |>)
  | [] =>
      o ← find_resource_thread m now R_THREAD_RELEASE m.(rm_lists).(resources_rem);
      match o with
      | Some p =>
          r ← get_res p m;
          m ← upd_res p (fun r => clear_rflags R_THREAD_RELEASE r <| rs_thread_release_retry := next_retry now r |>) m;
          Some (JobRelease p (thread_token r), m)
      | None =>
          o ← (if m.(resource_thread_work_examine)
               then find_resource_thread m now R_THREAD_EXAMINE m.(rm_lists).(resources_held) else Some None);
          match o with
          | Some p =>
              r ← get_res p m;
              m ← upd_res p (clear_rflags R_THREAD_EXAMINE) m;
              Some (JobExamine (thread_token r) r.(rs_pid) r.(rs_leader).(lr_lver), m)
          | None =>
              Some (JobNone, m <| resource_thread_work := false |> <| resource_thread_work_examine := false |>)
          end
      end
  end.

(** A turn of the loop; [false] when the thread ends. The clock is read once. *)
Definition resource_thread_turn : rthread bool :=
  now ← disk (call CMonotime);
  j ← sec (thread_section now);
  match j with
  | JobStop => mret false
  | JobEvent e => disk (call (CSendEvents e.(rhe_space_id) e.(rhe_from_host_id) e.(rhe_from_generation) e.(rhe_he)));; mret true
  | JobRelease p t => resource_thread_release p t;; mret true
  | JobExamine t pid lver => resource_thread_examine t pid lver;; mret true
  | JobWait | JobNone => mret true
  end.

End io.

(** ** Other operations *)

(** Moves the orphans of the list that match to [resources_rem]. *)
Fixpoint orphans_to_rem (ls nm : list Z) (l : list addr) (m : resmgr) : option (Z * resmgr) :=
  match l with
  | [] => Some (0, m)
  | p :: l =>
      r ← get_res p m;
      if strncmp_eq NAME_ID_SIZE r.(rs_lockspace_name) ls &&
         ((nth 0 nm 0 =? 0) || strncmp_eq NAME_ID_SIZE r.(rs_name) nm)
      then
        m ← upd_res p (add_rflags R_THREAD_RELEASE) m;
        m ← list_move add_rem p m;
        c ← orphans_to_rem ls nm l m;
        Some (fst c + 1, snd c)
      else orphans_to_rem ls nm l m
  end.

Definition release_orphan (ls nm : list Z) : rthread Z :=
  sec (fun m => c ← orphans_to_rem ls nm m.(rm_lists).(resources_orphan) m;
                Some (fst c, if nz (fst c) then wake (snd c) else snd c)).

(** Frees the resources of the list that are of the lockspace; the counter of free
    resources stays as it is. *)
Fixpoint purge_resource_list (space_name : list Z) (l : list addr) (m : resmgr) : option resmgr :=
  match l with
  | [] => Some m
  | p :: l =>
      r ← get_res p m;
      if strncmp_eq NAME_ID_SIZE r.(rs_lockspace_name) space_name
      then m ← drop_res p m; purge_resource_list space_name l m
      else purge_resource_list space_name l m
  end.

Definition purge_resource_orphans (space_name : list Z) : rthread unit :=
  sec (fun m => m ← purge_resource_list space_name m.(rm_lists).(resources_orphan) m; Some (tt, m)).
Definition purge_resource_free (space_name : list Z) : rthread unit :=
  sec (fun m => m ← purge_resource_list space_name m.(rm_lists).(resources_free) m; Some (tt, m)).

Definition rem_resources : rthread unit :=
  sec (fun m => Some (tt, match m.(rm_lists).(resources_rem) with [] => m | _ => wake m end)).

Definition close_token_manager : rthread unit :=
  sec (fun m => Some (tt, m <| resource_thread_stop := true |>)).

(** Whether a resource of the list is of the lockspace, and how many are. *)
Fixpoint in_lockspace (m : resmgr) (name : list Z) (l : list addr) : option Z :=
  match l with
  | [] => Some 0
  | p :: l =>
      r ← get_res p m;
      n ← in_lockspace m name l;
      Some (if strncmp_eq NAME_ID_SIZE r.(rs_lockspace_name) name then n + 1 else n)
  end.

Definition lockspace_is_used (name : list Z) : rthread bool :=
  sec (fun m =>
    let l := m.(rm_lists) in
    n ← in_lockspace m name (l.(resources_held) ++ l.(resources_add) ++ l.(resources_rem) ++ l.(resources_orphan));
    Some (nz n, m)).

Definition resource_orphan_count (name : list Z) : rthread Z :=
  sec (fun m => n ← in_lockspace m name m.(rm_lists).(resources_orphan); Some (n, m)).

(** The first held resource with the names. *)
Definition find_held (m : resmgr) (ls nm : list Z) : option (option addr) :=
  find_resource m (Token 0 0 0 0 0 0 0 [] [] ls nm 0) m.(rm_lists).(resources_held).

(** [lvblen] is compared as an unsigned value; the copy overruns a shorter buffer. *)
Definition res_set_lvb (ls nm : list Z) (lvb : mem) (lvblen : Z) : rthread Z :=
  sec (fun m =>
    o ← find_held m ls nm;
    match o with
    | None => Some (- ENOENT, m)
    | Some p =>
        r ← get_res p m;
        match r.(rs_lvb) with
        | None => Some (- EINVAL, m)
        | Some b =>
            if r.(rs_leader).(lr_sector_size) <? u32 lvblen then Some (- E2BIG, m)
            else if b.(lvb_len) <? lvblen then None
            else
              m ← upd_res p (fun r => add_rflags R_LVB_WRITE_RELEASE r
                    <| rs_lvb := Some (LvBuf b.(lvb_len) (mem_write b.(lvb_mem) 0 lvblen lvb)) |>) m;
              Some (0, m)
        end
    end).

(** Returns the code and the bytes given out; [ok] is whether the allocation
    succeeds. The length asked for is not compared with that of the buffer. *)
Definition res_get_lvb (ls nm : list Z) (lvblen : Z) (ok : bool) : rthread (Z * list Z) :=
  sec (fun m =>
    o ← find_held m ls nm;
    match o with
    | None => Some (- ENOENT, [], m)
    | Some p =>
        r ← get_res p m;
        match r.(rs_lvb) with
        | None => Some (- EINVAL, [], m)
        | Some b =>
            let len := if lvblen =? 0 then r.(rs_leader).(lr_sector_size) else lvblen in
            if negb ok then Some (- ENOMEM, [], m)
            else if b.(lvb_len) <? len then None
            else Some (0, mem_read b.(lvb_mem) 0 (Z.to_nat len), m)
        end
    end).

(** What [send_state_resources] reports: the list, the resource, pid and token id. *)
Fixpoint state_tokens (name : string) (m : resmgr) (p : addr) (l : list addr) : option (list (string * addr * Z * Z)) :=
  match l with
  | [] => Some []
  | tk :: l =>
      t ← get_tok tk m;
      s ← state_tokens name m p l;
      Some ((name, p, t.(mt_tok).(tk_pid), t.(mt_tok).(tk_token_id)) :: s)
  end.

Fixpoint state_list (name : string) (by_token : bool) (m : resmgr) (l : list addr) : option (list (string * addr * Z * Z)) :=
  match l with
  | [] => Some []
  | p :: l =>
      r ← get_res p m;
      s ← (if by_token then state_tokens name m p r.(rs_tokens) else Some [(name, p, r.(rs_pid), 0)]);
      s' ← state_list name by_token m l;
      Some (s ++ s')
  end.

Definition send_state_resources : rthread (list (string * addr * Z * Z)) :=
  sec (fun m =>
    let l := m.(rm_lists) in
    s1 ← state_list "held" true m l.(resources_held);
    s2 ← state_list "add" true m l.(resources_add);
    s3 ← state_list "rem" false m l.(resources_rem);
    s4 ← state_list "orphan" false m l.(resources_orphan);
    Some (s1 ++ s2 ++ s3 ++ s4, m)).
