(* ===== verification/ResourceLists.v ===== *)
(** * The lists of resources under concurrency

    The invariant of the resource manager: every allocated resource is on exactly one
    list, no two active resources have the same names, tokens are on the list of the
    resource they point to. It is kept by every critical section of every operation,
    whatever other threads do between the sections.

    The argument is a rely/guarantee logic. A thread has a _claim_: the token it works
    on, with the resource that token is linked to, and the resource on [resources_rem]
    that it alone releases. [safe t Q c] says of a thread with claim [c] that none of
    its sections fails and that each keeps the invariant and the claims of all other
    threads. *)

From S2P Require Import Prelude OnDisk SizeFlags Timeouts Io DeltaLease PaxosBlocks PaxosBallot PaxosLease.
From S2P Require Import Lockspace HostStatus Clients ResourceDisk Resource.

(** ** Lists as slots *)

#[global] Arguments without : simpl never.

Inductive slot := SFree | SHeld | SAdd | SRem | SOrphan.

#[export] Instance slot_eq_dec : EqDecision slot.
Proof. solve_decision. Defined.

Definition on (s : slot) (l : rlists) : list addr :=
  match s with
  | SFree => l.(resources_free)
  | SHeld => l.(resources_held)
  | SAdd => l.(resources_add)
  | SRem => l.(resources_rem)
  | SOrphan => l.(resources_orphan)
  end.

Definition add_to (s : slot) : addr -> rlists -> rlists :=
  match s with
  | SFree => add_free
  | SHeld => add_held
  | SAdd => add_add
  | SRem => add_rem
  | SOrphan => add_orphan
  end.

(** Every resource is on one list, once. *)
Record lists_ok (l : rlists) : Prop := {
  lo_nodup : forall s, NoDup (on s l);
  lo_one : forall p s1 s2, p ∈ on s1 l -> p ∈ on s2 l -> s1 = s2
}.

(** [l'] is [l] with [p] put at [s], and with [p] taken off. *)
Definition placed (p : addr) (s : slot) (l l' : rlists) : Prop :=
  lists_ok l' /\ forall q s1, q ∈ on s1 l' <-> (q = p /\ s1 = s) \/ (q <> p /\ q ∈ on s1 l).
Definition removed (p : addr) (l l' : rlists) : Prop :=
  lists_ok l' /\ forall q s1, q ∈ on s1 l' <-> q <> p /\ q ∈ on s1 l.

Lemma elem_without p q l : q ∈ without p l <-> q <> p /\ q ∈ l.
Proof. unfold without. by rw list_elem_of_filter. Qed.

Lemma placed_refl p s l : lists_ok l -> p ∈ on s l -> placed p s l l.
Proof.
  intros Hl Hp. split; [done|]. intros q s1. split.
  - intros Hq. destruct (decide (q = p)) as [-> |]; [left|right; done].
    split; [done|]. by apply (lo_one l Hl p).
  - by intros [[-> ->]|[_ ?]].
Qed.

Lemma unlink_removed p s l :
  lists_ok l -> p ∈ on s l -> exists l', unlink p l = Some l' /\ removed p l l'.
Proof.
  intros Hl Hp. unfold unlink. rw bool_decide_eq_true_2.
  { rw !elem_of_app. destruct s; simpl in Hp; tauto. }
  eexists. split; [done|].
  assert (Hon : forall q s1, q ∈ on s1 (RLists (without p l.(resources_free)) (without p l.(resources_held))
            (without p l.(resources_add)) (without p l.(resources_rem)) (without p l.(resources_orphan)))
            <-> q <> p /\ q ∈ on s1 l).
  { intros q []; simpl; apply elem_without. }
  split; [|done]. split.
  - intros s1. pose proof (lo_nodup l Hl s1) as Hn. destruct s1; simpl in *; by apply list.NoDup_filter.
  - intros q s1 s2 [_ H1]%Hon [_ H2]%Hon. by apply (lo_one l Hl q).
Qed.

Lemma add_placed p s l l' :
  removed p l l' -> placed p s l (add_to s p l').
Proof.
  intros [Hok Hon].
  assert (Hon' : forall q s1, q ∈ on s1 (add_to s p l') <-> (q = p /\ s1 = s) \/ (q <> p /\ q ∈ on s1 l)).
  { intros q s1. rw -Hon. assert (Hnp : p ∉ on s1 l') by (rw Hon; tauto).
    destruct (decide (s1 = s)) as [-> |Hne].
    - assert (on s (add_to s p l') = p :: on s l') as -> by (by destruct s). rw elem_of_cons. tauto.
    - assert (on s1 (add_to s p l') = on s1 l') as -> by (by destruct s, s1). tauto. }
  split; [|done]. split.
  - intros s1. destruct (decide (s1 = s)) as [-> |Hne].
    + assert (on s (add_to s p l') = p :: on s l') as -> by (by destruct s).
      constructor; [rw Hon; tauto|]. by apply lo_nodup.
    + assert (on s1 (add_to s p l') = on s1 l') as -> by (by destruct s, s1). by apply lo_nodup.
  - intros q s1 s2 H1 H2. rw Hon' in H1. rw Hon' in H2.
    destruct H1 as [[-> ->]|[Hq H1]], H2 as [[? ->]|[Hq' H2]]; try done.
    apply (lo_one l' Hok q); by apply Hon.
Qed.

Lemma new_removed p l : lists_ok l -> (forall s, p ∉ on s l) -> removed p l l.
Proof.
  intros Hl Hp. split; [done|]. intros q s. split; [|tauto]. intros Hq. split; [|done]. intros ->. by apply (Hp s).
Qed.

(** ** The invariant *)

Definition names (ls nm : list Z) : list Z * list Z := (take NAME_ID_SIZE (cstr ls), take NAME_ID_SIZE (cstr nm)).
Definition res_names (r : resource) : list Z * list Z := names r.(rs_lockspace_name) r.(rs_name).
Definition tok_names (t : mtoken) : list Z * list Z := names t.(t_lockspace_name) t.(t_name).

Lemma same_names_spec ls nm r : same_names ls nm r = bool_decide (res_names r = names ls nm).
Proof.
  unfold same_names, strncmp_eq. rw -bool_decide_and. apply bool_decide_ext. unfold res_names, names.
  split; [by intros [-> ->]|by intros [= -> ->]].
Qed.

Definition shared_res (r : resource) : bool := has_flag r.(rs_flags) R_SHARED.
Definition shared_tok (t : mtoken) : bool := has_flag t.(tk_acquire_flags) SANLK_RES_SHARED.
Definition async_res (r : resource) : bool := has_flag r.(rs_flags) R_THREAD_RELEASE.

(** The tokens on the list of resource [p]. *)
Definition linked (m : resmgr) (p : addr) (r : resource) : Prop :=
  NoDup r.(rs_tokens) /\ r.(rs_tokens) <> [] /\
  forall tk, tk ∈ r.(rs_tokens) -> exists t, get_tok tk m = Some t /\ t.(mt_resource) = Some p /\ tok_names t = res_names r.

(** Several tokens only when all of them and the resource are shared. *)
Definition mode_ok (m : resmgr) (r : resource) : Prop :=
  if shared_res r then forall tk t, tk ∈ r.(rs_tokens) -> get_tok tk m = Some t -> shared_tok t = true
  else (length r.(rs_tokens) <= 1)%nat.

(** [strict]: modes count. *)
Definition slot_ok (strict : bool) (m : resmgr) (s : slot) (p : addr) (r : resource) : Prop :=
  match s with
  | SFree | SRem | SOrphan => r.(rs_tokens) = []
  | SHeld => linked m p r /\ (strict = true -> mode_ok m r)
  | SAdd => linked m p r /\ (strict = true -> mode_ok m r) /\ length r.(rs_tokens) = 1%nat
  end /\
  match s with SHeld | SAdd | SOrphan => async_res r = false | _ => True end.

Record inv (strict : bool) (m : resmgr) : Prop := {
  inv_lists : lists_ok m.(rm_lists);
  inv_alloc : forall p, is_Some (get_res p m) <-> exists s, p ∈ on s m.(rm_lists);
  inv_slots : forall s p r, p ∈ on s m.(rm_lists) -> get_res p m = Some r -> slot_ok strict m s p r;
  inv_names : forall p q s1 s2 r1 r2, p ∈ on s1 m.(rm_lists) -> q ∈ on s2 m.(rm_lists) ->
    s1 <> SFree -> s2 <> SFree -> get_res p m = Some r1 -> get_res q m = Some r2 ->
    res_names r1 = res_names r2 -> p = q;
  inv_count : Z.of_nat (length m.(rm_lists).(resources_free)) <= m.(resources_free_count) <= FREE_RES_COUNT
}.

(** ** Claims *)

(** Where the token of a thread is: on no list, alone on a resource being added, on a
    held resource. *)
Inductive place := Idle | Adding (p : addr) | Holding (p : addr).

(** The token of the thread, whether it is known to be shared, and the resource it
    releases. *)
Record claim := Claim {
  c_tok : option (addr * place);
  c_shared : bool;
  c_rem : option addr
}.

Definition no_claim : claim := Claim None false None.
Definition c_key (c : claim) : option addr := fst <$> c.(c_tok).

Definition place_holds (m : resmgr) (tk : addr) (pl : place) : Prop :=
  is_Some (get_tok tk m) /\
  match pl with
  | Idle => forall p r, get_res p m = Some r -> tk ∉ r.(rs_tokens)
  | Adding p => p ∈ on SAdd m.(rm_lists) /\ exists r, get_res p m = Some r /\ r.(rs_tokens) = [tk]
  | Holding p => p ∈ on SHeld m.(rm_lists) /\ exists r, get_res p m = Some r /\ tk ∈ r.(rs_tokens)
  end.

Record holds (c : claim) (m : resmgr) : Prop := {
  h_tok : forall tk pl, c.(c_tok) = Some (tk, pl) -> place_holds m tk pl;
  h_shared : forall tk t, c.(c_shared) = true -> c_key c = Some tk -> get_tok tk m = Some t -> shared_tok t = true;
  h_rem : forall p, c.(c_rem) = Some p ->
    p ∈ on SRem m.(rm_lists) /\ exists r, get_res p m = Some r /\ async_res r = false
}.

(** Claims of two threads. *)
Definition compat (c1 c2 : claim) : Prop :=
  (forall tk, c_key c1 = Some tk -> c_key c2 <> Some tk) /\ (forall p, c1.(c_rem) = Some p -> c2.(c_rem) <> Some p).

(** A step of the thread with claim [c], which has [c'] after it: other claims hold on. *)
Definition passes (c c' : claim) (m m' : resmgr) : Prop :=
  holds c' m' /\ forall c2, compat c c2 -> holds c2 m -> holds c2 m' /\ compat c' c2.

Lemma passes_trans c c1 c2 m m1 m2 : passes c c1 m m1 -> passes c1 c2 m1 m2 -> passes c c2 m m2.
Proof.
  intros [_ H1] [H2 H3]. split; [done|]. intros c3 Hc Hh.
  destruct (H1 c3 Hc Hh) as [Hh1 Hc1]. by apply H3.
Qed.

Lemma passes_refl c m : holds c m -> passes c c m m.
Proof. done. Qed.

(** ** Changes of one resource *)

(** [m'] is [m] with resource [p], which was [r] at [s], now [r'] at [s']; [own] is the
    token of the thread. *)
Record changes (own : option addr) (p : addr) (s s' : slot) (r r' : resource) (m m' : resmgr) : Prop := {
  ch_from : p ∈ on s m.(rm_lists);
  ch_res : get_res p m = Some r;
  ch_to : placed p s' m.(rm_lists) m'.(rm_lists);
  ch_heap : m'.(rm_heap) = <[p := r']> m.(rm_heap);
  ch_toks : forall tk, own <> Some tk -> get_tok tk m' = get_tok tk m;
  ch_own : forall tk, own = Some tk -> is_Some (get_tok tk m) -> is_Some (get_tok tk m')
}.

Arguments ch_from {_ _ _ _ _ _ _ _} _.
Arguments ch_res {_ _ _ _ _ _ _ _} _.
Arguments ch_to {_ _ _ _ _ _ _ _} _.
Arguments ch_heap {_ _ _ _ _ _ _ _} _.
Arguments ch_toks {_ _ _ _ _ _ _ _} _ _ _.
Arguments ch_own {_ _ _ _ _ _ _ _} _ _ _ _.

Section changes.
Context {own : option addr} {p : addr} {s s' : slot} {r r' : resource} {m m' : resmgr}.
Hypothesis Hch : changes own p s s' r r' m m'.

Lemma ch_get q : get_res q m' = if bool_decide (q = p) then Some r' else get_res q m.
Proof.
  unfold get_res. rw (ch_heap Hch). case_bool_decide as E; [subst; by rw lookup_insert_eq|].
  by rw lookup_insert_ne.
Qed.

Lemma ch_get_p : get_res p m' = Some r'.
Proof. rw ch_get. by rw bool_decide_eq_true_2. Qed.
Lemma ch_get_ne q : q <> p -> get_res q m' = get_res q m.
Proof. intros H. rw ch_get. by rw bool_decide_eq_false_2. Qed.

Lemma ch_on q s1 : q ∈ on s1 m'.(rm_lists) <-> (q = p /\ s1 = s') \/ (q <> p /\ q ∈ on s1 m.(rm_lists)).
Proof. apply (ch_to Hch). Qed.

End changes.

(** The invariant, from what is new about [p]. *)
Lemma inv_changes own p s s' r r' m m' strict :
  changes own p s s' r r' m m' -> inv strict m -> slot_ok strict m' s' p r' ->
  (forall tk, own = Some tk -> forall q s1 r1, q <> p -> q ∈ on s1 m.(rm_lists) -> get_res q m = Some r1 -> tk ∉ r1.(rs_tokens)) ->
  (s' <> SFree -> (s <> SFree /\ res_names r' = res_names r) \/
     forall q s1 r1, q ∈ on s1 m.(rm_lists) -> s1 <> SFree -> get_res q m = Some r1 -> res_names r1 <> res_names r') ->
  Z.of_nat (length m'.(rm_lists).(resources_free)) <= m'.(resources_free_count) <= FREE_RES_COUNT ->
  inv strict m'.
Proof.
  intros Hch Hi Hs Hown Hn Hc. split.
  - apply (ch_to Hch).
  - intros q. split.
    + intros Hq. destruct (decide (q = p)) as [-> |Hne]; [exists s'; apply (ch_on Hch); by left|].
      rw (ch_get_ne Hch) // in Hq. apply (inv_alloc _ _ Hi) in Hq as [s1 Hq]. exists s1. apply (ch_on Hch). by right.
    + intros [s1 [[-> ->]|[Hne Hq]]%(ch_on Hch)]; [by rw (ch_get_p Hch)|]. rw (ch_get_ne Hch) //.
      apply (inv_alloc _ _ Hi). by exists s1.
  - intros s1 q r1 [[-> ->]|[Hne Hq]]%(ch_on Hch) Hr.
    { rw (ch_get_p Hch) in Hr. by injection Hr as <-. }
    rw (ch_get_ne Hch) // in Hr. pose proof (inv_slots _ _ Hi s1 q r1 Hq Hr) as [H1 H2]. split; [|done].
    assert (Hsame : forall tk, tk ∈ r1.(rs_tokens) -> get_tok tk m' = get_tok tk m).
    { intros tk Htk. apply (ch_toks Hch). intros E. by apply (Hown tk E q s1 r1). }
    assert (Hl : linked m q r1 -> linked m' q r1).
    { intros (Hnd & Hne' & Ht). split; [done|]. split; [done|]. intros tk Htk. rw Hsame //. by apply Ht. }
    assert (Hmo : mode_ok m r1 -> mode_ok m' r1).
    { unfold mode_ok. destruct (shared_res r1); [|done]. intros Hm tk t Htk. rw Hsame //. by apply Hm. }
    destruct s1; try done.
    + destruct H1 as [Hlk Hm]. split; [by apply Hl|]. auto.
    + destruct H1 as (Hlk & Hm & Hlen). split; [by apply Hl|]. auto.
  - assert (Hp : forall q s1 s2 r2, s2 = s' -> q ∈ on s1 m.(rm_lists) -> q <> p -> s1 <> SFree -> s2 <> SFree ->
       get_res q m = Some r2 -> res_names r2 = res_names r' -> False).
    { intros q s1 s2 r2 -> Hq Hne H1 H2 Hr E. destruct (Hn H2) as [[Hs' En]|Hnew].
      - apply Hne. apply (inv_names _ _ Hi q p s1 s r2 r); try done.
        + apply (ch_from Hch). + apply (ch_res Hch). + congruence.
      - by apply (Hnew q s1 r2). }
    intros q1 q2 s1 s2 r1 r2 [[-> ->]|[Hne1 Hq1]]%(ch_on Hch) [[-> ->]|[Hne2 Hq2]]%(ch_on Hch) H1 H2 G1 G2 E; [done|..].
    + rw (ch_get_p Hch) in G1. injection G1 as <-. rw (ch_get_ne Hch) // in G2. exfalso. by eapply (Hp q2 s2 s').
    + rw (ch_get_p Hch) in G2. injection G2 as <-. rw (ch_get_ne Hch) // in G1. exfalso. by eapply (Hp q1 s1 s').
    + rw (ch_get_ne Hch) // in G1. rw (ch_get_ne Hch) // in G2. by apply (inv_names _ _ Hi q1 q2 s1 s2 r1 r2).
  - done.
Qed.

(** Claims of other threads, from what stays of [p]. *)
Lemma holds_changes own p s s' r r' m m' c2 :
  changes own p s s' r r' m m' -> lists_ok m.(rm_lists) -> holds c2 m ->
  (forall tk, own = Some tk -> c_key c2 <> Some tk) ->
  (forall x, x ∈ r'.(rs_tokens) -> x ∈ r.(rs_tokens) \/ own = Some x) ->
  (forall x, own <> Some x -> x ∈ r.(rs_tokens) -> x ∈ r'.(rs_tokens) /\ s' = s) ->
  (s = SAdd -> r'.(rs_tokens) = r.(rs_tokens) \/ exists x, own = Some x /\ x ∈ r.(rs_tokens)) ->
  (s = SRem -> c2.(c_rem) = Some p -> async_res r = false -> s' = SRem /\ async_res r' = false) ->
  holds c2 m'.
Proof.
  intros Hch Hl Hh Hk Hsub Hkeep Hadd Hrem.
  pose proof (ch_from Hch) as Hfrom. pose proof (ch_res Hch) as Hres. pose proof (ch_toks Hch) as Htoks.
  assert (Hn : forall tk, c_key c2 = Some tk -> own <> Some tk) by (intros tk E1 E2; by apply (Hk tk)).
  split.
  - intros tk pl E. pose proof (h_tok _ _ Hh tk pl E) as [Ha Hpl].
    assert (Hne : own <> Some tk) by (apply Hn; unfold c_key; by rw E).
    split; [by rw Htoks|]. destruct pl as [|q|q].
    + intros q r1. rw (ch_get Hch). case_bool_decide as Eq; [|by apply Hpl]. intros [= <-] Hin.
      apply Hsub in Hin as [Hin|Hin]; [|done]. by apply (Hpl p r).
    + destruct Hpl as [Hq (r1 & Hr1 & Et)]. destruct (decide (q = p)) as [-> |Hqp].
      * assert (s = SAdd) as -> by (by apply (lo_one _ Hl p)). assert (r1 = r) as -> by congruence.
        destruct (Hkeep tk Hne) as [_ ->]; [rw Et; by left|].
        split; [apply (ch_on Hch); by left|]. exists r'. split; [apply (ch_get_p Hch)|].
        destruct (Hadd eq_refl) as [-> |(x & Hx & Hin)]; [done|]. rw Et list_elem_of_singleton in Hin. congruence.
      * split; [apply (ch_on Hch); by right|]. exists r1. by rw (ch_get_ne Hch).
    + destruct Hpl as [Hq (r1 & Hr1 & Hin)]. destruct (decide (q = p)) as [-> |Hqp].
      * assert (s = SHeld) as -> by (by apply (lo_one _ Hl p)). assert (r1 = r) as -> by congruence.
        destruct (Hkeep tk Hne Hin) as [Hin' ->]. split; [apply (ch_on Hch); by left|].
        exists r'. split; [apply (ch_get_p Hch)|done].
      * split; [apply (ch_on Hch); by right|]. exists r1. by rw (ch_get_ne Hch).
  - intros tk t Hs E. rw Htoks; [by apply Hn|]. by apply (h_shared _ _ Hh).
  - intros q E. destruct (h_rem _ _ Hh q E) as [Hq (r1 & Hr1 & Ha)]. destruct (decide (q = p)) as [-> |Hqp].
    + assert (s = SRem) as Es by (by apply (lo_one _ Hl p)). assert (r1 = r) as -> by congruence.
      destruct (Hrem Es E Ha) as [-> Ha']. split; [apply (ch_on Hch); by left|]. exists r'. split; [apply (ch_get_p Hch)|done].
    + split; [apply (ch_on Hch); by right|]. exists r1. by rw (ch_get_ne Hch).
Qed.


(** ** Safe threads *)

Section safe.
Context (strict : bool).

Fixpoint safe {A} (t : rthread A) (Q : A -> claim -> Prop) (c : claim) : Prop :=
  match t with
  | RRet a => Q a c
  | RUb | RStuck => True
  | RSec f k => forall m, inv strict m -> holds c m ->
      exists x m' c', f m = Some (x, m') /\ inv strict m' /\ passes c c' m m' /\ safe (k x) Q c'
  | RIo _ k => forall x, safe (k x) Q c
  end.

Lemma safe_mono {A} (t : rthread A) (Q Q' : A -> claim -> Prop) c :
  (forall a c, Q a c -> Q' a c) -> safe t Q c -> safe t Q' c.
Proof.
  intros HQ. revert c. induction t as [a| | |T f k IH|X cm k IH]; intros c H; cbn in *; eauto.
  intros m Hi Hh. destruct (H m Hi Hh) as (x & m' & c' & Hf & Hi' & Hp & Hk). eauto 10.
Qed.

Lemma safe_bind {A B} (t : rthread A) (k : A -> rthread B) Q c :
  safe t (fun a c => safe (k a) Q c) c -> safe (t ≫= k) Q c.
Proof.
  revert c. induction t as [a| | |T f k' IH|X cm k' IH]; intros c H; cbn in *; auto.
  intros m Hi Hh. destruct (H m Hi Hh) as (x & m' & c' & Hf & Hi' & Hp & Hk). eauto 10.
Qed.

Lemma safe_sec {T} (f : resmgr -> option (T * resmgr)) (Q : T -> claim -> Prop) c :
  (forall m, inv strict m -> holds c m ->
     exists x m' c', f m = Some (x, m') /\ inv strict m' /\ passes c c' m m' /\ Q x c') -> safe (sec f) Q c.
Proof. done. Qed.

(** I/o changes nothing of the manager. *)
Lemma safe_disk {A} (p : prog A) (Q : A -> claim -> Prop) c : (forall a, Q a c) -> safe (disk p) Q c.
Proof. intros HQ. induction p as [a| |X cm k IH]; cbn; auto. Qed.

(** ** What a claim gives *)

(** The thread works on resource [p]. *)
Definition works_on (c : claim) (p : addr) : Prop :=
  (exists tk, c.(c_tok) = Some (tk, Adding p)) \/ (exists tk, c.(c_tok) = Some (tk, Holding p)) \/ c.(c_rem) = Some p.

Lemma works_slot c p m :
  holds c m -> works_on c p -> exists s r, p ∈ on s m.(rm_lists) /\ get_res p m = Some r.
Proof.
  intros Hh [[tk E]|[[tk E]|E]].
  - destruct (h_tok _ _ Hh _ _ E) as [_ (Hp & r & Hr & _)]. by exists SAdd, r.
  - destruct (h_tok _ _ Hh _ _ E) as [_ (Hp & r & Hr & _)]. by exists SHeld, r.
  - destruct (h_rem _ _ Hh _ E) as (Hp & r & Hr & _). by exists SRem, r.
Qed.

(** A token is on the list of the resource it points to, and no other. *)
Lemma linked_tok m s p r tk :
  inv strict m -> p ∈ on s m.(rm_lists) -> get_res p m = Some r -> tk ∈ r.(rs_tokens) ->
  (s = SHeld \/ s = SAdd) /\ exists t, get_tok tk m = Some t /\ t.(mt_resource) = Some p /\ tok_names t = res_names r.
Proof.
  intros Hi Hp Hr Htk. destruct (inv_slots _ _ Hi s p r Hp Hr) as [Hs _].
  assert (Hnil : r.(rs_tokens) <> []) by (intros E; rw E in Htk; by apply not_elem_of_nil in Htk).
  destruct s; try done; destruct Hs as [(_ & _ & Hl) _]; auto.
Qed.

Lemma linked_once m p q s1 s2 r1 r2 tk :
  inv strict m -> p ∈ on s1 m.(rm_lists) -> q ∈ on s2 m.(rm_lists) -> get_res p m = Some r1 -> get_res q m = Some r2 ->
  tk ∈ r1.(rs_tokens) -> tk ∈ r2.(rs_tokens) -> p = q.
Proof.
  intros Hi Hp Hq Hr1 Hr2 H1 H2.
  destruct (linked_tok m s1 p r1 tk Hi Hp Hr1 H1) as [_ (t & Ht & E & _)].
  destruct (linked_tok m s2 q r2 tk Hi Hq Hr2 H2) as [_ (t' & Ht' & E' & _)]. congruence.
Qed.

(** The token a thread has is on no resource but the one it claims. *)
Lemma own_elsewhere c m tk pl p :
  inv strict m -> holds c m -> c.(c_tok) = Some (tk, pl) -> pl = Idle \/ pl = Adding p \/ pl = Holding p ->
  forall q s1 r1, q <> p -> q ∈ on s1 m.(rm_lists) -> get_res q m = Some r1 -> tk ∉ r1.(rs_tokens).
Proof.
  intros Hi Hh E Hpl q s1 r1 Hne Hq Hr Hin. destruct (h_tok _ _ Hh _ _ E) as [_ H].
  destruct Hpl as [-> |[-> | ->]]; [by apply (H q r1)|..]; apply Hne; destruct H as (Hp & r & Hr' & Ht).
  - apply (linked_once m q p s1 SAdd r1 r tk); try done. rw Ht. by left.
  - by apply (linked_once m q p s1 SHeld r1 r tk).
Qed.

(** ** Changes in place *)

(** What the lists depend on is the same in both. *)
Definition same_links (r r' : resource) : Prop :=
  r'.(rs_tokens) = r.(rs_tokens) /\ res_names r' = res_names r /\ async_res r' = async_res r.

Lemma upd_res_changes own p s r f m :
  lists_ok m.(rm_lists) -> p ∈ on s m.(rm_lists) -> get_res p m = Some r ->
  exists m', upd_res p f m = Some m' /\ changes own p s s r (f r) m m' /\ m'.(rm_toks) = m.(rm_toks) /\
    m'.(rm_lists) = m.(rm_lists) /\ m'.(resources_free_count) = m.(resources_free_count).
Proof.
  intros Hl Hp Hr. unfold upd_res. rw Hr. cbn. eexists. split; [done|]. split; [|done].
  split; try done. by apply placed_refl.
Qed.

(** A resource changed in place keeps the claims of others. *)
Lemma holds_in_place c2 p s r r' m m' :
  inv strict m -> changes None p s s r r' m m' -> same_links r r' -> holds c2 m -> holds c2 m'.
Proof.
  intros Hi Hch (Et & _ & Ea) Hh. apply (holds_changes None p s s r r' m m'); try done.
  - apply (inv_lists _ _ Hi). - rw Et. by left. - by rw Et. - by left. - by rw Ea.
Qed.

Lemma slot_ok_links m m' s p r r' :
  m'.(rm_toks) = m.(rm_toks) -> same_links r r' -> (s = SHeld \/ s = SAdd -> strict = true -> mode_ok m' r') ->
  slot_ok strict m s p r -> slot_ok strict m' s p r'.
Proof.
  intros Htk (Et & En & Ea) Hm [H1 H2]. split; [|by rw Ea].
  assert (Hl : linked m p r -> linked m' p r').
  { unfold linked, get_tok. by rw Et En Htk. }
  destruct s; try (by rw Et).
  - split; [apply Hl, H1|]. auto.
  - rw Et. split; [apply Hl, H1|]. split; [auto|apply H1].
Qed.

Lemma inv_in_place p s r r' m m' :
  inv strict m -> changes None p s s r r' m m' -> m'.(rm_toks) = m.(rm_toks) -> m'.(rm_lists) = m.(rm_lists) ->
  m'.(resources_free_count) = m.(resources_free_count) -> same_links r r' ->
  (s = SHeld \/ s = SAdd -> strict = true -> mode_ok m' r') -> inv strict m'.
Proof.
  intros Hi Hch Htk Hli Hc Hs Hm. apply (inv_changes None p s s r r' m m'); try done.
  - apply (slot_ok_links m m' s p r); try done. apply (inv_slots _ _ Hi); [apply Hch|apply Hch].
  - intros Hne. left. split; [done|]. apply Hs.
  - rw Hli Hc. apply (inv_count _ _ Hi).
Qed.

(** [mode_ok] of a resource whose tokens and mode stay. *)
Lemma mode_ok_same m m' r r' :
  m'.(rm_toks) = m.(rm_toks) -> r'.(rs_tokens) = r.(rs_tokens) -> shared_res r' = shared_res r ->
  mode_ok m r -> mode_ok m' r'.
Proof. intros Htk Et Es. unfold mode_ok, get_tok. by rw Es Et Htk. Qed.

(** The modes of a change of [p]: the same, or exclusive while [p] is being added, or
    [p] is being released, or modes do not count, or the change makes the resource of
    a shared token shared. *)
Definition mode_kept (c : claim) (p : addr) (f : resource -> resource) : Prop :=
  (forall r, shared_res (f r) = shared_res r) \/
  ((exists tk, c.(c_tok) = Some (tk, Adding p)) /\ forall r, shared_res (f r) = true -> shared_res r = true) \/
  c.(c_rem) = Some p \/ strict = false \/
  ((exists tk, c.(c_tok) = Some (tk, Holding p)) /\ c.(c_shared) = true /\ forall r, shared_res (f r) = true).

Lemma mode_kept_ok c p f s r m m' :
  inv strict m -> holds c m -> p ∈ on s m.(rm_lists) -> get_res p m = Some r -> m'.(rm_toks) = m.(rm_toks) ->
  (f r).(rs_tokens) = r.(rs_tokens) -> mode_kept c p f -> s = SHeld \/ s = SAdd -> strict = true -> mode_ok m' (f r).
Proof.
  intros Hi Hh Hp Hr Htk Et Hk Hs Hst. pose proof (inv_lists _ _ Hi) as Hl.
  assert (Hm : mode_ok m r).
  { destruct (inv_slots _ _ Hi s p r Hp Hr) as [H _]. destruct Hs as [-> | ->]; by apply H. }
  destruct Hk as [Es|[([tk E] & Es)|[E|[E|([tk E] & Hsh & Es)]]]].
  - by apply (mode_ok_same m m' r).
  - destruct (h_tok _ _ Hh _ _ E) as [_ (Hp' & r' & Hr' & Et')]. assert (r' = r) as -> by congruence.
    destruct (shared_res (f r)) eqn:Ef; [apply (mode_ok_same m m' r); try done; rw Ef; by rw Es|].
    unfold mode_ok. rw Ef Et Et'. cbn. lia.
  - destruct (h_rem _ _ Hh _ E) as [Hp' _]. pose proof (lo_one _ Hl p s SRem Hp Hp'). by destruct Hs as [-> | ->].
  - congruence.
  - destruct (h_tok _ _ Hh _ _ E) as [_ (_ & r' & Hr' & Hin)]. assert (r' = r) as -> by congruence.
    unfold mode_ok, get_tok in *. rw Es Et Htk. destruct (shared_res r); [done|].
    destruct r.(rs_tokens) as [|x [|y l]] eqn:El; [by apply not_elem_of_nil in Hin| |cbn in Hm; lia].
    apply list_elem_of_singleton in Hin as <-. intros x t ->%list_elem_of_singleton Ht.
    apply (h_shared _ _ Hh tk t); try done. unfold c_key. by rw E.
Qed.

Lemma safe_set_res c p f (Q : unit -> claim -> Prop) :
  works_on c p -> (forall r, same_links r (f r)) -> mode_kept c p f -> Q tt c -> safe (set_res p f) Q c.
Proof.
  intros Hw Hs Hm HQ. apply safe_sec. intros m Hi Hh.
  destruct (works_slot c p m Hh Hw) as (s & r & Hp & Hr).
  destruct (upd_res_changes None p s r f m (inv_lists _ _ Hi) Hp Hr) as (m' & E & Hch & Htk & Hli & Hc).
  exists tt, m', c. rw E. split; [done|]. split; [|split; [|done]].
  - apply (inv_in_place p s r (f r) m m'); try done. intros Es Est.
    apply (mode_kept_ok c p f s r m m'); try done. apply Hs.
  - split; [by apply (holds_in_place c p s r (f r) m m')|].
    intros c2 Hc2 Hh2. split; [|done]. by apply (holds_in_place c2 p s r (f r) m m').
Qed.

Lemma safe_read_res c p (Q : resource -> claim -> Prop) : works_on c p -> (forall r, Q r c) -> safe (read_res p) Q c.
Proof.
  intros Hw HQ. apply safe_sec. intros m Hi Hh. destruct (works_slot c p m Hh Hw) as (s & r & Hp & Hr).
  exists r, m, c. rw Hr. by split.
Qed.

Lemma safe_read_tok c tk pl (Q : mtoken -> claim -> Prop) :
  c.(c_tok) = Some (tk, pl) -> (forall t, Q t c) -> safe (read_tok tk) Q c.
Proof.
  intros E HQ. apply safe_sec. intros m Hi Hh. destruct (h_tok _ _ Hh _ _ E) as [[t Ht] _].
  exists t, m, c. rw Ht. by split.
Qed.

(** ** Changes of the thread's token *)

Definition with_shared_claim (b : bool) (c : claim) : claim := Claim c.(c_tok) b c.(c_rem).

Lemma upd_tok_get tk f m m' x :
  upd_tok tk f m = Some m' ->
  get_tok x m' = (if bool_decide (x = tk) then f <$> get_tok tk m else get_tok x m).
Proof.
  unfold upd_tok, get_tok. destruct (rm_toks m !! tk) as [t|] eqn:E; [|done]. cbn. intros [= <-]. cbn.
  case_bool_decide as Ex; [subst; by rw lookup_insert_eq|by rw lookup_insert_ne].
Qed.

(** [f] keeps what links a token to its resource. *)
Definition same_tok (f : mtoken -> mtoken) : Prop :=
  forall t, (f t).(mt_resource) = t.(mt_resource) /\ tok_names (f t) = tok_names t.

Lemma upd_tok_inv tk f m m' :
  inv strict m -> upd_tok tk f m = Some m' -> same_tok f ->
  (strict = true -> forall t, shared_tok t = true -> shared_tok (f t) = true) -> inv strict m'.
Proof.
  intros Hi E Hf Hs. pose proof (upd_tok_get tk f m m') as Hg.
  assert (Hm : rm_heap m' = rm_heap m /\ rm_lists m' = rm_lists m /\ resources_free_count m' = resources_free_count m).
  { unfold upd_tok in E. destruct (get_tok tk m); [|done]. cbn in E. by injection E as <-. }
  destruct Hm as (Eh & El & Ec). destruct Hi as [H1 H2 H3 H4 H5].
  assert (Hl : forall p r, linked m p r -> linked m' p r).
  { intros p r (Hn & Hne & Ht). split; [done|]. split; [done|]. intros x Hx. destruct (Ht x Hx) as (t & Hgt & Hr & Hnm).
    rw (Hg x E). case_bool_decide as Ex; [|by eauto]. subst. rw Hgt. exists (f t). split; [done|].
    by rw (proj1 (Hf t)) (proj2 (Hf t)). }
  split; unfold get_res in *; rw ?Eh ?El ?Ec; try done.
  intros s p r Hp Hr. destruct (H3 s p r Hp Hr) as [Hs1 Hs2]. split; [|done].
  assert (Hmo : strict = true -> mode_ok m r -> mode_ok m' r).
  { intros Est Hm. unfold mode_ok in *.
    destruct (shared_res r); [|done]. intros x t Hx. rw (Hg x E). case_bool_decide as Ex; [|by apply Hm].
    subst. destruct (get_tok tk m) as [t0|] eqn:E0; [|done]. cbn. intros [= <-]. apply Hs; [done|]. by apply (Hm tk). }
  destruct s; try done.
  - destruct Hs1 as [Hlk Hm]. split; [by apply Hl|]. auto.
  - destruct Hs1 as (Hlk & Hm & Hlen). split; [by apply Hl|]. auto.
Qed.

Lemma upd_tok_holds tk f m m' c2 :
  upd_tok tk f m = Some m' -> holds c2 m ->
  (c_key c2 = Some tk -> c2.(c_shared) = true -> forall t, shared_tok t = true -> shared_tok (f t) = true) -> holds c2 m'.
Proof.
  intros E Hh Hs. pose proof (upd_tok_get tk f m m') as Hg.
  assert (Hm : rm_heap m' = rm_heap m /\ rm_lists m' = rm_lists m).
  { unfold upd_tok in E. destruct (get_tok tk m); [|done]. cbn in E. by injection E as <-. }
  destruct Hm as (Eh & El). destruct Hh as [H1 H2 H3].
  split.
  - intros x pl Ex. destruct (H1 x pl Ex) as [Ha Hpl]. split.
    + rw (Hg x E). case_bool_decide; [subst; by apply fmap_is_Some|done].
    + unfold get_res in *. by rw Eh El.
  - intros x t Hsh Ex. rw (Hg x E). case_bool_decide as Eq; [|by apply H2]. subst.
    destruct (get_tok tk m) as [t0|] eqn:E0; [|done]. cbn. intros [= <-]. apply Hs; try done. by apply (H2 tk).
  - unfold get_res in *. by rw Eh El.
Qed.

(** [b] is what the claim says of the mode afterwards. *)
Lemma safe_set_tok_mode c tk pl f b (Q : unit -> claim -> Prop) :
  c.(c_tok) = Some (tk, pl) -> same_tok f ->
  (strict = true -> forall t, shared_tok t = true -> shared_tok (f t) = true) ->
  (b = true -> forall t, (c.(c_shared) = true -> shared_tok t = true) -> shared_tok (f t) = true) ->
  Q tt (with_shared_claim b c) -> safe (set_tok tk f) Q c.
Proof.
  intros Ec Hf Hs Hb HQ. apply safe_sec. intros m Hi Hh. destruct (h_tok _ _ Hh _ _ Ec) as [[t Ht] _].
  destruct (upd_tok tk f m) as [m'|] eqn:E; [|unfold upd_tok in E; by rw Ht in E].
  exists tt, m', (with_shared_claim b c). split; [done|]. split; [by apply (upd_tok_inv tk f m)|]. split; [|done].
  split.
  - assert (H0 : holds (with_shared_claim false c) m').
    { apply (upd_tok_holds tk f m m'); try done. by split; destruct Hh. }
    split; [apply H0| |apply H0]. intros x t' Eb Ek. cbn in Eb. unfold c_key in Ek. cbn in Ek. rw Ec in Ek.
    injection Ek as <-. rw (upd_tok_get tk f m m' tk E). rw bool_decide_eq_true_2 // Ht. cbn. intros [= <-].
    apply Hb; [done|]. intros Hcs. apply (h_shared _ _ Hh tk t); try done. unfold c_key. by rw Ec.
  - intros c2 [Hk Hr] Hh2. split; [|by split].
    apply (upd_tok_holds tk f m m'); try done. intros Ek. exfalso. apply (Hk tk); [|done]. unfold c_key. by rw Ec.
Qed.

Lemma safe_set_tok c tk pl f (Q : unit -> claim -> Prop) :
  c.(c_tok) = Some (tk, pl) -> same_tok f -> (forall t, shared_tok (f t) = shared_tok t) ->
  Q tt c -> safe (set_tok tk f) Q c.
Proof.
  intros Ec Hf Hs HQ. apply (safe_set_tok_mode c tk pl f c.(c_shared)); try done.
  - intros _ t. by rw Hs. - intros Eb t. rw Hs. auto. - by destruct c.
Qed.

(** ** Moves *)

Lemma without_notin p l : p ∉ l -> without p l = l.
Proof.
  unfold without. induction l as [|q l IH]; [done|]. intros [Hne Hni]%not_elem_of_cons.
  rw filter_cons_True; [by intros ->|]. by rw IH.
Qed.

Lemma unlink_free p l l' : unlink p l = Some l' -> resources_free l' = without p (resources_free l).
Proof. unfold unlink. case_bool_decide; [|done]. by intros [= <-]. Qed.

Lemma changes_trans own p s s1 s2 r r1 r2 m m1 m2 :
  changes own p s s1 r r1 m m1 -> changes own p s1 s2 r1 r2 m1 m2 -> changes own p s s2 r r2 m m2.
Proof.
  intros H1 H2. split.
  - apply H1. - apply H1.
  - destruct (ch_to H2) as [Hok Hon]. split; [done|]. intros q s3. rw Hon (ch_on H1). tauto.
  - rw (ch_heap H2) (ch_heap H1). by rw insert_insert_eq.
  - intros tk Hne. by rw (ch_toks H2) ?(ch_toks H1).
  - intros tk E Ha. by apply (ch_own H2), (ch_own H1).
Qed.

Lemma list_del_removed p s m :
  lists_ok m.(rm_lists) -> p ∈ on s m.(rm_lists) ->
  exists m', list_del p m = Some m' /\ removed p m.(rm_lists) m'.(rm_lists) /\ m'.(rm_heap) = m.(rm_heap) /\
    m'.(rm_toks) = m.(rm_toks) /\ m'.(resources_free_count) = m.(resources_free_count) /\
    m'.(rm_lists).(resources_free) = without p m.(rm_lists).(resources_free).
Proof.
  intros Hl Hp. destruct (unlink_removed p s _ Hl Hp) as (l' & E & Hr). unfold list_del. rw E. cbn.
  eexists. split; [done|]. repeat (split; [done|]). by apply unlink_free.
Qed.

Lemma insert_get p r m : get_res p m = Some r -> <[p := r]> m.(rm_heap) = m.(rm_heap).
Proof. apply insert_id. Qed.

Lemma list_move_changes own p s s' r m :
  lists_ok m.(rm_lists) -> p ∈ on s m.(rm_lists) -> get_res p m = Some r -> s <> SFree -> s' <> SFree ->
  exists m', list_move (add_to s') p m = Some m' /\ changes own p s s' r r m m' /\ m'.(rm_toks) = m.(rm_toks) /\
    m'.(rm_lists).(resources_free) = m.(rm_lists).(resources_free) /\
    m'.(resources_free_count) = m.(resources_free_count).
Proof.
  intros Hl Hp Hr Hs Hs'. destruct (list_del_removed p s m Hl Hp) as (m1 & E & Hrm & Eh & Et & Ec & Ef).
  unfold list_move. rw E. cbn. eexists. split; [done|]. cbn. split; [|split; [done|split; [|done]]].
  - split; try done.
    + by apply add_placed.
    + by rw Eh insert_get.
    + intros tk _. unfold get_tok. cbn. by rw Et.
    + intros tk _. unfold get_tok. cbn. by rw Et.
  - assert (Hf : resources_free (add_to s' p m1.(rm_lists)) = resources_free m1.(rm_lists)) by (by destruct s').
    rw Hf Ef. apply without_notin. intros Hin. apply Hs. by apply (lo_one _ Hl p s SFree).
Qed.

(** ** A section that changes one resource *)

Lemma res_step_ok c c' p s s' r r' m m' :
  inv strict m -> holds c m -> changes (c_key c) p s s' r r' m m' -> slot_ok strict m' s' p r' ->
  (forall tk pl, c.(c_tok) = Some (tk, pl) -> pl = Idle \/ pl = Adding p \/ pl = Holding p) ->
  (s' <> SFree -> (s <> SFree /\ res_names r' = res_names r) \/
     forall q s1 r1, q ∈ on s1 m.(rm_lists) -> s1 <> SFree -> get_res q m = Some r1 -> res_names r1 <> res_names r') ->
  Z.of_nat (length m'.(rm_lists).(resources_free)) <= m'.(resources_free_count) <= FREE_RES_COUNT ->
  (forall x, x ∈ r'.(rs_tokens) -> x ∈ r.(rs_tokens) \/ c_key c = Some x) ->
  (forall x, c_key c <> Some x -> x ∈ r.(rs_tokens) -> x ∈ r'.(rs_tokens) /\ s' = s) ->
  (s = SAdd -> r'.(rs_tokens) = r.(rs_tokens) \/ exists x, c_key c = Some x /\ x ∈ r.(rs_tokens)) ->
  (s = SRem -> c.(c_rem) = Some p \/ async_res r = true) ->
  holds c' m' -> c_key c' = c_key c ->
  (forall q, c'.(c_rem) = Some q -> c.(c_rem) = Some q \/ (q = p /\ (s <> SRem \/ async_res r = true))) ->
  inv strict m' /\ passes c c' m m'.
Proof.
  intros Hi Hh Hch Hs Hown Hn Hc Hsub Hkeep Hadd Hrem Hh' Hk Hr'. pose proof (inv_lists _ _ Hi) as Hl. split.
  { apply (inv_changes (c_key c) p s s' r r' m m'); try done. intros tk E q s1 r1.
    unfold c_key in E. destruct (c_tok c) as [[tk' pl]|] eqn:Et; [|done]. injection E as <-.
    apply (own_elsewhere c m tk' pl p); try done. by apply (Hown tk'). }
  split; [done|]. intros c2 [Hck Hcr] Hh2. split.
  - apply (holds_changes (c_key c) p s s' r r' m m'); try done. intros Es E Ha.
    destruct (Hrem Es) as [E'|E']; [by destruct (Hcr p E')|congruence].
  - split; [by rw Hk|]. intros q [E|[-> H]]%Hr'; [by apply Hcr|]. intros E2.
    destruct (h_rem _ _ Hh2 _ E2) as (Hq & r2 & Hr2 & Ha2). pose proof (ch_from Hch) as Hp.
    pose proof (ch_res Hch) as Hr. destruct H as [H|H]; [apply H; by apply (lo_one _ Hl p)|congruence].
Qed.
End safe.
