(* ===== verification/ResourceOps.v ===== *)
(** * Every operation on resources is safe

    The sections of [Resource], one lemma each, and the operations composed of them:
    none follows a dangling pointer or unlinks what is on no list, and each keeps the
    invariant of [ResourceLists] and the claims of all other threads. *)

From S2P Require Import Prelude OnDisk SizeFlags Timeouts Io DeltaLease PaxosBlocks PaxosBallot PaxosLease.
From S2P Require Import Lockspace HostStatus Clients ResourceDisk Resource ResourceLists.

Section ops.
Context (strict : bool).

Abbreviation inv := (inv strict).
Abbreviation safe := (safe strict).

(** The invariant and all claims. *)
Definition kept (c c' : claim) (m m' : resmgr) : Prop := inv m' /\ passes c c' m m'.

Lemma on_alloc m s p : inv m -> p ∈ on s m.(rm_lists) -> exists r, get_res p m = Some r.
Proof. intros Hi Hp. apply (inv_alloc _ _ Hi). by exists s. Qed.

(** ** Dropping a resource *)

Lemma drop_ok m p s :
  inv m -> p ∈ on s m.(rm_lists) -> s = SFree \/ s = SOrphan ->
  exists m', drop_res p m = Some m' /\ inv m' /\ (forall c, holds c m -> holds c m') /\
    removed p m.(rm_lists) m'.(rm_lists) /\ m'.(rm_heap) = delete p m.(rm_heap) /\ m'.(rm_toks) = m.(rm_toks) /\
    m'.(resources_free_count) = m.(resources_free_count) /\
    m'.(rm_lists).(resources_free) = without p m.(rm_lists).(resources_free).
Proof.
  intros Hi Hp Hs. pose proof (inv_lists _ _ Hi) as Hl.
  destruct (list_del_removed p s m Hl Hp) as (m1 & E & Hrm & Eh & Et & Ec & Ef).
  unfold drop_res. rw E. cbn. eexists. split; [done|]. cbn. rw Eh Et Ec Ef.
  assert (Hget : forall q, delete p m.(rm_heap) !! q = if bool_decide (q = p) then None else m.(rm_heap) !! q).
  { intros q. case_bool_decide; [subst; apply lookup_delete_eq|by rw lookup_delete_ne]. }
  assert (Hst : forall s1 q, q ∈ on s1 m.(rm_lists) -> s1 <> s -> q <> p).
  { intros s1 q Hq Hne ->. apply Hne. by apply (lo_one _ Hl p). }
  destruct Hrm as [Hok Hon]. split; [|split; [|split; [by split|by repeat split]]].
  - split; unfold get_res, get_tok; cbn.
    + done.
    + intros q. rw Hget. case_bool_decide as Eq.
      * subst. split; [by intros [? ?]|]. intros [s1 [? _]%Hon]. done.
      * rw (inv_alloc _ _ Hi q). split; intros [s1 Hq]; exists s1; [by apply Hon|by apply Hon in Hq as [_ ?]].
    + intros s1 q r [Hne Hq]%Hon. rw Hget bool_decide_eq_false_2 //. intros Hr.
      pose proof (inv_slots _ _ Hi s1 q r Hq Hr) as H. unfold slot_ok, linked, mode_ok, get_tok in *. cbn. by rw Et.
    + intros q1 q2 s1 s2 r1 r2 [Hn1 H1]%Hon [Hn2 H2]%Hon. rw !Hget !bool_decide_eq_false_2 //.
      by apply (inv_names _ _ Hi).
    + rw Ef Ec. pose proof (inv_count _ _ Hi). pose proof (list.length_filter (fun q => q <> p) m.(rm_lists).(resources_free)).
      unfold without. lia.
  - intros c Hh. split; unfold place_holds, get_res, get_tok; cbn.
    + intros tk pl E'. destruct (h_tok _ _ Hh tk pl E') as [Ha Hpl]. rw Et. split; [done|]. destruct pl as [|q|q].
      * intros q r. rw Hget. case_bool_decide; [done|]. by apply Hpl.
      * destruct Hpl as [Hq Hr]. assert (q <> p) by (apply (Hst SAdd); [done|by destruct Hs as [-> | ->]]).
        split; [by apply (Hon q SAdd)|]. by rw Hget bool_decide_eq_false_2.
      * destruct Hpl as [Hq Hr]. assert (q <> p) by (apply (Hst SHeld); [done|by destruct Hs as [-> | ->]]).
        split; [by apply (Hon q SHeld)|]. by rw Hget bool_decide_eq_false_2.
    + rw Et. apply (h_shared _ _ Hh).
    + intros q E'. destruct (h_rem _ _ Hh q E') as [Hq Hr].
      assert (q <> p) by (apply (Hst SRem); [done|by destruct Hs as [-> | ->]]).
      split; [by apply (Hon q SRem)|]. by rw Hget bool_decide_eq_false_2.
Qed.

(** ** Retiring a resource *)

Lemma victim_spec m l rmin :
  (forall p, p ∈ l -> exists r, get_res p m = Some r) ->
  exists v, free_victim m l rmin = Some v /\ (v = None -> l = []) /\
    (forall x, v = Some x -> x ∈ l \/ exists n, rmin = Some (x, n)).
Proof.
  revert rmin. induction l as [|p l IH]; intros rmin Ha; cbn.
  - eexists. split; [done|]. split; [done|]. intros x. destruct rmin as [[y n]|]; [|done]. intros [= <-]. eauto.
  - destruct (Ha p) as [r Hr]; [by left|]. rw Hr. cbn. destruct (rs_reused r =? 0).
    { eexists. split; [done|]. split; [done|]. intros x [= <-]. left. by left. }
    destruct (IH (match rmin with Some (_, n) => if rs_reused r <? n then Some (p, rs_reused r) else rmin
                  | None => Some (p, rs_reused r) end)) as (v & E & Hn & Hx); [intros q Hq; apply Ha; by right|].
    exists v. split; [done|]. split.
    + intros ->. specialize (Hn eq_refl) as ->. cbn in E. destruct rmin as [[y n]|]; [|done]. by destruct (_ <? n).
    + intros x Ex. destruct (Hx x Ex) as [H|[n H]]; [left; by right|]. destruct rmin as [[y n']|].
      * destruct (rs_reused r <? n'); injection H as <- <-; [left; by left|eauto].
      * injection H as <- _. left. by left.
Qed.

Lemma length_without p l : NoDup l -> p ∈ l -> S (length (without p l)) = length l.
Proof.
  unfold without. induction 1 as [|q l Hq Hl IH]; [by intros ?%not_elem_of_nil|]. intros [-> |Hp]%elem_of_cons.
  - rw filter_cons_False; [by intros H; apply H|]. f_equal. by rw (without_notin q l Hq : filter _ l = l).
  - rw filter_cons_True; [by intros ->|]. cbn. by rw IH.
Qed.

(** The state after [free_resource] of an unlinked resource: another free one may
    have been dropped before. *)
Lemma free_resource_ok m m1 p s r :
  inv m -> p ∈ on s m.(rm_lists) -> s <> SFree -> get_res p m = Some r -> list_del p m = Some m1 ->
  exists m0 m', free_resource p m1 = Some m' /\ inv m0 /\ (forall c, holds c m -> holds c m0) /\
    (forall own, changes own p s SFree r r m0 m') /\ m'.(rm_toks) = m0.(rm_toks) /\
    Z.of_nat (length m'.(rm_lists).(resources_free)) <= m'.(resources_free_count) <= FREE_RES_COUNT.
Proof.
  intros Hi Hp Hs Hr Ed. pose proof (inv_lists _ _ Hi) as Hl.
  destruct (list_del_removed p s m Hl Hp) as (m1' & E & Hrm & Eh & Et & Ec & Ef). rw Ed in E. injection E as <-.
  assert (Hnf : p ∉ m.(rm_lists).(resources_free)) by (intros H; apply Hs; by apply (lo_one _ Hl p s SFree)).
  rw without_notin // in Ef. pose proof (inv_count _ _ Hi) as Hc.
  assert (Hplain : forall n, exists m0 m', Some (m1 <| resources_free_count := n |> <| rm_lists := add_free p (rm_lists m1) |>) = Some m' /\ inv m0 /\
     (forall c, holds c m -> holds c m0) /\ (forall own, changes own p s SFree r r m0 m') /\ m'.(rm_toks) = m0.(rm_toks) /\
     m'.(rm_lists).(resources_free) = p :: m.(rm_lists).(resources_free) /\ m'.(resources_free_count) = n).
  { intros n. exists m. eexists. split; [done|]. split; [done|]. split; [done|]. cbn. split.
    - intros own. split; try done; cbn.
      + by apply (add_placed p SFree). + by rw Eh insert_get.
      + intros tk _. unfold get_tok. cbn. by rw Et. + intros tk _. unfold get_tok. cbn. by rw Et.
    - split; [done|]. by rw Ef. }
  unfold free_resource. rw Ec. destruct (Z.ltb_spec m.(resources_free_count) FREE_RES_COUNT) as [Hlt|Hge].
  { destruct (Hplain (m.(resources_free_count) + 1)) as (m0 & m' & E & H1 & H2 & H3 & H4 & H5 & H6).
    exists m0, m'. rw H5 H6. split; [exact E|]. repeat (split; [done|]). cbn. lia. }
  destruct (victim_spec m1 (reverse m1.(rm_lists).(resources_free)) None) as (v & Ev & Hnone & Hx).
  { intros q Hq. rw elem_of_reverse Ef in Hq. unfold get_res. rw Eh. exact (on_alloc m SFree q Hi Hq). }
  rw Ev. cbn. destruct v as [v|].
  - destruct (Hx v eq_refl) as [Hv|[n H]]; [|done]. rw elem_of_reverse Ef in Hv.
    destruct (drop_ok m v SFree Hi Hv) as (m0 & Ed0 & Hi0 & Hh0 & Hrm0 & Eh0 & Et0 & Ec0 & Ef0); [by left|].
    assert (Hvp : v <> p) by (by intros ->).
    assert (Hl1 : lists_ok m1.(rm_lists)) by apply Hrm.
    destruct (list_del_removed v SFree m1 Hl1) as (m2 & E2 & Hrm2 & Eh2 & Et2 & Ec2 & Ef2); [cbn; by rw Ef|].
    unfold drop_res. rw E2. cbn. eexists m0, _. split; [done|]. split; [done|]. split; [done|]. cbn. split.
    + intros own. split; try done; cbn.
      * apply Hrm0. split; [by apply not_eq_sym|done].
      * unfold get_res. rw Eh0. by rw lookup_delete_ne.
      * apply (add_placed p SFree). split; [apply Hrm2|]. intros q s1.
        rw (proj2 Hrm2) (proj2 Hrm) (proj2 Hrm0). tauto.
      * rw Eh2 Eh Eh0. by rw insert_id; [by rw lookup_delete_ne|].
      * intros tk _. unfold get_tok. cbn. by rw Et2 Et Et0.
      * intros tk _. unfold get_tok. cbn. by rw Et2 Et Et0.
    + rw Et2 Et Et0 Ec2 Ec. split; [done|]. rw Ef2 Ef.
      pose proof (length_without v m.(rm_lists).(resources_free) (lo_nodup _ Hl SFree) Hv). cbn. lia.
  - specialize (Hnone eq_refl). apply (f_equal reverse) in Hnone. rw reverse_involutive Ef in Hnone.
    destruct (Hplain m1.(resources_free_count)) as (m0 & m' & E & H1 & H2 & H3 & H4 & H5 & H6).
    exists m0, m'. rw H5 H6 Hnone Ec. split; [by destruct m1|]. repeat (split; [done|]). unfold FREE_RES_COUNT in *. cbn. lia.
Qed.

Lemma kept_trans c c1 c2 m m1 m2 : kept c c1 m m1 -> kept c1 c2 m1 m2 -> kept c c2 m m2.
Proof. intros [_ H1] [Hi H2]. split; [done|]. by apply (passes_trans c c1 c2 m m1 m2). Qed.

(** The invariant and the claims are about four fields. *)
Definition same_core (m m' : resmgr) : Prop :=
  m'.(rm_heap) = m.(rm_heap) /\ m'.(rm_toks) = m.(rm_toks) /\ m'.(rm_lists) = m.(rm_lists) /\
  m'.(resources_free_count) = m.(resources_free_count).

Lemma inv_core m m' : same_core m m' -> inv m -> inv m'.
Proof.
  intros (Eh & Et & El & Ec) [H1 H2 H3 H4 H5].
  split; unfold slot_ok, linked, mode_ok, get_res, get_tok in *; by rw ?Eh ?Et ?El ?Ec.
Qed.

Lemma holds_core c m m' : same_core m m' -> holds c m -> holds c m'.
Proof.
  intros (Eh & Et & El & Ec) [H1 H2 H3].
  split; unfold place_holds, get_res, get_tok in *; by rw ?Eh ?Et ?El.
Qed.

Lemma kept_core c c' m m1 m2 : same_core m1 m2 -> kept c c' m m1 -> kept c c' m m2.
Proof.
  intros Hs [Hi [Hh Hp]]. split; [by apply (inv_core m1)|]. split; [by apply (holds_core _ m1)|].
  intros c2 Hc Hh2. destruct (Hp c2 Hc Hh2). split; [by apply (holds_core _ m1)|done].
Qed.

(** A claim without a resource to release, whose token is on no list. *)
Definition idle (c : claim) : Prop := c.(c_rem) = None /\ forall tk pl, c.(c_tok) = Some (tk, pl) -> pl = Idle.
Definition unclaim (c : claim) : claim := Claim c.(c_tok) c.(c_shared) None.

Lemma holds_unclaim c m : holds c m -> holds (unclaim c) m.
Proof. intros Hh. by split; destruct Hh. Qed.

Lemma retire_ok c p s r m :
  inv m -> holds c m -> p ∈ on s m.(rm_lists) -> s <> SFree -> get_res p m = Some r -> r.(rs_tokens) = [] ->
  (s = SRem -> c.(c_rem) = Some p \/ async_res r = true) -> idle (unclaim c) ->
  exists m', retire p m = Some m' /\ kept c (unclaim c) m m'.
Proof.
  intros Hi Hh Hp Hs Hr Ht Hrem [_ Hid].
  destruct (list_del_removed p s m (inv_lists _ _ Hi) Hp) as (m1 & Ed & _).
  destruct (free_resource_ok m m1 p s r Hi Hp Hs Hr Ed) as (m0 & m' & E & Hi0 & Hh0 & Hch & Etk & Hc).
  exists m'. unfold retire. rw Ed. cbn. split; [done|].
  apply (kept_trans c c (unclaim c) m m0 m').
  { split; [done|]. split; [by apply Hh0|]. intros c2 Hc2 Hh2. split; [by apply Hh0|done]. }
  apply (res_step_ok strict c (unclaim c) p s SFree r r m0 m'); try done.
  - by apply Hh0. - intros tk pl E'. left. by apply (Hid tk). - rw Ht. by left.
  - rw Ht. by intros x _ ?%not_elem_of_nil. - by left.
  - apply (holds_changes None p s SFree r r m0 m'); try done.
    + by apply (inv_lists _ _ Hi0). + apply holds_unclaim. by apply Hh0.
    + rw Ht. by left. + rw Ht. by intros x _ ?%not_elem_of_nil. + by left.
Qed.

(** Unlinking a resource that was just moved. *)
Lemma list_del_move s p m m1 : list_move (add_to s) p m = Some m1 -> list_del p m1 = list_del p m.
Proof.
  unfold list_move, list_del, unlink. case_bool_decide; [|done]. cbn. intros [= <-]. cbn.
  rw bool_decide_eq_true_2. { rw !elem_of_app. destruct s; cbn; rw elem_of_cons; tauto. }
  assert (Hw : forall l, without p (without p l) = without p l).
  { intros l. apply without_notin. rw elem_without. tauto. }
  assert (Hc : forall l, without p (p :: without p l) = without p l).
  { intros l. rw -{2}(Hw l). unfold without. rw filter_cons_False; [by intros Hn; apply Hn|done]. }
  destruct s; cbn; by rw Hc !Hw.
Qed.

(** ** Unlinking a token *)

(** The thread's token is on the list of [p]. *)
Definition linked_to (c : claim) (tk p : addr) : Prop :=
  c.(c_rem) = None /\ (c.(c_tok) = Some (tk, Holding p) \/ c.(c_tok) = Some (tk, Adding p)).
Definition unlinked (c : claim) (tk : addr) (rem : option addr) : claim := Claim (Some (tk, Idle)) c.(c_shared) rem.

Lemma linked_get c tk p m :
  inv m -> holds c m -> linked_to c tk p ->
  exists s r t, (s = SHeld \/ s = SAdd) /\ p ∈ on s m.(rm_lists) /\ get_res p m = Some r /\ tk ∈ r.(rs_tokens) /\
    get_tok tk m = Some t /\ t.(mt_resource) = Some p /\ tok_names t = res_names r.
Proof.
  intros Hi Hh [_ [E|E]]; destruct (h_tok _ _ Hh _ _ E) as [_ (Hp & r & Hr & Ht)].
  - destruct (linked_tok strict m SHeld p r tk Hi Hp Hr Ht) as [_ (t & Ht' & Er & En)]. exists SHeld, r, t. tauto.
  - assert (Hin : tk ∈ r.(rs_tokens)) by (rw Ht; by left).
    destruct (linked_tok strict m SAdd p r tk Hi Hp Hr Hin) as [_ (t & Ht' & Er & En)]. exists SAdd, r, t. tauto.
Qed.

(** The state after the token left [p], which went to [s'] if it was the last one and
    had [f] applied to it. *)
Lemma unlink_token_ok c tk p s s' r f m m' rem :
  inv m -> holds c m -> linked_to c tk p -> s = SHeld \/ s = SAdd ->
  let r' := f (r <| rs_tokens := without tk r.(rs_tokens) |>) in
  changes None p s s' r r' m m' -> m'.(rm_toks) = m.(rm_toks) ->
  Z.of_nat (length m'.(rm_lists).(resources_free)) <= m'.(resources_free_count) <= FREE_RES_COUNT ->
  tk ∈ r.(rs_tokens) -> r'.(rs_tokens) = without tk r.(rs_tokens) -> res_names r' = res_names r ->
  (without tk r.(rs_tokens) = [] /\ (s' = SRem \/ s' = SOrphan)) \/
    (without tk r.(rs_tokens) <> [] /\ s' = s /\ shared_res r' = shared_res r) ->
  (s' <> SRem -> async_res r' = async_res r) ->
  rem = (if bool_decide (without tk r.(rs_tokens) = [] /\ s' = SRem /\ async_res r' = false) then Some p else None) ->
  kept c (unlinked c tk rem) m m'.
Proof.
  intros Hi Hh Hlk Hs r' Hch Etk Hc Hin Et En Hslot Has Erem. clearbody r'. pose proof (ch_from Hch) as Hp. pose proof (ch_res Hch) as Hr.
  assert (Hk : c_key c = Some tk) by (unfold c_key; destruct Hlk as [_ [-> | ->]]; done).
  assert (Ha : async_res r = false).
  { destruct (inv_slots _ _ Hi s p r Hp Hr) as [_ H]. by destruct Hs as [-> | ->]. }
  assert (Hch' : changes (c_key c) p s s' r r' m m').
  { destruct Hch as [H1 H2 H3 H4 H5 H6]. split; try done; unfold get_tok; by rw Etk. }
  apply (res_step_ok strict c (unlinked c tk rem) p s s' r r' m m'); try done.
  - destruct (inv_slots _ _ Hi s p r Hp Hr) as [Hso _]. destruct Hslot as [[Enil Hs']|(Enil & -> & Esh)].
    + destruct Hs' as [-> | ->]; split; rw ?Et ?Enil; try done. by rw Has.
    + assert (Hl : linked m p r -> linked m' p r').
      { intros (Hn & _ & Ht). split; [rw Et; by apply list.NoDup_filter|]. split; [by rw Et|].
        intros x. rw Et elem_without. intros [_ Hx]. unfold get_tok. rw Etk En. by apply Ht. }
      destruct Hs as [-> | ->]; split; rw ?Has; try done.
      * destruct Hso as [Hlk' Hm]. split; [by apply Hl|]. intros Est. specialize (Hm Est). unfold mode_ok, get_tok in *.
        rw Esh Et Etk. destruct (shared_res r); [intros x t [_ Hx]%elem_without; by apply Hm|].
        pose proof (list.length_filter (fun q => q <> tk) r.(rs_tokens)). unfold without. lia.
      * exfalso. destruct Hso as (_ & _ & Hlen). destruct r.(rs_tokens) as [|x [|y l]] eqn:El; try done.
        apply list_elem_of_singleton in Hin as ->. apply Enil. unfold without.
        by rw filter_cons_False; [intros H; apply H|].
  - intros x pl E. destruct Hlk as [_ [E'|E']]; rw E' in E; injection E as <- <-; auto.
  - intros _. left. split; [by destruct Hs as [-> | ->]|done].
  - intros x. rw Et elem_without. tauto.
  - intros x Hx Hin'. rw Et elem_without. assert (x <> tk) by (intros ->; by apply Hx). split; [done|].
    destruct Hslot as [[Enil _]|?]; [|tauto]. exfalso. apply (not_elem_of_nil x). rw -Enil. by apply elem_without.
  - intros _. right. by exists tk.
  - intros ->. by destruct Hs.
  - split.
    + intros x pl [= <- <-]. split.
      * destruct (linked_get c tk p m Hi Hh Hlk) as (_ & _ & t & _ & _ & _ & _ & Ht & _). unfold get_tok. rw Etk. by exists t.
      * intros q r1. rw (ch_get Hch). destruct (bool_decide_reflect (q = p)) as [Eq|Eq].
        -- intros [= <-]. rw Et elem_without. tauto.
        -- intros Hr1. assert (is_Some (get_res q m)) as [s1 Hq]%(inv_alloc _ _ Hi) by (by exists r1).
           destruct Hlk as [_ [E|E]].
           ++ apply (own_elsewhere strict c m tk (Holding p) p Hi Hh E ltac:(auto) q s1 r1); done.
           ++ apply (own_elsewhere strict c m tk (Adding p) p Hi Hh E ltac:(auto) q s1 r1); done.
    + intros x t Esh [= <-]. unfold get_tok. rw Etk. by apply (h_shared _ _ Hh).
    + intros q Eq. cbn in Eq. rw Erem in Eq. case_bool_decide as Hb; [|done]. injection Eq as <-. destruct Hb as (_ & -> & Hb).
      split; [apply (ch_on Hch); by left|]. exists r'. split; [apply (ch_get_p Hch)|done].
  - intros q Eq. cbn in Eq. rw Erem in Eq. case_bool_decide; [|done]. injection Eq as <-. right. split; [done|]. left.
    by destruct Hs as [-> | ->].
Qed.

Lemma del_token_in tk r : tk ∈ r.(rs_tokens) -> del_token tk r = Some (r <| rs_tokens := without tk r.(rs_tokens) |>).
Proof. intros H. unfold del_token. by rw bool_decide_eq_true_2. Qed.

Lemma count_kept m m' :
  inv m -> m'.(rm_lists).(resources_free) = m.(rm_lists).(resources_free) ->
  m'.(resources_free_count) = m.(resources_free_count) ->
  Z.of_nat (length m'.(rm_lists).(resources_free)) <= m'.(resources_free_count) <= FREE_RES_COUNT.
Proof. intros Hi -> ->. apply (inv_count _ _ Hi). Qed.

(** Taking the last token off a resource and moving it. *)
Lemma move_last_ok c tk p s s' r f m rem :
  inv m -> holds c m -> linked_to c tk p -> s = SHeld \/ s = SAdd -> p ∈ on s m.(rm_lists) -> get_res p m = Some r ->
  tk ∈ r.(rs_tokens) -> without tk r.(rs_tokens) = [] -> s' = SRem \/ s' = SOrphan ->
  (forall r, (f r).(rs_tokens) = r.(rs_tokens) /\ res_names (f r) = res_names r) ->
  (s' = SOrphan -> forall r, async_res (f r) = async_res r) ->
  rem = (if bool_decide (s' = SRem /\ async_res (f (r <| rs_tokens := [] |>)) = false) then Some p else None) ->
  exists m1 m', upd_res p (fun _ => f (r <| rs_tokens := without tk r.(rs_tokens) |>)) m = Some m1 /\
    list_move (add_to s') p m1 = Some m' /\ kept c (unlinked c tk rem) m m' /\
    get_res p m' = Some (f (r <| rs_tokens := [] |>)) /\ p ∈ on s' m'.(rm_lists).
Proof.
  intros Hi Hh Hlk Hs Hp Hr Hin Enil Hs' Hf Ha Erem. set (r' := f (r <| rs_tokens := without tk r.(rs_tokens) |>)).
  destruct (upd_res_changes None p s r (fun _ => r') m (inv_lists _ _ Hi) Hp Hr) as (m1 & E1 & Hch1 & Ht1 & Hl1 & Hc1).
  assert (Hns : s <> SFree) by (by destruct Hs as [-> | ->]). assert (Hns' : s' <> SFree) by (by destruct Hs' as [-> | ->]).
  destruct (list_move_changes None p s s' r' m1) as (m' & E2 & Hch2 & Ht2 & Hf2 & Hc2); try done.
  { rw Hl1. apply (inv_lists _ _ Hi). } { by rw Hl1. } { apply (ch_get_p Hch1). }
  pose proof (changes_trans None p s s s' r r' r' m m1 m' Hch1 Hch2) as Hch.
  exists m1, m'. split; [done|]. split; [done|]. split; [|split; [|apply (ch_on Hch); by left]].
  - apply (unlink_token_ok c tk p s s' r f m m' rem); try done.
    + by rw Ht2 Ht1. + apply (count_kept m); [done|by rw Hf2 Hl1|by rw Hc2 Hc1]. + by rw (proj1 (Hf _)). + by rw (proj2 (Hf _)). + by left.
    + intros Hne. destruct Hs' as [-> | ->]; [done|]. by rw (Ha eq_refl).
    + rw Erem Enil. destruct (decide (s' = SRem /\ async_res (f (r <| rs_tokens := [] |>)) = false)) as [Hd|Hd].
      * by rw !bool_decide_eq_true_2.
      * rw !bool_decide_eq_false_2 //. by intros [_ ?].
  - rw (ch_get_p Hch). unfold r'. by rw Enil.
Qed.

(** The first section of a release. *)
Lemma safe_release_unlink c tk p (Q : addr * bool * Z -> claim -> Prop) :
  linked_to c tk p -> (forall flags, Q (p, true, flags) (unlinked c tk (Some p))) ->
  (forall flags, Q (p, false, flags) (unlinked c tk None)) ->
  safe (sec (fun m => t ← get_tok tk m; p ← t.(mt_resource); u ← release_unlink tk p m;
                      let '(last, lver, flags, m) := u in Some (p, last, flags, m))) Q c.
Proof.
  intros Hlk HQ1 HQ2. apply safe_sec. intros m Hi Hh.
  destruct (linked_get c tk p m Hi Hh Hlk) as (s & r & t & Hs & Hp & Hr & Hin & Ht & Er & En).
  rw Ht. cbn. rw Er. cbn. unfold release_unlink. rw Hr. cbn. rw (del_token_in tk r Hin). cbn.
  destruct (without tk r.(rs_tokens)) as [|y l] eqn:El.
  - assert (Ha : async_res r = false).
    { destruct (inv_slots _ _ Hi s p r Hp Hr) as [_ H]. by destruct Hs as [-> | ->]. }
    destruct (move_last_ok c tk p s SRem r (fun r => r) m (Some p)) as (m1 & m' & E1 & E2 & Hk & _); try done.
    { by left. } { by rw bool_decide_eq_true_2. }
    rw El in E1. rw E1. cbn in E2 |- *. rw E2. cbn. eexists _, m', _. split; [done|]. destruct Hk. by split; [|split].
  - destruct (upd_res_changes None p s r (fun _ => r <| rs_tokens := y :: l |>) m (inv_lists _ _ Hi) Hp Hr)
      as (m1 & E1 & Hch1 & Ht1 & Hl1 & Hc1).
    rw E1. cbn. eexists _, m1, (unlinked c tk None). split; [done|].
    destruct (unlink_token_ok c tk p s s r (fun r => r) m m1 None) as [H1 H2]; try done; rw ?El; try done.
    + apply (count_kept m); [done|by rw Hl1|done].
    + right. done.
Qed.

(** ** The end of a release *)

Lemma changes_own own p s s' r r' m m' :
  m'.(rm_toks) = m.(rm_toks) -> changes None p s s' r r' m m' -> changes own p s s' r r' m m'.
Proof. intros Et [H1 H2 H3 H4 H5 H6]. split; try done; unfold get_tok; by rw Et. Qed.

(** A change of a resource on [resources_rem] that is this thread's, or that waits for
    the resource thread. *)
Lemma rem_change_ok c c' p r f m :
  inv m -> holds c m -> p ∈ on SRem m.(rm_lists) -> get_res p m = Some r -> idle (unclaim c) ->
  (f r).(rs_tokens) = r.(rs_tokens) -> res_names (f r) = res_names r ->
  c.(c_rem) = Some p \/ async_res r = true -> c_tok c' = c_tok c -> c_shared c' = c_shared c ->
  (c'.(c_rem) = None \/ (c'.(c_rem) = Some p /\ async_res (f r) = false)) ->
  exists m', upd_res p f m = Some m' /\ kept c c' m m'.
Proof.
  intros Hi Hh Hp Hr [_ Hid] Et En Hown Etok Esh Hrem.
  destruct (upd_res_changes None p SRem r f m (inv_lists _ _ Hi) Hp Hr) as (m' & E & Hch & Htk & Hli & Hc).
  exists m'. split; [done|]. destruct (inv_slots _ _ Hi SRem p r Hp Hr) as [Hnil _].
  assert (Hh' : holds (Claim (c_tok c') (c_shared c') None) m').
  { apply (holds_changes None p SRem SRem r (f r) m m'); try done.
    - by apply (inv_lists _ _ Hi). - rw Etok Esh. by apply holds_unclaim.
    - rw Et. by left. - by rw Et. }
  apply (res_step_ok strict c c' p SRem SRem r (f r) m m'); try done.
  - by apply changes_own. - by rw /slot_ok Et. - intros tk pl E'. left. by apply (Hid tk).
  - intros _. by left. - apply (count_kept m); [done|by rw Hli|done]. - rw Et. by left. - by rw Et.
  - split; [apply Hh'|apply Hh'|]. intros q Eq. destruct Hrem as [Hn|[Hn Ha]]; rw Hn in Eq; [done|]. injection Eq as <-.
    split; [by rw Hli|]. exists (f r). split; [apply (ch_get_p Hch)|done].
  - unfold c_key. by rw Etok.
  - intros q Eq. destruct Hrem as [Hn|[Hn Ha]]; rw Hn in Eq; [done|]. injection Eq as <-. destruct Hown; auto.
Qed.

Lemma safe_hand_over c p (Q : unit -> claim -> Prop) :
  c.(c_rem) = Some p -> idle (unclaim c) -> Q tt (unclaim c) -> safe (set_res p (add_rflags R_THREAD_RELEASE)) Q c.
Proof.
  intros Ec Hid HQ. apply safe_sec. intros m Hi Hh. destruct (h_rem _ _ Hh _ Ec) as (Hp & r & Hr & Ha).
  destruct (rem_change_ok c (unclaim c) p r (add_rflags R_THREAD_RELEASE) m) as (m' & E & Hi' & Hps); auto.
  exists tt, m', (unclaim c). by rw E.
Qed.

Lemma safe_retire c p (Q : unit -> claim -> Prop) :
  c.(c_rem) = Some p -> idle (unclaim c) -> Q tt (unclaim c) ->
  safe (sec (fun m => m ← retire p m; Some (tt, m))) Q c.
Proof.
  intros Ec Hid HQ. apply safe_sec. intros m Hi Hh. destruct (h_rem _ _ Hh _ Ec) as (Hp & r & Hr & Ha).
  destruct (inv_slots _ _ Hi SRem p r Hp Hr) as [Hnil _].
  destruct (retire_ok c p SRem r m) as (m' & E & Hi' & Hps); auto. exists tt, m', (unclaim c). by rw E.
Qed.

Lemma safe_release_out c p ret retry (Q : Z -> claim -> Prop) :
  c.(c_rem) = Some p -> idle (unclaim c) -> (forall rv, Q rv (unclaim c)) -> safe (release_out p ret retry) Q c.
Proof.
  intros Ec Hid HQ. unfold release_out. destruct retry; apply safe_bind.
  - apply safe_hand_over; auto. apply HQ.
  - apply safe_retire; auto. apply HQ.
Qed.

(** ** Opening and closing the disks of a token *)

Lemma safe_put_disks c tk pl ds (Q : unit -> claim -> Prop) :
  c.(c_tok) = Some (tk, pl) -> Q tt c -> safe (set_tok tk (put_disks ds)) Q c.
Proof. intros E HQ. by apply (safe_set_tok strict c tk pl). Qed.

Lemma safe_tok_open opener c tk pl (Q : Z -> claim -> Prop) :
  c.(c_tok) = Some (tk, pl) -> (forall rv, Q rv c) -> safe (tok_open opener tk) Q c.
Proof.
  intros E HQ. apply safe_bind, (safe_read_tok strict c tk pl _ E). intros t.
  apply safe_bind, safe_disk. intros o. apply safe_bind. apply (safe_put_disks c tk pl _ _ E). apply HQ.
Qed.

Lemma safe_tok_close c tk pl (Q : unit -> claim -> Prop) :
  c.(c_tok) = Some (tk, pl) -> Q tt c -> safe (tok_close tk) Q c.
Proof.
  intros E HQ. apply safe_bind, (safe_read_tok strict c tk pl _ E). intros t.
  apply safe_bind, safe_disk. intros ds. by apply (safe_put_disks c tk pl).
Qed.

(** ** Releasing a token *)

Lemma put_released_links o r : same_links r (put_released o r).
Proof.
  unfold put_released. destruct (rl_lvb_written o); [|done]. split; [done|]. split; [done|].
  unfold async_res, clear_rflags. cbn. by rw has_flag_clear_other.
Qed.

Lemma put_released_mode o r : shared_res (put_released o r) = shared_res r.
Proof.
  unfold put_released. destruct (rl_lvb_written o); [|done].
  unfold shared_res, clear_rflags. cbn. by rw has_flag_clear_other.
Qed.

Context (junk : leader_record).

Lemma safe_release_last c tk p resrename opened (Q : Z -> claim -> Prop) :
  c.(c_tok) = Some (tk, Idle) -> c.(c_rem) = Some p -> (forall rv, Q rv (unclaim c)) ->
  safe (release_last junk tk p resrename opened) Q c.
Proof.
  intros Et Er HQ. assert (Hid : idle (unclaim c)) by (split; [done|]; cbn; rw Et; by intros x pl [= _ <-]).
  unfold release_last. apply safe_bind.
  assert (H : forall rv, safe (if rv <? 0 then release_out p rv false
     else t ← read_tok tk; r ← read_res p; o ← disk (release_disks junk t.(mt_tok) r resrename);
          set_res p (put_released o);; tok_close tk;; release_out p o.(rl_ret) o.(rl_retry)) Q c).
  { intros rv. destruct (rv <? 0); [by apply safe_release_out|].
    apply safe_bind, (safe_read_tok strict c tk Idle _ Et). intros t.
    apply safe_bind, safe_read_res; [by right; right|]. intros r.
    apply safe_bind, safe_disk. intros o. apply safe_bind, safe_set_res.
    - by right; right. - apply put_released_links. - left. apply put_released_mode.
    - apply safe_bind, (safe_tok_close c tk Idle _ Et). by apply safe_release_out. }
  destruct opened; [exact (H 0)|]. by apply (safe_tok_open _ c tk Idle).
Qed.

Lemma safe__release_token c tk p resrename opened nodisk (Q : Z -> claim -> Prop) :
  linked_to c tk p -> (forall rv, Q rv (unlinked c tk None)) ->
  safe (_release_token junk tk resrename opened nodisk) Q c.
Proof.
  intros Hlk HQ. unfold _release_token. apply safe_bind, (safe_release_unlink c tk p _ Hlk); intros flags.
  - rw andb_false_r. cbn [negb]. apply safe_bind, (safe_read_tok strict _ tk Idle); [done|]. intros t.
    assert (Hout : forall ret, safe (release_out p ret false) Q (unlinked c tk (Some p))).
    { intros ret. apply safe_release_out; [done| |apply HQ]. split; [done|]. by intros x pl [= _ <-]. }
    destruct (nz _); [apply safe_bind, (safe_tok_close _ tk Idle); [done|apply Hout]|].
    destruct nodisk; [apply Hout|]. by apply safe_release_last.
  - destruct (_ && _); cbn [negb]; apply safe_bind, (safe_tok_close _ tk Idle); try done; apply HQ.
Qed.

Lemma safe_release_token c tk p resrename (Q : Z -> claim -> Prop) :
  linked_to c tk p -> (forall rv, Q rv (unlinked c tk None)) -> safe (release_token junk tk resrename) Q c.
Proof. apply safe__release_token. Qed.

Lemma safe_release_token_async c tk p (Q : unit -> claim -> Prop) :
  linked_to c tk p -> Q tt (unlinked c tk None) -> safe (release_token_async tk) Q c.
Proof.
  intros Hlk HQ. apply safe_sec. intros m Hi Hh.
  destruct (linked_get c tk p m Hi Hh Hlk) as (s & r & t & Hs & Hp & Hr & Hin & Ht & Er & En).
  unfold release_async_section. rw Ht. cbn. rw Er. cbn. rw Hr. cbn. rw (del_token_in tk r Hin). cbn.
  destruct (without tk r.(rs_tokens)) as [|y l] eqn:El.
  - assert (Ha : async_res r = false).
    { destruct (inv_slots _ _ Hi s p r Hp Hr) as [_ H]. by destruct Hs as [-> | ->]. }
    destruct (nz _ || _); [|destruct (has_flag _ _)].
    + destruct (move_last_ok c tk p s SRem r (fun r => r) m (Some p)) as (m1 & m' & E1 & E2 & Hk & Hr' & Hp'); auto.
      { by rw bool_decide_eq_true_2. }
      rw El in E1. rw E1. cbn. unfold retire. rw -(list_del_move SRem p m1 m' E2).
      destruct (retire_ok (unlinked c tk (Some p)) p SRem _ m' (proj1 Hk) (proj1 (proj2 Hk)) Hp' ltac:(done) Hr')
        as (m2 & E3 & Hk2); auto. { split; [done|]. by intros x pl [= _ <-]. }
      unfold retire in E3. rw E3. cbn. eexists tt, m2, (unlinked c tk None). split; [done|].
      pose proof (kept_trans _ _ _ _ _ _ Hk Hk2) as [H1 H2]. done.
    + destruct (move_last_ok c tk p s SOrphan r (fun r => r) m None) as (m1 & m' & E1 & E2 & Hk & _); auto.
      rw El in E1. rw E1. cbn in E2 |- *. rw E2. cbn. eexists tt, m', _. split; [done|]. destruct Hk. by split.
    + destruct (move_last_ok c tk p s SRem r (add_rflags R_THREAD_RELEASE) m None) as (m1 & m' & E1 & E2 & Hk & _); auto; [done|..].
      { case_bool_decide as Hb; [|done]. destruct Hb as [_ Hb].
        unfold async_res in Hb. cbn in Hb. by rw has_flag_lor orb_true_r in Hb. }
      rw El in E1. unfold upd_res in *. rw Hr in E1 |- *. cbn in *. injection E1 as <-.
      unfold get_res. cbn. rw lookup_insert_eq. cbn. rw insert_insert_eq.
      unfold list_move, list_del in *. cbn in E2 |- *. destruct (unlink p (rm_lists m)) as [l|]; [|done].
      cbn in E2 |- *. injection E2 as <-. eexists tt, _, (unlinked c tk None). split; [done|].
      edestruct kept_core as [H1 H2]; [|exact Hk|by split]. done.
  - destruct (upd_res_changes None p s r (fun _ => r <| rs_tokens := y :: l |>) m (inv_lists _ _ Hi) Hp Hr)
      as (m1 & E1 & Hch1 & Ht1 & Hl1 & Hc1).
    rw E1. cbn. eexists tt, m1, (unlinked c tk None). split; [done|].
    destruct (unlink_token_ok c tk p s s r (fun r => r) m m1 None) as [H1 H2]; try done; rw ?El; try done.
    + apply (count_kept m); [done|by rw Hl1|done].
    + right. done.
Qed.
End ops.
