(* ===== verification/ResourceAcquire.v ===== *)
(** * Acquiring and converting are safe

    The search and the linking of [acquire_token], the rest of it, and
    [convert_token], in the logic of [ResourceLists]. *)

From S2P Require Import Prelude OnDisk SizeFlags Timeouts Io DeltaLease PaxosBlocks PaxosBallot PaxosLease.
From S2P Require Import Lockspace HostStatus Clients ResourceDisk Resource ResourceLists ResourceOps.

Section acquire.
Context (strict : bool).

Abbreviation inv := (inv strict).
Abbreviation safe := (safe strict).
Abbreviation kept := (kept strict).

(** ** Searching *)

Lemma find_resource_ok m t l :
  (forall p, p ∈ l -> exists r, get_res p m = Some r) ->
  exists o, find_resource m t l = Some o /\
    match o with
    | Some p => p ∈ l /\ exists r, get_res p m = Some r /\ res_names r = names t.(t_lockspace_name) t.(t_name)
    | None => forall p r, p ∈ l -> get_res p m = Some r -> res_names r <> names t.(t_lockspace_name) t.(t_name)
    end.
Proof.
  induction l as [|p l IH]; intros Ha; cbn; [exists None; split; [done|]; by intros p r ?%not_elem_of_nil|].
  destruct (Ha p) as [r Hr]; [by left|]. rw Hr. cbn. rw same_names_spec. case_bool_decide as En.
  - exists (Some p). split; [done|]. split; [by left|]. by exists r.
  - destruct IH as (o & E & Ho); [intros q Hq; apply Ha; by right|]. exists o. split; [done|]. destruct o as [q|].
    + destruct Ho as [Hq ?]. split; [by right|done].
    + intros q rq [-> |Hq]%elem_of_cons Hrq; [congruence|by apply (Ho q)].
Qed.

Lemma find_on m t s : inv m -> exists o, find_resource m t (on s m.(rm_lists)) = Some o /\
    match o with
    | Some p => p ∈ on s m.(rm_lists) /\ exists r, get_res p m = Some r /\ res_names r = names t.(t_lockspace_name) t.(t_name)
    | None => forall p r, p ∈ on s m.(rm_lists) -> get_res p m = Some r -> res_names r <> names t.(t_lockspace_name) t.(t_name)
    end.
Proof. intros Hi. apply find_resource_ok. intros p. by apply (on_alloc strict). Qed.

(** ** Linking a token *)

Definition linked_claim (c : claim) (tk p : addr) (s : slot) : claim :=
  Claim (Some (tk, match s with SAdd => Adding p | _ => Holding p end)) c.(c_shared) None.

(** Where a token can be linked: to a shared resource that is held, to an orphan that
    becomes held or is new, to a free resource. *)
Definition link_slots (s s' : slot) : Prop :=
  (s = SHeld /\ s' = SHeld) \/ (s = SOrphan /\ s' = SHeld) \/ (s = SOrphan /\ s' = SAdd) \/ (s = SFree /\ s' = SAdd).

Lemma add_linked m m' p r r' tk t' :
  r.(rs_tokens) = [] \/ (linked m p r /\ res_names r' = res_names r) -> tk ∉ r.(rs_tokens) -> r'.(rs_tokens) = tk :: r.(rs_tokens) ->
  (forall x, x ∈ r.(rs_tokens) -> get_tok x m' = get_tok x m) -> get_tok tk m' = Some t' -> t'.(mt_resource) = Some p ->
  tok_names t' = res_names r' -> linked m' p r'.
Proof.
  intros Hr Hni Et Htoks Ht Eres Enm. split; [|split; [by rw Et|]].
  - rw Et. constructor; [done|]. destruct Hr as [-> |[[Hnd _] _]]; [constructor|done].
  - intros x. rw Et elem_of_cons. intros [-> |Hx]; [by exists t'|].
    destruct Hr as [E|[(_ & _ & Hl) En]]; [rw E in Hx; by apply not_elem_of_nil in Hx|].
    destruct (Hl x Hx) as (tx & Hx' & Ex & Enx). exists tx. rw Htoks //. by rw En.
Qed.

Lemma link_ok c tk p s s' r r' m m' t t' :
  inv m -> holds c m -> c.(c_tok) = Some (tk, Idle) -> c.(c_rem) = None -> link_slots s s' ->
  changes (Some tk) p s s' r r' m m' -> r'.(rs_tokens) = tk :: r.(rs_tokens) -> async_res r' = false ->
  get_tok tk m = Some t -> get_tok tk m' = Some t' -> t'.(mt_resource) = Some p -> tok_names t' = res_names r' ->
  shared_tok t' = shared_tok t ->
  (s <> SFree /\ res_names r' = res_names r) \/
    (s = SFree /\ forall q s1 r1, q ∈ on s1 m.(rm_lists) -> s1 <> SFree -> get_res q m = Some r1 -> res_names r1 <> res_names r') ->
  (s = SHeld -> shared_res r = true /\ shared_res r' = true /\ shared_tok t = true) ->
  (s <> SHeld -> shared_res r' = shared_tok t) ->
  Z.of_nat (length m'.(rm_lists).(resources_free)) <= m'.(resources_free_count) <= FREE_RES_COUNT ->
  kept c (linked_claim c tk p s') m m'.
Proof.
  intros Hi Hh Ec Erem Hs Hch Et Ha Ht Ht' Eres Enm Esh Hnames Hheld Horph Hcount.
  pose proof (ch_from Hch) as Hp. pose proof (ch_res Hch) as Hr.
  destruct (h_tok _ _ Hh _ _ Ec) as [_ Hidle]. pose proof (Hidle p r Hr) as Hni.
  assert (Hk : c_key c = Some tk) by (unfold c_key; by rw Ec).
  assert (Hnil : s <> SHeld -> r.(rs_tokens) = []).
  { intros Hne. destruct (inv_slots _ _ Hi s p r Hp Hr) as [H _]. by destruct Hs as [[-> ->]|[[-> ->]|[[-> ->]|[-> ->]]]]. }
  assert (Htoks : forall x, x ∈ r.(rs_tokens) -> get_tok x m' = get_tok x m).
  { intros x Hx. apply (ch_toks Hch). intros [= ->]. done. }
  assert (Hlinked : linked m' p r').
  { apply (add_linked m m' p r r' tk t'); try done. destruct (decide (s = SHeld)) as [-> |Hne]; [right|left; by apply Hnil].
    destruct (inv_slots _ _ Hi SHeld p r Hp Hr) as [[Hl _] _]. split; [done|]. by destruct Hnames as [[_ En]|[? _]]. }
  assert (Hmode : s <> SHeld -> mode_ok m' r').
  { intros Hne. unfold mode_ok. rw Horph // Et Hnil //. destruct (shared_tok t) eqn:E; [|cbn; lia].
    intros x tx ->%list_elem_of_singleton. rw Ht'. intros [= <-]. congruence. }
  apply (res_step_ok strict c (linked_claim c tk p s') p s s' r r' m m'); try done.
  - by rw Hk.
  - destruct Hs as [[-> ->]|[[-> ->]|[[-> ->]|[-> ->]]]]; split; try done.
    + split; [done|]. intros Est. destruct (Hheld eq_refl) as (S1 & S2 & S3). unfold mode_ok. rw S2.
      destruct (inv_slots _ _ Hi SHeld p r Hp Hr) as [[_ Hm] _]. specialize (Hm Est). unfold mode_ok in Hm. rw S1 in Hm.
      intros x tx. rw Et elem_of_cons. intros [-> |Hx]; [rw Ht'; intros [= <-]; congruence|]. rw Htoks //. by apply Hm.
    + split; [done|]. auto.
    + split; [done|]. split; [auto|]. by rw Et Hnil.
    + split; [done|]. split; [auto|]. by rw Et Hnil.
  - intros x pl. rw Ec. intros [= <- <-]. by left.
  - intros _. destruct Hnames as [?|[_ ?]]; auto.
  - intros x. rw Et elem_of_cons Hk. intros [-> |Hx]; auto.
  - intros x Hx Hin. rw Et. split; [by right|]. destruct (decide (s = SHeld)) as [-> |Hne].
    + by destruct Hs as [[_ ->]|[[? _]|[[? _]|[? _]]]].
    + rw Hnil // in Hin. by apply not_elem_of_nil in Hin.
  - intros ->. by destruct Hs as [[? _]|[[? _]|[[? _]|[? _]]]].
  - intros ->. by destruct Hs as [[? _]|[[? _]|[[? _]|[? _]]]].
  - split.
    + intros x pl [= <- <-]. split; [by exists t'|].
      assert (Hto : p ∈ on s' m'.(rm_lists)) by (apply (ch_on Hch); by left).
      destruct Hs as [[-> ->]|[[-> ->]|[[-> ->]|[-> ->]]]]; (split; [done|]); exists r'; (split; [apply (ch_get_p Hch)|]).
      * rw Et. by left. * rw Et. by left. * by rw Et Hnil. * by rw Et Hnil.
    + intros x tx Eb [= <-]. rw Ht'. intros [= <-]. rw Esh. by apply (h_shared _ _ Hh tk).
    + done.
Qed.

(** ** Taking a resource into use *)

(** A resource just allocated, seen as an orphan: no other resource has its names. *)
Lemma fresh_orphan_ok m p r :
  inv m -> get_res p m = None -> r.(rs_tokens) = [] -> async_res r = false ->
  (forall q s1 r1, q ∈ on s1 m.(rm_lists) -> s1 <> SFree -> get_res q m = Some r1 -> res_names r1 <> res_names r) ->
  let m0 := m <| rm_heap := <[p := r]> m.(rm_heap) |> <| rm_lists := add_orphan p m.(rm_lists) |> in
  inv m0 /\ forall c, holds c m -> holds c m0.
Proof.
  intros Hi Hp Ht Ha Hu m0. pose proof (inv_lists _ _ Hi) as Hl.
  assert (Hno : forall s, p ∉ on s m.(rm_lists)).
  { intros s H. destruct (on_alloc strict m s p Hi H) as [r' Hr]. congruence. }
  pose proof (add_placed p SOrphan _ _ (new_removed p m.(rm_lists) Hl Hno)) as [Hok Hon]. cbn [add_to] in *.
  assert (Hg : forall q, get_res q m0 = if bool_decide (q = p) then Some r else get_res q m).
  { intros q. unfold get_res. cbn. case_bool_decide as E; [rw E; by rw lookup_insert_eq|by rw lookup_insert_ne]. }
  assert (Hgo : forall q s, q ∈ on s m.(rm_lists) -> get_res q m0 = get_res q m).
  { intros q s Hq. rw Hg bool_decide_eq_false_2 //. intros ->. by apply (Hno s). }
  split.
  - split.
    + done.
    + intros q. rw Hg. split.
      * destruct (decide (q = p)) as [Eq|Hne]; [intros _; exists SOrphan; apply Hon; by left|].
        rw bool_decide_eq_false_2 //. intros Hq. apply (inv_alloc _ _ Hi) in Hq as [s Hq]. exists s. apply Hon. by right.
      * intros [s [[-> ->]|[Hne Hq]]%Hon]; [by rw bool_decide_eq_true_2|]. rw bool_decide_eq_false_2 //.
        apply (inv_alloc _ _ Hi). by exists s.
    + intros s q rq [[-> ->]|[Hne Hq]]%Hon; rw Hg.
      * rw bool_decide_eq_true_2 //. intros [= <-]. by split.
      * rw bool_decide_eq_false_2 //. intros Hr. exact (inv_slots _ _ Hi s q rq Hq Hr).
    + intros q1 q2 s1 s2 r1 r2 [[-> ->]|[Hn1 H1]]%Hon [[-> ->]|[Hn2 H2]]%Hon N1 N2; rw !Hg; [done|..].
      * rw bool_decide_eq_true_2 // bool_decide_eq_false_2 //. intros [= <-] G2 E. by destruct (Hu q2 s2 r2).
      * rw (bool_decide_eq_true_2 (p = p)) // bool_decide_eq_false_2 //. intros G1 [= <-] E. by destruct (Hu q1 s1 r1).
      * rw !bool_decide_eq_false_2 //. by apply (inv_names _ _ Hi q1 q2 s1 s2).
    + apply (inv_count _ _ Hi).
  - intros c Hh. split.
    + intros tk pl E. destruct (h_tok _ _ Hh _ _ E) as [Ha' Hpl]. split; [done|]. destruct pl as [|q|q].
      * intros q rq. rw Hg. case_bool_decide as Eq; [intros [= <-]; rw Ht; apply not_elem_of_nil|by apply Hpl].
      * destruct Hpl as [Hq Hr]. split; [apply Hon; right; split; [intros ->; by apply (Hno SAdd)|done]|]. by rw (Hgo q SAdd).
      * destruct Hpl as [Hq Hr]. split; [apply (Hon q SHeld); right; split; [intros ->; by apply (Hno SHeld)|done]|]. by rw (Hgo q SHeld).
    + apply (h_shared _ _ Hh).
    + intros q E. destruct (h_rem _ _ Hh _ E) as [Hq Hr].
      split; [apply (Hon q SRem); right; split; [intros ->; by apply (Hno SRem)|done]|]. by rw (Hgo q SRem).
Qed.

(** ** The first section of [acquire_token] *)

Context (past : nat -> sync_disk).

Lemma changes_build tk t' p s s' r r' m m' :
  p ∈ on s m.(rm_lists) -> get_res p m = Some r -> placed p s' m.(rm_lists) m'.(rm_lists) ->
  m'.(rm_heap) = <[p := r']> m.(rm_heap) -> m'.(rm_toks) = <[tk := t']> m.(rm_toks) ->
  changes (Some tk) p s s' r r' m m'.
Proof.
  intros Hp Hr Hpl Eh Et. split; try done; unfold get_tok; rw Et.
  - intros x Hx. rw lookup_insert_ne //. by intros ->.
  - intros x [= ->] _. rw lookup_insert_eq. eauto.
Qed.

Lemma kept_refl c m : inv m -> holds c m -> kept c c m m.
Proof. intros Hi Hh. split; [done|]. by apply passes_refl. Qed.

Lemma refuse_ok c tk pl p r rv m :
  inv m -> holds c m -> c.(c_tok) = Some (tk, pl) -> get_res p m = Some r ->
  exists m', refuse tk p rv m = Some (LkReturn rv, m') /\ kept c c m m'.
Proof.
  intros Hi Hh Ec Hr. destruct (h_tok _ _ Hh _ _ Ec) as [[t Ht] _]. unfold refuse. rw Hr. cbn.
  destruct (upd_tok tk (put_res_id r.(rs_res_id)) m) as [m'|] eqn:E; [|unfold upd_tok in E; by rw Ht in E].
  exists m'. split; [done|]. split; [by apply (upd_tok_inv strict tk (put_res_id r.(rs_res_id)) m)|].
  split; [by apply (upd_tok_holds tk (put_res_id r.(rs_res_id)) m m')|]. intros c2 Hc2 Hh2. split; [by apply (upd_tok_holds tk (put_res_id r.(rs_res_id)) m m')|done].
Qed.

Lemma link_eq tk p m r t :
  get_res p m = Some r -> get_tok tk m = Some t ->
  link tk p m = Some (m <| rm_toks := <[tk := put_res_id r.(rs_res_id) t <| mt_resource := Some p |>]> m.(rm_toks) |>
                        <| rm_heap := <[p := add_token tk r]> m.(rm_heap) |>).
Proof.
  intros Hr Ht. unfold link. rw Hr. cbn. unfold upd_tok. rw Ht. cbn. unfold upd_res, get_res in *. cbn. by rw Hr.
Qed.

(** The results of a lookup with the claim they leave. *)
Definition lookup_post (c : claim) (tk : addr) (Q : lookup -> claim -> Prop) : Prop :=
  (forall rv, rv < 0 -> Q (LkReturn rv) c) /\ (forall p, Q (LkReturn SANLK_OK) (linked_claim c tk p SHeld)) /\
  (forall p, Q LkAdopt (linked_claim c tk p SHeld)) /\ (forall p, Q (LkNew p) (linked_claim c tk p SAdd)).

(** A section that ends in a state with the claims kept. *)
Definition section_ends {T} (o : option (T * resmgr)) (c : claim) (m : resmgr) (Q : T -> claim -> Prop) : Prop :=
  exists x m' c', o = Some (x, m') /\ inv m' /\ passes c c' m m' /\ Q x c'.

Lemma refuse_ends c tk p r rv m Q :
  inv m -> holds c m -> c.(c_tok) = Some (tk, Idle) -> get_res p m = Some r -> rv < 0 -> lookup_post c tk Q ->
  section_ends (refuse tk p rv m) c m Q.
Proof.
  intros Hi Hh Ec Hr Hrv [HQ _]. destruct (refuse_ok c tk Idle p r rv m Hi Hh Ec Hr) as (m' & E & Hi' & Hp).
  exists (LkReturn rv), m', c. auto.
Qed.

Lemma lookup_held_ok c tk p r t m Q :
  inv m -> holds c m -> c.(c_tok) = Some (tk, Idle) -> c.(c_rem) = None -> p ∈ on SHeld m.(rm_lists) ->
  get_res p m = Some r -> get_tok tk m = Some t -> res_names r = tok_names t -> lookup_post c tk Q ->
  section_ends (lookup_held past tk p m) c m Q.
Proof.
  intros Hi Hh Ec Erem Hp Hr Ht En HQ. unfold lookup_held. rw Ht. cbn. rw Hr. cbn. destruct (_ && _) eqn:E.
  2: { by apply (refuse_ends c tk p r). }
  apply andb_true_iff in E as [Est Esr]. unfold upd_tok. rw Ht. cbn.
  set (t1 := put_disks _ t). set (m1 := m <| rm_toks := _ |>).
  rw (link_eq tk p m1 r t1); [done|by unfold get_tok; cbn; rw lookup_insert_eq|]. cbn.
  eexists (LkReturn SANLK_OK), _, (linked_claim c tk p SHeld). split; [done|].
  match goal with |- ResourceLists.inv _ ?m2 /\ _ => assert (Hk : kept c (linked_claim c tk p SHeld) m m2) end.
  { eapply (link_ok c tk p SHeld SHeld r (add_token tk r) m _ t (put_res_id r.(rs_res_id) t1 <| mt_resource := Some p |>)); try done.
    - by left.
    - apply (changes_build tk (put_res_id r.(rs_res_id) t1 <| mt_resource := Some p |>)); try done; cbn.
      + apply placed_refl; [by apply (inv_lists _ _ Hi)|done]. + by rw insert_insert_eq.
    - destruct (inv_slots _ _ Hi SHeld p r Hp Hr) as [_ H]. done.
    - unfold get_tok. cbn. by rw lookup_insert_eq.
    - by left.
    - apply (inv_count _ _ Hi). }
  destruct Hk. split; [done|]. split; [done|]. apply HQ.
Qed.

(** Linking an orphan that is [r1] by now, for a token that is [t1]. *)
Lemma adopt_ok c tk p r r1 t t1 m m1 Q :
  inv m -> holds c m -> c.(c_tok) = Some (tk, Idle) -> c.(c_rem) = None -> p ∈ on SOrphan m.(rm_lists) ->
  get_res p m = Some r -> get_tok tk m = Some t -> res_names r = tok_names t ->
  m1.(rm_heap) = <[p := r1]> m.(rm_heap) -> m1.(rm_toks) = <[tk := t1]> m.(rm_toks) -> m1.(rm_lists) = m.(rm_lists) ->
  m1.(resources_free_count) = m.(resources_free_count) -> same_links r r1 -> tok_names t1 = tok_names t ->
  shared_tok t1 = shared_tok t -> shared_res r1 = shared_tok t -> lookup_post c tk Q ->
  section_ends (m2 ← link tk p m1; m3 ← list_move add_held p m2; Some (LkAdopt, m3)) c m Q.
Proof.
  intros Hi Hh Ec Erem Hp Hr Ht En Eh Etk El Ecnt (L1 & L2 & L3) Etn Ets Esh HQ. pose proof (inv_lists _ _ Hi) as Hl.
  rw (link_eq tk p m1 r1 t1); [by unfold get_res; rw Eh lookup_insert_eq|by unfold get_tok; rw Etk lookup_insert_eq|]. cbn.
  destruct (unlink_removed p SOrphan _ Hl Hp) as (l1 & E1 & Hrm).
  unfold list_move, list_del. cbn. rw El E1. cbn.
  eexists LkAdopt, _, (linked_claim c tk p SHeld). split; [done|].
  match goal with |- ResourceLists.inv _ ?m2 /\ _ => assert (Hk : kept c (linked_claim c tk p SHeld) m m2) end.
  { eapply (link_ok c tk p SOrphan SHeld r (add_token tk r1) m _ t (put_res_id r1.(rs_res_id) t1 <| mt_resource := Some p |>)); try done.
    - right. by left.
    - apply (changes_build tk (put_res_id r1.(rs_res_id) t1 <| mt_resource := Some p |>)); try done; cbn.
      + by apply (add_placed p SHeld). + by rw Eh insert_insert_eq. + by rw Etk insert_insert_eq.
    - cbn. by rw L1.
    - unfold async_res. cbn. destruct (inv_slots _ _ Hi SOrphan p r Hp Hr) as [_ H]. unfold async_res in *. by rw L3.
    - unfold get_tok. cbn. by rw lookup_insert_eq.
    - transitivity (tok_names t1); [done|]. transitivity (res_names r1); [congruence|done].
    - left. split; [done|]. transitivity (res_names r1); [done|congruence].
    - cbn. rw Ecnt. rw (unlink_free p _ _ E1) without_notin; [|apply (inv_count _ _ Hi)].
      intros H. by pose proof (lo_one _ Hl p SOrphan SFree Hp H). }
  destruct Hk. split; [done|]. split; [done|]. apply HQ.
Qed.

Lemma lookup_orphan_ok c tk p r t allow m Q :
  inv m -> holds c m -> c.(c_tok) = Some (tk, Idle) -> c.(c_rem) = None -> p ∈ on SOrphan m.(rm_lists) ->
  get_res p m = Some r -> get_tok tk m = Some t -> res_names r = tok_names t -> lookup_post c tk Q ->
  section_ends (lookup_orphan tk p allow m) c m Q.
Proof.
  intros Hi Hh Ec Erem Hp Hr Ht En HQ. unfold lookup_orphan. rw Ht. cbn. rw Hr. cbn.
  destruct (negb allow || _) eqn:E; [by apply (refuse_ends c tk p r)|].
  apply orb_false_iff in E as [_ E]. apply negb_false_iff, eqb_prop in E.
  destruct (has_flag (tk_acquire_flags t) SANLK_RES_SHARED) eqn:Ew.
  - apply (adopt_ok c tk p r r t t m m Q); try done; [by rw insert_get|by rw insert_id|].
    by rw /shared_res /shared_tok Ew -E.
  - unfold upd_tok. rw Ht. cbn. unfold upd_res, get_res in *. cbn. rw Hr. cbn.
    eapply (adopt_ok c tk p r _ t _ m _ Q); try done. by rw /shared_res /shared_tok Ew E.
Qed.

(** ** A new resource *)

Lemma find_free_ok m t l :
  (forall p, p ∈ l -> exists r, get_res p m = Some r) ->
  exists o, find_free m t l = Some o /\ forall p, o = Some p -> p ∈ l.
Proof.
  induction l as [|p l IH]; intros Ha; cbn; [by exists None|]. destruct (Ha p) as [r Hr]; [by left|]. rw Hr. cbn.
  destruct (free_matches t r); [exists (Some p); split; [done|]; intros q [= <-]; by left|].
  destruct IH as (o & E & Ho); [intros q Hq; apply Ha; by right|]. exists o. split; [done|]. intros q Eq. right. by apply Ho.
Qed.

Lemma init_resource_links id n t :
  rs_tokens (init_resource id n t) = [] /\ res_names (init_resource id n t) = tok_names t /\
  async_res (init_resource id n t) = false /\ shared_res (init_resource id n t) = shared_tok t.
Proof.
  split; [done|]. split; [done|]. unfold async_res, shared_res, shared_tok. cbn. split; by cases.
Qed.

Definition with_kill (killpath killargs : list Z) (r : resource) : resource :=
  r <| rs_killpath := killpath |> <| rs_killargs := killargs |>.

(** No active resource has the names of the token. *)
Definition names_free (m : resmgr) (t : mtoken) : Prop :=
  forall q s r, q ∈ on s m.(rm_lists) -> s <> SFree -> get_res q m = Some r -> res_names r <> tok_names t.

(** The resource and the token once they are linked, in a state where the resource was
    at [s]. *)
Lemma link_new_ok c tk p s r id n kp ka t m m' Q :
  inv m -> holds c m -> c.(c_tok) = Some (tk, Idle) -> c.(c_rem) = None -> get_tok tk m = Some t ->
  s = SFree \/ s = SOrphan -> p ∈ on s m.(rm_lists) -> get_res p m = Some r ->
  (s = SOrphan -> res_names r = tok_names t) -> (s = SFree -> names_free m t) ->
  placed p SAdd m.(rm_lists) m'.(rm_lists) ->
  m'.(rm_heap) = <[p := add_token tk (with_kill kp ka (init_resource id n t))]> m.(rm_heap) ->
  m'.(rm_toks) = <[tk := put_res_id id t <| mt_resource := Some p |>]> m.(rm_toks) ->
  Z.of_nat (length m'.(rm_lists).(resources_free)) <= m'.(resources_free_count) <= FREE_RES_COUNT ->
  lookup_post c tk Q -> section_ends (Some (LkNew p, m')) c m Q.
Proof.
  intros Hi Hh Ec Erem Ht Hs Hp Hr Hn1 Hn2 Hpl Eh Etk Hc HQ.
  destruct (init_resource_links id n t) as (I1 & I2 & I3 & I4).
  exists (LkNew p), m', (linked_claim c tk p SAdd). split; [done|].
  assert (Hnil : r.(rs_tokens) = []).
  { destruct (inv_slots _ _ Hi s p r Hp Hr) as [H _]. by destruct Hs as [-> | ->]. }
  assert (Hk : kept c (linked_claim c tk p SAdd) m m').
  { apply (link_ok c tk p s SAdd r (add_token tk (with_kill kp ka (init_resource id n t))) m m' t (put_res_id id t <| mt_resource := Some p |>)); try done.
    - destruct Hs as [-> | ->]; [by do 3 right|by do 2 right; left].
    - by apply (changes_build tk (put_res_id id t <| mt_resource := Some p |>)).
    - cbn. by rw Hnil.
    - unfold get_tok. by rw Etk lookup_insert_eq.
    - destruct Hs as [-> | ->]; [right|left]; (split; [done|]).
      + intros q s1 r1 Hq Hne Hr1. by apply (Hn2 eq_refl q s1 r1).
      + transitivity (tok_names t); [done|by rw Hn1].
    - intros ->. by destruct Hs. }
  destruct Hk. split; [done|]. split; [done|]. apply HQ.
Qed.

(** [get_resource] and the linking, on a reused and on a fresh resource. *)
Lemma new_reused_ok c tk p kp ka t m Q :
  inv m -> holds c m -> c.(c_tok) = Some (tk, Idle) -> c.(c_rem) = None -> get_tok tk m = Some t -> names_free m t ->
  p ∈ on SFree m.(rm_lists) -> find_free m t m.(rm_lists).(resources_free) = Some (Some p) -> lookup_post c tk Q ->
  forall ok, section_ends (o ← get_resource ok t m; let '(o, m) := o in
    match o with
    | None => Some (LkReturn (- ENOMEM), m)
    | Some (p, _) =>
        m ← upd_res p (with_kill kp ka) m; m ← link tk p m; Some (LkNew p, m <| rm_lists := add_add p m.(rm_lists) |>)
    end) c m Q.
Proof.
  intros Hi Hh Ec Erem Ht Hn Hp Ef HQ ok. pose proof (inv_lists _ _ Hi) as Hl. destruct (on_alloc strict m SFree p Hi Hp) as [r Hr].
  destruct (unlink_removed p SFree _ Hl Hp) as (l1 & E1 & Hrm).
  unfold get_resource, get_free_resource. rw Ef. cbn. unfold list_del. rw E1. cbn.
  unfold upd_res, get_res in *. cbn. rw Hr. cbn. repeat (rw lookup_insert_eq; cbn).
  rw (link_eq tk p _ (with_kill kp ka (init_resource r.(rs_res_id) (u32 (r.(rs_reused) + 1)) t)) t); [by unfold get_res; cbn; rw lookup_insert_eq|done|]. cbn.
  apply (link_new_ok c tk p SFree r r.(rs_res_id) (u32 (r.(rs_reused) + 1)) kp ka t m); try done.
  - by left. - by apply (add_placed p SAdd). - cbn. by rw !insert_insert_eq.
  - cbn. rw (unlink_free p _ _ E1). pose proof (length_without p _ (lo_nodup _ Hl SFree) Hp) as Hlen. cbn in Hlen.
    pose proof (inv_count _ _ Hi). lia.
Qed.

Lemma new_fresh_ok c tk kp ka t m Q :
  inv m -> holds c m -> c.(c_tok) = Some (tk, Idle) -> c.(c_rem) = None -> get_tok tk m = Some t -> names_free m t ->
  find_free m t m.(rm_lists).(resources_free) = Some None -> lookup_post c tk Q ->
  forall ok, section_ends (o ← get_resource ok t m; let '(o, m) := o in
    match o with
    | None => Some (LkReturn (- ENOMEM), m)
    | Some (p, _) =>
        m ← upd_res p (with_kill kp ka) m; m ← link tk p m; Some (LkNew p, m <| rm_lists := add_add p m.(rm_lists) |>)
    end) c m Q.
Proof.
  intros Hi Hh Ec Erem Ht Hn Ef HQ ok. unfold get_resource, get_free_resource. rw Ef. cbn. destruct ok.
  2: { exists (LkReturn (- ENOMEM)), m, c. split; [done|]. split; [done|]. split; [by apply passes_refl|]. by apply HQ. }
  cbn. set (p := fresh (dom m.(rm_heap))). set (id := m.(resource_id_counter)).
  assert (Hp : get_res p m = None) by (apply not_elem_of_dom, is_fresh).
  destruct (init_resource_links id 0 t) as (I1 & I2 & I3 & I4).
  destruct (fresh_orphan_ok m p (init_resource id 0 t) Hi Hp I1 I3) as [Hi0 Hh0].
  { intros q s1 r1 Hq Hne Hr1. rw I2. by apply (Hn q s1). }
  set (m0 := m <| rm_heap := _ |> <| rm_lists := _ |>) in Hi0, Hh0.
  unfold upd_res, get_res in *. cbn. rw lookup_insert_eq. cbn.
  rw (link_eq tk p _ (with_kill kp ka (init_resource id 0 t)) t); [by unfold get_res; cbn; rw lookup_insert_eq|done|]. cbn.
  assert (Hno : forall s, p ∉ on s m.(rm_lists)).
  { intros s H. destruct (on_alloc strict m s p Hi H) as [r' Hr]. unfold get_res in Hr. congruence. }
  pose proof (inv_lists _ _ Hi) as Hl. pose proof (new_removed p _ Hl Hno) as Hrm.
  match goal with |- section_ends (Some (_, ?m')) _ _ _ =>
    destruct (link_new_ok c tk p SOrphan (init_resource id 0 t) id 0 kp ka t m0 m' Q) as (x & m2 & c' & E & H1 & H2 & H3) end; try done.
  - by apply Hh0. - by right. - cbn. by left. - unfold get_res. cbn. by rw lookup_insert_eq.
  - destruct (add_placed p SAdd _ _ Hrm) as [Hok Hon]. destruct (add_placed p SOrphan _ _ Hrm) as [Hok' Hon'].
    split; [done|]. cbn in *. intros q s1. rw Hon Hon'. tauto.
  - cbn. by rw !insert_insert_eq.
  - apply (inv_count _ _ Hi).
  - exists x, m2, c'. split; [done|]. split; [done|]. split; [|done]. apply (passes_trans c c c' m m0 m2); [|done].
    split; [by apply Hh0|]. intros c2 Hc2 Hh2. split; [by apply Hh0|done].
Qed.

Lemma lookup_new_ok c tk ok flags only kp ka t m Q :
  inv m -> holds c m -> c.(c_tok) = Some (tk, Idle) -> c.(c_rem) = None -> get_tok tk m = Some t -> names_free m t ->
  lookup_post c tk Q -> section_ends (lookup_new tk ok flags only kp ka m) c m Q.
Proof.
  intros Hi Hh Ec Erem Ht Hn HQ. unfold lookup_new. rw Ht. cbn [mbind option_bind]. destruct (has_flag flags only).
  { exists (LkReturn (- ENOENT)), m, c. split; [done|]. split; [done|]. split; [by apply passes_refl|]. by apply HQ. }
  destruct (find_free_ok m t m.(rm_lists).(resources_free)) as (o & Ef & Ho).
  { intros q Hq. exact (on_alloc strict m SFree q Hi Hq). }
  destruct o as [p|]; [by apply (new_reused_ok c tk p); auto|by apply (new_fresh_ok c tk)].
Qed.

Lemma safe_acquire_lookup c tk ok flags kp ka Q :
  c.(c_tok) = Some (tk, Idle) -> c.(c_rem) = None -> lookup_post c tk Q -> safe (sec (acquire_lookup past tk ok flags kp ka)) Q c.
Proof.
  intros Ec Erem HQ. apply safe_sec. intros m Hi Hh. destruct (h_tok _ _ Hh _ _ Ec) as [[t Ht] _].
  unfold acquire_lookup. rw Ht. cbn [mbind option_bind].
  destruct (find_on m t SRem Hi) as (o1 & E1 & H1), (find_on m t SAdd Hi) as (o2 & E2 & H2),
    (find_on m t SHeld Hi) as (o3 & E3 & H3), (find_on m t SOrphan Hi) as (o4 & E4 & H4).
  cbn [on] in E1, E2, E3, E4. rw E1 E2 E3 E4. cbn [mbind option_bind].
  destruct o1 as [p|]; [destruct H1 as (Hp & r & Hr & _); by apply (refuse_ends c tk p r)|].
  destruct o2 as [p|]; [destruct H2 as (Hp & r & Hr & _); by apply (refuse_ends c tk p r)|].
  destruct o3 as [p|]; [destruct H3 as (Hp & r & Hr & En); by apply (lookup_held_ok c tk p r t)|].
  destruct o4 as [p|]; [destruct H4 as (Hp & r & Hr & En); by apply (lookup_orphan_ok c tk p r t)|].
  apply (lookup_new_ok c tk _ _ _ _ _ t); try done. intros q [] r Hq Hne Hr; try done; eauto.
Qed.

(** ** [acquire_token] *)

Context (com : res_com) (fuel : nat) (one : lease_area) (junk_acq : acq) (junk : leader_record).

(** What is left of a failed acquire, and of one that succeeded. *)
Definition acquire_post (c : claim) (tk : addr) (rv : Z) (c' : claim) : Prop :=
  if rv <? 0 then c' = unlinked c tk None else exists p, c' = linked_claim c tk p SHeld.

Lemma safe_release_then c tk p opened nodisk rv (Q : Z -> claim -> Prop) :
  linked_to c tk p -> Q rv (unlinked c tk None) ->
  safe (_release_token junk tk None opened nodisk;; mret rv) Q c.
Proof. intros Hl HQ. apply safe_bind, (safe__release_token strict junk c tk p); [done|]. by intros _. Qed.

Lemma flags_links f r : Z.land f R_THREAD_RELEASE = 0 -> same_links r (add_rflags f r) /\ same_links r (clear_rflags f r).
Proof.
  intros Hf. unfold same_links, async_res. cbn. rw has_flag_lor has_flag_clear_other //.
  assert (has_flag f R_THREAD_RELEASE = false) as -> by (unfold has_flag; by rw Hf). by rw orb_false_r.
Qed.

Lemma same_links_trans r1 r2 r3 : same_links r1 r2 -> same_links r2 r3 -> same_links r1 r3.
Proof. intros (A & B & C) (D & E & F). repeat split; congruence. Qed.

Section adding.
Context {c0 : claim} {tk p : addr}.
Let c := linked_claim c0 tk p SAdd.

Lemma adding_links : linked_to c tk p.
Proof. split; [done|]. by right. Qed.
Lemma adding_works : works_on c p.
Proof. left. by exists tk. Qed.
Lemma adding_mode f : (forall r, shared_res (f r) = true -> shared_res r = true) -> mode_kept strict c p f.
Proof. intros Hf. right. left. split; [by exists tk|done]. Qed.

Lemma safe_adding_set f (Q : unit -> claim -> Prop) :
  (forall r, same_links r (f r)) -> (forall r, shared_res (f r) = true -> shared_res r = true) -> Q tt c -> safe (set_res p f) Q c.
Proof. intros Hf Hm HQ. apply safe_set_res; [apply adding_works|done|by apply adding_mode|done]. Qed.

(** The release of what a failed acquire left. *)
Lemma safe_adding_fail rv opened nodisk (Q : Z -> claim -> Prop) :
  rv < 0 -> (forall rv c', acquire_post c0 tk rv c' -> Q rv c') -> safe (_release_token junk tk None opened nodisk;; mret rv) Q c.
Proof.
  intros Hrv HQ. apply (safe_release_then c tk p); [apply adding_links|]. apply HQ. unfold acquire_post.
  by apply Z.ltb_lt in Hrv as ->.
Qed.

Lemma safe_move_held (Q : unit -> claim -> Prop) :
  Q tt (linked_claim c0 tk p SHeld) -> safe (sec (fun m => m ← list_move add_held p m; Some (tt, m))) Q c.
Proof.
  intros HQ. apply safe_sec. intros m Hi Hh. destruct (h_tok _ _ Hh tk (Adding p) eq_refl) as [Hat (Hp & r & Hr & Et)].
  destruct (list_move_changes (c_key c) p SAdd SHeld r m (inv_lists _ _ Hi) Hp Hr) as (m' & E & Hch & Ht & Hf & Hc); try done.
  cbn in E. exists tt, m', (linked_claim c0 tk p SHeld). rw E. split; [done|].
  destruct (inv_slots _ _ Hi SAdd p r Hp Hr) as [(Hl & Hm & Hlen) Ha].
  destruct (res_step_ok strict c (linked_claim c0 tk p SHeld) p SAdd SHeld r r m m') as [H1 H2]; try done.
  - split; [|done]. unfold linked, mode_ok, get_tok in *. by rw Ht.
  - intros x pl [= <- <-]. auto.
  - intros _. by left.
  - by apply (count_kept strict m).
  - by left.
  - intros x Hx. rw Et list_elem_of_singleton. intros ->. by destruct Hx.
  - by left.
  - split; [|intros x t; unfold get_tok; rw Ht; apply (h_shared _ _ Hh)|done].
    intros x pl [= <- <-]. split; [unfold get_tok; by rw Ht|]. split; [apply (ch_on Hch); by left|].
    exists r. split; [apply (ch_get_p Hch)|]. rw Et. by left.
Qed.

Lemma safe_acquire_out flags (Q : Z -> claim -> Prop) :
  (forall rv c', acquire_post c0 tk rv c' -> Q rv c') -> safe (acquire_out tk p flags) Q c.
Proof.
  intros HQ. unfold acquire_out. apply safe_bind, (safe_read_tok strict c tk (Adding p)); [done|]. intros t.
  assert (Hend : safe (tok_close tk;; sec (fun m => m ← list_move add_held p m; Some (tt, m));; mret SANLK_OK) Q c).
  { apply safe_bind, (safe_tok_close strict c tk (Adding p)); [done|]. apply safe_bind, safe_move_held.
    apply HQ. unfold acquire_post. cbn. by exists p. }
  apply safe_bind. destruct (has_flag flags SANLK_ACQUIRE_LVB); [|done].
  apply safe_bind, safe_disk. intros b. destruct (nz (fst b)); [done|].
  apply safe_bind, safe_disk. intros r. by apply safe_adding_set.
Qed.

Lemma undo_links f1 f2 r :
  Z.land f1 R_THREAD_RELEASE = 0 -> Z.land f2 R_THREAD_RELEASE = 0 -> same_links r (add_rflags f1 (clear_rflags f2 r)).
Proof. intros H1 H2. apply (same_links_trans r (clear_rflags f2 r)); by apply flags_links. Qed.

(** R_SHARED is cleared, and a flag that is not R_SHARED is set. *)
Lemma undo_mode f r : Z.land f R_SHARED = 0 ->
  shared_res (add_rflags f (clear_rflags R_SHARED r)) = true -> shared_res r = true.
Proof.
  intros Hf. unfold shared_res. cbn. rw has_flag_lor has_flag_clear_same. unfold has_flag at 1. by rw Hf.
Qed.

Lemma safe_undo_acquire rv (Q : Z -> claim -> Prop) :
  rv < 0 -> (forall rv c', acquire_post c0 tk rv c' -> Q rv c') -> safe (undo_acquire junk tk p rv) Q c.
Proof.
  intros Hrv HQ. apply safe_bind, safe_adding_set; [by intros r; apply undo_links|by intros r; apply undo_mode|].
  by apply safe_adding_fail.
Qed.

Lemma safe_acquire_shared t leader dblock flags (Q : Z -> claim -> Prop) :
  (forall rv c', acquire_post c0 tk rv c' -> Q rv c') -> safe (acquire_shared junk tk p t leader dblock flags) Q c.
Proof.
  intros HQ. apply safe_bind, safe_disk. intros rv. destruct (Z.ltb_spec rv 0); [by apply safe_undo_acquire|].
  apply safe_bind, safe_disk. intros rl. destruct (Z.ltb_spec (fst rl) 0); [by apply safe_undo_acquire|].
  by apply safe_acquire_out.
Qed.

Lemma safe_acquire_exclusive t leader flags (Q : Z -> claim -> Prop) :
  (forall rv c', acquire_post c0 tk rv c' -> Q rv c') -> safe (acquire_exclusive com junk tk p t leader flags) Q c.
Proof.
  intros HQ. unfold acquire_exclusive. destruct (_ =? 0); [by apply safe_acquire_out|].
  apply safe_bind, safe_disk. intros r. destruct (Z.ltb_spec (fst r) 0); [by apply safe_adding_fail|].
  destruct (nz (snd r)); [|by apply safe_acquire_out].
  apply safe_bind, (safe__release_token strict junk c tk p); [apply adding_links|]. intros rv.
  destruct (Z.ltb_spec rv 0) as [Hlt|]; apply HQ; unfold acquire_post; [by apply Z.ltb_lt in Hlt as ->|done].
Qed.

Lemma safe_acquire_won shared t leader dblock flags (Q : Z -> claim -> Prop) :
  (forall rv c', acquire_post c0 tk rv c' -> Q rv c') -> safe (acquire_won com junk tk p shared t leader dblock flags) Q c.
Proof.
  intros HQ. apply safe_bind, safe_adding_set; [done|done|].
  destruct shared; [by apply safe_acquire_shared|].
  apply safe_bind, (safe_set_tok strict c tk (Adding p)); [done..|]. by apply safe_acquire_exclusive.
Qed.

Lemma safe_acquire_result shared rv t leader dblock flags (Q : Z -> claim -> Prop) :
  (forall rv c', acquire_post c0 tk rv c' -> Q rv c') ->
  safe (acquire_result com junk tk p shared rv t leader dblock flags) Q c.
Proof.
  intros HQ. unfold acquire_result. destruct (Z.ltb_spec rv 0) as [Hlt|]; cbn [andb]; [|by apply safe_acquire_won].
  destruct (negb _); (apply safe_bind, safe_adding_set; [| |by apply safe_adding_fail]).
  - intros r. by apply flags_links. - intros r. unfold shared_res. cbn. by rw has_flag_clear_same.
  - intros r. by apply (undo_links R_ERASE_ALL R_SHARED r). - intros r. by apply (undo_mode R_ERASE_ALL r).
Qed.

Lemma safe_acquire_attempt n shared nowait lver hosts flags dblock (Q : Z -> claim -> Prop) :
  (forall rv c', acquire_post c0 tk rv c' -> Q rv c') ->
  safe (acquire_attempt com fuel one junk_acq junk n tk p shared nowait lver hosts flags dblock) Q c.
Proof.
  intros HQ. revert dblock. induction n as [|n IH]; intros dblock;
    (apply safe_bind, (safe_read_tok strict c tk (Adding p)); [done|]; intros t;
     apply safe_bind, safe_disk; intros o; apply safe_bind; destruct o as [[[[rv t'] leader] dblock']|]; [|done];
     apply safe_bind, (safe_set_tok strict c tk (Adding p)); [done..|];
     apply safe_bind, safe_adding_set; [done..|]; unfold held_by_other;
     destruct (_ || _) eqn:Eh; [|by apply safe_acquire_result];
     assert (rv < 0) by (unfold SANLK_ACQUIRE_IDLIVE, SANLK_ACQUIRE_OWNED, SANLK_ACQUIRE_OTHER in *; lia);
     destruct (_ && _); [|by apply safe_adding_fail]).
  - by apply safe_adding_fail.
  - apply safe_bind, safe_disk. intros us. apply safe_bind, safe_disk. intros _. apply IH.
Qed.

Lemma safe_acquire_new flags (Q : Z -> claim -> Prop) :
  (forall rv c', acquire_post c0 tk rv c' -> Q rv c') ->
  safe (acquire_new com fuel one junk_acq junk past tk p flags) Q c.
Proof.
  intros HQ. apply safe_bind, (safe_tok_open strict _ c tk (Adding p)); [done|]. intros rv.
  destruct (Z.ltb_spec rv 0); [by apply safe_adding_fail|].
  apply safe_bind, (safe_read_tok strict c tk (Adding p)); [done|]. intros t.
  apply safe_bind, safe_adding_set; [done..|]. by apply safe_acquire_attempt.
Qed.
End adding.

Lemma safe_acquire_adopted c tk p (Q : Z -> claim -> Prop) :
  (forall rv c', acquire_post c tk rv c' -> Q rv c') -> safe (acquire_adopted junk tk) Q (linked_claim c tk p SHeld).
Proof.
  intros HQ. apply safe_bind, (safe_tok_open strict _ _ tk (Holding p)); [done|]. intros rv.
  destruct (Z.ltb_spec rv 0) as [Hlt|].
  - apply (safe_release_then _ tk p); [split; [done|by left]|]. apply HQ. unfold acquire_post. by apply Z.ltb_lt in Hlt as ->.
  - apply safe_bind, (safe_tok_close strict _ tk (Holding p)); [done|]. apply HQ. unfold acquire_post. cbn. by exists p.
Qed.

Lemma safe_acquire_token c tk flags kp ka (Q : Z -> claim -> Prop) :
  c.(c_tok) = Some (tk, Idle) -> c.(c_rem) = None ->
  (forall rv c', acquire_post c tk rv c' -> Q rv c') ->
  safe (acquire_token com fuel one junk_acq junk past tk flags kp ka) Q c.
Proof.
  intros Ec Er HQ. apply safe_bind, safe_disk. intros ok. apply safe_bind, safe_acquire_lookup; [done..|].
  assert (Eun : unlinked c tk None = c) by (destruct c as [ct cs cr]; cbn in *; by rw Ec Er).
  split; [|split; [|split]].
  - intros rv Hrv. apply HQ. unfold acquire_post. apply Z.ltb_lt in Hrv as ->. by rw Eun.
  - intros p. apply HQ. unfold acquire_post. cbn. by exists p.
  - intros p. by apply (safe_acquire_adopted c tk p).
  - intros p. by apply safe_acquire_new.
Qed.

(** ** [convert_token] *)

Section holding.
Context {tk p : addr}.

(** The claims of a thread that converts. *)
Definition converting (c : claim) : Prop := c.(c_tok) = Some (tk, Holding p) /\ c.(c_rem) = None.

Lemma converting_works c : converting c -> works_on c p.
Proof. intros [E _]. right. left. by exists tk. Qed.

Lemma safe_holding_set c f (Q : unit -> claim -> Prop) :
  converting c -> (forall r, same_links r (f r)) -> (forall r, shared_res (f r) = shared_res r) -> Q tt c -> safe (set_res p f) Q c.
Proof. intros Hc Hf Hm HQ. apply safe_set_res; [by apply converting_works|done|by left|done]. Qed.

(** After a convert the token is where it was. *)
Definition convert_post (Q : Z -> claim -> Prop) : Prop := forall rv c', converting c' -> Q rv c'.

Lemma erase_flag_ok r :
  same_links r (add_rflags R_ERASE_ALL r) /\ shared_res (add_rflags R_ERASE_ALL r) = shared_res r.
Proof. split; [by apply flags_links|]. unfold shared_res. cbn. by rw has_flag_lor orb_false_r. Qed.

Lemma safe_sh2ex_undo n c t leader error Q :
  converting c -> convert_post Q -> safe (sh2ex_undo junk n tk p t leader error) Q c.
Proof.
  intros Hc HQ. revert leader.
  assert (Herr : forall rv : Z * leader_record, safe (if fst rv <? 0 then set_res p (add_rflags R_ERASE_ALL);; mret error else mret error) Q c).
  { intros rv. destruct (_ <? 0); [|by apply HQ]. apply safe_bind, safe_holding_set; try done; try (intros; apply erase_flag_ok). by apply HQ. }
  induction n as [|n IH]; intros leader; apply safe_bind, safe_disk; intros rv; destruct (timed_out _); try apply Herr.
  apply safe_bind, safe_disk. intros _. apply IH.
Qed.

Lemma safe_sh2ex_fail c leader error Q : converting c -> convert_post Q -> safe (sh2ex_fail junk tk p leader error) Q c.
Proof.
  intros Hc HQ. apply safe_bind, (safe_read_tok strict c tk (Holding p)); [apply Hc|]. intros t.
  destruct (nz _); [by apply HQ|by apply safe_sh2ex_undo].
Qed.

Lemma safe_sh2ex_done c t dblock Q :
  strict = false -> converting c -> convert_post Q -> safe (sh2ex_done tk p t dblock) Q c.
Proof.
  intros Hst Hc HQ. apply safe_bind, safe_disk. intros _.
  apply safe_bind, (safe_set_tok_mode strict c tk (Holding p) _ false); try done; [apply Hc|congruence|].
  apply safe_bind, safe_set_res.
  - right. left. exists tk. apply Hc. - intros r. by apply (flags_links R_SHARED r). - right; right; right; left. done.
  - by apply HQ.
Qed.

Lemma safe_sh2ex_acquired c t leader dblock Q :
  strict = false -> converting c -> convert_post Q -> safe (sh2ex_acquired com junk tk p t leader dblock) Q c.
Proof.
  intros Hst Hc HQ. apply safe_bind, safe_holding_set; [done..|].
  apply safe_bind, (safe_set_tok strict c tk (Holding p)); [apply Hc|done..|].
  destruct (_ || _); [by apply safe_sh2ex_done|]. apply safe_bind, safe_disk. intros r.
  destruct (_ <? 0); [by apply safe_sh2ex_fail|]. destruct (nz _); [|by apply safe_sh2ex_done].
  apply safe_bind, safe_disk. intros rl. destruct (_ <? 0); [by apply safe_sh2ex_fail|by apply HQ].
Qed.

Lemma safe_convert_sh2ex c flags Q :
  strict = false -> converting c -> convert_post Q -> safe (convert_sh2ex_token com fuel one junk_acq junk tk p flags) Q c.
Proof.
  intros Hst Hc HQ. apply safe_bind, (safe_read_tok strict c tk (Holding p)); [apply Hc|]. intros t.
  apply safe_bind, safe_disk. intros o. apply safe_bind. destruct o as [[rv a]|]; [|done].
  apply safe_bind, (safe_set_tok strict c tk (Holding p)); [apply Hc|done..|].
  destruct (rv <? 0); [|by apply safe_sh2ex_acquired]. destruct (has_flag _ _); [|by apply HQ].
  apply safe_bind, (safe_set_tok strict c tk (Holding p)); [apply Hc|done..|]. by apply safe_sh2ex_fail.
Qed.

Lemma safe_ex2sh_release n k c t leader Q : converting c -> convert_post Q -> safe (ex2sh_release junk n k tk p t leader) Q c.
Proof.
  intros Hc HQ. revert k.
  assert (Herr : forall rv : Z * leader_record, safe (if fst rv <? 0 then set_res p (add_rflags R_ERASE_ALL);; mret (fst rv)
     else set_tok tk (fun t => put_acquire_flags (Z.lor t.(tk_acquire_flags) SANLK_RES_SHARED)
                               (put_r_flags (Z.lor t.(t_r_flags) SANLK_RES_SHARED) t));;
        set_res p (fun r => add_rflags R_SHARED r <| rs_r_flags := Z.lor r.(rs_r_flags) SANLK_RES_SHARED |>);;
        mret SANLK_OK) Q c).
  { intros rv. assert (Hs : forall x, has_flag (Z.lor x SANLK_RES_SHARED) SANLK_RES_SHARED = true) by (intros x; by rw has_flag_lor orb_true_r).
    destruct (_ <? 0).
    - apply safe_bind, safe_holding_set; try done; try (intros; apply erase_flag_ok). by apply HQ.
    - apply safe_bind, (safe_set_tok_mode strict c tk (Holding p) _ true); try done; [apply Hc|intros _ t' _; apply Hs|intros _ t' _; apply Hs|].
      apply safe_bind, safe_set_res.
      + right. left. exists tk. apply Hc. + intros r. by apply (flags_links R_SHARED r).
      + right; right; right; right. split; [exists tk; apply Hc|]. split; [done|]. intros r. unfold shared_res. cbn. by rw has_flag_lor orb_true_r.
      + by apply HQ. }
  induction n as [|n IH]; intros k; apply safe_bind, safe_disk; intros rv; destruct (timed_out _); try apply Herr.
  apply safe_bind, (safe_read_tok strict c tk (Holding p)); [apply Hc|]. intros t'. destruct (nz _); [by apply HQ|].
  apply safe_bind, safe_disk. intros _. apply IH.
Qed.

Lemma safe_convert_ex2sh c Q : converting c -> convert_post Q -> safe (convert_ex2sh_token junk tk p) Q c.
Proof.
  intros Hc HQ. apply safe_bind, (safe_read_tok strict c tk (Holding p)); [apply Hc|]. intros t.
  apply safe_bind, safe_read_res; [by apply converting_works|]. intros r. apply safe_bind.
  assert (H : safe (rv ← disk (write_mblock_shared_dblock_release t.(mt_tok) r.(rs_dblock));
    if rv <? 0 then mret rv else ex2sh_release junk (Z.to_nat t.(mt_tok).(t_io_timeout)) 0 tk p t.(mt_tok) r.(rs_leader)) Q c).
  { apply safe_bind, safe_disk. intros rv. destruct (_ <? 0); [by apply HQ|by apply safe_ex2sh_release]. }
  destruct (has_flag _ _); [by apply safe_disk|done].
Qed.
End holding.

Lemma count_shared_ok m l : (forall x, x ∈ l -> exists t, get_tok x m = Some t) -> exists n, count_shared m l = Some n.
Proof.
  induction l as [|x l IH]; intros Ha; cbn; [eauto|]. destruct (Ha x) as [t Ht]; [by left|]. rw Ht. cbn.
  destruct IH as [n E]; [intros y Hy; apply Ha; by right|]. rw E. cbn. eauto.
Qed.

(** The section finds the resource the token is linked to: no other has its names. *)
Lemma safe_convert_find c tk p (Q : option (addr * bool * Z) -> claim -> Prop) :
  @converting tk p c -> (forall n, Q (Some (p, true, n)) c) -> safe (sec (convert_find tk)) Q c.
Proof.
  intros Hc HQ. apply safe_sec. intros m Hi Hh.
  destruct (linked_get strict c tk p m Hi Hh) as (s & r & t & Hs & Hp & Hr & Hin & Ht & Er & En); [split; [apply Hc|left; apply Hc]|].
  destruct (h_tok _ _ Hh _ _ (proj1 Hc)) as [_ [Hp' _]].
  unfold convert_find. rw Ht. cbn. destruct (find_on m t SHeld Hi) as (o & E & Ho). cbn in E. rw E. cbn.
  destruct o as [q|].
  - destruct Ho as (Hq & rq & Hrq & Enq).
    assert (q = p) as ->. { apply (inv_names _ _ Hi q p SHeld SHeld rq r); try done. by rw Enq -En. }
    rw Hr. cbn. destruct (count_shared_ok m r.(rs_tokens)) as [n En'].
    { intros x Hx. destruct (linked_tok strict m SHeld p r x Hi Hp' Hr Hx) as [_ (tx & Htx & _)]. eauto. }
    rw En'. cbn. rw bool_decide_eq_true_2 //. eexists _, m, c. split; [done|]. split; [done|]. split; [by apply passes_refl|done].
  - exfalso. by apply (Ho p r).
Qed.

Lemma safe_convert_token c tk p flags cmd_flags (Q : Z -> claim -> Prop) :
  strict = false \/ has_flag flags SANLK_RES_SHARED = true -> @converting tk p c -> @convert_post tk p Q ->
  safe (convert_token com fuel one junk_acq junk flags tk cmd_flags) Q c.
Proof.
  intros Hst Hc HQ. apply safe_bind, (safe_convert_find c tk p); [done|]. intros n. cbn [negb].
  apply safe_bind, safe_read_res; [by apply (@converting_works tk)|]. intros r.
  destruct (_ && _); [by apply HQ|]. destruct (_ && _); [by apply HQ|]. destruct (_ && _); [by apply HQ|].
  destruct (_ && _); [by apply HQ|].
  apply safe_bind, (safe_tok_open strict _ c tk (Holding p)); [apply Hc|]. intros rv. destruct (_ <? 0); [by apply HQ|].
  apply safe_bind. assert (Hend : @convert_post tk p (fun rv c => safe (tok_close tk;; mret rv) Q c)).
  { intros rv' c' Hc'. apply safe_bind, (safe_tok_close strict c' tk (Holding p)); [apply Hc'|]. by apply HQ. }
  destruct (has_flag flags SANLK_RES_SHARED); [by apply safe_convert_ex2sh|].
  apply safe_convert_sh2ex; try done. by destruct Hst.
Qed.
End acquire.
