(* ===== verification/ResourceBackground.v ===== *)
(** * The resource thread and the operations on whole lists are safe

    The operations of [Resource] that have no token of their own, in the logic of
    [ResourceLists]. *)

From S2P Require Import Prelude OnDisk SizeFlags Timeouts Io DeltaLease PaxosBlocks PaxosBallot PaxosLease.
From S2P Require Import Lockspace HostStatus Clients ResourceDisk Resource ResourceLists ResourceOps ResourceAcquire.

Section background.
Context (strict : bool).

Abbreviation inv := (inv strict).
Abbreviation safe := (safe strict).
Abbreviation kept := (kept strict).

(** ** Sections that keep every claim *)

Definition quiet (m m' : resmgr) : Prop := inv m' /\ forall c, holds c m -> holds c m'.

Lemma res_quiet_refl m : inv m -> quiet m m.
Proof. done. Qed.
Lemma res_quiet_trans m1 m2 m3 : quiet m1 m2 -> quiet m2 m3 -> quiet m1 m3.
Proof. intros [_ H1] [Hi H2]. split; auto. Qed.
Lemma quiet_core m m' : same_core m m' -> inv m -> quiet m m'.
Proof. intros Hs Hi. split; [by apply (inv_core strict m)|]. intros c. by apply holds_core. Qed.

Lemma safe_quiet {T} (f : resmgr -> option (T * resmgr)) (Q : T -> claim -> Prop) c :
  (forall m, inv m -> exists x m', f m = Some (x, m') /\ quiet m m') -> (forall x, Q x c) -> safe (sec f) Q c.
Proof.
  intros Hf HQ. apply safe_sec. intros m Hi Hh. destruct (Hf m Hi) as (x & m' & E & Hi' & Hq).
  exists x, m', c. split; [done|]. split; [done|]. split; [|done]. split; [by apply Hq|]. intros c2 Hc Hh2. split; [by apply Hq|done].
Qed.

Lemma res_quiet_set p s r f m :
  inv m -> p ∈ on s m.(rm_lists) -> get_res p m = Some r -> same_links r (f r) -> shared_res (f r) = shared_res r ->
  exists m', upd_res p f m = Some m' /\ quiet m m' /\ m'.(rm_lists) = m.(rm_lists).
Proof.
  intros Hi Hp Hr Hs Hm.
  destruct (upd_res_changes None p s r f m (inv_lists _ _ Hi) Hp Hr) as (m' & E & Hch & Htk & Hli & Hc).
  exists m'. split; [done|]. split; [|done]. split.
  - apply (inv_in_place strict p s r (f r) m m'); try done. intros Es Est. apply (mode_ok_same m m' r); try done; [apply Hs|].
    destruct (inv_slots _ _ Hi s p r Hp Hr) as [H _]. destruct Es as [-> | ->]; by apply H.
  - intros c. by apply (holds_in_place strict c p s r (f r) m m').
Qed.

(** ** Walks over a list *)

Lemma orphan_rem_ok p r m :
  inv m -> p ∈ on SOrphan m.(rm_lists) -> get_res p m = Some r ->
  exists m1 m', upd_res p (add_rflags R_THREAD_RELEASE) m = Some m1 /\ list_move add_rem p m1 = Some m' /\ quiet m m' /\
    forall q, q <> p -> q ∈ on SOrphan m.(rm_lists) -> q ∈ on SOrphan m'.(rm_lists).
Proof.
  intros Hi Hp Hr. set (r' := add_rflags R_THREAD_RELEASE r).
  destruct (upd_res_changes None p SOrphan r (add_rflags R_THREAD_RELEASE) m (inv_lists _ _ Hi) Hp Hr) as (m1 & E1 & Hch1 & Ht1 & Hl1 & Hc1).
  destruct (list_move_changes None p SOrphan SRem r' m1) as (m' & E2 & Hch2 & Ht2 & Hf2 & Hc2); try done.
  { rw Hl1. apply (inv_lists _ _ Hi). } { by rw Hl1. } { apply (ch_get_p Hch1). }
  pose proof (changes_trans None p SOrphan SOrphan SRem r r' r' m m1 m' Hch1 Hch2) as Hch.
  destruct (inv_slots _ _ Hi SOrphan p r Hp Hr) as [Hnil _].
  exists m1, m'. split; [done|]. split; [done|]. split; [split|].
  - apply (inv_changes None p SOrphan SRem r r' m m'); try done.
    + intros _. by left.
    + apply (count_kept strict m); [done|by rw Hf2 Hl1|by rw Hc2 Hc1].
  - intros c Hh. apply (holds_changes None p SOrphan SRem r r' m m'); try done.
    + apply (inv_lists _ _ Hi). + by left. + cbn. rw Hnil. by intros x _ ?%not_elem_of_nil.
  - intros q Hne Hq. apply (ch_on Hch). by right.
Qed.

Lemma orphans_to_rem_ok ls nm l m :
  inv m -> NoDup l -> (forall p, p ∈ l -> p ∈ on SOrphan m.(rm_lists)) ->
  exists n m', orphans_to_rem ls nm l m = Some (n, m') /\ quiet m m'.
Proof.
  intros Hi Hn Ha. revert m Hi Ha. induction Hn as [|p l Hp Hn IH]; intros m Hi Ha; cbn; [by exists 0, m|].
  assert (Hpo : p ∈ on SOrphan m.(rm_lists)) by (apply Ha; by left).
  destruct (on_alloc strict m SOrphan p Hi Hpo) as [r Hr]. rw Hr. cbn. destruct (_ && _).
  2: { apply IH; [done|]. intros q Hq. apply Ha. by right. }
  destruct (orphan_rem_ok p r m Hi Hpo Hr) as (m1 & m2 & E1 & E2 & Hq & Hon). rw E1. cbn. rw E2. cbn.
  destruct (IH m2) as (n & m3 & E3 & Hq3); [apply Hq| |].
  { intros q Hq'. apply Hon; [by intros ->|]. apply Ha. by right. }
  rw E3. cbn. exists (n + 1), m3. split; [done|]. by apply (res_quiet_trans m m2).
Qed.

Lemma purge_ok s name l m :
  s = SFree \/ s = SOrphan -> inv m -> NoDup l -> (forall p, p ∈ l -> p ∈ on s m.(rm_lists)) ->
  exists m', purge_resource_list name l m = Some m' /\ quiet m m'.
Proof.
  intros Hs Hi Hn Ha. revert m Hi Ha. induction Hn as [|p l Hp Hn IH]; intros m Hi Ha; cbn; [by exists m|].
  assert (Hpo : p ∈ on s m.(rm_lists)) by (apply Ha; by left).
  destruct (on_alloc strict m s p Hi Hpo) as [r Hr]. rw Hr. cbn. destruct (strncmp_eq _ _ _).
  2: { apply IH; [done|]. intros q Hq. apply Ha. by right. }
  destruct (drop_ok strict m p s Hi Hpo Hs) as (m1 & E & Hi1 & Hh1 & [_ Hon] & _). rw E. cbn.
  destruct (IH m1 Hi1) as (m2 & E2 & Hq2).
  { intros q Hq. apply Hon. split; [by intros ->|]. apply Ha. by right. }
  exists m2. split; [done|]. by apply (res_quiet_trans m m1).
Qed.

Lemma examine_flag_links r :
  (same_links r (add_rflags R_THREAD_EXAMINE r) /\ same_links r (clear_rflags R_THREAD_EXAMINE r)) /\
  shared_res (add_rflags R_THREAD_EXAMINE r) = shared_res r /\ shared_res (clear_rflags R_THREAD_EXAMINE r) = shared_res r.
Proof.
  split; [by apply flags_links|]. unfold shared_res. cbn. by rw has_flag_lor has_flag_clear_other // orb_false_r.
Qed.

Lemma mark_examine_ok ls nm l m :
  inv m -> (forall p, p ∈ l -> p ∈ on SHeld m.(rm_lists)) -> exists n m', mark_examine ls nm l m = Some (n, m') /\ quiet m m'.
Proof.
  revert m. induction l as [|p l IH]; intros m Hi Ha; cbn; [by exists 0, m|].
  assert (Hp : p ∈ on SHeld m.(rm_lists)) by (apply Ha; by left).
  destruct (on_alloc strict m SHeld p Hi Hp) as [r Hr]. rw Hr. cbn. destruct (_ && _).
  2: { apply IH; [done|]. intros q Hq. apply Ha. by right. }
  destruct (res_quiet_set p SHeld r (add_rflags R_THREAD_EXAMINE) m Hi Hp Hr) as (m1 & E & Hq & El); try apply examine_flag_links.
  rw E. cbn. set (m2 := m1 <| resource_thread_work := true |> <| resource_thread_work_examine := true |>).
  assert (Hq2 : quiet m m2) by (apply (res_quiet_trans m m1); [done|by apply quiet_core; [|apply Hq]]).
  destruct (IH m2) as (n & m3 & E3 & Hq3); [apply Hq2| |].
  { intros q Hq'. cbn. rw El. apply Ha. by right. }
  rw E3. cbn. exists (n + 1), m3. split; [done|]. by apply (res_quiet_trans m m2).
Qed.

Lemma in_lockspace_ok m name l :
  (forall p, p ∈ l -> exists r, get_res p m = Some r) -> exists n, in_lockspace m name l = Some n.
Proof.
  induction l as [|p l IH]; intros Ha; cbn; [eauto|]. destruct (Ha p) as [r Hr]; [by left|]. rw Hr. cbn.
  destruct IH as [n E]; [intros q Hq; apply Ha; by right|]. rw E. cbn. eauto.
Qed.

Lemma state_tokens_ok name m p l :
  (forall tk, tk ∈ l -> exists t, get_tok tk m = Some t) -> exists s, state_tokens name m p l = Some s.
Proof.
  induction l as [|tk l IH]; intros Ha; cbn; [eauto|]. destruct (Ha tk) as [t Ht]; [by left|]. rw Ht. cbn.
  destruct IH as [n E]; [intros q Hq; apply Ha; by right|]. rw E. cbn. eauto.
Qed.

Lemma state_list_ok name b m s :
  inv m -> forall l, (forall p, p ∈ l -> p ∈ on s m.(rm_lists)) -> exists x, state_list name b m l = Some x.
Proof.
  intros Hi l. induction l as [|p l IH]; intros Ha; cbn; [eauto|].
  assert (Hp : p ∈ on s m.(rm_lists)) by (apply Ha; by left).
  destruct (on_alloc strict m s p Hi Hp) as [r Hr]. rw Hr. cbn.
  assert (exists x, (if b then state_tokens name m p (rs_tokens r) else Some [(name, p, rs_pid r, 0)]) = Some x) as [x ->].
  { destruct b; [|eauto]. apply state_tokens_ok. intros tk Htk.
    destruct (linked_tok strict m s p r tk Hi Hp Hr Htk) as [_ (t & Ht & _)]. eauto. }
  cbn. destruct IH as [y ->]; [intros q Hq; apply Ha; by right|]. cbn. eauto.
Qed.

(** ** The operations *)

Lemma safe_release_orphan ls nm c (Q : Z -> claim -> Prop) : (forall n, Q n c) -> safe (release_orphan ls nm) Q c.
Proof.
  intros HQ. apply safe_quiet; [|done]. intros m Hi.
  destruct (orphans_to_rem_ok ls nm m.(rm_lists).(resources_orphan) m Hi (lo_nodup _ (inv_lists _ _ Hi) SOrphan)) as (n & m' & E & Hq); [done|].
  rw E. cbn. eexists n, _. split; [done|]. destruct (nz n); [|done]. apply (res_quiet_trans m m'); [done|].
  by apply quiet_core; [|apply Hq].
Qed.

Lemma safe_purge_orphans name c (Q : unit -> claim -> Prop) : Q tt c -> safe (purge_resource_orphans name) Q c.
Proof.
  intros HQ. apply safe_quiet; [|by intros []]. intros m Hi.
  destruct (purge_ok SOrphan name m.(rm_lists).(resources_orphan) m) as (m' & E & Hq); auto; [apply (lo_nodup _ (inv_lists _ _ Hi) SOrphan)|].
  rw E. cbn. by exists tt, m'.
Qed.

Lemma safe_purge_free name c (Q : unit -> claim -> Prop) : Q tt c -> safe (purge_resource_free name) Q c.
Proof.
  intros HQ. apply safe_quiet; [|by intros []]. intros m Hi.
  destruct (purge_ok SFree name m.(rm_lists).(resources_free) m) as (m' & E & Hq); auto; [apply (lo_nodup _ (inv_lists _ _ Hi) SFree)|].
  rw E. cbn. by exists tt, m'.
Qed.

Lemma safe_set_examine ls nm c (Q : Z -> claim -> Prop) : (forall n, Q n c) -> safe (set_resource_examine ls nm) Q c.
Proof.
  intros HQ. apply safe_quiet; [|done]. intros m Hi. by apply mark_examine_ok.
Qed.

Lemma safe_core {T} (f : resmgr -> T * resmgr) (Q : T -> claim -> Prop) c :
  (forall m, same_core m (snd (f m))) -> (forall x, Q x c) -> safe (sec (fun m => Some (f m))) Q c.
Proof.
  intros Hf HQ. apply safe_quiet; [|done]. intros m Hi. exists (fst (f m)), (snd (f m)).
  split; [by destruct (f m)|]. by apply quiet_core.
Qed.

Lemma safe_rem_resources c (Q : unit -> claim -> Prop) : Q tt c -> safe rem_resources Q c.
Proof. intros HQ. apply safe_core; [|by intros []]. intros m. cbn. by destruct (resources_rem (rm_lists m)). Qed.

Lemma safe_close_manager c (Q : unit -> claim -> Prop) : Q tt c -> safe close_token_manager Q c.
Proof. intros HQ. apply safe_core; [done|by intros []]. Qed.

Lemma safe_add_event id he h g c (Q : unit -> claim -> Prop) : Q tt c -> safe (add_host_event id he h g) Q c.
Proof.
  intros HQ. apply safe_bind, safe_disk. intros [|]; [|done]. apply safe_core; [done|by intros []].
Qed.

(** A section that only reads. *)
Lemma safe_reads {T} (f : resmgr -> option T) (Q : T -> claim -> Prop) c :
  (forall m, inv m -> exists x, f m = Some x) -> (forall x, Q x c) -> safe (sec (fun m => x ← f m; Some (x, m))) Q c.
Proof.
  intros Hf HQ. apply safe_quiet; [|done]. intros m Hi. destruct (Hf m Hi) as [x E]. exists x, m. rw E. by split.
Qed.

Lemma safe_used name c (Q : bool -> claim -> Prop) : (forall b, Q b c) -> safe (lockspace_is_used name) Q c.
Proof.
  intros HQ. apply safe_quiet; [|done]. intros m Hi.
  destruct (in_lockspace_ok m name (m.(rm_lists).(resources_held) ++ m.(rm_lists).(resources_add) ++
    m.(rm_lists).(resources_rem) ++ m.(rm_lists).(resources_orphan))) as [n E].
  { intros p Hp. rw !elem_of_app in Hp. destruct Hp as [H|[H|[H|H]]];
      [exact (on_alloc strict m SHeld p Hi H)|exact (on_alloc strict m SAdd p Hi H)|
       exact (on_alloc strict m SRem p Hi H)|exact (on_alloc strict m SOrphan p Hi H)]. }
  cbn beta zeta. rw E. cbn. by exists (nz n), m.
Qed.

Lemma safe_orphan_count name c (Q : Z -> claim -> Prop) : (forall n, Q n c) -> safe (resource_orphan_count name) Q c.
Proof.
  apply safe_reads. intros m Hi. apply in_lockspace_ok. intros p. exact (on_alloc strict m SOrphan p Hi).
Qed.

Lemma safe_send_state c (Q : list (string * addr * Z * Z) -> claim -> Prop) : (forall x, Q x c) -> safe send_state_resources Q c.
Proof.
  intros HQ. apply safe_quiet; [|done]. intros m Hi. cbn.
  destruct (state_list_ok "held" true m SHeld Hi m.(rm_lists).(resources_held)) as [x1 ->]; [done|].
  destruct (state_list_ok "add" true m SAdd Hi m.(rm_lists).(resources_add)) as [x2 ->]; [done|].
  destruct (state_list_ok "rem" false m SRem Hi m.(rm_lists).(resources_rem)) as [x3 ->]; [done|].
  destruct (state_list_ok "orphan" false m SOrphan Hi m.(rm_lists).(resources_orphan)) as [x4 ->]; [done|].
  cbn. eexists _, m. by split.
Qed.

(** ** The resource thread *)

Lemma find_thread_ok m now flag l :
  (forall p, p ∈ l -> exists r, get_res p m = Some r) ->
  exists o, find_resource_thread m now flag l = Some o /\
    forall p, o = Some p -> p ∈ l /\ exists r, get_res p m = Some r /\ has_flag r.(rs_flags) flag = true.
Proof.
  induction l as [|p l IH]; intros Ha; cbn; [by exists None|]. destruct (Ha p) as [r Hr]; [by left|]. rw Hr. cbn.
  destruct (_ && _) eqn:E.
  - exists (Some p). split; [done|]. intros q [= <-]. split; [by left|]. exists r. split; [done|].
    by apply andb_true_iff in E as [? _].
  - destruct IH as (o & Eo & Ho); [intros q Hq; apply Ha; by right|]. exists o. split; [done|]. intros q Eq.
    destruct (Ho q Eq) as [Hq ?]. split; [by right|done].
Qed.

Definition rem_claim (p : addr) : claim := Claim None false (Some p).

Context (junk : leader_record) (past : nat -> sync_disk).

Lemma safe_thread_section now (Q : thread_job -> claim -> Prop) :
  (forall j, match j with JobRelease p _ => Q j (rem_claim p) | _ => Q j no_claim end) ->
  safe (sec (thread_section past now)) Q no_claim.
Proof.
  intros HQ. apply safe_sec. intros m Hi Hh.
  assert (Hend : forall j m', quiet m m' -> Q j no_claim -> section_ends strict (Some (j, m')) no_claim m Q).
  { intros j m' [Hi' Hq] Hj. exists j, m', no_claim. split; [done|]. split; [done|]. split; [|done].
    split; [by apply Hq|]. intros c2 Hc2 Hh2. split; [by apply Hq|done]. }
  unfold thread_section. destruct (negb _).
  { apply Hend; [done|]. destruct (resource_thread_stop m); [apply (HQ JobStop)|apply (HQ JobWait)]. }
  destruct (host_events m) as [|e es]; [|apply Hend; [by apply quiet_core|apply (HQ (JobEvent e))]].
  destruct (find_thread_ok m now R_THREAD_RELEASE m.(rm_lists).(resources_rem)) as (o & E & Ho).
  { intros p. exact (on_alloc strict m SRem p Hi). }
  rw E. cbn [mbind option_bind]. destruct o as [p|].
  - destruct (Ho p eq_refl) as (Hp & r & Hr & Hfl). rw Hr. cbn [mbind option_bind].
    destruct (rem_change_ok strict no_claim (rem_claim p) p r
      (fun r => clear_rflags R_THREAD_RELEASE r <| rs_thread_release_retry := next_retry now r |>) m)
      as (m' & E' & Hi' & Hps); try done.
    + by right.
    + right. split; [done|]. unfold async_res. cbn. by rw has_flag_clear_same.
    + rw E'. cbn. eexists _, m', (rem_claim p). split; [done|]. split; [done|]. split; [done|].
      apply (HQ (JobRelease p (thread_token past r))).
  - destruct (find_thread_ok m now R_THREAD_EXAMINE m.(rm_lists).(resources_held)) as (o & E2 & Ho2).
    { intros p. exact (on_alloc strict m SHeld p Hi). }
    assert (exists o', (if resource_thread_work_examine m then find_resource_thread m now R_THREAD_EXAMINE (resources_held (rm_lists m)) else Some None) = Some o'
      /\ forall p, o' = Some p -> p ∈ on SHeld m.(rm_lists)) as (o' & E' & Ho').
    { destruct (resource_thread_work_examine m); [|by exists None]. exists o. split; [done|]. intros p Eo. by apply Ho2. }
    rw E'. cbn [mbind option_bind]. destruct o' as [p|].
    + destruct (on_alloc strict m SHeld p Hi (Ho' p eq_refl)) as [r Hr]. rw Hr. cbn [mbind option_bind].
      destruct (res_quiet_set p SHeld r (clear_rflags R_THREAD_EXAMINE) m Hi (Ho' p eq_refl) Hr) as (m1 & E1 & Hq & _); try apply examine_flag_links.
      rw E1. cbn [mbind option_bind]. apply Hend; [done|]. apply (HQ (JobExamine _ _ _)).
    + apply Hend; [by apply quiet_core|apply (HQ JobNone)].
Qed.

Lemma safe_do_request t pid mode c (Q : unit -> claim -> Prop) : Q tt c -> safe (do_request t pid mode) Q c.
Proof.
  intros HQ. apply safe_bind, safe_quiet.
  - intros m Hi. unfold request_find. destruct (find_on strict m t SHeld Hi) as (o & E & Ho). cbn in E. rw E. cbn.
    destruct o as [p|]; [|by eexists _, m]. destruct Ho as (_ & r & Hr & _). rw Hr. cbn. by eexists _, m.
  - intros [[[[flags kp] ka]|] fd]; [|done]. destruct (fd =? -1); [done|].
    destruct (request_msg _ _ _ _ _); [|done]. apply safe_bind, safe_disk. by intros _.
Qed.

Lemma safe_thread_examine t pid lver c (Q : unit -> claim -> Prop) : Q tt c -> safe (resource_thread_examine t pid lver) Q c.
Proof.
  intros HQ. apply safe_bind, safe_disk. intros o. destruct (_ <? 0); [done|].
  apply safe_bind, safe_disk. intros [rv e]. apply safe_bind, safe_disk. intros _. destruct e as [req|]; [|done].
  destruct (negb _); [done|]. destruct (_ || _); [done|]. destruct (_ <=? _); [done|]. by apply safe_do_request.
Qed.

Lemma safe_thread_release p t (Q : unit -> claim -> Prop) : Q tt no_claim -> safe (resource_thread_release junk p t) Q (rem_claim p).
Proof.
  intros HQ. assert (Hout : forall b, safe (release_out p 0 b;; mret ()) Q (rem_claim p)).
  { intros b. apply safe_bind, safe_release_out; [done|done|by intros _]. }
  apply safe_bind, safe_disk. intros o. destruct (_ <? 0); [apply Hout|].
  apply safe_bind, safe_disk. intros i. apply safe_bind, safe_read_res; [by right; right|]. intros r.
  apply safe_bind. assert (Hrest : forall a : bool * bool * leader_record, safe (let '(retry_async, lvb_written, leader) := a in
    set_res p (put_released (Released 0 retry_async lvb_written leader));;
    disk (close_disks (with_disks (snd o) t).(t_disks));; release_out p 0 retry_async;; mret ()) Q (rem_claim p)).
  { intros [[retry lvb] leader]. apply safe_bind, safe_set_res; [by right; right|apply put_released_links|left; apply put_released_mode|].
    apply safe_bind, safe_disk. intros _. apply Hout. }
  destruct (_ || _); [apply Hrest|]. apply safe_disk. apply Hrest.
Qed.

Lemma safe_thread_turn (Q : bool -> claim -> Prop) : (forall b, Q b no_claim) -> safe (resource_thread_turn junk past) Q no_claim.
Proof.
  intros HQ. apply safe_bind, safe_disk. intros now. apply safe_bind, safe_thread_section. intros []; try apply HQ.
  - apply safe_bind, safe_disk. intros _. apply HQ.
  - apply safe_bind, safe_thread_release. apply HQ.
  - apply safe_bind, safe_thread_examine. apply HQ.
Qed.
End background.
