(* ===== verification/ResourceSystem.v ===== *)
(** * Resources of a running daemon

    The operations of [Resource] as threads of one system: any number of them, each
    interrupted between its critical sections and during i/o, whose results are
    arbitrary. The theorems hold in every state such a system reaches from the state
    that [setup_token_manager] leaves. *)

From S2P Require Import Prelude OnDisk SizeFlags Timeouts Io DeltaLease PaxosBlocks PaxosBallot PaxosLease PaxosSafety.
From S2P Require Import Lockspace HostStatus Clients ResourceDisk Resource ResourceLists ResourceOps ResourceAcquire ResourceBackground.

(** ** Tokens *)

(** The token that a command allocates, on no list, and its end. *)
Definition alloc_token (t : rtoken) (m : resmgr) : option (addr * resmgr) :=
  let tk := fresh (dom m.(rm_toks)) in
  Some (tk, m <| rm_toks := <[tk := MToken t 0 None]> m.(rm_toks) |>).
Definition free_token (tk : addr) (m : resmgr) : option (unit * resmgr) :=
  _ ← get_tok tk m; Some (tt, m <| rm_toks := delete tk m.(rm_toks) |>).

(** The main thread stores the state of the lockspace in a token of a client. *)
Definition mark_space_dead (tk : addr) (n : Z) (m : resmgr) : option (unit * resmgr) :=
  Some (tt, default m (upd_tok tk (fun t => t <| mt_tok := t.(mt_tok) <| tk_space_dead := n |> |>) m)).

(** How a client gives up a token: a release command, or its death. *)
Inductive ending := EndRelease (resrename : option (list Z)) | EndAsync.

Section system.
Context (com : res_com) (fuel : nat) (one : lease_area) (junk_acq : acq) (junk : leader_record).
Context (past : nat -> sync_disk).

Fixpoint converts (tk : addr) (l : list (Z * Z)) : rthread unit :=
  match l with
  | [] => mret tt
  | (res_flags, cmd_flags) :: l =>
      convert_token com fuel one junk_acq junk res_flags tk cmd_flags;; converts tk l
  end.

(** The life of a token: acquired, converted a number of times, given up. *)
Definition session (t : rtoken) (cmd_flags : Z) (killpath killargs : list Z) (l : list (Z * Z)) (e : ending)
    : rthread unit :=
  tk ← sec (alloc_token t);
  rv ← acquire_token com fuel one junk_acq junk past tk cmd_flags killpath killargs;
  (if rv <? 0 then mret tt
   else
     converts tk l;;
     match e with
     | EndRelease resrename => release_token junk tk resrename;; mret tt
     | EndAsync => release_token_async tk
     end);;
  sec (free_token tk).

Definition ignore {A} (t : rthread A) : rthread unit := t;; mret tt.

(** The threads of a system; [exclusive]: a convert may ask for the exclusive mode. *)
Inductive job (exclusive : bool) : rthread unit -> Prop :=
  | job_session t cmd_flags kp ka l e :
      exclusive = true \/ Forall (fun c => has_flag (fst c) SANLK_RES_SHARED = true) l ->
      job exclusive (session t cmd_flags kp ka l e)
  | job_space_dead tk n : job exclusive (sec (mark_space_dead tk n))
  | job_thread : job exclusive (ignore (resource_thread_turn junk past))
  | job_examine space_name res_name : job exclusive (ignore (set_resource_examine space_name res_name))
  | job_event space_id he h g : job exclusive (add_host_event space_id he h g)
  | job_release_orphan ls nm : job exclusive (ignore (release_orphan ls nm))
  | job_purge_orphans name : job exclusive (purge_resource_orphans name)
  | job_purge_free name : job exclusive (purge_resource_free name)
  | job_rem : job exclusive rem_resources
  | job_close : job exclusive close_token_manager
  | job_used name : job exclusive (ignore (lockspace_is_used name))
  | job_orphan_count name : job exclusive (ignore (resource_orphan_count name))
  | job_state : job exclusive (ignore send_state_resources).

(** ** Steps *)

Definition thread_step {A} (t : rthread A) (m : resmgr) (t' : rthread A) (m' : resmgr) : Prop :=
  match t with
  | RSec f k => exists x, f m = Some (x, m') /\ t' = k x
  | RIo _ k => m' = m /\ exists x, t' = k x
  | _ => False
  end.

(** The next section of the thread would follow a dangling pointer. *)
Definition fails {A} (t : rthread A) (m : resmgr) : Prop :=
  match t with RSec f _ => f m = None | _ => False end.

Inductive reach (exclusive : bool) (kill_fd : Z) : resmgr -> list (rthread unit) -> Prop :=
  | reach_init : reach exclusive kill_fd (setup_token_manager kill_fd) []
  | reach_start m ts t : reach exclusive kill_fd m ts -> job exclusive t -> reach exclusive kill_fd m (t :: ts)
  | reach_step m ts i t t' m' :
      reach exclusive kill_fd m ts -> ts !! i = Some t -> thread_step t m t' m' ->
      reach exclusive kill_fd m' (<[i := t']> ts).
End system.

(** ** Allocating and freeing a token *)

Section proofs.
Context (strict : bool).

Abbreviation inv := (inv strict).
Abbreviation safe := (safe strict).

(** A change of tokens that are on no list. *)
Definition same_but_toks (m m' : resmgr) : Prop :=
  m'.(rm_heap) = m.(rm_heap) /\ m'.(rm_lists) = m.(rm_lists) /\ m'.(resources_free_count) = m.(resources_free_count).

Lemma toks_inv m m' :
  inv m -> same_but_toks m m' ->
  (forall p r tk, get_res p m = Some r -> tk ∈ r.(rs_tokens) -> get_tok tk m' = get_tok tk m) -> inv m'.
Proof.
  intros [H1 H2 H3 H4 H5] (Eh & El & Ec) Ht. split; unfold get_res in *; rw ?Eh ?El ?Ec; try done.
  intros s p r Hp Hr. destruct (H3 s p r Hp Hr) as [Hs Ha]. split; [|done].
  assert (Hl : linked m p r -> linked m' p r).
  { intros (Hn & Hne & Hl). split; [done|]. split; [done|]. intros tk Htk. rw (Ht p r) //. by apply Hl. }
  assert (Hm : mode_ok m r -> mode_ok m' r).
  { unfold mode_ok. destruct (shared_res r); [|done]. intros Hm tk t Htk. rw (Ht p r) //. by apply Hm. }
  destruct s; try done; [destruct Hs as [? ?]; auto|destruct Hs as (? & ? & ?); auto].
Qed.

Lemma toks_holds c m m' :
  holds c m -> same_but_toks m m' -> (forall tk, c_key c = Some tk -> get_tok tk m' = get_tok tk m) -> holds c m'.
Proof.
  intros [H1 H2 H3] (Eh & El & _) Ht. split; unfold place_holds, get_res in *; rw ?Eh ?El.
  - intros tk pl E. rw Ht; [unfold c_key; by rw E|]. by apply H1.
  - intros tk t Hs Ek. rw Ht //. by apply H2.
  - done.
Qed.

Definition idle_claim (tk : addr) : claim := Claim (Some (tk, Idle)) false None.

(** A token on the list of a resource is allocated. *)
Lemma on_list_alloc m p r tk : inv m -> get_res p m = Some r -> tk ∈ r.(rs_tokens) -> exists t, get_tok tk m = Some t.
Proof.
  intros Hi Hr Htk. assert (is_Some (get_res p m)) as [s Hp]%(inv_alloc _ _ Hi) by (by exists r).
  destruct (linked_tok strict m s p r tk Hi Hp Hr Htk) as [_ (t & Ht & _)]. eauto.
Qed.

Lemma safe_alloc t (Q : addr -> claim -> Prop) : (forall tk, Q tk (idle_claim tk)) -> safe (sec (alloc_token t)) Q no_claim.
Proof.
  intros HQ. apply safe_sec. intros m Hi Hh. set (tk := fresh (dom m.(rm_toks))).
  assert (Hf : get_tok tk m = None) by (apply not_elem_of_dom, is_fresh).
  eexists tk, _, (idle_claim tk). split; [done|].
  set (m' := m <| rm_toks := _ |>).
  assert (Hg : forall x y, get_tok x m = Some y -> get_tok x m' = get_tok x m).
  { intros x y Hx. unfold get_tok. cbn. rw lookup_insert_ne //. intros Ex. rw -Ex Hf in Hx. done. }
  split; [|split; [split|done]].
  - apply (toks_inv m); [done|done|]. intros p r x Hr Hx. destruct (on_list_alloc m p r x Hi Hr Hx) as [y Hy]. by apply (Hg x y).
  - split; [|done|done]. intros x pl [= <- <-]. split; [unfold get_tok; cbn; rw lookup_insert_eq; eauto|].
    intros p r Hr Hin. destruct (on_list_alloc m p r tk Hi Hr Hin) as [y Hy]. by rw Hf in Hy.
  - intros c2 Hc2 Hh2.
    assert (Hk : forall x, c_key c2 = Some x -> is_Some (get_tok x m)).
    { intros x Ex. unfold c_key in Ex. destruct (c_tok c2) as [[y pl]|] eqn:E; [|done]. injection Ex as <-.
      apply (h_tok _ _ Hh2 _ _ E). }
    split.
    + apply (toks_holds c2 m m'); try done. intros x Ex. destruct (Hk x Ex) as [y Hy]. by apply (Hg x y).
    + split; [|done]. intros x [= <-] Ex. destruct (Hk _ Ex) as [y Hy]. by rw Hf in Hy.
Qed.

Lemma safe_free c tk (Q : unit -> claim -> Prop) :
  c.(c_tok) = Some (tk, Idle) -> c.(c_rem) = None -> Q tt no_claim -> safe (sec (free_token tk)) Q c.
Proof.
  intros Ec Er HQ. apply safe_sec. intros m Hi Hh. destruct (h_tok _ _ Hh _ _ Ec) as [[t Ht] Hidle].
  unfold free_token. rw Ht. cbn. eexists tt, _, no_claim. split; [done|]. set (m' := m <| rm_toks := _ |>).
  assert (Hg : forall x, x <> tk -> get_tok x m' = get_tok x m).
  { intros x Hx. unfold get_tok. cbn. by rw lookup_delete_ne. }
  split; [|split; [split|done]].
  - apply (toks_inv m); [done|done|]. intros p r x Hr Hx. apply Hg. intros ->. by apply (Hidle p r).
  - by split.
  - intros c2 [Hk Hr] Hh2. split; [|by split]. apply (toks_holds c2 m m'); try done. intros x Ex. apply Hg. intros ->.
    apply (Hk tk); [|done]. unfold c_key. by rw Ec.
Qed.

Lemma safe_mark_dead tk n c (Q : unit -> claim -> Prop) : Q tt c -> safe (sec (mark_space_dead tk n)) Q c.
Proof.
  intros HQ. apply (safe_quiet strict); [|by intros []]. intros m Hi. unfold mark_space_dead.
  destruct (upd_tok tk _ m) as [m'|] eqn:E; cbn; [|by exists tt, m]. exists tt, m'. split; [done|]. split.
  - by apply (upd_tok_inv strict tk _ m m' Hi E).
  - intros c2 Hh. by apply (upd_tok_holds tk _ m m' c2 E Hh).
Qed.

(** ** Every thread is safe *)

Context (com : res_com) (fuel : nat) (one : lease_area) (junk_acq : acq) (junk : leader_record).
Context (past : nat -> sync_disk).

Lemma safe_converts tk p l c (Q : unit -> claim -> Prop) :
  strict = false \/ Forall (fun c => has_flag (fst c) SANLK_RES_SHARED = true) l ->
  @converting tk p c -> (forall c', @converting tk p c' -> Q tt c') ->
  safe (converts com fuel one junk_acq junk tk l) Q c.
Proof.
  intros Hs Hc HQ. revert c Hc. induction l as [|[rf cf] l IH]; intros c Hc; cbn [converts]; [by apply HQ|].
  apply safe_bind, (safe_convert_token strict _ _ _ _ _ c tk p); [|done|].
  - destruct Hs as [?|Hs]; [by left|]. right. by inversion Hs.
  - intros rv c' Hc'. apply IH; [|done]. destruct Hs as [?|Hs]; [by left|]. right. by inversion Hs.
Qed.

Lemma safe_session t cf kp ka l e (Q : unit -> claim -> Prop) :
  strict = false \/ Forall (fun c => has_flag (fst c) SANLK_RES_SHARED = true) l -> Q tt no_claim ->
  safe (session com fuel one junk_acq junk past t cf kp ka l e) Q no_claim.
Proof.
  intros Hs HQ. apply safe_bind, safe_alloc. intros tk.
  apply safe_bind, safe_acquire_token; [done|done|]. intros rv c Hpost. unfold acquire_post in Hpost. apply safe_bind.
  assert (Hend : forall c, c.(c_tok) = Some (tk, Idle) -> c.(c_rem) = None -> safe (sec (free_token tk)) Q c).
  { intros c' E1 E2. by apply safe_free. }
  destruct (rv <? 0); [rw Hpost; by apply Hend|]. destruct Hpost as [p ->].
  apply safe_bind, (safe_converts tk p); [done|done|]. intros c' [E1 E2].
  destruct e as [rn|].
  - apply safe_bind, (safe_release_token strict junk c' tk p); [split; [done|by left]|]. intros _. by apply Hend.
  - apply (safe_release_token_async strict c' tk p); [split; [done|by left]|]. by apply Hend.
Qed.

Lemma safe_ignore {A} (t : rthread A) (Q : unit -> claim -> Prop) c : safe t (fun _ c => Q tt c) c -> safe (ignore t) Q c.
Proof. intros H. by apply safe_bind. Qed.

Lemma safe_job t : job com fuel one junk_acq junk past (negb strict) t -> safe t (fun _ _ => True) no_claim.
Proof.
  intros Hj. destruct Hj as [t cf kp ka l e He|tk n| |ls nm|i he h g|ls nm|nm|nm| | |nm|nm| ]; try apply safe_ignore.
  - apply safe_session; [|done]. destruct strict; destruct He; auto.
  - by apply safe_mark_dead.
  - by apply safe_thread_turn.
  - by apply safe_set_examine.
  - by apply safe_add_event.
  - by apply safe_release_orphan.
  - by apply safe_purge_orphans.
  - by apply safe_purge_free.
  - by apply safe_rem_resources.
  - by apply safe_close_manager.
  - by apply safe_used.
  - by apply safe_orphan_count.
  - by apply safe_send_state.
Qed.

(** ** The system *)

(** Each thread is safe with a claim that holds, and the claims are compatible. *)
Definition claimed (m : resmgr) (ts : list (rthread unit)) : Prop :=
  exists cs, Forall2 (fun t c => safe t (fun _ _ => True) c) ts cs /\ Forall (fun c => holds c m) cs /\
    forall i j c1 c2, cs !! i = Some c1 -> cs !! j = Some c2 -> i <> j -> compat c1 c2.

Lemma init_inv kill_fd : inv (setup_token_manager kill_fd).
Proof.
  split.
  - split; [by intros []; constructor|]. by intros p []; cbn; intros s2 ?%not_elem_of_nil.
  - intros p. split; [by intros [? ?]|]. by intros [[] ?%not_elem_of_nil].
  - by intros s p r _ ?.
  - by intros p q s1 s2 r1 r2 _ _ _ _ ?.
  - cbn. unfold FREE_RES_COUNT. lia.
Qed.

Lemma no_claim_holds m : holds no_claim m.
Proof. by split. Qed.
Lemma no_claim_compat c : compat no_claim c /\ compat c no_claim.
Proof. split; split; try done; by intros x _. Qed.

(** A step of a safe thread. *)
Lemma step_claimed m ts i t t' m' :
  inv m -> claimed m ts -> ts !! i = Some t -> thread_step t m t' m' -> inv m' /\ claimed m' (<[i := t']> ts).
Proof.
  intros Hi (cs & Hs & Hh & Hc) Ht Hstep.
  destruct (Forall2_lookup_l _ _ _ _ _ Hs Ht) as (c & Hci & Hsafe). pose proof (Forall_lookup_1 _ _ _ _ Hh Hci) as Hhc.
  assert (Hmain : exists c', inv m' /\ passes c c' m m' /\ safe t' (fun _ _ => True) c').
  { destruct t as [a| | |T f k|X cm k]; cbn in Hstep; try done.
    - destruct Hstep as (x & E & ->). destruct (Hsafe m Hi Hhc) as (y & m1 & c' & E' & H1 & H2 & H3).
      rw E in E'. injection E' as <- <-. eauto.
    - destruct Hstep as (-> & x & ->). exists c. split; [done|]. split; [done|]. apply Hsafe. }
  destruct Hmain as (c' & Hi' & [Hh' Hp] & Hsafe'). split; [done|]. exists (<[i := c']> cs).
  assert (Hlen : (i < length cs)%nat) by (by apply (lookup_lt_Some _ _ c)).
  split; [by apply Forall2_insert|]. split.
  - apply Forall_lookup_2. intros j cj. destruct (decide (j = i)) as [-> |Hji]; [rw list_lookup_insert_eq //; by intros [= <-]|].
    rw list_lookup_insert_ne; [by apply not_eq_sym|]. intros Hj. apply Hp; [apply (Hc i j); try done; by apply not_eq_sym|by apply (Forall_lookup_1 _ _ _ _ Hh Hj)].
  - intros j1 j2 c1 c2 H1 H2 Hne.
    assert (Hsym : forall a b, compat a b -> compat b a).
    { intros a b [A B]. split; [intros x Hx Hy; by apply (A x)|intros x Hx Hy; by apply (B x)]. }
    assert (Hother : forall j cj, cs !! j = Some cj -> j <> i -> compat c' cj).
    { intros j cj Hj Hji. apply Hp; [apply (Hc i j); try done; by apply not_eq_sym|by apply (Forall_lookup_1 _ _ _ _ Hh Hj)]. }
    destruct (decide (j1 = i)) as [-> |N1], (decide (j2 = i)) as [-> |N2]; try done.
    + rw list_lookup_insert_eq // in H1. injection H1 as <-. rw list_lookup_insert_ne // in H2. by apply (Hother j2).
    + rw list_lookup_insert_eq // in H2. injection H2 as <-. rw list_lookup_insert_ne // in H1. by apply Hsym, (Hother j1).
    + rw list_lookup_insert_ne // in H1. rw list_lookup_insert_ne // in H2. by apply (Hc j1 j2).
Qed.

Lemma reach_ok kill_fd m ts :
  reach com fuel one junk_acq junk past (negb strict) kill_fd m ts -> inv m /\ claimed m ts.
Proof.
  induction 1 as [|m ts t _ [Hi (cs & Hs & Hh & Hc)] Hj|m ts i t t' m' _ [Hi Hcl] Ht Hstep].
  - split; [apply init_inv|]. exists []. split; [constructor|]. split; [constructor|]. by intros i j c1 c2; rw lookup_nil.
  - split; [done|]. exists (no_claim :: cs). split; [constructor; [by apply safe_job|done]|]. split; [constructor; [apply no_claim_holds|done]|].
    intros [|i] [|j] c1 c2 E1 E2 Hne; cbn in E1, E2; try done.
    + injection E1 as <-. apply no_claim_compat. + injection E2 as <-. apply no_claim_compat. + apply (Hc i j); auto.
  - by apply (step_claimed m ts i t).
Qed.

Lemma safe_no_fail {A} (t : rthread A) Q c m : safe t Q c -> inv m -> holds c m -> ~ fails t m.
Proof.
  intros Hs Hi Hh Hf. destruct t as [a| | |T f k|X cm k]; cbn in *; try done.
  destruct (Hs m Hi Hh) as (x & m' & c' & E & _). congruence.
Qed.
End proofs.

(** ** Concrete runs *)

(** [n] steps of a thread against a world. *)
Fixpoint rsteps {A W} (hd : handler W) (n : nat) (t : rthread A) (m : resmgr) (w : W) : rthread A * resmgr * W :=
  match n, t with
  | S n, RSec f k => match f m with Some (x, m') => rsteps hd n (k x) m' w | None => (t, m, w) end
  | S n, RIo c k => let '(x, w) := hd _ c w in rsteps hd n (k x) m w
  | _, _ => (t, m, w)
  end.

(** Turns of threads: which thread, and how many steps. *)
Fixpoint turns {W} (hd : handler W) (l : list (nat * nat)) (ts : list (rthread unit)) (m : resmgr) (w : W)
    : list (rthread unit) * resmgr * W :=
  match l with
  | [] => (ts, m, w)
  | (i, n) :: l =>
      match ts !! i with
      | Some t => let '(t, m, w) := rsteps hd n t m w in turns hd l (<[i := t]> ts) m w
      | None => (ts, m, w)
      end
  end.

Section runs.
Context {com : res_com} {fuel : nat} {one : lease_area} {junk_acq : acq} {junk : leader_record}.
Context {past : nat -> sync_disk} {exclusive : bool} {kill_fd : Z}.

Abbreviation reach := (reach com fuel one junk_acq junk past exclusive kill_fd).

Lemma rsteps_reach {W} (hd : handler W) n ts i t m w t' m' w' :
  reach m ts -> ts !! i = Some t -> rsteps hd n t m w = (t', m', w') -> reach m' (<[i := t']> ts).
Proof.
  revert ts t m w. induction n as [|n IH]; intros ts t m w Hr Ht E.
  { cbn in E. injection E as <- <- _. by rw list_insert_id. }
  assert (Hend : (t, m, w) = (t', m', w') -> reach m' (<[i := t']> ts)) by (intros [= <- <- _]; by rw list_insert_id).
  assert (Hlt : (i < length ts)%nat) by (by apply (lookup_lt_Some _ _ t)).
  destruct t as [a| | |T f k|X cm k]; cbn in E; try by apply Hend.
  - destruct (f m) as [[x m1]|] eqn:Ef; [|by apply Hend].
    rw -(list_insert_insert_eq ts i t' (k x)). apply (IH _ (k x) m1 w); [|by rw list_lookup_insert_eq|done].
    apply (reach_step _ _ _ _ _ _ _ _ m ts i (RSec f k)); try done. by exists x.
  - destruct (hd X cm w) as [x w1]. rw -(list_insert_insert_eq ts i t' (k x)).
    apply (IH _ (k x) m w1); [|by rw list_lookup_insert_eq|done].
    apply (reach_step _ _ _ _ _ _ _ _ m ts i (RIo cm k)); try done. split; [done|]. by exists x.
Qed.

Lemma turns_reach {W} (hd : handler W) l ts m w :
  reach m ts -> let '(ts', m', _) := turns hd l ts m w in reach m' ts'.
Proof.
  revert ts m w. induction l as [|[i n] l IH]; intros ts m w Hr; cbn [turns]; [done|].
  destruct (ts !! i) as [t|] eqn:Et; [|done]. destruct (rsteps hd n t m w) as [[t' m'] w'] eqn:E.
  apply IH. by apply (rsteps_reach hd n ts i t m w t' m' w').
Qed.
End runs.

(** *** A lease on one disk *)

Definition lease_disk (fd : Z) : sync_disk := SyncDisk [7] 0 512 fd.
Definition lease_token (flags : Z) : rtoken :=
  RToken 1 (Token 2 9 10 0 512 1048576 0 (zeros HOSTID_BITMAP_SIZE) [lease_disk (-1)] [76; 83] [82] 0)
    0 0 0 flags 1 100 0 0.
Definition lease_com : res_com := ResCom (Com 60 40 0 0 0 10) 0 0 8.
Definition lease_opened : token := with_disks [lease_disk 7] (lease_token 0).
Definition lease_world : world :=
  snd (run world_handler (paxos_lease_init lease_com lease_opened 4 false)
    (World (fun _ => mem_zero) 1000 [] [] 0 (fun _ => HostStatus 0 0 0 0 0 0 0 0 0 0 []))).
Definition no_area : lease_area := LeaseArea leader_zero dblock_zero 0 0.

Definition lease_session (flags : Z) (l : list (Z * Z)) : rthread unit :=
  session lease_com 5 no_area (acq_start lease_opened) leader_zero (fun _ => zero_disk) (lease_token flags) 0 [] [] l (EndRelease None).

(** ** Properties *)

Section properties.
Context (com : res_com) (fuel : nat) (one : lease_area) (junk_acq : acq) (junk : leader_record).
Context (past : nat -> sync_disk) (kill_fd : Z).

(** C11: The lists of resources stay consistent. In every state that threads of the
    daemon reach, whatever the results of i/o and however their critical sections
    interleave, every resource is on exactly one list, no two resources in use have the
    same names, every token on the list of a resource points to it and has its names,
    at most 128 resources are free; and no section that a thread is about to enter
    follows a dangling pointer. *)
Theorem resources_consistent exclusive m ts :
  reach com fuel one junk_acq junk past exclusive kill_fd m ts ->
  inv (negb exclusive) m /\ forall t, t ∈ ts -> ~ fails t m.
Proof.
  intros Hr. rw -(negb_involutive exclusive) in Hr.
  destruct (reach_ok (negb exclusive) _ _ _ _ _ _ kill_fd m ts Hr) as [Hi (cs & Hs & Hh & _)]. split; [done|].
  intros t [i Ht]%list_elem_of_lookup. destruct (Forall2_lookup_l _ _ _ _ _ Hs Ht) as (c & Hc & Hsafe).
  apply (safe_no_fail _ t _ c m Hsafe Hi). by apply (Forall_lookup_1 _ _ _ _ Hh Hc).
Qed.

(** C12: Processes of a host share a lease only in shared mode. As long as no convert
    asks for the exclusive mode, two tokens that hold or acquire the lease of one name
    are both shared. *)
Theorem holders_share m ts p1 p2 s1 s2 r1 r2 tk1 tk2 t1 t2 :
  reach com fuel one junk_acq junk past false kill_fd m ts ->
  p1 ∈ on s1 m.(rm_lists) -> p2 ∈ on s2 m.(rm_lists) -> get_res p1 m = Some r1 -> get_res p2 m = Some r2 ->
  tk1 ∈ r1.(rs_tokens) -> tk2 ∈ r2.(rs_tokens) -> tk1 <> tk2 -> get_tok tk1 m = Some t1 -> get_tok tk2 m = Some t2 ->
  tok_names t1 = tok_names t2 -> shared_tok t1 = true /\ shared_tok t2 = true.
Proof.
  intros Hr Hp1 Hp2 Hr1 Hr2 Hk1 Hk2 Hne Ht1 Ht2 En.
  destruct (reach_ok true _ _ _ _ _ _ kill_fd m ts Hr) as [Hi _].
  destruct (linked_tok true m s1 p1 r1 tk1 Hi Hp1 Hr1 Hk1) as [Hs1 (t & Ht & _ & En1)]. assert (t = t1) as -> by congruence.
  destruct (linked_tok true m s2 p2 r2 tk2 Hi Hp2 Hr2 Hk2) as [Hs2 (t' & Ht' & _ & En2)]. assert (t' = t2) as -> by congruence.
  assert (p1 = p2) as ->.
  { apply (inv_names _ _ Hi p1 p2 s1 s2 r1 r2); try done; [by destruct Hs1 as [-> | ->]|by destruct Hs2 as [-> | ->]|congruence]. }
  assert (r1 = r2) as -> by congruence.
  assert (Hm : mode_ok m r2).
  { destruct (inv_slots _ _ Hi s2 p2 r2 Hp2 Hr2) as [H _]. destruct Hs2 as [-> | ->]; by apply H. }
  unfold mode_ok in Hm. destruct (shared_res r2); [eauto|].
  destruct r2.(rs_tokens) as [|x [|y l]]; [by apply not_elem_of_nil in Hk1| |cbn in Hm; lia].
  apply list_elem_of_singleton in Hk1, Hk2. congruence.
Qed.
End properties.

(** *** Runs on the lease *)

Definition lease_reach : bool -> resmgr -> list (rthread unit) -> Prop := fun exclusive =>
  reach lease_com 5 no_area (acq_start lease_opened) leader_zero (fun _ => zero_disk) exclusive 3.

(** Two sessions that share the lease; the first converts it as [l] says. *)
Definition lease_threads (l : list (Z * Z)) : list (rthread unit) := [lease_session 4 l; lease_session 4 []].
Definition lease_turns (l : list (Z * Z)) (n : nat) : list (rthread unit) * resmgr * world :=
  turns world_handler [(0, 41); (1, 3); (0, n)]%nat (lease_threads l) (setup_token_manager 3) lease_world.
Definition lease_state (l : list (Z * Z)) (n : nat) : resmgr := snd (fst (lease_turns l n)).

Lemma lease_turns_reach exclusive l n :
  exclusive = true \/ Forall (fun c => has_flag (fst c) SANLK_RES_SHARED = true) l ->
  lease_reach exclusive (lease_state l n) (fst (fst (lease_turns l n))).
Proof.
  intros He. assert (H0 : lease_reach exclusive (setup_token_manager 3) (lease_threads l)).
  { apply reach_start; [apply reach_start; [apply reach_init|]|]; apply job_session; [right; constructor|done]. }
  pose proof (turns_reach world_handler [(0, 41); (1, 3); (0, n)]%nat (lease_threads l) (setup_token_manager 3) lease_world H0) as H.
  unfold lease_state, lease_turns in *. by destruct (turns _ _ _ _ _) as [[ts m] w].
Qed.

(** The resource of the lease and its two tokens. *)
Definition lease_res (m : resmgr) : resource := default (init_resource 0 0 (MToken (lease_token 0) 0 None)) (get_res 0 m).
Definition lease_tok (tk : addr) (m : resmgr) : mtoken := default (MToken (lease_token 0) 0 None) (get_tok tk m).

Lemma lease_shared :
  let m := lease_state [] 0 in
  0%nat ∈ on SHeld m.(rm_lists) /\ get_res 0 m = Some (lease_res m) /\ (lease_res m).(rs_tokens) = [1; 0]%nat /\
  get_tok 0 m = Some (lease_tok 0 m) /\ get_tok 1 m = Some (lease_tok 1 m) /\ tok_names (lease_tok 0 m) = tok_names (lease_tok 1 m).
Proof.
  split; [apply (bool_decide_unpack _); by vm_compute|].
  do 4 (split; [by vm_compute|]). by vm_compute.
Qed.

Lemma resources_consistent_witness :
  lease_state [] 0 <> setup_token_manager 3 /\ inv false (lease_state [] 0).
Proof.
  split; [intros E; apply (f_equal (fun m => length m.(rm_lists).(resources_held))) in E; by vm_compute in E|].
  apply (resources_consistent lease_com 5 no_area (acq_start lease_opened) leader_zero (fun _ => zero_disk) 3 true
           (lease_state [] 0) (fst (fst (lease_turns [] 0)))).
  apply lease_turns_reach. by left.
Defined.

Lemma holders_share_witness :
  (lease_res (lease_state [] 0)).(rs_tokens) = [1; 0]%nat /\
  shared_tok (lease_tok 0 (lease_state [] 0)) = true /\ shared_tok (lease_tok 1 (lease_state [] 0)) = true.
Proof.
  pose proof lease_shared as H. cbv zeta in H. destruct H as (Hp & Hr & Et & H0 & H1 & En). split; [exact Et|].
  assert (Hk : 0%nat ∈ (lease_res (lease_state [] 0)).(rs_tokens) /\ 1%nat ∈ (lease_res (lease_state [] 0)).(rs_tokens)).
  { rw Et. split; [right; left|left]. }
  exact (holders_share lease_com 5 no_area (acq_start lease_opened) leader_zero (fun _ => zero_disk) 3
           (lease_state [] 0) (fst (fst (lease_turns [] 0))) 0 0 SHeld SHeld (lease_res (lease_state [] 0))
           (lease_res (lease_state [] 0)) 0 1 _ _ (lease_turns_reach false [] 0 (or_intror (List.Forall_nil _)))
           Hp Hp Hr Hr (proj1 Hk) (proj2 Hk) (O_S 0) H0 H1 En).
Defined.

(** A convert to exclusive does not look at other sharers on the host. When two
    processes of one host hold a lease shared, the convert of one of them succeeds: the
    other one's token stays shared on a resource that is exclusive now, the state that
    [convert_token] calls impossible. *)
Theorem convert_ignores_sharers :
  exists m ts p r tk1 tk2 t1 t2,
    lease_reach true m ts /\ p ∈ on SHeld m.(rm_lists) /\ get_res p m = Some r /\ shared_res r = false /\
    tk1 ∈ r.(rs_tokens) /\ tk2 ∈ r.(rs_tokens) /\ get_tok tk1 m = Some t1 /\ get_tok tk2 m = Some t2 /\
    shared_tok t1 = false /\ shared_tok t2 = true /\ t1.(mt_tok).(tk_space_dead) = 0.
Proof.
  set (m := lease_state [(0, 0)] 28). exists m, (fst (fst (lease_turns [(0, 0)] 28))), 0%nat, (lease_res m), 0%nat, 1%nat, (lease_tok 0 m), (lease_tok 1 m).
  split; [apply lease_turns_reach; by left|]. split; [apply (bool_decide_unpack _); by vm_compute|].
  split; [by vm_compute|]. split; [by vm_compute|]. split; [apply (bool_decide_unpack _); by vm_compute|].
  split; [apply (bool_decide_unpack _); by vm_compute|]. do 4 (split; [by vm_compute|]). by vm_compute.
Qed.
