(* ===== verification/ResourceSafety.v ===== *)
(** * Leases of resources: what the disk operations do

    Theorems on [ResourceDisk] and on the first section of [acquire_token]: which
    blocks of other hosts are cleared and when, what a host block reads back as, how a
    search ends. *)

From S2P Require Import Prelude OnDisk SizeFlags Timeouts Io DeltaLease PaxosBlocks PaxosBallot PaxosLease PaxosSafety.
From S2P Require Import Lockspace HostStatus Clients ResourceDisk Resource ResourceLists ResourceOps ResourceAcquire ResourceSystem.

(** ** Shared leases of dead hosts *)

(** What [host_live] takes for the death of a host whose generation [gen] held the
    lease: [info] is an answer of [host_info] and [clock] the times that the clock
    can show then. *)
Definition shows_dead (com : command_line) (clock : Z -> Prop) (info : Z * host_status) (gen : Z) : Prop :=
  let hs := snd info in
  let dead := u64 (calc_host_dead_seconds com hs.(hs_io_timeout)) in
  fst info = 0 /\ hs.(hs_last_check) <> 0 /\
  (hs.(hs_timestamp) = 0 \/ gen < hs.(hs_owner_generation) \/
   exists now, clock now /\
     (hs.(hs_last_live) = 0 /\ dead < u64 (now - hs.(hs_first_check)) \/
      hs.(hs_last_live) <> 0 /\ dead < u64 (now - hs.(hs_last_live)))).

(** The status of the hosts of the lockspace [space] and the clock, which may change
    with every i/o. *)
Definition status_env (space : list Z) (info : list event -> Z -> Z * host_status -> Prop)
    (clock : list event -> Z -> Prop) : env := fun h X c x =>
  resp_ok c x /\
  match c in cmd X return X -> Prop with
  | CHostInfo name id => fun x => name = space -> info h id x
  | CMonotime => fun x => clock h x
  | _ => fun _ => True
  end x.

(** Histories each of whose events is allowed after those before it. *)
Inductive allowed (ok : list event -> event -> Prop) : list event -> Prop :=
  | allowed_nil : allowed ok []
  | allowed_snoc h e : allowed ok h -> ok h e -> allowed ok (h ++ [e]).

Section clear.
Context (com : command_line) (t : token) (info : list event -> Z -> Z * host_status -> Prop).
Context (clock : list event -> Z -> Prop) (d0 : sync_disk) (ds : list sync_disk).
Hypothesis Hdisks : t.(t_disks) = d0 :: ds.
Hypothesis Hss : t.(t_sector_size) = 512 \/ t.(t_sector_size) = 4096.

(** The mode block of host [id] was read as [mb]. *)
Definition mode_read (id : Z) (mb : mode_block) (h : list event) : Prop :=
  exists m, EvRead d0.(sd_fd) (host_block_offset t d0 id) t.(t_sector_size) 0 m ∈ h /\
    mb = mode_block_in (mem_read m MBLOCK_OFFSET sizeof_mode_block).

Definition other_sharer (id : Z) : Prop := id <> t.(t_host_id) /\ test_id_bit id t.(t_shared_bitmap) <> 0.

(** The block of host [id] was read as [mb], and the status of the host and the clock
    then showed the generation of [mb] dead. *)
Definition dead_shown (id : Z) (mb : mode_block) (h : list event) : Prop :=
  exists h0 k i, h = h0 ++ k /\ mode_read id mb h0 /\ info h0 id i /\
    shows_dead com (clock h0) i mb.(mb_generation).

(** A write zeroes the block of another host that was seen to share the lease and is
    dead. *)
Definition clears_dead (h : list event) (e : event) : Prop :=
  match e with
  | EvWrite fd off len m _ =>
      exists d id mb, d ∈ t.(t_disks) /\ fd = d.(sd_fd) /\ off = host_block_offset t d id /\
        len = t.(t_sector_size) /\ m = mem_zero /\ other_sharer id /\
        has_flag mb.(mb_flags) MBLOCK_SHARED = true /\ mb.(mb_generation) <> 0 /\ dead_shown id mb h
  | _ => True
  end.

(** Host [id] does not share the lease: its block says so, or has no generation, or was
    zeroed on every disk. *)
Definition settled (h : list event) (id : Z) : Prop :=
  exists mb, mode_read id mb h /\
    (has_flag mb.(mb_flags) MBLOCK_SHARED = false \/ mb.(mb_generation) = 0 \/
     (dead_shown id mb h /\
      forall d, d ∈ t.(t_disks) -> EvWrite d.(sd_fd) (host_block_offset t d id) t.(t_sector_size) mem_zero 0 ∈ h)).

Abbreviation R := (status_env t.(t_lockspace_name) info clock).
Abbreviation I := (allowed clears_dead).

Lemma mode_read_app id mb h h' : mode_read id mb h -> mode_read id mb (h ++ h').
Proof. intros (m & Hm & E). exists m. split; [apply elem_of_app; by left|done]. Qed.

Lemma dead_shown_app id mb h h' : dead_shown id mb h -> dead_shown id mb (h ++ h').
Proof. intros (h0 & k & i & -> & H). exists h0, (k ++ h'), i. by rw app_assoc. Qed.

Lemma settled_app id h h' : settled h id -> settled (h ++ h') id.
Proof.
  intros (mb & Hr & H). exists mb. split; [by apply mode_read_app|]. destruct H as [?|[?|[Hd Hw]]]; auto.
  right; right. split; [by apply dead_shown_app|]. intros d Hin. apply elem_of_app. left. by apply Hw.
Qed.

(** [h'] extends [h]. *)
Definition extends (h h' : list event) : Prop := exists k, h' = h ++ k.
Lemma res_extends_refl h : extends h h.
Proof. exists []. by rw app_nil_r. Qed.
Lemma extends_trans h1 h2 h3 : extends h1 h2 -> extends h2 h3 -> extends h1 h3.
Proof. intros [k1 ->] [k2 ->]. exists (k1 ++ k2). by rw app_assoc. Qed.

Lemma always_memalign_in n (Q : list event -> Z * mem -> Prop) h :
  I h -> (forall r, (fst r = 0 \/ nz (fst r) = true) -> Q h r) -> always_in R (call (CMemalign n)) I Q h.
Proof.
  intros Hi HQ. apply always_quiet; [done|done|]. intros r [[[E|[E|E]] _] _]; apply HQ; rw E; auto.
Qed.

Lemma read_mode_always id h :
  I h -> always_in R (read_mode_block t id (ModeBlock 0 0)) I
    (fun h' r => extends h h' /\ (fst r < 0 \/ (fst r = 0 /\ mode_read id (snd r) h'))) h.
Proof.
  intros Hi. unfold read_mode_block. destruct (Z.eqb_spec t.(t_sector_size) 0); [by destruct Hss; lia|].
  apply always_bind, always_memalign_in; [done|]. intros r Hr.
  destruct (nz (fst r)) eqn:Er.
  { apply always_ret; [done|]. split; [apply res_extends_refl|]. left. cbn. unfold ENOMEM. lia. }
  rw Hdisks. apply always_bind, always_call; [done|]. intros [rv m] [[Hrv _] _]. cbn [fst snd ev] in *.
  assert (Hi' : I (h ++ [EvRead d0.(sd_fd) (host_block_offset t d0 id) t.(t_sector_size) rv m])) by (by constructor).
  split; [done|]. destruct (Z.ltb_spec rv 0).
  { apply always_ret; [done|]. split; [by eexists|]. by left. }
  apply always_bind, always_buf_get; [done|done|by destruct Hss as [-> | ->]|done|].
  apply always_ret; [done|]. split; [by eexists|]. right. assert (rv = 0) as -> by lia. split; [done|].
  exists m. split; [apply elem_of_app; right; by left|]. by rw Nat2Z.id.
Qed.

Lemma host_live_always id gen h :
  I h -> always_in R (host_live com t.(t_lockspace_name) id gen) I
    (fun h' b => h' = h /\ (b = false -> exists i, info h id i /\ shows_dead com (clock h) i gen)) h.
Proof.
  intros Hi. unfold host_live. apply always_bind, always_quiet; [done|done|]. intros r [_ Hr].
  specialize (Hr eq_refl). unfold shows_dead.
  destruct (nz (fst r)) eqn:E0; [by apply always_ret|]. unfold nz in E0. apply negb_false_iff, Z.eqb_eq in E0.
  destruct (Z.eqb_spec (hs_last_check (snd r)) 0); [by apply always_ret|].
  destruct (Z.eqb_spec (hs_timestamp (snd r)) 0); [apply always_ret; [done|]; split; [done|]; exists r; auto|].
  destruct (Z.ltb_spec gen (hs_owner_generation (snd r))); [apply always_ret; [done|]; split; [done|]; exists r; auto 6|].
  apply always_bind, always_quiet; [done|done|]. intros now [_ Hnow]. unfold nz.
  destruct (Z.eqb_spec (hs_last_live (snd r)) 0); cbn [andb negb];
    match goal with |- context [?x <? ?y] => destruct (Z.ltb_spec x y) end; (apply always_ret; [done|]);
    (split; [done|]); intros; try discriminate; exists r; do 3 (split; [done|]); right; right; exists now; auto.
Qed.

Lemma write_zero_always id mb :
  other_sharer id -> has_flag mb.(mb_flags) MBLOCK_SHARED = true -> mb.(mb_generation) <> 0 ->
  forall l rv h, (forall d, d ∈ l -> d ∈ t.(t_disks)) -> rv <= 0 -> I h -> dead_shown id mb h ->
  always_in R (write_host_disks t l id mem_zero rv) I
    (fun h' r => extends h h' /\ r <= 0 /\ (0 <= r -> forall d, d ∈ l ->
       EvWrite d.(sd_fd) (host_block_offset t d id) t.(t_sector_size) mem_zero 0 ∈ h')) h.
Proof.
  intros Hsh Hfl Hgen l. induction l as [|d l IH]; intros rv h Hl Hrv Hi Hm; cbn [write_host_disks].
  { apply always_ret; [done|]. split; [apply res_extends_refl|]. split; [done|]. by intros _ d ?%not_elem_of_nil. }
  apply always_bind, always_call; [done|]. intros rv' [Hrv' _]. cbn [ev resp_ok] in *.
  set (e := EvWrite _ _ _ _ rv').
  assert (Hi' : I (h ++ [e])).
  { constructor; [done|]. exists d, id, mb. split; [apply Hl; by left|]. by repeat (split; [done|]). }
  split; [done|]. destruct (Z.ltb_spec rv' 0).
  { apply always_ret; [done|]. split; [by eexists|]. split; [done|]. intros; lia. }
  eapply always_mono; [apply (IH rv' (h ++ [e])); [intros x Hx; apply Hl; by right|lia|done|by apply dead_shown_app]|done|].
  intros h' r _ ([k ->] & Hr & Hw). split; [exists ([e] ++ k); by rw app_assoc|]. split; [done|].
  intros H0 x [-> |Hx]%elem_of_cons; [|by apply Hw]. assert (rv' = 0) as Erv by lia. unfold e. rw Erv.
  apply elem_of_app. left. apply elem_of_app. right. by left.
Qed.

Lemma write_cleared_always id mb h :
  other_sharer id -> has_flag mb.(mb_flags) MBLOCK_SHARED = true -> mb.(mb_generation) <> 0 ->
  I h -> mode_read id mb h -> dead_shown id mb h ->
  always_in R (write_host_block t id 0 0 None) I (fun h' r => extends h h' /\ (0 <= r -> settled h' id)) h.
Proof.
  intros H1 H2 H3 Hi Hm H4. unfold write_host_block. destruct (Z.eqb_spec t.(t_sector_size) 0); [by destruct Hss; lia|].
  apply always_bind, always_memalign_in; [done|]. intros r Hr. destruct (nz (fst r)).
  { apply always_ret; [done|]. split; [apply res_extends_refl|]. unfold ENOMEM. intros; lia. }
  apply always_bind, always_ret; [done|]. apply always_bind, always_ret; [done|].
  eapply always_mono; [by apply (write_zero_always id mb H1 H2 H3)|done|].
  intros h' rv _ ([k ->] & Hrv & Hw). split; [by exists k|]. intros H0. exists mb.
  split; [by apply mode_read_app|]. right; right. split; [by apply dead_shown_app|auto].
Qed.

Lemma clear_loop_always n : forall i rv live lc h,
  0 <= i -> i + Z.of_nat n <= 2000 -> 0 <= live -> I h ->
  always_in R (clear_dead_loop com t n i rv live lc) I
    (fun h' r => extends h h' /\ (0 <= fst r -> live <= snd r /\ (snd r = 0 ->
       forall id, i < id <= i + Z.of_nat n -> other_sharer id -> settled h' id))) h.
Proof.
  induction n as [|n IH]; intros i rv live lc h H0 Hn Hlive Hi; cbn [clear_dead_loop].
  { apply always_ret; [done|]. split; [apply res_extends_refl|]. intros _. split; [done|]. intros _ id Hid. lia. }
  assert (Hnext : forall rv' live' h1, extends h h1 -> I h1 -> live <= live' ->
    (live' = 0 -> other_sharer (i + 1) -> settled h1 (i + 1)) ->
    always_in R (clear_dead_loop com t n (i + 1) rv' live' lc) I
      (fun h' r => extends h h' /\ (0 <= fst r -> live <= snd r /\ (snd r = 0 ->
         forall id, i < id <= i + Z.of_nat (S n) -> other_sharer id -> settled h' id))) h1).
  { intros rv' live' h1 He Hi1 Hl Hs. eapply always_mono; [apply IH; [lia|lia|lia|done]|done|].
    intros h' r _ (He' & Hr). split; [by apply (extends_trans h h1)|]. intros H1. destruct (Hr H1) as [Hl' Hall]. split; [lia|].
    intros E id Hid Hsh. destruct (decide (id = i + 1)) as [-> |Hne]; [|apply Hall; [done|lia|done]].
    destruct He' as [k ->]. apply settled_app, Hs; [lia|done]. }
  destruct (Z.eqb_spec (i + 1) t.(t_host_id)) as [Eh|Nh]; [apply Hnext; [apply res_extends_refl|done|done|by intros _ [? _]]|].
  destruct (Z.leb_spec (Z.of_nat HOSTID_BITMAP_SIZE * 8) i) as [Hb|Hb]; [unfold HOSTID_BITMAP_SIZE in Hb; lia|].
  destruct (Z.eqb_spec (test_id_bit (i + 1) t.(t_shared_bitmap)) 0) as [Eb|Nb]; [apply Hnext; [apply res_extends_refl|done|done|by intros _ [_ ?]]|].
  apply always_bind. eapply always_mono; [by apply read_mode_always|done|]. intros h1 [rv1 mb] Hi1 [He1 Hr1]. cbn [fst snd] in *.
  destruct (Z.ltb_spec rv1 0) as [Hlt|Hge]; [apply always_ret; [done|]; split; [done|]; cbn; intros; lia|].
  destruct Hr1 as [?|[_ Hm]]; [lia|].
  destruct (has_flag mb.(mb_flags) MBLOCK_SHARED) eqn:Efl; cbn [negb]; [|apply Hnext; try done; intros _ _; exists mb; auto].
  destruct (Z.eqb_spec mb.(mb_generation) 0) as [Eg|Ng]; [apply Hnext; try done; intros _ _; exists mb; auto|].
  apply always_bind. eapply always_mono; [by apply host_live_always|done|]. intros h2 b Hi2 [-> Hb2].
  destruct b; [apply Hnext; try done; lia|]. destruct (Hb2 eq_refl) as (inf & Hinf & Hdead).
  assert (dead_shown (i + 1) mb h1) by (exists h1, [], inf; by rw app_nil_r).
  apply always_bind. eapply always_mono; [by apply (write_cleared_always (i + 1) mb); auto|done|]. intros h3 rv3 Hi3 [He3 Hs3].
  destruct (Z.ltb_spec rv3 0); [apply always_ret; [done|]; split; [by apply (extends_trans h h1)|cbn; intros; lia]|].
  apply Hnext; try done; [by apply (extends_trans h h1)|auto].
Qed.
End clear.

(** C13: Shared leases are cleared only for dead hosts. [clear_dead_shared],
    which runs before a lease becomes exclusive, zeroes the block of another
    host that is in the shared bitmap only after it read there the SHARED flag
    with a nonzero generation and after the status of that host in the token's
    lockspace and the clock, taken after that read, showed that generation dead:
    the delta lease free, of a later generation, or unchanged for more than
    [calc_host_dead_seconds]. It reports success with no live sharer only when,
    for every other host of the bitmap, the block was read as not shared, or as
    shared with generation 0, or was found dead as above and zeroed with success
    on every disk. The status and the clock may change with every i/o; the i/o
    and allocation results are arbitrary; num_hosts is assumed to be at most
    2000, and the token to have a disk and a sector size of 512 or 4096. *)
Theorem clear_dead_shared_sound com t info clock d0 ds num_hosts lc :
  t.(t_disks) = d0 :: ds -> t.(t_sector_size) = 512 \/ t.(t_sector_size) = 4096 -> num_hosts <= 2000 ->
  always_in (status_env t.(t_lockspace_name) info clock) (clear_dead_shared com t num_hosts lc)
    (allowed (clears_dead com t info clock d0))
    (fun h r => 0 <= fst r -> snd r = 0 ->
       forall id, 1 <= id <= num_hosts -> other_sharer t id -> settled com t info clock d0 h id) [].
Proof.
  intros Hd Hss Hn. unfold clear_dead_shared.
  eapply always_mono; [apply (clear_loop_always com t info clock d0 ds Hd Hss (Z.to_nat num_hosts)); [lia|lia|lia|constructor]|done|].
  intros h r _ [_ H] H1 H2 id Hid Hsh. destruct (H H1) as [_ Hall]. apply Hall; [done|lia|done].
Qed.

(** A token that saw host 1 share the lease, and host 1, which is dead. *)
Definition sharer_token : token := with_shared 1 (1 :: zeros 249) lease_opened.
Definition dead_status : Z * host_status := (0, HostStatus 100 100 100 0 1 3 100 0 10 0 []).
Definition dead_info (h : list event) (id : Z) (i : Z * host_status) : Prop := i = dead_status.

(** A clock that starts at 900 and goes on with the i/o. *)
Definition late_clock (h : list event) (now : Z) : Prop := 900 + Z.of_nat (length h) <= now < 2 ^ 32.

Lemma clear_dead_shared_sound_witness :
  other_sharer sharer_token 1 /\ shows_dead lease_com (late_clock []) dead_status 3 /\
  always_in (status_env sharer_token.(t_lockspace_name) dead_info late_clock) (clear_dead_shared lease_com sharer_token 4 0)
    (allowed (clears_dead lease_com sharer_token dead_info late_clock (lease_disk 7)))
    (fun h r => 0 <= fst r -> snd r = 0 ->
       forall id, 1 <= id <= 4 -> other_sharer sharer_token id ->
         settled lease_com sharer_token dead_info late_clock (lease_disk 7) h id) [].
Proof.
  split; [split; by vm_compute|]. split.
  { split; [done|]. split; [done|]. right; right. exists 900. split; [by vm_compute|]. right. by vm_compute. }
  apply (clear_dead_shared_sound lease_com sharer_token dead_info late_clock (lease_disk 7) [] 4 0); [done|by left|lia].
Defined.

(** ** Host blocks *)

Section host_block.
Context (t : token) (id : Z).
Hypothesis Hss : t.(t_sector_size) = 512 \/ t.(t_sector_size) = 4096.

(** The writes of a block to the disks of [l]. *)
Lemma run_write_host_disks (l : list sync_disk) (m : mem) : forall (w : world) (rv : Z),
  reliable w -> NoDup (sd_fd <$> l) ->
  exists w' rv', run world_handler (write_host_disks t l id m rv) w = (Some rv', w') /\ (rv = 0 -> rv' = 0) /\ reliable w' /\
    (forall fd, fd ∉ sd_fd <$> l -> w'.(w_dev) fd = w.(w_dev) fd) /\
    (forall d, d ∈ l -> w'.(w_dev) d.(sd_fd) = mem_write (w.(w_dev) d.(sd_fd)) (host_block_offset t d id) t.(t_sector_size) m).
Proof.
  induction l as [|d l IH]; intros w rv Hw Hn; cbn [write_host_disks].
  { exists w, rv. split; [done|]. split; [done|]. split; [done|]. split; [done|]. by intros d ?%not_elem_of_nil. }
  rw run_bind run_write_iobuf //. cbn [Z.ltb Z.compare]. set (w1 := world_put _ _ _ _ _).
  rw fmap_cons in Hn. apply list.NoDup_cons in Hn as [Hd Hn].
  destruct (IH w1 0) as (w' & rv' & E & Hrv & Hw' & Hother & Hin); [by apply reliable_put|done|].
  exists w', rv'. split; [exact E|]. split; [by intros _; apply Hrv|]. split; [done|]. split.
  - intros fd. rw fmap_cons not_elem_of_cons. intros [Hne Hfd]. rw Hother //. unfold w1. cbn. by rw (proj2 (Z.eqb_neq fd (sd_fd d)) Hne).
  - intros x [-> |Hx]%elem_of_cons.
    + rw Hother //. unfold w1. cbn. by rw Z.eqb_refl.
    + rw Hin //. unfold w1. cbn. assert (sd_fd x <> sd_fd d) as Hne by (intros E'; apply Hd; rw -E'; by apply list_elem_of_fmap_2).
      by rw (proj2 (Z.eqb_neq _ _) Hne).
Qed.

(** The block in memory: the dblock at its start, the mode block at its place. *)
Lemma run_host_block gen flags pd w :
  reliable w -> NoDup (sd_fd <$> t.(t_disks)) -> is_u 64 gen -> is_u 32 flags -> pd.(pd_inp) = 0 \/ pd.(pd_inp) = t.(t_host_id) -> paxos_dblock_ok pd ->
  exists w' m, run world_handler (write_host_block t id gen flags (Some pd)) w = (Some 0, w') /\ reliable w' /\
    mem_read m 0 sizeof_paxos_dblock = dblock_image pd pd_end0 /\
    mode_block_in (mem_read m MBLOCK_OFFSET sizeof_mode_block) = ModeBlock flags gen /\
    forall d, d ∈ t.(t_disks) ->
      w'.(w_dev) d.(sd_fd) = mem_write (w.(w_dev) d.(sd_fd)) (host_block_offset t d id) t.(t_sector_size) m.
Proof.
  intros Hw Hn Hg Hf Hp Hok. unfold write_host_block. destruct (Z.eqb_spec t.(t_sector_size) 0); [by destruct Hss; lia|].
  rw run_bind run_memalign //. cbn [nz fst Z.eqb negb]. rw run_bind. unfold host_dblock.
  assert (Ep : nz pd.(pd_inp) && negb (pd.(pd_inp) =? t.(t_host_id)) = false).
  { unfold nz. destruct Hp as [-> | ->]; [done|]. by rw Z.eqb_refl andb_false_r. }
  rw Ep. assert ((t.(t_sector_size) <? Z.of_nat sizeof_paxos_dblock) = false) as -> by (by destruct Hss as [-> | ->]).
  cbn [mbind prog_bind pbind run]. set (m0 := buf_put mem_zero 0 (dblock_image pd pd_end0)).
  assert (Hl0 : length (dblock_image pd pd_end0) = sizeof_paxos_dblock) by (by apply length_dblock_image).
  assert (H0 : mem_read m0 0 sizeof_paxos_dblock = dblock_image pd pd_end0) by (rw -Hl0; apply mem_read_put).
  rw run_bind. destruct (nz gen || nz flags) eqn:Eg.
  - rw run_bind. cbn [run world_handler call].
    assert ((t.(t_sector_size) <? MBLOCK_OFFSET + Z.of_nat sizeof_mode_block) = false) as -> by (by destruct Hss as [-> | ->]).
    cbn [run]. set (mb := mode_block_out _ _).
    assert (Hl : length mb = sizeof_mode_block) by (apply mode_block_out_length; [by split|by rw length_replicate]).
    destruct (run_write_host_disks t.(t_disks) (buf_put m0 MBLOCK_OFFSET mb) w 0 Hw Hn) as (w' & rv & E & Hrv & Hw' & _ & Hin).
    rw (Hrv eq_refl) in E. exists w', (buf_put m0 MBLOCK_OFFSET mb). split; [exact E|]. split; [done|]. split; [|split; [|done]].
    + rw mem_read_put_other //. left. by vm_compute.
    + rw -Hl mem_read_put -(app_nil_r mb). unfold mb. apply mode_block_in_out; [by split|by rw length_replicate|]. by apply Forall_replicate.
  - apply orb_false_iff in Eg as [E1 E2]. unfold nz in E1, E2. apply negb_false_iff, Z.eqb_eq in E1, E2. subst gen flags.
    destruct (run_write_host_disks t.(t_disks) m0 w 0 Hw Hn) as (w' & rv & E & Hrv & Hw' & _ & Hin).
    rw (Hrv eq_refl) in E. exists w', m0. split; [exact E|]. split; [done|]. split; [done|]. split; [|done].
    unfold m0. rw mem_read_put_other; [right; rw Hl0; by vm_compute|]. by vm_compute.
Qed.
End host_block.

(** Tokens of two hosts for one lease. *)
Definition same_lease (t t' : token) : Prop :=
  t'.(t_disks) = t.(t_disks) /\ t'.(t_sector_size) = t.(t_sector_size).


(** The dblock of host 2 at version 5, written with the shared mode in generation 9. *)
Definition shared_dblock : paxos_dblock := PaxosDblock 2002 2002 2 9 900 5 0 DBLOCK_FL_RELEASED.


(** ** How a search ends *)

(** The result for a name that a resource at [s] has. *)
Definition lookup_result (s : slot) (r : resource) (t : mtoken) (cmd_flags : Z) : lookup :=
  match s with
  | SRem => LkReturn (- EAGAIN)
  | SAdd => LkReturn (- EBUSY)
  | SHeld => if shared_tok t && shared_res r then LkReturn SANLK_OK else LkReturn (- EEXIST)
  | _ => if has_flag cmd_flags (Z.lor SANLK_ACQUIRE_ORPHAN SANLK_ACQUIRE_ORPHAN_ONLY) && eqb (shared_tok t) (shared_res r)
         then LkAdopt else LkReturn (- EUCLEAN)
  end.

Section search.
Context {strict : bool} (past : nat -> sync_disk).

Lemma refuse_result tk p r t rv m : get_res p m = Some r -> get_tok tk m = Some t -> fst <$> refuse tk p rv m = Some (LkReturn rv).
Proof. intros Hr Ht. unfold refuse. rw Hr. cbn. unfold upd_tok. by rw Ht. Qed.

Lemma lookup_held_result tk p r t m :
  get_res p m = Some r -> get_tok tk m = Some t ->
  fst <$> lookup_held past tk p m = Some (lookup_result SHeld r t 0).
Proof.
  intros Hr Ht. unfold lookup_held. rw Ht. cbn. rw Hr. cbn. unfold shared_tok, shared_res. destruct (_ && _).
  - unfold upd_tok. rw Ht. cbn. set (t1 := put_disks _ t). set (m1 := m <| rm_toks := _ |>).
    rw (link_eq tk p m1 r t1); [done|by unfold get_tok; cbn; rw lookup_insert_eq|]. done.
  - by apply (refuse_result tk p r t).
Qed.

Lemma lookup_orphan_result tk p r t flags m :
  ResourceLists.inv strict m -> p ∈ on SOrphan m.(rm_lists) -> get_res p m = Some r -> get_tok tk m = Some t ->
  fst <$> lookup_orphan tk p (has_flag flags (Z.lor SANLK_ACQUIRE_ORPHAN SANLK_ACQUIRE_ORPHAN_ONLY)) m = Some (lookup_result SOrphan r t flags).
Proof.
  intros Hi Hp Hr Ht. unfold lookup_orphan. rw Ht. cbn. rw Hr. cbn. fold (shared_tok t) (shared_res r).
  destruct (has_flag flags (Z.lor SANLK_ACQUIRE_ORPHAN SANLK_ACQUIRE_ORPHAN_ONLY)); cbn [negb orb andb]; [|by apply (refuse_result tk p r t)].
  destruct (eqb (shared_tok t) (shared_res r)); cbn [negb]; [|by apply (refuse_result tk p r t)].
  assert (Hmove : forall m1 r1 t1, get_res p m1 = Some r1 -> get_tok tk m1 = Some t1 -> m1.(rm_lists) = m.(rm_lists) ->
    fst <$> (m2 ← link tk p m1; m3 ← list_move add_held p m2; Some (LkAdopt, m3)) = Some LkAdopt).
  { intros m1 r1 t1 Hr1 Ht1 El. rw (link_eq tk p m1 r1 t1 Hr1 Ht1). cbn.
    destruct (unlink_removed p SOrphan _ (inv_lists _ _ Hi) Hp) as (l1 & E1 & _). unfold list_move, list_del. cbn. by rw El E1. }
  destruct (shared_tok t); [by apply (Hmove m r t)|]. unfold upd_tok. rw Ht. cbn. unfold upd_res, get_res. cbn.
  unfold get_res in Hr. rw Hr. cbn.
  eapply Hmove; [by unfold get_res; cbn; rw lookup_insert_eq|by unfold get_tok; cbn; rw lookup_insert_eq|done].
Qed.
End search.

(** An acquire finds the resource that has its names. In a consistent state, where at
    most one resource in use has the names of a token, the search of [acquire_token]
    ends as the list tells on which that resource is: EAGAIN while it is released,
    EBUSY while it is acquired, EEXIST when it is held, except that a shared token joins
    a shared resource, and EUCLEAN for an orphan, except that it is adopted in its own
    mode when the command allows that. *)
Theorem acquire_lookup_exact strict past tk ok flags kp ka m t s p r :
  inv strict m -> get_tok tk m = Some t -> p ∈ on s m.(rm_lists) -> s <> SFree -> get_res p m = Some r ->
  res_names r = tok_names t ->
  fst <$> acquire_lookup past tk ok flags kp ka m = Some (lookup_result s r t flags).
Proof.
  intros Hi Ht Hp Hs Hr En. unfold acquire_lookup. rw Ht. cbn [mbind option_bind].
  assert (Hfind : forall s1, s1 <> SFree -> find_resource m t (on s1 m.(rm_lists)) = Some (if bool_decide (s1 = s) then Some p else None)).
  { intros s1 Hs1. destruct (find_on strict m t s1 Hi) as (o & E & Ho). rw E. f_equal. destruct o as [q|].
    - destruct Ho as (Hq & rq & Hrq & Enq). assert (q = p) as -> by (by apply (inv_names _ _ Hi q p s1 s rq r); try done; rw Enq En).
      by rw bool_decide_eq_true_2; [apply (lo_one _ (inv_lists _ _ Hi) p)|].
    - case_bool_decide as Eq; [|done]. subst s1. exfalso. by apply (Ho p r). }
  pose proof (Hfind SRem ltac:(done)) as E1. pose proof (Hfind SAdd ltac:(done)) as E2.
  pose proof (Hfind SHeld ltac:(done)) as E3. pose proof (Hfind SOrphan ltac:(done)) as E4. cbn [on] in *.
  rw E1 E2 E3 E4. cbn [mbind option_bind]. destruct s; cbn; [done|..].
  - by apply lookup_held_result.
  - by apply (refuse_result tk p r t).
  - by apply (refuse_result tk p r t).
  - by apply (lookup_orphan_result (strict := strict)).
Qed.

Lemma acquire_lookup_exact_witness :
  (lease_res (lease_state [] 0)).(rs_tokens) = [1; 0]%nat /\
  fst <$> acquire_lookup (fun _ => zero_disk) 1 true 0 [] [] (lease_state [] 0) =
    Some (lookup_result SHeld (lease_res (lease_state [] 0)) (lease_tok 1 (lease_state [] 0)) 0).
Proof.
  pose proof lease_shared as H. cbv zeta in H. destruct H as (Hp & Hr & Et & H0 & H1 & En). split; [exact Et|].
  assert (Hi : inv false (lease_state [] 0)) by (apply resources_consistent_witness).
  apply (acquire_lookup_exact false (fun _ => zero_disk) 1 true 0 [] [] (lease_state [] 0) (lease_tok 1 (lease_state [] 0)) SHeld 0
    (lease_res (lease_state [] 0)) Hi H1 Hp); [discriminate|exact Hr|by vm_compute].
Defined.

(** How a search with SANLK_ACQUIRE_ORPHAN_ONLY ends when there is no orphan. *)
Definition orphan_only_result (flags : Z) (res : lookup) : Prop :=
  if has_flag flags SANLK_ACQUIRE_LVB then res = LkReturn (- ENOENT) else exists p, res = LkNew p.

(** an acquire that asks for an orphan only takes a new lease. [only_orphan] is 0
    or 1 and is tested as a mask of the command flags, so that SANLK_ACQUIRE_ORPHAN_ONLY
    has an effect only together with SANLK_ACQUIRE_LVB: without it, when no resource has
    the names, the acquire goes on with a new resource instead of ending with ENOENT. *)
Theorem orphan_only_acquires strict past tk flags kp ka m t :
  inv strict m -> get_tok tk m = Some t ->
  (forall p s r, p ∈ on s m.(rm_lists) -> s <> SFree -> get_res p m = Some r -> res_names r <> tok_names t) ->
  has_flag flags SANLK_ACQUIRE_ORPHAN_ONLY = true ->
  exists res m', acquire_lookup past tk true flags kp ka m = Some (res, m') /\ orphan_only_result flags res.
Proof.
  intros Hi Ht Hno Hfl. unfold acquire_lookup, orphan_only_result. rw Ht Hfl. cbn [mbind option_bind].
  assert (Hfind : forall s, s <> SFree -> find_resource m t (on s m.(rm_lists)) = Some None).
  { intros s Hs. destruct (find_on strict m t s Hi) as ([q|] & E & Ho); [|done]. destruct Ho as (Hq & rq & Hrq & Enq).
    by destruct (Hno q s rq). }
  pose proof (Hfind SRem ltac:(done)) as E1. pose proof (Hfind SAdd ltac:(done)) as E2.
  pose proof (Hfind SHeld ltac:(done)) as E3. pose proof (Hfind SOrphan ltac:(done)) as E4. cbn [on] in *.
  rw E1 E2 E3 E4. cbn [mbind option_bind]. unfold lookup_new. rw Ht. cbn [mbind option_bind].
  change (has_flag flags 1) with (has_flag flags SANLK_ACQUIRE_LVB). destruct (has_flag flags SANLK_ACQUIRE_LVB); [by eexists _, m|].
  destruct (find_free_ok m t m.(rm_lists).(resources_free)) as (o & Ef & Ho).
  { intros q Hq. exact (on_alloc strict m SFree q Hi Hq). }
  unfold get_resource, get_free_resource. rw Ef. cbn [mbind option_bind]. destruct o as [p|].
  - destruct (unlink_removed p SFree _ (inv_lists _ _ Hi) (Ho p eq_refl)) as (l1 & El & _).
    destruct (on_alloc strict m SFree p Hi (Ho p eq_refl)) as [r Hr]. unfold list_del. rw El. cbn.
    unfold upd_res, get_res in *. cbn. rw Hr. cbn. repeat (rw lookup_insert_eq; cbn).
    erewrite link_eq; [|by unfold get_res; cbn; rw lookup_insert_eq|done]. cbn. eexists _, _. split; [done|]. by exists p.
  - cbn. unfold upd_res, get_res. cbn. rw lookup_insert_eq. cbn.
    erewrite link_eq; [|by unfold get_res; cbn; rw lookup_insert_eq|done]. cbn. eexists _, _. split; [done|]. eauto.
Qed.

(** A manager with one token and no resources. *)
Definition one_token : resmgr := (setup_token_manager 3) <| rm_toks := {[ 0%nat := MToken (lease_token 0) 0 None ]} |>.

Lemma orphan_only_acquires_witness :
  exists res m', acquire_lookup (fun _ => zero_disk) 0 true SANLK_ACQUIRE_ORPHAN_ONLY [] [] one_token = Some (res, m') /\
    orphan_only_result SANLK_ACQUIRE_ORPHAN_ONLY res.
Proof.
  apply (orphan_only_acquires false (fun _ => zero_disk) 0 SANLK_ACQUIRE_ORPHAN_ONLY [] [] one_token (MToken (lease_token 0) 0 None)).
  - apply (toks_inv false (setup_token_manager 3)); [apply init_inv|done|done].
  - done.
  - by intros p [] r ?%not_elem_of_nil.
  - done.
Defined.
