(* ===== verification/Aio.v ===== *)
(** * Asynchronous i/o and its buffers ([src/src/diskio.c], [src/src/task.c])

    The part of [diskio.c] below [read_iobuf] and [write_iobuf]: requests are handed to the
    kernel in the slots of a task, are waited for with a timeout, and when the timeout
    passes stay with the kernel, which still reads or writes their buffer. This file
    keeps track of who owns which buffer: the heap, the slots of the task, the requests
    the kernel has, and the buffer that a lockspace keeps between renewals
    ([delta_lease_renew]). The contents of the buffers are the business of [Io].

    The kernel is a list of answers, consumed in order; when it is used up, nothing arrives
    any more and every wait times out. An operation is a function of the state that fails
    where the code frees memory that is not allocated or that the kernel still uses, or
    accesses a slot that does not exist. The statistics of the times and the log are left out. *)

From S2P Require Import Prelude Io.

Definition EINTR : Z := 4.
Definition ENOENT : Z := 2.
Definition EMSGSIZE : Z := 90.
Definition ECANCELED : Z := 125.
Definition EFAULT : Z := 14.

Inductive aio_op := IO_CMD_PREAD | IO_CMD_PWRITE.
#[export] Instance aio_op_eq_dec : EqDecision aio_op.
Proof. solve_decision. Defined.

(** A buffer is named by its address; [None] is NULL. *)
Abbreviation addr := Z.

Record iocb := Iocb {
  ic_fildes : Z;
  ic_opcode : aio_op;
  ic_buf : option addr;
  ic_nbytes : Z;
  ic_offset : Z
}.
#[export] Instance iocb_eq_dec : EqDecision iocb.
Proof. solve_decision. Defined.

Record aicb := Aicb {
  cb_used : bool;
  cb_buf : option addr;
  cb_iocb : iocb
}.

(** What the calls of a task answer: the code of [io_submit], of [io_cancel] and of
    [posix_memalign], the code of [io_getevents] with the slot and the result of the event. *)
Inductive kanswer :=
  | ASubmit (rv : Z)
  | ACancel (rv : Z)
  | AAlloc (rv : Z)
  | AEvents (rv : Z) (obj : nat) (res : Z).

(** The [struct task], the requests the kernel has, by their slot, the allocated buffers, and the answers
    to come. *)
Record aio := Aio {
  ai_io_count : Z;
  ai_to_count : Z;
  ai_iobuf : option addr;
  ai_timeout_aicb : option nat;
  ai_callbacks : list aicb;
  ai_flight : gmap nat iocb;
  ai_heap : gset addr;
  ai_answers : list kanswer
}.
#[export] Instance aio_settable : Settable aio := fun s =>
  Aio s.(ai_io_count) s.(ai_to_count) s.(ai_iobuf) s.(ai_timeout_aicb) s.(ai_callbacks) s.(ai_flight)
    s.(ai_heap) s.(ai_answers).

(** ** Operations on the state *)

Definition aioM (A : Type) : Type := aio -> option (A * aio).
#[export] Instance aioM_ret : MRet aioM := fun A a s => Some (a, s).
#[export] Instance aioM_bind : MBind aioM := fun A B f m s =>
  match m s with Some (a, s) => f a s | None => None end.

Definition modify (f : aio -> aio) : aioM unit := fun s => Some (tt, f s).
Definition get {A} (f : aio -> A) : aioM A := fun s => Some (f s, s).

(** The kernel has a request with the buffer [b]. *)
Definition in_flight (b : addr) (s : aio) : bool :=
  existsb (fun p => bool_decide ((snd p).(ic_buf) = Some b)) (map_to_list s.(ai_flight)).

(** [free] fails for memory that is not allocated, which is undefined, and for memory that the
    kernel still reads or writes, which may have another owner by then. *)
Definition free (b : option addr) : aioM unit := fun s =>
  match b with
  | None => Some (tt, s)
  | Some b =>
      if bool_decide (b ∈ s.(ai_heap)) && negb (in_flight b s) then Some (tt, s <| ai_heap := s.(ai_heap) ∖ {[b]} |>) else None
  end.

(** [posix_memalign]: the code and a buffer that was not allocated. *)
Definition memalign : aioM (Z * option addr) := fun s =>
  match s.(ai_answers) with
  | AAlloc rv :: l =>
      if rv =? 0 then
        let b := fresh s.(ai_heap) in
        Some (0, Some b, s <| ai_heap := {[b]} ∪ s.(ai_heap) |> <| ai_answers := l |>)
      else Some (rv, None, s <| ai_answers := l |>)
  | _ => Some (ENOMEM, None, s)
  end.

(** An update of the slot [i]. *)
Definition set_slot (i : nat) (f : aicb -> aicb) : aioM unit := fun s =>
  match s.(ai_callbacks) !! i with
  | None => None
  | Some cb => Some (tt, s <| ai_callbacks := <[i := f cb]> s.(ai_callbacks) |>)
  end.

Definition set_used (u : bool) (cb : aicb) : aicb := Aicb u cb.(cb_buf) cb.(cb_iocb).
Definition set_buf (b : option addr) (cb : aicb) : aicb := Aicb cb.(cb_used) b cb.(cb_iocb).
Definition set_iocb (ic : iocb) (cb : aicb) : aicb := Aicb cb.(cb_used) cb.(cb_buf) ic.

(** [free(ev_aicb->buf); ev_aicb->buf = NULL] after [used] is cleared. *)
Definition collect (obj : nat) : aioM unit := fun s =>
  match s.(ai_callbacks) !! obj with
  | None => None
  | Some cb =>
      (set_slot obj (set_used false);; free cb.(cb_buf);; set_slot obj (set_buf None)) s
  end.

(** ** The kernel *)

(** The code: negative, or one request accepted. *)
Definition io_submit (slot : nat) (ic : iocb) : aioM Z := fun s =>
  let accept l := Some (1, s <| ai_flight := <[slot := ic]> s.(ai_flight) |> <| ai_answers := l |>) in
  match s.(ai_answers) with
  | ASubmit rv :: l => if rv <? 0 then Some (rv, s <| ai_answers := l |>) else accept l
  | l => accept l
  end.

(** A request that is cancelled is no longer with the kernel. *)
Definition io_cancel (slot : nat) : aioM Z := fun s =>
  match s.(ai_answers) with
  | ACancel rv :: l =>
      if rv =? 0 then Some (0, s <| ai_flight := delete slot s.(ai_flight) |> <| ai_answers := l |>)
      else Some (rv, s <| ai_answers := l |>)
  | _ => Some (- EINVAL, s)
  end.

(** [io_getevents]: an error, nothing, or the event of a request that the kernel has, which it then has no more. A
    request without a buffer ends with EFAULT. *)
Inductive event_answer := EvErr (rv : Z) | EvNone | EvGot (obj : nat) (res : Z).

Definition getevent (a : kanswer) (s : aio) : event_answer * aio :=
  match a with
  | AEvents rv obj res =>
      if rv <? 0 then (EvErr rv, s)
      else if rv =? 1 then
        match s.(ai_flight) !! obj with
        | Some ic => (EvGot obj (match ic.(ic_buf) with Some _ => res | None => - EFAULT end), s <| ai_flight := delete obj s.(ai_flight) |>)
        | None => (EvNone, s)
        end
      else (EvNone, s)
  | _ => (EvNone, s)
  end.

(** ** [do_linux_aio] *)

Fixpoint first_free (l : list aicb) (i : nat) : option nat :=
  match l with
  | [] => None
  | cb :: l => if cb.(cb_used) then first_free l (S i) else Some i
  end.

(** The wait of [find_callback_slot] for an old request, repeated while it is interrupted. *)
Fixpoint collect_old (l : list kanswer) (s : aio) : option (bool * aio) :=
  match l with
  | [] => Some (false, s <| ai_answers := [] |>)
  | a :: l =>
      let s := s <| ai_answers := l |> in
      match getevent a s with
      | (EvErr rv, s) => if rv =? - EINTR then collect_old l s else Some (false, s)
      | (EvNone, s) => Some (false, s)
      | (EvGot obj _, s) => (collect obj;; mret true) s
      end
  end.

Definition find_callback_slot : aioM (option nat) := fun s =>
  match first_free s.(ai_callbacks) 0 with
  | Some i => Some (Some i, s)
  | None =>
      match collect_old s.(ai_answers) s with
      | Some (true, s) => Some (first_free s.(ai_callbacks) 0, s)
      | Some (false, s) => Some (None, s)
      | None => None
      end
  end.

(** How a wait ends: with the code of an error, of the request in [slot], or without an event. *)
Inductive wait_end := WErr (rv : Z) | WDone (rv : Z) | WTimeout.

(** The wait for the request in [slot]; events of other requests are collected. *)
Fixpoint wait_event (slot : nat) (len : Z) (l : list kanswer) (s : aio) : option (wait_end * aio) :=
  match l with
  | [] => Some (WTimeout, s <| ai_answers := [] |>)
  | a :: l =>
      let s := s <| ai_answers := l |> in
      match getevent a s with
      | (EvErr rv, s) => if rv =? - EINTR then wait_event slot len l s else Some (WErr rv, s)
      | (EvNone, s) => Some (WTimeout, s)
      | (EvGot obj res, s) =>
          if Nat.eqb obj slot then
            (set_slot obj (set_used false);;
             mret (WDone (if i32 res <? 0 then i32 res else if negb (res =? len) then - EMSGSIZE else 0))) s
          else
            match collect obj s with Some (_, s) => wait_event slot len l s | None => None end
      end
  end.

Definition await (slot : nat) (len : Z) : aioM wait_end := fun s => wait_event slot len s.(ai_answers) s.

Definition do_linux_aio (fd offset : Z) (buf : option addr) (len ioto : Z) (cmd : aio_op) : aioM Z :=
  if ioto =? 0 then mret (- EINVAL)
  else
    o ← find_callback_slot;
    match o with
    | None => mret (- ENOENT)
    | Some slot =>
        let ic := Iocb fd cmd buf len offset in
        set_slot slot (set_iocb ic);;
        rv ← io_submit slot ic;
        if rv <? 0 then mret rv
        else
          modify (fun s => s <| ai_io_count := u32 (s.(ai_io_count) + 1) |>);;
          set_slot slot (fun cb => set_buf buf (set_used true cb));;
          w ← await slot len;
          match w with
          | WErr rv | WDone rv => mret rv
          | WTimeout =>
              modify (fun s => s <| ai_to_count := u32 (s.(ai_to_count) + 1) |>);;
              rv ← io_cancel slot;
              if rv =? 0 then set_slot slot (set_used false);; mret (- ECANCELED)
              else
                (if bool_decide (cmd = IO_CMD_PREAD)
                 then modify (fun s => s <| ai_timeout_aicb := Some slot |>) else mret tt);;
                mret SANLK_AIO_TIMEOUT
          end
    end.

(** The reads and writes of sectors, and of other buffers of their own: allocate, do i/o, free unless the kernel
    still has the buffer. *)
Definition with_iobuf (fd offset len ioto : Z) (cmd : aio_op) : aioM Z :=
  r ← memalign;
  if nz (fst r) then mret (- ENOMEM)
  else
    rv ← do_linux_aio fd offset (snd r) len ioto cmd;
    (if rv =? SANLK_AIO_TIMEOUT then mret tt else free (snd r));;
    mret rv.

(** The request that timed out last is tried again. Its slot has to be set. *)
Definition read_iobuf_reap (fd offset : Z) (iobuf : option addr) (iobuf_len : Z) : aioM Z :=
  o ← get ai_timeout_aicb;
  match o with
  | None => fun _ => None
  | Some slot =>
      cb ← get (fun s => s.(ai_callbacks) !! slot);
      match cb with
      | None => fun _ => None
      | Some cb =>
          let ic := cb.(cb_iocb) in
          if negb cb.(cb_used) || negb (ic.(ic_fildes) =? fd) || negb (bool_decide (ic.(ic_buf) = iobuf)) ||
             negb (ic.(ic_nbytes) =? iobuf_len) || negb (ic.(ic_offset) =? offset) ||
             negb (bool_decide (ic.(ic_opcode) = IO_CMD_PREAD))
          then mret (- EINVAL)
          else
            w ← await slot iobuf_len;
            mret (match w with WErr rv | WDone rv => rv | WTimeout => SANLK_AIO_TIMEOUT end)
      end
  end.

(** ** Setting up and closing the aio of a task *)

Definition aicb_zero : aicb := Aicb false None (Iocb 0 IO_CMD_PREAD None 0 0).

(** [use_aio] and the slots, from the code of [io_setup] and the success of the allocation. *)
Definition setup_task_aio (use_aio : bool) (cb_size : nat) (io_setup : Z) (malloc_ok : bool) : bool * list aicb :=
  if negb use_aio then (false, [])
  else if Nat.eqb cb_size 0 then (true, [])
  else if io_setup <? 0 then (false, [])
  else if negb malloc_ok then (false, [])
  else (true, replicate cb_size aicb_zero).

Definition any_used (s : aio) : bool := existsb cb_used s.(ai_callbacks).

(** The loop of [close_task_aio]. When nothing arrives any more, the limit of 120 seconds ends it. *)
Fixpoint close_loop (l : list kanswer) (s : aio) : option aio :=
  if negb (any_used s) then Some s
  else
    match l with
    | [] => Some s
    | a :: l =>
        let s := s <| ai_answers := l |> in
        match getevent a s with
        | (EvErr rv, s) => if rv =? - EINTR then close_loop l s else Some s
        | (EvNone, s) => close_loop l s
        | (EvGot obj _, s) =>
            match s.(ai_callbacks) !! obj with
            | None => None
            | Some cb =>
                let s := if bool_decide (cb.(cb_buf) = s.(ai_iobuf)) then s <| ai_iobuf := None |> else s in
                match collect obj s with Some (_, s) => close_loop l s | None => None end
            end
        end
    end.

(** With [use_aio]. [io_destroy] waits for the requests that the kernel still has. *)
Definition close_task_aio : aioM unit := fun s =>
  match close_loop s.(ai_answers) s with
  | None => None
  | Some s =>
      (modify (fun s => s <| ai_flight := ∅ |>);;
       free s.(ai_iobuf);;
       modify (fun s => s <| ai_callbacks := [] |>)) s
  end.

(** ** The buffer of the renewals *)

Section Renew.
Context (fd offset iobuf_len id_offset sector_size io_timeout write_timeout : Z).

(** The timed out read is given up; its buffer is left to the slot. *)
Definition abandon : aioM unit :=
  modify (fun s => s <| ai_timeout_aicb := None |> <| ai_iobuf := None |>).

(** After a timeout, the event of that read is tried for: whether the read is done. *)
Definition iobuf_reap (prev_result : Z) : aioM bool :=
  if prev_result =? SANLK_AIO_TIMEOUT then
    t ← get ai_timeout_aicb;
    b ← get ai_iobuf;
    match t, b with
    | Some _, Some _ =>
        rv ← read_iobuf_reap fd offset b iobuf_len;
        if rv =? 0 then modify (fun s => s <| ai_timeout_aicb := None |>);; mret true
        else abandon;; mret false
    | _, _ => abandon;; mret false
    end
  else mret false.

(** A new read; when the allocation fails it is done without a buffer. *)
Definition iobuf_read : aioM Z :=
  t ← get ai_timeout_aicb;
  (match t with Some _ => abandon | None => mret tt end);;
  b ← get ai_iobuf;
  (match b with Some _ => mret tt | None => r ← memalign; modify (fun s => s <| ai_iobuf := snd r |>) end);;
  b ← get ai_iobuf;
  do_linux_aio fd offset b iobuf_len io_timeout IO_CMD_PREAD.

(** The record is copied out of the buffer and checked, [check]: the code when the check fails; then it is written from
    another buffer. *)
Definition iobuf_write (check : option Z) : aioM Z :=
  b ← get ai_iobuf;
  match b, check with
  | None, _ => fun _ => None
  | Some _, Some rv => mret rv
  | Some _, None =>
      rv ← with_iobuf fd (offset + id_offset) sector_size write_timeout IO_CMD_PWRITE;
      mret (if rv <? 0 then rv else SANLK_OK)
  end.

Definition renew_io (prev_result : Z) (check : option Z) : aioM Z :=
  read_done ← iobuf_reap prev_result;
  rv ← (if (read_done : bool) then mret 0 else iobuf_read);
  if nz rv then mret rv else iobuf_write check.

(** The sector i/o of the start of a lockspace thread, up to the first error: the sizes are read, the delta lease is
    acquired. *)
Fixpoint start_io (reqs : list (Z * Z * aio_op)) : aioM Z :=
  match reqs with
  | [] => mret 0
  | (off, len, cmd) :: reqs =>
      rv ← with_iobuf fd off len io_timeout cmd;
      if rv <? 0 then mret rv else start_io reqs
  end.

(** The renewals of a lockspace, each with the result of the one before. *)
Fixpoint renewals (prev_result : Z) (checks : list (option Z)) : aioM Z :=
  match checks with
  | [] => mret prev_result
  | c :: checks => rv ← renew_io prev_result c; renewals rv checks
  end.

(** The start, whose result is that of its i/o or, when all of it is done, [acquired]; the renewals, if it is no error;
    the release, if the last result is SANLK_OK; and the end of the task. *)
Definition lockspace_io (reqs : list (Z * Z * aio_op)) (acquired : Z) (checks : list (option Z)) : aioM unit :=
  err ← start_io reqs;
  let acquired := if err <? 0 then err else acquired in
  rv ← (if acquired <? 0 then mret acquired else renewals acquired checks);
  (if rv =? SANLK_OK then with_iobuf fd (offset + id_offset) sector_size io_timeout IO_CMD_PWRITE;; mret tt else mret tt);;
  close_task_aio.
End Renew.

(** ** The value block of a resource *)

(** [read_lvb_block] and [write_lvb_block] do i/o on the buffer of the resource itself, whoever owns it afterwards. *)
Definition lvb_io (fd offset : Z) (lvb : option addr) (len ioto : Z) (cmd : aio_op) : aioM Z :=
  match lvb with None => mret 0 | Some _ => do_linux_aio fd offset lvb len ioto cmd end.

(** ** Synchronous i/o *)

(** The loop of [do_read], after the bytes [buf]: the code and the buffer. A [read] is its code and the bytes, an error
    a negated errno; beyond the list is the end of the device. *)
Fixpoint read_loop (len : Z) (buf : list Z) (reads : list (Z * list Z)) : Z * list Z :=
  if len <=? Z.of_nat (length buf) then (0, buf)
  else
    match reads with
    | [] => (-1, buf)
    | (rv, bytes) :: reads =>
        if rv =? 0 then (-1, buf)
        else if rv =? - EINTR then read_loop len buf reads
        else if rv <? 0 then (-1, buf)
        else read_loop len (buf ++ bytes) reads
    end.

(** [seek]: the result of [lseek]. *)
Definition do_read (seek offset len : Z) (reads : list (Z * list Z)) : Z * list Z :=
  if negb (seek =? offset) then (-1, []) else read_loop len [] reads.

(** The loop of [do_write]: the code, and what was written. [None] when the answers are used up, as a [write] that takes
    nothing is repeated. *)
Fixpoint write_loop (data : list Z) (writes : list Z) : option (Z * list Z) :=
  match writes with
  | [] => None
  | rv :: writes =>
      if rv =? - EINTR then write_loop data writes
      else if rv <? 0 then Some (-1, [])
      else if negb (rv =? Z.of_nat (length data)) then
        match write_loop (drop (Z.to_nat rv) data) writes with
        | Some (e, done) => Some (e, take (Z.to_nat rv) data ++ done)
        | None => None
        end
      else Some (0, data)
  end.

Definition do_write (seek offset : Z) (data : list Z) (writes : list Z) : option (Z * list Z) :=
  if negb (seek =? offset) then Some (-1, []) else write_loop data writes.
