(* ===== verification/AioSafety.v ===== *)
(** * The buffers of asynchronous i/o are safe

    Whose buffer is whose ([wf]): every allocated buffer belongs to the code that allocated
    it or to exactly one slot whose request the kernel has. Under it no operation of a
    task frees memory twice or memory that the kernel still uses; sector i/o loses
    nothing; and the buffer that is kept between the renewals of a lockspace is
    safe because of the results that are passed from one to the next. Value
    blocks do not keep to it. *)

From S2P Require Import Prelude Io Aio.

(** ** Ownership *)

(** The code ends in a state with [Q], and does nothing undefined. *)
Definition runs {A} (m : aioM A) (Q : A -> aio -> Prop) (s : aio) : Prop :=
  match m s with Some (a, s') => Q a s' | None => False end.

Definition bufset (b : option addr) : gset addr := match b with Some b => {[b]} | None => ∅ end.

(** The slot [i] is used, for the buffer [b]. *)
Definition held (s : aio) (i : nat) (b : addr) : Prop :=
  exists cb, s.(ai_callbacks) !! i = Some cb /\ cb.(cb_used) = true /\ cb.(cb_buf) = Some b.

(** The kernel has exactly the requests of the used slots. *)
Definition flight_ok (s : aio) : Prop := forall i,
  match s.(ai_flight) !! i with
  | Some ic => exists cb, s.(ai_callbacks) !! i = Some cb /\ cb.(cb_used) = true /\ cb.(cb_iocb) = ic /\ cb.(cb_buf) = ic.(ic_buf)
  | None => forall cb, s.(ai_callbacks) !! i = Some cb -> cb.(cb_used) = false
  end.

(** The waits only fail when they are interrupted, and no code of the kernel is the one that
    [do_linux_aio] uses for a timeout. *)
Definition good_answer (a : kanswer) : Prop :=
  match a with
  | AEvents rv _ res => (0 <= rv \/ rv = - EINTR) /\ i32 res <> SANLK_AIO_TIMEOUT
  | ASubmit rv => rv <> SANLK_AIO_TIMEOUT
  | _ => True
  end.

(** [own]: the buffers that belong to the code. *)
Record wf (own : gset addr) (s : aio) : Prop := Wf {
  wf_flight : flight_ok s;
  wf_heap : forall b, b ∈ s.(ai_heap) <-> b ∈ own \/ exists i, held s i b;
  wf_own : forall i b, held s i b -> b ∉ own;
  wf_distinct : forall i j b, held s i b -> held s j b -> i = j;
  wf_good : Forall good_answer s.(ai_answers)
}.

Lemma runs_bind {A B} (m : aioM A) (f : A -> aioM B) Q s :
  runs m (fun a s => runs (f a) Q s) s -> runs (m ≫= f) Q s.
Proof. unfold runs, mbind, aioM_bind. by destruct (m s) as [[a s']|]. Qed.

Lemma runs_mono {A} (m : aioM A) (Q Q' : A -> aio -> Prop) s :
  runs m Q s -> (forall a s, Q a s -> Q' a s) -> runs m Q' s.
Proof. unfold runs. destruct (m s) as [[a s']|]; [|done]. auto. Qed.

Lemma runs_ret {A} (a : A) (Q : A -> aio -> Prop) s : Q a s -> runs (mret a) Q s.
Proof. done. Qed.

Lemma runs_modify f (Q : unit -> aio -> Prop) s : Q tt (f s) -> runs (modify f) Q s.
Proof. done. Qed.

Lemma runs_get {A} (f : aio -> A) (Q : A -> aio -> Prop) s : Q (f s) s -> runs (get f) Q s.
Proof. done. Qed.

(** What [wf] depends on. *)
Lemma wf_ext own s s' :
  s'.(ai_callbacks) = s.(ai_callbacks) -> s'.(ai_flight) = s.(ai_flight) -> s'.(ai_heap) = s.(ai_heap) ->
  Forall good_answer s'.(ai_answers) -> wf own s -> wf own s'.
Proof.
  intros Hc Hf Hh Ha [H1 H2 H3 H4 _]. unfold flight_ok, held in *.
  constructor; unfold flight_ok, held; rw ?Hc ?Hf ?Hh; done.
Qed.

Lemma wf_answers own s l : Forall good_answer l -> wf own s -> wf own (s <| ai_answers := l |>).
Proof. intros Hl H. apply (wf_ext own s); [done..|exact H]. Qed.

Lemma held_set s i j b f cb :
  s.(ai_callbacks) !! j = Some cb ->
  held (s <| ai_callbacks := <[j := f cb]> s.(ai_callbacks) |>) i b <->
    (i <> j /\ held s i b) \/ (i = j /\ cb_used (f cb) = true /\ cb_buf (f cb) = Some b).
Proof.
  intros Hj. unfold held. cbn. destruct (decide (i = j)) as [->|Hij].
  - rw list_lookup_insert_eq; [by eapply lookup_lt_Some|]. naive_solver.
  - rw list_lookup_insert_ne //. naive_solver.
Qed.

(** A slot that is in use, with the kernel's copy of its request. *)
Lemma wf_flight_slot own s i ic :
  wf own s -> s.(ai_flight) !! i = Some ic ->
  exists cb, s.(ai_callbacks) !! i = Some cb /\ cb.(cb_used) = true /\ cb.(cb_iocb) = ic /\ cb.(cb_buf) = ic.(ic_buf).
Proof. intros Hw Hi. pose proof (wf_flight _ _ Hw i) as H. by rw Hi in H. Qed.

Lemma wf_slot_flight own s i cb :
  wf own s -> s.(ai_callbacks) !! i = Some cb -> cb.(cb_used) = true ->
  s.(ai_flight) !! i = Some cb.(cb_iocb) /\ cb.(cb_buf) = cb.(cb_iocb).(ic_buf).
Proof.
  intros Hw Hi Hu. pose proof (wf_flight _ _ Hw i) as H. destruct (ai_flight s !! i) as [ic|].
  - destruct H as (cb' & Hi' & _ & <- & Hb). by rw Hi in Hi'; injection Hi' as <-.
  - by rw (H cb Hi) in Hu.
Qed.

(** The request in slot [i] is over: its buffer belongs to the code again. *)
Lemma wf_complete own s i cb cb' :
  wf own s -> s.(ai_callbacks) !! i = Some cb -> cb.(cb_used) = true -> cb'.(cb_used) = false ->
  wf (bufset cb.(cb_buf) ∪ own)
    (s <| ai_flight := delete i s.(ai_flight) |> <| ai_callbacks := <[i := cb']> s.(ai_callbacks) |>).
Proof.
  intros Hw Hi Hu Hu'. set (s1 := s <| ai_flight := delete i s.(ai_flight) |>).
  assert (Hh : forall j b, held (s1 <| ai_callbacks := <[i := cb']> s1.(ai_callbacks) |>) j b <-> j <> i /\ held s j b).
  { intros j b. rw (held_set s1 j i b (fun _ => cb') cb Hi). rw Hu'. unfold held. cbn. naive_solver. }
  assert (Hb : forall b, b ∈ bufset (cb_buf cb) <-> held s i b).
  { intros b. unfold held, bufset. destruct (cb_buf cb) as [b'|] eqn:E; [|split; [set_solver|naive_solver congruence]].
    rw elem_of_singleton. split; [intros ->; by exists cb|]. intros (cb2 & H2 & _ & H3). congruence. }
  constructor.
  - intros j. cbn. destruct (decide (j = i)) as [->|Hj].
    + rw lookup_delete_eq list_lookup_insert_eq; [by eapply lookup_lt_Some|]. by intros cb2 [= <-].
    + rw lookup_delete_ne // list_lookup_insert_ne //. apply (wf_flight _ _ Hw).
  - intros b. change (b ∈ s.(ai_heap) <-> b ∈ bufset (cb_buf cb) ∪ own \/
      (exists j, held (s1 <| ai_callbacks := <[i := cb']> s1.(ai_callbacks) |>) j b)).
    rw (wf_heap _ _ Hw) elem_of_union Hb. setoid_rewrite Hh. split.
    + intros [?|[j Hj]]; [auto|]. destruct (decide (j = i)) as [->|]; eauto.
    + intros [[?|?]|(j & _ & Hj)]; eauto.
  - intros j b [Hj H]%Hh. rw elem_of_union Hb. intros [H2|H2]; [by apply Hj, (wf_distinct _ _ Hw j i b)|].
    by apply (wf_own _ _ Hw j b).
  - intros j k b [_ Hj]%Hh [_ Hk]%Hh. by apply (wf_distinct _ _ Hw j k b).
  - apply (wf_good _ _ Hw).
Qed.

Lemma wf_freed own s b :
  b ∉ own -> wf ({[b]} ∪ own) s -> wf own (s <| ai_heap := s.(ai_heap) ∖ {[b]} |>).
Proof.
  intros Hb Hw. constructor; [apply (wf_flight _ _ Hw)| | |apply (wf_distinct _ _ Hw)|apply (wf_good _ _ Hw)].
  - intros b'. cbn. rw elem_of_difference elem_of_singleton (wf_heap _ _ Hw). split; [set_solver|].
    intros [H|[i Hi]]; [set_solver|]. split; [by right; exists i|]. intros ->.
    apply (wf_own _ _ Hw i b Hi). set_solver.
  - intros i b' Hi. pose proof (wf_own _ _ Hw i b' Hi). set_solver.
Qed.

Lemma wf_in_heap own s b : b ∈ own -> wf own s -> b ∈ s.(ai_heap).
Proof. intros Hb Hw. apply (wf_heap _ _ Hw). by left. Qed.

(** The kernel has no request with a buffer that belongs to the code. *)
Lemma wf_not_flight own s b : b ∈ own -> wf own s -> in_flight b s = false.
Proof.
  intros Hb Hw. destruct (in_flight b s) eqn:E; [|done]. apply existsb_exists in E as ([i ic] & Hin & Hic%bool_decide_eq_true).
  apply list_elem_of_In, elem_of_map_to_list in Hin. destruct (wf_flight_slot _ _ _ _ Hw Hin) as (cb & H1 & H2 & _ & H3).
  cbn in Hic. destruct (wf_own _ _ Hw i b); [|done]. exists cb. split; [done|]. split; [done|congruence].
Qed.

Lemma free_ok own b s (Q : unit -> aio -> Prop) :
  (forall x, b = Some x -> x ∉ own) -> wf (bufset b ∪ own) s ->
  (forall s', wf own s' -> s'.(ai_callbacks) = s.(ai_callbacks) -> s'.(ai_iobuf) = s.(ai_iobuf) ->
     s'.(ai_timeout_aicb) = s.(ai_timeout_aicb) -> s'.(ai_answers) = s.(ai_answers) -> Q tt s') ->
  runs (free b) Q s.
Proof.
  intros Hb Hw HQ. unfold runs, free. destruct b as [x|].
  - assert (Hx : x ∈ bufset (Some x) ∪ own) by (cbn; set_solver).
    rw bool_decide_true; [by eapply wf_in_heap|]. rw (wf_not_flight _ _ _ Hx Hw). cbn [negb andb].
    apply HQ; [|done..]. apply wf_freed; [by apply Hb|done].
  - apply HQ; [|done..]. cbn in Hw. by rw union_empty_l_L in Hw.
Qed.

(** The kernel has taken the request with [buf], and the slot is marked. *)
Lemma wf_submitted own s i cb ic :
  (forall b, ic.(ic_buf) = Some b -> b ∉ own) -> wf (bufset ic.(ic_buf) ∪ own) s ->
  s.(ai_callbacks) !! i = Some cb -> cb.(cb_used) = false ->
  wf own (s <| ai_flight := <[i := ic]> s.(ai_flight) |>
            <| ai_callbacks := <[i := Aicb true ic.(ic_buf) ic]> s.(ai_callbacks) |>).
Proof.
  intros Ho Hw Hi Hu. set (s1 := s <| ai_flight := <[i := ic]> s.(ai_flight) |>).
  assert (Hh : forall j b, held (s1 <| ai_callbacks := <[i := Aicb true ic.(ic_buf) ic]> s1.(ai_callbacks) |>) j b <->
    (j <> i /\ held s j b) \/ (j = i /\ ic.(ic_buf) = Some b)).
  { intros j b. rw (held_set s1 j i b (fun _ => Aicb true ic.(ic_buf) ic) cb Hi). unfold held. cbn. naive_solver. }
  assert (Hn : forall j b, held s j b -> j <> i).
  { intros j b (cb2 & H2 & H3 & _) ->. congruence. }
  assert (Hb : forall b, b ∈ bufset (ic_buf ic) <-> ic_buf ic = Some b).
  { intros b. destruct (ic_buf ic); cbn; set_solver. }
  constructor.
  - intros j. cbn. destruct (decide (j = i)) as [->|Hj].
    + rw lookup_insert_eq list_lookup_insert_eq; [by eapply lookup_lt_Some|]. by eexists.
    + rw lookup_insert_ne // list_lookup_insert_ne //. apply (wf_flight _ _ Hw).
  - intros b. change (b ∈ s.(ai_heap) <-> b ∈ own \/
      (exists j, held (s1 <| ai_callbacks := <[i := Aicb true ic.(ic_buf) ic]> s1.(ai_callbacks) |>) j b)).
    rw (wf_heap _ _ Hw) elem_of_union Hb. setoid_rewrite Hh. split.
    + intros [[?|?]|[j Hj]]; [right; exists i; by right|by left|]. right; exists j. left. split; [by eapply Hn|done].
    + intros [?|(j & [[_ Hj]|[_ Hj]])]; [by left; right|by right; exists j|by left; left].
  - intros j b [[_ H]|[-> H]]%Hh; [|by apply Ho]. pose proof (wf_own _ _ Hw j b H). set_solver.
  - intros j k b Hj%Hh Hk%Hh. assert (Hx : forall j, held s j b -> ic_buf ic = Some b -> False).
    { intros j' H H'. apply (wf_own _ _ Hw j' b H). apply elem_of_union. left. by apply Hb. }
    destruct Hj as [[_ Hj]|[-> Hj]], Hk as [[_ Hk]|[-> Hk]]; [by apply (wf_distinct _ _ Hw j k b)| | |done];
      exfalso; eauto.
  - apply (wf_good _ _ Hw).
Qed.

(** A slot that is not in use can be changed. *)
Lemma wf_set_unused own s i cb cb' :
  wf own s -> s.(ai_callbacks) !! i = Some cb -> cb.(cb_used) = false -> cb'.(cb_used) = false ->
  wf own (s <| ai_callbacks := <[i := cb']> s.(ai_callbacks) |>).
Proof.
  intros Hw Hi Hu Hu'.
  assert (Hh : forall j b, held (s <| ai_callbacks := <[i := cb']> s.(ai_callbacks) |>) j b <-> held s j b).
  { intros j b. rw (held_set s j i b (fun _ => cb') cb Hi) Hu'. unfold held. split; [naive_solver|].
    intros (cb2 & H2 & H3 & H4). left. split; [intros ->; congruence|by exists cb2]. }
  constructor.
  - intros j. cbn. pose proof (wf_flight _ _ Hw j) as Hf. destruct (decide (j = i)) as [->|Hj].
    + destruct (ai_flight s !! i) as [ic|]; [destruct Hf as (cb2 & H2 & H3 & _); congruence|].
      rw list_lookup_insert_eq; [by eapply lookup_lt_Some|]. by intros cb2 [= <-].
    + by rw list_lookup_insert_ne.
  - intros b. setoid_rewrite Hh. apply (wf_heap _ _ Hw).
  - intros j b Hj%Hh. by apply (wf_own _ _ Hw j b).
  - intros j k b Hj%Hh Hk%Hh. by apply (wf_distinct _ _ Hw j k b).
  - apply (wf_good _ _ Hw).
Qed.

Lemma getevent_ok own s a :
  good_answer a -> wf own s ->
  match getevent a s with
  | (EvErr rv, s') => s' = s /\ rv = - EINTR
  | (EvNone, s') => s' = s
  | (EvGot obj res, s') =>
      exists cb, s.(ai_callbacks) !! obj = Some cb /\ cb.(cb_used) = true /\
        s' = s <| ai_flight := delete obj s.(ai_flight) |> /\
        i32 res <> SANLK_AIO_TIMEOUT /\ (cb.(cb_buf) = None -> i32 res < 0)
  end.
Proof.
  intros Ha Hw. unfold getevent. destruct a as [| | |rv obj res]; [done..|]. destruct Ha as [Hrv Hres].
  destruct (rv <? 0) eqn:E1; zbool; [split; [done|lia]|]. destruct (rv =? 1); [|done].
  destruct (ai_flight s !! obj) as [ic|] eqn:Hf; [|done].
  destruct (wf_flight_slot _ _ _ _ Hw Hf) as (cb & Hc & Hu & _ & Hb). exists cb. split_and!; [done..| |].
  - by destruct (ic_buf ic).
  - rw Hb. by intros ->.
Qed.

Lemma runs_set_slot i f cb (Q : unit -> aio -> Prop) s :
  s.(ai_callbacks) !! i = Some cb -> Q tt (s <| ai_callbacks := <[i := f cb]> s.(ai_callbacks) |>) ->
  runs (set_slot i f) Q s.
Proof. intros Hi HQ. unfold runs, set_slot. by rw Hi. Qed.

(** The fields that the waits leave alone. *)
Definition same_task (s s' : aio) : Prop :=
  s'.(ai_iobuf) = s.(ai_iobuf) /\ s'.(ai_timeout_aicb) = s.(ai_timeout_aicb).

(** An event of a request that nobody waits for. *)
Lemma collect_ok own s obj cb :
  wf own s -> s.(ai_callbacks) !! obj = Some cb -> cb.(cb_used) = true ->
  runs (collect obj)
    (fun _ s' => wf own s' /\ s'.(ai_callbacks) = <[obj := Aicb false None cb.(cb_iocb)]> s.(ai_callbacks) /\
       same_task s s' /\ s'.(ai_answers) = s.(ai_answers))
    (s <| ai_flight := delete obj s.(ai_flight) |>).
Proof.
  intros Hw Hi Hu. assert (Hlt : (obj < length (ai_callbacks s))%nat) by (by eapply lookup_lt_Some).
  pose proof (wf_complete own s obj cb (set_used false cb) Hw Hi Hu eq_refl) as Hw1.
  unfold collect, runs. change (ai_callbacks (s <| ai_flight := delete obj s.(ai_flight) |>)) with (ai_callbacks s).
  rw Hi. fold (@runs unit). apply runs_bind, (runs_set_slot _ _ cb); [done|].
  apply runs_bind. eapply free_ok; [|exact Hw1|].
  { intros x Hx. apply (wf_own _ _ Hw obj). by exists cb. }
  intros s' Hw' Hc Hio Ht Ha. change (ai_callbacks s' = <[obj := set_used false cb]> (ai_callbacks s)) in Hc.
  assert (H : s'.(ai_callbacks) !! obj = Some (set_used false cb)) by (rw Hc; by apply list_lookup_insert_eq).
  apply (runs_set_slot _ _ _ _ _ H). split_and!; [| |by split|done].
  - by apply (wf_set_unused own s' obj _ _ Hw' H).
  - change (<[obj := set_buf None (set_used false cb)]> (ai_callbacks s') = <[obj := Aicb false None (cb_iocb cb)]> (ai_callbacks s)).
    by rw Hc list_insert_insert_eq.
Qed.

Lemma same_task_trans s1 s2 s3 : same_task s1 s2 -> same_task s2 s3 -> same_task s1 s3.
Proof. intros [H1 H2] [H3 H4]. split; congruence. Qed.

(** What a wait for the request of [cb] ends with. *)
Definition waited (own : gset addr) (slot : nat) (cb : aicb) (w : wait_end) (s : aio) : Prop :=
  match w with
  | WErr _ => False
  | WDone rv => rv <> SANLK_AIO_TIMEOUT /\ (rv = 0 -> is_Some cb.(cb_buf)) /\ wf (bufset cb.(cb_buf) ∪ own) s
  | WTimeout => wf own s /\ s.(ai_callbacks) !! slot = Some cb
  end.

Lemma wait_event_ok own slot len cb l s :
  Forall good_answer l -> wf own s -> s.(ai_callbacks) !! slot = Some cb -> cb.(cb_used) = true ->
  runs (fun s => wait_event slot len l s) (fun w s' => same_task s s' /\ waited own slot cb w s') s.
Proof.
  intros Hl. revert s. induction Hl as [|a l Ha Hl IH]; intros s Hw Hs Hu; unfold runs; cbn [wait_event].
  { split; [by split|]. split; [by apply wf_answers|done]. }
  set (s0 := s <| ai_answers := l |>). assert (Hw0 : wf own s0) by (by apply wf_answers).
  pose proof (getevent_ok own s0 a Ha Hw0) as Hg. destruct (getevent a s0) as [[rv| |obj res] s1].
  - destruct Hg as [-> ->]. exact (IH s0 Hw0 Hs Hu).
  - subst s1. by split; [|split].
  - destruct Hg as (cb1 & Hc1 & Hu1 & -> & Hr & Hnull). destruct (Nat.eqb_spec obj slot) as [->|Hne].
    + assert (cb1 = cb) as -> by (cbn in Hc1; congruence).
      change (runs (set_slot slot (set_used false);;
        mret (WDone (if i32 res <? 0 then i32 res else if negb (res =? len) then - EMSGSIZE else 0)))
        (fun w s' => same_task s s' /\ waited own slot cb w s') (s0 <| ai_flight := delete slot s0.(ai_flight) |>)).
      apply runs_bind, (runs_set_slot _ _ cb); [done|]. apply runs_ret. split; [done|]. split; [|split].
      * destruct (i32 res <? 0); [done|]. by destruct (negb _).
      * destruct (cb_buf cb) as [b|]; [by eexists|]. specialize (Hnull eq_refl).
        rw (proj2 (Z.ltb_lt _ _) Hnull). lia.
      * by apply (wf_complete own s0 slot cb).
    + pose proof (collect_ok own s0 obj cb1 Hw0 Hc1 Hu1) as Hc. unfold runs in Hc.
      destruct (collect obj (s0 <| ai_flight := delete obj s0.(ai_flight) |>)) as [[[] s2]|]; [|done].
      destruct Hc as (Hw2 & Hcb2 & Hsame & _).
      assert (Hs2 : s2.(ai_callbacks) !! slot = Some cb) by (rw Hcb2 list_lookup_insert_ne //).
      eapply runs_mono; [by apply (IH s2)|]. intros w s' [H1 H2]. split; [|done].
      eapply same_task_trans; [exact Hsame|exact H1].
Qed.

Lemma await_ok own slot len cb s :
  wf own s -> s.(ai_callbacks) !! slot = Some cb -> cb.(cb_used) = true ->
  runs (await slot len) (fun w s' => same_task s s' /\ waited own slot cb w s') s.
Proof. intros Hw. apply (wait_event_ok own slot len cb s.(ai_answers) s (wf_good _ _ Hw) Hw). Qed.

Lemma first_free_spec l i j :
  first_free l i = Some j -> exists k cb, j = (i + k)%nat /\ l !! k = Some cb /\ cb.(cb_used) = false.
Proof.
  revert i. induction l as [|cb l IH]; intros i; cbn; [done|]. destruct (cb_used cb) eqn:E.
  - intros (k & cb' & -> & H1 & H2)%IH. exists (S k), cb'. split; [lia|done].
  - intros [= <-]. exists 0%nat, cb. split; [lia|done].
Qed.

Lemma find_slot_ok own s :
  wf own s ->
  runs find_callback_slot (fun o s' => wf own s' /\ same_task s s' /\
    forall slot, o = Some slot -> exists cb, s'.(ai_callbacks) !! slot = Some cb /\ cb.(cb_used) = false) s.
Proof.
  intros Hw. assert (Hff : forall s, forall slot, first_free (ai_callbacks s) 0 = Some slot ->
    exists cb, s.(ai_callbacks) !! slot = Some cb /\ cb.(cb_used) = false).
  { intros s' slot (k & cb & -> & H)%first_free_spec. by exists cb. }
  unfold runs, find_callback_slot. destruct (first_free (ai_callbacks s) 0) as [i|] eqn:Hi.
  { split; [done|]. split; [done|]. intros slot [= <-]. by apply Hff. }
  assert (Hc : forall l s, Forall good_answer l -> wf own s -> runs (fun s => collect_old l s)
    (fun _ s' => wf own s' /\ same_task s s') s).
  { clear. induction l as [|a l IH]; intros s Hl Hw; unfold runs; cbn [collect_old].
    { split; [by apply wf_answers|done]. }
    apply list.Forall_cons in Hl as [Ha Hl]. set (s0 := s <| ai_answers := l |>).
    assert (Hw0 : wf own s0) by (by apply wf_answers).
    pose proof (getevent_ok own s0 a Ha Hw0) as Hg. destruct (getevent a s0) as [[rv| |obj res] s1].
    - destruct Hg as [-> ->]. exact (IH s0 Hl Hw0).
    - by subst s1.
    - destruct Hg as (cb1 & Hc1 & Hu1 & -> & _).
      change (runs (collect obj;; mret true) (fun _ s' => wf own s' /\ same_task s s')
                (s0 <| ai_flight := delete obj s0.(ai_flight) |>)).
      apply runs_bind. eapply runs_mono; [by apply (collect_ok own s0)|]. by intros [] s2 (H2 & _ & H3 & _). }
  specialize (Hc s.(ai_answers) s (wf_good _ _ Hw) Hw). unfold runs in Hc.
  destruct (collect_old (ai_answers s) s) as [[[] s']|]; [| |done]; destruct Hc as [H1 H2]; (split; [done|]); (split; [done|]).
  - intros slot. apply Hff.
  - done.
Qed.

(** ** Requests *)

(** What a request ends with: the buffer is the code's again, or, with the code for a timeout, it belongs to a
    slot that the kernel has not answered. *)
Definition io_over (own : gset addr) (ic : iocb) (s0 : aio) (rv : Z) (s : aio) : Prop :=
  s.(ai_iobuf) = s0.(ai_iobuf) /\ (rv = 0 -> is_Some ic.(ic_buf)) /\
  if rv =? SANLK_AIO_TIMEOUT then
    wf own s /\ exists slot, s.(ai_callbacks) !! slot = Some (Aicb true ic.(ic_buf) ic) /\
      s.(ai_timeout_aicb) = match ic.(ic_opcode) with IO_CMD_PREAD => Some slot | IO_CMD_PWRITE => s0.(ai_timeout_aicb) end
  else wf (bufset ic.(ic_buf) ∪ own) s /\ s.(ai_timeout_aicb) = s0.(ai_timeout_aicb).

Lemma io_error own ic s0 rv s :
  rv <> SANLK_AIO_TIMEOUT -> rv <> 0 -> wf (bufset ic.(ic_buf) ∪ own) s -> same_task s0 s -> io_over own ic s0 rv s.
Proof.
  intros H1 H2 Hw [Hi Ht]. split; [done|]. split; [done|]. by rw (proj2 (Z.eqb_neq _ _) H1).
Qed.

(** From the marked slot to the end. *)
Lemma submitted_ok own ic slot len s :
  wf own s -> s.(ai_callbacks) !! slot = Some (Aicb true ic.(ic_buf) ic) ->
  runs (w ← await slot len;
        match w with
        | WErr rv | WDone rv => mret rv
        | WTimeout =>
            modify (fun s => s <| ai_to_count := u32 (s.(ai_to_count) + 1) |>);;
            rv ← io_cancel slot;
            if rv =? 0 then set_slot slot (set_used false);; mret (- ECANCELED)
            else
              (if bool_decide (ic.(ic_opcode) = IO_CMD_PREAD)
               then modify (fun s => s <| ai_timeout_aicb := Some slot |>) else mret tt);;
              mret SANLK_AIO_TIMEOUT
        end) (io_over own ic s) s.
Proof.
  intros Hw Hs. apply runs_bind. eapply runs_mono; [by apply (await_ok own)|]. intros [rv|rv|] s1 [Hsame H1]; [done| |].
  - destruct H1 as (H1 & H2 & H3). apply runs_ret. destruct Hsame as [Hi Ht]. split; [done|]. split; [done|].
    by rw (proj2 (Z.eqb_neq _ _) H1).
  - destruct H1 as [Hw1 Hs1]. destruct Hsame as [Hi Ht]. apply runs_bind, runs_modify.
    set (s2 := s1 <| ai_to_count := _ |>). assert (Hw2 : wf own s2) by (apply (wf_ext own s1); [done..|apply (wf_good _ _ Hw1)|done]).
    assert (Hk : forall l rv, rv <> 0 -> Forall good_answer l ->
      runs (if rv =? 0 then set_slot slot (set_used false);; mret (- ECANCELED) else
        (if bool_decide (ic.(ic_opcode) = IO_CMD_PREAD)
         then modify (fun s => s <| ai_timeout_aicb := Some slot |>) else mret tt);;
        mret SANLK_AIO_TIMEOUT) (io_over own ic s) (s2 <| ai_answers := l |>)).
    { intros l rv Hrv Hl. rw (proj2 (Z.eqb_neq _ _) Hrv). destruct (ic_opcode ic) eqn:Ho; cbn [bool_decide]; apply runs_bind.
      - rw bool_decide_true //. apply runs_modify, runs_ret. split; [done|]. split; [done|]. rw Z.eqb_refl Ho.
        split; [|by exists slot]. apply (wf_ext own s2); [done..|exact Hw2].
      - rw bool_decide_false //. apply runs_ret, runs_ret. split; [done|]. split; [done|]. rw Z.eqb_refl Ho.
        split; [by apply wf_answers|by exists slot]. }
    apply runs_bind. unfold runs at 1, io_cancel. pose proof (wf_good _ _ Hw2) as Hg.
    assert (He : s2 = s2 <| ai_answers := s2.(ai_answers) |>) by (by destruct s1).
    destruct (ai_answers s2) as [|[rv|rv|rv|rv obj res] l] eqn:El; try (rw He; by apply Hk).
    apply list.Forall_cons in Hg as [_ Hg]. destruct (rv =? 0) eqn:E; zbool; [|by apply Hk]. cbn [Z.eqb].
    apply runs_bind, (runs_set_slot _ _ (Aicb true ic.(ic_buf) ic)); [done|]. apply runs_ret. apply io_error; [done|done| |done].
    apply (wf_ext _ (s2 <| ai_flight := delete slot s2.(ai_flight) |>
      <| ai_callbacks := <[slot := set_used false (Aicb true ic.(ic_buf) ic)]> s2.(ai_callbacks) |>)); [done..|].
    by apply (wf_complete own s2 slot (Aicb true ic.(ic_buf) ic)).
Qed.

Lemma do_linux_aio_ok own fd offset buf len ioto cmd s :
  (forall b, buf = Some b -> b ∉ own) -> wf (bufset buf ∪ own) s ->
  runs (do_linux_aio fd offset buf len ioto cmd) (io_over own (Iocb fd cmd buf len offset) s) s.
Proof.
  intros Hb Hw. unfold do_linux_aio. set (ic := Iocb fd cmd buf len offset).
  destruct (ioto =? 0); [by apply runs_ret, io_error|].
  apply runs_bind. eapply runs_mono; [by apply find_slot_ok|]. intros [slot|] s1 (Hw1 & Hs1 & Hf); [|by apply runs_ret, io_error].
  destruct (Hf slot eq_refl) as (cb & Hc & Hu). apply runs_bind, (runs_set_slot _ _ cb _ _ Hc).
  set (s2 := s1 <| ai_callbacks := _ |>).
  assert (Hw2 : wf (bufset buf ∪ own) s2) by (by apply (wf_set_unused _ s1 slot cb)).
  assert (Hc2 : s2.(ai_callbacks) !! slot = Some (set_iocb ic cb)).
  { apply list_lookup_insert_eq. by eapply lookup_lt_Some. }
  apply runs_bind. unfold runs at 1, io_submit. pose proof (wf_good _ _ Hw2) as Hg.
  assert (Hacc : forall l, Forall good_answer l ->
    runs (modify (fun s => s <| ai_io_count := u32 (s.(ai_io_count) + 1) |>);;
          set_slot slot (fun cb => set_buf buf (set_used true cb));;
          w ← await slot len;
          match w with
          | WErr rv | WDone rv => mret rv
          | WTimeout =>
              modify (fun s => s <| ai_to_count := u32 (s.(ai_to_count) + 1) |>);;
              rv ← io_cancel slot;
              if rv =? 0 then set_slot slot (set_used false);; mret (- ECANCELED)
              else
                (if bool_decide (cmd = IO_CMD_PREAD)
                 then modify (fun s => s <| ai_timeout_aicb := Some slot |>) else mret tt);;
                mret SANLK_AIO_TIMEOUT
          end) (io_over own ic s)
      (s2 <| ai_flight := <[slot := ic]> s2.(ai_flight) |> <| ai_answers := l |>)).
  { intros l Hl. apply runs_bind, runs_modify, runs_bind, (runs_set_slot _ _ (set_iocb ic cb)); [done|].
    eapply runs_mono; [eapply (submitted_ok own ic slot len)| ].
    - apply (wf_ext _ (s2 <| ai_flight := <[slot := ic]> s2.(ai_flight) |>
        <| ai_callbacks := <[slot := Aicb true ic.(ic_buf) ic]> s2.(ai_callbacks) |>)); [done..|].
      by apply (wf_submitted own s2 slot (set_iocb ic cb) ic).
    - apply list_lookup_insert_eq. by eapply lookup_lt_Some.
    - intros rv s3 (H1 & H2 & H3). destruct Hs1 as [Hi Ht]. split; [by rw H1|]. split; [done|].
      cbn in H3. by rw Ht in H3. }
  destruct (ai_answers s2) as [|[rv|rv|rv|rv obj res] l] eqn:El; try (by apply Hacc).
  apply list.Forall_cons in Hg as [Ha Hg]. destruct (rv <? 0) eqn:E; [|by apply Hacc].
  rw E. apply runs_ret, io_error; [done|lia| |by destruct Hs1]. by apply wf_answers.
Qed.

(** ** Sector i/o *)

Lemma memalign_ok own s :
  wf own s ->
  runs memalign (fun r s' => same_task s s' /\
    if nz (fst r) then snd r = None /\ wf own s'
    else exists b, snd r = Some b /\ (b ∉ own) /\ wf ({[b]} ∪ own) s') s.
Proof.
  intros Hw. unfold runs, memalign. pose proof (wf_good _ _ Hw) as Hg.
  destruct (ai_answers s) as [|[rv|rv|rv|rv obj res] l]; try done.
  apply list.Forall_cons in Hg as [_ Hg]. destruct (rv =? 0) eqn:E; (split; [done|]); cbn [fst snd].
  - cbn [nz Z.eqb negb]. exists (fresh (ai_heap s)). pose proof (is_fresh (ai_heap s)) as Hf.
    assert (Hno : fresh (ai_heap s) ∉ own) by (intros H; by eapply Hf, wf_in_heap).
    split; [done|]. split; [done|]. constructor; [apply (wf_flight _ _ Hw)| | |apply (wf_distinct _ _ Hw)|done].
    + intros b. cbn. rw !elem_of_union elem_of_singleton (wf_heap _ _ Hw). tauto.
    + intros i b Hi. pose proof (wf_own _ _ Hw i b Hi). rw not_elem_of_union not_elem_of_singleton. split; [|done].
      intros ->. apply Hf, (wf_heap _ _ Hw). right. by exists i.
  - unfold nz. rw E. cbn. split; [done|by apply wf_answers].
Qed.

Lemma with_iobuf_ok own fd offset len ioto cmd s :
  wf own s ->
  runs (with_iobuf fd offset len ioto cmd)
    (fun _ s' => wf own s' /\ s'.(ai_iobuf) = s.(ai_iobuf) /\
       (cmd = IO_CMD_PWRITE -> s'.(ai_timeout_aicb) = s.(ai_timeout_aicb))) s.
Proof.
  intros Hw. apply runs_bind. eapply runs_mono; [by apply (memalign_ok own)|].
  intros [rv b] s1 [[Hi Ht] H1]. cbn [fst snd] in *. destruct (nz rv); [by apply runs_ret; split_and!; [apply H1| |]|].
  destruct H1 as (x & -> & Hx & Hw1). apply runs_bind.
  eapply runs_mono; [apply (do_linux_aio_ok own); [by intros ? [= <-]|done]|].
  intros rv' s2 (Hi2 & _ & H2). apply runs_bind. destruct (rv' =? SANLK_AIO_TIMEOUT).
  - apply runs_ret, runs_ret. destruct H2 as (Hw2 & slot & _ & Ht2). split_and!; [done|by rw Hi2|].
    intros ->. cbn in Ht2. by rw Ht2.
  - destruct H2 as [Hw2 Ht2]. eapply free_ok; [by intros ? [= <-]|exact Hw2|].
    intros s3 Hw3 _ Hi3 Ht3 _. apply runs_ret. split_and!; [done|by rw Hi3 Hi2|by rw Ht3 Ht2].
Qed.

(** ** Renewals *)

Section Renewals.
Context (fd offset iobuf_len id_offset sector_size io_timeout write_timeout : Z).

(** Before a renewal, after one with [prev_result]: the buffer kept is the task's alone; or the kernel has it, for
    the read that timed out and that the next renewal tries to reap. [own]: what was lost. *)
Definition between (own : gset addr) (prev_result : Z) (s : aio) : Prop :=
  match s.(ai_iobuf) with
  | None => wf own s
  | Some b =>
      ((b ∉ own) /\ wf ({[b]} ∪ own) s /\ s.(ai_timeout_aicb) = None) \/
      (prev_result = SANLK_AIO_TIMEOUT /\ wf own s /\ exists i, s.(ai_timeout_aicb) = Some i /\
         s.(ai_callbacks) !! i = Some (Aicb true (Some b) (Iocb fd IO_CMD_PREAD (Some b) iobuf_len offset)))
  end.

(** During one: the buffer, if there is one, is the task's alone. *)
Definition inside (own : gset addr) (s : aio) : Prop :=
  match s.(ai_iobuf) with None => wf own s | Some b => (b ∉ own) /\ wf ({[b]} ∪ own) s end.

(** Dropping the pointer to a buffer that is the task's alone loses it. *)
Lemma abandon_ok own prev s : between own prev s -> runs abandon (fun _ s' => exists own', own ⊆ own' /\ s'.(ai_iobuf) = None /\ s'.(ai_timeout_aicb) = None /\ wf own' s') s.
Proof.
  intros H. apply runs_modify. unfold between in H. destruct (ai_iobuf s) as [b|].
  - destruct H as [(Hb & Hw & _)|(_ & Hw & _)]; [exists ({[b]} ∪ own)|exists own];
      (split; [set_solver|]); (split; [done|]); (split; [done|]); (apply (wf_ext _ s); [done..|apply (wf_good _ _ Hw)|done]).
  - exists own. split; [done|]. split; [done|]. split; [done|]. apply (wf_ext _ s); [done..|apply (wf_good _ _ H)|done].
Qed.

Lemma reap_ok own b i s :
  wf own s -> s.(ai_timeout_aicb) = Some i ->
  s.(ai_callbacks) !! i = Some (Aicb true (Some b) (Iocb fd IO_CMD_PREAD (Some b) iobuf_len offset)) ->
  runs (read_iobuf_reap fd offset (Some b) iobuf_len)
    (fun rv s' => same_task s s' /\
       (if rv =? SANLK_AIO_TIMEOUT
        then wf own s' /\ s'.(ai_callbacks) !! i = Some (Aicb true (Some b) (Iocb fd IO_CMD_PREAD (Some b) iobuf_len offset))
        else (b ∉ own) /\ wf ({[b]} ∪ own) s')) s.
Proof.
  intros Hw Ht Hc. apply runs_bind, runs_get. rw Ht. apply runs_bind, runs_get. rw Hc. cbn [cb_used cb_iocb ic_fildes ic_buf ic_nbytes ic_offset ic_opcode].
  rw !Z.eqb_refl !bool_decide_true //. cbn [negb orb]. apply runs_bind. eapply runs_mono; [by apply (await_ok own)|].
  intros [rv|rv|] s1 [Hs H1]; [done| |].
  - destruct H1 as (H1 & _ & H3). apply runs_ret. split; [done|]. rw (proj2 (Z.eqb_neq _ _) H1). split; [|done].
    apply (wf_own _ _ Hw i). by eexists.
  - apply runs_ret. by split.
Qed.

Lemma renew_reap_ok own prev s :
  between own prev s ->
  runs (iobuf_reap fd offset iobuf_len prev) (fun d s' => exists own', own ⊆ own' /\
    if (d : bool) then inside own' s' /\ is_Some s'.(ai_iobuf) /\ s'.(ai_timeout_aicb) = None
    else between own' prev s' /\ (prev = SANLK_AIO_TIMEOUT -> s'.(ai_iobuf) = None)) s.
Proof.
  intros HJ. unfold iobuf_reap. destruct (prev =? SANLK_AIO_TIMEOUT) eqn:Hp; zbool; [|by apply runs_ret; exists own].
  assert (Hab : forall own1 prev1 s1, own ⊆ own1 -> between own1 prev1 s1 -> runs (abandon;; mret false) (fun d s' => exists own', own ⊆ own' /\
    if (d : bool) then inside own' s' /\ is_Some s'.(ai_iobuf) /\ s'.(ai_timeout_aicb) = None
    else between own' prev s' /\ (prev = SANLK_AIO_TIMEOUT -> s'.(ai_iobuf) = None)) s1).
  { intros own1 prev1 s1 Ho H. apply runs_bind. eapply runs_mono; [by eapply abandon_ok|]. intros [] s2 (own' & H1 & H2 & H3 & H4).
    apply runs_ret. exists own'. split; [set_solver|]. unfold between. rw H2. by split. }
  apply runs_bind, runs_get, runs_bind, runs_get.
  destruct (ai_timeout_aicb s) as [i|] eqn:Ht; [|by eapply Hab].
  destruct (ai_iobuf s) as [b|] eqn:Hb; [|by eapply Hab].
  pose proof HJ as HJ0. unfold between in HJ. rw Hb Ht in HJ. destruct HJ as [(_ & _ & [=])|(_ & Hw & j & [= <-] & Hc)].
  apply runs_bind. eapply runs_mono; [by apply (reap_ok own b i)|]. intros rv s1 [[Hi1 Ht1] H1].
  destruct (rv =? 0) eqn:E0; zbool.
  - subst rv. destruct H1 as [H1 H2]. apply runs_bind, runs_modify, runs_ret. exists own. split; [done|].
    split; [|by rw /= Hi1 Hb]. unfold inside. cbn. rw Hi1 Hb. split; [done|].
    apply (wf_ext _ s1); [done..|apply (wf_good _ _ H2)|done].
  - destruct (rv =? SANLK_AIO_TIMEOUT).
    + apply (Hab own SANLK_AIO_TIMEOUT); [done|]. unfold between. rw Hi1 Hb. right. split; [done|]. split; [apply H1|].
      exists i. split; [by rw Ht1|apply H1].
    + destruct H1 as [H1 H2]. apply runs_bind, runs_modify, runs_ret.
      exists ({[b]} ∪ own). split; [set_solver|]. split; [|done]. unfold between. cbn.
      apply (wf_ext _ s1); [done..|apply (wf_good _ _ H2)|done].
Qed.

Lemma renew_read_ok own prev s :
  between own prev s -> (prev = SANLK_AIO_TIMEOUT -> s.(ai_iobuf) = None) ->
  runs (iobuf_read fd offset iobuf_len io_timeout) (fun rv s' =>
    if nz rv then between own rv s' else inside own s' /\ is_Some s'.(ai_iobuf) /\ s'.(ai_timeout_aicb) = None) s.
Proof.
  intros HJ Hp.
  assert (Hend : forall s, s.(ai_timeout_aicb) = None -> inside own s ->
    runs (b ← get ai_iobuf; do_linux_aio fd offset b iobuf_len io_timeout IO_CMD_PREAD) (fun rv s' =>
      if nz rv then between own rv s' else inside own s' /\ is_Some s'.(ai_iobuf) /\ s'.(ai_timeout_aicb) = None) s).
  { clear s HJ Hp. intros s Ht Hin. apply runs_bind, runs_get. unfold inside in Hin.
    eapply runs_mono; [apply (do_linux_aio_ok own)|].
    - intros b E. rw E in Hin. apply Hin.
    - destruct (ai_iobuf s); [apply Hin|]. by rw union_empty_l_L.
    - intros rv s1 (Hi & H0 & H1). cbn in H1. unfold between, inside. rw Hi. destruct (rv =? SANLK_AIO_TIMEOUT) eqn:E; zbool.
      + destruct H1 as (Hw & slot & Hc & Ht1). subst rv. cbn [nz Z.eqb negb]. destruct (ai_iobuf s) as [b|]; [|done].
        right. split; [done|]. split; [done|]. by exists slot.
      + destruct H1 as [Hw Ht1]. rw Ht in Ht1. destruct (ai_iobuf s) as [b|] eqn:Eb; cbn [bufset] in Hw.
        * destruct (nz rv); [left|]; (split; [|by split || done]); [apply Hin|]. by split; [apply Hin|].
        * rw union_empty_l_L in Hw. destruct (nz rv) eqn:En; [done|]. unfold nz in En. zbool. subst rv.
          by destruct (H0 eq_refl). }
  assert (Halloc : forall s, s.(ai_timeout_aicb) = None -> s.(ai_iobuf) = None -> wf own s ->
    runs (r ← memalign; modify (fun s => s <| ai_iobuf := snd r |>)) (fun _ s' => s'.(ai_timeout_aicb) = None /\ inside own s') s).
  { clear s HJ Hp Hend. intros s Ht Hi Hw. apply runs_bind. eapply runs_mono; [by apply (memalign_ok own)|].
    intros [rv b] s1 [[_ Ht1] H1]. cbn [fst snd] in *. apply runs_modify. split; [by rw /= Ht1|]. unfold inside. cbn.
    destruct (nz rv); [destruct H1 as [-> H1]|destruct H1 as (x & -> & Hx & H1); split; [done|]];
      (apply (wf_ext _ s1); [done..|apply (wf_good _ _ H1)|done]). }
  apply runs_bind, runs_get, runs_bind. unfold between in HJ. destruct (ai_timeout_aicb s) as [i|] eqn:Ht.
  - assert (Hi : ai_iobuf s = None).
    { destruct (ai_iobuf s) as [b|]; [|done]. destruct HJ as [(_ & _ & [=])|(H & _)]. by specialize (Hp H). }
    rw Hi in HJ. apply runs_modify, runs_bind, runs_get. cbn [ai_iobuf set_field aio_settable]. apply runs_bind.
    eapply runs_mono; [apply Halloc; [done|done|]|].
    + apply (wf_ext _ s); [done..|apply (wf_good _ _ HJ)|done].
    + intros [] s1 [H1 H2]. by apply Hend.
  - apply runs_ret, runs_bind, runs_get, runs_bind. destruct (ai_iobuf s) as [b|] eqn:Hi.
    + apply runs_ret, Hend; [done|]. unfold inside. rw Hi. by destruct HJ as [(H1 & H2 & _)|(_ & _ & j & [=] & _)].
    + eapply runs_mono; [by apply Halloc|]. intros [] s1 [H1 H2]. by apply Hend.
Qed.

Lemma renew_write_ok own check s :
  inside own s -> is_Some s.(ai_iobuf) -> s.(ai_timeout_aicb) = None ->
  runs (iobuf_write fd offset id_offset sector_size write_timeout check) (fun rv s' => between own rv s') s.
Proof.
  intros Hin [b Hb] Ht. apply runs_bind, runs_get. rw Hb. unfold inside in Hin. rw Hb in Hin. destruct Hin as [Hbo Hw].
  destruct check as [rv|].
  - apply runs_ret. unfold between. rw Hb. by left.
  - apply runs_bind. eapply runs_mono; [by apply (with_iobuf_ok ({[b]} ∪ own))|]. intros rv s1 (Hw1 & Hi1 & Ht1).
    apply runs_ret. unfold between. rw Hi1 Hb. left. split; [done|]. split; [done|]. by rw Ht1.
Qed.

Lemma renew_io_ok own prev check s :
  between own prev s ->
  runs (renew_io fd offset iobuf_len id_offset sector_size io_timeout write_timeout prev check)
    (fun rv s' => exists own', own ⊆ own' /\ between own' rv s') s.
Proof.
  intros HJ. apply runs_bind. eapply runs_mono; [by apply renew_reap_ok|]. intros [] s1 (own1 & Ho & H1); apply runs_bind.
  - apply runs_ret. cbn [nz Z.eqb negb]. destruct H1 as (H1 & H2 & H3). eapply runs_mono; [by apply renew_write_ok|]. intros rv' s' H'. by exists own1.
  - destruct H1 as [H1 H2]. eapply runs_mono; [by eapply renew_read_ok|]. intros rv s2 H3. cbv beta in H3. destruct (nz rv).
    + apply runs_ret. by exists own1.
    + destruct H3 as (H3 & H4 & H5). eapply runs_mono; [by apply renew_write_ok|]. intros rv' s' H'. by exists own1.
Qed.

Lemma start_io_ok own reqs s :
  s.(ai_iobuf) = None -> wf own s ->
  runs (start_io fd io_timeout reqs) (fun _ s' => s'.(ai_iobuf) = None /\ wf own s') s.
Proof.
  revert s. induction reqs as [|[[off n] cmd] reqs IH]; intros s Hi Hw; [by apply runs_ret|].
  apply runs_bind. eapply runs_mono; [by apply with_iobuf_ok|]. intros rv s1 (Hw1 & Hi1 & _).
  rw Hi in Hi1. destruct (rv <? 0); [by apply runs_ret|by apply IH].
Qed.

Lemma renewals_ok own prev checks s :
  between own prev s ->
  runs (renewals fd offset iobuf_len id_offset sector_size io_timeout write_timeout prev checks)
    (fun rv s' => exists own', own ⊆ own' /\ between own' rv s') s.
Proof.
  revert own prev s. induction checks as [|c cs IH]; intros own prev s HJ; [by apply runs_ret; exists own|].
  apply runs_bind. eapply runs_mono; [by apply renew_io_ok|]. intros rv s1 (own1 & Ho & H1).
  eapply runs_mono; [by apply IH|]. intros rv2 s2 (own2 & Ho2 & H2). exists own2. split; [set_solver|done].
Qed.

(** After the start no buffer is kept; the renewals are skipped when it failed. *)
Lemma started_ok result checks own s :
  s.(ai_iobuf) = None -> wf own s ->
  runs (if result <? 0 then mret result
        else renewals fd offset iobuf_len id_offset sector_size io_timeout write_timeout result checks)
    (fun rv s' => exists own', between own' rv s') s.
Proof.
  intros Hi Hw. assert (HJ : forall rv, between own rv s) by (intros rv; unfold between; by rw Hi).
  destruct (result <? 0); [by apply runs_ret; exists own|].
  eapply runs_mono; [by apply renewals_ok|]. intros rv s' (own' & _ & H). by exists own'.
Qed.
End Renewals.

(** ** The end of a task *)

(** The buffer kept by the task, if any, is allocated, by the task or by a slot. *)
Definition closing (own : gset addr) (s : aio) : Prop :=
  match s.(ai_iobuf) with
  | None => wf own s
  | Some b => ((b ∉ own) /\ wf ({[b]} ∪ own) s) \/ (wf own s /\ exists i, held s i b)
  end.

Lemma closing_collect own s obj cb :
  closing own s -> s.(ai_callbacks) !! obj = Some cb -> cb.(cb_used) = true ->
  runs (collect obj) (fun _ s' => closing own s' /\ s'.(ai_answers) = s.(ai_answers))
    ((if bool_decide (cb.(cb_buf) = s.(ai_iobuf)) then s <| ai_iobuf := None |> else s)
       <| ai_flight := delete obj s.(ai_flight) |>).
Proof.
  intros HK Hc Hu. unfold closing in HK.
  assert (Hcol : forall own' s1, wf own' s1 -> s1.(ai_callbacks) = s.(ai_callbacks) -> s1.(ai_flight) = s.(ai_flight) ->
    (forall s', wf own' s' -> s'.(ai_callbacks) = <[obj := Aicb false None cb.(cb_iocb)]> s.(ai_callbacks) ->
       s'.(ai_iobuf) = s1.(ai_iobuf) -> closing own s') -> s1.(ai_answers) = s.(ai_answers) ->
    runs (collect obj) (fun _ s' => closing own s' /\ s'.(ai_answers) = s.(ai_answers)) (s1 <| ai_flight := delete obj s.(ai_flight) |>)).
  { intros own' s1 Hw1 Hc1 Hf1 Hk Ha. rw -Hf1. eapply runs_mono; [eapply (collect_ok own'); [done|by rw Hc1|done]|].
    intros [] s2 (Hw2 & Hcb & [Hi _] & Ha2). split; [|by rw Ha2]. apply Hk; [done|by rw Hcb Hc1|done]. }
  destruct (bool_decide (cb_buf cb = ai_iobuf s)) eqn:E; [apply bool_decide_eq_true in E|apply bool_decide_eq_false in E].
  - apply (Hcol own); [|done|done| |done].
    + assert (Hw : wf own s); [|apply (wf_ext _ s); [done..|exact (wf_good _ _ Hw)|done]].
      destruct (ai_iobuf s) as [b|]; [destruct HK as [[Hb Hw]|[Hw _]]|]; [|done..].
      exfalso. apply (wf_own _ _ Hw obj b); [by exists cb|set_solver].
    + intros s' Hw' _ Hi'. unfold closing. by rw Hi'.
  - destruct (ai_iobuf s) as [b|] eqn:Hi; [destruct HK as [[Hb Hw]|[Hw [i Hh]]]|].
    + apply (Hcol ({[b]} ∪ own)); [done..| |done]. intros s' Hw' _ Hi'. unfold closing. rw Hi' Hi. by left.
    + apply (Hcol own); [done..| |done]. intros s' Hw' Hcb Hi'. unfold closing. rw Hi' Hi. right. split; [done|].
      exists i. destruct Hh as (cb2 & H2 & H3 & H4). exists cb2. split; [|done]. rw Hcb list_lookup_insert_ne; [|done].
      intros ->. rw Hc in H2. injection H2 as <-. congruence.
    + apply (Hcol own); [done..| |done]. intros s' Hw' _ Hi'. unfold closing. by rw Hi' Hi.
Qed.

Lemma closing_answers own s l : Forall good_answer l -> closing own s -> closing own (s <| ai_answers := l |>).
Proof.
  intros Hl H. unfold closing in *. cbn. destruct (ai_iobuf s) as [b|]; [|by apply wf_answers].
  destruct H as [[H1 H2]|[H1 H2]]; [left|right]; (split; [|done || by apply wf_answers]); [done|by apply wf_answers].
Qed.

(** The waits of the loop, seen from any of the ways the buffer can be owned. *)
Lemma closing_wf own s : closing own s -> exists own', wf own' s.
Proof. unfold closing. destruct (ai_iobuf s) as [b|]; [intros [[_ H]|[H _]]|intros H]; by eexists. Qed.

Lemma close_loop_ok own l s :
  Forall good_answer l -> closing own s -> exists s', close_loop l s = Some s' /\ closing own s'.
Proof.
  intros Hl. revert s. induction Hl as [|a l Ha Hl IH]; intros s HK; cbn [close_loop].
  { by destruct (negb _); exists s. }
  destruct (negb _); [by exists s|]. set (s0 := s <| ai_answers := l |>).
  assert (HK0 : closing own s0) by (by apply closing_answers). destruct (closing_wf _ _ HK0) as [own' Hw'].
  pose proof (getevent_ok own' s0 a Ha Hw') as Hg. destruct (getevent a s0) as [[rv| |obj res] s1].
  - destruct Hg as [-> ->]. by apply (IH s0).
  - subst s1. by apply (IH s0).
  - destruct Hg as (cb & Hc & Hu & -> & _).
    change (ai_callbacks (s0 <| ai_flight := delete obj s0.(ai_flight) |>)) with (ai_callbacks s0). rw Hc.
    pose proof (closing_collect own s0 obj cb HK0 Hc Hu) as H. unfold runs in H.
    change (ai_iobuf (s0 <| ai_flight := delete obj s0.(ai_flight) |>)) with (ai_iobuf s0).
    destruct (bool_decide (cb_buf cb = ai_iobuf s0)).
    + change (s0 <| ai_flight := delete obj s0.(ai_flight) |> <| ai_iobuf := None |>)
        with (s0 <| ai_iobuf := None |> <| ai_flight := delete obj s0.(ai_flight) |>).
      destruct (collect obj (s0 <| ai_iobuf := None |> <| ai_flight := delete obj s0.(ai_flight) |>)) as [[[] s2]|]; [|done].
      by apply IH, H.
    + destruct (collect obj (s0 <| ai_flight := delete obj s0.(ai_flight) |>)) as [[[] s2]|]; [|done]. by apply IH, H.
Qed.

Lemma close_task_aio_ok own s :
  Forall good_answer s.(ai_answers) -> closing own s ->
  runs close_task_aio (fun _ s' => s'.(ai_flight) = ∅ /\ s'.(ai_callbacks) = [] /\
    forall b, b ∈ own -> b ∈ s'.(ai_heap)) s.
Proof.
  intros Hg HK. unfold runs, close_task_aio. destruct (close_loop_ok own _ s Hg HK) as (s1 & -> & H1).
  change (runs (modify (fun s => s <| ai_flight := ∅ |>);; free s1.(ai_iobuf);; modify (fun s => s <| ai_callbacks := [] |>))
    (fun _ s' => s'.(ai_flight) = ∅ /\ s'.(ai_callbacks) = [] /\ forall b, b ∈ own -> b ∈ s'.(ai_heap)) s1).
  apply runs_bind, runs_modify, runs_bind. unfold closing in H1. unfold runs at 1, free.
  destruct (ai_iobuf s1) as [b|].
  - assert (Hb : b ∈ ai_heap s1 /\ b ∉ own).
    { destruct H1 as [[H1 Hw]|[Hw [i Hi]]]; (split; [|done || by eapply (wf_own _ _ Hw)]).
      - eapply wf_in_heap, Hw. set_solver.
      - apply (wf_heap _ _ Hw). right. by exists i. }
    cbn [ai_heap set_field aio_settable]. rw bool_decide_true; [apply Hb|].
    assert (in_flight b (s1 <| ai_flight := ∅ |>) = false) as -> by (unfold in_flight; cbn; by rw map_to_list_empty).
    split; [done|]. split; [done|].
    intros x Hx. cbn. apply elem_of_difference. split; [|set_solver].
    destruct H1 as [[_ Hw]|[Hw _]]; (eapply wf_in_heap, Hw; set_solver).
  - split; [done|]. split; [done|]. intros x Hx. exact (wf_in_heap own s1 x Hx H1).
Qed.

(** A task as [setup_task_aio] leaves it, with what the kernel is going to answer. *)
Definition task_start (cb_size : nat) (answers : list kanswer) : aio :=
  Aio 0 0 None None (replicate cb_size aicb_zero) ∅ ∅ answers.

Lemma task_start_wf n l : Forall good_answer l -> wf ∅ (task_start n l).
Proof.
  intros Hl. assert (Hn : forall i b, ~ held (task_start n l) i b).
  { intros i b (cb & Hi & Hu & _). apply lookup_replicate in Hi as [-> _]. done. }
  constructor; [| | | |done].
  - intros i. cbn. rw lookup_empty. intros cb Hi. by apply lookup_replicate in Hi as [-> _].
  - intros b. cbn. split; [set_solver|]. intros [?|[i Hi]]; [set_solver|by apply Hn in Hi].
  - intros i b Hi. by apply Hn in Hi.
  - intros i j b Hi. by apply Hn in Hi.
Qed.

(** ** Theorems *)

(** A request, whatever the kernel answers and whichever old requests it answers meanwhile, frees no memory twice and
    none that the kernel has; it gives back the buffer it was given, or returns the code for a timeout, and then a slot
    has the buffer until the kernel answers: nothing is lost and nothing is owned twice. *)
Theorem aio_request_ownership own fd offset b len ioto cmd s :
  b ∉ own -> wf ({[b]} ∪ own) s ->
  runs (do_linux_aio fd offset (Some b) len ioto cmd)
    (fun rv s' => if rv =? SANLK_AIO_TIMEOUT then wf own s' /\ exists i, held s' i b else wf ({[b]} ∪ own) s') s.
Proof.
  intros Hb Hw. eapply runs_mono; [apply (do_linux_aio_ok own fd offset (Some b)); [by intros ? [= <-]|done]|].
  intros rv s' (_ & _ & H). cbn in H. destruct (rv =? SANLK_AIO_TIMEOUT); [|apply H].
  destruct H as (H & i & Hi & _). split; [done|]. exists i. by eexists.
Qed.

(** Sector i/o loses no memory and frees none twice: the buffer it allocates is freed when the request is over, by it
    or, after a timeout, by the operation that gets the answer of the kernel. *)
Theorem sector_io_balanced own fd offset len ioto cmd s :
  wf own s -> runs (with_iobuf fd offset len ioto cmd) (fun _ s' => wf own s') s.
Proof. intros Hw. eapply runs_mono; [by apply with_iobuf_ok|]. by intros rv s' [H _]. Qed.

(** C22: The asynchronous i/o of a lockspace thread uses its buffers safely.
    From a new task on, for any number of slots, any sector i/o of the start (up
    to its first error), any number of renewals with any results of their checks
    (each is given the result of the one before), the release and the end of the
    task, and whatever reads and writes time out, are cancelled, answered late
    or out of order, and whichever allocations fail: no buffer is freed twice or
    while the kernel still has a request for it, no slot out of bounds and no
    missing buffer is accessed, and in the end the kernel has no request and the
    slots are given up. Assumed of the kernel: [io_getevents] fails only with
    EINTR, neither it nor [io_submit] returns the code that sanlock uses for a
    timeout, and [io_destroy] waits for the requests that are left. *)
Theorem lockspace_io_safe fd offset len id_offset sector_size ioto write_timeout reqs acquired checks n answers :
  Forall good_answer answers ->
  runs (lockspace_io fd offset len id_offset sector_size ioto write_timeout reqs acquired checks)
    (fun _ s' => s'.(ai_flight) = ∅ /\ s'.(ai_callbacks) = []) (task_start n answers).
Proof.
  intros Hl. apply runs_bind. eapply runs_mono; [apply (start_io_ok fd ioto ∅); [done|by apply task_start_wf]|].
  intros err s0 [Hi0 Hw0]. cbn zeta. set (result := if err <? 0 then err else acquired). apply runs_bind.
  eapply runs_mono; [by apply (started_ok fd offset len id_offset sector_size ioto write_timeout result checks ∅)|].
  intros rv s1 (own & H1). apply runs_bind.
  assert (Hend : forall own' s2, closing own' s2 ->
    runs close_task_aio (fun _ s' => s'.(ai_flight) = ∅ /\ s'.(ai_callbacks) = []) s2).
  { intros own' s2 H2. destruct (closing_wf _ _ H2) as [own'' Hw]. eapply runs_mono; [apply (close_task_aio_ok own'); [apply (wf_good _ _ Hw)|done]|].
    by intros a s' (H3 & H4 & _). }
  unfold between in H1. destruct (rv =? SANLK_OK) eqn:E; zbool.
  - subst rv. apply runs_bind. destruct (ai_iobuf s1) as [b|] eqn:Hi.
    + destruct H1 as [(Hb & Hw & _)|([=] & _)]. eapply runs_mono; [by apply (with_iobuf_ok ({[b]} ∪ own))|].
      intros a s2 (Hw2 & Hi2 & _). apply runs_ret, (Hend own). unfold closing. rw Hi2 Hi. by left.
    + eapply runs_mono; [by apply (with_iobuf_ok own)|]. intros a s2 (Hw2 & Hi2 & _). apply runs_ret, (Hend own).
      unfold closing. by rw Hi2 Hi.
  - apply runs_ret, (Hend own). unfold closing. destruct (ai_iobuf s1) as [b|]; [|done].
    destruct H1 as [(Hb & Hw & _)|(_ & Hw & i & _ & Hc)]; [by left|right]. split; [done|]. exists i. by eexists.
Qed.

(** After the write of a renewal has timed out, the next renewal takes the timeout for one of its read, finds no slot for it, and drops the
    buffer of the renewals, which no slot has: it stays allocated and nobody can free it. *)
Theorem write_timeout_loses_buffer own b fd offset len s :
  b ∉ own -> wf ({[b]} ∪ own) s -> s.(ai_iobuf) = Some b -> s.(ai_timeout_aicb) = None ->
  runs (iobuf_reap fd offset len SANLK_AIO_TIMEOUT)
    (fun read_done s' => read_done = false /\ s'.(ai_iobuf) = None /\ b ∈ s'.(ai_heap) /\ forall i, ~ held s' i b) s.
Proof.
  intros Hb Hw Hi Ht. unfold iobuf_reap. rw Z.eqb_refl. apply runs_bind, runs_get, runs_bind, runs_get. rw Ht.
  apply runs_bind, runs_modify, runs_ret. split; [done|]. split; [done|].
  split; [apply (wf_in_heap ({[b]} ∪ own) s b); [set_solver|done]|]. intros i Hh. apply (wf_own _ _ Hw i b Hh). set_solver.
Qed.

(** A read of the value block that times out, and the late answer during other i/o. *)
Definition late_lvb : list kanswer :=
  [AAlloc 0; ASubmit 1; AEvents 0 0 0; ACancel (- EINVAL); AAlloc 0; ASubmit 1; AEvents 1 0 512; AEvents 1 1 512].

(** A value block whose read has timed out belongs to the kernel, then to the slot; but the resource keeps it: after the late answer of
    the kernel the resource has freed memory, which it frees again at its end. When it ends before that answer, it frees memory that the kernel
    writes to. *)
Theorem lvb_timeout_unsafe :
  Forall good_answer late_lvb /\
  (r ← memalign;
   lvb_io 3 0 (snd r) 512 10 IO_CMD_PREAD;;
   with_iobuf 3 4096 512 10 IO_CMD_PWRITE;;
   free (snd r)) (task_start 2 late_lvb) = None /\
  (r ← memalign; lvb_io 3 0 (snd r) 512 10 IO_CMD_PREAD;; free (snd r)) (task_start 2 late_lvb) = None.
Proof.
  split; [|by vm_compute]. repeat constructor; cbn; lia || done.
Qed.

(** A failure of [io_getevents] other than an interruption makes sector i/o free a buffer that the kernel has. *)
Lemma getevents_error_unsafe :
  with_iobuf 3 0 512 10 IO_CMD_PREAD (task_start 1 [AAlloc 0; ASubmit 1; AEvents (- EINVAL) 0 0]) = None.
Proof. by vm_compute. Qed.

(** ** Synchronous i/o *)

(** What [read] and [write] document: not more than was asked for, and as many bytes as they say. *)
Fixpoint reads_ok (room : Z) (reads : list (Z * list Z)) : Prop :=
  match reads with
  | [] => True
  | (rv, bytes) :: reads =>
      rv <= room /\ (0 < rv -> Z.of_nat (length bytes) = rv) /\ reads_ok (if 0 <? rv then room - rv else room) reads
  end.

Lemma read_loop_full len buf reads rv out :
  Z.of_nat (length buf) <= len -> reads_ok (len - Z.of_nat (length buf)) reads -> read_loop len buf reads = (rv, out) ->
  (rv = 0 \/ rv = -1) /\ (rv = 0 -> Z.of_nat (length out) = len).
Proof.
  revert buf. induction reads as [|[r bs] reads IH]; intros buf Hb Hok; cbn [read_loop];
    destruct (len <=? Z.of_nat (length buf)) eqn:E; zbool; try (by intros [= <- <-]; split; [auto|intros; lia]).
  destruct Hok as (H1 & H2 & H3). destruct (r =? 0) eqn:E0; zbool; [by intros [= <- <-]; split; [auto|intros; lia]|].
  destruct (r =? - EINTR) eqn:E1; zbool; [|destruct (r <? 0) eqn:E2; zbool; [by intros [= <- <-]; split; [auto|intros; lia]|]].
  - subst r. apply IH; [done|exact H3].
  - apply IH; rw length_app Nat2Z.inj_add; [specialize (H2 ltac:(lia)); lia|].
    rw (proj2 (Z.ltb_lt 0 r)) in H3; [lia|]. rw H2; [lia|].
    replace (len - (Z.of_nat (length buf) + r)) with (len - Z.of_nat (length buf) - r) by lia. done.
Qed.

(** A synchronous write that returns 0 has written the data, in order. *)
Lemma write_loop_full data writes out : write_loop data writes = Some (0, out) -> out = data.
Proof.
  revert data out. induction writes as [|rv ws IH]; intros data out; cbn [write_loop]; [done|].
  destruct (rv =? - EINTR); [apply IH|]. destruct (rv <? 0); [done|].
  destruct (negb (rv =? Z.of_nat (length data))); [|by intros [= <-]].
  destruct (write_loop (drop (Z.to_nat rv) data) ws) as [[e d]|] eqn:Hr; [|done]. intros [= -> <-].
  by rw (IH _ _ Hr) take_drop.
Qed.

(** ** Witnesses *)

Lemma demo_wf n l : Forall good_answer l -> wf ({[7]} ∪ ∅) ((task_start n l) <| ai_heap := {[7]} |>).
Proof.
  intros Hl. pose proof (task_start_wf n l Hl) as Hw.
  constructor; [apply (wf_flight _ _ Hw)| | |apply (wf_distinct _ _ Hw)|done].
  - intros b. cbn. split; [set_solver|]. intros [?|[i (cb & Hi & Hu & _)]]; [set_solver|].
    by apply lookup_replicate in Hi as [-> _].
  - intros i b (cb & Hi & Hu & _). by apply lookup_replicate in Hi as [-> _].
Qed.

Definition demo_answers : list kanswer := [ASubmit 1; AEvents (- EINTR) 0 0; AEvents 0 0 0; ACancel (- EINVAL)].

Lemma demo_good : Forall good_answer demo_answers.
Proof. repeat constructor; cbn; lia || done. Qed.

Lemma aio_request_ownership_witness :
  runs (do_linux_aio 3 0 (Some 7) 512 10 IO_CMD_PREAD)
    (fun rv s' => if rv =? SANLK_AIO_TIMEOUT then wf ∅ s' /\ exists i, held s' i 7 else wf ({[7]} ∪ ∅) s')
    ((task_start 2 demo_answers) <| ai_heap := {[7]} |>).
Proof. apply (aio_request_ownership ∅ 3 0 7); [set_solver|apply demo_wf, demo_good]. Defined.

Lemma sector_io_balanced_witness :
  runs (with_iobuf 3 0 512 10 IO_CMD_PWRITE) (fun _ s' => wf ∅ s') (task_start 2 (AAlloc 0 :: demo_answers)).
Proof. apply sector_io_balanced, task_start_wf. constructor; [done|apply demo_good]. Defined.

Lemma lockspace_io_safe_witness :
  runs (lockspace_io 3 0 1048576 0 512 10 80 [(0, 512, IO_CMD_PREAD); (0, 512, IO_CMD_PWRITE)] SANLK_OK [None; None; None])
    (fun _ s' => s'.(ai_flight) = ∅ /\ s'.(ai_callbacks) = []) (task_start 4 (AAlloc 0 :: demo_answers)).
Proof. apply lockspace_io_safe. constructor; [done|apply demo_good]. Defined.

Lemma write_timeout_loses_buffer_witness :
  runs (iobuf_reap 3 0 512 SANLK_AIO_TIMEOUT)
    (fun read_done s' => read_done = false /\ s'.(ai_iobuf) = None /\ 7 ∈ s'.(ai_heap) /\ forall i, ~ held s' i 7)
    ((task_start 2 []) <| ai_heap := {[7]} |> <| ai_iobuf := Some 7 |>).
Proof.
  apply (write_timeout_loses_buffer ∅ 7); [set_solver| |done|done].
  apply (wf_ext _ ((task_start 2 []) <| ai_heap := {[7]} |>)); [done..|]. by apply demo_wf.
Defined.
