(* ===== verification/Client.v ===== *)
(** * The client library ([src/src/client.c])

    The functions that send a request to the daemon over its socket and receive the
    answer, as programs over the socket calls of [Io]. Structures go over the socket as their
    bytes: a pointer argument is the bytes of what it points to ([None] for NULL), with the
    layout of a 64 bit little endian machine. A result is the return value and, when the
    call succeeds, what was received; output structures of a call that fails are not part of
    the result. [rv = -errno] after a failed [send_data] or [recv_data] is the code of that
    call. *)

From S2P Require Import Prelude OnDisk Io.

(** ** Constants *)

Definition SM_MAGIC : Z := 0x04282010.
Definition SM_PROTO : Z := 1.
Definition SM_CMD_REGISTER : Z := 1.
Definition SM_CMD_ADD_LOCKSPACE : Z := 2.
Definition SM_CMD_REM_LOCKSPACE : Z := 3.
Definition SM_CMD_ACQUIRE : Z := 7.
Definition SM_CMD_RELEASE : Z := 8.
Definition SM_CMD_INQUIRE : Z := 9.
Definition SM_CMD_RESTRICT : Z := 10.
Definition SM_CMD_REQUEST : Z := 11.
Definition SM_CMD_ALIGN : Z := 12.
Definition SM_CMD_EXAMINE_LOCKSPACE : Z := 13.
Definition SM_CMD_EXAMINE_RESOURCE : Z := 14.
Definition SM_CMD_INQ_LOCKSPACE : Z := 16.
Definition SM_CMD_KILLPATH : Z := 17.
Definition SM_CMD_WRITE_LOCKSPACE : Z := 18.
Definition SM_CMD_WRITE_RESOURCE : Z := 19.
Definition SM_CMD_READ_LOCKSPACE : Z := 20.
Definition SM_CMD_READ_RESOURCE : Z := 21.
Definition SM_CMD_GET_LOCKSPACES : Z := 22.
Definition SM_CMD_GET_HOSTS : Z := 23.
Definition SM_CMD_READ_RESOURCE_OWNERS : Z := 24.
Definition SM_CMD_SET_LVB : Z := 25.
Definition SM_CMD_GET_LVB : Z := 26.
Definition SM_CMD_CONVERT : Z := 27.
Definition SM_CMD_VERSION : Z := 28.
Definition SM_CMD_REG_EVENT : Z := 30.
Definition SM_CMD_END_EVENT : Z := 31.
Definition SM_CMD_SET_EVENT : Z := 32.
Definition SM_CMD_SET_CONFIG : Z := 33.
Definition SM_CMD_FORMAT_RINDEX : Z := 35.
Definition SM_CMD_UPDATE_RINDEX : Z := 36.
Definition SM_CMD_LOOKUP_RINDEX : Z := 37.
Definition SM_CMD_CREATE_RESOURCE : Z := 38.
Definition SM_CMD_DELETE_RESOURCE : Z := 39.
Definition SM_CMD_REBUILD_RINDEX : Z := 40.

Definition ENOSPC : Z := 28.
Definition EALREADY : Z := 114.
Definition EFAULT : Z := 14.
Definition SANLK_MAX_RESOURCES : Z := 8.
Definition SANLK_MAX_DISKS : Z := 4.
Definition SANLK_HELPER_PATH_LEN : nat := 128.
Definition SANLK_HELPER_ARGS_LEN : nat := 128.
Definition SANLK_HOST_MASK : Z := 0xF.
Definition SANLK_TRF_FAIL : Z := 1.

(** Sizes of the structures. *)
Definition sizeof_header : Z := 32.
Definition sizeof_lockspace : Z := 1104.
Definition sizeof_resource : Z := 128.
Definition sizeof_disk : Z := 1040.
Definition sizeof_options : Z := 56.
Definition sizeof_host : Z := 32.
Definition sizeof_host_event : Z := 32.
Definition sizeof_rindex : Z := 1104.
Definition sizeof_rentry : Z := 64.
Definition sizeof_event_cb : Z := 80.

(** ** The socket *)

Definition sock (c : sock_call) : prog (Z * list Z) := call (CSock c).
Definition close (fd : Z) : prog unit := sock (SClose fd);; Ret tt.

(** The code and [*sock_fd]. *)
Definition connect_socket : prog (Z * Z) :=
  s ← sock SSocket;
  if fst s <? 0 then Ret (fst s, -1)
  else
    a ← sock SAddress;
    if fst a <? 0 then close (fst s);; Ret (fst a, -1)
    else
      c ← sock (SConnect (fst s));
      if fst c <? 0 then close (fst s);; Ret (fst c, -1)
      else Ret (0, fst s).

(** The loop around [send], which sends what is left of [data]. A [send] that takes nothing
    would be repeated for ever. *)
Fixpoint send_loop (n : nat) (fd : Z) (data : list Z) : prog Z :=
  match n with
  | O => Ub
  | S n =>
      r ← sock (SSend fd data);
      if fst r <? 0 then Ret (fst r)
      else if fst r <? Z.of_nat (length data) then send_loop n fd (drop (Z.to_nat (fst r)) data)
      else Ret 0
  end.

Definition send_data (fd : Z) (data : list Z) : prog Z := send_loop (S (length data)) fd data.

(** [struct sm_header]. *)
Definition sm_header (cmd cmd_flags datalen data data2 : Z) : list Z :=
  le_split 4 SM_MAGIC ++ le_split 4 SM_PROTO ++ le_split 4 (u32 cmd) ++ le_split 4 (u32 cmd_flags) ++
  le_split 4 (u32 (sizeof_header + datalen)) ++ le_split 4 0 ++ le_split 4 (u32 data) ++ le_split 4 (u32 data2).

Definition h_version (h : list Z) : Z := fld 4 4 h.
Definition h_length (h : list Z) : Z := fld 16 4 h.
Definition h_data (h : list Z) : Z := i32 (fld 24 4 h).
Definition h_data2 (h : list Z) : Z := fld 28 4 h.

Definition send_header (fd cmd cmd_flags datalen data data2 : Z) : prog Z :=
  send_data fd (sm_header cmd cmd_flags datalen data data2).

Definition recv_data (fd len : Z) : prog (Z * list Z) := sock (SRecv fd len false).

(** A structure of [len] bytes: an error, or its bytes. *)
Definition recv_struct (fd len : Z) : prog (Z + list Z) :=
  r ← recv_data fd len;
  Ret (if fst r <? 0 then inl (fst r) else if negb (fst r =? len) then inl (-1) else inr (snd r)).

Definition recv_result (fd : Z) : prog Z :=
  r ← recv_struct fd sizeof_header;
  Ret (match r with inl rv => rv | inr h => h_data h end).

(** A step that goes to the label [out] when it fails. *)
Definition or_out {A} (p : prog Z) (out : Z -> A) (k : prog A) : prog A :=
  rv ← p;
  if rv <? 0 then Ret (out rv) else k.

(** A connection for one request. *)
Definition with_conn {A} (out : Z -> A) (body : Z -> prog A) : prog A :=
  c ← connect_socket;
  if fst c <? 0 then Ret (out (fst c))
  else r ← body (snd c); close (snd c);; Ret r.

Definition id_out (rv : Z) : Z := rv.
Definition no_out {A} (rv : Z) : Z * option A := (rv, None).

(** The connection stays open. *)
Definition send_command (cmd data : Z) : prog Z :=
  c ← connect_socket;
  if fst c <? 0 then Ret (fst c)
  else
    rv ← send_header (snd c) cmd 0 0 data 0;
    if rv <? 0 then close (snd c);; Ret rv else Ret (snd c).

(** ** Lockspaces *)

Definition cmd_lockspace (cmd : Z) (ls : list Z) (flags data : Z) : prog Z :=
  with_conn id_out (fun fd =>
    or_out (send_header fd cmd flags sizeof_lockspace data 0) id_out
    (or_out (send_data fd ls) id_out (recv_result fd))).

Definition sanlock_add_lockspace (ls : list Z) (flags : Z) : prog Z := cmd_lockspace SM_CMD_ADD_LOCKSPACE ls flags 0.
Definition sanlock_add_lockspace_timeout (ls : list Z) (flags io_timeout : Z) : prog Z :=
  cmd_lockspace SM_CMD_ADD_LOCKSPACE ls flags io_timeout.
Definition sanlock_inq_lockspace (ls : list Z) (flags : Z) : prog Z := cmd_lockspace SM_CMD_INQ_LOCKSPACE ls flags 0.
Definition sanlock_rem_lockspace (ls : list Z) (flags : Z) : prog Z := cmd_lockspace SM_CMD_REM_LOCKSPACE ls flags 0.

(** The loop that receives [n] structures: the code of a failure, or all of them. *)
Fixpoint recv_structs (fd size : Z) (n : nat) : prog (Z + list (list Z)) :=
  match n with
  | O => Ret (inr [])
  | S n =>
      r ← recv_struct fd size;
      match r with
      | inl rv => Ret (inl rv)
      | inr s => rs ← recv_structs fd size n; Ret (match rs with inl rv => inl rv | inr l => inr (s :: l) end)
      end
  end.

(** What follows the header in the answers with a list: the code, the count and the structures ([None]
    where they are not assigned). [want]: the pointer for them is not NULL. *)
Definition recv_list (fd size rv : Z) (want : bool) (h : list Z) : prog (Z * option Z * option (list (list Z))) :=
  let count := i32 (h_data2 h) in
  if negb want then Ret (rv, Some count, None)
  else
    ok ← call (CMalloc (u64 (count * size)));
    if negb ok then Ret (rv, Some count, None)
    else
      l ← recv_structs fd size (Z.to_nat count);
      Ret (match l with inl e => (e, Some count, None) | inr l => (rv, Some count, Some l) end).

Definition list_out {A} (rv : Z) : Z * option Z * option A := (rv, None, None).

(** The answer with a list; -ENOSPC comes with the part that fits. *)
Definition recv_list_answer (fd size : Z) (want : bool) : prog (Z * option Z * option (list (list Z))) :=
  r ← recv_struct fd sizeof_header;
  match r with
  | inl rv => Ret (list_out rv)
  | inr h =>
      let rv := h_data h in
      if (rv <? 0) && negb (rv =? - ENOSPC) then Ret (list_out rv) else recv_list fd size rv want h
  end.

Definition sanlock_get_lockspaces (want : bool) (flags : Z) : prog (Z * option Z * option (list (list Z))) :=
  with_conn list_out (fun fd =>
    or_out (send_header fd SM_CMD_GET_LOCKSPACES flags 0 0 0) list_out (recv_list_answer fd sizeof_lockspace want)).

(** A [struct sanlk_lockspace] of zeros but for the name and the host id. *)
Definition lockspace_bytes (name : list Z) (host_id : Z) : list Z :=
  strncpy NAME_ID_SIZE name ++ le_split 8 (u64 host_id) ++ zeros 1048.

Definition sanlock_get_hosts (ls_name : option (list Z)) (host_id : Z) (want : bool) (flags : Z)
    : prog (Z * option Z * option (list (list Z))) :=
  match ls_name with
  | None => Ret (list_out (- EINVAL))
  | Some name =>
      with_conn list_out (fun fd =>
        or_out (send_header fd SM_CMD_GET_HOSTS flags sizeof_lockspace 0 0) list_out
        (or_out (send_data fd (lockspace_bytes name host_id)) list_out (recv_list_answer fd sizeof_host want)))
  end.

Definition sanlock_set_config (ls_name : option (list Z)) (flags cmd : Z) : prog Z :=
  match ls_name with
  | None => Ret (- EINVAL)
  | Some name =>
      with_conn id_out (fun fd =>
        or_out (send_header fd SM_CMD_SET_CONFIG flags sizeof_lockspace cmd 0) id_out
        (or_out (send_data fd (lockspace_bytes name 0)) id_out (recv_result fd)))
  end.

Definition sanlock_align (disk : list Z) : prog Z :=
  with_conn id_out (fun fd =>
    or_out (send_header fd SM_CMD_ALIGN 0 sizeof_disk 0 0) id_out
    (or_out (send_data fd disk) id_out (recv_result fd))).

(** The first character of the path of a lockspace, and of a resource index. *)
Definition ls_path0 (ls : list Z) : Z := nth 64 ls 0.

(** The results are the lockspace and the io timeout. *)
Definition sanlock_read_lockspace (ls : option (list Z)) (flags : Z) : prog (Z * option (list Z * Z)) :=
  match ls with
  | None => Ret (no_out (- EINVAL))
  | Some ls =>
      if ls_path0 ls =? 0 then Ret (no_out (- EINVAL))
      else
        with_conn no_out (fun fd =>
          or_out (send_header fd SM_CMD_READ_LOCKSPACE flags sizeof_lockspace 0 0) no_out
          (or_out (send_data fd ls) no_out
          (r ← recv_struct fd sizeof_header;
           match r with
           | inl rv => Ret (no_out rv)
           | inr h =>
               if h_data h <? 0 then Ret (no_out (h_data h))
               else
                 r ← recv_struct fd sizeof_lockspace;
                 Ret (match r with inl rv => no_out rv | inr ls => (h_data h, Some (ls, h_data2 h)) end)
           end)))
  end.

Definition sanlock_write_lockspace (ls : option (list Z)) (max_hosts flags io_timeout : Z) : prog Z :=
  match ls with
  | None => Ret (- EINVAL)
  | Some ls =>
      if ls_path0 ls =? 0 then Ret (- EINVAL)
      else
        with_conn id_out (fun fd =>
          or_out (send_header fd SM_CMD_WRITE_LOCKSPACE flags sizeof_lockspace max_hosts io_timeout) id_out
          (or_out (send_data fd ls) id_out (recv_result fd)))
  end.

(** ** Resources *)

(** A [struct sanlk_resource]: its bytes, and those of the disks that follow it. *)
Abbreviation res_ptr := (list Z * list Z)%type.

Definition num_disks (res : res_ptr) : Z := fld 124 4 (fst res).
Definition disks_len (res : res_ptr) : Z := sizeof_disk * num_disks res.

(** [res->disks[0].path[0]]. *)
Definition disk_path0 (res : res_ptr) : prog Z := match snd res with [] => Ub | b :: _ => Ret b end.

(** The [num_disks] disks, read from the memory after the structure. *)
Definition disks_bytes (res : res_ptr) : prog (list Z) :=
  if disks_len res <=? Z.of_nat (length (snd res)) then Ret (take (Z.to_nat (disks_len res)) (snd res)) else Ub.

Definition send_disks (fd : Z) (res : res_ptr) : prog Z := d ← disks_bytes res; send_data fd d.

(** The test at the head of the functions that name a resource on disk. *)
Definition check_disks {A} (res : option res_ptr) (out : Z -> A) (k : res_ptr -> prog A) : prog A :=
  match res with
  | None => Ret (out (- EINVAL))
  | Some res =>
      if (num_disks res =? 0) || (SANLK_MAX_DISKS <? num_disks res) then Ret (out (- EINVAL))
      else c ← disk_path0 res; if c =? 0 then Ret (out (- EINVAL)) else k res
  end.

(** The header, the resource and its disks. *)
Definition send_resource {A} (fd cmd flags data data2 : Z) (res : res_ptr) (out : Z -> A) (k : prog A) : prog A :=
  or_out (send_header fd cmd flags (i32 (sizeof_resource + disks_len res)) data data2) out
  (or_out (send_data fd (fst res)) out
  (or_out (send_disks fd res) out k)).

(** The resource is received whatever the result is. *)
Definition sanlock_read_resource (res : option res_ptr) (flags : Z) : prog (Z * option (list Z)) :=
  check_disks res no_out (fun res =>
    with_conn no_out (fun fd =>
      send_resource fd SM_CMD_READ_RESOURCE flags 0 0 res no_out
      (r ← recv_struct fd sizeof_header;
       match r with
       | inl rv => Ret (no_out rv)
       | inr h =>
           r ← recv_struct fd sizeof_resource;
           Ret (match r with inl rv => no_out rv | inr s => (h_data h, Some s) end)
       end))).

Definition sanlock_write_resource (res : option res_ptr) (max_hosts num_hosts flags : Z) : prog Z :=
  check_disks res id_out (fun res =>
    with_conn id_out (fun fd =>
      send_resource fd SM_CMD_WRITE_RESOURCE flags max_hosts num_hosts res id_out (recv_result fd))).

Definition owners_out {A B} (rv : Z) : Z * option A * option Z * option B := (rv, None, None, None).

(** The code, the resource, the number of hosts, and the hosts. *)
Definition sanlock_read_resource_owners (res : option res_ptr) (flags : Z) (want : bool)
    : prog (Z * option (list Z) * option Z * option (list (list Z))) :=
  check_disks res owners_out (fun res =>
    with_conn owners_out (fun fd =>
      send_resource fd SM_CMD_READ_RESOURCE_OWNERS flags 0 0 res owners_out
      (r ← recv_struct fd sizeof_header;
       match r with
       | inl rv => Ret (owners_out rv)
       | inr h =>
           if h_data h <? 0 then Ret (owners_out (h_data h))
           else
             r ← recv_struct fd sizeof_resource;
             match r with
             | inl rv => Ret (owners_out rv)
             | inr s => r ← recv_list fd sizeof_host 0 want h; Ret (fst (fst r), Some s, snd (fst r), snd r)
             end
       end))).

(** [struct sanlk_host]: host id, generation, flags. *)
Record sanlk_host := SanlkHost { sh_host_id : Z; sh_generation : Z; sh_flags : Z }.

Fixpoint find_host (owner : sanlk_host) (hosts : list sanlk_host) : option sanlk_host :=
  match hosts with
  | [] => None
  | h :: hosts => if owner.(sh_host_id) =? h.(sh_host_id) then Some h else find_host owner hosts
  end.

(** One round of the loop over the owners: [None] where the function returns -EINVAL,
    else whether the owner's host fails the test. *)
Definition test_owner (owner : sanlk_host) (hosts : list sanlk_host) : option bool :=
  match find_host owner hosts with
  | None => Some false
  | Some host =>
      if owner.(sh_generation) <? host.(sh_generation) then Some false
      else if host.(sh_generation) <? owner.(sh_generation) then None
      else
        let f := Z.land host.(sh_flags) SANLK_HOST_MASK in
        if (f =? 2) || (f =? 5) then Some false
        else if (f =? 3) || (f =? 4) || (f =? 1) then Some true
        else None
  end.

Fixpoint test_owners (owners hosts : list sanlk_host) (fail : bool) : option bool :=
  match owners with
  | [] => Some fail
  | o :: owners =>
      match test_owner o hosts with
      | None => None
      | Some f => test_owners owners hosts (fail || f)
      end
  end.

(** The code and [*test_flags]. *)
Definition sanlock_test_resource_owners (owners hosts : list sanlk_host) : Z * Z :=
  match test_owners owners hosts false with
  | None => (- EINVAL, 0)
  | Some fail => (0, if fail then Z.lor 0 SANLK_TRF_FAIL else 0)
  end.

(** ** Events *)

Definition no_event : list Z := zeros 32.

(** The result is the registered descriptor, which stays open. *)
Definition sanlock_reg_event (ls_name : option (list Z)) (he : option (list Z)) (flags : Z) : prog Z :=
  match ls_name with
  | None => Ret (- EINVAL)
  | Some name =>
      c ← connect_socket;
      if fst c <? 0 then Ret (fst c)
      else
        let fd := snd c in
        rv ← or_out (send_header fd SM_CMD_REG_EVENT flags (sizeof_lockspace + sizeof_host_event) 0 0) id_out
             (or_out (send_data fd (lockspace_bytes name 0)) id_out
             (or_out (send_data fd (default no_event he)) id_out (recv_result fd)));
        if rv <? 0 then close fd;; Ret rv else Ret fd
  end.

Definition sanlock_end_event (reg_fd : Z) (ls_name : option (list Z)) (flags : Z) : prog Z :=
  match ls_name with
  | None => Ret (- EINVAL)
  | Some name =>
      rv ← send_data reg_fd (le_split 4 1);
      if rv <? 0 then close reg_fd;; Ret (- EALREADY)
      else
        close reg_fd;;
        with_conn id_out (fun fd =>
          or_out (send_header fd SM_CMD_END_EVENT flags sizeof_lockspace 0 0) id_out
          (or_out (send_data fd (lockspace_bytes name 0)) id_out
          (or_out (recv_result fd) id_out (Ret 0))))
  end.

Definition sanlock_set_event (ls_name : option (list Z)) (he : option (list Z)) (flags : Z) : prog Z :=
  match ls_name, he with
  | Some name, Some he =>
      with_conn id_out (fun fd =>
        or_out (send_header fd SM_CMD_SET_EVENT flags (sizeof_lockspace + sizeof_host_event) 0 0) id_out
        (or_out (send_data fd (lockspace_bytes name 0)) id_out
        (or_out (send_data fd he) id_out (recv_result fd))))
  | _, _ => Ret (- EINVAL)
  end.

(** The event, and the host and generation it comes from. *)
Definition sanlock_get_event (reg_fd : Z) : prog (Z * option (list Z * Z * Z)) :=
  r ← sock (SRecv reg_fd sizeof_event_cb true);
  Ret (if fst r <? 0 then no_out (fst r)
       else if negb (fst r =? sizeof_event_cb) then no_out (-1)
       else (0, Some (take 32 (drop 32 (snd r)), fld 64 8 (snd r), fld 72 8 (snd r)))).

(** ** Registered processes *)

Definition sanlock_init (ls : option (list Z)) (res : option res_ptr) (max_hosts num_hosts : Z) : prog Z :=
  match ls with
  | Some _ => sanlock_write_lockspace ls max_hosts 0 0
  | None => sanlock_write_resource res max_hosts num_hosts 0
  end.

(** The result is the connection, which stays open. *)
Definition sanlock_register : prog Z :=
  c ← connect_socket;
  if fst c <? 0 then Ret (fst c)
  else
    rv ← send_header (snd c) SM_CMD_REGISTER 0 0 0 0;
    if rv <? 0 then close (snd c);; Ret rv else Ret (snd c).

Definition sanlock_restrict (sock flags : Z) : prog Z :=
  or_out (send_header sock SM_CMD_RESTRICT flags 0 0 (-1)) id_out (recv_result sock).

(** The code, the protocol and the version. *)
Definition sanlock_version (flags : Z) : prog (Z * option Z * option Z) :=
  with_conn (fun rv => (rv, None, None)) (fun fd =>
    or_out (send_header fd SM_CMD_VERSION flags 0 0 0) (fun rv => (rv, None, None))
    (r ← recv_struct fd sizeof_header;
     Ret (match r with
          | inl rv => (rv, None, None)
          | inr h => if h_data h <? 0 then (h_data h, Some (h_version h), None)
                     else (0, Some (h_version h), Some (h_data2 h))
          end))).

(** [snprintf(buf, n - 1, "%s", s)] into a zeroed buffer of [n] bytes. *)
Definition helper_str (n : nat) (s : list Z) : list Z :=
  let t := take (n - 2) s in t ++ zeros (n - length t).

Definition sanlock_killpath (sock flags : Z) (path args : list Z) : prog Z :=
  or_out (send_header sock SM_CMD_KILLPATH flags (Z.of_nat (SANLK_HELPER_PATH_LEN + SANLK_HELPER_ARGS_LEN)) 0 (-1)) id_out
  (or_out (send_data sock (helper_str SANLK_HELPER_PATH_LEN path)) id_out
  (or_out (send_data sock (helper_str SANLK_HELPER_ARGS_LEN args)) id_out (recv_result sock))).

(** The connection of a request: the registered one, or a new one for another pid. The code, the
    descriptor and [data2]. *)
Definition choose_fd (sock pid : Z) : prog (Z * Z * Z) :=
  if sock =? -1 then c ← connect_socket; Ret (fst c, snd c, pid) else Ret (0, sock, -1).

Definition close_chosen (sock fd : Z) : prog unit := if sock =? -1 then close fd else Ret tt.

(** The length of the resources, or [None] where one has too many disks. *)
Fixpoint acquire_datalen (res_args : list res_ptr) (datalen : Z) : option Z :=
  match res_args with
  | [] => Some datalen
  | res :: res_args =>
      if SANLK_MAX_DISKS <? num_disks res then None
      else acquire_datalen res_args (datalen + sizeof_resource + disks_len res)
  end.

Fixpoint send_acquire (fd : Z) (res_args : list res_ptr) (k : prog Z) : prog Z :=
  match res_args with
  | [] => k
  | res :: res_args =>
      or_out (send_data fd (fst res)) (fun _ => -1)
      (or_out (send_disks fd res) (fun _ => -1) (send_acquire fd res_args k))
  end.

(** An array and its count are a list. A header that cannot be sent leaves the new connection open. *)
Definition sanlock_acquire (sock pid flags : Z) (res_args : list res_ptr) (opt_in : option (list Z)) : prog Z :=
  let res_count := Z.of_nat (length res_args) in
  if SANLK_MAX_RESOURCES <? res_count then Ret (- EINVAL)
  else
    match acquire_datalen res_args 0 with
    | None => Ret (- EINVAL)
    | Some datalen =>
        let datalen := datalen + sizeof_options in
        c ← choose_fd sock pid;
        let '(rv, fd, data2) := c in
        if rv <? 0 then Ret rv
        else
          or_out (send_header fd SM_CMD_ACQUIRE flags datalen res_count data2) id_out
          (rv ← send_acquire fd res_args
                  (or_out (send_data fd (default (zeros 56) opt_in)) (fun _ => -1) (recv_result fd));
           close_chosen sock fd;; Ret rv)
    end.

(** The header and the data that follow it in an answer, as [sanlock_inquire] and
    [sanlock_get_lvb] receive them: the code, and the header with the data if there is any. A
    negative length is a size that [malloc] refuses. *)
Definition recv_reply (fd : Z) : prog (Z * option (list Z * list Z)) :=
  r ← recv_data fd sizeof_header;
  if negb (fst r =? sizeof_header) then Ret (-1, None)
  else
    let h := snd r in
    let len := i32 (h_length h - sizeof_header) in
    if len =? 0 then Ret (h_data h, None)
    else
      ok ← (if len <? 0 then Ret false else call (CMalloc len));
      if negb ok then Ret (- ENOMEM, None)
      else
        r ← recv_data fd len;
        if negb (fst r =? len) then Ret (-1, None) else Ret (h_data h, Some (h, snd r)).

(** The code, the number of resources and their state. As [sanlock_acquire] it can leave the
    connection open. *)
Definition sanlock_inquire (sock pid flags : Z) : prog (Z * Z * option (list Z)) :=
  c ← choose_fd sock pid;
  let '(rv, fd, data2) := c in
  if rv <? 0 then Ret (rv, 0, None)
  else
    or_out (send_header fd SM_CMD_INQUIRE flags 0 0 data2) (fun rv => (rv, 0, None))
    (r ← recv_reply fd;
     close_chosen sock fd;;
     Ret (match snd r with
          | None => (fst r, 0, None)
          | Some (h, data) => (fst r, i32 (h_data2 h), Some data)
          end)).

Definition sanlock_convert (sock pid flags : Z) (res : option (list Z)) : prog Z :=
  match res with
  | None => Ret (- EINVAL)
  | Some res =>
      c ← choose_fd sock pid;
      let '(rv, fd, data2) := c in
      if rv <? 0 then Ret rv
      else
        rv ← or_out (send_header fd SM_CMD_CONVERT flags sizeof_resource 0 data2) id_out
             (or_out (send_data fd res) id_out (recv_result fd));
        close_chosen sock fd;; Ret rv
  end.

Fixpoint send_release (fd : Z) (res_args : list (list Z)) (k : prog Z) : prog Z :=
  match res_args with
  | [] => k
  | res :: res_args => or_out (send_data fd res) (fun _ => -1) (send_release fd res_args k)
  end.

Definition sanlock_release (sock pid flags : Z) (res_args : list (list Z)) : prog Z :=
  let res_count := Z.of_nat (length res_args) in
  c ← choose_fd sock pid;
  let '(rv, fd, data2) := c in
  if rv <? 0 then Ret rv
  else
    rv ← or_out (send_header fd SM_CMD_RELEASE flags (i32 (res_count * sizeof_resource)) res_count data2) id_out
         (send_release fd res_args (recv_result fd));
    close_chosen sock fd;; Ret rv.

Definition sanlock_request (flags force_mode : Z) (res : option res_ptr) : prog Z :=
  match res with
  | None => Ret (- EINVAL)
  | Some res =>
      with_conn id_out (fun fd => send_resource fd SM_CMD_REQUEST flags force_mode 0 res id_out (recv_result fd))
  end.

(** With an [ls] that has no path, [res] is sent even when it is NULL; [send] refuses that with EFAULT. *)
Definition sanlock_examine (flags : Z) (ls res : option (list Z)) : prog Z :=
  match ls, res with
  | None, None => Ret (- EINVAL)
  | _, _ =>
      let by_ls := match ls with Some l => negb (ls_path0 l =? 0) | None => false end in
      with_conn id_out (fun fd =>
        or_out (send_header fd (if by_ls then SM_CMD_EXAMINE_LOCKSPACE else SM_CMD_EXAMINE_RESOURCE) flags
                  (if by_ls then sizeof_lockspace else sizeof_resource) 0 0) id_out
        (match (if by_ls then ls else res) with
         | None => Ret (- EFAULT)
         | Some data => or_out (send_data fd data) id_out (recv_result fd)
         end))
  end.

(** A failed send of the header leaves the connection open. *)
Definition sanlock_set_lvb (flags : Z) (res : option (list Z)) (lvb : option (list Z)) : prog Z :=
  match res, lvb with
  | Some res, Some lvb =>
      let lvblen := Z.of_nat (length lvb) in
      if lvblen =? 0 then Ret (- EINVAL)
      else
        c ← connect_socket;
        if fst c <? 0 then Ret (fst c)
        else
          or_out (send_header (snd c) SM_CMD_SET_LVB flags (i32 (sizeof_resource + lvblen)) 0 0) id_out
          (rv ← or_out (send_data (snd c) res) id_out
                (or_out (send_data (snd c) lvb) (fun _ => -1) (recv_result (snd c)));
           close (snd c);; Ret rv)
  | _, _ => Ret (- EINVAL)
  end.

(** The code, and the buffer afterwards. A failed send of the header leaves the connection open. *)
Definition sanlock_get_lvb (flags : Z) (res : option (list Z)) (lvb : option (list Z)) : prog (Z * option (list Z)) :=
  match res, lvb with
  | Some res, Some lvb =>
      if Z.of_nat (length lvb) =? 0 then Ret (no_out (- EINVAL))
      else
        c ← connect_socket;
        if fst c <? 0 then Ret (no_out (fst c))
        else
          or_out (send_header (snd c) SM_CMD_GET_LVB flags sizeof_resource 0 0) no_out
          (r ← or_out (send_data (snd c) res) (fun _ => (-1, None)) (recv_reply (snd c));
           close (snd c);;
           Ret (match snd r with
                | None => no_out (fst r)
                | Some (_, data) => (fst r, Some (take (length lvb) data ++ drop (length data) lvb))
                end))
  | _, _ => Ret (no_out (- EINVAL))
  end.

(** ** The resource index *)

Definition rx_name0 (rx : list Z) : Z := nth 16 rx 0.
Definition rx_path0 (rx : list Z) : Z := nth 64 rx 0.
Definition rx_named (rx : list Z) : bool := negb (rx_name0 rx =? 0) && negb (rx_path0 rx =? 0).

Definition cmd_rindex (cmd : Z) (rx : option (list Z)) (flags : Z) : prog Z :=
  match rx with
  | None => Ret (- EINVAL)
  | Some rx =>
      if negb (rx_named rx) then Ret (- EINVAL)
      else
        with_conn id_out (fun fd =>
          or_out (send_header fd cmd flags sizeof_rindex 0 0) id_out
          (or_out (send_data fd rx) id_out (recv_result fd)))
  end.

Definition sanlock_format_rindex (rx : option (list Z)) (flags : Z) : prog Z := cmd_rindex SM_CMD_FORMAT_RINDEX rx flags.
Definition sanlock_rebuild_rindex (rx : option (list Z)) (flags : Z) : prog Z := cmd_rindex SM_CMD_REBUILD_RINDEX rx flags.

(** The code and the entry received. *)
Definition cmd_rentry (cmd datalen : Z) (rx re : option (list Z)) (flags data data2 : Z) : prog (Z * option (list Z)) :=
  match rx, re with
  | Some rx, Some re =>
      if negb (rx_named rx) then Ret (no_out (- EINVAL))
      else
        with_conn no_out (fun fd =>
          or_out (send_header fd cmd flags datalen data data2) no_out
          (or_out (send_data fd rx) no_out
          (or_out (send_data fd re) (fun _ => no_out (-1))
          (or_out (recv_result fd) no_out
          (r ← recv_struct fd sizeof_rentry;
           Ret (match r with inl rv => no_out rv | inr re => (0, Some re) end))))))
  | _, _ => Ret (no_out (- EINVAL))
  end.

Definition sanlock_update_rindex (rx : option (list Z)) (flags : Z) (re : option (list Z)) : prog (Z * option (list Z)) :=
  cmd_rentry SM_CMD_UPDATE_RINDEX (sizeof_rindex + sizeof_rentry) rx re flags 0 0.

(** The header announces a resource, what is sent is an entry. *)
Definition sanlock_lookup_rindex (rx : option (list Z)) (flags : Z) (re : option (list Z)) : prog (Z * option (list Z)) :=
  cmd_rentry SM_CMD_LOOKUP_RINDEX (sizeof_rindex + sizeof_resource) rx re flags 0 0.

Definition sanlock_create_resource (rx : option (list Z)) (flags : Z) (re : option (list Z)) (max_hosts num_hosts : Z)
    : prog (Z * option (list Z)) :=
  cmd_rentry SM_CMD_CREATE_RESOURCE (sizeof_rindex + sizeof_rentry) rx re flags max_hosts num_hosts.

(** The entry received is not copied. *)
Definition sanlock_delete_resource (rx : option (list Z)) (flags : Z) (re : option (list Z)) : prog Z :=
  r ← cmd_rentry SM_CMD_DELETE_RESOURCE (sizeof_rindex + sizeof_rentry) rx re flags 0 0; Ret (fst r).

(** ** Texts of the codes *)

(** The cases of the switch, with the values of [sanlock_rv.h]. *)
Definition strerror_cases : list (Z * string) :=
  [(-201, "General error"%string);
   (-202, "IO timeout"%string);
   (-203, "Watchdog device error"%string);
   (-210, "Lease read error in dblock"%string);
   (-211, "Lease write error in dblock"%string);
   (-213, "Lease was acquired by another host in current ballot"%string);
   (-212, "Lease was acquired by another host in new ballot"%string);
   (-214, "Lease checksum error in dblock"%string);
   (-220, "Lease read error in leader"%string);
   (-221, "Lease write error in leader"%string);
   (-222, "Lease read inconsistent"%string);
   (-223, "Lease does not exist on storage"%string);
   (-224, "Lease format version on storage is not recognized"%string);
   (-225, "Lease sector size is inconsistent"%string);
   (-226, "Lease lockspace name is incorrect"%string);
   (-227, "Lease resource name is incorrect"%string);
   (-228, "Lease num_hosts is incorrect"%string);
   (-229, "Lease checksum error in leader"%string);
   (-241, "Lease lockspace is not found"%string);
   (-242, "Lease lockspace disk cannot be opened"%string);
   (-243, "Lease is held by another host"%string);
   (-244, "Lease was acquired by another host in other ballot"%string);
   (-245, "Lease was acquired by another host in local commit"%string);
   (-246, "Lease is held by another host for shared acquire"%string);
   (-247, "Lease is owned by another host"%string);
   (-250, "Lease release version is incorrect"%string);
   (-251, "Lease release owner is incorrect"%string);
   (-260, "Lease renew owner is incorrect"%string);
   (-261, "Lease renew data has changed"%string);
   (-262, "Lease host ID is being used by another host"%string);
   (-270, "Lease request block has invalid data"%string);
   (-271, "Lease request block has invalid version"%string);
   (-272, "Lease request has newer lease version"%string);
   (-273, "Lease request block has newer version"%string)].

Definition sanlock_strerror (rv : Z) : string :=
  match find (fun c => fst c =? rv) strerror_cases with
  | Some c => snd c
  | None => "Unknown error"%string
  end.
