(* ===== verification/ClientRequests.v ===== *)
(** * The requests of the client library

    Every entry point of [Client] that talks to the daemon as one [request], what it has to
    send ([message]), and what holds of it whatever the socket calls answer: how it uses
    descriptors ([fds], the automaton of the descriptors that are open) and which bytes it
    has sent before it waits for an answer. *)

From S2P Require Import Prelude OnDisk Io Client.

(** ** Descriptors and bytes of a history *)

Fixpoint remove_fd (fd : Z) (l : list Z) : list Z :=
  match l with [] => [] | x :: l => if x =? fd then l else x :: remove_fd fd l end.

(** The open descriptors after an event; [None] once a descriptor that is not open is used or closed. *)
Definition fd_step (l : option (list Z)) (e : event) : option (list Z) :=
  match l, e with
  | Some l, EvSock c rv _ =>
      match c with
      | SSocket => Some (if rv <? 0 then l else rv :: l)
      | SAddress => Some l
      | SConnect fd | SSend fd _ | SRecv fd _ _ => if bool_decide (fd ∈ l) then Some l else None
      | SClose fd => if bool_decide (fd ∈ l) then Some (remove_fd fd l) else None
      end
  | _, _ => l
  end.

Definition fds (own : list Z) (h : list event) : option (list Z) := foldl fd_step (Some own) h.

Definition ev_sent (e : event) : list Z :=
  match e with EvSock (SSend _ data) rv _ => take (Z.to_nat rv) data | _ => [] end.
Definition sent (h : list event) : list Z := flat_map ev_sent h.

Definition is_recv (e : event) : bool := match e with EvSock (SRecv _ _ _) _ _ => true | _ => false end.
Definition recvd (h : list event) : bool := existsb is_recv h.

(** ** The requests *)

Inductive request :=
  | QSendCommand (cmd data : Z)
  | QRegister
  | QRegEvent (ls_name he : option (list Z)) (flags : Z)
  | QSetEvent (ls_name he : option (list Z)) (flags : Z)
  | QAddLockspace (ls : list Z) (flags : Z)
  | QAddLockspaceTimeout (ls : list Z) (flags io_timeout : Z)
  | QInqLockspace (ls : list Z) (flags : Z)
  | QRemLockspace (ls : list Z) (flags : Z)
  | QGetLockspaces (want : bool) (flags : Z)
  | QGetHosts (ls_name : option (list Z)) (host_id : Z) (want : bool) (flags : Z)
  | QSetConfig (ls_name : option (list Z)) (flags cmd : Z)
  | QAlign (disk : list Z)
  | QReadLockspace (ls : option (list Z)) (flags : Z)
  | QWriteLockspace (ls : option (list Z)) (max_hosts flags io_timeout : Z)
  | QReadResource (res : option res_ptr) (flags : Z)
  | QWriteResource (res : option res_ptr) (max_hosts num_hosts flags : Z)
  | QReadOwners (res : option res_ptr) (flags : Z) (want : bool)
  | QVersion (flags : Z)
  | QRestrict (sock flags : Z)
  | QKillpath (sock flags : Z) (path args : list Z)
  | QAcquire (sock pid flags : Z) (res_args : list res_ptr) (opt_in : option (list Z))
  | QInquire (sock pid flags : Z)
  | QConvert (sock pid flags : Z) (res : option (list Z))
  | QRelease (sock pid flags : Z) (res_args : list (list Z))
  | QRequest (flags force_mode : Z) (res : option res_ptr)
  | QExamine (flags : Z) (ls res : option (list Z))
  | QSetLvb (flags : Z) (res lvb : option (list Z))
  | QGetLvb (flags : Z) (res lvb : option (list Z))
  | QFormatRindex (rx : option (list Z)) (flags : Z)
  | QRebuildRindex (rx : option (list Z)) (flags : Z)
  | QUpdateRindex (rx : option (list Z)) (flags : Z) (re : option (list Z))
  | QLookupRindex (rx : option (list Z)) (flags : Z) (re : option (list Z))
  | QCreateResource (rx : option (list Z)) (flags : Z) (re : option (list Z)) (max_hosts num_hosts : Z)
  | QDeleteResource (rx : option (list Z)) (flags : Z) (re : option (list Z)).

Definition code {A} (f : A -> Z) (p : prog A) : prog Z := r ← p; Ret (f r).
Definition fst3 {A B C} (x : A * B * C) : A := fst (fst x).
Definition fst4 {A B C D} (x : A * B * C * D) : A := fst (fst (fst x)).

(** The entry point, with its return value. *)
Definition do_request (q : request) : prog Z :=
  match q with
  | QSendCommand cmd data => send_command cmd data
  | QRegister => sanlock_register
  | QRegEvent n he f => sanlock_reg_event n he f
  | QSetEvent n he f => sanlock_set_event n he f
  | QAddLockspace ls f => sanlock_add_lockspace ls f
  | QAddLockspaceTimeout ls f t => sanlock_add_lockspace_timeout ls f t
  | QInqLockspace ls f => sanlock_inq_lockspace ls f
  | QRemLockspace ls f => sanlock_rem_lockspace ls f
  | QGetLockspaces w f => code fst3 (sanlock_get_lockspaces w f)
  | QGetHosts n i w f => code fst3 (sanlock_get_hosts n i w f)
  | QSetConfig n f c => sanlock_set_config n f c
  | QAlign d => sanlock_align d
  | QReadLockspace ls f => code fst (sanlock_read_lockspace ls f)
  | QWriteLockspace ls m f t => sanlock_write_lockspace ls m f t
  | QReadResource r f => code fst (sanlock_read_resource r f)
  | QWriteResource r m n f => sanlock_write_resource r m n f
  | QReadOwners r f w => code fst4 (sanlock_read_resource_owners r f w)
  | QVersion f => code fst3 (sanlock_version f)
  | QRestrict s f => sanlock_restrict s f
  | QKillpath s f p a => sanlock_killpath s f p a
  | QAcquire s p f l o => sanlock_acquire s p f l o
  | QInquire s p f => code fst3 (sanlock_inquire s p f)
  | QConvert s p f r => sanlock_convert s p f r
  | QRelease s p f l => sanlock_release s p f l
  | QRequest f m r => sanlock_request f m r
  | QExamine f ls r => sanlock_examine f ls r
  | QSetLvb f r l => sanlock_set_lvb f r l
  | QGetLvb f r l => code fst (sanlock_get_lvb f r l)
  | QFormatRindex rx f => sanlock_format_rindex rx f
  | QRebuildRindex rx f => sanlock_rebuild_rindex rx f
  | QUpdateRindex rx f re => code fst (sanlock_update_rindex rx f re)
  | QLookupRindex rx f re => code fst (sanlock_lookup_rindex rx f re)
  | QCreateResource rx f re m n => code fst (sanlock_create_resource rx f re m n)
  | QDeleteResource rx f re => sanlock_delete_resource rx f re
  end.

(** The registered connection a request is made on, if not a new one. *)
Definition on_sock (q : request) : option Z :=
  match q with
  | QRestrict s _ | QKillpath s _ _ _ => Some s
  | QAcquire s _ _ _ _ | QInquire s _ _ | QConvert s _ _ _ | QRelease s _ _ _ => if s =? -1 then None else Some s
  | _ => None
  end.

(** The requests whose result is an open connection. *)
Definition opens (q : request) : bool :=
  match q with QSendCommand _ _ | QRegister | QRegEvent _ _ _ => true | _ => false end.

(** The requests that return without closing a new connection when the header cannot be sent. *)
Definition leaks (q : request) : bool :=
  match q with
  | QAcquire s _ _ _ _ | QInquire s _ _ => s =? -1
  | QSetLvb _ _ _ | QGetLvb _ _ _ => true
  | _ => false
  end.

(** ** What a request has to send *)

Definition target (sock pid : Z) : Z := if sock =? -1 then pid else -1.
Definition disks_of (res : res_ptr) : list Z := take (Z.to_nat (disks_len res)) (snd res).
Definition res_all (res : res_ptr) : list Z := fst res ++ disks_of res.

(** A header that announces [payload], and [payload]. *)
Definition frame (cmd flags data data2 : Z) (payload : list Z) : list Z :=
  sm_header cmd flags (Z.of_nat (length payload)) data data2 ++ payload.

Definition message (q : request) : list Z :=
  match q with
  | QSendCommand cmd data => frame cmd 0 data 0 []
  | QRegister => frame SM_CMD_REGISTER 0 0 0 []
  | QRegEvent n he f => frame SM_CMD_REG_EVENT f 0 0 (lockspace_bytes (default [] n) 0 ++ default no_event he)
  | QSetEvent n he f => frame SM_CMD_SET_EVENT f 0 0 (lockspace_bytes (default [] n) 0 ++ default no_event he)
  | QAddLockspace ls f => frame SM_CMD_ADD_LOCKSPACE f 0 0 ls
  | QAddLockspaceTimeout ls f t => frame SM_CMD_ADD_LOCKSPACE f t 0 ls
  | QInqLockspace ls f => frame SM_CMD_INQ_LOCKSPACE f 0 0 ls
  | QRemLockspace ls f => frame SM_CMD_REM_LOCKSPACE f 0 0 ls
  | QGetLockspaces w f => frame SM_CMD_GET_LOCKSPACES f 0 0 []
  | QGetHosts n i w f => frame SM_CMD_GET_HOSTS f 0 0 (lockspace_bytes (default [] n) i)
  | QSetConfig n f c => frame SM_CMD_SET_CONFIG f c 0 (lockspace_bytes (default [] n) 0)
  | QAlign d => frame SM_CMD_ALIGN 0 0 0 d
  | QReadLockspace ls f => frame SM_CMD_READ_LOCKSPACE f 0 0 (default [] ls)
  | QWriteLockspace ls m f t => frame SM_CMD_WRITE_LOCKSPACE f m t (default [] ls)
  | QReadResource r f => frame SM_CMD_READ_RESOURCE f 0 0 (from_option res_all [] r)
  | QWriteResource r m n f => frame SM_CMD_WRITE_RESOURCE f m n (from_option res_all [] r)
  | QReadOwners r f w => frame SM_CMD_READ_RESOURCE_OWNERS f 0 0 (from_option res_all [] r)
  | QVersion f => frame SM_CMD_VERSION f 0 0 []
  | QRestrict s f => frame SM_CMD_RESTRICT f 0 (-1) []
  | QKillpath s f p a =>
      frame SM_CMD_KILLPATH f 0 (-1) (helper_str SANLK_HELPER_PATH_LEN p ++ helper_str SANLK_HELPER_ARGS_LEN a)
  | QAcquire s p f l o =>
      frame SM_CMD_ACQUIRE f (Z.of_nat (length l)) (target s p) (flat_map res_all l ++ default (zeros 56) o)
  | QInquire s p f => frame SM_CMD_INQUIRE f 0 (target s p) []
  | QConvert s p f r => frame SM_CMD_CONVERT f 0 (target s p) (default [] r)
  | QRelease s p f l => frame SM_CMD_RELEASE f (Z.of_nat (length l)) (target s p) (concat l)
  | QRequest f m r => frame SM_CMD_REQUEST f m 0 (from_option res_all [] r)
  | QExamine f ls r =>
      match ls with
      | Some l => if ls_path0 l =? 0 then frame SM_CMD_EXAMINE_RESOURCE f 0 0 (default [] r)
                  else frame SM_CMD_EXAMINE_LOCKSPACE f 0 0 l
      | None => frame SM_CMD_EXAMINE_RESOURCE f 0 0 (default [] r)
      end
  | QSetLvb f r l => frame SM_CMD_SET_LVB f 0 0 (default [] r ++ default [] l)
  | QGetLvb f r l => frame SM_CMD_GET_LVB f 0 0 (default [] r)
  | QFormatRindex rx f => frame SM_CMD_FORMAT_RINDEX f 0 0 (default [] rx)
  | QRebuildRindex rx f => frame SM_CMD_REBUILD_RINDEX f 0 0 (default [] rx)
  | QUpdateRindex rx f re => frame SM_CMD_UPDATE_RINDEX f 0 0 (default [] rx ++ default [] re)
  | QLookupRindex rx f re =>
      sm_header SM_CMD_LOOKUP_RINDEX f (sizeof_rindex + sizeof_resource) 0 0 ++ default [] rx ++ default [] re
  | QCreateResource rx f re m n => frame SM_CMD_CREATE_RESOURCE f m n (default [] rx ++ default [] re)
  | QDeleteResource rx f re => frame SM_CMD_DELETE_RESOURCE f 0 0 (default [] rx ++ default [] re)
  end.

(** ** Arguments *)

Definition sized (n : Z) (x : option (list Z)) : Prop := forall b, x = Some b -> Z.of_nat (length b) = n.

(** A resource structure with at least its disks behind it, and at least one byte of them. *)
Definition res_sized (res : res_ptr) : Prop :=
  Z.of_nat (length (fst res)) = sizeof_resource /\ bytes_ok (fst res) /\
  disks_len res <= Z.of_nat (length (snd res)) /\ snd res <> [] /\
  sizeof_header + sizeof_resource + disks_len res < 2 ^ 31.

Definition named (res : option res_ptr) : Prop := forall r, res = Some r -> res_sized r.

(** The structures have their sizes, and what is sent fits an [int]. *)
Definition req_ok (q : request) : Prop :=
  match q with
  | QRegEvent _ he _ | QSetEvent _ he _ => sized sizeof_host_event he
  | QAddLockspace ls _ | QAddLockspaceTimeout ls _ _ | QInqLockspace ls _ | QRemLockspace ls _ =>
      Z.of_nat (length ls) = sizeof_lockspace
  | QAlign d => Z.of_nat (length d) = sizeof_disk
  | QReadLockspace ls _ | QWriteLockspace ls _ _ _ => sized sizeof_lockspace ls
  | QReadResource r _ | QWriteResource r _ _ _ | QReadOwners r _ _ | QRequest _ _ r => named r
  | QAcquire _ _ _ l o => Forall res_sized l /\ sized sizeof_options o
  | QConvert _ _ _ r => sized sizeof_resource r
  | QRelease _ _ _ l => Forall (fun r => Z.of_nat (length r) = sizeof_resource) l /\
                        sizeof_header + sizeof_resource * Z.of_nat (length l) < 2 ^ 31
  | QExamine _ ls r => sized sizeof_lockspace ls /\ sized sizeof_resource r /\
                       (forall l, ls = Some l -> r = None -> ls_path0 l <> 0)
  | QSetLvb _ r l => sized sizeof_resource r /\
                     (forall b, l = Some b -> sizeof_header + sizeof_resource + Z.of_nat (length b) < 2 ^ 31)
  | QGetLvb _ r _ => sized sizeof_resource r
  | QFormatRindex rx _ | QRebuildRindex rx _ => sized sizeof_rindex rx
  | QUpdateRindex rx _ re | QLookupRindex rx _ re | QCreateResource rx _ re _ _ | QDeleteResource rx _ re =>
      sized sizeof_rindex rx /\ sized sizeof_rentry re
  | _ => True
  end.

(** ** Histories *)

Lemma fds_app own h h' l : fds own h = Some l -> fds own (h ++ h') = fds l h'.
Proof. unfold fds. intros H. by rw foldl_app H. Qed.

Lemma sent_app h h' : sent (h ++ h') = sent h ++ sent h'.
Proof. apply flat_map_app. Qed.

Lemma recvd_app h h' : recvd (h ++ h') = recvd h || recvd h'.
Proof. apply existsb_app. Qed.

Section Rules.
Context (own msg : list Z).

(** No descriptor is misused; what was sent is the beginning of the message, and all of it once an answer is
    awaited. *)
Definition Inv (h : list event) : Prop :=
  is_Some (fds own h) /\ sent h `prefix_of` msg /\ (recvd h = true -> sent h = msg).

(** [l] is open, [s] sent, and no answer awaited. *)
Definition At (l s : list Z) (h : list event) : Prop :=
  fds own h = Some l /\ sent h = s /\ recvd h = false /\ s `prefix_of` msg.

(** [l] is open and the message sent. *)
Definition Full (l : list Z) (h : list event) : Prop := fds own h = Some l /\ sent h = msg.

(** [l] is open. *)
Definition Over (l : list Z) (h : list event) : Prop := fds own h = Some l.

Lemma At_Inv l s h : At l s h -> Inv h.
Proof. intros (Hl & Hs & Hr & Hp). rw -Hs in Hp. split; [by exists l|]. split; [done|]. by rw Hr. Qed.

Lemma Full_Inv l h : Full l h -> Inv h.
Proof. intros [Hl Hs]. split; [by exists l|]. rw Hs. by split. Qed.

Lemma Inv_silent h e l' :
  Inv h -> ev_sent e = [] -> is_recv e = false -> fds own (h ++ [e]) = Some l' -> Inv (h ++ [e]).
Proof.
  intros (_ & Hp & Hr) Hs He Hl. unfold Inv. rw sent_app recvd_app. cbn. rw Hs He !app_nil_r !orb_false_r.
  split; [by exists l'|]. by split.
Qed.

Lemma send_loop_ok n fd data l s h :
  (length data < n)%nat -> fd ∈ l -> At l s h -> (s ++ data) `prefix_of` msg ->
  always (send_loop n fd data) Inv
    (fun h rv => Over l h /\ recvd h = false /\ (0 <= rv -> At l (s ++ data) h) /\
       (rv < 0 -> data <> [] -> (length (sent h) < length (s ++ data))%nat)) h.
Proof.
  revert data s h. induction n as [|n IH]; intros data s h Hn Hfd Hat Hp; [lia|].
  destruct Hat as (Hl & Hs & Hr & Hps).
  apply always_bind, always_call; [by eapply At_Inv|]. intros [rv bs] [Hle H0]. cbn [fst snd] in *.
  assert (Hat' : At l (s ++ take (Z.to_nat rv) data) (h ++ ev (CSock (SSend fd data)) (rv, bs))).
  { repeat split.
    - rw (fds_app _ _ _ l Hl). cbn. by rw bool_decide_true.
    - rw sent_app Hs. cbn. by rw app_nil_r.
    - by rw recvd_app Hr.
    - etrans; [|exact Hp]. apply prefix_app, prefix_take. }
  split; [by eapply At_Inv|]. cbn [fst]. destruct (rv <? 0) eqn:?; [|destruct (rv <? Z.of_nat (length data)) eqn:?]; zbool.
  - apply always_ret; [by eapply At_Inv|]. split_and!; [apply Hat'..|lia|]. intros _ Hne.
    destruct Hat' as (_ & -> & _). assert (Z.to_nat rv = O) as -> by lia. rw !length_app. cbn [take length].
    destruct data; [done|cbn; lia].
  - eapply always_mono; [|done|].
    + apply (IH _ (s ++ take (Z.to_nat rv) data)); [|done|done|by rw -app_assoc take_drop].
      rw length_drop. assert (rv <> 0) by (intros E; specialize (H0 E); subst data; cbn in *; lia). lia.
    + intros h' a _ H. rw -app_assoc take_drop in H. destruct H as (H1 & H2 & H3 & H4). split_and!; [done..|].
      intros Ha _. apply H4; [done|]. intros E. apply (f_equal length) in E. rw length_drop in E. cbn in E. lia.
  - apply always_ret; [by eapply At_Inv|]. assert (Ht : take (Z.to_nat rv) data = data) by (apply take_ge; lia).
    rw Ht in Hat'. split_and!; [apply Hat'..|done|lia].
Qed.

Lemma send_data_ok {A} fd data l s (out : Z -> A) k h :
  fd ∈ l -> At l s h -> (s ++ data) `prefix_of` msg ->
  (forall h, At l (s ++ data) h -> always k Inv (fun h _ => Over l h) h) ->
  always (or_out (send_data fd data) out k) Inv (fun h _ => Over l h) h.
Proof.
  intros Hfd Hat Hp Hk. apply always_bind. eapply always_mono; [by apply send_loop_ok; [lia| | |]|done|].
  cbn. intros h' rv Hi (Ho & _ & Ha & _). destruct (rv <? 0) eqn:?; zbool; [by apply always_ret|]. apply Hk, Ha. lia.
Qed.

Lemma recv_data_ok fd len l h :
  fd ∈ l -> Full l h -> always (recv_data fd len) Inv (fun h _ => Full l h) h.
Proof.
  intros Hfd [Hl Hs]. apply always_call; [by eapply Full_Inv|]. intros [rv bs] _.
  assert (Full l (h ++ ev (CSock (SRecv fd len false)) (rv, bs))).
  { split; [rw (fds_app _ _ _ l Hl); cbn; by rw bool_decide_true|rw sent_app Hs; cbn; by rw app_nil_r]. }
  by split; [eapply Full_Inv|].
Qed.

Lemma recv_struct_ok fd len l h :
  fd ∈ l -> Full l h -> always (recv_struct fd len) Inv (fun h _ => Full l h) h.
Proof.
  intros Hfd Hf. apply always_bind. eapply always_mono; [by apply recv_data_ok|done|].
  intros h' a Hi H. by apply always_ret.
Qed.

Lemma recv_result_ok fd l h :
  fd ∈ l -> Full l h -> always (recv_result fd) Inv (fun h _ => Full l h) h.
Proof.
  intros Hfd Hf. apply always_bind. eapply always_mono; [by apply recv_struct_ok|done|].
  intros h' a Hi H. by apply always_ret.
Qed.

Lemma recv_structs_ok fd len n l h :
  fd ∈ l -> Full l h -> always (recv_structs fd len n) Inv (fun h _ => Full l h) h.
Proof.
  revert h. induction n as [|n IH]; intros h Hfd Hf; [by apply always_ret; [eapply Full_Inv|]|].
  apply always_bind. eapply always_mono; [by apply recv_struct_ok|done|]. intros h' [rv|b] Hi H; [by apply always_ret|].
  apply always_bind. eapply always_mono; [by apply IH|done|]. intros h'' a Hi' H'. by apply always_ret.
Qed.

Lemma recv_list_ok fd size rv want hd l h :
  fd ∈ l -> Full l h -> always (recv_list fd size rv want hd) Inv (fun h _ => Full l h) h.
Proof.
  intros Hfd Hf. unfold recv_list. pose proof (Full_Inv _ _ Hf).
  destruct want; cbn [negb]; [|by apply always_ret].
  apply always_bind, always_quiet; [done|done|]. intros [] _; cbn [negb]; [|by apply always_ret].
  apply always_bind. eapply always_mono; [by apply recv_structs_ok|done|]. intros h' a Hi H'. by apply always_ret.
Qed.

Lemma recv_reply_ok fd l h :
  fd ∈ l -> Full l h -> always (recv_reply fd) Inv (fun h _ => Full l h) h.
Proof.
  intros Hfd Hf. apply always_bind. eapply always_mono; [by apply recv_data_ok|done|]. intros h' r Hi H.
  cbn zeta. case_match; [by apply always_ret|]. case_match; [by apply always_ret|]. apply always_bind.
  assert (Hk : forall b, always (if negb b then Ret (- ENOMEM, None) else
      r0 ← recv_data fd (i32 (h_length (snd r) - sizeof_header));
      if negb (fst r0 =? i32 (h_length (snd r) - sizeof_header)) then Ret (-1, None)
      else Ret (h_data (snd r), Some (snd r, snd r0))) Inv (fun h _ => Full l h) h').
  { intros []; cbn [negb]; [|by apply always_ret]. apply always_bind.
    eapply always_mono; [by apply recv_data_ok|done|]. intros h'' r0 Hi' H'. case_match; by apply always_ret. }
  case_match; [by apply always_ret|]. apply always_quiet; [done|done|]. auto.
Qed.

Lemma close_ok fd l h : Inv h -> Over (fd :: l) h -> always (close fd) Inv (fun h _ => Over l h) h.
Proof.
  intros Hi Hl. apply always_bind, always_call; [done|]. intros [rv bs] _.
  assert (Ho : Over l (h ++ ev (CSock (SClose fd)) (rv, bs))).
  { unfold Over. rw (fds_app _ _ _ _ Hl). cbn. rw bool_decide_true; [by left|]. by rw Z.eqb_refl. }
  by split; [eapply Inv_silent|apply always_ret; [eapply Inv_silent|]].
Qed.

Lemma At_step l l' s h e :
  At l s h -> fd_step (Some l) e = Some l' -> ev_sent e = [] -> is_recv e = false -> At l' s (h ++ [e]).
Proof.
  intros (Hl & Hs & Hr & Hp) He Hs' Hr'. unfold At. rw (fds_app _ _ _ l Hl) sent_app recvd_app Hs Hr.
  change (fds l [e]) with (fd_step (Some l) e). cbn -[fd_step].
  rw He Hs' Hr' !app_nil_r. by split_and!.
Qed.

Lemma close_at fd l s h : At (fd :: l) s h -> always (close fd) Inv (fun h _ => At l s h) h.
Proof.
  intros Hat. apply always_bind, always_call; [by eapply At_Inv|]. intros [rv bs] _.
  assert (Ha : At l s (h ++ ev (CSock (SClose fd)) (rv, bs))).
  { apply (At_step (fd :: l)); [done| |done|done]. cbn. rw bool_decide_true; [by left|]. by rw Z.eqb_refl. }
  by split; [eapply At_Inv|apply always_ret; [eapply At_Inv|]].
Qed.

(** A call that neither sends nor receives. *)
Lemma sock_at c l l' s (Q : list event -> Z * list Z -> Prop) h :
  At l s h -> (forall r, fd_step (Some l) (EvSock c (fst r) (snd r)) = Some (l' r)) ->
  (forall r, ev_sent (EvSock c (fst r) (snd r)) = [] /\ is_recv (EvSock c (fst r) (snd r)) = false) ->
  (forall h r, At (l' r) s h -> Q h r) ->
  always (sock c) Inv Q h.
Proof.
  intros Hat Hl Hs HQ. apply always_call; [by eapply At_Inv|]. intros r _.
  assert (At (l' r) s (h ++ ev (CSock c) r)) by (apply (At_step l); [done|apply Hl|apply Hs|apply Hs]).
  split; [by eapply At_Inv|auto].
Qed.

(** A new connection, or the code of the failure and nothing open. *)
Lemma connect_ok l s h :
  At l s h ->
  always connect_socket Inv (fun h c => if fst c <? 0 then At l s h else 0 <= snd c /\ At (snd c :: l) s h) h.
Proof.
  intros Hat. apply always_bind, (sock_at _ l (fun r => if fst r <? 0 then l else fst r :: l) s); [done|done|done|].
  clear h Hat. intros h [fd bs] Hat. cbn [fst] in *. destruct (fd <? 0) eqn:Hfd.
  { apply always_ret; [by eapply At_Inv|]. cbn. by rw Hfd. }
  assert (Hc : forall rv h, (rv <? 0) = true -> At (fd :: l) s h ->
    always (close fd;; Ret (rv, -1)) Inv (fun h c => if fst c <? 0 then At l s h else 0 <= snd c /\ At (snd c :: l) s h) h).
  { intros rv h' Hrv Ha. apply always_bind. eapply always_mono; [by apply close_at|done|].
    intros h'' a Hi Ha'. apply always_ret; [done|]. cbn. by rw Hrv. }
  apply always_bind, (sock_at _ (fd :: l) (fun _ => fd :: l) s); [done|done|done|].
  clear h Hat. intros h [rv bs'] Hat. cbn [fst]. destruct (rv <? 0) eqn:Hrv; [by apply Hc|].
  apply always_bind, (sock_at _ (fd :: l) (fun _ => fd :: l) s); [done| |done|].
  { intros r. cbn. rw bool_decide_true; [by left|done]. }
  clear h Hat. intros h [rc bs''] Hat. cbn [fst]. destruct (rc <? 0) eqn:Hrc; [by apply Hc|].
  apply always_ret; [by eapply At_Inv|]. cbn. split; [lia|done].
Qed.
End Rules.

(** ** Requests *)

Section Requests.
Context (own msg : list Z).

(** [l] is open and [rest] of the message is not sent yet. *)
Definition Todo (l rest : list Z) (h : list event) : Prop :=
  fds own h = Some l /\ recvd h = false /\ msg = sent h ++ rest.

Abbreviation Inv := (Inv own msg).
Abbreviation Full := (Full own msg).
Abbreviation Over := (Over own).

(** The program uses only what is open, sends what it should, and leaves [l] open. *)
Abbreviation serves l p h := (always p Inv (fun h _ => Over l h) h).

Lemma Todo_At l rest h : Todo l rest h -> At own msg l (sent h) h.
Proof. intros (Hl & Hr & Hm). split_and!; [done|done|done|]. by exists rest. Qed.

Lemma Todo_Inv l rest h : Todo l rest h -> Inv h.
Proof. intros H%Todo_At. by eapply At_Inv. Qed.

Lemma Todo_Full l h : Todo l [] h -> Full l h.
Proof. intros (Hl & Hr & Hm). rw app_nil_r in Hm. by split. Qed.

Lemma serves_out {A} l rest h (a : A) : Todo l rest h -> serves l (Ret a) h.
Proof. intros HT. apply always_ret; [by eapply Todo_Inv|apply HT]. Qed.

Lemma todo_send {A} fd data rest l (out : Z -> A) k h :
  fd ∈ l -> Todo l (data ++ rest) h -> (forall h, Todo l rest h -> serves l k h) ->
  serves l (or_out (send_data fd data) out k) h.
Proof.
  intros Hfd HT Hk. pose proof (Todo_At _ _ _ HT) as Hat. destruct HT as (Hl & Hr & Hm).
  rw app_assoc in Hm. eapply send_data_ok; [done|done|by exists rest|].
  intros h' (Hl' & Hs' & Hr' & _). apply Hk. split_and!; [done|done|]. by rw Hs'.
Qed.

(** A header, with a failure to send it treated apart. *)
Lemma todo_header {A} fd data rest l (out : Z -> A) k (Q : list event -> A -> Prop) h :
  fd ∈ l -> Todo l (data ++ rest) h -> data <> [] ->
  (forall h' rv, rv < 0 -> Over l h' -> recvd h' = false -> (length (sent h') < length (sent h) + length data)%nat ->
     Q h' (out rv)) ->
  (forall h, Todo l rest h -> always k Inv Q h) ->
  always (or_out (send_data fd data) out k) Inv Q h.
Proof.
  intros Hfd HT Hne HQ Hk. pose proof (Todo_At _ _ _ HT) as Hat. destruct HT as (Hl & Hr & Hm).
  rw app_assoc in Hm. apply always_bind.
  eapply always_mono; [eapply send_loop_ok; [lia|exact Hfd|exact Hat|by exists rest]|done|].
  cbn. intros h' rv Hi (Ho & Hn & Ha & Hsh). destruct (rv <? 0) eqn:?; zbool.
  { apply always_ret; [done|]. apply HQ; [done..|]. rw -length_app. by apply Hsh. }
  destruct Ha as (Hl' & Hs' & Hr' & _); [lia|]. apply Hk. split_and!; [done|done|]. by rw Hs'.
Qed.

Lemma todo_only fd data rest l h : fd ∈ l -> Todo l (data ++ rest) h -> serves l (send_data fd data) h.
Proof.
  intros Hfd HT. pose proof (Todo_At _ _ _ HT) as Hat. destruct HT as (Hl & Hr & Hm). rw app_assoc in Hm.
  eapply always_mono; [eapply send_loop_ok; [lia|exact Hfd|exact Hat|by exists rest]|done|].
  by intros h' rv Hi (Ho & _).
Qed.

Lemma todo_last {A} fd data l (out : Z -> A) k h :
  fd ∈ l -> Todo l data h -> (forall h, Full l h -> serves l k h) ->
  serves l (or_out (send_data fd data) out k) h.
Proof.
  intros Hfd HT Hk. apply (todo_send _ _ []); [done|by rw app_nil_r|].
  intros h' HT'. by apply Hk, Todo_Full.
Qed.

(** After the message, anything that only receives. *)
Lemma full_bind {A B} l (p : prog A) (f : A -> prog B) h :
  always p Inv (fun h _ => Full l h) h -> (forall a h, Full l h -> serves l (f a) h) -> serves l (p ≫= f) h.
Proof. intros Hp Hf. apply always_bind. eapply always_mono; [exact Hp|done|]. intros h' a Hi H. by apply Hf. Qed.

Lemma full_ret {A} l (a : A) h : Full l h -> serves l (Ret a) h.
Proof. intros H. apply always_ret; [by eapply Full_Inv|apply H]. Qed.

Lemma serves_result fd l h : fd ∈ l -> Full l h -> serves l (recv_result fd) h.
Proof. intros Hfd Hf. eapply always_mono; [by apply recv_result_ok|done|]. by intros h' a Hi [H _]. Qed.

Lemma serves_bind_ret {A B} l (p : prog A) (f : A -> B) h : serves l p h -> serves l (r ← p; Ret (f r)) h.
Proof. intros H. apply always_bind. eapply always_mono; [exact H|done|]. intros h' a Hi Ho. by apply always_ret. Qed.

(** A body followed by the closing of the connection. *)
Lemma serves_close {A} l (p : prog A) fd h :
  serves (fd :: l) p h -> serves l (r ← p; close fd;; Ret r) h.
Proof.
  intros H. apply always_bind. eapply always_mono; [exact H|done|]. intros h' a Hi Ho.
  apply always_bind. eapply always_mono; [by apply (close_ok own msg fd l)|done|]. intros h'' b Hi' Ho'. by apply always_ret.
Qed.

Lemma connect_todo {A} l rest (f : Z * Z -> prog A) (Q : list event -> A -> Prop) h :
  Todo l rest h ->
  (forall c h, (fst c <? 0) = true -> Todo l rest h -> always (f c) Inv Q h) ->
  (forall c h, (fst c <? 0) = false -> 0 <= snd c -> Todo (snd c :: l) rest h -> always (f c) Inv Q h) ->
  always (connect_socket ≫= f) Inv Q h.
Proof.
  intros HT Hf Hs. pose proof (Todo_At _ _ _ HT) as Hat. destruct HT as (Hl & Hr & Hm).
  apply always_bind. eapply always_mono; [by eapply connect_ok|done|].
  intros h' c Hi. cbn. destruct (fst c <? 0) eqn:Hc.
  - intros (Hl' & Hs' & Hr' & _). apply Hf; [done|]. split_and!; [done|done|]. by rw Hs'.
  - intros [H0 (Hl' & Hs' & Hr' & _)]. apply Hs; [done|done|]. split_and!; [done|done|]. by rw Hs'.
Qed.

Lemma serves_conn {A} l rest (out : Z -> A) body h :
  Todo l rest h -> (forall fd h, Todo (fd :: l) rest h -> serves (fd :: l) (body fd) h) ->
  serves l (with_conn out body) h.
Proof.
  intros HT Hb. eapply connect_todo; [exact HT| |]; intros c h' Hc.
  - intros HT'. rw Hc. by eapply serves_out.
  - intros _ HT'. rw Hc. by apply serves_close, Hb.
Qed.

Lemma serves_frame_result fd cmd flags n data data2 payload l h :
  fd ∈ l -> Todo l (sm_header cmd flags n data data2 ++ payload) h ->
  serves l (or_out (send_header fd cmd flags n data data2) id_out
    (or_out (send_data fd payload) id_out (recv_result fd))) h.
Proof.
  intros Hfd HT. eapply todo_send; [done|exact HT|]. intros h1 H1. eapply todo_last; [done|exact H1|].
  intros h2 H2. by apply serves_result.
Qed.

Lemma serves_list_answer fd size want l h :
  fd ∈ l -> Full l h -> serves l (recv_list_answer fd size want) h.
Proof.
  intros Hfd Hf. apply full_bind; [by apply recv_struct_ok|]. intros [rv|hd] h1 H1; [by apply full_ret|].
  cbn zeta. case_match; [by apply full_ret|].
  eapply always_mono; [by apply recv_list_ok|done|]. by intros h' a Hi [H' _].
Qed.
End Requests.
