(* ===== verification/ClientProtocol.v ===== *)
(** * The client library keeps to the protocol

    For every request of the client library: it uses and closes descriptors as it should, or it
    is one of those that lose a connection, and before it waits for an answer it has sent a
    header and the data that the header announces (of a lookup in the index, 64 bytes less). *)

From S2P Require Import Prelude OnDisk Io Client ClientRequests.

(** ** Lengths *)

Lemma frame_eq n cmd flags data data2 payload :
  Z.of_nat (length payload) = n -> frame cmd flags data data2 payload = sm_header cmd flags n data data2 ++ payload.
Proof. by intros <-. Qed.

Lemma length_lockspace_bytes name host_id : Z.of_nat (length (lockspace_bytes name host_id)) = sizeof_lockspace.
Proof. unfold lockspace_bytes. rw length_app length_strncpy length_app length_le_split length_replicate. reflexivity. Qed.

Lemma length_helper_str n s : (2 <= n)%nat -> length (helper_str n s) = n.
Proof. intros H. unfold helper_str. rw length_app length_replicate length_take. lia. Qed.

Lemma num_disks_nonneg res : res_sized res -> 0 <= disks_len res.
Proof.
  intros (Hl & Hb & _). unfold disks_len, num_disks.
  assert (is_u 32 (fld 124 4 (fst res))) as [H _].
  { apply fld4_is_u; [done|]. change sizeof_resource with 128 in Hl. lia. }
  unfold sizeof_disk. lia.
Qed.

Lemma length_res_all res : res_sized res -> Z.of_nat (length (res_all res)) = sizeof_resource + disks_len res.
Proof.
  intros Hr. pose proof (num_disks_nonneg _ Hr). destruct Hr as (Hl & _ & Hd & _).
  unfold res_all, disks_of. rw length_app length_take. lia.
Qed.

Lemma frame_res cmd flags data data2 res :
  res_sized res ->
  frame cmd flags data data2 (res_all res) =
    sm_header cmd flags (i32 (sizeof_resource + disks_len res)) data data2 ++ fst res ++ disks_of res.
Proof.
  intros Hr. pose proof (num_disks_nonneg _ Hr). rw (frame_eq (i32 (sizeof_resource + disks_len res))) //.
  rw length_res_all // i32_small //. destruct Hr as (_ & _ & _ & _ & Hs).
  change sizeof_resource with 128 in *. change sizeof_header with 32 in *. lia.
Qed.

Lemma disks_bytes_ok res : res_sized res -> disks_bytes res = Ret (disks_of res).
Proof. intros (_ & _ & Hd & _). unfold disks_bytes. by rw (proj2 (Z.leb_le _ _) Hd). Qed.

Lemma send_disks_ok fd res : res_sized res -> send_disks fd res = send_data fd (disks_of res).
Proof. intros Hr. unfold send_disks. by rw disks_bytes_ok. Qed.

Lemma length_sm_header cmd flags n data data2 : Z.of_nat (length (sm_header cmd flags n data data2)) = sizeof_header.
Proof. unfold sm_header. by rw !length_app !length_le_split. Qed.

Section Groups.
Context (own msg : list Z).

Abbreviation Todo := (Todo own msg).
Abbreviation Full := (Full own msg).
Abbreviation serves l p h := (always p (Inv own msg) (fun h _ => Over own l h) h).

Lemma lockspace_serves cmd ls flags data h :
  Z.of_nat (length ls) = sizeof_lockspace -> Todo own (frame cmd flags data 0 ls) h ->
  serves own (cmd_lockspace cmd ls flags data) h.
Proof.
  intros Hl HT. rw (frame_eq _ _ _ _ _ _ Hl) in HT. eapply serves_conn; [exact HT|].
  intros fd h1 H1. apply serves_frame_result; [by left|done].
Qed.

(** The steps of a body: the pieces of the message in turn, then what is received. *)
Lemma resource_serves {A} fd cmd flags data data2 res (out : Z -> A) k l h :
  fd ∈ l -> res_sized res -> Todo l (frame cmd flags data data2 (res_all res)) h ->
  (forall h, Full l h -> serves l k h) ->
  serves l (send_resource fd cmd flags data data2 res out k) h.
Proof.
  intros Hfd Hr HT Hk. rw frame_res // in HT. unfold send_resource. rw send_disks_ok //.
  eapply todo_send; [done|exact HT|]. intros h1 H1. eapply todo_send; [done|exact H1|].
  intros h2 H2. by eapply todo_last; [done|exact H2|].
Qed.

Lemma check_disks_serves {A} res (out : Z -> A) k rest h :
  named res -> Todo own rest h -> (forall r, res = Some r -> res_sized r -> serves own (k r) h) ->
  serves own (check_disks res out k) h.
Proof.
  intros Hn HT Hk. destruct res as [r|]; cbn [check_disks]; [|by eapply serves_out].
  case_match; [by eapply serves_out|]. pose proof (Hn r eq_refl) as Hr.
  unfold disk_path0. destruct Hr as (H1 & H2 & H3 & H4 & H5). destruct (snd r) as [|b d] eqn:E; [done|].
  cbn. case_match; [by eapply serves_out|]. apply Hk; [done|]. repeat split; rw ?E; done.
Qed.

Lemma write_resource_serves res max_hosts num_hosts flags h :
  named res -> Todo own (message (QWriteResource res max_hosts num_hosts flags)) h ->
  serves own (sanlock_write_resource res max_hosts num_hosts flags) h.
Proof.
  intros Hn HT. eapply check_disks_serves; [done|exact HT|]. intros r -> Hr.
  eapply serves_conn; [exact HT|]. intros fd h1 H1. apply resource_serves; [by left|done|done|].
  intros h2 H2. apply serves_result; [by left|done].
Qed.

Lemma read_resource_serves res flags h :
  named res -> Todo own (message (QReadResource res flags)) h -> serves own (sanlock_read_resource res flags) h.
Proof.
  intros Hn HT. eapply check_disks_serves; [done|exact HT|]. intros r -> Hr.
  eapply serves_conn; [exact HT|]. intros fd h1 H1. apply resource_serves; [by left|done|done|].
  intros h2 H2. apply full_bind; [apply recv_struct_ok; [by left|done]|]. intros [rv|b] h3 H3; [by apply full_ret|].
  apply full_bind; [apply recv_struct_ok; [by left|done]|]. intros a h4 H4. by apply full_ret.
Qed.

Lemma read_owners_serves res flags want h :
  named res -> Todo own (message (QReadOwners res flags want)) h ->
  serves own (sanlock_read_resource_owners res flags want) h.
Proof.
  intros Hn HT. eapply check_disks_serves; [done|exact HT|]. intros r -> Hr.
  eapply serves_conn; [exact HT|]. intros fd h1 H1. apply resource_serves; [by left|done|done|].
  intros h2 H2. apply full_bind; [apply recv_struct_ok; [by left|done]|]. intros [rv|b] h3 H3; [by apply full_ret|].
  case_match; [by apply full_ret|].
  apply full_bind; [apply recv_struct_ok; [by left|done]|]. intros [rv|b'] h4 H4; [by apply full_ret|].
  apply full_bind; [apply recv_list_ok; [by left|done]|]. intros a h5 H5. by apply full_ret.
Qed.

Lemma request_serves flags force_mode res h :
  named res -> Todo own (message (QRequest flags force_mode res)) h -> serves own (sanlock_request flags force_mode res) h.
Proof.
  intros Hn HT. destruct res as [r|]; [|by eapply serves_out].
  eapply serves_conn; [exact HT|]. intros fd h1 H1. apply resource_serves; [by left|by apply Hn|done|].
  intros h2 H2. apply serves_result; [by left|done].
Qed.

Lemma rindex_serves cmd rx flags h :
  sized sizeof_rindex rx -> Todo own (frame cmd flags 0 0 (default [] rx)) h -> serves own (cmd_rindex cmd rx flags) h.
Proof.
  intros Hs HT. destruct rx as [rx|]; [|by eapply serves_out]. cbn [cmd_rindex].
  case_match; [by eapply serves_out|]. cbn [default] in HT. rw (frame_eq _ _ _ _ _ _ (Hs _ eq_refl)) in HT.
  eapply serves_conn; [exact HT|]. intros fd h1 H1. apply serves_frame_result; [by left|done].
Qed.

Lemma rentry_serves cmd n rx re flags data data2 h :
  Todo own (sm_header cmd flags n data data2 ++ default [] rx ++ default [] re) h ->
  serves own (cmd_rentry cmd n rx re flags data data2) h.
Proof.
  intros HT. destruct rx as [rx|], re as [re|]; try by eapply serves_out. cbn [cmd_rentry].
  case_match; [by eapply serves_out|]. cbn [default] in HT.
  eapply serves_conn; [exact HT|]. intros fd h1 H1. eapply todo_send; [by left|exact H1|].
  intros h2 H2. eapply todo_send; [by left|exact H2|]. intros h3 H3. eapply todo_last; [by left|exact H3|].
  intros h4 H4. apply full_bind; [apply recv_result_ok; [by left|done]|]. intros rv h5 H5.
  case_match; [by apply full_ret|]. apply full_bind; [apply recv_struct_ok; [by left|done]|].
  intros a h6 H6. by apply full_ret.
Qed.

Lemma get_lockspaces_serves want flags h :
  Todo own (message (QGetLockspaces want flags)) h -> serves own (sanlock_get_lockspaces want flags) h.
Proof.
  intros HT. eapply serves_conn; [exact HT|]. intros fd h1 H1. eapply todo_send; [by left|exact H1|].
  intros h2 H2%Todo_Full. apply serves_list_answer; [by left|done].
Qed.

Lemma get_hosts_serves name host_id want flags h :
  Todo own (message (QGetHosts name host_id want flags)) h -> serves own (sanlock_get_hosts name host_id want flags) h.
Proof.
  intros HT. destruct name as [n|]; [|by eapply serves_out]. cbn [message default] in HT.
  rw (frame_eq _ _ _ _ _ _ (length_lockspace_bytes _ _)) in HT.
  eapply serves_conn; [exact HT|]. intros fd h1 H1. eapply todo_send; [by left|exact H1|].
  intros h2 H2. eapply todo_last; [by left|exact H2|]. intros h3 H3. apply serves_list_answer; [by left|done].
Qed.

Lemma set_config_serves name flags cmd h :
  Todo own (message (QSetConfig name flags cmd)) h -> serves own (sanlock_set_config name flags cmd) h.
Proof.
  intros HT. destruct name as [n|]; [|by eapply serves_out]. cbn [message default] in HT.
  rw (frame_eq _ _ _ _ _ _ (length_lockspace_bytes _ _)) in HT.
  eapply serves_conn; [exact HT|]. intros fd h1 H1. apply serves_frame_result; [by left|done].
Qed.

Lemma align_serves disk h :
  Z.of_nat (length disk) = sizeof_disk -> Todo own (message (QAlign disk)) h -> serves own (sanlock_align disk) h.
Proof.
  intros Hl HT. cbn [message] in HT. rw (frame_eq _ _ _ _ _ _ Hl) in HT. eapply serves_conn; [exact HT|].
  intros fd h1 H1. apply serves_frame_result; [by left|done].
Qed.

Lemma read_lockspace_serves ls flags h :
  sized sizeof_lockspace ls -> Todo own (message (QReadLockspace ls flags)) h ->
  serves own (sanlock_read_lockspace ls flags) h.
Proof.
  intros Hs HT. destruct ls as [ls|]; [|by eapply serves_out]. cbn [message default sanlock_read_lockspace] in *.
  case_match; [by eapply serves_out|]. rw (frame_eq _ _ _ _ _ _ (Hs _ eq_refl)) in HT.
  eapply serves_conn; [exact HT|]. intros fd h1 H1. eapply todo_send; [by left|exact H1|].
  intros h2 H2. eapply todo_last; [by left|exact H2|]. intros h3 H3.
  apply full_bind; [apply recv_struct_ok; [by left|done]|]. intros [rv|b] h4 H4; [by apply full_ret|].
  case_match; [by apply full_ret|]. apply full_bind; [apply recv_struct_ok; [by left|done]|].
  intros a h5 H5. by apply full_ret.
Qed.

Lemma write_lockspace_serves ls max_hosts flags io_timeout h :
  sized sizeof_lockspace ls -> Todo own (message (QWriteLockspace ls max_hosts flags io_timeout)) h ->
  serves own (sanlock_write_lockspace ls max_hosts flags io_timeout) h.
Proof.
  intros Hs HT. destruct ls as [ls|]; [|by eapply serves_out]. cbn [message default sanlock_write_lockspace] in *.
  case_match; [by eapply serves_out|]. rw (frame_eq _ _ _ _ _ _ (Hs _ eq_refl)) in HT.
  eapply serves_conn; [exact HT|]. intros fd h1 H1. apply serves_frame_result; [by left|done].
Qed.

Lemma length_event_payload n he :
  sized sizeof_host_event he ->
  Z.of_nat (length (lockspace_bytes (default [] n) 0 ++ default no_event he)) = sizeof_lockspace + sizeof_host_event.
Proof.
  intros Hs. rw length_app Nat2Z.inj_add length_lockspace_bytes. f_equal. destruct he as [e|]; [by apply Hs|done].
Qed.

Lemma set_event_serves n he flags h :
  sized sizeof_host_event he -> Todo own (message (QSetEvent n he flags)) h -> serves own (sanlock_set_event n he flags) h.
Proof.
  intros Hs HT. cbn [message] in HT. rw (frame_eq _ _ _ _ _ _ (length_event_payload n _ Hs)) in HT.
  destruct n as [n|], he as [he|]; try by eapply serves_out. cbn [default] in HT.
  eapply serves_conn; [exact HT|]. intros fd h1 H1. eapply todo_send; [by left|exact H1|].
  intros h2 H2. eapply todo_send; [by left|exact H2|]. intros h3 H3. eapply todo_last; [by left|exact H3|].
  intros h4 H4. apply serves_result; [by left|done].
Qed.

Lemma version_serves flags h : Todo own (message (QVersion flags)) h -> serves own (sanlock_version flags) h.
Proof.
  intros HT. eapply serves_conn; [exact HT|]. intros fd h1 H1. eapply todo_send; [by left|exact H1|].
  intros h2 H2%Todo_Full. apply full_bind; [apply recv_struct_ok; [by left|done]|]. intros a h3 H3. by apply full_ret.
Qed.

Lemma restrict_serves s flags h :
  s ∈ own -> Todo own (message (QRestrict s flags)) h -> serves own (sanlock_restrict s flags) h.
Proof.
  intros Hs HT. eapply todo_send; [done|exact HT|]. intros h1 H1%Todo_Full. by apply serves_result.
Qed.

Lemma killpath_serves s flags path args h :
  s ∈ own -> Todo own (message (QKillpath s flags path args)) h -> serves own (sanlock_killpath s flags path args) h.
Proof.
  intros Hs HT. cbn [message] in HT.
  rw (frame_eq (Z.of_nat (SANLK_HELPER_PATH_LEN + SANLK_HELPER_ARGS_LEN))) in HT.
  { rw length_app !length_helper_str //; unfold SANLK_HELPER_PATH_LEN, SANLK_HELPER_ARGS_LEN; lia. }
  eapply todo_send; [done|exact HT|]. intros h1 H1. eapply todo_send; [done|exact H1|].
  intros h2 H2. eapply todo_last; [done|exact H2|]. intros h3 H3. by apply serves_result.
Qed.

Lemma examine_serves flags ls res h :
  req_ok (QExamine flags ls res) -> Todo own (message (QExamine flags ls res)) h ->
  serves own (sanlock_examine flags ls res) h.
Proof.
  intros (Hl & Hr & Hn) HT.
  assert (Hres : forall r, res = Some r -> Todo own (frame SM_CMD_EXAMINE_RESOURCE flags 0 0 r) h ->
    serves own (with_conn id_out (fun fd => or_out (send_header fd SM_CMD_EXAMINE_RESOURCE flags sizeof_resource 0 0)
      id_out (or_out (send_data fd r) id_out (recv_result fd)))) h).
  { intros r -> H. rw (frame_eq _ _ _ _ _ _ (Hr _ eq_refl)) in H. eapply serves_conn; [exact H|].
    intros fd h1 H1. apply serves_frame_result; [by left|done]. }
  destruct ls as [l|]; cbn [message] in HT; unfold sanlock_examine.
  - destruct (ls_path0 l =? 0) eqn:E; cbn [negb].
    + destruct res as [r|]; [by apply Hres|]. apply Z.eqb_eq in E. by destruct (Hn l eq_refl eq_refl).
    + rw (frame_eq _ _ _ _ _ _ (Hl _ eq_refl)) in HT. eapply serves_conn; [exact HT|].
      intros fd h1 H1. apply serves_frame_result; [by left|done].
  - destruct res as [r|]; [by apply Hres|by eapply serves_out].
Qed.

(** ** Requests on a registered connection *)

Lemma choose_serves {A} sock pid (f : Z * Z * Z -> prog A) rest (Q : list event -> A -> Prop) h :
  (sock <> -1 -> sock ∈ own) -> Todo own rest h ->
  (forall rv fd d h, rv < 0 -> Todo own rest h -> always (f (rv, fd, d)) (Inv own msg) Q h) ->
  (forall rv fd l h, (rv <? 0) = false -> fd ∈ l -> l = (if sock =? -1 then fd :: own else own) ->
     Todo l rest h -> always (f (rv, fd, target sock pid)) (Inv own msg) Q h) ->
  always (choose_fd sock pid ≫= f) (Inv own msg) Q h.
Proof.
  intros Hs HT Hf Hk. unfold choose_fd, target in *. destruct (sock =? -1) eqn:E.
  - apply always_bind. eapply connect_todo; [exact HT| |]; intros c h1 Hc.
    + intros H1. apply always_ret; [by eapply Todo_Inv|]. apply Hf; [lia|done].
    + intros _ H1. apply always_ret; [by eapply Todo_Inv|]. eapply Hk; [done|by left|done|done].
  - cbn. eapply Hk; [done|apply Hs; lia|done|done].
Qed.

Lemma close_chosen_serves {A B} sock fd l (p : prog A) (f : A -> B) h :
  l = (if sock =? -1 then fd :: own else own) -> serves l p h ->
  serves own (r ← p; close_chosen sock fd;; Ret (f r)) h.
Proof.
  intros -> Hp. unfold close_chosen. apply always_bind. eapply always_mono; [exact Hp|done|]. intros h1 a Hi Ho.
  destruct (sock =? -1).
  - apply always_bind. eapply always_mono; [by apply (close_ok own msg fd own)|done|].
    intros h2 b Hi' Ho'. by apply always_ret.
  - by apply always_ret.
Qed.

Lemma convert_serves sock pid flags res h :
  (sock <> -1 -> sock ∈ own) -> sized sizeof_resource res -> Todo own (message (QConvert sock pid flags res)) h ->
  serves own (sanlock_convert sock pid flags res) h.
Proof.
  intros Hs Hr HT. destruct res as [r|]; [|by eapply serves_out]. cbn [message default] in HT.
  rw (frame_eq _ _ _ _ _ _ (Hr _ eq_refl)) in HT. eapply choose_serves; [done|exact HT| |].
  - intros rv fd d h1 Hrv H1. rw (proj2 (Z.ltb_lt _ _) Hrv). by eapply serves_out.
  - intros rv fd l h1 -> Hfd Hl H1. eapply (close_chosen_serves _ _ _ _ (fun r => r)); [exact Hl|].
    by apply serves_frame_result.
Qed.

Lemma send_release_serves fd res_args l rest h :
  fd ∈ l -> Todo l (concat res_args ++ rest) h -> forall k, (forall h, Todo l rest h -> serves l k h) ->
  serves l (send_release fd res_args k) h.
Proof.
  intros Hfd HT k Hk. revert h HT. induction res_args as [|r rs IH]; intros h HT; [by apply Hk|].
  cbn [concat] in HT. rw -app_assoc in HT. eapply todo_send; [done|exact HT|]. auto.
Qed.

Lemma length_release res_args :
  Forall (fun r : list Z => Z.of_nat (length r) = sizeof_resource) res_args ->
  Z.of_nat (length (concat res_args)) = Z.of_nat (length res_args) * sizeof_resource.
Proof.
  induction 1 as [|r rs Hr _ IH]; [done|]. cbn [concat length]. rw length_app Nat2Z.inj_add Hr IH. lia.
Qed.

Lemma release_serves sock pid flags res_args h :
  (sock <> -1 -> sock ∈ own) -> req_ok (QRelease sock pid flags res_args) ->
  Todo own (message (QRelease sock pid flags res_args)) h ->
  serves own (sanlock_release sock pid flags res_args) h.
Proof.
  intros Hs [Hr Hb] HT. cbn [message] in HT.
  rw (frame_eq (i32 (Z.of_nat (length res_args) * sizeof_resource))) in HT.
  { rw length_release // i32_small //. change sizeof_header with 32 in *. change sizeof_resource with 128 in *. lia. }
  eapply choose_serves; [done|exact HT| |].
  - intros rv fd d h1 Hrv H1. rw (proj2 (Z.ltb_lt _ _) Hrv). by eapply serves_out.
  - intros rv fd l h1 -> Hfd Hl H1. eapply (close_chosen_serves _ _ _ _ (fun r => r)); [exact Hl|].
    eapply todo_send; [done|exact H1|]. intros h2 H2. rw -(app_nil_r (concat _)) in H2.
    eapply send_release_serves; [done|exact H2|]. intros h3 H3%Todo_Full. by apply serves_result.
Qed.

(** ** Requests that can lose the connection *)

(** Everything as before, or with [may]: a failure to send the header, of which some bytes
    are missing, and one more descriptor. *)
Definition or_leak (may : bool) (h : list event) (rv : Z) : Prop :=
  Over own own h \/
  (may = true /\ rv < 0 /\ recvd h = false /\ Z.of_nat (length (sent h)) < sizeof_header /\
   exists fd, Over own (fd :: own) h).

(** Before the header nothing has been sent. *)
Lemma header_unsent cmd flags n data data2 l rest h (h' : list event) :
  msg = sm_header cmd flags n data data2 ++ rest -> Todo l (sm_header cmd flags n data data2 ++ rest) h ->
  (length (sent h') < length (sent h) + length (sm_header cmd flags n data data2))%nat ->
  Z.of_nat (length (sent h')) < sizeof_header.
Proof.
  intros Em (_ & _ & Em') Hs. assert (length (sent h) = O) as E.
  { apply (f_equal length) in Em'. rw Em !length_app in Em'. lia. }
  pose proof (length_sm_header cmd flags n data data2). lia.
Qed.

Lemma header_nonempty cmd flags n data data2 : sm_header cmd flags n data data2 <> [].
Proof. intros E. pose proof (length_sm_header cmd flags n data data2) as H. rw E in H. done. Qed.

Lemma serves_or_leak {A} may (f : A -> Z) p h :
  serves own p h -> always p (Inv own msg) (fun h r => or_leak may h (f r)) h.
Proof. intros H. eapply always_mono; [exact H|done|]. intros h' a _ Ho. by left. Qed.

Lemma chosen_leak sock fd l h rv :
  l = (if sock =? -1 then fd :: own else own) -> rv < 0 -> Over own l h -> recvd h = false ->
  Z.of_nat (length (sent h)) < sizeof_header -> or_leak (sock =? -1) h rv.
Proof. intros -> Hrv Ho Hr Hs. destruct (sock =? -1); [right|by left]. split_and!; [done..|by exists fd]. Qed.

Lemma inquire_leaks sock pid flags h :
  msg = message (QInquire sock pid flags) -> (sock <> -1 -> sock ∈ own) -> Todo own (message (QInquire sock pid flags)) h ->
  always (sanlock_inquire sock pid flags) (Inv own msg) (fun h r => or_leak (sock =? -1) h (fst3 r)) h.
Proof.
  intros Em Hs HT. eapply choose_serves; [done|exact HT| |].
  - intros rv fd d h1 Hrv H1. rw (proj2 (Z.ltb_lt _ _) Hrv). eapply serves_or_leak, serves_out, H1.
  - intros rv fd l h1 -> Hfd Hl H1. eapply todo_header; [done|exact H1|apply header_nonempty| |].
    + intros h2 rv2 Hrv Ho Hr Hsh. eapply chosen_leak; [done..|]. by eapply header_unsent.
    + intros h2 H2%Todo_Full. eapply serves_or_leak, close_chosen_serves; [exact Hl|].
      eapply always_mono; [by apply recv_reply_ok|done|]. by intros h3 a Hi [H3 _].
Qed.

Lemma set_lvb_leaks flags res lvb h :
  msg = message (QSetLvb flags res lvb) ->
  req_ok (QSetLvb flags res lvb) -> Todo own (message (QSetLvb flags res lvb)) h ->
  always (sanlock_set_lvb flags res lvb) (Inv own msg) (or_leak true) h.
Proof.
  intros Em [Hs Hb] HT. destruct res as [r|], lvb as [b|]; try by eapply (serves_or_leak _ (fun r => r)), serves_out.
  cbn [message default sanlock_set_lvb] in *. case_match; [by eapply (serves_or_leak _ (fun r => r)), serves_out|].
  rw (frame_eq (i32 (sizeof_resource + Z.of_nat (length b)))) in HT, Em.
  { rw length_app Nat2Z.inj_add (Hs _ eq_refl) i32_small //. specialize (Hb b eq_refl).
    change sizeof_header with 32 in *. change sizeof_resource with 128 in *. lia. }
  eapply connect_todo; [exact HT| |]; intros c h1 Hc.
  - intros H1. rw Hc. eapply (serves_or_leak _ (fun r => r)), serves_out, H1.
  - intros _ H1. rw Hc. eapply todo_header; [by left|exact H1|apply header_nonempty| |].
    + intros h2 rv Hrv Ho Hr Hsh. right. split_and!; [done..|by eapply header_unsent|by exists (snd c)].
    + intros h2 H2. eapply (serves_or_leak _ (fun r => r)), serves_close. eapply todo_send; [by left|exact H2|].
      intros h3 H3. eapply todo_last; [by left|exact H3|]. intros h4 H4. apply serves_result; [by left|done].
Qed.

Lemma get_lvb_leaks flags res lvb h :
  msg = message (QGetLvb flags res lvb) ->
  req_ok (QGetLvb flags res lvb) -> Todo own (message (QGetLvb flags res lvb)) h ->
  always (sanlock_get_lvb flags res lvb) (Inv own msg) (fun h r => or_leak true h (fst r)) h.
Proof.
  intros Em Hs HT. destruct res as [r|], lvb as [b|]; try by eapply serves_or_leak, serves_out.
  cbn [message default sanlock_get_lvb] in *. case_match; [by eapply serves_or_leak, serves_out|].
  rw (frame_eq _ _ _ _ _ _ (Hs _ eq_refl)) in HT, Em. eapply connect_todo; [exact HT| |]; intros c h1 Hc.
  - intros H1. rw Hc. eapply serves_or_leak, serves_out, H1.
  - intros _ H1. rw Hc. eapply todo_header; [by left|exact H1|apply header_nonempty| |].
    + intros h2 rv Hrv Ho Hr Hsh. right. split_and!; [done..|by eapply header_unsent|by exists (snd c)].
    + intros h2 H2. eapply serves_or_leak.
      eapply (close_chosen_serves (-1) (snd c) (snd c :: own)); [done|]. eapply todo_last; [by left|exact H2|].
      intros h3 H3. eapply always_mono; [apply recv_reply_ok; [by left|exact H3]|done|]. by intros h4 a Hi [H4 _].
Qed.

Lemma acquire_datalen_eq res_args n d :
  Forall res_sized res_args -> acquire_datalen res_args n = Some d -> d = n + Z.of_nat (length (flat_map res_all res_args)).
Proof.
  intros Hr. revert n. induction Hr as [|r rs Hr _ IH]; intros n; cbn [acquire_datalen flat_map]; [intros [= <-]; cbn; lia|].
  case_match; [done|]. intros ->%IH. rw length_app Nat2Z.inj_add length_res_all //. lia.
Qed.

Lemma send_acquire_serves fd res_args l rest h :
  fd ∈ l -> Forall res_sized res_args -> Todo l (flat_map res_all res_args ++ rest) h ->
  forall k, (forall h, Todo l rest h -> serves l k h) -> serves l (send_acquire fd res_args k) h.
Proof.
  intros Hfd Hr HT k Hk. revert h HT. induction Hr as [|r rs Hr _ IH]; intros h HT; [by apply Hk|].
  cbn [flat_map send_acquire] in *. unfold res_all in HT at 1. rw -!app_assoc in HT. rw send_disks_ok //.
  eapply todo_send; [done|exact HT|]. intros h1 H1. eapply todo_send; [done|exact H1|]. auto.
Qed.

Lemma acquire_leaks sock pid flags res_args opt h :
  msg = message (QAcquire sock pid flags res_args opt) ->
  (sock <> -1 -> sock ∈ own) -> req_ok (QAcquire sock pid flags res_args opt) ->
  Todo own (message (QAcquire sock pid flags res_args opt)) h ->
  always (sanlock_acquire sock pid flags res_args opt) (Inv own msg) (or_leak (sock =? -1)) h.
Proof.
  intros Em Hs [Hr Ho] HT. unfold sanlock_acquire.
  assert (Hout : forall rest h rv, Todo own rest h -> always (Ret rv) (Inv own msg) (or_leak (sock =? -1)) h).
  { intros rest h' rv H. eapply (serves_or_leak _ (fun r => r)), serves_out, H. }
  case_match; [by eapply Hout|]. destruct (acquire_datalen res_args 0) as [d|] eqn:Hd; [|by eapply Hout].
  apply acquire_datalen_eq in Hd; [|done]. cbn [message] in HT, Em. rw (frame_eq (d + sizeof_options)) in HT, Em.
  { rw length_app Nat2Z.inj_add Hd. destruct opt as [o|]; [rw (Ho _ eq_refl)|cbn [default]; rw length_replicate]; done. }
  eapply choose_serves; [done|exact HT| |].
  - intros rv fd dd h1 Hrv H1. rw (proj2 (Z.ltb_lt _ _) Hrv). by eapply Hout.
  - intros rv fd l h1 -> Hfd Hl H1. eapply todo_header; [done|exact H1|apply header_nonempty| |].
    + intros h2 rv2 Hrv Hov Hrc Hsh. eapply chosen_leak; [done..|]. by eapply header_unsent.
    + intros h2 H2. eapply (serves_or_leak _ (fun r => r)), (close_chosen_serves _ _ _ _ (fun r => r)); [exact Hl|].
      eapply send_acquire_serves; [done|done|exact H2|]. intros h3 H3. eapply todo_last; [done|exact H3|].
      intros h4 H4. by apply serves_result.
Qed.

(** ** Requests whose result is a connection *)

Definition or_open (h : list event) (rv : Z) : Prop := if 0 <=? rv then Over own (rv :: own) h else Over own own h.

Lemma keep_open rv fd h :
  0 <= fd -> Inv own msg h -> Over own (fd :: own) h ->
  always (if rv <? 0 then close fd;; Ret rv else Ret fd) (Inv own msg) or_open h.
Proof.
  intros Hfd Hi Ho. destruct (rv <? 0) eqn:E.
  - apply always_bind. eapply always_mono; [by apply (close_ok own msg fd own)|done|]. intros h1 a Hi' Ho'.
    apply always_ret; [done|]. unfold or_open. by rw (proj2 (Z.leb_gt 0 rv)); [lia|].
  - apply always_ret; [done|]. unfold or_open. by rw (proj2 (Z.leb_le 0 fd)).
Qed.

Lemma failed_open {A} (c : Z * A) rest h : (fst c <? 0) = true -> Todo own rest h -> always (Ret (fst c)) (Inv own msg) or_open h.
Proof.
  intros Hc H. apply always_ret; [by eapply Todo_Inv|]. unfold or_open. rw (proj2 (Z.leb_gt 0 (fst c))); [lia|]. apply H.
Qed.

Lemma command_opens cmd data h :
  Todo own (message (QSendCommand cmd data)) h -> always (send_command cmd data) (Inv own msg) or_open h.
Proof.
  intros HT. eapply connect_todo; [exact HT| |]; intros c h1 Hc; [intros H1|intros H0 H1]; rw Hc; [by eapply failed_open|].
  apply always_bind. eapply always_mono; [eapply todo_only; [by left|exact H1]|done|].
  intros h2 rv Hi Ho. by apply keep_open.
Qed.

Lemma register_opens h : Todo own (message QRegister) h -> always sanlock_register (Inv own msg) or_open h.
Proof. apply (command_opens SM_CMD_REGISTER 0). Qed.

Lemma reg_event_opens n he flags h :
  sized sizeof_host_event he -> Todo own (message (QRegEvent n he flags)) h ->
  always (sanlock_reg_event n he flags) (Inv own msg) or_open h.
Proof.
  intros Hs HT. cbn [message] in HT. rw (frame_eq _ _ _ _ _ _ (length_event_payload n _ Hs)) in HT.
  destruct n as [n|]; [|apply (failed_open (- EINVAL, tt) _ _ eq_refl HT)]. cbn [default] in HT.
  eapply connect_todo; [exact HT| |]; intros c h1 Hc; [intros H1|intros H0 H1]; rw Hc; [by eapply failed_open|].
  apply always_bind, (always_mono _ (Inv own msg) _ (fun h _ => Over own (snd c :: own) h) _);
    [|done|intros h2 rv Hi Ho; by apply keep_open].
  eapply todo_send; [by left|exact H1|]. intros h2 H2. eapply todo_send; [by left|exact H2|].
  intros h3 H3. eapply todo_last; [by left|exact H3|]. intros h4 H4. apply serves_result; [by left|done].
Qed.
End Groups.

(** What holds at the return of a request: the descriptors are those of the caller, with the new connection
    when the request returns it; or the request is one of those that can lose it, and has failed before it
    waited for an answer. *)
Definition outcome (own : list Z) (q : request) (h : list event) (rv : Z) : Prop :=
  if opens q then or_open own h rv else or_leak own (leaks q) h rv.

Lemma code_leak own msg {A} may (f : A -> Z) (p : prog A) h :
  always p (Inv own msg) (fun h r => or_leak own may h (f r)) h ->
  always (code f p) (Inv own msg) (or_leak own may) h.
Proof. intros H. apply always_bind. eapply always_mono; [exact H|done|]. intros h' a Hi Ho. by apply always_ret. Qed.

Lemma rentry_frame_serves own msg cmd rx re flags data data2 h :
  sized sizeof_rindex rx -> sized sizeof_rentry re ->
  Todo own msg own (frame cmd flags data data2 (default [] rx ++ default [] re)) h ->
  always (cmd_rentry cmd (sizeof_rindex + sizeof_rentry) rx re flags data data2) (Inv own msg)
    (fun h _ => Over own own h) h.
Proof.
  intros Hx He HT. destruct rx as [x|], re as [e|]; try by eapply serves_out.
  apply rentry_serves. cbn [default] in *. rw (frame_eq (sizeof_rindex + sizeof_rentry)) in HT; [|done].
  by rw length_app Nat2Z.inj_add (Hx _ eq_refl) (He _ eq_refl).
Qed.

Lemma plain own msg may p h :
  always p (Inv own msg) (fun h _ => Over own own h) h -> always p (Inv own msg) (or_leak own may) h.
Proof. apply (serves_or_leak own msg may (fun r => r)). Qed.

Lemma code_plain own msg {A} may (f : A -> Z) (p : prog A) h :
  always p (Inv own msg) (fun h _ => Over own own h) h -> always (code f p) (Inv own msg) (or_leak own may) h.
Proof. intros H. by apply code_leak, serves_or_leak. Qed.

Lemma request_ok q own :
  req_ok q -> (forall s, on_sock q = Some s -> s ∈ own) ->
  always (do_request q) (Inv own (message q)) (outcome own q) [].
Proof.
  intros Hq Hs. assert (HT : Todo own (message q) own (message q) []) by done.
  assert (Hc : forall s, on_sock q = (if s =? -1 then None else Some s) -> s <> -1 -> s ∈ own).
  { intros s E Hn. apply Hs. rw E. by destruct (Z.eqb_spec s (-1)). }
  destruct q; unfold outcome; cbn [do_request opens leaks on_sock] in *.
  - apply command_opens, HT.
  - apply register_opens, HT.
  - apply reg_event_opens; [exact Hq|exact HT].
  - apply plain, set_event_serves; [exact Hq|exact HT].
  - unfold sanlock_add_lockspace. apply plain, lockspace_serves; [exact Hq|exact HT].
  - unfold sanlock_add_lockspace_timeout. apply plain, lockspace_serves; [exact Hq|exact HT].
  - unfold sanlock_inq_lockspace. apply plain, lockspace_serves; [exact Hq|exact HT].
  - unfold sanlock_rem_lockspace. apply plain, lockspace_serves; [exact Hq|exact HT].
  - apply code_plain, get_lockspaces_serves, HT.
  - apply code_plain, get_hosts_serves, HT.
  - apply plain, set_config_serves, HT.
  - apply plain, align_serves; [exact Hq|exact HT].
  - apply code_plain, read_lockspace_serves; [exact Hq|exact HT].
  - apply plain, write_lockspace_serves; [exact Hq|exact HT].
  - apply code_plain, read_resource_serves; [exact Hq|exact HT].
  - apply plain, write_resource_serves; [exact Hq|exact HT].
  - apply code_plain, read_owners_serves; [exact Hq|exact HT].
  - apply code_plain, version_serves, HT.
  - apply plain, restrict_serves; [by apply Hs|exact HT].
  - apply plain, killpath_serves; [by apply Hs|exact HT].
  - apply acquire_leaks; [done|by apply Hc|exact Hq|exact HT].
  - apply code_leak, inquire_leaks; [done|by apply Hc|exact HT].
  - apply plain, convert_serves; [by apply Hc|exact Hq|exact HT].
  - apply plain, release_serves; [by apply Hc|exact Hq|exact HT].
  - apply plain, request_serves; [exact Hq|exact HT].
  - apply plain, examine_serves; [exact Hq|exact HT].
  - apply set_lvb_leaks; [done|exact Hq|exact HT].
  - apply code_leak, get_lvb_leaks; [done|exact Hq|exact HT].
  - unfold sanlock_format_rindex. apply plain, rindex_serves; [exact Hq|exact HT].
  - unfold sanlock_rebuild_rindex. apply plain, rindex_serves; [exact Hq|exact HT].
  - destruct Hq as [Hx He]. unfold sanlock_update_rindex. apply code_plain, rentry_frame_serves; [exact Hx|exact He|exact HT].
  - unfold sanlock_lookup_rindex. apply code_plain, rentry_serves, HT.
  - destruct Hq as [Hx He]. unfold sanlock_create_resource. apply code_plain, rentry_frame_serves; [exact Hx|exact He|exact HT].
  - destruct Hq as [Hx He]. unfold sanlock_delete_resource. apply plain, serves_bind_ret, rentry_frame_serves; [exact Hx|exact He|exact HT].
Qed.

(** ** What the header announces *)

Lemma h_length_header cmd flags n data data2 rest :
  h_length (sm_header cmd flags n data data2 ++ rest) = u32 (sizeof_header + n).
Proof.
  unfold h_length, fld, raw, sm_header. rw -!app_assoc.
  do 4 (rw drop_app_ge; [rw length_le_split; lia|rw length_le_split]).
  cbn [Nat.sub drop]. rw take_app_le; [rw length_le_split; lia|]. rw take_ge; [rw length_le_split; lia|].
  apply le_combine_split_small. unfold u32. by apply wrapu_is_u.
Qed.

Definition is_lookup (q : request) : bool := match q with QLookupRindex _ _ _ => true | _ => false end.

Lemma message_frame q :
  is_lookup q = false -> exists cmd flags data data2 payload, message q = frame cmd flags data data2 payload.
Proof.
  destruct q; intros Hl; try done; try (cbn [message]; by eauto 6).
  cbn [message]. destruct ls as [l|]; [destruct (ls_path0 l =? 0)|]; eauto 6.
Qed.

Lemma message_announced q :
  is_lookup q = false -> Z.of_nat (length (message q)) < 2 ^ 32 -> h_length (message q) = Z.of_nat (length (message q)).
Proof.
  intros (cmd & flags & data & data2 & payload & ->)%message_frame. unfold frame.
  rw h_length_header length_app Nat2Z.inj_add length_sm_header. intros H. unfold u32, wrapu. apply Z.mod_small.
  change sizeof_header with 32 in *. lia.
Qed.

(** ** Theorems *)

(** The registered descriptor is closed, and the connection for the request too. *)
Lemma end_event_closes reg_fd own n flags :
  always (sanlock_end_event reg_fd (Some n) flags) (fun h => is_Some (fds (reg_fd :: own) h))
    (fun h _ => fds (reg_fd :: own) h = Some own) [].
Proof.
  set (m := sm_header SM_CMD_END_EVENT flags sizeof_lockspace 0 0 ++ lockspace_bytes n 0).
  set (msg := le_split 4 1 ++ m).
  assert (H : always (sanlock_end_event reg_fd (Some n) flags) (Inv (reg_fd :: own) msg)
                (fun h _ => Over (reg_fd :: own) own h) []);
    [|by eapply always_mono; [exact H|intros h [Hf _]|]].
  apply always_bind. eapply always_mono.
  { eapply (send_loop_ok (reg_fd :: own) msg _ _ _ (reg_fd :: own) []);
      [lia|by left|by split_and!; [..|apply prefix_nil]|by exists m]. }
  { done. }
  intros h rv Hi (Ho & _ & Ha & _). cbn [app] in Ha. destruct (rv <? 0) eqn:?; zbool; apply always_bind.
  - eapply always_mono; [by apply (close_ok (reg_fd :: own) msg reg_fd own)|done|].
    intros h1 a Hi1 Ho1. by apply always_ret.
  - eapply always_mono; [apply close_at, Ha; lia|done|]. intros h1 a Hi1 (Hl & Hs & Hr & _).
    assert (HT : Todo (reg_fd :: own) msg own m h1) by (split_and!; [done|done|by rw Hs]).
    eapply serves_conn; [exact HT|]. intros fd h2 H2. eapply todo_send; [by left|exact H2|].
    intros h3 H3. eapply todo_last; [by left|exact H3|]. intros h4 H4.
    apply full_bind; [apply recv_result_ok; [by left|done]|]. intros rv' h5 H5. case_match; by apply full_ret.
Qed.

(** The lookup of an index entry announces a resource in place of the smaller entry it sends. *)
Lemma lookup_announces_more rx re flags :
  Z.of_nat (length rx) = sizeof_rindex -> Z.of_nat (length re) = sizeof_rentry ->
  let m := message (QLookupRindex (Some rx) flags (Some re)) in h_length m = Z.of_nat (length m) + 64.
Proof.
  intros Hx He. cbn [message default].
  rw h_length_header length_app Nat2Z.inj_add length_sm_header length_app Nat2Z.inj_add Hx He. reflexivity.
Qed.

Lemma answered_length q :
  req_ok q -> Z.of_nat (length (message q)) < 2 ^ 32 ->
  h_length (message q) = Z.of_nat (length (message q)) + (if is_lookup q then 64 else 0) \/
  exists rv, do_request q = Ret rv.
Proof.
  intros Hq Hl. destruct (is_lookup q) eqn:Eq; [|left; rw message_announced //; lia].
  destruct q; try done. destruct rx as [rx|], re as [re|]; try by (right; eexists).
  left. destruct Hq as [Hx He]. apply lookup_announces_more; [by apply Hx|by apply He].
Qed.

(** C30: A request of the client library, whatever the socket calls answer,
    never sends to, receives from or closes a descriptor that is not open and
    never closes one twice. It returns with exactly the caller's descriptors
    open, plus the new connection where that is its result; except that acquire
    and inquire for another process, set_lvb and get_lvb may leave one
    connection open when they fail with fewer bytes sent than the header has.
    [sanlock_end_event] also closes the registered descriptor it is given, on
    every path after the check of its name. The structures that the caller
    passes are assumed to have their sizes, a registered socket that it passes
    to be open, and [sanlock_examine] to be given a resource or a lockspace with
    a path. *)
Theorem request_descriptors q (own : list Z) :
  req_ok q -> (forall s, on_sock q = Some s -> s ∈ own) ->
  always (do_request q) (fun h => is_Some (fds own h))
    (fun h rv =>
       if opens q then fds own h = Some (if 0 <=? rv then rv :: own else own)
       else fds own h = Some own \/
            (leaks q = true /\ rv < 0 /\ recvd h = false /\ Z.of_nat (length (sent h)) < sizeof_header /\
             exists fd, fds own h = Some (fd :: own))) [] /\
  forall reg_fd n flags,
    always (sanlock_end_event reg_fd (Some n) flags) (fun h => is_Some (fds (reg_fd :: own) h))
      (fun h _ => fds (reg_fd :: own) h = Some own) [].
Proof.
  intros Hq Hs. split; [|intros; apply end_event_closes].
  eapply always_mono; [by apply request_ok|by intros h [H _]|].
  intros h rv _. unfold outcome, or_open, or_leak, Over. by destruct (opens q); [destruct (0 <=? rv)|].
Qed.

(** C31: What a request of the client library sends is, at every moment, the
    beginning of one message, a header and the structures of the request; and
    when it waits for an answer it has sent all of it, with the length field of
    the header equal to the number of bytes sent, except for
    [sanlock_lookup_rindex], whose header announces 64 bytes more than it sends.
    The structures that the caller passes are assumed to have their sizes, a
    registered socket that it passes to be open, the message to have less than
    2^32 bytes, and [sanlock_examine] to be given a resource or a lockspace with
    a path; [sanlock_end_event] is not covered. *)
Theorem request_framing q (own : list Z) :
  req_ok q -> (forall s, on_sock q = Some s -> s ∈ own) -> Z.of_nat (length (message q)) < 2 ^ 32 ->
  always (do_request q)
    (fun h => sent h `prefix_of` message q /\
       (recvd h = true -> sent h = message q /\
          h_length (sent h) = Z.of_nat (length (sent h)) + (if is_lookup q then 64 else 0)))
    (fun _ _ => True) [].
Proof.
  intros Hq Hs Hl. destruct (answered_length q Hq Hl) as [Hlen|[rv ->]].
  - eapply always_mono; [by apply request_ok| |done].
    intros h (_ & Hp & Hr). split; [done|]. intros H%Hr. by rw H.
  - apply always_ret; [|done]. split; [apply prefix_nil|done].
Qed.

(** ** Connections that are lost *)

(** The requests that go past the tests of their arguments. *)
Definition accepted (q : request) : bool :=
  match q with
  | QAcquire _ _ _ l _ => (Z.of_nat (length l) <=? SANLK_MAX_RESOURCES) && bool_decide (is_Some (acquire_datalen l 0))
  | QSetLvb _ (Some _) (Some b) | QGetLvb _ (Some _) (Some b) => negb (Z.of_nat (length b) =? 0)
  | QSetLvb _ _ _ | QGetLvb _ _ _ => false
  | _ => true
  end.

(** The daemon is connected to, but nothing can be sent: as after it has closed its end. *)
Definition unsent : env := fun _ X c x =>
  resp_ok c x /\
  match c in cmd X return X -> Prop with
  | CSock (SSend _ _) => fun r => fst r < 0
  | CSock SSocket => fun r => 0 <= fst r
  | CSock SAddress => fun r => 0 <= fst r
  | CSock (SConnect _) => fun r => 0 <= fst r
  | _ => fun _ => True
  end x.

Lemma unsent_connect own {A} (f : Z * Z -> prog A) (Q : list event -> A -> Prop) :
  (forall c h, (fst c <? 0) = false -> fds own h = Some (snd c :: own) -> always_in unsent (f c) (fun _ => True) Q h) ->
  always_in unsent (connect_socket ≫= f) (fun _ => True) Q [].
Proof.
  intros Hf. apply always_bind, always_bind, always_call; [done|]. intros [s b] [_ Hs]. split; [done|].
  cbn [fst] in *. rw (proj2 (Z.ltb_ge s 0) Hs).
  apply always_bind, always_call; [done|]. intros [a b'] [_ Ha]. split; [done|]. cbn [fst] in *.
  rw (proj2 (Z.ltb_ge a 0) Ha).
  apply always_bind, always_call; [done|]. intros [c b''] [_ Hc]. split; [done|]. cbn [fst] in *.
  rw (proj2 (Z.ltb_ge c 0) Hc). apply always_ret; [done|]. apply Hf; [done|]. cbn.
  rw (proj2 (Z.ltb_ge s 0) Hs). cbn. by rw bool_decide_true; [left|].
Qed.

Lemma unsent_header own {A} fd cmd flags n data data2 l (out : Z -> A) k (Q : list event -> A -> Prop) h :
  fd ∈ l -> fds own h = Some l -> (forall h rv, rv < 0 -> fds own h = Some l -> Q h (out rv)) ->
  always_in unsent (or_out (send_header fd cmd flags n data data2) out k) (fun _ => True) Q h.
Proof.
  intros Hfd Hl HQ. apply always_bind, always_bind, always_call; [done|]. intros [rv b] [_ Hrv]. split; [done|].
  cbn [fst] in *. rw (proj2 (Z.ltb_lt rv 0) Hrv). apply always_ret; [done|]. rw (proj2 (Z.ltb_lt rv 0) Hrv).
  apply always_ret; [done|]. apply HQ; [done|]. rw (fds_app _ _ _ _ Hl). cbn. by rw bool_decide_true.
Qed.

(** C23: When the header of a request cannot be sent, four requests lose their
    connection. If the connection to the daemon is made but every send on it
    fails, then acquire and inquire for another process (without a registered
    socket), and set_lvb and get_lvb, whose arguments pass their checks, return
    the error and leave one more descriptor open than the caller had. *)
Theorem unsent_request_leaks q own :
  leaks q = true -> accepted q = true ->
  always_in unsent (do_request q) (fun _ => True) (fun h rv => rv < 0 /\ exists fd, fds own h = Some (fd :: own)) [].
Proof.
  intros Hl Ha.
  assert (Hend : forall fd h rv, rv < 0 -> fds own h = Some (fd :: own) ->
    rv < 0 /\ exists fd, fds own h = Some (fd :: own)) by eauto.
  destruct q; try done; cbn [leaks accepted do_request] in *.
  - unfold sanlock_acquire, choose_fd. apply andb_true_iff in Ha as [Hn Hd%bool_decide_eq_true]. apply Z.leb_le in Hn.
    rw (proj2 (Z.ltb_ge _ _) Hn). destruct Hd as [d ->]. rw Hl. apply always_bind, (unsent_connect own).
    intros c h Hc Hf. apply always_ret; [done|]. rw Hc. eapply unsent_header; [|exact Hf|apply Hend]. by left.
  - apply always_bind. unfold sanlock_inquire, choose_fd. rw Hl. apply always_bind, (unsent_connect own).
    intros c h Hc Hf. apply always_ret; [done|]. rw Hc. eapply unsent_header; [by left|exact Hf|].
    intros h' rv Hrv Hf'. apply always_ret; [done|]. by eapply Hend.
  - destruct res as [r|], lvb as [b|]; try done. cbn [sanlock_set_lvb]. apply negb_true_iff in Ha. rw Ha.
    apply (unsent_connect own). intros c h Hc Hf. rw Hc. eapply unsent_header; [|exact Hf|apply Hend]. by left.
  - destruct res as [r|], lvb as [b|]; try done. cbn [sanlock_get_lvb]. apply negb_true_iff in Ha.
    apply always_bind. rw Ha. apply (unsent_connect own). intros c h Hc Hf. rw Hc.
    eapply unsent_header; [by left|exact Hf|]. intros h' rv Hrv Hf'. apply always_ret; [done|]. by eapply Hend.
Qed.

(** An owner that does not keep the lease from being acquired: a host that is gone from the
    lockspace, or was restarted, or is free or dead. *)
Definition owner_gone (hosts : list sanlk_host) (o : sanlk_host) : Prop :=
  forall h, find_host o hosts = Some h ->
    o.(sh_generation) < h.(sh_generation) \/
    (o.(sh_generation) = h.(sh_generation) /\
     (Z.land h.(sh_flags) SANLK_HOST_MASK = 2 \/ Z.land h.(sh_flags) SANLK_HOST_MASK = 5)).

Lemma test_owner_gone hosts o : test_owner o hosts = Some false <-> owner_gone hosts o.
Proof.
  unfold test_owner, owner_gone. destruct (find_host o hosts) as [h|]; [|done].
  split.
  - intros H h' [= <-]. revert H.
    destruct (sh_generation o <? sh_generation h) eqn:E1; [lia|].
    destruct (sh_generation h <? sh_generation o) eqn:E2; [done|]. cbn zeta.
    destruct (Z.land (sh_flags h) SANLK_HOST_MASK =? 2) eqn:E3; [lia|].
    destruct (Z.land (sh_flags h) SANLK_HOST_MASK =? 5) eqn:E4; [lia|]. cbn [orb]. by case_match.
  - intros H. specialize (H h eq_refl). cbn zeta. destruct H as [H|[H Hf]].
    + by rw (proj2 (Z.ltb_lt _ _) H).
    + rw H Z.ltb_irrefl. by destruct Hf as [-> | ->].
Qed.

Lemma test_owners_gone hosts owners b :
  test_owners owners hosts b = Some false <-> b = false /\ Forall (owner_gone hosts) owners.
Proof.
  revert b. induction owners as [|o os IH]; intros b; cbn [test_owners].
  { split; [intros [= ->]; done|by intros [-> _]]. }
  rw list.Forall_cons -test_owner_gone. destruct (test_owner o hosts) as [f|]; [|split; [done|by intros (_ & ? & _)]].
  rw IH. destruct b, f; cbn; intuition congruence.
Qed.

(** The test of the owners of a resource says that nothing keeps it from being acquired
    exactly when every owner is a host that is not in the lockspace, has been
    restarted since, or is free or dead. *)
Theorem test_owners_exact owners hosts :
  sanlock_test_resource_owners owners hosts = (0, 0) <-> Forall (owner_gone hosts) owners.
Proof.
  pose proof (test_owners_gone hosts owners false) as H. unfold sanlock_test_resource_owners.
  destruct (test_owners owners hosts false) as [[]|].
  - split; [done|]. intros HF. by destruct H as [_ H']; discriminate H'.
  - by intuition.
  - split; [done|]. intros HF. by destruct H as [_ H']; discriminate H'.
Qed.

(** ** Witnesses *)

(** A resource with one disk, asked for on the registered connection 7. *)
Definition demo_res : res_ptr := (zeros 124 ++ le_split 4 1, zeros 1040).
Definition demo_acquire (sock : Z) : request := QAcquire sock 5 0 [demo_res] None.

Lemma demo_req_ok sock : req_ok (demo_acquire sock).
Proof.
  split; [|by intros b]. apply list.Forall_singleton. split; [reflexivity|]. split.
  { cbn [fst demo_res]. apply Forall_app. split; [by apply Forall_replicate|apply le_split_ok]. }
  split; [by apply Z.leb_le; vm_compute|]. by split.
Qed.

Lemma request_descriptors_witness :
  always (do_request (demo_acquire 7)) (fun h => is_Some (fds [7] h))
    (fun h rv => fds [7] h = Some [7] \/
       (false = true /\ rv < 0 /\ recvd h = false /\ Z.of_nat (length (sent h)) < sizeof_header /\
        exists fd, fds [7] h = Some [fd; 7])) [].
Proof.
  apply (request_descriptors (demo_acquire 7) [7]); [apply demo_req_ok|]. intros s [= <-]. by left.
Defined.

Lemma request_framing_witness :
  always (do_request (demo_acquire 7))
    (fun h => sent h `prefix_of` message (demo_acquire 7) /\
       (recvd h = true -> sent h = message (demo_acquire 7) /\
          h_length (sent h) = Z.of_nat (length (sent h)) + 0))
    (fun _ _ => True) [].
Proof.
  apply (request_framing (demo_acquire 7) [7]); [apply demo_req_ok| |reflexivity]. intros s [= <-]. by left.
Defined.

Lemma unsent_request_leaks_witness :
  always_in unsent (do_request (demo_acquire (-1))) (fun _ => True)
    (fun h rv => rv < 0 /\ exists fd, fds [] h = Some [fd]) [].
Proof. apply (unsent_request_leaks (demo_acquire (-1)) []); reflexivity. Defined.
