(* ===== verification/ClientStrings.v ===== *)
(** * Resources and lockspaces as strings ([src/src/client.c])

    The part of the client library that converts resources to strings
    ([sanlock_res_to_str], [sanlock_args_to_state]) and back ([sanlock_str_to_res],
    [sanlock_state_to_args]), with the escaping of paths. A [char *] argument is the
    list of the characters before its NUL; arrays of structures keep all their
    bytes. A write outside of an array, and a string that is read beyond the
    array it is in, is [Ub]. *)

From S2P Require Import Prelude OnDisk Io DeltaLease.

Definition SANLK_NAME_LEN : nat := 48.
Definition SANLK_PATH_LEN : nat := 1024.
Definition SANLK_MAX_DISKS : Z := 4.
Definition SANLK_MAX_RES_STR : Z := 4400.
Definition RES_LVER : Z := 0x1.
Definition RES_SHARED : Z := 0x4.
Definition ENXIO : Z := 6.

Definition backslash : Z := 92.
Definition colon : Z := 58.
Definition blank : Z := 32.

(** [strlen] *)
Definition strlen (s : list Z) : Z := Z.of_nat (length s).

(** ** Numbers *)

(** ["%llu"] *)
Fixpoint print_rev (n : nat) (v : Z) : list Z :=
  match n with
  | O => []
  | S n => (48 + v mod 10) :: (if v <? 10 then [] else print_rev n (v / 10))
  end.
Definition print_llu (v : Z) : list Z := rev (print_rev 20 v).

Definition is_space (c : Z) : bool := (c =? 32) || (9 <=? c) && (c <=? 13).

Definition digit (base c : Z) : option Z :=
  let v := if (48 <=? c) && (c <=? 57) then c - 48
           else if (97 <=? c) && (c <=? 122) then c - 87
           else if (65 <=? c) && (c <=? 90) then c - 55 else 36 in
  if v <? base then Some v else None.

Fixpoint skip_spaces (s : list Z) : list Z :=
  match s with c :: s' => if is_space c then skip_spaces s' else s | [] => [] end.

(** The digits at the head, after [acc]. *)
Fixpoint digits (base : Z) (s : list Z) (acc : Z) : Z :=
  match s with
  | c :: s' => match digit base c with Some d => digits base s' (acc * base + d) | None => acc end
  | [] => acc
  end.

(** The base and the rest, for the base 0 of [strtoull]. *)
Definition base_prefix (base : Z) (s : list Z) : Z * list Z :=
  if base =? 0 then
    match s with
    | z :: s' =>
        if z =? 48 then
          match s' with
          | x :: d :: s'' =>
              if ((x =? 120) || (x =? 88)) && bool_decide (is_Some (digit 16 d)) then (16, d :: s'') else (8, s)
          | _ => (8, s)
          end
        else (10, s)
    | [] => (10, s)
    end
  else (base, s).

Definition sign (s : list Z) : bool * list Z :=
  match s with
  | c :: s' => if c =? 45 then (true, s') else if c =? 43 then (false, s') else (false, s)
  | [] => (false, [])
  end.

(** Sign, magnitude; [None] when there are no digits. *)
Definition scan_number (base : Z) (s : list Z) : option (bool * Z) :=
  let '(neg, s) := sign (skip_spaces s) in
  let '(base, s) := base_prefix base s in
  match s with
  | c :: _ => match digit base c with Some _ => Some (neg, digits base s 0) | None => None end
  | [] => None
  end.

(** [strtoull] and ["%llu"] of [sscanf], without a number [None]. *)
Definition scan_llu (base : Z) (s : list Z) : option Z :=
  match scan_number base s with
  | None => None
  | Some (neg, v) => Some (if 2 ^ 64 <=? v then 2 ^ 64 - 1 else if (neg : bool) then u64 (- v) else v)
  end.
Definition strtoull (s : list Z) (base : Z) : Z := default 0 (scan_llu base s).

(** [atoll], converted to [uint64_t]. *)
Definition atoll (s : list Z) : Z :=
  match scan_number 10 s with
  | None => 0
  | Some (neg, v) => if (neg : bool) then u64 (- (v `min` 2 ^ 63)) else v `min` (2 ^ 63 - 1)
  end.

(** ** Paths *)

(** The loop of [sanlock_path_export] from position [j] of [dst] on. An escape at the
    end of [src] takes the NUL after it. *)
Fixpoint export_loop (dstlen j : Z) (src : list Z) : list Z :=
  match src with
  | [] => []
  | c :: src' =>
      if c =? backslash then
        if u64 (dstlen - 3) <? j then []
        else match src' with
             | [] => [backslash]
             | d :: src'' => backslash :: d :: export_loop dstlen (j + 2) src''
             end
      else if (c =? blank) || (c =? colon) then
        if u64 (dstlen - 3) <? j then [] else backslash :: c :: export_loop dstlen (j + 2) src'
      else if u64 (dstlen - 2) <? j then []
      else c :: export_loop dstlen (j + 1) src'
  end.

Definition sanlock_path_export (src : list Z) (dstlen : Z) : list Z := export_loop dstlen 0 src.

(** The loop of [sanlock_path_import]: what it returns and the bytes it stores. *)
Fixpoint import_loop (dstlen j : Z) (src : list Z) : Z * list Z :=
  match src with
  | [] => if j <? dstlen then (j, [0]) else (0, [])
  | c :: src' =>
      if j <? dstlen then
        if c =? backslash then import_loop dstlen j src'
        else let '(rv, bs) := import_loop dstlen (j + 1) src' in (rv, c :: bs)
      else (0, [])
  end.

Definition sanlock_path_import (src : list Z) (dst : list Z) : Z * list Z :=
  let '(rv, bs) := import_loop (strlen dst) 0 src in (rv, bs ++ drop (length bs) dst).

(** ** Resources *)

Record sanlk_disk := Disk {
  dk_path : list Z;
  dk_offset : Z
}.

Record sanlk_res := Res {
  rr_lockspace_name : list Z;
  rr_name : list Z;
  rr_lver : Z;
  rr_flags : Z;
  rr_disks : list sanlk_disk
}.

#[export] Instance sanlk_disk_eq_dec : EqDecision sanlk_disk.
Proof. solve_decision. Defined.
#[export] Instance sanlk_res_eq_dec : EqDecision sanlk_res.
Proof. solve_decision. Defined.

(** The string in an array, which has to have a NUL. *)
Definition array_str (a : list Z) : prog (list Z) :=
  if strlen (cstr a) <? strlen a then Ret (cstr a) else Ub.

(** The text of the disks from position [pos] on: [None] when it does not fit. *)
Fixpoint disks_text (disks : list sanlk_disk) (pos : Z) : prog (option (list Z)) :=
  match disks with
  | [] => Ret (Some [])
  | d :: disks =>
      p ← array_str d.(dk_path);
      let text := colon :: sanlock_path_export p (Z.of_nat SANLK_PATH_LEN + 1) ++ colon :: print_llu d.(dk_offset) in
      if SANLK_MAX_RES_STR - pos <=? strlen text then Ret None
      else
        o ← disks_text disks (pos + strlen text);
        Ret (match o with Some rest => Some (text ++ rest) | None => None end)
  end.

(** The last part: [snprintf] stores one character less than the room left, and a
    text that just fills it is not refused. *)
Definition lver_text (res : sanlk_res) (pos : Z) : option (list Z) :=
  let text := if has_flag res.(rr_flags) RES_SHARED then [colon; 83; 72] else colon :: print_llu res.(rr_lver) in
  let room := SANLK_MAX_RES_STR - pos in
  if room <? strlen text then None else Some (take (Z.to_nat (room - 1)) text).

Definition sanlock_res_to_str (res : option sanlk_res) : prog (Z * option (list Z)) :=
  match res with
  | None => Ret (- EINVAL, None)
  | Some res =>
      ok ← call (CMalloc (SANLK_MAX_RES_STR + 1));
      if negb ok then Ret (- ENOMEM, None)
      else
        ls ← array_str res.(rr_lockspace_name);
        nm ← array_str res.(rr_name);
        let names := ls ++ colon :: nm in
        if SANLK_MAX_RES_STR <=? strlen names then Ret (- EINVAL, None)
        else
          o ← disks_text res.(rr_disks) (strlen names);
          match o with
          | None => Ret (- EINVAL, None)
          | Some disks =>
              match lver_text res (strlen (names ++ disks)) with
              | None => Ret (- EINVAL, None)
              | Some lver => Ret (0, Some (names ++ disks ++ lver))
              end
          end
  end.

(** The separators that no escape precedes. *)
Fixpoint count_sep (sep : Z) (s : list Z) : Z :=
  match s with
  | [] => 0
  | c :: s' =>
      if c =? backslash then match s' with [] => 0 | _ :: s'' => count_sep sep s'' end
      else if c =? sep then 1 + count_sep sep s'
      else count_sep sep s'
  end.

(** The locals of [sanlock_str_to_res]. *)
Record parse_state := Parse {
  ps_res : sanlk_res;
  ps_d : nat;
  ps_sub_count : Z
}.

Definition set_path (sub : list Z) (d : sanlk_disk) : sanlk_disk :=
  Disk (strncpy (SANLK_PATH_LEN - 1) sub ++ drop (SANLK_PATH_LEN - 1) d.(dk_path)) d.(dk_offset).
Definition set_disk_offset (v : Z) (d : sanlk_disk) : sanlk_disk := Disk d.(dk_path) v.

(** A change of [res->disks[d]]. *)
Definition with_disk (f : sanlk_disk -> sanlk_disk) (d : nat) (res : sanlk_res) : prog sanlk_res :=
  match res.(rr_disks) !! d with
  | None => Ub
  | Some dk => Ret (Res res.(rr_lockspace_name) res.(rr_name) res.(rr_lver) res.(rr_flags) (<[d := f dk]> res.(rr_disks)))
  end.

(** The text of a field. [None]: the string is refused. *)
Definition parse_sub (have_lver : bool) (num_disks : nat) (sub : list Z) (ps : parse_state) : prog (option parse_state) :=
  let n := ps.(ps_sub_count) in
  let res := ps.(ps_res) in
  let next res d := Ret (Some (Parse res d (n + 1))) in
  if (n <? 2) && (Z.of_nat SANLK_NAME_LEN <? strlen sub) then Ret None
  else if (2 <=? n) && ((Z.of_nat SANLK_PATH_LEN - 1 <? strlen sub) || (strlen sub <? 1)) then Ret None
  else if n =? 0 then
    next (Res (strncpy SANLK_NAME_LEN sub) res.(rr_name) res.(rr_lver) res.(rr_flags) res.(rr_disks)) ps.(ps_d)
  else if n =? 1 then
    next (Res res.(rr_lockspace_name) (strncpy SANLK_NAME_LEN sub) res.(rr_lver) res.(rr_flags) res.(rr_disks)) ps.(ps_d)
  else if Z.even n then
    if have_lver && Nat.eqb ps.(ps_d) num_disks then
      if strncmp_eq 2 sub [83; 72] then
        next (Res res.(rr_lockspace_name) res.(rr_name) res.(rr_lver) (Z.lor res.(rr_flags) RES_SHARED) res.(rr_disks)) ps.(ps_d)
      else
        next (Res res.(rr_lockspace_name) res.(rr_name) (strtoull sub 0) (Z.lor res.(rr_flags) RES_LVER) res.(rr_disks)) ps.(ps_d)
    else res ← with_disk (set_path sub) ps.(ps_d) res; next res ps.(ps_d)
  else
    match scan_llu 10 sub with
    | None => Ret None
    | Some v => res ← with_disk (set_disk_offset v) ps.(ps_d) res; next res (S ps.(ps_d))
    end.

(** The loop over the string; [sub] is the field so far. *)
Fixpoint parse_loop (have_lver : bool) (num_disks : nat) (str sub : list Z) (ps : parse_state) : prog (option parse_state) :=
  match str with
  | [] => parse_sub have_lver num_disks sub ps
  | c :: s =>
      if c =? backslash then
        match s with
        | [] => Ret None
        | d :: s' =>
            if Z.of_nat SANLK_PATH_LEN <=? strlen sub then Ret None
            else parse_loop have_lver num_disks s' (sub ++ [d]) ps
        end
      else if negb (c =? colon) then
        if Z.of_nat SANLK_PATH_LEN <=? strlen sub then Ret None
        else parse_loop have_lver num_disks s (sub ++ [c]) ps
      else
        o ← parse_sub have_lver num_disks sub ps;
        match o with
        | None => Ret None
        | Some ps => parse_loop have_lver num_disks s [] ps
        end
  end.

Definition disk_zero : sanlk_disk := Disk (zeros SANLK_PATH_LEN) 0.
Definition res_zero (num_disks : nat) : sanlk_res :=
  Res (zeros SANLK_NAME_LEN) (zeros SANLK_NAME_LEN) 0 0 (replicate num_disks disk_zero).

Definition sanlock_str_to_res (str : list Z) : prog (Z * option sanlk_res) :=
  if strlen str <? 3 then Ret (- ENXIO, None)
  else
    let colons := count_sep colon str in
    if (colons =? 0) || (colons =? 2) then Ret (-1, None)
    else
      let num_disks := Z.to_nat ((colons - 1) / 2) in
      let have_lver := nz ((colons - 1) mod 2) in
      if SANLK_MAX_DISKS <? Z.of_nat num_disks then Ret (-2, None)
      else
        ok ← call (CMalloc (128 + Z.of_nat num_disks * 1040));
        if negb ok then Ret (- ENOMEM, None)
        else
          o ← parse_loop have_lver num_disks str [] (Parse (res_zero num_disks) 0 0);
          Ret (match o with Some ps => (0, Some ps.(ps_res)) | None => (-1, None) end).

(** ** Lists of resources *)

(** The loop of [sanlock_args_to_state]; [state] is the text so far, in [size] bytes. *)
Fixpoint args_loop (size : Z) (args : list sanlk_res) (first : bool) (state : list Z) : prog (Z * option (list Z)) :=
  match args with
  | [] => Ret (0, Some state)
  | res :: args =>
      r ← sanlock_res_to_str (Some res);
      match r with
      | (rv, Some str) =>
          if rv <? 0 then Ret (rv, None)
          else if SANLK_MAX_RES_STR - 1 <? strlen str then Ret (- EINVAL, None)
          else
            let state := state ++ (if first then [] else [blank]) ++ str in
            if size <=? strlen state then Ub else args_loop size args false state
      | (rv, None) => Ret (rv, None)
      end
  end.

Definition sanlock_args_to_state (args : list sanlk_res) : prog (Z * option (list Z)) :=
  let size := Z.of_nat (length args) * (SANLK_MAX_RES_STR + 1) in
  ok ← call (CMalloc size);
  if negb ok then Ret (- ENOMEM, None) else args_loop size args true [].

(** [str[j++] = c] in the array of the resource. *)
Definition push (str : list Z) (c : Z) : prog (list Z) :=
  if strlen str <? SANLK_MAX_RES_STR + 1 then Ret (str ++ [c]) else Ub.

(** The result: the code, [*res_count] and the resources when they are assigned. *)
Definition state_result : Type := Z * Z * option (list sanlk_res).

(** A resource is complete: the rest of the loop goes on with [more]. *)
Definition state_res (count : Z) (str : list Z) (args : list sanlk_res) (more : list sanlk_res -> prog state_result)
    : prog state_result :=
  if SANLK_MAX_RES_STR <? strlen str then Ub
  else
    r ← sanlock_str_to_res str;
    match r with
    | (rv, Some res) =>
        if rv <? 0 then Ret (rv, count, None)
        else if Z.of_nat (length args) =? count then Ret (rv, count, None)
        else more (args ++ [res])
    | (rv, None) => Ret (rv, count, None)
    end.

Fixpoint state_loop (count : Z) (s str : list Z) (escape : bool) (sep_colons : Z) (args : list sanlk_res) : prog state_result :=
  match s with
  | [] => state_res count str args (fun args => Ret (0, Z.of_nat (length args), Some args))
  | c :: s =>
      if c =? backslash then
        str ← push str c; state_loop count s str true sep_colons args
      else if escape then
        str ← push str c; state_loop count s str false sep_colons args
      else if (c =? blank) && (sep_colons <? 3) then
        str ← push str backslash; str ← push str c; state_loop count s str escape sep_colons args
      else if negb (c =? blank) then
        str ← push str c;
        state_loop count s str escape (if c =? colon then sep_colons + 1 else sep_colons) args
      else state_res count str args (state_loop count s [] escape 0)
  end.

Definition sanlock_state_to_args (state : list Z) : prog state_result :=
  let count := 1 + count_sep blank state in
  ok ← call (CMalloc (count * 8));
  if negb ok then Ret (- ENOMEM, count, None) else state_loop count state [] false 0 [].

(** ** Lockspaces *)

(** At most [n] splits, at the first colons that no escape precedes. *)
Fixpoint split_colons (n : nat) (s cur : list Z) : list (list Z) :=
  match s with
  | [] => [cur]
  | c :: s' =>
      if c =? backslash then
        match s' with [] => [cur ++ [c]] | d :: s'' => split_colons n s'' (cur ++ [c; d]) end
      else if c =? colon then
        match n with O => split_colons O s' (cur ++ [c]) | S n => cur :: split_colons n s' [] end
      else split_colons n s' (cur ++ [c])
  end.

Definition sanlock_str_to_lockspace (str : option (list Z)) (ls : sanlk_lockspace) : Z * sanlk_lockspace :=
  match str with
  | None => (- EINVAL, ls)
  | Some str =>
      let fields := split_colons 3 str [] in
      let d := ls.(ls_host_id_disk) in
      let path := match fields !! 2%nat with Some p => snd (sanlock_path_import p d.(sd_path)) | None => d.(sd_path) end in
      let offset := match fields !! 3%nat with Some o => atoll o | None => d.(sd_offset) end in
      (0, Lockspace (strncpy SANLK_NAME_LEN (default [] (fields !! 0%nat)))
            (match fields !! 1%nat with Some h => atoll h | None => ls.(ls_host_id) end) ls.(ls_flags)
            (SyncDisk path offset d.(sd_sector_size) d.(sd_fd)))
  end.
