(* ===== verification/ClientCodec.v ===== *)
(** * Resources and lockspaces as strings: round trips and safety

    Numbers, escaped paths, resources and lists of resources are read back as they were
    written; no string makes the parser of a resource leave its arrays; and what
    happens to strings that are too long or have backslashes of their own. *)

From S2P Require Import Prelude OnDisk Io DeltaLease ClientStrings.

(** ** Numbers *)

Lemma digit_dec d : 0 <= d < 10 -> digit 10 (48 + d) = Some d.
Proof.
  intros H. unfold digit. rw (proj2 (Z.leb_le 48 _)); [lia|]. rw (proj2 (Z.leb_le (48 + d) 57)); [lia|]. cbn [andb].
  rw (proj2 (Z.ltb_lt _ _)); [lia|]. f_equal. lia.
Qed.

Lemma digits_print_rev n v t acc :
  0 <= v < 10 ^ Z.of_nat n -> (0 < n)%nat ->
  digits 10 (rev (print_rev n v) ++ t) acc = digits 10 t (acc * 10 ^ Z.of_nat (length (print_rev n v)) + v).
Proof.
  revert v t acc. induction n as [|n IH]; intros v t acc Hv Hn; [lia|]. cbn [print_rev]. cbn [rev]. rw -app_assoc.
  pose proof (Z.mod_pos_bound v 10 ltac:(lia)) as Hm. pose proof (Z.div_mod v 10 ltac:(lia)) as Hd.
  destruct (Z.ltb_spec v 10).
  - cbn [rev app length digits]. rw digit_dec //. f_equal. change (10 ^ Z.of_nat 1) with 10.
    rw Z.mod_small; lia.
  - assert (Hb : 0 <= v / 10 < 10 ^ Z.of_nat n).
    { split; [apply Z.div_pos; lia|]. apply Z.div_lt_upper_bound; [lia|]. rw Nat2Z.inj_succ Z.pow_succ_r in Hv; lia. }
    destruct n as [|n]; [change (10 ^ Z.of_nat 0) with 1 in Hb; lia|]. rw IH //; [lia|]. cbn [app digits]. rw digit_dec //. f_equal. cbn [length].
    rw [Z.of_nat (S (length _))]Nat2Z.inj_succ Z.pow_succ_r; [lia|]. lia.
Qed.

Definition is_digit (c : Z) : Prop := 48 <= c <= 57.

Lemma print_rev_digits n v : Forall is_digit (print_rev n v).
Proof.
  revert v. induction n as [|n IH]; intros v; cbn [print_rev]; [done|].
  pose proof (Z.mod_pos_bound v 10 ltac:(lia)). constructor; [unfold is_digit; lia|]. by destruct (v <? 10).
Qed.

Lemma print_rev_length n v : (length (print_rev n v) <= n)%nat.
Proof. revert v. induction n as [|n IH]; intros v; cbn [print_rev]; [done|]. destruct (v <? 10); cbn; [lia|]. specialize (IH (v / 10)). lia. Qed.

(** The first digit is not 0, except of 0. *)
Lemma print_rev_head n v :
  0 < v < 10 ^ Z.of_nat n -> exists c l, rev (print_rev n v) = c :: l /\ 49 <= c <= 57.
Proof.
  revert v. induction n as [|n IH]; intros v Hv; [change (10 ^ Z.of_nat 0) with 1 in Hv; lia|]. cbn [print_rev].
  destruct (Z.ltb_spec v 10).
  - exists (48 + v), []. cbn. rw Z.mod_small; [lia|]. split; [done|lia].
  - destruct (IH (v / 10)) as (c & l & E & Hc).
    { split; [apply Z.div_str_pos; lia|]. apply Z.div_lt_upper_bound; [lia|]. rw Nat2Z.inj_succ Z.pow_succ_r in Hv; lia. }
    exists c, (l ++ [48 + v mod 10]). cbn [rev]. by rw E.
Qed.

Lemma print_digits v : Forall is_digit (print_llu v).
Proof. apply Forall_rev, print_rev_digits. Qed.

Lemma print_length v : (0 < length (print_llu v) <= 20)%nat.
Proof. unfold print_llu. rw length_rev. split; [|apply print_rev_length]. cbn [print_rev]. cbn. lia. Qed.

Lemma print_cons v : 0 <= v < 2 ^ 64 -> exists c l, print_llu v = c :: l /\ is_digit c /\ (c = 48 -> v = 0 /\ l = []).
Proof.
  intros Hv. destruct (decide (v = 0)) as [-> |].
  - exists 48, []. split; [done|]. split; [unfold is_digit; lia|done].
  - destruct (print_rev_head 20 v) as (c & l & E & Hc); [split; [lia|]; change (10 ^ Z.of_nat 20) with 100000000000000000000; lia|].
    exists c, l. split; [done|]. unfold is_digit. split; [lia|lia].
Qed.

Lemma digits_print v : 0 <= v < 2 ^ 64 -> digits 10 (print_llu v) 0 = v.
Proof.
  intros Hv. unfold print_llu. rw -(app_nil_r (rev _)) digits_print_rev; [|lia|cbn [digits]; lia].
  split; [lia|]. change (10 ^ Z.of_nat 20) with 100000000000000000000. lia.
Qed.

Lemma digit_not_special c : is_digit c -> is_space c = false /\ (c =? 45) = false /\ (c =? 43) = false.
Proof. unfold is_digit, is_space. intros H. repeat split; lia. Qed.

(** What ["%llu"] prints is read back, in base 10 and when the base is told by the text. *)
Lemma scan_print base v : 0 <= v < 2 ^ 64 -> base = 10 \/ base = 0 -> scan_llu base (print_llu v) = Some v.
Proof.
  intros Hv Hb. pose proof (digits_print v Hv) as Hd. destruct (print_cons v Hv) as (c & l & E & Hc & H0).
  unfold scan_llu, scan_number. rw E. cbn [skip_spaces]. destruct (digit_not_special c Hc) as (-> & H45 & H43).
  unfold sign. rw H45 H43.
  assert (Hdig : digit 10 c = Some (c - 48)).
  { replace c with (48 + (c - 48)) at 1 by lia. apply digit_dec. unfold is_digit in Hc. lia. }
  destruct (decide (c = 48)) as [-> |Hne].
  { destruct (H0 eq_refl) as [-> ->]. by destruct Hb as [-> | ->]. }
  assert (base_prefix base (c :: l) = (10, c :: l)) as ->.
  { unfold base_prefix. destruct Hb as [-> | ->]; [done|]. cbn [Z.eqb].
    by apply Z.eqb_neq in Hne as ->. }
  rw Hdig. rw -E Hd. destruct (Z.leb_spec (2 ^ 64) v); [lia|done].
Qed.

(** ** Paths *)

Definition special (c : Z) : bool := (c =? blank) || (c =? colon).

(** The text of a path that has no backslash. *)
Definition escape (p : list Z) : list Z := p ≫= fun c => if special c then [backslash; c] else [c].

Definition no_backslash (p : list Z) : Prop := Forall (fun c => c <> backslash) p.

Lemma escape_cons c p : escape (c :: p) = (if special c then [backslash; c] else [c]) ++ escape p.
Proof. done. Qed.

Lemma export_escape dstlen j p :
  no_backslash p -> 0 <= j -> j + strlen (escape p) + 1 <= dstlen < 2 ^ 64 -> export_loop dstlen j p = escape p.
Proof.
  revert j. induction p as [|c p IH]; intros j Hp Hj Hl; [done|]. apply list.Forall_cons in Hp as [Hc Hp].
  rw escape_cons. rw escape_cons in Hl. unfold strlen in *. rw length_app in Hl. cbn [export_loop].
  destruct (Z.eqb_spec c backslash); [done|]. fold (special c). destruct (special c); cbn [length app] in *.
  - unfold u64. rw wrapu_small; [split; lia|]. destruct (Z.ltb_spec (dstlen - 3) j); [lia|]. rw IH //; lia.
  - unfold u64. rw wrapu_small; [split; lia|]. destruct (Z.ltb_spec (dstlen - 2) j); [lia|]. rw IH //; lia.
Qed.

Lemma import_escape dstlen j p :
  no_backslash p -> 0 <= j -> j + strlen p < dstlen ->
  import_loop dstlen j (escape p) = (j + strlen p, p ++ [0]).
Proof.
  revert j. induction p as [|c p IH]; intros j Hp Hj Hl; unfold strlen in *; cbn [length] in *.
  - cbn. destruct (Z.ltb_spec j dstlen); [|lia]. f_equal. lia.
  - apply list.Forall_cons in Hp as [Hc Hp]. rw escape_cons.
    assert (E : import_loop dstlen j (c :: escape p) = (j + Z.of_nat (S (length p)), (c :: p) ++ [0])).
    { cbn [import_loop]. destruct (Z.ltb_spec j dstlen); [|lia]. destruct (Z.eqb_spec c backslash); [done|].
      rw IH //; [lia|lia|]. f_equal. lia. }
    destruct (special c); cbn [app]; [|done].
    transitivity (if j <? dstlen then import_loop dstlen j (c :: escape p) else (0, [])); [done|].
    by destruct (Z.ltb_spec j dstlen); [|lia].
Qed.

(** ** The parser of a resource *)

Section parse.
Context (hl : bool) (nd : nat).

(** Characters that are neither colon nor backslash are collected, and so is an escaped path. *)
Lemma parse_escaped p sub rest ps :
  no_backslash p -> strlen sub + strlen p <= Z.of_nat SANLK_PATH_LEN ->
  parse_loop hl nd (escape p ++ rest) sub ps = parse_loop hl nd rest (sub ++ p) ps.
Proof.
  revert sub. induction p as [|c p IH]; intros sub Hp Hl; [by rw app_nil_r|]. apply list.Forall_cons in Hp as [Hc Hp].
  unfold strlen in *. cbn [length] in Hl. rw escape_cons -app_assoc.
  assert (Hroom : (Z.of_nat SANLK_PATH_LEN <=? strlen sub) = false) by (apply Z.leb_gt; unfold strlen; lia).
  assert (E : parse_loop hl nd (escape p ++ rest) (sub ++ [c]) ps = parse_loop hl nd rest (sub ++ c :: p) ps).
  { rw IH //; [rw length_app; cbn [length]; lia|]. by rw -app_assoc. }
  destruct (special c) eqn:Es; cbn [app parse_loop].
  - change (backslash =? backslash) with true. cbv iota. by rw Hroom.
  - apply orb_false_iff in Es as [_ Ec]. destruct (Z.eqb_spec c backslash); [done|]. by rw Ec /= Hroom.
Qed.

Definition plain (p : list Z) : Prop := Forall (fun c => c <> backslash /\ c <> colon) p.

Lemma parse_plain p sub rest ps :
  plain p -> strlen sub + strlen p <= Z.of_nat SANLK_PATH_LEN ->
  parse_loop hl nd (p ++ rest) sub ps = parse_loop hl nd rest (sub ++ p) ps.
Proof.
  revert sub. induction p as [|c p IH]; intros sub Hp Hl; [by rw app_nil_r|]. apply list.Forall_cons in Hp as [[Hc Hc'] Hp].
  unfold strlen in *. cbn [length] in Hl. cbn [app parse_loop].
  destruct (Z.eqb_spec c backslash); [done|]. destruct (Z.eqb_spec c colon); [done|]. cbn [negb].
  rw (proj2 (Z.leb_gt _ _)); [unfold strlen; lia|]. rw IH //; [rw length_app; cbn [length]; lia|]. by rw -app_assoc.
Qed.

(** The end of a field. *)
Lemma parse_colon sub rest ps ps' :
  parse_sub hl nd sub ps = Ret (Some ps') -> parse_loop hl nd (colon :: rest) sub ps = parse_loop hl nd rest [] ps'.
Proof. intros E. cbn [parse_loop]. change (colon =? backslash) with false. cbn [Z.eqb negb colon Pos.eqb]. by rw E. Qed.
End parse.

(** ** Resources that can be written *)

(** A name, the paths and offsets of the disks, a version or the shared mode. *)
Record lease_spec := Spec {
  s_lockspace : list Z;
  s_name : list Z;
  s_disks : list (list Z * Z);
  s_lver : option Z
}.

Definition spec_name_ok (n : list Z) : Prop := Forall (fun c => c <> 0 /\ c <> backslash /\ c <> colon) n /\ strlen n < Z.of_nat SANLK_NAME_LEN.

Definition spec_disk_ok (d : list Z * Z) : Prop :=
  Forall (fun c => c <> 0 /\ c <> backslash) (fst d) /\ 0 < strlen (fst d) < Z.of_nat SANLK_PATH_LEN /\
  strlen (escape (fst d)) <= Z.of_nat SANLK_PATH_LEN /\ 0 <= snd d < 2 ^ 64.

Record spec_ok (s : lease_spec) : Prop := {
  so_lockspace : spec_name_ok s.(s_lockspace);
  so_name : spec_name_ok s.(s_name);
  so_count : 0 < Z.of_nat (length s.(s_disks)) <= SANLK_MAX_DISKS;
  so_disks : Forall spec_disk_ok s.(s_disks);
  so_lver : match s.(s_lver) with Some v => 0 <= v < 2 ^ 64 | None => True end
}.

Definition disk_of (d : list Z * Z) : sanlk_disk := Disk (strncpy (SANLK_PATH_LEN - 1) (fst d) ++ [0]) (snd d).

Definition res_of (s : lease_spec) : sanlk_res :=
  Res (strncpy SANLK_NAME_LEN s.(s_lockspace)) (strncpy SANLK_NAME_LEN s.(s_name)) (default 0 s.(s_lver))
    (match s.(s_lver) with Some _ => RES_LVER | None => RES_SHARED end) (disk_of <$> s.(s_disks)).

Definition disk_str (d : list Z * Z) : list Z := colon :: escape (fst d) ++ colon :: print_llu (snd d).
Definition lver_str (v : option Z) : list Z := match v with None => [83; 72] | Some v => print_llu v end.
Definition spec_str (s : lease_spec) : list Z :=
  s.(s_lockspace) ++ colon :: s.(s_name) ++ (s.(s_disks) ≫= disk_str) ++ colon :: lver_str s.(s_lver).

Lemma disk_path_nobs d : spec_disk_ok d -> no_backslash (fst d).
Proof. intros [H _]. eapply list.Forall_impl; [exact H|]. by intros c [_ ?]. Qed.

Lemma cstr_pad n l m : Forall (fun c => c <> 0) l -> (length l <= n)%nat -> (0 < m)%nat \/ (length l < n)%nat ->
  cstr (strncpy n l ++ replicate m 0) = l.
Proof.
  intros Hl Hn Hm. unfold strncpy. rw (cstr_all l) // take_ge //. rw -app_assoc -replicate_add.
  destruct (n - length l + m)%nat as [|k] eqn:E; [lia|]. cbn [replicate]. by apply cstr_app_zero.
Qed.

Lemma name_array n : spec_name_ok n -> array_str (strncpy SANLK_NAME_LEN n) = Ret n.
Proof.
  intros [Hn Hl]. unfold array_str, strlen in *.
  assert (E : cstr (strncpy SANLK_NAME_LEN n) = n).
  { rw -(app_nil_r (strncpy _ _)). apply (cstr_pad _ _ 0); [|lia|lia]. eapply list.Forall_impl; [exact Hn|]. by intros c (? & _). }
  rw E length_strncpy. destruct (Z.ltb_spec (Z.of_nat (length n)) (Z.of_nat SANLK_NAME_LEN)); [done|lia].
Qed.

Lemma path_array d : spec_disk_ok d -> array_str (disk_of d).(dk_path) = Ret (fst d).
Proof.
  intros (Hd & Hl & _). unfold array_str, strlen, disk_of in *. cbn [dk_path]. unfold SANLK_PATH_LEN in *.
  assert (E : cstr (strncpy (1024 - 1) (fst d) ++ [0]) = fst d).
  { apply (cstr_pad _ _ 1); [|lia|lia]. eapply list.Forall_impl; [exact Hd|]. by intros c (? & _). }
  rw E length_app length_strncpy. cbn [length].
  destruct (Z.ltb_spec (Z.of_nat (length (fst d))) (Z.of_nat (1024 - 1 + 1))); [done|lia].
Qed.

Lemma disk_str_length d : spec_disk_ok d -> 0 < strlen (disk_str d) <= 1046.
Proof.
  intros (_ & _ & He & _). unfold disk_str, strlen in *. cbn [length]. rw length_app. cbn [length].
  pose proof (print_length (snd d)). unfold SANLK_PATH_LEN in He. lia.
Qed.

Lemma disks_str_length ds : Forall spec_disk_ok ds -> strlen (ds ≫= disk_str) <= 1046 * Z.of_nat (length ds).
Proof.
  intros H. induction H as [|d ds Hd Hds IH]; [done|]. change ((d :: ds) ≫= disk_str) with (disk_str d ++ (ds ≫= disk_str)).
  pose proof (disk_str_length d Hd). unfold strlen in *. rw length_app. cbn [length]. lia.
Qed.

Lemma disks_text_spec ds pos :
  Forall spec_disk_ok ds -> 0 <= pos -> pos + strlen (ds ≫= disk_str) < SANLK_MAX_RES_STR ->
  disks_text (disk_of <$> ds) pos = Ret (Some (ds ≫= disk_str)).
Proof.
  intros H. revert pos. induction H as [|d ds Hd Hds IH]; intros pos Hp Hl; [done|].
  change ((d :: ds) ≫= disk_str) with (disk_str d ++ (ds ≫= disk_str)) in *. unfold strlen in Hl. rw length_app in Hl.
  cbn [fmap list_fmap disks_text]. rw path_array //. cbn [mbind prog_bind pbind].
  assert (sanlock_path_export (fst d) (Z.of_nat SANLK_PATH_LEN + 1) = escape (fst d)) as ->.
  { apply export_escape; [by apply disk_path_nobs|lia|]. destruct Hd as (_ & _ & He & _). unfold SANLK_PATH_LEN in *. lia. }
  fold (disk_str d). change (dk_offset (disk_of d)) with (snd d). fold (disk_str d).
  change (mbind disk_str ds) with (ds ≫= disk_str) in *.
  destruct (Z.leb_spec (SANLK_MAX_RES_STR - pos) (strlen (disk_str d))); [unfold strlen in *; lia|].
  rw IH //; unfold strlen; lia.
Qed.

Lemma lver_str_length v : strlen (lver_str v) <= 20.
Proof. destruct v as [v|]; cbn [lver_str]; unfold strlen; [pose proof (print_length v); lia|by vm_compute]. Qed.

(** The text fits with room to spare. *)
Lemma spec_str_length s : spec_ok s -> strlen (spec_str s) <= 4300.
Proof.
  intros [[_ H1] [_ H2] H3 H4 _]. pose proof (disks_str_length _ H4). pose proof (lver_str_length s.(s_lver)).
  unfold spec_str, strlen, SANLK_NAME_LEN, SANLK_MAX_DISKS in *.
  rw length_app; cbn [length]; rw !length_app; cbn [length]. lia.
Qed.

Lemma run_res_to_str s :
  spec_ok s -> run calm (sanlock_res_to_str (Some (res_of s))) tt = (Some (0, Some (spec_str s)), tt).
Proof.
  intros Hs. pose proof (spec_str_length s Hs) as Hlen. destruct Hs as [H1 H2 H3 H4 H5].
  unfold sanlock_res_to_str. rw run_bind. cbn [run call calm fst snd negb]. unfold res_of at 1 2. cbn [rr_lockspace_name rr_name].
  rw !name_array // !run_bind. cbn [run mbind prog_bind pbind]. set (names := s_lockspace s ++ colon :: s_name s) in *.
  assert (E : spec_str s = names ++ (s.(s_disks) ≫= disk_str) ++ colon :: lver_str s.(s_lver)).
  { unfold spec_str, names. by rw -app_assoc. }
  rw E in Hlen. unfold strlen in Hlen. rw !length_app in Hlen. cbn [length] in Hlen.
  assert (Hn : length names = (length (s_lockspace s) + S (length (s_name s)))%nat) by (unfold names; by rw length_app).
  destruct (Z.leb_spec SANLK_MAX_RES_STR (strlen names)); [unfold strlen, SANLK_MAX_RES_STR in *; lia|].
  cbn [rr_disks res_of]. rw disks_text_spec //; [unfold strlen; lia|unfold strlen, SANLK_MAX_RES_STR; lia|].
  cbn [run]. unfold lver_text. cbn [res_of rr_flags rr_lver].
  assert ((if has_flag match s_lver s with Some _ => RES_LVER | None => RES_SHARED end RES_SHARED then [colon; 83; 72]
    else colon :: print_llu (default 0 (s_lver s))) = colon :: lver_str s.(s_lver)) as ->.
  { by destruct (s_lver s). }
  cbn [mbind prog_bind pbind]. unfold strlen in *. rw length_app. cbn [length].
  destruct (Z.ltb_spec (SANLK_MAX_RES_STR - Z.of_nat (length names + length (s.(s_disks) ≫= disk_str))) (Z.of_nat (S (length (lver_str s.(s_lver))))));
    [unfold SANLK_MAX_RES_STR in *; lia|].
  rw take_ge; [unfold SANLK_MAX_RES_STR in *; cbn [length]; lia|]. by rw E.
Qed.

(** ** Reading it back *)

Lemma count_plain sep p rest :
  Forall (fun c => c <> backslash /\ c <> sep) p -> count_sep sep (p ++ rest) = count_sep sep rest.
Proof.
  induction 1 as [|c p [Hc Hs] Hp IH]; [done|]. cbn [app count_sep].
  destruct (Z.eqb_spec c backslash); [done|]. by destruct (Z.eqb_spec c sep).
Qed.

Lemma count_escaped sep p rest :
  no_backslash p -> special sep = true -> count_sep sep (escape p ++ rest) = count_sep sep rest.
Proof.
  intros Hp Hsep. induction Hp as [|c p Hc Hp IH]; [done|]. rw escape_cons -app_assoc. destruct (special c) eqn:E; cbn [app count_sep].
  - by change (backslash =? backslash) with true.
  - destruct (Z.eqb_spec c backslash); [done|]. destruct (Z.eqb_spec c sep); [subst; by rw Hsep in E|done].
Qed.

Lemma digits_plain sep v : special sep = true -> Forall (fun c => c <> backslash /\ c <> sep) (print_llu v).
Proof.
  intros Hs. eapply list.Forall_impl; [apply print_digits|]. intros c Hc. unfold is_digit, special, backslash, blank, colon in *.
  apply orb_true_iff in Hs as [Hs|Hs]; apply Z.eqb_eq in Hs; lia.
Qed.

Lemma print_plain v : plain (print_llu v).
Proof. by apply (digits_plain colon). Qed.

Lemma lver_plain v : plain (lver_str v).
Proof. destruct v as [v|]; [apply print_plain|]. apply (bool_decide_unpack _). by vm_compute. Qed.

Lemma name_plain n : spec_name_ok n -> plain n.
Proof. intros [H _]. eapply list.Forall_impl; [exact H|]. by intros c (_ & ? & ?). Qed.

Lemma count_disks ds rest :
  Forall spec_disk_ok ds -> count_sep colon ((ds ≫= disk_str) ++ rest) = 2 * Z.of_nat (length ds) + count_sep colon rest.
Proof.
  intros H. induction H as [|d ds Hd Hds IH]; [done|]. change ((d :: ds) ≫= disk_str) with (disk_str d ++ (ds ≫= disk_str)).
  unfold disk_str at 1. cbn [app]. rw -!app_assoc. cbn [count_sep app]. change (colon =? backslash) with false. change (colon =? colon) with true.
  cbv iota. rw count_escaped //; [by apply disk_path_nobs|]. cbn [count_sep app]. change (colon =? backslash) with false. change (colon =? colon) with true.
  cbv iota. rw count_plain; [by apply digits_plain|]. rw IH. cbn [length]. lia.
Qed.

(** The text with other spellings of the names. *)
Definition spec_str_with (ls nm : list Z) (s : lease_spec) : list Z :=
  ls ++ colon :: nm ++ (s.(s_disks) ≫= disk_str) ++ colon :: lver_str s.(s_lver).

(** A name is written as it is, or with its blanks escaped. *)
Definition spells (t n : list Z) : Prop := t = n \/ t = escape n.

Lemma name_nobs n : spec_name_ok n -> no_backslash n.
Proof. intros [H _]. eapply list.Forall_impl; [exact H|]. by intros c (_ & ? & _). Qed.

Lemma count_name t n rest : spells t n -> spec_name_ok n -> count_sep colon (t ++ rest) = count_sep colon rest.
Proof.
  intros [-> | ->] Hn; [apply count_plain; by apply name_plain|]. apply count_escaped; [by apply name_nobs|done].
Qed.

Lemma parse_name hl nd t n rest ps :
  spells t n -> spec_name_ok n -> parse_loop hl nd (t ++ rest) [] ps = parse_loop hl nd rest n ps.
Proof.
  intros Ht Hn. assert (strlen [] + strlen n <= Z.of_nat SANLK_PATH_LEN).
  { destruct Hn as [_ Hl]. unfold strlen, SANLK_NAME_LEN, SANLK_PATH_LEN in *. cbn [length]. lia. }
  destruct Ht as [-> | ->]; [apply (parse_plain hl nd n []); [by apply name_plain|done]|].
  apply (parse_escaped hl nd n []); [by apply name_nobs|done].
Qed.

Lemma count_spec s ls nm :
  spec_ok s -> spells ls s.(s_lockspace) -> spells nm s.(s_name) ->
  count_sep colon (spec_str_with ls nm s) = 2 + 2 * Z.of_nat (length s.(s_disks)).
Proof.
  intros [H1 H2 _ H4 _] E1 E2. unfold spec_str_with. rw (count_name _ _ _ E1 H1). cbn [count_sep].
  change (colon =? backslash) with false. change (colon =? colon) with true. cbv iota.
  rw (count_name _ _ _ E2 H2) count_disks //. cbn [count_sep].
  change (colon =? backslash) with false. change (colon =? colon) with true. cbv iota.
  rw -(app_nil_r (lver_str _)) count_plain; [apply lver_plain|]. cbn [count_sep]. lia.
Qed.

(** The state of the parser between two disks. *)
Definition at_disk (ls nm : list Z) (nd : nat) (done : list sanlk_disk) : parse_state :=
  Parse (Res ls nm 0 0 (done ++ replicate (nd - length done) disk_zero)) (length done) (2 + 2 * Z.of_nat (length done)).

Section disks.
Context (ls nm : list Z) (nd : nat).

(** The path, then the offset of the next disk. *)
Definition with_path (done : list sanlk_disk) (p : list Z) : parse_state :=
  Parse (Res ls nm 0 0 (done ++ disk_of (p, 0) :: replicate (nd - S (length done)) disk_zero)) (length done)
    (3 + 2 * Z.of_nat (length done)).

Lemma parse_path done d :
  spec_disk_ok d -> (length done < nd)%nat ->
  parse_sub true nd (fst d) (at_disk ls nm nd done) = Ret (Some (with_path done (fst d))).
Proof.
  intros (_ & Hl & _) Hd. unfold parse_sub, at_disk. cbn [ps_sub_count ps_res ps_d].
  rw (proj2 (Z.ltb_ge (2 + _) 2)); [lia|]. cbn [andb]. rw (proj2 (Z.leb_le 2 _)); [lia|]. cbn [andb].
  rw (proj2 (Z.ltb_ge (Z.of_nat SANLK_PATH_LEN - 1) _)); [lia|]. rw (proj2 (Z.ltb_ge _ 1)); [lia|]. cbn [orb].
  rw (proj2 (Z.eqb_neq (2 + _) 0)); [lia|]. rw (proj2 (Z.eqb_neq (2 + _) 1)); [lia|].
  rw Z.even_add Z.even_mul. cbn [Z.even eqb orb andb].
  destruct (Nat.eqb_spec (length done) nd); [lia|]. cbn [andb]. unfold with_disk. cbn [rr_disks].
  destruct (nd - length done)%nat as [|k] eqn:E; [lia|]. cbn [replicate]. rw list_lookup_middle //. cbn [mbind prog_bind pbind].
  unfold with_path. do 3 f_equal; [|lia]. f_equal. rw -{1}(Nat.add_0_r (length done)) insert_app_r. cbn.
  by replace (nd - S (length done))%nat with k by lia.
Qed.

Lemma parse_offset done d :
  spec_disk_ok d -> (length done < nd)%nat ->
  parse_sub true nd (print_llu (snd d)) (with_path done (fst d)) = Ret (Some (at_disk ls nm nd (done ++ [disk_of d]))).
Proof.
  intros (_ & _ & _ & Ho) Hd. unfold parse_sub, with_path. cbn [ps_sub_count ps_res ps_d].
  pose proof (print_length (snd d)) as Hl. unfold strlen.
  rw (proj2 (Z.ltb_ge (3 + _) 2)); [lia|]. cbn [andb]. rw (proj2 (Z.leb_le 2 _)); [lia|]. cbn [andb].
  rw (proj2 (Z.ltb_ge (Z.of_nat SANLK_PATH_LEN - 1) _)); [unfold SANLK_PATH_LEN; lia|]. rw (proj2 (Z.ltb_ge _ 1)); [lia|]. cbn [orb].
  rw (proj2 (Z.eqb_neq (3 + _) 0)); [lia|]. rw (proj2 (Z.eqb_neq (3 + _) 1)); [lia|].
  rw Z.even_add Z.even_mul. cbn [Z.even eqb orb andb]. rw scan_print //; [by left|]. unfold with_disk. cbn [rr_disks].
  rw list_lookup_middle //. cbn [mbind prog_bind pbind]. unfold at_disk. rw length_app. cbn [length]. do 3 f_equal; [|lia|lia].
  f_equal. rw -{1}(Nat.add_0_r (length done)) insert_app_r. cbn. rw -app_assoc. cbn. unfold set_disk_offset, disk_of. cbn.
  by replace (nd - (length done + 1))%nat with (nd - S (length done))%nat by lia.
Qed.

Lemma parse_disks ds done sub ps rest :
  Forall spec_disk_ok ds -> (length done + length ds = nd)%nat ->
  parse_sub true nd sub ps = Ret (Some (at_disk ls nm nd done)) ->
  exists sub' ps', parse_loop true nd ((ds ≫= disk_str) ++ rest) sub ps = parse_loop true nd rest sub' ps' /\
    parse_sub true nd sub' ps' = Ret (Some (at_disk ls nm nd (done ++ (disk_of <$> ds)))).
Proof.
  intros H. revert done sub ps. induction H as [|d ds Hd Hds IH]; intros done sub ps Hn Hs.
  { exists sub, ps. by rw app_nil_r. }
  cbn [length] in Hn. change ((d :: ds) ≫= disk_str) with (disk_str d ++ (ds ≫= disk_str)). unfold disk_str at 1. cbn [app]. rw -!app_assoc. cbn [app].
  rw (parse_colon _ _ _ _ _ _ Hs) parse_escaped; [by apply disk_path_nobs|destruct Hd as (_ & ? & _); unfold strlen in *; cbn [length]; lia|].
  cbn [app]. rw (parse_colon _ _ _ _ _ _ (parse_path done d Hd ltac:(lia))).
  rw parse_plain; [apply print_plain|pose proof (print_length (snd d)); unfold strlen, SANLK_PATH_LEN; cbn [length]; lia|]. cbn [app].
  destruct (IH (done ++ [disk_of d]) (print_llu (snd d)) (with_path done (fst d))) as (sub' & ps' & E1 & E2).
  { rw length_app. cbn. lia. }
  { apply parse_offset; [done|lia]. }
  exists sub', ps'. split; [exact E1|]. cbn [fmap list_fmap]. by rw -app_assoc in E2.
Qed.
End disks.

Lemma parse_lver ls nm nd ds v :
  length ds = nd -> match v with Some v => 0 <= v < 2 ^ 64 | None => True end ->
  parse_sub true nd (lver_str v) (at_disk ls nm nd ds) =
    Ret (Some (Parse (Res ls nm (default 0 v) (match v with Some _ => RES_LVER | None => RES_SHARED end) ds) nd (3 + 2 * Z.of_nat nd))).
Proof.
  intros <- Hv. unfold parse_sub, at_disk. cbn [ps_sub_count ps_res ps_d].
  assert (Hl : 1 <= strlen (lver_str v) <= 20).
  { split; [|apply lver_str_length]. destruct v as [v|]; [|done]. cbn [lver_str]. unfold strlen. pose proof (print_length v). lia. }
  rw (proj2 (Z.ltb_ge (2 + _) 2)); [lia|]. cbn [andb]. rw (proj2 (Z.leb_le 2 _)); [lia|]. cbn [andb].
  rw (proj2 (Z.ltb_ge (Z.of_nat SANLK_PATH_LEN - 1) _)); [unfold SANLK_PATH_LEN; lia|]. rw (proj2 (Z.ltb_ge _ 1)); [lia|]. cbn [orb].
  rw (proj2 (Z.eqb_neq (2 + _) 0)); [lia|]. rw (proj2 (Z.eqb_neq (2 + _) 1)); [lia|].
  rw Z.even_add Z.even_mul. cbn [Z.even eqb orb andb]. rw Nat.eqb_refl Nat.sub_diag app_nil_r. cbn [andb].
  replace (2 + 2 * Z.of_nat (length ds) + 1) with (3 + 2 * Z.of_nat (length ds)) by lia.
  destruct v as [v|]; cbn [lver_str].
  - assert (strncmp_eq 2 (print_llu v) [83; 72] = false) as ->.
    { destruct (print_cons v Hv) as (c & l & -> & Hc & _). unfold strncmp_eq. apply bool_decide_eq_false. cbn.
      unfold is_digit in Hc. destruct (Z.eqb_spec c 0); [lia|]. cbn. intros [= ? _]. lia. }
    unfold strtoull. rw scan_print //; by right.
  - done.
Qed.

Lemma run_str_to_res s ls nm :
  spec_ok s -> spells ls s.(s_lockspace) -> spells nm s.(s_name) ->
  run calm (sanlock_str_to_res (spec_str_with ls nm s)) tt = (Some (0, Some (res_of s)), tt).
Proof.
  intros Hs T1 T2. pose proof (count_spec s ls nm Hs T1 T2) as Hc. destruct Hs as [H1 H2 H3 H4 H5]. set (nd := length s.(s_disks)) in *.
  unfold sanlock_str_to_res. rw Hc.
  assert (Hlen : (strlen (spec_str_with ls nm s) <? 3) = false).
  { apply Z.ltb_ge. unfold spec_str_with, strlen. rw length_app; cbn [length]; rw !length_app; cbn [length].
    destruct (s_disks s) as [|d ds] eqn:E; [cbn in *; lia|]. change ((d :: ds) ≫= disk_str) with (disk_str d ++ (ds ≫= disk_str)).
    rw length_app. unfold disk_str. cbn [length]. rw length_app. cbn [length]. lia. }
  rw Hlen. rw (proj2 (Z.eqb_neq (2 + _) 0)); [lia|]. rw (proj2 (Z.eqb_neq (2 + _) 2)); [lia|]. cbn [orb].
  assert (E1 : (2 + 2 * Z.of_nat nd - 1) / 2 = Z.of_nat nd).
  { replace (2 + 2 * Z.of_nat nd - 1) with (1 + Z.of_nat nd * 2) by lia. rw Z.div_add //. }
  assert (E2 : (2 + 2 * Z.of_nat nd - 1) mod 2 = 1).
  { replace (2 + 2 * Z.of_nat nd - 1) with (1 + Z.of_nat nd * 2) by lia. rw Z.mod_add //. }
  rw E1 E2 Nat2Z.id. cbn [nz Z.eqb negb]. destruct (Z.ltb_spec SANLK_MAX_DISKS (Z.of_nat nd)); [lia|].
  rw run_bind. cbn [run call calm fst snd negb]. rw run_bind.
  assert (E : parse_loop true nd (spec_str_with ls nm s) [] (Parse (res_zero nd) 0 0) =
    Ret (Some (Parse (res_of s) nd (3 + 2 * Z.of_nat nd)))); [|by rw E].
  unfold spec_str_with. destruct (H1) as [_ L1], (H2) as [_ L2]. unfold SANLK_NAME_LEN in *.
  rw (parse_name _ _ _ _ _ _ T1 H1).
  rw (parse_colon _ _ _ _ _ (Parse (Res (strncpy SANLK_NAME_LEN s.(s_lockspace)) (zeros SANLK_NAME_LEN) 0 0 (replicate nd disk_zero)) 0 1)).
  { unfold parse_sub. cbn [ps_sub_count ps_res ps_d]. rw (proj2 (Z.ltb_ge (Z.of_nat SANLK_NAME_LEN) _)); [unfold SANLK_NAME_LEN; lia|]. done. }
  rw (parse_name _ _ _ _ _ _ T2 H2).
  destruct (parse_disks (strncpy SANLK_NAME_LEN s.(s_lockspace)) (strncpy SANLK_NAME_LEN s.(s_name)) nd s.(s_disks) []
    s.(s_name) (Parse (Res (strncpy SANLK_NAME_LEN s.(s_lockspace)) (zeros SANLK_NAME_LEN) 0 0 (replicate nd disk_zero)) 0 1)
    (colon :: lver_str s.(s_lver)) H4 eq_refl) as (sub' & ps' & Ep & Es).
  { unfold parse_sub. cbn [ps_sub_count ps_res ps_d]. rw (proj2 (Z.ltb_ge (Z.of_nat SANLK_NAME_LEN) _)); [unfold SANLK_NAME_LEN; lia|].
    unfold at_disk. cbn. by rw Nat.sub_0_r. }
  rw Ep (parse_colon _ _ _ _ _ _ Es). rw -(app_nil_r (lver_str _)) parse_plain; [apply lver_plain| |].
  { pose proof (lver_str_length s.(s_lver)). unfold strlen, SANLK_PATH_LEN in *. cbn [length]. lia. }
  cbn [app parse_loop]. rw parse_lver //. by rw length_fmap.
Qed.

(** ** Lists of resources *)


Definition blanked (s : lease_spec) : list Z := spec_str_with (escape s.(s_lockspace)) (escape s.(s_name)) s.

Lemma escape_length p : strlen p <= strlen (escape p) <= 2 * strlen p.
Proof.
  induction p as [|c p IH]; [done|]. rw escape_cons. unfold strlen in *. rw length_app. cbn [length].
  destruct (special c); cbn [length]; lia.
Qed.

Lemma blanked_length s : spec_ok s -> strlen (blanked s) <= SANLK_MAX_RES_STR.
Proof.
  intros [[_ H1] [_ H2] H3 H4 _]. pose proof (disks_str_length _ H4). pose proof (lver_str_length s.(s_lver)).
  pose proof (escape_length s.(s_lockspace)). pose proof (escape_length s.(s_name)).
  unfold blanked, spec_str_with, strlen, SANLK_NAME_LEN, SANLK_MAX_DISKS, SANLK_MAX_RES_STR in *.
  rw length_app; cbn [length]; rw !length_app; cbn [length]. lia.
Qed.

Lemma push_ok str c : strlen str <= SANLK_MAX_RES_STR -> push str c = Ret (str ++ [c]).
Proof. intros H. unfold push. destruct (Z.ltb_spec (strlen str) (SANLK_MAX_RES_STR + 1)); [done|lia]. Qed.

Lemma strlen_app a b : strlen (a ++ b) = strlen a + strlen b.
Proof. unfold strlen. rw length_app. lia. Qed.

Lemma strlen_cons c b : strlen (c :: b) = 1 + strlen b.
Proof. unfold strlen. cbn [length]. lia. Qed.

Lemma strlen_nonneg a : 0 <= strlen a.
Proof. unfold strlen. lia. Qed.

(** Lengths of concatenations, as they are written. *)
Ltac slen :=
  repeat match goal with |- context [strlen (?a ++ ?b)] => rw (strlen_app a b) end;
  repeat match goal with |- context [strlen [?c]] => change (strlen [c]) with 1 end; lia.

Section state.
Context (count : Z) (args : list sanlk_res).

(** The blanks of a name are escaped before the third colon. *)
Lemma state_name n rest str sep :
  spec_name_ok n -> sep < 3 -> strlen str + strlen (escape n) <= SANLK_MAX_RES_STR ->
  state_loop count (n ++ rest) str false sep args = state_loop count rest (str ++ escape n) false sep args.
Proof.
  intros [Hn _] Hsep. revert str. induction Hn as [|c n (_ & Hb & Hc) Hn IH]; intros str Hl; [by rw app_nil_r|].
  rw escape_cons. rw escape_cons strlen_app in Hl. cbn [app state_loop]. destruct (Z.eqb_spec c backslash); [done|].
  pose proof (strlen_nonneg (escape n)).
  unfold special in *. destruct (Z.eqb_spec c colon); [done|]. rw orb_false_r in Hl. rw orb_false_r.
  destruct (c =? blank); cbn [andb negb orb] in *; cbn [app] in *.
  - rw (proj2 (Z.ltb_lt sep 3)); [done|]. change (strlen [backslash; c]) with 2 in Hl. rw push_ok; [lia|]. cbn [mbind prog_bind pbind].
    rw push_ok; [slen|]. cbn [mbind prog_bind pbind].
    rw IH; [slen|]. by rw -!app_assoc.
  - change (strlen [c]) with 1 in Hl. rw push_ok; [lia|]. cbn [mbind prog_bind pbind].
    rw IH; [slen|]. by rw -app_assoc.
Qed.

(** An escaped path is copied. *)
Lemma state_path p rest str sep :
  no_backslash p -> strlen str + strlen (escape p) <= SANLK_MAX_RES_STR ->
  state_loop count (escape p ++ rest) str false sep args = state_loop count rest (str ++ escape p) false sep args.
Proof.
  intros Hp. revert str. induction Hp as [|c p Hc Hp IH]; intros str Hl; [by rw app_nil_r|].
  rw escape_cons -app_assoc. rw escape_cons strlen_app in Hl. pose proof (strlen_nonneg (escape p)).
  destruct (special c) eqn:Es; cbn [app state_loop].
  - change (strlen [backslash; c]) with 2 in Hl. change (backslash =? backslash) with true. cbv iota. rw push_ok; [lia|].
    cbn [mbind prog_bind pbind]. destruct (Z.eqb_spec c backslash); [done|].
    rw push_ok; [slen|]. cbn [mbind prog_bind pbind].
    rw IH; [slen|]. by rw -!app_assoc.
  - change (strlen [c]) with 1 in Hl. apply orb_false_iff in Es as [E1 E2]. destruct (Z.eqb_spec c backslash); [done|].
    rw E1 E2. cbn [andb negb]. rw push_ok; [lia|]. cbn [mbind prog_bind pbind].
    rw IH; [slen|]. by rw -!app_assoc.
Qed.

(** Numbers and the shared mode are copied. *)
Lemma state_word l rest str sep :
  Forall (fun c => c <> backslash /\ c <> blank /\ c <> colon) l -> strlen str + strlen l <= SANLK_MAX_RES_STR ->
  state_loop count (l ++ rest) str false sep args = state_loop count rest (str ++ l) false sep args.
Proof.
  intros Hl. revert str. induction Hl as [|c l (H1 & H2 & H3) Hl IH]; intros str Hr; [by rw app_nil_r|].
  rw strlen_cons in Hr. pose proof (strlen_nonneg l). cbn [app state_loop].
  destruct (Z.eqb_spec c backslash); [done|]. destruct (Z.eqb_spec c blank); [done|]. destruct (Z.eqb_spec c colon); [done|]. cbn [andb negb].
  rw push_ok; [lia|]. cbn [mbind prog_bind pbind]. rw IH; [slen|]. by rw -app_assoc.
Qed.

Lemma state_colon rest str sep :
  strlen str <= SANLK_MAX_RES_STR ->
  state_loop count (colon :: rest) str false sep args = state_loop count rest (str ++ [colon]) false (sep + 1) args.
Proof. intros H. cbn [state_loop]. change (colon =? backslash) with false. change (colon =? blank) with false. change (colon =? colon) with true. cbn [andb negb]. by rw push_ok. Qed.

Lemma print_word v : Forall (fun c => c <> backslash /\ c <> blank /\ c <> colon) (print_llu v).
Proof. eapply list.Forall_impl; [apply print_digits|]. unfold is_digit, backslash, blank, colon. lia. Qed.

Lemma state_disks ds rest str sep :
  Forall spec_disk_ok ds -> strlen str + strlen (ds ≫= disk_str) <= SANLK_MAX_RES_STR ->
  state_loop count ((ds ≫= disk_str) ++ rest) str false sep args =
    state_loop count rest (str ++ (ds ≫= disk_str)) false (sep + 2 * Z.of_nat (length ds)) args.
Proof.
  intros H. revert str sep. induction H as [|d ds Hd Hds IH]; intros str sep Hl.
  { cbn. by rw app_nil_r Z.add_0_r. }
  change ((d :: ds) ≫= disk_str) with (disk_str d ++ (ds ≫= disk_str)) in *. pose proof (strlen_nonneg (ds ≫= disk_str)).
  rw strlen_app in Hl. unfold disk_str in Hl at 1. rw strlen_cons strlen_app strlen_cons in Hl.
  pose proof (strlen_nonneg (escape (fst d))). pose proof (strlen_nonneg (print_llu (snd d))).
  unfold disk_str at 1. cbn [app]. rw -!app_assoc. cbn [app].
  rw state_colon; [lia|]. rw state_path; [by apply disk_path_nobs|slen|].
  rw state_colon; [slen|].
  rw state_word; [apply print_word|slen|].
  rw IH; [slen|]. f_equal; [|cbn [length]; lia].
  change (disk_str d) with (colon :: escape (fst d) ++ colon :: print_llu (snd d)). generalize (print_llu (snd d)). intros pr. rw -!app_assoc. cbn [app]. by rw -!app_assoc.
Qed.

Lemma state_spec s rest :
  spec_ok s ->
  state_loop count (spec_str s ++ rest) [] false 0 args =
    state_loop count rest (blanked s) false (2 + 2 * Z.of_nat (length s.(s_disks))) args.
Proof.
  intros Hs. pose proof (blanked_length s Hs) as Hl. destruct Hs as [H1 H2 H3 H4 H5].
  unfold blanked, spec_str_with, spec_str in *. rw -app_assoc. cbn [app]. rw -!app_assoc. cbn [app].
  rw !strlen_app !strlen_cons !strlen_app !strlen_cons in Hl.
  pose proof (strlen_nonneg (escape s.(s_lockspace))). pose proof (strlen_nonneg (escape s.(s_name))).
  pose proof (strlen_nonneg (s.(s_disks) ≫= disk_str)). pose proof (strlen_nonneg (lver_str s.(s_lver))).
  rw state_name //; [change (strlen []) with 0; lia|]. rw state_colon; [cbn [app]; lia|]. cbn [app].
  rw state_name //; [slen|].
  rw state_disks //; [slen|].
  rw state_colon; [slen|].
  rw state_word; [|slen|].
  { destruct s.(s_lver); [apply print_word|]. apply (bool_decide_unpack _). by vm_compute. }
  f_equal; [by rw -!app_assoc|lia].
Qed.
End state.

Definition more_str (ss : list lease_spec) : list Z := ss ≫= fun s => blank :: spec_str s.
Definition state_str (s : lease_spec) (ss : list lease_spec) : list Z := spec_str s ++ more_str ss.

Lemma more_cons s ss : more_str (s :: ss) = blank :: spec_str s ++ more_str ss.
Proof. done. Qed.

Lemma run_args_loop size ss st :
  Forall spec_ok ss -> strlen st + 4301 * Z.of_nat (length ss) < size ->
  run calm (args_loop size (res_of <$> ss) false st) tt = (Some (0, Some (st ++ more_str ss)), tt).
Proof.
  intros H. revert st. induction H as [|s ss Hs Hss IH]; intros st Hl; [by rw app_nil_r|].
  cbn [fmap list_fmap args_loop]. cbn [length] in Hl. rw run_bind run_res_to_str //. cbn [Z.ltb Z.compare].
  pose proof (spec_str_length s Hs) as Hb. destruct (Z.ltb_spec (SANLK_MAX_RES_STR - 1) (strlen (spec_str s))); [unfold SANLK_MAX_RES_STR in *; lia|].
  assert (El : strlen (st ++ [blank] ++ spec_str s) = strlen st + 1 + strlen (spec_str s)).
  { rw (strlen_app st) (strlen_app [blank]). change (strlen [blank]) with 1. lia. }
  destruct (Z.leb_spec size (strlen (st ++ [blank] ++ spec_str s))); [lia|].
  change (list_fmap _ _ res_of ss) with (res_of <$> ss). rw IH; [lia|]. rw more_cons. by rw -app_assoc.
Qed.

Lemma run_args_to_state s ss :
  spec_ok s -> Forall spec_ok ss ->
  run calm (sanlock_args_to_state (res_of <$> s :: ss)) tt = (Some (0, Some (state_str s ss)), tt).
Proof.
  intros Hs Hss. unfold sanlock_args_to_state. rw run_bind length_fmap. cbn [run call calm fst snd negb fmap list_fmap args_loop length].
  rw run_bind run_res_to_str //. cbn [Z.ltb Z.compare]. pose proof (spec_str_length s Hs) as Hb.
  destruct (Z.ltb_spec (SANLK_MAX_RES_STR - 1) (strlen (spec_str s))); [unfold SANLK_MAX_RES_STR in *; lia|].
  cbn [app]. unfold SANLK_MAX_RES_STR in *. destruct (Z.leb_spec (Z.of_nat (S (length ss)) * (4400 + 1)) (strlen (spec_str s))); [lia|].
  change (list_fmap _ _ res_of ss) with (res_of <$> ss). rw run_args_loop //. lia.
Qed.

Lemma run_state_res count s args more :
  spec_ok s -> Z.of_nat (length args) < count ->
  run calm (state_res count (blanked s) args more) tt = run calm (more (args ++ [res_of s])) tt.
Proof.
  intros Hs Hc. pose proof (blanked_length s Hs) as Hl. unfold state_res.
  destruct (Z.ltb_spec SANLK_MAX_RES_STR (strlen (blanked s))); [lia|].
  rw run_bind. unfold blanked. rw run_str_to_res; [done|by right|by right|]. cbn [Z.ltb Z.compare].
  by destruct (Z.eqb_spec (Z.of_nat (length args)) count); [lia|].
Qed.

Lemma run_state_loop count s ss args :
  spec_ok s -> Forall spec_ok ss -> Z.of_nat (length args + S (length ss)) <= count ->
  run calm (state_loop count (state_str s ss) [] false 0 args) tt =
    (Some (0, Z.of_nat (length args + S (length ss)), Some (args ++ (res_of <$> s :: ss))), tt).
Proof.
  intros Hs Hss. revert s args Hs. induction Hss as [|s' ss Hs' Hss IH]; intros s args Hs Hc; unfold state_str; rw state_spec //.
  - cbn [more_str mbind list_bind state_loop]. rw run_state_res //; [lia|]. cbn [run]. rw length_app. done.
  - rw more_cons. cbn [state_loop]. change (blank =? backslash) with false. change (blank =? blank) with true. cbv iota. cbn [andb negb].
    assert (0 < Z.of_nat (length (s_disks s))) by (destruct Hs; lia).
    destruct (Z.ltb_spec (2 + 2 * Z.of_nat (length (s_disks s))) 3); [lia|]. cbn [length] in Hc. rw run_state_res //; [lia|].
    fold (state_str s' ss). rw IH //; [rw length_app; cbn [length]; lia|]. rw length_app -app_assoc. cbn [length app fmap list_fmap].
    do 4 f_equal. lia.
Qed.

Lemma count_sep_nonneg sep s : 0 <= count_sep sep s.
Proof.
  remember (length s) as n eqn:E. assert (Hn : (length s <= n)%nat) by lia. clear E. revert s Hn.
  induction n as [|n IH]; intros [|c s] Hn; cbn [count_sep length] in *; try lia.
  destruct (c =? backslash); [destruct s as [|d s]; [lia|]; apply IH; cbn in Hn; lia|].
  pose proof (IH s ltac:(lia)). destruct (c =? sep); lia.
Qed.

Lemma count_nobs sep l rest : no_backslash l -> count_sep sep (l ++ rest) = count_sep sep l + count_sep sep rest.
Proof.
  induction 1 as [|c l Hc Hl IH]; [done|]. cbn [app count_sep]. destruct (Z.eqb_spec c backslash); [done|].
  destruct (c =? sep); lia.
Qed.

Lemma count_blank_disks ds rest :
  Forall spec_disk_ok ds -> count_sep blank ((ds ≫= disk_str) ++ rest) = count_sep blank rest.
Proof.
  intros H. induction H as [|d ds Hd Hds IH]; [done|]. change ((d :: ds) ≫= disk_str) with (disk_str d ++ (ds ≫= disk_str)).
  unfold disk_str at 1. cbn [app]. rw -!app_assoc. cbn [count_sep app]. change (colon =? backslash) with false. change (colon =? blank) with false.
  cbv iota. rw count_escaped //; [by apply disk_path_nobs|]. cbn [count_sep app]. change (colon =? backslash) with false. change (colon =? blank) with false.
  cbv iota. rw count_plain; [by apply digits_plain|]. exact IH.
Qed.

Lemma count_blank_spec s rest : spec_ok s -> count_sep blank rest <= count_sep blank (spec_str s ++ rest).
Proof.
  intros [H1 H2 _ H4 _]. unfold spec_str. rw -app_assoc. cbn [app]. rw -!app_assoc. cbn [app].
  rw count_nobs; [by apply name_nobs|]. pose proof (count_sep_nonneg blank s.(s_lockspace)). cbn [count_sep].
  change (colon =? backslash) with false. change (colon =? blank) with false. cbv iota.
  rw count_nobs; [by apply name_nobs|]. pose proof (count_sep_nonneg blank s.(s_name)).
  rw count_blank_disks //. cbn [count_sep]. change (colon =? backslash) with false. change (colon =? blank) with false. cbv iota.
  rw count_plain; [|lia]. destruct s.(s_lver); [by apply digits_plain|]. apply (bool_decide_unpack _). by vm_compute.
Qed.

Lemma count_more ss : Forall spec_ok ss -> Z.of_nat (length ss) <= count_sep blank (more_str ss).
Proof.
  intros H. induction H as [|s ss Hs Hss IH]; [done|]. rw more_cons. cbn [count_sep length].
  change (blank =? backslash) with false. change (blank =? blank) with true. cbv iota.
  pose proof (count_blank_spec s (more_str ss) Hs). lia.
Qed.

Lemma run_state_to_args s ss :
  spec_ok s -> Forall spec_ok ss ->
  run calm (sanlock_state_to_args (state_str s ss)) tt =
    (Some (0, Z.of_nat (S (length ss)), Some (res_of <$> s :: ss)), tt).
Proof.
  intros Hs Hss. unfold sanlock_state_to_args. rw run_bind. cbn [run call calm fst snd negb].
  rw run_state_loop //. cbn [length]. pose proof (count_more ss Hss). pose proof (count_blank_spec s (more_str ss) Hs).
  unfold state_str. lia.
Qed.
