(* ===== verification/ClientSafety.v ===== *)
(** * Resources and lockspaces as strings: what holds of every string

    The parser of a resource stays inside its arrays whatever the string is; the round trips
    of resources, lists of resources and lockspaces; and the strings with which the code
    goes wrong. *)

From S2P Require Import Prelude OnDisk Io DeltaLease ClientStrings ClientCodec.

(** ** Well-formed resources *)

(** A path has its NUL. *)
Definition disk_wf (d : sanlk_disk) : Prop :=
  (exists b, d.(dk_path) = b ++ [0] /\ length b = 1023%nat) /\ is_u 64 d.(dk_offset).

Record res_wf (r : sanlk_res) : Prop := {
  rw_lockspace : length r.(rr_lockspace_name) = SANLK_NAME_LEN;
  rw_name : length r.(rr_name) = SANLK_NAME_LEN;
  rw_lver : is_u 64 r.(rr_lver);
  rw_disks : Forall disk_wf r.(rr_disks)
}.

Lemma res_zero_wf nd : res_wf (res_zero nd).
Proof.
  split; [done|done|by vm_compute|]. apply Forall_replicate. split; [|by vm_compute]. by exists (zeros 1023).
Qed.

Lemma digit_nonneg base c d : digit base c = Some d -> 0 <= d.
Proof. unfold digit. intros H. cases; try done; zbool; injection H as <-; lia. Qed.

Lemma digits_nonneg base s acc : 0 <= base -> 0 <= acc -> 0 <= digits base s acc.
Proof.
  intros Hb. revert acc. induction s as [|c s IH]; intros acc Ha; [done|]. cbn [digits].
  destruct (digit base c) as [d|] eqn:E; [|done]. apply digit_nonneg in E. apply IH. nia.
Qed.

Lemma scan_llu_u64 base s v : 0 <= base -> scan_llu base s = Some v -> is_u 64 v.
Proof.
  intros Hb. unfold scan_llu, scan_number. destruct (sign (skip_spaces s)) as [neg s1].
  assert (0 <= fst (base_prefix base s1)) as Hp.
  { unfold base_prefix. destruct (base =? 0); [|done]. destruct s1 as [|z s1]; [done|]. destruct (z =? 48); [|done].
    destruct s1 as [|x [|d s1]]; [done..|]. by destruct (_ && _). }
  destruct (base_prefix base s1) as [b s2]. cbn [fst] in Hp. destruct s2 as [|c s2]; [done|].
  destruct (digit b c); [|done]. pose proof (digits_nonneg b (c :: s2) 0 Hp ltac:(lia)) as Hd.
  generalize dependent (digits b (c :: s2) 0). intros m Hd [= <-]. destruct (Z.leb_spec (2 ^ 64) m); [split; lia|]. destruct neg; [by apply wrapu_is_u|]. split; lia.
Qed.

Lemma strtoull_u64 s : is_u 64 (strtoull s 0).
Proof. unfold strtoull. destruct (scan_llu 0 s) eqn:E; [by apply (scan_llu_u64 0 s)|by vm_compute]. Qed.

Lemma set_path_wf sub d : disk_wf d -> disk_wf (set_path sub d).
Proof.
  intros [(b & E & Hb) Ho]. split; [|done]. exists (strncpy 1023 sub). unfold set_path, SANLK_PATH_LEN. cbn [dk_path].
  rw E. change (1024 - 1)%nat with 1023%nat. rw drop_app_length' //. split; [done|apply length_strncpy].
Qed.

Lemma with_disk_wf f d r :
  (forall dk, disk_wf dk -> disk_wf (f dk)) -> res_wf r -> (d < length r.(rr_disks))%nat ->
  exists r', with_disk f d r = Ret r' /\ res_wf r' /\ length r'.(rr_disks) = length r.(rr_disks).
Proof.
  intros Hf [H1 H2 H3 H4] Hd. unfold with_disk. destruct (lookup_lt_is_Some_2 _ _ Hd) as [dk Ek]. rw Ek.
  eexists. split; [done|]. split; [|cbn; by rw length_insert]. split; [done..|]. cbn [rr_disks].
  apply Forall_insert; [done|]. apply Hf. exact (Forall_lookup_1 _ _ _ _ H4 Ek).
Qed.

(** ** The parser *)

Section parser.
Context (colons : Z) (nd : nat) (hl : bool).
Context (Hnd : Z.of_nat nd = (colons - 1) / 2) (Hhl : hl = nz ((colons - 1) mod 2)).

(** Before field [n] of [colons + 1], [d] disks are complete. *)
Record parsing (ps : parse_state) : Prop := {
  pp_wf : res_wf ps.(ps_res);
  pp_disks : length ps.(ps_res).(rr_disks) = nd;
  pp_count : 0 <= ps.(ps_sub_count);
  pp_d : Z.of_nat ps.(ps_d) = Z.max 0 ((ps.(ps_sub_count) - 2) / 2)
}.

Lemma parsing_next r d n :
  res_wf r -> length r.(rr_disks) = nd -> 0 <= n -> Z.of_nat d = Z.max 0 ((n + 1 - 2) / 2) -> parsing (Parse r d (n + 1)).
Proof. intros. by split; cbn; [..|lia|]. Qed.

Lemma parse_sub_safe sub ps :
  parsing ps -> ps.(ps_sub_count) <= colons ->
  exists o, parse_sub hl nd sub ps = Ret o /\
    match o with None => True | Some ps' => parsing ps' /\ ps'.(ps_sub_count) = ps.(ps_sub_count) + 1 end.
Proof.
  intros [Hwf Hd Hn Hpd] Hle. unfold parse_sub. destruct ps as [r d n]. cbn [ps_res ps_d ps_sub_count] in *.
  destruct (_ && (Z.of_nat SANLK_NAME_LEN <? _)); [by exists None|]. destruct ((2 <=? n) && _); [by exists None|].
  pose proof (Z.div_mod (colons - 1) 2 ltac:(lia)) as D1. pose proof (Z.mod_pos_bound (colons - 1) 2 ltac:(lia)) as D2.
  pose proof (Z.div_mod (n - 2) 2 ltac:(lia)) as D3. pose proof (Z.mod_pos_bound (n - 2) 2 ltac:(lia)) as D4.
  pose proof (Z.div_mod (n + 1 - 2) 2 ltac:(lia)) as D5. pose proof (Z.mod_pos_bound (n + 1 - 2) 2 ltac:(lia)) as D6.
  destruct (Hwf) as [W1 W2 W3 W4].
  destruct (Z.eqb_spec n 0); [eexists; split; [done|]; split; [|done]; apply parsing_next; [by split; [apply length_strncpy|..]|done|lia|lia]|].
  destruct (Z.eqb_spec n 1); [eexists; split; [done|]; split; [|done]; apply parsing_next; [by split; [|apply length_strncpy|..]|done|lia|lia]|].
  destruct (Z.even n) eqn:Ee.
  - apply Z.even_spec in Ee as [k Ek]. destruct (hl && Nat.eqb d nd) eqn:El.
    + destruct (strncmp_eq 2 sub [83; 72]); (eexists; split; [done|]; split; [|done]; apply parsing_next; [by split|done|lia|lia]) ||
        (eexists; split; [done|]; split; [|done]; apply parsing_next; [split; [done|done|apply strtoull_u64|done]|done|lia|lia]).
    + assert (Hdl : (d < length r.(rr_disks))%nat).
      { rw Hd. apply andb_false_iff in El as [El|El]; [|apply Nat.eqb_neq in El; lia].
        assert (Hh : nz ((colons - 1) mod 2) = false) by (by rw -Hhl). unfold nz in Hh. zbool. lia. }
      destruct (with_disk_wf (set_path sub) d r (set_path_wf sub) Hwf Hdl) as (r' & -> & Hw & Hl).
      eexists; split; [done|]; split; [|done]. apply parsing_next; [done|lia|lia|lia].
  - assert (Z.odd n = true) as [k Ek]%Z.odd_spec by (by rw -Z.negb_even Ee).
    destruct (scan_llu 10 sub) as [v|] eqn:Ev; [|by exists None].
    assert (Hdl : (d < length r.(rr_disks))%nat) by (rw Hd; lia).
    destruct (with_disk_wf (set_disk_offset v) d r) as (r' & -> & Hw & Hl); [|done|done|].
    { intros dk [Hp _]. split; [done|]. by apply (scan_llu_u64 10 sub). }
    eexists; split; [done|]; split; [|done]. apply parsing_next; [done|lia|lia|lia].
Qed.

Lemma parse_loop_safe str sub ps :
  parsing ps -> ps.(ps_sub_count) + count_sep colon str = colons ->
  exists o, parse_loop hl nd str sub ps = Ret o /\ match o with None => True | Some ps' => parsing ps' end.
Proof.
  remember (length str) as n eqn:E. assert (Hn : (length str <= n)%nat) by lia. clear E. revert str sub ps Hn.
  induction n as [|n IH]; intros [|c str] sub ps Hn Hp Hs; cbn [length] in Hn; try lia.
  1, 2: cbn [parse_loop count_sep] in *; destruct (parse_sub_safe sub ps Hp ltac:(lia)) as (o & -> & Ho); exists o;
    (split; [done|]); destruct o; [by destruct Ho|done].
  cbn [parse_loop]. cbn [count_sep] in Hs. destruct (Z.eqb_spec c backslash).
  - destruct str as [|d str]; [by exists None|]. destruct (_ <=? strlen sub); [by exists None|]. apply IH; [cbn [length] in Hn; lia|done|done].
  - destruct (Z.eqb_spec c colon); cbn [negb].
    + pose proof (count_sep_nonneg colon str).
      destruct (parse_sub_safe sub ps Hp ltac:(lia)) as (o & -> & Ho). cbn [mbind prog_bind pbind]. destruct o as [ps'|]; [|by exists None].
      destruct Ho as [Hp' Ec]. apply IH; [lia|done|lia].
    + destruct (_ <=? strlen sub); [by exists None|]. apply IH; [lia|done|done].
Qed.
End parser.

(** ** A string of a resource *)

(** An error, or a resource that is well formed with as many disks as the colons tell. *)
Definition parsed (str : list Z) (r : Z * option sanlk_res) : Prop :=
  fst r < 0 /\ snd r = None \/
  fst r = 0 /\ exists res, snd r = Some res /\ res_wf res /\
    Z.of_nat (length res.(rr_disks)) = (count_sep colon str - 1) / 2 /\ Z.of_nat (length res.(rr_disks)) <= SANLK_MAX_DISKS.

Lemma str_to_res_parsed str : always (sanlock_str_to_res str) (fun _ => True) (fun _ r => parsed str r) [].
Proof.
  unfold sanlock_str_to_res. destruct (_ <? 3); [apply always_ret; [done|by left]|].
  destruct (_ || _) eqn:Ec; [apply always_ret; [done|by left]|]. zbool. pose proof (count_sep_nonneg colon str) as Hn.
  assert (Hd : 0 <= (count_sep colon str - 1) / 2) by (apply Z.div_pos; lia).
  destruct (_ <? _) eqn:Em; [apply always_ret; [done|by left]|]. zbool.
  apply always_bind, always_quiet; [done..|]. intros ok _. destruct ok; cbn [negb]; [|apply always_ret; [done|by left]].
  destruct (parse_loop_safe (count_sep colon str) (Z.to_nat ((count_sep colon str - 1) / 2)) _ ltac:(lia) eq_refl
    str [] (Parse (res_zero (Z.to_nat ((count_sep colon str - 1) / 2))) 0 0)) as (o & -> & Ho).
  { split; cbn [ps_res ps_d ps_sub_count]; [apply res_zero_wf|by rw length_replicate|lia|by vm_compute]. }
  { done. }
  cbn [mbind prog_bind pbind]. apply always_ret; [done|]. destruct o as [ps|]; [|by left]. right. split; [done|].
  destruct Ho as [H1 H2 _ _]. exists ps.(ps_res). split; [done|]. split; [done|]. cbn [fst snd]. rw H2. split; [|done]. lia.
Qed.

(** ** The separators of a list *)

(** The separators that [sanlock_state_to_args] can see. *)
Fixpoint seps (escape : bool) (s : list Z) : Z :=
  match s with
  | [] => 0
  | c :: s =>
      if c =? backslash then seps true s
      else if escape then seps false s
      else (if c =? blank then 1 else 0) + seps false s
  end.

Lemma seps_count n s :
  (length s <= n)%nat ->
  seps false s <= count_sep blank s /\ seps true s <= count_sep blank s /\ forall d, seps true (d :: s) <= count_sep blank s.
Proof.
  revert s. induction n as [|n IH]; intros s Hn.
  { destruct s; [|cbn in Hn; lia]. split; [done|]. split; [done|]. intros d. cbn. by destruct (d =? backslash). }
  assert (AB : seps false s <= count_sep blank s /\ seps true s <= count_sep blank s).
  { destruct s as [|c s]; [done|]. cbn [length] in Hn. destruct (IH s ltac:(lia)) as (A & B & C). cbn [seps count_sep].
    pose proof (count_sep_nonneg blank s). destruct (c =? backslash).
    - destruct s as [|d s]; [done|]. cbn [length] in Hn. destruct (IH s ltac:(lia)) as (_ & _ & C'). split; apply C'.
    - destruct (c =? blank); lia. }
  destruct AB as [A B]. split; [done|]. split; [done|]. intros d. cbn [seps]. by destruct (d =? backslash).
Qed.

Definition state_done (r : state_result) : Prop :=
  let '(rv, n, o) := r in
  rv < 0 /\ o = None \/ rv = 0 /\ exists args, o = Some args /\ n = Z.of_nat (length args) /\ Forall res_wf args.

Section state.
Context (count : Z).

Lemma state_res_safe str args more h :
  strlen str <= SANLK_MAX_RES_STR -> Forall res_wf args -> Z.of_nat (length args) < count ->
  (forall res h, res_wf res -> always (more (args ++ [res])) (fun _ => True) (fun _ => state_done) h) ->
  always (state_res count str args more) (fun _ => True) (fun _ => state_done) h.
Proof.
  intros Hl Ha Hc Hm. unfold state_res. destruct (Z.ltb_spec SANLK_MAX_RES_STR (strlen str)); [lia|]. apply always_bind.
  pose proof (always_embed (fun _ => True) _ _ _ any_env h [] ltac:(intros ? ? ? ? H'; split; [exact H'|by apply Forall_true])
    (str_to_res_parsed str)) as Hp. rw app_nil_r in Hp.
  eapply always_mono; [exact Hp|done|]. intros h' [rv o] _ (_ & _ & [[H1 H2]|[H1 (res & H2 & Hw & _)]] & _); cbn [fst snd] in *; subst.
  - apply always_ret; [done|]. by left.
  - cbn [Z.ltb Z.compare]. destruct (Z.eqb_spec (Z.of_nat (length args)) count); [lia|]. by apply Hm.
Qed.

Lemma push_always str c (Q : list event -> state_result -> Prop) f h :
  strlen str <= SANLK_MAX_RES_STR -> always (f (str ++ [c])) (fun _ => True) Q h ->
  always (str ← push str c; f str) (fun _ => True) Q h.
Proof. intros Hl H. by rw push_ok. Qed.

(** Every character takes at most two places in the buffer. *)
Lemma state_loop_safe s str escape sep args h :
  strlen str + 2 * strlen s <= SANLK_MAX_RES_STR -> Forall res_wf args ->
  Z.of_nat (length args) + 1 + seps escape s <= count ->
  always (state_loop count s str escape sep args) (fun _ => True) (fun _ => state_done) h.
Proof.
  revert str escape sep args h. induction s as [|c s IH]; intros str escape sep args h Hl Ha Hc; cbn [state_loop].
  { cbn [seps] in Hc. apply state_res_safe; [unfold strlen in *; cbn in *; lia|done|lia|].
    intros res h' Hr. apply always_ret; [done|]. right. split; [done|]. eexists. split; [done|]. split; [done|].
    apply Forall_app. split; [done|by constructor]. }
  rw strlen_cons in Hl. pose proof (strlen_nonneg s). cbn [seps] in Hc.
  assert (Hpush : forall str escape sep, strlen str + 2 * strlen s <= SANLK_MAX_RES_STR ->
    Z.of_nat (length args) + 1 + seps escape s <= count -> always (state_loop count s str escape sep args) (fun _ => True) (fun _ => state_done) h).
  { intros str' e' sep' H1 H2. by apply IH. }
  destruct (c =? backslash); [apply push_always; [lia|]; apply Hpush; [slen|done]|].
  destruct escape; [apply push_always; [lia|]; apply Hpush; [slen|done]|].
  destruct (c =? blank) eqn:Eb; cbn [andb negb].
  - destruct (sep <? 3).
    + apply push_always; [lia|]. apply push_always; [slen|]. apply Hpush; [slen|lia].
    + apply state_res_safe; [lia|done| |].
      { destruct (seps_count (length s) s ltac:(lia)) as (_ & _ & _). assert (0 <= seps false s); [|lia].
        clear. remember false as b eqn:E. clear E. revert b. induction s as [|c s IH]; intros b; cbn [seps]; [done|].
        destruct (c =? backslash); [apply IH|]. destruct b; [apply IH|]. specialize (IH false). destruct (c =? blank); lia. }
      intros res h' Hr. apply IH; [unfold strlen in *; cbn [length]; lia|apply Forall_app; split; [done|by constructor]|].
      rw length_app. cbn [length]. lia.
  - apply push_always; [lia|]. apply Hpush; [slen|lia].
Qed.
End state.

(** ** Lockspaces *)

Lemma split_plain n p rest cur :
  plain p -> split_colons n (p ++ rest) cur = split_colons n rest (cur ++ p).
Proof.
  intros Hp. revert cur. induction Hp as [|c p [Hb Hc] Hp IH]; intros cur; [by rw app_nil_r|]. cbn [app split_colons].
  destruct (Z.eqb_spec c backslash); [done|]. destruct (Z.eqb_spec c colon); [done|]. rw IH. by rw -app_assoc.
Qed.

Lemma split_escaped n p rest cur :
  no_backslash p -> split_colons n (escape p ++ rest) cur = split_colons n rest (cur ++ escape p).
Proof.
  intros Hp. revert cur. induction Hp as [|c p Hb Hp IH]; intros cur; [by rw app_nil_r|]. rw escape_cons -app_assoc.
  destruct (special c) eqn:E; cbn [app split_colons].
  - change (backslash =? backslash) with true. cbv iota. rw IH. by rw -app_assoc.
  - apply orb_false_iff in E as [_ E]. destruct (Z.eqb_spec c backslash); [done|]. rw E IH. by rw -app_assoc.
Qed.

Lemma split_colon n rest cur : split_colons (S n) (colon :: rest) cur = cur :: split_colons n rest [].
Proof. done. Qed.

Lemma atoll_print v : 0 <= v < 2 ^ 63 -> atoll (print_llu v) = v.
Proof.
  intros Hv. pose proof (scan_print 10 v ltac:(lia) ltac:(by left)) as H. unfold scan_llu in H. unfold atoll.
  destruct (scan_number 10 (print_llu v)) as [[neg m]|] eqn:E; [|done]. injection H as H.
  assert (neg = false) as ->.
  { destruct (print_cons v ltac:(lia)) as (c & l & Ep & Hc & _). unfold scan_number in E. rw Ep in E. cbn [skip_spaces] in E.
    destruct (digit_not_special c Hc) as (E1 & E2 & E3). rw E1 in E. unfold sign in E. rw E2 E3 in E. cbn [base_prefix Z.eqb] in E.
    destruct (digit 10 c); [|done]. by injection E as <- _. }
  destruct (Z.leb_spec (2 ^ 64) m); lia.
Qed.

Definition lockspace_str (name : list Z) (host_id : Z) (path : list Z) (offset : Z) : list Z :=
  name ++ colon :: print_llu host_id ++ colon :: escape path ++ colon :: print_llu offset.

(** ** Properties *)

(** C33: Every string is parsed inside the arrays. Whatever string it is given, [sanlock_str_to_res] writes no disk outside of
    the array that it allocated for the colons it counted, and ends with a negative code, or with 0 and a resource
    with at most four disks whose paths have their terminating NUL. *)
Theorem str_to_res_safe str : always (sanlock_str_to_res str) (fun _ => True) (fun _ r => parsed str r) [].
Proof. apply str_to_res_parsed. Qed.

(** A resource is read back as it was written. For names of less than 48 characters without colon and backslash, one to four
    disks with paths without backslash that fit when their blanks and colons are escaped, any offset and any version (or the shared mode),
    [sanlock_res_to_str] returns a string of at most 4300 characters (so that it always fits), of which [sanlock_str_to_res] makes the same resource. *)
Theorem res_string_roundtrip s :
  spec_ok s ->
  exists str, run calm (sanlock_res_to_str (Some (res_of s))) tt = (Some (0, Some str), tt) /\ strlen str <= 4300 /\
    run calm (sanlock_str_to_res str) tt = (Some (0, Some (res_of s)), tt).
Proof.
  intros Hs. exists (spec_str s). split; [by apply run_res_to_str|]. split; [by apply spec_str_length|].
  apply run_str_to_res; [done|by left|by left].
Qed.

(** C32: A list of resources is read back as it was written. For one or more
    resources with names of less than 48 characters without colon and backslash
    (blanks are allowed), one to four disks with nonempty paths without
    backslash that fit when blanks and colons are escaped and offsets below
    2^64, and the flags that the parser sets (a version below 2^64, or the
    shared mode), [sanlock_args_to_state] returns a string of which
    [sanlock_state_to_args] makes the same resources, in the same order and
    number. Allocations are assumed to succeed. *)
Theorem state_string_roundtrip s ss :
  spec_ok s -> Forall spec_ok ss ->
  exists state, run calm (sanlock_args_to_state (res_of <$> s :: ss)) tt = (Some (0, Some state), tt) /\
    run calm (sanlock_state_to_args state) tt = (Some (0, Z.of_nat (S (length ss)), Some (res_of <$> s :: ss)), tt).
Proof. intros Hs Hss. exists (state_str s ss). split; [by apply run_args_to_state|by apply run_state_to_args]. Qed.

(** C34: A list of at most 2200 characters is parsed safely: whatever they are, [sanlock_state_to_args] stays inside its buffer and
    inside the array of resources, whose size it computes from another count of the separators, and ends with a negative code or with 0 and
    well-formed resources; in particular never with 0 and resources that it freed. *)
Theorem state_to_args_safe state :
  strlen state <= 2200 -> always (sanlock_state_to_args state) (fun _ => True) (fun _ => state_done) [].
Proof.
  intros Hl. unfold sanlock_state_to_args. apply always_bind, always_quiet; [done..|]. intros ok _.
  destruct ok; cbn [negb]; [|apply always_ret; [done|by left]].
  apply state_loop_safe; [unfold SANLK_MAX_RES_STR; change (strlen []) with 0; lia|done|].
  destruct (seps_count (length state) state ltac:(lia)) as (H & _). cbn [length]. lia.
Qed.

(** A longer string overflows the stack. A list whose first resource has more than 4400 characters, none of them blank or backslash, makes
    [sanlock_state_to_args] write beyond its buffer (or read beyond it, at 4401). *)
Theorem state_to_args_overflows state :
  Forall (fun c => c <> backslash /\ c <> blank) state -> SANLK_MAX_RES_STR < strlen state ->
  run calm (sanlock_state_to_args state) tt = (None, tt).
Proof.
  intros Hs Hl. unfold sanlock_state_to_args. rw run_bind. cbn [run call calm fst snd negb].
  assert (H : forall str sep, SANLK_MAX_RES_STR < strlen str + strlen state ->
    run calm (state_loop (1 + count_sep blank state) state str false sep []) tt = (None, tt)).
  { generalize (1 + count_sep blank state). intros count. clear Hl. induction Hs as [|c s [Hc Hb] Hs IH]; intros str sep Hl; cbn [state_loop].
    - unfold state_res. destruct (Z.ltb_spec SANLK_MAX_RES_STR (strlen str)); [done|]. change (strlen []) with 0 in Hl. lia.
    - destruct (Z.eqb_spec c backslash); [done|]. destruct (Z.eqb_spec c blank); [done|]. cbn [andb negb].
      unfold push. destruct (_ <? _); [|done]. cbn [mbind prog_bind pbind]. apply IH. rw strlen_cons in Hl. slen. }
  apply H. change (strlen []) with 0. lia.
Qed.

(** A lockspace is read as it is written: of a name without colon and backslash, a host id, a path with its blanks and colons
    escaped and an offset, [sanlock_str_to_lockspace] stores each in its field. *)
Theorem lockspace_string name host_id path offset ls :
  plain name -> 0 <= host_id < 2 ^ 63 -> 0 <= offset < 2 ^ 63 -> no_backslash path ->
  strlen path < strlen ls.(ls_host_id_disk).(sd_path) ->
  sanlock_str_to_lockspace (Some (lockspace_str name host_id path offset)) ls =
    (0, Lockspace (strncpy SANLK_NAME_LEN name) host_id ls.(ls_flags)
          (SyncDisk (path ++ 0 :: drop (S (length path)) ls.(ls_host_id_disk).(sd_path)) offset
             ls.(ls_host_id_disk).(sd_sector_size) ls.(ls_host_id_disk).(sd_fd))).
Proof.
  intros Hn Hh Ho Hp Hl. unfold sanlock_str_to_lockspace, lockspace_str.
  rw split_plain // split_colon split_plain; [apply print_plain|]. rw split_colon split_escaped // split_colon.
  rw -(app_nil_r (print_llu offset)) split_plain; [apply print_plain|]. cbn [app split_colons].
  cbn [lookup list_lookup default]. rw !atoll_print //. unfold sanlock_path_import. rw import_escape //. cbn [snd].
  rw length_app -app_assoc. cbn [length app]. by rw Nat.add_1_r.
Qed.

(** The string of a resource, and the resource that is made of it. *)
Definition reread (res : sanlk_res) : option (option sanlk_res) :=
  match fst (run calm (sanlock_res_to_str (Some res)) tt) with
  | None => None
  | Some (_, None) => Some None
  | Some (_, Some str) =>
      match fst (run calm (sanlock_str_to_res str) tt) with None => None | Some r => Some (snd r) end
  end.

(** *** Concrete strings *)

(** ["LS:R 1:/dev/a:b:1048576:7"], with the colon of the path escaped. *)
Definition demo_spec : lease_spec := Spec [76; 83] [82; 32; 49] [([47; 100; 58; 32], 1048576)] (Some 7).
Definition demo_shared : lease_spec := Spec [76; 83] [82] [([47; 100], 0); ([47; 101], 2 ^ 64 - 1)] None.

(** A name of 48 characters. *)
Definition long_name_str : list Z := replicate 48 97 ++ [58; 98; 58; 47; 58; 48].

(** Escapes and long names do not survive. The writer takes a backslash of a path for an escape and the reader removes it, so that the
    path ["/a\b"] becomes ["/ab"]; and the reader accepts names of 48 characters, which then have no NUL, so that the writer reads beyond
    them. *)
Theorem strings_not_reread :
  reread (Res (strncpy 48 [76]) (strncpy 48 [82]) 0 RES_LVER [Disk (strncpy 1023 [47; 97; 92; 98] ++ [0]) 0]) =
    Some (Some (Res (strncpy 48 [76]) (strncpy 48 [82]) 0 RES_LVER [Disk (strncpy 1023 [47; 97; 98] ++ [0]) 0])) /\
  exists res, run calm (sanlock_str_to_res long_name_str) tt = (Some (0, Some res), tt) /\ reread res = None.
Proof.
  split; [by vm_compute|].
  exists (Res (replicate 48 97) (strncpy 48 [98]) 0 0 [Disk (strncpy 1023 [47] ++ [0]) 0]). split; by vm_compute.
Qed.

Lemma demo_specs_ok : spec_ok demo_spec /\ spec_ok demo_shared.
Proof.
  assert (Hn : forall n, bool_decide (Forall (fun c => c <> 0 /\ c <> backslash /\ c <> colon) n) = true ->
    (strlen n <? Z.of_nat SANLK_NAME_LEN) = true -> spec_name_ok n).
  { intros n H1 H2. split; [by apply bool_decide_eq_true in H1|by apply Z.ltb_lt]. }
  assert (Hd : forall d, bool_decide (Forall (fun c => c <> 0 /\ c <> backslash) (fst d)) = true ->
    (0 <? strlen (fst d)) && (strlen (fst d) <? 1024) && (strlen (escape (fst d)) <=? 1024) && (0 <=? snd d) && (snd d <? 2 ^ 64) = true ->
    spec_disk_ok d).
  { intros d H1 H2. zbool. split; [by apply bool_decide_eq_true in H1|]. unfold SANLK_PATH_LEN. lia. }
  split; (split; [apply Hn; by vm_compute|apply Hn; by vm_compute|by vm_compute| |]).
  - constructor; [|constructor]. apply Hd; by vm_compute.
  - by vm_compute.
  - constructor; [|constructor; [|constructor]]; apply Hd; by vm_compute.
  - done.
Qed.

Lemma res_string_roundtrip_witness :
  exists str, run calm (sanlock_res_to_str (Some (res_of demo_spec))) tt = (Some (0, Some str), tt) /\
    run calm (sanlock_str_to_res str) tt = (Some (0, Some (res_of demo_spec)), tt).
Proof.
  destruct demo_specs_ok as [H _]. destruct (res_string_roundtrip demo_spec H) as (str & H1 & _ & H2). exists str. split; [exact H1|exact H2].
Defined.

Lemma state_string_roundtrip_witness :
  exists state, run calm (sanlock_args_to_state [res_of demo_spec; res_of demo_shared; res_of demo_spec]) tt = (Some (0, Some state), tt) /\
    run calm (sanlock_state_to_args state) tt = (Some (0, 3, Some [res_of demo_spec; res_of demo_shared; res_of demo_spec]), tt).
Proof.
  destruct demo_specs_ok as [H1 H2].
  exact (state_string_roundtrip demo_spec [demo_shared; demo_spec] H1 (Forall_cons _ _ _ H2 (Forall_cons _ _ _ H1 (Forall_nil _)))).
Defined.

Lemma state_to_args_safe_witness :
  always (sanlock_state_to_args [92; 92; 32; 58; 58; 58; 32]) (fun _ => True) (fun _ => state_done) [].
Proof. apply state_to_args_safe. by vm_compute. Defined.

Lemma state_to_args_overflows_witness :
  run calm (sanlock_state_to_args (replicate 4401 97)) tt = (None, tt).
Proof.
  apply state_to_args_overflows; [|by vm_compute]. apply Forall_replicate. split; discriminate.
Defined.

Lemma lockspace_string_witness :
  sanlock_str_to_lockspace (Some (lockspace_str [76; 83] 5 [47; 100; 58] 1048576))
    (Lockspace (zeros 48) 0 0 (SyncDisk (zeros 8) 0 0 (-1))) =
  (0, Lockspace (strncpy 48 [76; 83]) 5 0 (SyncDisk [47; 100; 58; 0; 0; 0; 0; 0] 1048576 0 (-1))).
Proof.
  apply (lockspace_string [76; 83] 5 [47; 100; 58] 1048576 (Lockspace (zeros 48) 0 0 (SyncDisk (zeros 8) 0 0 (-1))));
    [apply (bool_decide_unpack _); by vm_compute|lia|lia|apply (bool_decide_unpack _); by vm_compute|by vm_compute].
Defined.
