(* ===== verification/Wdmd.v ===== *)
(** * The watchdog daemon ([src/wdmd/main.c])

    wdmd multiplexes the watchdog device of a host: each client gives the time at
    which it expires ([CMD_TEST_LIVE]), and the daemon keeps the device alive while
    no client is about to expire. The daemon is one thread; a turn of [test_loop]
    is a function of its state and of what the turn reads from outside: the events
    of [poll] with the messages received, the clock, and the results of system
    calls. The operations on the device are its output. Allocation of the client
    array is taken to succeed, as the code goes on with a NULL array otherwise. *)

From S2P Require Import Prelude.

(** ** Constants *)

Definition DEFAULT_TEST_INTERVAL : Z := 10.
Definition RECOVER_TEST_INTERVAL : Z := 1.
Definition DEFAULT_FIRE_TIMEOUT : Z := 60.
Definition CLIENT_NALLOC : nat := 16.
Definition MAX_SCRIPTS : nat := 8.
Definition EINTR : Z := 4.
Definition CMD_REGISTER : Z := 1.
Definition CMD_REFCOUNT_SET : Z := 2.
Definition CMD_REFCOUNT_CLEAR : Z := 3.
Definition CMD_TEST_LIVE : Z := 4.
Definition CMD_STATUS : Z := 5.
Definition CMD_DUMP_DEBUG : Z := 6.
Definition CMD_OPEN_WATCHDOG : Z := 7.
Definition POLLIN : Z := 1.
Definition SIGHUP : Z := 1.
Definition SIGINT : Z := 2.
Definition SIGTERM : Z := 15.

(** ** State *)

Record wdmd_header := WdmdHeader {
  wh_cmd : Z;
  wh_test_interval : Z;
  wh_fire_timeout : Z;
  wh_last_keepalive : Z;
  wh_renewal_time : Z;
  wh_expire_time : Z;
  wh_name : list Z
}.
#[export] Instance wdmd_header_settable : Settable wdmd_header := fun r =>
  WdmdHeader r.(wh_cmd) r.(wh_test_interval) r.(wh_fire_timeout) r.(wh_last_keepalive)
    r.(wh_renewal_time) r.(wh_expire_time) r.(wh_name).

Inductive workfn := ProcessListener | ProcessConnection | ProcessSignals.

(** [struct client]; [wc_deadfn] is whether the pointer is set, to
    [client_pid_dead]. *)
Record client := Client {
  wc_used : Z;
  wc_fd : Z;
  wc_pid : Z;
  wc_pid_dead : Z;
  wc_refcount : Z;
  wc_internal : Z;
  wc_renewal : Z;
  wc_expire : Z;
  wc_workfn : option workfn;
  wc_deadfn : bool;
  wc_name : list Z
}.
#[export] Instance client_settable : Settable client := fun r =>
  Client r.(wc_used) r.(wc_fd) r.(wc_pid) r.(wc_pid_dead) r.(wc_refcount) r.(wc_internal)
    r.(wc_renewal) r.(wc_expire) r.(wc_workfn) r.(wc_deadfn) r.(wc_name).

Definition client_zero : client := Client 0 (-1) 0 0 0 0 0 0 None false [].

(** [struct script_status]; a script without a name is an unused entry. *)
Record script_status := Script {
  ss_start : Z;
  ss_pid : Z;
  ss_last_result : Z;
  ss_run_count : Z;
  ss_fail_count : Z;
  ss_good_count : Z;
  ss_kill_count : Z;
  ss_long_count : Z;
  ss_name : list Z
}.
#[export] Instance script_settable : Settable script_status := fun r =>
  Script r.(ss_start) r.(ss_pid) r.(ss_last_result) r.(ss_run_count) r.(ss_fail_count)
    r.(ss_good_count) r.(ss_kill_count) r.(ss_long_count) r.(ss_name).

Definition script_zero : script_status := Script 0 0 0 0 0 0 0 0 [].

(** The globals, and the locals of [test_loop] that live across its turns. The
    poll array has a descriptor and events per client. *)
Record wdmd := Wdmd {
  w_client : list client;
  w_pollfd : list (Z * Z);
  client_maxi : Z;
  dev_fd : Z;
  test_loop_enable : Z;
  fire_timeout : Z;
  standard_test_interval : Z;
  test_interval : Z;
  last_keepalive : Z;
  last_closeunclean : Z;
  daemon_quit : Z;
  allow_scripts : Z;
  kill_script_sec : Z;
  w_scripts : list script_status;
  test_time : Z;
  resetting : Z;
  poll_timeout : Z
}.
#[export] Instance wdmd_settable : Settable wdmd := fun r =>
  Wdmd r.(w_client) r.(w_pollfd) r.(client_maxi) r.(dev_fd) r.(test_loop_enable) r.(fire_timeout)
    r.(standard_test_interval) r.(test_interval) r.(last_keepalive) r.(last_closeunclean)
    r.(daemon_quit) r.(allow_scripts) r.(kill_script_sec) r.(w_scripts) r.(test_time)
    r.(resetting) r.(poll_timeout).

Definition client_at (ci : nat) (s : wdmd) : client := nth ci s.(w_client) client_zero.
Definition set_client (ci : nat) (c : client) (s : wdmd) : wdmd :=
  s <| w_client := <[ci := c]> s.(w_client) |>.
Definition set_pollfd (ci : nat) (fd events : Z) (s : wdmd) : wdmd :=
  s <| w_pollfd := <[ci := (fd, events)]> s.(w_pollfd) |>.

(** ** Clients *)

Definition client_alloc (s : wdmd) : wdmd :=
  s <| w_client := s.(w_client) ++ replicate CLIENT_NALLOC client_zero |>
    <| w_pollfd := s.(w_pollfd) ++ replicate CLIENT_NALLOC (-1, 0) |>.

Fixpoint free_entry (l : list client) (i : nat) : option nat :=
  match l with
  | [] => None
  | c :: l => if c.(wc_used) =? 0 then Some i else free_entry l (S i)
  end.

Definition client_add (fd : Z) (work : workfn) (s : wdmd) : nat * wdmd :=
  let '(i, s) :=
    match free_entry s.(w_client) 0 with
    | Some i => (i, s)
    | None => (length s.(w_client), client_alloc s)
    end in
  let c := (client_at i s) <| wc_used := 1 |> <| wc_workfn := Some work |> <| wc_deadfn := true |>
             <| wc_fd := fd |> in
  let s := set_pollfd i fd POLLIN (set_client i c s) in
  (i, s <| client_maxi := Z.max s.(client_maxi) (Z.of_nat i) |>).

(** A client that has an expire time stays when its connection is closed. *)
Definition client_pid_dead (ci : nat) (s : wdmd) : wdmd :=
  let c := client_at ci s in
  let c' := if c.(wc_expire) =? 0 then client_zero
            else c <| wc_pid_dead := 1 |> <| wc_fd := -1 |> in
  set_pollfd ci (-1) 0 (set_client ci c' s).

Definition active_clients (s : wdmd) : bool := existsb (fun c => nz c.(wc_refcount)) s.(w_client).

(** [count_clients]: the clients in use with a reference, and those that are not
    internal. *)
Definition count (p : client -> bool) (l : list client) : Z := Z.of_nat (length (List.filter p l)).
Definition count_clients (s : wdmd) : Z * Z :=
  (count (fun c => nz c.(wc_used) && nz c.(wc_refcount)) s.(w_client),
   count (fun c => nz c.(wc_used) && (c.(wc_internal) =? 0)) s.(w_client)).

(** Fails before the expire time already, by the time between two tests. *)
Definition client_fails (t interval : Z) (c : client) : bool :=
  nz c.(wc_used) && nz c.(wc_expire) && ((c.(wc_expire) <=? t) || (u64 (c.(wc_expire) - interval) <=? t)).
Definition test_clients (t : Z) (s : wdmd) : Z := count (client_fails t s.(standard_test_interval)) s.(w_client).

(** ** The device *)

(** What is done to the device: it is opened (which starts it), kept alive, stopped
    by the magic close, or closed while it runs. *)
Inductive dev_event := DevOpen | DevPet | DevDisarm | DevClose.

Definition _init_test_interval (s : wdmd) : wdmd :=
  let n := if 60 <=? s.(fire_timeout) then 10
           else if 30 <=? s.(fire_timeout) then 5
           else if 10 <=? s.(fire_timeout) then 2 else 1 in
  s <| standard_test_interval := n |> <| test_interval := n |>.

(** [fd] is the result of [open]. *)
Definition open_dev (fd : Z) (s : wdmd) : Z * list dev_event * wdmd :=
  if negb (s.(dev_fd) =? -1) then (-1, [], s)
  else if fd <? 0 then (fd, [], s)
  else (0, [DevOpen], s <| dev_fd := fd |>).

(** [disarm]: the write of the magic character succeeds. *)
Definition close_watchdog (disarm : bool) (s : wdmd) : list dev_event * wdmd :=
  if s.(dev_fd) =? -1 then ([], s)
  else ([if disarm then DevDisarm else DevClose], s <| dev_fd := -1 |>).

Definition close_watchdog_unclean (now : Z) (s : wdmd) : list dev_event * wdmd :=
  if s.(dev_fd) =? -1 then ([], s)
  else ([DevClose], s <| dev_fd := -1 |> <| last_closeunclean := now |>).

(** The result of the [ioctl] is not looked at; without an open device it does
    nothing. *)
Definition pet_watchdog (now : Z) (s : wdmd) : list dev_event * wdmd :=
  (if s.(dev_fd) =? -1 then [] else [DevPet], s <| last_keepalive := now |>).

(** Results of system calls on the device: [open], the two [WDIOC_GETTIMEOUT],
    [WDIOC_SETTIMEOUT] with the timeout it stores back, the disarming write, and
    the clock. *)
Record dev_env := DevEnv {
  de_open : Z;
  de_get : option Z;
  de_set : option Z;
  de_get2 : option Z;
  de_disarm : bool;
  de_now : Z
}.

Definition open_success (e : dev_env) (timeout : Z) (s : wdmd) : Z * list dev_event * wdmd :=
  let '(ev, s) := pet_watchdog e.(de_now) (_init_test_interval (s <| fire_timeout := timeout |>)) in
  (0, ev, s <| test_loop_enable := 1 |>).

Definition open_failure (e : dev_env) (s : wdmd) : Z * list dev_event * wdmd :=
  let '(ev, s) := close_watchdog e.(de_disarm) s in (-1, ev, s).

(** The comparison of the timeout the device reports with the one in the message,
    which is unsigned. *)
Definition _open_watchdog (e : dev_env) (h : wdmd_header) (s : wdmd) : Z * list dev_event * wdmd :=
  if nz s.(test_loop_enable) then (0, [], s)
  else if h.(wh_fire_timeout) =? 0 then (-1, [], s)
  else
    let '(rv, ev, s) := open_dev e.(de_open) s in
    if rv <? 0 then (-1, ev, s)
    else
      let '(rv, ev', s) :=
        match e.(de_get) with
        | None => open_failure e s
        | Some get =>
            if u32 get =? h.(wh_fire_timeout) then open_success e get s
            else match e.(de_set), e.(de_get2) with
                 | Some set, Some get => if get =? set then open_success e get s else open_failure e s
                 | _, _ => open_failure e s
                 end
        end in
      (rv, ev ++ ev', s).

(** ** Scripts *)

Definition find_script (name : list Z) (s : wdmd) : bool :=
  existsb (fun x => bool_decide (cstr x.(ss_name) = cstr name)) s.(w_scripts).

Fixpoint add_script (name : list Z) (l : list script_status) : list script_status :=
  match l with
  | [] => []
  | x :: l => if nth 0 x.(ss_name) 0 =? 0 then (x <| ss_name := name |>) :: l else x :: add_script name l
  end.

(** The directory entries, each with the result of [check_path]. *)
Definition setup_scripts (dir : option (list (list Z * Z))) (s : wdmd) : wdmd :=
  if s.(allow_scripts) =? 0 then s
  else match dir with
  | None => s
  | Some l =>
      fold_left (fun s (entry : list Z * Z) =>
        let '(name, rv) := entry in
        if nth 0 name 0 =? 46 then s
        else if rv <? 0 then s
        else if find_script name s then s
        else s <| w_scripts := add_script name s.(w_scripts) |>) l s
  end.

Definition named (x : script_status) : bool := nz (nth 0 x.(ss_name) 0).

(** Starting a script; [pid] is the result of [run_script]. *)
Definition start_script (begin interval pid : Z) (x : script_status) : script_status :=
  if negb (named x) then x
  else if nz x.(ss_pid) then x
  else if (x.(ss_last_result) =? 0) && (u64 (begin - x.(ss_start)) <? u64 (interval - 1)) then x
  else if pid <=? 0 then script_zero
  else x <| ss_pid := pid |> <| ss_start := begin |> <| ss_run_count := u32 (x.(ss_run_count) + 1) |>.

(** What [waitpid] reports. *)
Inductive wait_result := WaitError | WaitRunning | WaitExited (status : Z) | WaitSignaled | WaitChanged | WaitOther.

(** One script: whether it still runs, whether it failed, and the script. The
    [SIGKILL] for one that runs longer than [kill_script_sec] shows in a later
    [waitpid]. *)
Definition wait_script (r : wait_result) (x : script_status) : bool * bool * script_status :=
  if negb (named x) || (x.(ss_pid) =? 0) then (false, false, x)
  else match r with
  | WaitExited 0 => (false, false, x <| ss_good_count := u32 (x.(ss_good_count) + 1) |> <| ss_last_result := 0 |>
                                     <| ss_pid := 0 |>)
  | WaitExited n => (false, true, x <| ss_fail_count := u32 (x.(ss_fail_count) + 1) |> <| ss_last_result := n |>
                                    <| ss_pid := 0 |>)
  | WaitSignaled => (false, true, x <| ss_kill_count := u32 (x.(ss_kill_count) + 1) |> <| ss_last_result := EINTR |>
                                    <| ss_pid := 0 |>)
  | WaitError | WaitRunning | WaitChanged | WaitOther => (true, false, x)
  end.

(** A pass over the scripts from index [i] on: how many run, how many failed. *)
Fixpoint wait_round (wait : nat -> wait_result) (i : nat) (l : list script_status)
    : Z * Z * list script_status :=
  match l with
  | [] => (0, 0, [])
  | x :: l =>
      let '(running, failed, x) := wait_script (wait i) x in
      let '(r, f, l) := wait_round wait (S i) l in
      ((if running : bool then 1 else 0) + r, (if failed : bool then 1 else 0) + f, x :: l)
  end.

(** The wait loop: each round has the results of [waitpid] and the clock. [None]
    when the rounds do not suffice. *)
Fixpoint wait_scripts (rounds : list ((nat -> wait_result) * Z)) (begin interval : Z) (fails : Z)
    (l : list script_status) : option (Z * Z * list script_status) :=
  match rounds with
  | [] => None
  | (wait, now) :: rounds =>
      let '(running, f, l) := wait_round wait 0 l in
      if running =? 0 then Some (0, fails + f, l)
      else if u64 (interval - 1) <=? u64 (now - begin) then Some (running, fails + f, l)
      else wait_scripts rounds begin interval (fails + f) l
  end.

Definition long_script (x : script_status) : script_status :=
  if named x && nz x.(ss_pid) then x <| ss_long_count := u32 (x.(ss_long_count) + 1) |> else x.

(** The clock, the results of [run_script] and the rounds of the wait loop. *)
Record script_env := ScriptEnv {
  se_begin : Z;
  se_run : nat -> Z;
  se_rounds : list ((nat -> wait_result) * Z)
}.

Definition test_scripts (e : script_env) (s : wdmd) : option (Z * wdmd) :=
  if s.(allow_scripts) =? 0 then Some (0, s)
  else
    let interval := s.(standard_test_interval) in
    let l := imap (fun i => start_script e.(se_begin) interval (e.(se_run) i)) s.(w_scripts) in
    r ← wait_scripts e.(se_rounds) e.(se_begin) interval 0 l;
    let '(running, fails, l) := r in
    if running =? 0 then Some (fails, s <| w_scripts := l |>)
    else Some (fails + Z.of_nat (length (List.filter (fun x => named x && nz x.(ss_pid)) l)),
               s <| w_scripts := long_script <$> l |>).

(** Tests of files are not built. *)
Definition test_files : Z := 0.

(** ** Handlers *)

(** What [recv] gives: nothing, an error or a short message, or a message. With it
    come the pid of the peer, for [CMD_REGISTER], and the results of system calls
    on the device, for [CMD_OPEN_WATCHDOG]. *)
Inductive conn_input :=
  | RecvEof
  | RecvBad
  | RecvMsg (h : wdmd_header) (peer : option Z) (e : dev_env).

Definition dead (ci : nat) (s : wdmd) : wdmd :=
  if (client_at ci s).(wc_deadfn) then client_pid_dead ci s else s.

Definition on_client (ci : nat) (f : client -> client) (s : wdmd) : wdmd := set_client ci (f (client_at ci s)) s.

(** The operations on the device, the reply, and the state. *)
Definition process_connection (rx : conn_input) (ci : nat) (s : wdmd)
    : list dev_event * option wdmd_header * wdmd :=
  match rx with
  | RecvEof => ([], None, s)
  | RecvBad => ([], None, dead ci s)
  | RecvMsg h peer e =>
      let cmd := h.(wh_cmd) in
      if cmd =? CMD_REGISTER then
        match peer with
        | None => ([], None, dead ci s)
        | Some pid => ([], None, on_client ci (fun c => c <| wc_pid := pid |> <| wc_name := h.(wh_name) |>) s)
        end
      else if cmd =? CMD_REFCOUNT_SET then ([], None, on_client ci (fun c => c <| wc_refcount := 1 |>) s)
      else if cmd =? CMD_REFCOUNT_CLEAR then ([], None, on_client ci (fun c => c <| wc_refcount := 0 |>) s)
      else if cmd =? CMD_OPEN_WATCHDOG then
        let '(rv, ev, s) := _open_watchdog e h s in
        (ev, Some (h <| wh_fire_timeout := if rv <? 0 then 0 else u32 s.(fire_timeout) |>), s)
      else if cmd =? CMD_TEST_LIVE then
        ([], None, on_client ci (fun c => c <| wc_renewal := h.(wh_renewal_time) |>
                                            <| wc_expire := h.(wh_expire_time) |>) s)
      else if cmd =? CMD_STATUS then
        ([], Some (h <| wh_test_interval := u32 s.(test_interval) |> <| wh_fire_timeout := u32 s.(fire_timeout) |>
                     <| wh_last_keepalive := s.(last_keepalive) |>), s)
      else if cmd =? CMD_DUMP_DEBUG then ([], None, on_client ci (fun c => c <| wc_name := [100; 117; 109; 112; 0] |>) s)
      else ([], None, s)
  end.

(** [fd] is the result of [accept]. *)
Definition process_listener (fd : Z) (s : wdmd) : wdmd :=
  if fd <? 0 then s else snd (client_add fd ProcessConnection s).

(** The signal that is read, and the scripts directory. *)
Definition process_signals (signo : option Z) (dir : option (list (list Z * Z))) (s : wdmd) : wdmd :=
  match signo with
  | None => s
  | Some n =>
      let s := if ((n =? SIGTERM) || (n =? SIGINT)) && negb (active_clients s) then s <| daemon_quit := 1 |> else s in
      if n =? SIGHUP then setup_scripts dir s else s
  end.

(** ** [test_loop] *)

(** What [poll] reports of an entry, and what its handler reads. *)
Record poll_in := PollIn {
  pi_in : bool;
  pi_dead : bool;
  pi_conn : conn_input;
  pi_accept : Z;
  pi_signal : option Z;
  pi_dir : option (list (list Z * Z))
}.

Definition call_workfn (p : poll_in) (i : nat) (s : wdmd) : list dev_event * wdmd :=
  match (client_at i s).(wc_workfn) with
  | None => ([], s)
  | Some ProcessListener => ([], process_listener p.(pi_accept) s)
  | Some ProcessConnection => let '(ev, _, s) := process_connection p.(pi_conn) i s in (ev, s)
  | Some ProcessSignals => ([], process_signals p.(pi_signal) p.(pi_dir) s)
  end.

Definition visit (p : poll_in) (i : nat) (s : wdmd) : list dev_event * wdmd :=
  if (client_at i s).(wc_fd) <? 0 then ([], s)
  else
    let '(ev, s) := if p.(pi_in) then call_workfn p i s else ([], s) in
    (ev, if p.(pi_dead) then dead i s else s).

(** The entries of the indices [l]. An entry that is added during the loop was not
    polled. *)
Fixpoint visits (poll : nat -> poll_in) (l : list nat) (s : wdmd) : list dev_event * wdmd :=
  match l with
  | [] => ([], s)
  | i :: l =>
      let '(ev, s) := visit (poll i) i s in
      let '(evs, s) := visits poll l s in (ev ++ evs, s)
  end.

(** What a turn reads: [poll] and the handlers; the write that disarms; the clock
    when it looks whether a test is due, when it takes [test_time], in
    [test_clients], at the operation on the device and at the end; the scripts; the
    result of opening the device again. *)
Record turn_in := TurnIn {
  ti_poll : nat -> poll_in;
  ti_disarm : bool;
  ti_now : Z;
  ti_test : Z;
  ti_scripts : script_env;
  ti_clients : Z;
  ti_open : Z;
  ti_ping : Z;
  ti_sleep : Z
}.

(** The device after a test with [fail_count] failures. *)
Definition test_result (ti : turn_in) (fail_count : Z) (s : wdmd) : list dev_event * wdmd :=
  if fail_count =? 0 then
    let '(ev, s) := if s.(dev_fd) =? -1 then let '(_, ev, s) := open_dev ti.(ti_open) s in (ev, s) else ([], s) in
    let '(ev', s) := pet_watchdog ti.(ti_ping) s in
    (ev ++ ev', s <| test_interval := s.(standard_test_interval) |> <| resetting := 0 |>)
  else
    let '(ev, s) := close_watchdog_unclean ti.(ti_ping) s in
    (ev, s <| test_interval := RECOVER_TEST_INTERVAL |> <| resetting := 1 |>).

Definition test_now (ti : turn_in) (s : wdmd) : option (list dev_event * wdmd) :=
  r ← test_scripts ti.(ti_scripts) (s <| test_time := ti.(ti_test) |>);
  let '(scripts, s) := r in
  Some (test_result ti (test_files + scripts + test_clients ti.(ti_clients) s) s).

Definition set_poll_timeout (now : Z) (s : wdmd) : wdmd :=
  let sleep_seconds := i32 (s.(test_time) + s.(test_interval) - now) in
  s <| poll_timeout := if 0 <? sleep_seconds then sleep_seconds * 1000 else 500 |>.

(** How a turn ends, with the time of the test when there was one. *)
Inductive turn_end := Quit | Again (tested : option Z).

(** From the return of [poll] on; [None] when the rounds given for the scripts do
    not suffice. *)
Definition test_loop_turn (ti : turn_in) (s : wdmd) : option (turn_end * list dev_event * wdmd) :=
  let '(ev, s) := visits ti.(ti_poll) (seq 0 (Z.to_nat (s.(client_maxi) + 1))) s in
  let '(active, external) := count_clients s in
  if nz s.(daemon_quit) && (active =? 0) then Some (Quit, ev, s)
  else if s.(test_loop_enable) =? 0 then Some (Again None, ev, s)
  else if (active =? 0) && (external =? 0) && (s.(resetting) =? 0) then
    let '(ev', s) := close_watchdog ti.(ti_disarm) s in
    let s := s <| test_loop_enable := 0 |> <| test_interval := s.(standard_test_interval) |> in
    Some (Again None, ev ++ ev', s <| poll_timeout := s.(test_interval) * 1000 |> <| test_time := 0 |>)
  else if s.(test_interval) <=? u64 (ti.(ti_now) - s.(test_time)) then
    r ← test_now ti s;
    let '(ev', s) := r in
    Some (Again (Some ti.(ti_clients)), ev ++ ev', set_poll_timeout ti.(ti_sleep) s)
  else Some (Again None, ev, set_poll_timeout ti.(ti_sleep) s).

(** [test_loop] for the given turns: for each the time of its test and the
    operations on the device. After [Quit] the rest is not used, and [main] closes
    the device. *)
Fixpoint test_loop (l : list turn_in) (s : wdmd) : option (bool * list (option Z * list dev_event) * wdmd) :=
  match l with
  | [] => Some (false, [], s)
  | ti :: l =>
      r ← test_loop_turn ti s;
      let '(e, ev, s) := r in
      match e with
      | Quit =>
          let '(ev', s) := close_watchdog ti.(ti_disarm) s in Some (true, [(None, ev ++ ev')], s)
      | Again t =>
          r ← test_loop l s;
          let '(q, tr, s) := r in Some (q, (t, ev) :: tr, s)
      end
  end.

(** ** Startup *)

Definition wdmd_zero (scripts kill : Z) : wdmd :=
  Wdmd [] [] 0 (-1) 0 DEFAULT_FIRE_TIMEOUT DEFAULT_TEST_INTERVAL DEFAULT_TEST_INTERVAL 0 0 0 scripts kill
    (replicate MAX_SCRIPTS script_zero) 0 0 (DEFAULT_TEST_INTERVAL * 1000).

Definition add_internal (fd : Z) (work : workfn) (name : list Z) (s : wdmd) : wdmd :=
  let '(ci, s) := client_add fd work s in
  on_client ci (fun c => c <| wc_name := name |> <| wc_internal := 1 |>) s.

(** [setup_signals], [setup_scripts] and [setup_clients]. *)
Definition wdmd_start (scripts kill signal_fd listen_fd : Z) (dir : option (list (list Z * Z))) : wdmd :=
  add_internal listen_fd ProcessListener [108; 105; 115; 116; 101; 110; 0]
    (setup_scripts dir
       (add_internal signal_fd ProcessSignals [115; 105; 103; 110; 97; 108; 0] (wdmd_zero scripts kill))).

(** [_setup_watchdog] with the results of [stat], [open], [WDIOC_GETTIMEOUT] and the
    disarming write. *)
Definition _setup_watchdog (stat open : Z) (get disarm : bool) (s : wdmd) : Z * list dev_event * wdmd :=
  if stat <? 0 then (-1, [], s)
  else
    let '(rv, ev, s) := open_dev open s in
    if rv <? 0 then (-1, ev, s)
    else let '(ev', s) := close_watchdog disarm s in (if get then 0 else -1, ev ++ ev', s).

(** ** Scripts *)

Lemma wait_round_nonneg wait i l : 0 <= fst (fst (wait_round wait i l)) /\ 0 <= snd (fst (wait_round wait i l)).
Proof.
  revert i. induction l as [|x l IH]; intros i; cbn; [done|].
  destruct (wait_script (wait i) x) as [[r f] x']. specialize (IH (S i)).
  destruct (wait_round wait (S i) l) as [[r' f'] l']. cbn in *. destruct r, f; lia.
Qed.

(** The wait loop ends when the clock gets there. *)
Definition enough_rounds (interval : Z) (e : script_env) : Prop :=
  Exists (fun r : _ * Z => u64 (interval - 1) <= u64 (snd r - e.(se_begin))) e.(se_rounds).

Lemma wait_scripts_total rounds begin interval fails l :
  Exists (fun r : _ * Z => u64 (interval - 1) <= u64 (snd r - begin)) rounds -> 0 <= fails ->
  exists running n l', wait_scripts rounds begin interval fails l = Some (running, n, l') /\ 0 <= n.
Proof.
  intros He. revert fails l. induction He as [[wait now] rounds Hr|[wait now] rounds He IH]; intros fails l Hf; cbn;
    pose proof (wait_round_nonneg wait 0 l) as [Hn1 Hn2]; destruct (wait_round wait 0 l) as [[r f] l']; cbn in *.
  - destruct (r =? 0); [do 3 eexists; split; [done|lia]|].
    rw (proj2 (Z.leb_le _ _) Hr). do 3 eexists. split; [done|lia].
  - destruct (r =? 0); [do 3 eexists; split; [done|lia]|].
    destruct (_ <=? _); [do 3 eexists; split; [done|lia]|]. apply IH. lia.
Qed.

Lemma test_scripts_total e s :
  enough_rounds s.(standard_test_interval) e ->
  exists n s', test_scripts e s = Some (n, s') /\ 0 <= n /\ s' = s <| w_scripts := s'.(w_scripts) |>.
Proof.
  intros He. unfold test_scripts. destruct (_ =? 0); [by exists 0, s; destruct s|].
  set (l := imap _ _). destruct (wait_scripts_total _ _ _ 0 l He) as (running & n & l' & -> & Hn); [done|].
  cbn. destruct (running =? 0); do 2 eexists; (split; [done|]); (split; [lia|done]).
Qed.

(** ** A client that is monitored *)

(** The client counts as before; a reference may be added. *)
Record still (c c' : client) : Prop := Still {
  sl_used : c'.(wc_used) = c.(wc_used);
  sl_internal : c'.(wc_internal) = c.(wc_internal);
  sl_expire : c'.(wc_expire) = c.(wc_expire);
  sl_refcount : nz c.(wc_refcount) = true -> nz c'.(wc_refcount) = true
}.

(** The entry [ci] is a client with a reference and the expire time [e], and the
    device is in use with tests every [interval] seconds. *)
Record monitored (ci : nat) (e interval : Z) (s : wdmd) : Prop := Monitored {
  mo_client : exists c, s.(w_client) !! ci = Some c /\ nz c.(wc_used) = true /\ c.(wc_internal) = 0 /\
                        nz c.(wc_refcount) = true /\ c.(wc_expire) = e;
  mo_expire : e <> 0;
  mo_enable : s.(test_loop_enable) <> 0;
  mo_interval : s.(standard_test_interval) = interval
}.

(** It does not renew and keeps its reference. *)
Definition silent (rx : conn_input) : Prop :=
  match rx with RecvMsg h _ _ => h.(wh_cmd) <> CMD_TEST_LIVE /\ h.(wh_cmd) <> CMD_REFCOUNT_CLEAR | _ => True end.

(** What the handlers leave alone. *)
Record quiet (ci : nat) (s s' : wdmd) : Prop := Quiet {
  qu_client : forall c, s.(w_client) !! ci = Some c -> nz c.(wc_used) = true -> c.(wc_expire) <> 0 ->
              exists c', s'.(w_client) !! ci = Some c' /\ still c c';
  qu_enable : s'.(test_loop_enable) = s.(test_loop_enable);
  qu_interval : s'.(standard_test_interval) = s.(standard_test_interval);
  qu_dev : s'.(dev_fd) = s.(dev_fd);
  qu_allow : s'.(allow_scripts) = s.(allow_scripts)
}.

(** The rest of the state may change. *)
Lemma quiet_same ci s s' :
  s'.(w_client) = s.(w_client) -> s'.(test_loop_enable) = s.(test_loop_enable) ->
  s'.(standard_test_interval) = s.(standard_test_interval) -> s'.(dev_fd) = s.(dev_fd) ->
  s'.(allow_scripts) = s.(allow_scripts) -> quiet ci s s'.
Proof. intros E1 E2 E3 E4 E5. constructor; try done. rw E1. intros c Hc _ _. by exists c. Qed.

Lemma quiet_refl ci s : quiet ci s s.
Proof. by apply quiet_same. Qed.

Lemma quiet_trans ci s1 s2 s3 : quiet ci s1 s2 -> quiet ci s2 s3 -> quiet ci s1 s3.
Proof.
  intros [C1 E1 I1 D1 A1] [C2 E2 I2 D2 A2]. constructor; [|congruence..]. intros c Hc Hu He.
  destruct (C1 c Hc Hu He) as (c' & Hc' & [K1 K2 K3 K4]).
  destruct (C2 c' Hc') as (c'' & Hc'' & [L1 L2 L3 L4]); [congruence..|]. exists c''. split; [done|].
  constructor; [congruence..|auto].
Qed.

Lemma quiet_monitored ci e interval s s' : quiet ci s s' -> monitored ci e interval s -> monitored ci e interval s'.
Proof.
  intros [C E I D A] [(c & Hc & Hu & Hi & Hr & He) Hne Hen Hin].
  destruct (C c Hc Hu) as (c' & Hc' & [K1 K2 K3 K4]); [congruence|].
  constructor; [|done|congruence..]. exists c'. split_and!; [done|congruence..|auto|congruence].
Qed.

(** A change of the entry [i]. *)
Lemma quiet_set ci i c' s :
  (i = ci -> forall c, s.(w_client) !! ci = Some c -> nz c.(wc_used) = true -> c.(wc_expire) <> 0 ->
     still c c') ->
  quiet ci s (set_client i c' s).
Proof.
  intros H. constructor; try done. intros c Hc Hu He. cbn. destruct (decide (i = ci)) as [->|Hne].
  - exists c'. split; [|by apply H]. apply list_lookup_insert_eq. by eapply lookup_lt_Some.
  - exists c. split; [|done]. by rw list_lookup_insert_ne.
Qed.

Lemma wd_client_lookup ci s c : s.(w_client) !! ci = Some c -> client_at ci s = c.
Proof. apply nth_lookup_Some. Qed.

Lemma quiet_on ci i f s :
  (i = ci -> forall c, still c (f c)) -> quiet ci s (on_client i f s).
Proof.
  intros H. apply quiet_set. intros -> c Hc _ _. rw (wd_client_lookup _ _ _ Hc). by apply H.
Qed.

Lemma quiet_dead ci i s : quiet ci s (dead i s).
Proof.
  unfold dead. destruct (wc_deadfn _); [|apply quiet_refl]. unfold client_pid_dead.
  eapply (quiet_trans _ _ (set_client i _ s)); [apply quiet_set|by apply quiet_same].
  intros -> c Hc _ He. rw (wd_client_lookup _ _ _ Hc) (proj2 (Z.eqb_neq _ _) He). done.
Qed.

Lemma wd_free_entry l i j : free_entry l i = Some j -> exists k c, j = (i + k)%nat /\ l !! k = Some c /\ c.(wc_used) = 0.
Proof.
  revert i. induction l as [|c l IH]; intros i; cbn; [done|].
  destruct (Z.eqb_spec c.(wc_used) 0).
  - intros [= <-]. exists 0%nat, c. split_and!; [lia|done..].
  - intros (k & c' & -> & Hk & Hu)%IH. exists (S k), c'. split_and!; [lia|done..].
Qed.

(** A new connection gets another entry. *)
Lemma quiet_add ci fd work s : quiet ci s (snd (client_add fd work s)).
Proof.
  unfold client_add. destruct (free_entry s.(w_client) 0) as [i|] eqn:Ef; cbn [snd].
  - apply wd_free_entry in Ef as (k & c0 & -> & Hk & Hu0). cbn [Nat.add].
    eapply (quiet_trans _ _ (set_client k _ s)); [apply quiet_set|by apply quiet_same].
    intros -> c Hc Hu. rw Hk in Hc. injection Hc as <-. by rw Hu0 in Hu.
  - constructor; try done. intros c Hc _ _. exists c. split; [|done]. cbn.
    apply lookup_lt_Some in Hc as Hlt. rw list_lookup_insert_ne; [lia|]. by apply lookup_app_l_Some.
Qed.

Lemma quiet_scripts ci dir s : quiet ci s (setup_scripts dir s).
Proof.
  unfold setup_scripts. destruct (_ =? 0); [apply quiet_refl|]. destruct dir as [l|]; [|apply quiet_refl].
  revert s. induction l as [|[name rv] l IH]; intros s; cbn [fold_left]; [apply quiet_refl|].
  eapply quiet_trans; [|apply IH]. cases; by apply quiet_same.
Qed.

(** ** Handlers leave a monitored client alone *)

Lemma open_enabled e h s : s.(test_loop_enable) <> 0 -> _open_watchdog e h s = (0, [], s).
Proof. intros H. unfold _open_watchdog, nz. by rw (proj2 (Z.eqb_neq _ _) H). Qed.

Lemma process_connection_quiet rx i ci s :
  (i = ci -> silent rx) -> s.(test_loop_enable) <> 0 ->
  exists reply s', process_connection rx i s = ([], reply, s') /\ quiet ci s s'.
Proof.
  intros Hs Hen. unfold process_connection. destruct rx as [| |h peer e]; [by eauto using quiet_refl|by eauto using quiet_dead|].
  assert (forall f, (i = ci -> forall c, still c (f c)) -> exists reply s',
            ([] : list dev_event, None : option wdmd_header, on_client i f s) = ([], reply, s') /\ quiet ci s s') as Hon.
  { intros f Hf. do 2 eexists. split; [done|]. by apply quiet_on. }
  destruct (_ =? CMD_REGISTER); [destruct peer; [by apply Hon|by eauto using quiet_dead]|].
  destruct (_ =? CMD_REFCOUNT_SET); [by apply Hon|].
  destruct (Z.eqb_spec h.(wh_cmd) CMD_REFCOUNT_CLEAR); [apply Hon; intros E; by destruct (Hs E)|].
  destruct (_ =? CMD_OPEN_WATCHDOG); [rw open_enabled; [done|]; by eauto using quiet_refl|].
  destruct (Z.eqb_spec h.(wh_cmd) CMD_TEST_LIVE); [apply Hon; intros E; by destruct (Hs E)|].
  destruct (_ =? CMD_STATUS); [by eauto using quiet_refl|].
  destruct (_ =? CMD_DUMP_DEBUG); [by apply Hon|by eauto using quiet_refl].
Qed.

Lemma visit_quiet p i ci s :
  (i = ci -> silent p.(pi_conn)) -> s.(test_loop_enable) <> 0 ->
  exists s', visit p i s = ([], s') /\ quiet ci s s'.
Proof.
  intros Hs Hen. unfold visit. destruct (_ <? 0); [by eauto using quiet_refl|].
  assert (exists s1, (if p.(pi_in) then call_workfn p i s else ([], s)) = ([], s1) /\ quiet ci s s1) as (s1 & -> & H1).
  { destruct (pi_in p); [|by eauto using quiet_refl]. unfold call_workfn.
    destruct (wc_workfn _) as [[]|]; [..|by eauto using quiet_refl].
    - eexists. split; [done|]. unfold process_listener. destruct (_ <? 0); [apply quiet_refl|apply quiet_add].
    - destruct (process_connection_quiet p.(pi_conn) i ci s Hs Hen) as (reply & s1 & -> & H1). by eauto.
    - eexists. split; [done|]. unfold process_signals. destruct (pi_signal p) as [n|]; [|apply quiet_refl].
      destruct (_ && negb _); destruct (n =? SIGHUP); try (by apply quiet_same);
        (eapply quiet_trans; [|apply quiet_scripts]); by apply quiet_same. }
  eexists. split; [done|]. destruct (pi_dead p); [|done]. eapply quiet_trans; [done|apply quiet_dead].
Qed.

Lemma visits_quiet poll l ci s :
  (ci ∈ l -> silent (poll ci).(pi_conn)) -> s.(test_loop_enable) <> 0 ->
  exists s', visits poll l s = ([], s') /\ quiet ci s s'.
Proof.
  revert s. induction l as [|i l IH]; intros s Hs Hen; cbn [visits]; [by eauto using quiet_refl|].
  destruct (visit_quiet (poll i) i ci s) as (s1 & -> & H1); [intros ->; apply Hs, list_elem_of_here|done|].
  destruct (IH s1) as (s2 & -> & H2); [intros; by apply Hs, list_elem_of_further|by rw (qu_enable _ _ _ H1)|].
  eexists. split; [done|]. by eapply quiet_trans.
Qed.

(** ** A turn *)

Lemma count_pos p l i c : l !! i = Some c -> p c = true -> 1 <= count p l.
Proof.
  intros Hi Hp. assert (c ∈ List.filter p l) as Hin.
  { apply list_elem_of_In, filter_In. split; [|done]. apply list_elem_of_In. by eapply list_elem_of_lookup_2. }
  unfold count. destruct (List.filter p l); [by apply elem_of_nil in Hin|]. cbn. lia.
Qed.

Lemma monitored_counts ci e interval s :
  monitored ci e interval s -> 1 <= fst (count_clients s) /\ 1 <= snd (count_clients s).
Proof.
  intros [(c & Hc & Hu & Hi & Hr & He) _ _ _]. split; eapply count_pos; try done; cbn.
  - by rw Hu Hr.
  - by rw Hu Hi.
Qed.

Lemma monitored_fails ci e interval t s :
  monitored ci e interval s -> 0 <= interval <= e -> e < 2 ^ 64 ->
  0 <= test_clients t s /\ (e - interval <= t -> 1 <= test_clients t s).
Proof.
  intros [(c & Hc & Hu & Hi & Hr & He) Hne Hen Hin] Hb Hmax. split; [unfold test_clients, count; lia|].
  intros Ht. unfold test_clients. rw Hin. eapply count_pos; [done|]. unfold client_fails.
  rw Hu He. unfold nz. rw (proj2 (Z.eqb_neq _ _) Hne). cbn [negb andb].
  assert (u64 (e - interval) = e - interval) as -> by (apply wrapu_small; unfold is_u; lia).
  apply orb_true_iff. right. lia.
Qed.

(** A list of operations without disarming. *)
Ltac no_disarm := repeat (apply not_elem_of_cons; split; [done|]); apply not_elem_of_nil.

(** The device after a test. *)
Lemma test_result_spec ti n s ci :
  exists ev s', test_result ti n s = (ev, s') /\ (DevDisarm ∉ ev) /\
    (forall e interval, monitored ci e interval s -> monitored ci e interval s') /\
    (n <> 0 -> ev = (if (s.(dev_fd) =? -1) then [] else [DevClose]) /\ s'.(dev_fd) = -1).
Proof.
  assert (forall s', s'.(w_client) = s.(w_client) -> s'.(test_loop_enable) = s.(test_loop_enable) ->
            s'.(standard_test_interval) = s.(standard_test_interval) ->
            forall e interval, monitored ci e interval s -> monitored ci e interval s') as Hm.
  { intros s' E1 E2 E3 e interval []. constructor; [by rw E1|congruence..]. }
  unfold test_result. destruct (Z.eqb_spec n 0) as [->|Hn].
  - unfold open_dev, pet_watchdog.
    destruct (Z.eqb_spec s.(dev_fd) (-1)) as [E|E]; [destruct (_ <? 0)|]; cbn [negb];
      do 2 eexists; (split_and!; [done| |by apply Hm|done]); cbn; rw ?E /=; cases; no_disarm.
  - unfold close_watchdog_unclean. destruct (Z.eqb_spec s.(dev_fd) (-1));
      do 2 eexists; (split_and!; [done|no_disarm|by apply Hm|done]).
Qed.

(** A turn while the client is monitored: there is no quitting and no closing for
    lack of use; a test at a time when the client is about to expire only closes the
    device. *)
Lemma turn_monitored ci e interval ti s :
  monitored ci e interval s -> 0 <= interval <= e -> e < 2 ^ 64 ->
  silent (ti.(ti_poll) ci).(pi_conn) -> enough_rounds interval ti.(ti_scripts) ->
  exists tested ev s', test_loop_turn ti s = Some (Again tested, ev, s') /\ monitored ci e interval s' /\
    (DevDisarm ∉ ev) /\
    match tested with
    | None => ev = [] /\ s'.(dev_fd) = s.(dev_fd)
    | Some t => t = ti.(ti_clients) /\
        (e - interval <= t -> ev = (if (s.(dev_fd) =? -1) then [] else [DevClose]) /\ s'.(dev_fd) = -1)
    end.
Proof.
  intros Hm Hb Hmax Hs Hr. unfold test_loop_turn.
  destruct (visits_quiet ti.(ti_poll) (seq 0 (Z.to_nat (s.(client_maxi) + 1))) ci s (fun _ => Hs) (mo_enable _ _ _ _ Hm)) as (s1 & -> & Hq).
  pose proof (quiet_monitored _ _ _ _ _ Hq Hm) as Hm1.
  pose proof (monitored_counts _ _ _ _ Hm1) as [Hc1 Hc2]. destruct (count_clients s1) as [active external]. cbn [fst snd] in *.
  assert ((active =? 0) = false) as -> by lia. rw andb_false_r.
  rw (proj2 (Z.eqb_neq _ _) (mo_enable _ _ _ _ Hm1)). cbn [andb].
  destruct (_ <=? _).
  - unfold test_now. set (s2 := s1 <| test_time := _ |>).
    destruct (test_scripts_total ti.(ti_scripts) s2) as (n & s3 & -> & Hn & E3).
    { by rw (mo_interval _ _ _ _ Hm1 : s2.(standard_test_interval) = interval). }
    cbn [mbind option_bind].
    assert (monitored ci e interval s3) as Hm3 by (rw E3; destruct Hm1; by constructor).
    pose proof (monitored_fails _ _ _ ti.(ti_clients) _ Hm3 Hb Hmax) as [Hf0 Hf].
    destruct (test_result_spec ti (test_files + n + test_clients ti.(ti_clients) s3) s3 ci) as (ev & s4 & -> & Hd & Hm4 & Hcl).
    do 3 eexists. split; [done|]. split; [by destruct (Hm4 _ _ Hm3)|]. split; [done|]. split; [done|].
    intros Ht. unfold test_files in Hcl. destruct Hcl as [-> Hdev]; [specialize (Hf Ht); lia|].
    split; [|done]. cbn [app]. rw E3. cbn. by rw (qu_dev _ _ _ Hq).
  - do 3 eexists. split; [done|]. split_and!; [by destruct Hm1|no_disarm|done|]. cbn. by rw (qu_dev _ _ _ Hq).
Qed.

(** ** Theorems *)

(** What the turns read keeps to the assumptions: the client is silent, the scripts
    are waited for long enough. *)
Definition turns_ok (ci : nat) (interval : Z) (l : list turn_in) : Prop :=
  Forall (fun ti => silent (ti.(ti_poll) ci).(pi_conn) /\ enough_rounds interval ti.(ti_scripts)) l.

(** The clock of [test_clients] does not go back. *)
Fixpoint times_from (t : Z) (l : list turn_in) : Prop :=
  match l with [] => True | ti :: l => t <= ti.(ti_clients) /\ times_from ti.(ti_clients) l end.

Lemma times_from_le t t' l : t <= t' -> times_from t' l -> times_from t l.
Proof. destruct l; cbn; [done|]. intros H []. split; [lia|done]. Qed.

(** Once the device is closed and the client about to expire, nothing is done to
    the device. *)
Lemma left_alone ci e interval l s :
  monitored ci e interval s -> 0 <= interval <= e -> e < 2 ^ 64 -> turns_ok ci interval l ->
  times_from (e - interval) l -> s.(dev_fd) = -1 ->
  exists tr s', test_loop l s = Some (false, tr, s') /\ monitored ci e interval s' /\ s'.(dev_fd) = -1 /\
    Forall (fun x => x.2 = []) tr.
Proof.
  intros Hm Hb Hmax. revert s Hm. induction l as [|ti l IH]; intros s Hm Hl Ht Hd; cbn [test_loop].
  { by exists [], s. }
  apply list.Forall_cons in Hl as [[Hs Hr] Hl]. destruct Ht as [Ht Htl].
  destruct (turn_monitored ci e interval ti s Hm Hb Hmax Hs Hr) as (tested & ev & s1 & -> & Hm1 & _ & Hev).
  cbn [mbind option_bind].
  assert (ev = [] /\ s1.(dev_fd) = -1) as [-> Hd1].
  { destruct tested as [t|]; [|destruct Hev; split; [done|congruence]]. destruct Hev as [-> Hev].
    destruct (Hev Ht) as [-> Hd1]. by rw Hd. }
  destruct (IH s1 Hm1 Hl) as (tr & s' & -> & Hm' & Hd' & Htr); [by eapply times_from_le|done|].
  cbn [mbind option_bind]. do 2 eexists. split_and!; [done..|]. by constructor.
Qed.

(** C16: A host whose client stops renewing is reset. While a client has a
    reference and an expire time, and neither renews nor clears them (also when its
    process dies), the daemon does not quit and does not disarm the device, whatever
    other clients do; it ends each of its turns, and a test within [interval] seconds
    of the expire time or later closes the device without disarming it, after which
    it is not opened or kept alive any more. *)
Theorem watchdog_left_to_fire ci e interval l s t0 :
  monitored ci e interval s -> 0 <= interval <= e -> e < 2 ^ 64 -> turns_ok ci interval l -> times_from t0 l ->
  exists tr s', test_loop l s = Some (false, tr, s') /\ monitored ci e interval s' /\
    Forall (fun x => DevDisarm ∉ x.2) tr /\
    forall i t ev, tr !! i = Some (Some t, ev) -> e - interval <= t ->
      (ev = [] \/ ev = [DevClose]) /\ s'.(dev_fd) = -1 /\ Forall (fun x => x.2 = []) (drop (S i) tr).
Proof.
  intros Hm Hb Hmax. revert s t0 Hm. induction l as [|ti l IH]; intros s t0 Hm Hl Ht; cbn [test_loop].
  { exists [], s. split_and!; try done. }
  apply list.Forall_cons in Hl as [[Hs Hr] Hl]. destruct Ht as [Ht Htl].
  destruct (turn_monitored ci e interval ti s Hm Hb Hmax Hs Hr) as (tested & ev & s1 & -> & Hm1 & Hnd & Hev).
  cbn [mbind option_bind].
  destruct (IH s1 _ Hm1 Hl Htl) as (tr & s' & E & Hm' & Hd' & Htr). rewrite -> E. cbn [mbind option_bind].
  do 2 eexists. split; [done|]. split; [done|]. split; [by constructor|]. intros [|i] t ev' Hi Hlt; [|by eapply Htr].
  injection Hi as -> <-. destruct Hev as [-> Hev]. destruct (Hev Hlt) as [-> Hd].
  destruct (left_alone ci e interval l s1 Hm1 Hb Hmax Hl) as (tr2 & s2 & E2 & _ & Hd2 & Htr2);
    [by eapply times_from_le|done|]. rewrite -> E in E2. injection E2 as <- <-.
  split_and!; [destruct (_ =? _); auto|done..].
Qed.

(** No client is about to expire at the time [t]. *)
Definition healthy (t : Z) (s : wdmd) : Prop :=
  Forall (fun c => client_fails t s.(standard_test_interval) c = false) s.(w_client).

(** Only the daemon's own connections are left, without references. *)
Definition unused (s : wdmd) : Prop :=
  Forall (fun c => c.(wc_used) = 0 \/ (c.(wc_internal) <> 0 /\ c.(wc_refcount) = 0)) s.(w_client).

Lemma count_zero p l : count p l = 0 <-> Forall (fun c => p c = false) l.
Proof.
  unfold count. induction l as [|c l IH]; cbn; [done|]. rw list.Forall_cons. destruct (p c); cbn.
  - split; [lia|by intros []].
  - rw IH. tauto.
Qed.

Lemma count_nonneg p l : 0 <= count p l.
Proof. unfold count. lia. Qed.

Lemma test_clients_healthy t s : test_clients t s = 0 <-> healthy t s.
Proof. apply count_zero. Qed.

Lemma counts_unused s : count_clients s = (0, 0) -> unused s.
Proof.
  intros [= H1 H2]. apply count_zero in H1. apply count_zero in H2. unfold unused. rw list.Forall_forall.
  rw list.Forall_forall in H1. rw list.Forall_forall in H2. intros c Hc. specialize (H1 c Hc). specialize (H2 c Hc).
  cbn in H1, H2. unfold nz in *. destruct (Z.eqb_spec c.(wc_used) 0); [by left|right]. cbn in H1, H2. zbool. done.
Qed.

(** What a test does to the device. *)
Lemma test_result_device ti n s ev s' :
  test_result ti n s = (ev, s') ->
  s'.(w_client) = s.(w_client) /\ s'.(standard_test_interval) = s.(standard_test_interval) /\ (DevDisarm ∉ ev) /\
  (DevPet ∈ ev \/ DevOpen ∈ ev -> n = 0) /\ (n = 0 -> s.(dev_fd) <> -1 -> DevPet ∈ ev).
Proof.
  unfold test_result, open_dev, pet_watchdog, close_watchdog_unclean. intros E.
  destruct (Z.eqb_spec n 0) as [->|Hn]; destruct (Z.eqb_spec s.(dev_fd) (-1)) as [Ed|Ed].
  - cbn [negb] in E. destruct (_ <? 0) in E; injection E as <- <-; (split_and!; [done..| |done|done]);
      cbn; cases; no_disarm.
  - cbn [negb] in E. injection E as <- <-. rw (proj2 (Z.eqb_neq _ _) Ed). split_and!; try done; [no_disarm|].
    intros _ _. apply list_elem_of_here.
  - injection E as <- <-. split_and!; try done; [no_disarm|]. by intros [H|H]; apply elem_of_nil in H.
  - injection E as <- <-. split_and!; try done; [no_disarm|].
    by intros [H|H]; apply list_elem_of_singleton in H.
Qed.

(** A turn of the loop from a state in which the device is in use. *)
Lemma turn_device ti s r ev s' :
  s.(test_loop_enable) <> 0 -> enough_rounds s.(standard_test_interval) ti.(ti_scripts) ->
  test_loop_turn ti s = Some (r, ev, s') ->
  (ev = [] /\ forall t, r <> Again (Some t)) \/
  (r = Again None /\ unused s' /\ ev = [if ti.(ti_disarm) then DevDisarm else DevClose]) \/
  (exists t n s1 s2, r = Again (Some t) /\ 0 <= n /\ s1.(dev_fd) = s.(dev_fd) /\ (s.(allow_scripts) = 0 -> n = 0) /\
     test_result ti (n + test_clients t s1) s1 = (ev, s2) /\ s'.(w_client) = s2.(w_client) /\
     s'.(standard_test_interval) = s2.(standard_test_interval)).
Proof.
  intros Hen Hr E. unfold test_loop_turn in E. set (l := seq 0 _) in E.
  destruct (visits_quiet ti.(ti_poll) l (length l) s) as (s1 & Ev & [_ Q1 Q2 Q3 Q4]); [|done|].
  { unfold l. rw length_seq. by intros ?%elem_of_seq; lia. }
  rewrite -> Ev in E. destruct (count_clients s1) as [active external] eqn:Ec.
  destruct (_ && (active =? 0)); [injection E as <- <- <-; by left|].
  rewrite -> Q1, (proj2 (Z.eqb_neq _ _) Hen) in E.
  destruct ((active =? 0) && (external =? 0) && _) eqn:Eu.
  - unfold close_watchdog in E. zbool. subst. destruct (_ =? -1); injection E as <- <- <-; [by left|].
    right; left. split_and!; [done| |done]. by apply counts_unused in Ec.
  - destruct (_ <=? _); [|injection E as <- <- <-; by left].
    unfold test_now in E. set (s2 := s1 <| test_time := _ |>) in E.
    destruct (test_scripts_total ti.(ti_scripts) s2) as (n & s3 & Es & Hn & E3); [by rw Q2|].
    rewrite -> Es in E. cbn [mbind option_bind] in E.
    destruct (test_result _ _ _) as [ev' s4] eqn:Et in E. injection E as <- <- <-.
    right; right. exists ti.(ti_clients), n, s3, s4. split_and!; [done|done|by rw E3| | |done|done].
    + intros Ha. unfold test_scripts in Es. rewrite -> (Q4 : s2.(allow_scripts) = _), Ha in Es. by injection Es as <- _.
    + by rewrite -> Z.add_0_l in Et.
Qed.

(** C17: The device is kept alive for the clients and stopped only without them.
    In a turn of the daemon while the device is in use, it is opened or kept
    alive only after a test of that turn in which no client was about to expire,
    and it is disarmed only when no client but the daemon's own connections is
    left. A test in that turn that finds no client about to expire keeps the
    device alive if the device is open and scripts are not allowed (with
    scripts, one that fails closes the device although all clients are healthy).
    The clock is assumed to reach the end of the wait for the scripts. *)
Theorem device_follows_clients ti s r ev s' :
  s.(test_loop_enable) <> 0 -> enough_rounds s.(standard_test_interval) ti.(ti_scripts) ->
  test_loop_turn ti s = Some (r, ev, s') ->
  (DevPet ∈ ev \/ DevOpen ∈ ev -> exists t, r = Again (Some t) /\ healthy t s') /\
  (DevDisarm ∈ ev -> unused s') /\
  (forall t, r = Again (Some t) -> s.(allow_scripts) = 0 -> s.(dev_fd) <> -1 -> healthy t s' -> DevPet ∈ ev).
Proof.
  intros Hen Hr E.
  destruct (turn_device ti s r ev s' Hen Hr E)
    as [[-> Hne]|[(-> & Hu & ->)|(t & n & s1 & s2 & -> & Hn & Hd & Ha & Et & Ec & Ei)]].
  - split_and!; [by intros [H|H]; apply elem_of_nil in H|by intros H; apply elem_of_nil in H|]. intros t ->. by destruct (Hne t).
  - split_and!; [by destruct (ti_disarm ti); intros [H|H]; apply list_elem_of_singleton in H|done|done].
  - destruct (test_result_device _ _ _ _ _ Et) as (E1 & E2 & H1 & H2 & H3).
    pose proof (count_nonneg (client_fails t s1.(standard_test_interval)) s1.(w_client)) as Hc.
    fold (test_clients t s1) in Hc.
    assert (healthy t s' <-> test_clients t s1 = 0) as Hh by (rw test_clients_healthy; unfold healthy; by rw Ec E1 Ei E2).
    split_and!; [|done|].
    + intros H%H2. exists t. split; [done|]. apply Hh. lia.
    + intros t' [= <-] Has Hdev Hhe%Hh. apply H3; [rw (Ha Has); lia|congruence].
Qed.

(** *** A daemon with one client *)

(** A connection registers, opens the device with a timeout of 60 seconds, takes a
    reference and expires at 100. *)
Definition demo_header (cmd expire : Z) : wdmd_header := WdmdHeader cmd 0 60 0 0 expire [115; 0].
Definition demo_dev : dev_env := DevEnv 9 (Some 60) None None true 20.
Definition demo_poll (ci : nat) (accept : Z) (rx : conn_input) (i : nat) : poll_in :=
  PollIn (bool_decide (i = ci)) false rx accept None None.
Definition demo_scripts (now : Z) : script_env := ScriptEnv now (fun _ => 0) [(fun _ => WaitRunning, now + 9)].
Definition demo_turn (ci : nat) (accept : Z) (rx : conn_input) (now : Z) : turn_in :=
  TurnIn (demo_poll ci accept rx) true now now (demo_scripts now) now 10 now now.
Definition demo_msg (cmd expire now : Z) : turn_in := demo_turn 2 0 (RecvMsg (demo_header cmd expire) (Some 7) demo_dev) now.

Definition demo_setup : list turn_in :=
  [demo_turn 1 8 RecvEof 10; demo_msg CMD_REGISTER 0 11; demo_msg CMD_OPEN_WATCHDOG 0 12;
   demo_msg CMD_REFCOUNT_SET 0 13; demo_msg CMD_TEST_LIVE 100 14].
Definition demo_state : wdmd :=
  match test_loop demo_setup (wdmd_start 0 0 4 5 None) with Some (_, _, s) => s | None => wdmd_zero 0 0 end.

(** Tests at 70, 95 and 97; the process dies in between. *)
Definition demo_idle (now : Z) : turn_in := demo_turn 9 0 RecvEof now.
Definition demo_silence : list turn_in := [demo_idle 70; demo_turn 2 0 RecvBad 95; demo_idle 97].

Lemma demo_rounds now : 0 <= now < 1000 -> enough_rounds 10 (demo_scripts now).
Proof.
  intros H. constructor. cbn. replace (now + 9 - now) with 9 by lia. vm_compute. discriminate.
Qed.

Lemma demo_monitored : monitored 2 100 10 demo_state.
Proof. constructor; [|done|by vm_compute|by vm_compute]. eexists. split; [vm_compute; reflexivity|]. done. Qed.

Lemma watchdog_left_to_fire_witness :
  exists tr s', test_loop demo_silence demo_state = Some (false, tr, s') /\ tr !! 1%nat = Some (Some 95, [DevClose]) /\
    s'.(dev_fd) = -1.
Proof.
  destruct (watchdog_left_to_fire 2 100 10 demo_silence demo_state 0 demo_monitored ltac:(lia) ltac:(lia)) as (tr & s' & E & _ & _ & H).
  - repeat constructor; try done; by apply demo_rounds.
  - cbn. lia.
  - exists tr, s'. assert (tr !! 1%nat = Some (Some 95, [DevClose])) as Htr.
    { revert E. vm_compute. by intros [= <- _]. }
    split; [exact E|]. split; [exact Htr|]. exact (proj1 (proj2 (H 1%nat 95 [DevClose] Htr ltac:(lia)))).
Defined.

Lemma device_follows_clients_witness :
  exists r ev s', test_loop_turn (demo_idle 70) demo_state = Some (r, ev, s') /\ DevPet ∈ ev /\ (DevDisarm ∈ ev -> unused s').
Proof.
  destruct (test_loop_turn (demo_idle 70) demo_state) as [[[r ev] s']|] eqn:E; [|exfalso; revert E; vm_compute; done].
  exists r, ev, s'. split; [done|].
  destruct (device_follows_clients (demo_idle 70) demo_state r ev s') as (_ & H & _);
    [by vm_compute|by apply demo_rounds|done|].
  split; [|exact H]. revert E. vm_compute. intros [= _ <- _]. apply list_elem_of_here.
Defined.
